(* ===== verification/_CoqProject ===== *)
-Q . S2P
Prelude.v
Borsh.v
Events.v
Runtime.v
Toy.v
State.v
Commitments.v
Frames.v
Pda.v
Instruction.v
Verifier.v
Merkle.v
StepProof.v
Artifact.v
SessionOps.v
Delegation.v
Settlement.v
Checkpoint.v
Challenge.v
Lifecycle.v
Dispute.v
Outcomes.v
Deposits.v
Ingress.v
TokenWithdrawal.v
BridgeState.v
Continuity.v
Dispatch.v
Bridge.v
Integrity.v
Portal.v
Sizes.v
ToySpl.v
BridgeSpec.v
Vault.v
Flows.v
BridgeProps.v
Planner.v
Mirror.v
Geyser.v
EventExtraction.v
EventBroker.v
BrokerBounds.v
EventStream.v
