(* ===== verification/Prelude.v ===== *)
(** * NorthStar: the Portal, the token bridge, the settlement planner and the
      event plugin

    NorthStar runs sessions of an ephemeral rollup (ER) beside a Solana cluster
    (L1).  Four parts of it are verified here:

    - the Portal (northstar/programs/portal/src), the L1 program that keeps the
      sessions, the accounts delegated to them, the checkpoints the validator
      proposes for the rollup's state with the disputes about them, the
      settlement of a checkpoint's effects on L1, and the SOL that enters and
      leaves the rollup;
    - the token bridge (northstar/programs/token-bridge/src), which does the same
      for SPL tokens and calls the Portal;
    - the validator's code that has to agree with them: checkpoint artifacts
      (northstar/src/checkpoint.rs) and settlement plans
      (northstar/src/settlement.rs), with the shared types of
      northstar/zk-types/src;
    - the event plugin (northstar/geyser-events/src), which extracts the programs'
      events from the validator's transactions and serves them to subscribers.

    Paths below are relative to src/, the Portal's and the bridge's to their own
    src directories.

    ** How the code is modelled

    A handler [process_x(program_id, accounts, args)] is a definition of the same
    name, [process_x cx accounts args : prog unit], in the state-and-error monad
    [M] of this file over the world of Runtime.v.  The accounts are addresses
    into one shared store, so that an account passed twice is one account; [cx]
    has what the runtime fixes for an instruction.  An error is a value
    ([ProgramError]), a Rust panic is the error [Panicked] (in the validator's
    code [None]), and a failing instruction keeps no state.  Integers are Z with
    their checked, saturating or wrapping operations written out; bytes are
    [Byte.byte]; structs are records with Borsh codecs (Borsh.v) for which
    decoding inverts encoding.  Frame conditions (a handler reads only, conserves
    lamports, leaves other accounts alone) are type classes solved by instance
    resolution.

    Code that is not in the repository is a parameter: [Host] with [HostLaws]
    (SHA-256, Poseidon, program addresses, rent, account close, clock and mint
    readers), [Groth16] (the pairing check), [Spl] with [SplLaws] (the Token
    program), [Programs] (what is deployed at an address), [KeyText] with
    [KeyTextLaws] (base58 and base64, in Geyser.v), the order in which a hash map
    is visited and, in Planner.v, the size of a signed transaction.  Cryptographic claims hold "or there is a
    collision", and the collision is between messages the code really hashed.
    Toy.v, ToySpl.v and the instance of [Groth16] in Verifier.v are concrete
    parameters that satisfy the laws; the example Modules ([SessionExample] and
    the like) run the handlers on them, and the witnesses apply the theorems
    there.  Build features are arguments: [Features] for the verifiers and the
    boolean [continuity_v2] for the second checkpoint format.

    ** Files

    Foundations:
    - Prelude.v: results, the monad, machine integers, byte strings, tactics;
    - Borsh.v: codecs;  Events.v: events.rs;
    - Runtime.v: accounts, [Host], and the System program
      (programs/system/src/system_processor.rs, with the account rules of
      transaction-context and program-runtime);  Toy.v: a host.

    The Portal:
    - State.v: state.rs, error.rs;  Frames.v: continuity.rs;  Pda.v: pda.rs,
      instructions/mod.rs;  Instruction.v: instruction.rs;
    - Commitments.v: zk-types/src/continuity.rs;  Verifier.v:
      zk-types/src/lib.rs, instructions/verifier.rs and its keys;
    - SessionOps.v: open_session.rs, close_session.rs;  Delegation.v:
      delegate.rs, undelegate.rs, request_undelegation.rs;
    - Settlement.v: settlement.rs;  Deposits.v: deposit_fee.rs,
      start_withdrawal.rs, settle_deposit_receipt.rs;  TokenWithdrawal.v:
      register_session_bridge.rs, accumulate_token_withdrawal.rs;
    - StepProof.v, Checkpoint.v, Challenge.v: checkpoint.rs;
    - Ingress.v, Continuity.v: instructions/continuity.rs, continuity/bridge.rs,
      continuity/token_credit.rs;
    - Dispatch.v: lib.rs.

    The token bridge: BridgeState.v (state.rs, zk-types/src/token_bridge.rs) and
    Bridge.v (processor.rs and its modules, portal_abi.rs, instruction.rs);
    ToySpl.v is a Token program.

    The validator: Merkle.v and Artifact.v (northstar/src/checkpoint.rs),
    Planner.v (northstar/src/settlement.rs).

    The event plugin: Geyser.v (geyser-events/src/event.rs, extract.rs, broker.rs
    and, of server.rs, the resume point and the stream).  A channel is the list of
    the messages sent on it, a receiver a position in it, and the broker's
    operations, which hold its lock, run one after the other.  EventExtraction.v,
    EventBroker.v (the broker's invariant), BrokerBounds.v and EventStream.v (the
    properties) are about it.

    What they do together: Lifecycle.v (the abstract life of checkpoints),
    Dispute.v, Outcomes.v, Integrity.v, Portal.v, Sizes.v (no instruction but
    CloseSession resizes an account that has data), BridgeSpec.v, Vault.v, Flows.v,
    BridgeProps.v, Mirror.v.

    ** What is shown

    Settlement.  The handlers, which keep only a running hash in the session,
    implement a machine that remembers the operations themselves
    ([settlement_refines]): each instruction that changes an account applies the
    operations it was asked for.  A finished settlement has applied exactly the planned
    operations ([settlement_applies_exactly_the_plan]), and no instruction of an aborted
    one changed an account ([settlement_aborts_only_untouched]).  The
    planner never panics, its plans lead from the L1 state to the rollup's state,
    its batches lose no instruction and a resumed settlement skips the lamports
    only when they are applied; and running its instructions from the bytes
    leaves every settled account with the rollup's data, balance and owner
    ([settlement_mirrors_rollup]).

    Checkpoints.  The eleven handlers refine the life cycle of Lifecycle.v
    ([checkpoint_lifecycle]); the checkpoints that were committed, as they stood in
    their accounts, form a chain of roots that ends at the session's final root; a disputed
    interval is attested by the trace root; a dispute takes at most ten moves and
    neither a dispute nor a due checkpoint can block a session for ever; what
    the verifier accepts and what it binds; that the paths of the validator's
    artifacts are those the Portal accepts, and that artifacts verify, are
    canonical and survive encoding.

    Money.  No instruction creates lamports ([portal_conserves_lamports]); receipts stay solvent; a token
    withdrawal is consumed once and as it was accumulated, under the session bridge
    it was accumulated with; the bridge's vault
    stays solvent from its creation on, whatever is called
    ([vault_stays_solvent]); token deposits are accounted for and credited once,
    withdrawals settled once; a token account comes back from delegation as it
    was, in both builds of the bridge; an undelegation was approved by the validator
    of the account's session.

    Ingress of the second format.  The log is complete and its root binds it;
    checkpoints consume it in order.

    Events.  A program's events do not depend on what else is watched.  Over every
    run of the broker, with a ghost record of the program's events in the banks
    that were published: a subscriber that resumes and is told of no gap receives
    exactly those it asked for ([resumed_stream_complete]); the broker stays within its
    limits, and its byte counters are the sizes of the events it holds; no notification panics and each loop ends; and the identifier a
    stream prints is one it can resume from.

    Errors.  Pre-funded addresses and foreign token accounts block the bridge's
    accounts, a second proposal for a slot is refused in the second format whatever
    became of the first, a
    rejected step proof costs the proposer the bond, and a transaction parsed
    before a subscription can lose its events for the subscriber without a notice:
    these are the properties behind the findings of the manifest.

    ** Bounds and fuel

    The loops of the programs run over lists of accounts, targets or steps and
    are structural; a Merkle path is checked along its siblings.  Building a tree
    has the depth of the tree as fuel, enough for the padded layer (Merkle.v,
    [grow_complete]).  Calls between programs are nested up to a depth that is an
    argument of [deployed] (Vault.v); at zero a call fails with the runtime's own
    error, and the bridge's properties hold for every depth.  The planner's loops
    have the length of the data plus one as fuel, which
    [settlement_planner_total] shows to be enough.  The broker's loops have the
    number of pending banks, selected slots, dead slots or buffered messages as
    fuel: a round removes one, and [broker_never_panics] and
    [broker_stays_bounded] show that a loop stops because its condition is false
    or nothing is left.  Decimal numbers have 20 digits, those of a u64.

    ** Not modelled

    - The rest of the validator in northstar/src (the ephemeral runtime, the L1
      client, the manager, the V2 lineage store, proof jobs): threads, RPC,
      processes and files around a Bank.  Its results enter as arguments: the
      diff of a slot in Planner.v, the steps of a checkpoint in Artifact.v.
    - The provers, replay harnesses, virtual-machine guests, the VRF oracle
      and the client libraries: they are not called by the code
      above, and rest on third-party virtual machines, servers or macros.
    - Of the event plugin, the HTTP server with its JSON, the configuration file
      and its validation, and the callbacks, which only pass their arguments on:
      sockets, threads and third-party formats.  A receiver that lags behind the
      capacity of its channel ends its stream with the notice of [lag_notice].
    - The Agave validator the repository is forked from, apart from what
      Runtime.v takes from it: the resize budget of an account, rent epochs,
      compute units and the other System instructions are left out.
    - Transactions as units: a property about a sequence of instructions holds
      for every way of grouping them, since a failing instruction is not part of
      the sequence.
    - The entry points that unpack the input buffer, profile.rs (log lines), and
      the step public inputs of format 2 in zk-types/src/continuity.rs. *)

From Stdlib Require Import ZArith Lia.
From Stdlib Require Import Strings.Byte.
From stdpp Require Import base gmap list numbers.

#[global] Open Scope Z_scope.
#[export] Set Default Goal Selector "!".
#[export] Set Warnings "-clear-no-such-hyp".

Declare Scope portal_scope.
Delimit Scope portal_scope with portal.
#[global] Open Scope portal_scope.

(** ** Decidable equality of bytes, and boolean tests *)

#[global] Instance byte_eq_decision : EqDecision byte := byte_eq_dec.

#[global] Program Instance byte_countable : Countable byte :=
  inj_countable Byte.to_N Byte.of_N _.
Next Obligation. apply Byte.of_to_N. Qed.

(** [a == b] and [a != b] are the source's [==] and [!=] on types with
    decidable equality. *)
Notation "a == b" := (bool_decide (a = b)) (at level 70) : portal_scope.
Notation "a != b" := (negb (bool_decide (a = b))) (at level 70) : portal_scope.

(** ** Results and the state-and-error monad *)

Inductive result (E A : Type) : Type :=
| Ok (a : A)
| Err (e : E).
Arguments Ok {E A} a.
Arguments Err {E A} e.

Definition is_ok {E A} (r : result E A) : bool :=
  match r with Ok _ => true | Err _ => false end.

(** A computation over a state [S] that can fail: failure keeps no state,
    because a failing instruction reverts the whole transaction. *)
Definition M (S E A : Type) : Type := S → result E (A * S).

#[global] Instance M_ret {S E} : MRet (M S E) := λ A a s, Ok (a, s).
#[global] Instance M_bind {S E} : MBind (M S E) := λ A B f m s,
  match m s with
  | Ok (a, s') => f a s'
  | Err e => Err e
  end.

Definition fail {S E A} (e : E) : M S E A := λ _, Err e.

(** [if c { return Err(e) }] *)
Definition err_if {S E} (c : bool) (e : E) : M S E unit :=
  λ s, if c then Err e else Ok (tt, s).

(** [o.ok_or(e)?] *)
Definition ok_or {S E A} (o : option A) (e : E) : M S E A :=
  λ s, match o with Some a => Ok (a, s) | None => Err e end.

(** [r.map_err(f)?] for a computation that does not touch the state *)
Definition lift_err {S E F A} (f : F → E) (r : result F A) : M S E A :=
  λ s, match r with Ok a => Ok (a, s) | Err e => Err (f e) end.

Definition gets {S E A} (f : S → A) : M S E A := λ s, Ok (f s, s).
Definition modify {S E} (f : S → S) : M S E unit := λ s, Ok (tt, f s).

(** [for x in xs { f(x)? }] *)
Fixpoint for_each {S E A} (f : A → M S E unit) (xs : list A) : M S E unit :=
  match xs with
  | [] => mret tt
  | x :: xs' => f x ;; for_each f xs'
  end.

Section monad_lemmas.
Context {S E : Type}.
Implicit Types s : S.

Lemma bind_Ok {A B} (m : M S E A) (f : A → M S E B) s b s'' :
  (m ≫= f) s = Ok (b, s'') ↔ ∃ a s', m s = Ok (a, s') ∧ f a s' = Ok (b, s'').
Proof. unfold mbind, M_bind. destruct (m s) as [[a s']|e]; naive_solver. Qed.

Lemma bind_run {A B} (m : M S E A) (f : A → M S E B) s a s' :
  m s = Ok (a, s') → (m ≫= f) s = f a s'.
Proof. unfold mbind, M_bind. by intros ->. Qed.

Lemma bind_fail {A B} (m : M S E A) (f : A → M S E B) s e :
  m s = Err e → (m ≫= f) s = Err e.
Proof. unfold mbind, M_bind. by intros ->. Qed.

Lemma ret_Ok {A} (a b : A) s s' :
  (mret a : M S E A) s = Ok (b, s') ↔ a = b ∧ s' = s.
Proof. unfold mret, M_ret. naive_solver. Qed.

Lemma err_if_Ok c (e : E) s u s' :
  err_if c e s = Ok (u, s') ↔ c = false ∧ s' = s.
Proof. unfold err_if. destruct c, u; naive_solver. Qed.

Lemma err_if_bind {B} c (e : E) (f : unit → M S E B) s :
  (err_if c e ≫= f) s = if c then Err e else f tt s.
Proof. by destruct c. Qed.

Lemma ok_or_Ok {A} (o : option A) (e : E) s a s' :
  ok_or o e s = Ok (a, s') ↔ o = Some a ∧ s' = s.
Proof. unfold ok_or. destruct o; naive_solver. Qed.

Lemma lift_err_Ok {F A} (f : F → E) (r : result F A) s a s' :
  lift_err f r s = Ok (a, s') ↔ r = Ok a ∧ s' = s.
Proof. unfold lift_err. destruct r; naive_solver. Qed.

Lemma gets_Ok {A} (f : S → A) s a s' :
  (gets f : M S E A) s = Ok (a, s') ↔ f s = a ∧ s' = s.
Proof. unfold gets. naive_solver. Qed.

Lemma modify_Ok (f : S → S) s u s' :
  (modify f : M S E unit) s = Ok (u, s') ↔ s' = f s.
Proof. unfold modify. destruct u. naive_solver. Qed.

Lemma fail_Ok {A} (e : E) s (p : A * S) : fail e s = Ok p ↔ False.
Proof. unfold fail. naive_solver. Qed.
End monad_lemmas.

(** ** Inverting successful runs

    [minv] decomposes hypotheses [m s = Ok (a, s')] of a monadic program into
    the facts that made it succeed.  Component files extend [minv_hook] with
    the inversion lemmas of their own operations. *)

Ltac minv_hook H := fail.

Ltac minv_hyp H :=
  lazymatch type of H with
  | mbind _ _ _ = Ok _ =>
      let a := fresh "v" in let s := fresh "s" in let E := fresh "Hrun" in
      apply bind_Ok in H; destruct H as (a & s & E & H); cbv beta in H;
      try match type of a with unit => destruct a end
  | mret _ _ = Ok _ => apply ret_Ok in H; destruct H as [? ?]; subst
  | err_if _ _ _ = Ok _ => apply err_if_Ok in H; destruct H as [H ?]; subst
  | ok_or _ _ _ = Ok _ => apply ok_or_Ok in H; destruct H as [H ?]; subst
  | lift_err _ _ _ = Ok _ => apply lift_err_Ok in H; destruct H as [H ?]; subst
  | gets _ _ = Ok _ => apply gets_Ok in H; destruct H as [? ?]; subst
  | modify _ _ = Ok _ => apply modify_Ok in H; subst
  | fail _ _ = Ok _ => apply fail_Ok in H; destruct H
  | Err _ = Ok _ => discriminate H
  | (if ?c then _ else _) _ = Ok _ => let Hc := fresh "Hif" in destruct c eqn:Hc
  | (match ?x with (_, _) => _ end) _ = Ok _ =>
      let Hc := fresh "Hpair" in destruct x eqn:Hc
  | (match ?x with Some _ => _ | None => _ end) _ = Ok _ =>
      let Hc := fresh "Hopt" in destruct x eqn:Hc
  | _ => minv_hook H
  end.

(** One step of a run: [mstep H as a w E] splits [H : (m ≫= f) w0 = Ok _] into
    [E : m w0 = Ok (a, w)] and the rest, and inverts [E] when it is simple. *)
Tactic Notation "mstep" ident(H) "as" simple_intropattern(a) ident(w) ident(E) :=
  apply bind_Ok in H; destruct H as (a & w & E & H); cbv beta in H;
  try lazymatch type of E with
      | (if _ then _ else _) _ = _ => fail
      | _ => minv_hyp E; try minv_hyp E
      end.

Ltac minv :=
  repeat match goal with
         | H : _ = Ok _ |- _ => minv_hyp H
         end.

(** ** Machine integers

    A [w]-bit unsigned integer is a [Z]; its range and Rust's checked and
    saturating operations are written out. *)

Definition umax (w : Z) : Z := 2 ^ w - 1.
Definition in_width (w z : Z) : Prop := 0 ≤ z ≤ umax w.

Definition checked_add (w a b : Z) : option Z :=
  if a + b <=? umax w then Some (a + b) else None.
Definition checked_sub (a b : Z) : option Z :=
  if b <=? a then Some (a - b) else None.
Definition saturating_add (w a b : Z) : Z := Z.min (a + b) (umax w).
Definition saturating_sub (a b : Z) : Z := Z.max (a - b) 0.

Abbreviation u64_checked_add := (checked_add 64).
Abbreviation u64_saturating_add := (saturating_add 64).
Abbreviation is_u64 := (in_width 64).
Abbreviation is_u8 := (in_width 8).

Lemma checked_add_Some w a b c :
  checked_add w a b = Some c ↔ c = a + b ∧ a + b ≤ umax w.
Proof. unfold checked_add. destruct (Z.leb_spec (a + b) (umax w)); naive_solver lia. Qed.

Lemma checked_sub_Some a b c :
  checked_sub a b = Some c ↔ c = a - b ∧ b ≤ a.
Proof. unfold checked_sub. destruct (Z.leb_spec b a); naive_solver lia. Qed.

Lemma saturating_add_le w a b : saturating_add w a b ≤ a + b.
Proof. unfold saturating_add. lia. Qed.

(** Boolean guards and checked arithmetic as propositions. *)
Ltac bprop :=
  repeat match goal with
         | H : checked_add _ _ _ = Some _ |- _ => apply checked_add_Some in H; destruct H; try subst
         | H : checked_sub _ _ = Some _ |- _ => apply checked_sub_Some in H; destruct H; try subst
         | H : (_ || _)%bool = false |- _ => apply orb_false_iff in H; destruct H
         | H : (_ && _)%bool = true |- _ => apply andb_true_iff in H; destruct H
         | H : (_ || _)%bool = true |- _ => apply orb_true_iff in H
         | H : (_ && _)%bool = false |- _ => apply andb_false_iff in H
         | H : negb _ = false |- _ => apply negb_false_iff in H
         | H : negb _ = true |- _ => apply negb_true_iff in H
         | H : bool_decide _ = true |- _ => apply bool_decide_eq_true in H
         | H : bool_decide _ = false |- _ => apply bool_decide_eq_false in H
         | H : (_ <? _) = true |- _ => apply Z.ltb_lt in H
         | H : (_ <? _) = false |- _ => apply Z.ltb_ge in H
         | H : (_ <=? _) = true |- _ => apply Z.leb_le in H
         | H : (_ <=? _) = false |- _ => apply Z.leb_gt in H
         | H : (_ =? _) = true |- _ => apply Z.eqb_eq in H
         | H : (_ =? _) = false |- _ => apply Z.eqb_neq in H
         end.

(** Pairwise distinctness as inequalities. *)
Ltac nodup :=
  repeat match goal with
         | H : NoDup (_ :: _) |- _ => apply list.NoDup_cons in H; destruct H
         | H : NoDup [] |- _ => clear H
         | H : _ ∉ [] |- _ => clear H
         | H : _ ∉ _ :: _ |- _ => apply not_elem_of_cons in H; destruct H
         end.

Lemma NoDup_3 {A} (x y z : A) : x ≠ y → x ≠ z → y ≠ z → NoDup [x; y; z].
Proof.
  intros. rewrite !list.NoDup_cons, !not_elem_of_cons.
  split_and!; try done; try apply not_elem_of_nil. constructor.
Qed.

(** Induction over groups of four. *)
Lemma list_ind4 {A} (P : list A → Prop) :
  P [] → (∀ a, P [a]) → (∀ a b, P [a; b]) → (∀ a b c, P [a; b; c]) →
  (∀ a b c d l, P l → P (a :: b :: c :: d :: l)) → ∀ l, P l.
Proof.
  intros H0 H1 H2 H3 H4. fix F 1. intros [|a [|b [|c [|d l]]]]; [done..|]. apply H4, F.
Qed.

(** ** Bytes and little-endian integers *)

Definition byte_val (b : byte) : Z := Z.of_N (Byte.to_N b).
Definition byte_of_Z (z : Z) : byte := default x00 (Byte.of_N (Z.to_N (z mod 256))).

Fixpoint le_val (bs : list byte) : Z :=
  match bs with
  | [] => 0
  | b :: bs' => byte_val b + 256 * le_val bs'
  end.

(** [z.to_le_bytes()] at [n] bytes. *)
Fixpoint le_bytes (n : nat) (z : Z) : list byte :=
  match n with
  | O => []
  | S n' => byte_of_Z z :: le_bytes n' (z / 256)
  end.

(** [z.to_be_bytes()] at [n] bytes. *)
Definition be_bytes (n : nat) (z : Z) : list byte := reverse (le_bytes n z).

Lemma byte_val_range b : 0 ≤ byte_val b < 256.
Proof. unfold byte_val. pose proof (Byte.to_N_bounded b). lia. Qed.

Lemma byte_val_of_Z z : byte_val (byte_of_Z z) = z mod 256.
Proof.
  unfold byte_val, byte_of_Z. pose proof (Z.mod_pos_bound z 256 ltac:(lia)).
  destruct (Byte.of_N _) as [b|] eqn:Hb; simpl.
  - apply Byte.to_of_N in Hb. rewrite Hb, Z2N.id; lia.
  - apply Byte.of_N_None_iff in Hb. lia.
Qed.

Lemma byte_val_inj b c : byte_val b = byte_val c → b = c.
Proof.
  unfold byte_val. intros H%N2Z.inj.
  pose proof (Byte.of_to_N b) as Hb. pose proof (Byte.of_to_N c) as Hc. congruence.
Qed.

Lemma byte_of_Z_val b : byte_of_Z (byte_val b) = b.
Proof.
  apply byte_val_inj. rewrite byte_val_of_Z. apply Z.mod_small, byte_val_range.
Qed.

Lemma length_le_bytes n z : length (le_bytes n z) = n.
Proof. revert z. induction n; intros; simpl; auto. Qed.

Lemma le_val_bytes n z : 0 ≤ z < 256 ^ Z.of_nat n → le_val (le_bytes n z) = z.
Proof.
  revert z. induction n as [|n IH]; intros z Hz; cbn [le_val le_bytes].
  - rewrite Z.pow_0_r in Hz. lia.
  - rewrite Nat2Z.inj_succ, Z.pow_succ_r in Hz by lia.
    rewrite byte_val_of_Z, IH.
    + pose proof (Z.div_mod z 256). lia.
    + split; [apply Z.div_pos; lia|apply Z.div_lt_upper_bound; lia].
Qed.

Lemma le_bytes_val bs : le_bytes (length bs) (le_val bs) = bs.
Proof.
  induction bs as [|b bs IH]; cbn [le_val le_bytes length]; [done|].
  pose proof (byte_val_range b). f_equal.
  - apply byte_val_inj. rewrite byte_val_of_Z, (Z.mul_comm 256), Z.mod_add by lia.
    by apply Z.mod_small.
  - rewrite (Z.mul_comm 256), Z.div_add, (Z.div_small (byte_val b)) by lia.
    by rewrite Z.add_0_l.
Qed.

Lemma le_val_range bs : 0 ≤ le_val bs < 256 ^ Z.of_nat (length bs).
Proof.
  induction bs as [|b bs IH]; cbn [le_val length]; [simpl; lia|].
  rewrite Nat2Z.inj_succ, Z.pow_succ_r by lia. pose proof (byte_val_range b). lia.
Qed.

Lemma umax_256 w n : w = 8 * Z.of_nat n → umax w = 256 ^ Z.of_nat n - 1.
Proof. unfold umax. intros ->. by rewrite Z.pow_mul_r by lia. Qed.

(** Byte-string literals: [str "session"] is Rust's [b"session"]. *)
Inductive bytestring : Set := Bytestring (l : list byte).
Definition str (s : bytestring) : list byte := match s with Bytestring l => l end.
Declare Scope bytestring_scope.
Delimit Scope bytestring_scope with bytestring.
Bind Scope bytestring_scope with bytestring.
String Notation bytestring Bytestring str : bytestring_scope.

(** ** Byte arrays *)

(** Rust's [[0; n]] *)
Definition zeros (n : nat) : list byte := replicate n x00.
Abbreviation zero32 := (zeros 32).

(** [data.starts_with(p)] *)
Definition starts_with (data p : list byte) : bool := take (length p) data == p.

(** [data[start..start + new.len()].copy_from_slice(new)], in range *)
Definition splice (data : list byte) (start : nat) (new : list byte) : list byte :=
  take start data ++ new ++ drop (start + length new) data.

(** [data[start..start + len]] *)
Definition slice (data : list byte) (start len : nat) : list byte :=
  take len (drop start data).

Lemma length_zeros n : length (zeros n) = n.
Proof. apply length_replicate. Qed.

Lemma length_splice data start new :
  (start + length new ≤ length data)%nat → length (splice data start new) = length data.
Proof. intros. unfold splice. rewrite !length_app, length_take, length_drop. lia. Qed.

Lemma slice_splice data start new :
  (start + length new ≤ length data)%nat → slice (splice data start new) start (length new) = new.
Proof.
  intros. unfold slice, splice.
  rewrite drop_app_length' by (rewrite length_take; lia).
  by rewrite take_app_length.
Qed.

Lemma starts_with_app p data : starts_with (p ++ data) p = true.
Proof. unfold starts_with. rewrite take_app_length. by apply bool_decide_eq_true. Qed.

(** Two concatenations of equal-length heads split. *)
Lemma app_inj_len {A} (l1 l2 k1 k2 : list A) :
  length l1 = length l2 → l1 ++ k1 = l2 ++ k2 → l1 = l2 ∧ k1 = k2.
Proof. intros. by apply app_inj_1. Qed.
