(* ===== verification/Borsh.v ===== *)
(** * Borsh codecs

    The wire format of every account and instruction of the Portal: the
    [BorshSerialize]/[BorshDeserialize] derives.  A [codec] is an encoder, a
    prefix decoder and the range of values the Rust type can hold; [CodecOk]
    states that decoding inverts encoding and that the decoder accepts nothing
    but encodings; [CodecSize] that every encoding has one length.  Struct
    codecs are nested pairs of field codecs seen through an isomorphism, so
    that their laws are found by instance resolution. *)

From Stdlib Require Import ZArith Lia.
From Stdlib Require Import Strings.Byte.
From stdpp Require Import base list numbers.
From S2P Require Import Prelude.

Record codec (A : Type) : Type := Codec {
  enc : A → list byte;
  dec : list byte → option (A * list byte);
  wf : A → Prop
}.
Arguments Codec {A} _ _ _.
Arguments enc {A} _ _.
Arguments dec {A} _ _.
Arguments wf {A} _ _.

Class CodecOk {A} (c : codec A) : Prop := {
  dec_enc a r : wf c a → dec c (enc c a ++ r) = Some (a, r);
  dec_sound bs a r : dec c bs = Some (a, r) → wf c a ∧ bs = enc c a ++ r
}.

Class CodecSize {A} (c : codec A) (n : nat) : Prop :=
  codec_size a : wf c a → length (enc c a) = n.

Lemma enc_inj {A} (c : codec A) `{!CodecOk c} a b :
  wf c a → wf c b → enc c a = enc c b → a = b.
Proof.
  intros Ha Hb He. pose proof (dec_enc a [] Ha) as Da. pose proof (dec_enc b [] Hb) as Db.
  rewrite He, Db in Da. by injection Da.
Qed.

(** The types that derive [BorshSerialize] and [BorshDeserialize]. *)
Class Borsh (A : Type) : Type := borsh : codec A.

(** ** Primitive codecs *)

(** [n] bytes off the front of the input. *)
Definition take_bytes (n : nat) (bs : list byte) : option (list byte * list byte) :=
  if (length bs <? n)%nat then None else Some (take n bs, drop n bs).

Lemma take_bytes_app n a r : length a = n → take_bytes n (a ++ r) = Some (a, r).
Proof.
  intros <-. unfold take_bytes. rewrite length_app.
  destruct (Nat.ltb_spec (length a + length r) (length a)); [lia|].
  by rewrite take_app_length, drop_app_length.
Qed.

Lemma take_bytes_Some n bs a r :
  take_bytes n bs = Some (a, r) → length a = n ∧ bs = a ++ r.
Proof.
  unfold take_bytes. destruct (Nat.ltb_spec (length bs) n); [done|].
  intros [= <- <-]. split; [by rewrite length_take_le|by rewrite take_drop].
Qed.

(** An unsigned integer of [n] bytes, little-endian. *)
Definition uint (n : nat) : codec Z := {|
  enc := le_bytes n;
  dec bs := '(h, t) ← take_bytes n bs; Some (le_val h, t);
  wf := in_width (8 * Z.of_nat n)
|}.
Abbreviation u8c := (uint 1).
Abbreviation u16c := (uint 2).
Abbreviation u32c := (uint 4).
Abbreviation u64c := (uint 8).
Abbreviation u128c := (uint 16).

#[global] Instance uint_ok n : CodecOk (uint n).
Proof.
  split; cbn [enc dec wf uint].
  - intros a r Ha. rewrite take_bytes_app by apply length_le_bytes. simpl.
    rewrite le_val_bytes; [done|]. unfold in_width in Ha.
    rewrite (umax_256 _ n) in Ha by done. lia.
  - intros bs a r H. destruct (take_bytes n bs) as [[h t]|] eqn:Ht; [|done].
    simplify_eq/=. apply take_bytes_Some in Ht as [Hl ->]. split.
    + unfold in_width. rewrite (umax_256 _ n) by done. pose proof (le_val_range h).
      rewrite Hl in *. lia.
    + by rewrite <- Hl, le_bytes_val.
Qed.
#[global] Instance uint_size n : CodecSize (uint n) n.
Proof. intros a _. apply length_le_bytes. Qed.

(** [i64], two's complement. *)
Definition i64c : codec Z := {|
  enc z := le_bytes 8 (z mod 2 ^ 64);
  dec bs := '(h, t) ← take_bytes 8 bs;
            let z := le_val h in Some (if z <? 2 ^ 63 then z else z - 2 ^ 64, t);
  wf z := - 2 ^ 63 ≤ z < 2 ^ 63
|}.

#[global] Instance i64c_ok : CodecOk i64c.
Proof.
  split; cbn [enc dec wf i64c].
  - intros a r Ha. rewrite take_bytes_app by apply length_le_bytes.
    cbn [mbind option_bind].
    rewrite le_val_bytes by (apply Z.mod_pos_bound; lia). do 2 f_equal.
    destruct (Z.ltb_spec (a mod 2 ^ 64) (2 ^ 63));
      pose proof (Z.mod_pos_bound a (2 ^ 64) ltac:(lia)); destruct (Z.leb_spec 0 a).
    + apply Z.mod_small; lia.
    + rewrite <- (Z.mod_unique_pos a (2^64) (-1) (a + 2^64)) in *; lia.
    + rewrite Z.mod_small in *; lia.
    + rewrite <- (Z.mod_unique_pos a (2^64) (-1) (a + 2^64)) in *; lia.
  - intros bs a r H. destruct (take_bytes 8 bs) as [[h t]|] eqn:Ht; [|done].
    cbn [mbind option_bind] in H. apply take_bytes_Some in Ht as [Hl ->].
    pose proof (le_val_range h) as Hr. rewrite Hl in Hr.
    change (256 ^ Z.of_nat 8) with (2 ^ 64) in Hr.
    assert (Hb : le_bytes 8 (le_val h) = h) by (rewrite <- Hl; apply le_bytes_val).
    destruct (Z.ltb_spec (le_val h) (2 ^ 63)); injection H as <- <-.
    + split; [lia|]. by rewrite Z.mod_small, Hb by lia.
    + split; [lia|]. by rewrite <- (Z.mod_unique_pos (le_val h - 2^64) (2^64) (-1) (le_val h)), Hb by lia.
Qed.
#[global] Instance i64c_size : CodecSize i64c 8.
Proof. intros a _. apply length_le_bytes. Qed.

(** [[u8; n]] (and a [Pubkey] at [n = 32]). *)
Definition bytes (n : nat) : codec (list byte) := {|
  enc a := a;
  dec := take_bytes n;
  wf a := length a = n
|}.

#[global] Instance bytes_ok n : CodecOk (bytes n).
Proof.
  split; cbn [enc dec wf bytes].
  - intros. by apply take_bytes_app.
  - intros. by apply take_bytes_Some.
Qed.
#[global] Instance bytes_size n : CodecSize (bytes n) n.
Proof. by intros a. Qed.

(** A one-byte tag: [bool] and the [#[repr(u8)]] enums. *)
Definition enum {A} (to : A → Z) (from : Z → option A) : codec A := {|
  enc a := [byte_of_Z (to a)];
  dec bs := '(h, t) ← take_bytes 1 bs; a ← from (le_val h); Some (a, t);
  wf _ := True
|}.

Class Tags {A} (to : A → Z) (from : Z → option A) : Prop := {
  tags_of a : from (to a) = Some a;
  tags_to z a : from z = Some a → to a = z;
  tags_range a : 0 ≤ to a < 256
}.

#[global] Instance enum_ok {A} (to : A → Z) from `{!Tags to from} : CodecOk (enum to from).
Proof.
  split; cbn [enc dec wf enum].
  - intros a r _. rewrite (take_bytes_app 1 [_]) by done. cbn [mbind option_bind le_val].
    rewrite byte_val_of_Z, Z.mul_0_r, Z.add_0_r, Z.mod_small by apply tags_range.
    by rewrite tags_of.
  - intros bs a r H. destruct (take_bytes 1 bs) as [[h t]|] eqn:Ht; [|done].
    cbn [mbind option_bind] in H. destruct (from (le_val h)) as [x|] eqn:Hx; [|done].
    injection H as <- <-. apply take_bytes_Some in Ht as [Hl ->]. split; [done|].
    apply tags_to in Hx. destruct h as [|b [|??]]; [done| |done]. cbn [le_val] in Hx.
    by rewrite Hx, Z.mul_0_r, Z.add_0_r, byte_of_Z_val.
Qed.
#[global] Instance enum_size {A} (to : A → Z) from : CodecSize (enum to from) 1.
Proof. by intros a. Qed.

Definition bool_tag (b : bool) : Z := if b then 1 else 0.
Definition bool_of_tag (z : Z) : option bool :=
  if z =? 0 then Some false else if z =? 1 then Some true else None.
#[global] Instance bool_tags : Tags bool_tag bool_of_tag.
Proof.
  split; unfold bool_of_tag.
  - by intros [].
  - intros z a. destruct (Z.eqb_spec z 0), (Z.eqb_spec z 1); intros [= <-]; simpl; lia.
  - intros []; simpl; lia.
Qed.
Abbreviation boolc := (enum bool_tag bool_of_tag).

(** ** Structs and arrays *)

Definition pair_c {A B} (ca : codec A) (cb : codec B) : codec (A * B) := {|
  enc p := enc ca p.1 ++ enc cb p.2;
  dec bs := '(a, r) ← dec ca bs; '(b, r') ← dec cb r; Some ((a, b), r');
  wf p := wf ca p.1 ∧ wf cb p.2
|}.
Infix "*c" := pair_c (at level 60, right associativity) : portal_scope.

#[global] Instance pair_ok {A B} (ca : codec A) (cb : codec B) :
  CodecOk ca → CodecOk cb → CodecOk (ca *c cb).
Proof.
  intros Ha Hb. split; cbn [enc dec wf pair_c].
  - intros [a b] r [Hwa Hwb]. cbn [fst snd] in *. rewrite <- app_assoc, dec_enc by done.
    cbn [mbind option_bind]. by rewrite dec_enc.
  - intros bs [a b] r H. destruct (dec ca bs) as [[a' r1]|] eqn:H1; [|done].
    cbn [mbind option_bind] in H. destruct (dec cb r1) as [[b' r2]|] eqn:H2; [|done].
    injection H as <- <- <-. apply dec_sound in H1 as [? ->]. apply dec_sound in H2 as [? ->].
    cbn [fst snd]. by rewrite app_assoc.
Qed.
#[global] Instance pair_size {A B} (ca : codec A) (cb : codec B) n m :
  CodecSize ca n → CodecSize cb m → CodecSize (ca *c cb) (n + m).
Proof. intros Ha Hb [a b] []. simpl in *. rewrite length_app, Ha, Hb; done. Qed.

(** A struct through its tuple of fields. *)
Definition struct {A B} (to : A → B) (from : B → A) (c : codec B) : codec A := {|
  enc a := enc c (to a);
  dec bs := '(b, r) ← dec c bs; Some (from b, r);
  wf a := wf c (to a)
|}.

Class Fields {A B} (to : A → B) (from : B → A) : Prop := {
  fields_of a : from (to a) = a;
  fields_to b : to (from b) = b
}.
Ltac solve_fields := split; [by intros []|intros; by repeat match goal with p : _ * _ |- _ => destruct p end].

#[global] Instance struct_ok {A B} (to : A → B) from c `{!Fields to from} :
  CodecOk c → CodecOk (struct to from c).
Proof.
  intros Hc. split; cbn [enc dec wf struct].
  - intros a r Ha. rewrite dec_enc by done. cbn [mbind option_bind]. by rewrite (fields_of (to:=to) (from:=from)).
  - intros bs a r H. destruct (dec c bs) as [[b r']|] eqn:Hd; [|done].
    injection H as <- <-. apply dec_sound in Hd. by rewrite (fields_to (to:=to) (from:=from)).
Qed.
#[global] Instance struct_size {A B} (to : A → B) (from : B → A) c n :
  CodecSize c n → CodecSize (struct to from c) n.
Proof. intros Hc a Ha. by apply Hc. Qed.

(** [[T; n]] *)
Fixpoint array_dec {A} (c : codec A) (n : nat) (bs : list byte) : option (list A * list byte) :=
  match n with
  | O => Some ([], bs)
  | S n' => '(a, r) ← dec c bs; '(l, r') ← array_dec c n' r; Some (a :: l, r')
  end.
Definition array {A} (c : codec A) (n : nat) : codec (list A) := {|
  enc l := concat (enc c <$> l);
  dec := array_dec c n;
  wf l := length l = n ∧ Forall (wf c) l
|}.

#[global] Instance array_ok {A} (c : codec A) n : CodecOk c → CodecOk (array c n).
Proof.
  intros Hc. split; cbn [enc dec wf array].
  - intros l r [<- Hl]. revert r. induction Hl as [|a l Ha _ IH]; intros r; [done|].
    cbn [length array_dec fmap list_fmap concat]. rewrite <- app_assoc, dec_enc by done.
    cbn [mbind option_bind]. by rewrite IH.
  - intros bs l r. revert bs l. induction n as [|n IH]; intros bs l H; simpl in H.
    { by simplify_eq. }
    destruct (dec c bs) as [[a r1]|] eqn:H1; [|done]. cbn [mbind option_bind] in H.
    destruct (array_dec c n r1) as [[l' r2]|] eqn:H2; [|done]. injection H as <- <-.
    apply dec_sound in H1 as [? ->]. apply IH in H2 as [[<- ?] ->].
    cbn [fmap list_fmap concat]. rewrite app_assoc. split; [split; [done|by constructor]|done].
Qed.
#[global] Instance array_size {A} (c : codec A) n k : CodecSize c k → CodecSize (array c n) (n * k).
Proof.
  intros Hc l [<- Hl]. induction Hl as [|a l Ha _ IH]; [done|].
  cbn [enc array fmap list_fmap concat length] in *. rewrite length_app, IH, Hc by done. lia.
Qed.

(** A length of four bytes before the elements; [c n] is the codec of [n]
    elements. *)
Definition counted {A} (c : nat → codec (list A)) : codec (list A) := {|
  enc l := enc (uint 4) (Z.of_nat (length l)) ++ enc (c (length l)) l;
  dec bs := '(n, r) ← dec (uint 4) bs; dec (c (Z.to_nat n)) r;
  wf l := Z.of_nat (length l) ≤ umax 32 ∧ wf (c (length l)) l
|}.

Lemma counted_ok {A} (c : nat → codec (list A)) :
  (∀ n, CodecOk (c n)) → (∀ n l, wf (c n) l → length l = n) → CodecOk (counted c).
Proof.
  intros Hc Hlen. split; cbn [enc dec wf counted].
  - intros l r [Hl Hw]. rewrite <- app_assoc, dec_enc by (change (in_width 32 (Z.of_nat (length l))); unfold in_width; lia).
    cbn [mbind option_bind]. rewrite Nat2Z.id. by apply dec_enc.
  - intros bs l r H. destruct (dec (uint 4) bs) as [[n r1]|] eqn:H1; [|done]. cbn [mbind option_bind] in H.
    apply dec_sound in H1 as [Hn ->]. change (in_width 32 n) in Hn. unfold in_width in Hn.
    apply dec_sound in H as [Hw ->]. pose proof (Hlen _ _ Hw) as Hl.
    assert (n = Z.of_nat (length l)) as -> by lia.
    rewrite Nat2Z.id in Hw |- *. split; [split; [lia|done]|by rewrite <- app_assoc].
Qed.

(** [Vec<T>] and [Vec<u8>] *)
Definition vec {A} (c : codec A) : codec (list A) := counted (array c).
Definition blob : codec (list byte) := counted bytes.

#[global] Instance vec_ok {A} (c : codec A) : CodecOk c → CodecOk (vec c).
Proof. intros Hc. apply counted_ok; [apply _|by intros n l []]. Qed.
#[global] Instance blob_ok : CodecOk blob.
Proof. apply counted_ok; [apply _|done]. Qed.

(** ** Enums with payloads

    The variants of an enum are a nested sum; [union] writes the variant's tag
    before its payload.  [CasesOk c lo hi] says that [c] uses tags in [lo, hi). *)

Record cases (A : Type) : Type := Cases {
  case_tag : A → Z;
  case_enc : A → list byte;
  case_dec : Z → list byte → option (A * list byte);
  case_wf : A → Prop
}.
Arguments Cases {A} _ _ _ _.
Arguments case_tag {A} _ _.
Arguments case_enc {A} _ _.
Arguments case_dec {A} _ _ _.
Arguments case_wf {A} _ _.

Class CasesOk {A} (c : cases A) (lo hi : Z) : Prop := {
  case_range a : lo ≤ case_tag c a < hi;
  case_dec_enc a r : case_wf c a → case_dec c (case_tag c a) (case_enc c a ++ r) = Some (a, r);
  case_dec_sound k bs a r : case_dec c k bs = Some (a, r) →
    case_wf c a ∧ k = case_tag c a ∧ bs = case_enc c a ++ r
}.

Definition case {A} (k : Z) (c : codec A) : cases A := {|
  case_tag _ := k;
  case_enc := enc c;
  case_dec k' bs := if k' =? k then dec c bs else None;
  case_wf := wf c
|}.
Definition case_or {A B} (ca : cases A) (cb : cases B) : cases (A + B) := {|
  case_tag x := match x with inl a => case_tag ca a | inr b => case_tag cb b end;
  case_enc x := match x with inl a => case_enc ca a | inr b => case_enc cb b end;
  case_dec k bs := match case_dec ca k bs with
                   | Some (a, r) => Some (inl a, r)
                   | None => '(b, r) ← case_dec cb k bs; Some (inr b, r)
                   end;
  case_wf x := match x with inl a => case_wf ca a | inr b => case_wf cb b end
|}.
Infix "⊎c" := case_or (at level 63, right associativity) : portal_scope.

Definition union {A} (c : cases A) : codec A := {|
  enc a := byte_of_Z (case_tag c a) :: case_enc c a;
  dec bs := match bs with [] => None | b :: r => case_dec c (byte_val b) r end;
  wf := case_wf c
|}.

#[global] Instance case_ok {A} k (c : codec A) : CodecOk c → CasesOk (case k c) k (k + 1).
Proof.
  intros Hc. split; cbn [case_tag case_enc case_dec case_wf case].
  - lia.
  - intros a r Ha. rewrite Z.eqb_refl. by apply dec_enc.
  - intros k' bs a r. destruct (Z.eqb_spec k' k) as [->|]; [|done].
    intros Hd. by apply dec_sound in Hd as [? ->].
Qed.
Lemma case_or_ok {A B} (ca : cases A) (cb : cases B) lo mid hi :
  lo ≤ mid ≤ hi → CasesOk ca lo mid → CasesOk cb mid hi → CasesOk (ca ⊎c cb) lo hi.
Proof.
  intros Hm Ha Hb.
  split; cbn [case_tag case_enc case_dec case_wf case_or].
  - intros [a|b]; [pose proof (case_range a)|pose proof (case_range b)]; lia.
  - intros [a|b] r Hw; [by rewrite case_dec_enc|].
    destruct (case_dec ca (case_tag cb b) _) as [[a r']|] eqn:Hd.
    + apply case_dec_sound in Hd as (_ & Hk & _). pose proof (case_range a). pose proof (case_range b). lia.
    + by rewrite case_dec_enc.
  - intros k bs x r. destruct (case_dec ca k bs) as [[a r']|] eqn:Hd.
    + intros [= <- <-]. by apply case_dec_sound in Hd.
    + destruct (case_dec cb k bs) as [[b r']|] eqn:He; [|done].
      intros [= <- <-]. by apply case_dec_sound in He.
Qed.
Lemma union_ok {A} (c : cases A) hi : CasesOk c 0 hi → hi ≤ 256 → CodecOk (union c).
Proof.
  intros Hc Hhi. split; cbn [enc dec wf union].
  - intros a r Ha. cbn [app]. pose proof (case_range a).
    rewrite byte_val_of_Z, Z.mod_small by lia. by apply case_dec_enc.
  - intros [|b bs] a r Hd; [done|]. apply case_dec_sound in Hd as (Hw & Hb & ->).
    split; [done|]. by rewrite <- Hb, byte_of_Z_val.
Qed.

(** ** Whole-buffer operations *)

(** [T::try_from_slice]: the whole input is one encoding. *)
Definition try_from_slice {A} `{Borsh A} (bs : list byte) : option A :=
  match dec borsh bs with Some (a, []) => Some a | _ => None end.

(** [T::deserialize(&mut data)], the rest ignored. *)
Definition deserialize {A} `{Borsh A} (bs : list byte) : option A := fst <$> dec borsh bs.

(** [borsh::object_length] *)
Definition object_length {A} `{Borsh A} (a : A) : nat := length (enc borsh a).

(** [state.serialize(&mut &mut data[..])]: overwrites a prefix of the buffer and
    fails when the buffer is too short. *)
Definition serialize_into {A} `{Borsh A} (a : A) (data : list byte) : option (list byte) :=
  if (object_length a <=? length data)%nat
  then Some (enc borsh a ++ drop (object_length a) data) else None.

Section whole_buffer.
Context {A} `{Hb : Borsh A} `{Hok : !CodecOk (borsh (A:=A))}.

Lemma try_from_slice_enc (a : A) : wf borsh a → try_from_slice (enc borsh a) = Some a.
Proof.
  intros Ha. unfold try_from_slice. rewrite <- (app_nil_r (enc _ _)). by rewrite dec_enc.
Qed.

Lemma try_from_slice_Some bs (a : A) :
  try_from_slice bs = Some a ↔ wf borsh a ∧ bs = enc borsh a.
Proof.
  split.
  - unfold try_from_slice. destruct (dec borsh bs) as [[a' [|]]|] eqn:H; [|done..].
    intros [= <-]. apply dec_sound in H as [? ->]. by rewrite app_nil_r.
  - intros [? ->]. by apply try_from_slice_enc.
Qed.

Lemma serialize_into_exact (a : A) data :
  length data = object_length a → serialize_into a data = Some (enc borsh a).
Proof.
  unfold serialize_into. intros Hl. rewrite Hl, Nat.leb_refl, drop_ge by lia.
  by rewrite app_nil_r.
Qed.

Lemma serialize_into_Some (a : A) data data' :
  serialize_into a data = Some data' →
  length data' = length data ∧ data' = enc borsh a ++ drop (object_length a) data ∧
  (object_length a ≤ length data)%nat.
Proof.
  unfold serialize_into, object_length. destruct (Nat.leb_spec (length (enc borsh a)) (length data)); [|done].
  intros [= <-]. rewrite length_app, length_drop. split_and!; [lia|done|done].
Qed.
End whole_buffer.
