(* ===== verification/Events.v ===== *)
(** * Transfer events (portal/src/events.rs)

    The event the Portal logs for a deposit or a withdrawal, its Borsh bytes,
    and the hand-written routine that logs it on chain: there is no allocator,
    so [log_transfer_event_data] reads the event byte by byte and writes the
    base64 text into a fixed buffer.  [transfer_log_is_base64_of_borsh] shows
    that the routine computes the base64 encoding of the Borsh bytes, and that
    an indexer recovers the event from it. *)

From Stdlib Require Import ZArith Lia.
From Stdlib Require Import Strings.Byte.
From stdpp Require Import base list numbers.
From S2P Require Import Prelude Borsh.

(** A public key, [[u8; 32]]. *)
Abbreviation Address := (list byte).
Abbreviation Hash32 := (list byte).

Inductive TransferEventKind : Set := Deposit | Withdrawal.
#[global] Instance TransferEventKind_eq_dec : EqDecision TransferEventKind.
Proof. solve_decision. Defined.

Definition TransferEventKind_tag (k : TransferEventKind) : Z :=
  match k with Deposit => 0 | Withdrawal => 1 end.
Definition TransferEventKind_of_tag (z : Z) : option TransferEventKind :=
  if z =? 0 then Some Deposit else if z =? 1 then Some Withdrawal else None.
#[global] Instance TransferEventKind_tags : Tags TransferEventKind_tag TransferEventKind_of_tag.
Proof.
  split; unfold TransferEventKind_of_tag.
  - by intros [].
  - intros z a. destruct (Z.eqb_spec z 0), (Z.eqb_spec z 1); intros [= <-]; simpl; lia.
  - intros []; simpl; lia.
Qed.

Record NorthstarTransferEvent : Set := {
  ev_version : Z;
  ev_kind : TransferEventKind;
  ev_from : Address;
  ev_to : Address;
  ev_lamports : Z;
  ev_pre_balance : Z;
  ev_post_balance : Z;
  ev_slot : Z;
  ev_timestamp : Z
}.

Definition NorthstarTransferEvent_VERSION : Z := 1.

Definition event_fields (e : NorthstarTransferEvent) :=
  (ev_version e, (ev_kind e, (ev_from e, (ev_to e, (ev_lamports e, (ev_pre_balance e,
   (ev_post_balance e, (ev_slot e, ev_timestamp e)))))))).
Definition event_of_fields p : NorthstarTransferEvent :=
  match p with
  | (v, (k, (f, (t, (l, (pre, (post, (s, ts)))))))) => Build_NorthstarTransferEvent v k f t l pre post s ts
  end.
#[global] Instance event_is_fields : Fields event_fields event_of_fields.
Proof. solve_fields. Qed.
#[global] Instance event_borsh : Borsh NorthstarTransferEvent :=
  struct event_fields event_of_fields
    (u8c *c enum TransferEventKind_tag TransferEventKind_of_tag *c bytes 32 *c bytes 32 *c
     u64c *c u64c *c u64c *c u64c *c i64c).
#[global] Instance event_codec_ok : CodecOk (borsh (A:=NorthstarTransferEvent)).
Proof. apply _. Qed.
#[global] Instance event_codec_size : CodecSize (borsh (A:=NorthstarTransferEvent)) 106.
Proof. exact (_ : CodecSize (struct _ _ _) (1 + (1 + (32 + (32 + (8 + (8 + (8 + (8 + 8))))))))). Qed.

(** [serialize_data] *)
Definition serialize_data (e : NorthstarTransferEvent) : list byte := enc borsh e.

(** ** Base64 (RFC 4648, standard alphabet, padded): the reference *)

Definition BASE64 : list byte :=
  str "ABCDEFGHIJKLMNOPQRSTUVWXYZabcdefghijklmnopqrstuvwxyz0123456789+/".

Definition sextet (z : Z) : byte := nth (Z.to_nat (z mod 64)) BASE64 x00.
Definition pad : byte := x3d.

(** Three bytes are one 24-bit number, four digits in base 64. *)
Fixpoint base64 (bs : list byte) : list byte :=
  match bs with
  | a :: b :: c :: r =>
      let n := byte_val a * 2 ^ 16 + byte_val b * 2 ^ 8 + byte_val c in
      [sextet (n / 2 ^ 18); sextet (n / 2 ^ 12); sextet (n / 2 ^ 6); sextet n] ++ base64 r
  | [a; b] =>
      let n := byte_val a * 2 ^ 16 + byte_val b * 2 ^ 8 in
      [sextet (n / 2 ^ 18); sextet (n / 2 ^ 12); sextet (n / 2 ^ 6); pad]
  | [a] =>
      let n := byte_val a * 2 ^ 16 in
      [sextet (n / 2 ^ 18); sextet (n / 2 ^ 12); pad; pad]
  | [] => []
  end.

Definition digit (c : byte) : option Z := (λ p, Z.of_nat p.1) <$> list_find (λ x, x = c) BASE64.

Fixpoint base64_decode (t : list byte) : option (list byte) :=
  match t with
  | [] => Some []
  | [p; q; r; s] =>
      x ← digit p; y ← digit q;
      if (r == pad) && (s == pad) then Some [byte_of_Z (x * 4 + y / 16)] else
      z ← digit r;
      if s == pad then Some [byte_of_Z (x * 4 + y / 16); byte_of_Z (y * 16 + z / 4)] else
      u ← digit s;
      Some [byte_of_Z (x * 4 + y / 16); byte_of_Z (y * 16 + z / 4); byte_of_Z (z * 64 + u)]
  | p :: q :: r :: s :: t' =>
      x ← digit p; y ← digit q; z ← digit r; u ← digit s; bs ← base64_decode t';
      Some (byte_of_Z (x * 4 + y / 16) :: byte_of_Z (y * 16 + z / 4) :: byte_of_Z (z * 64 + u) :: bs)
  | _ => None
  end.

(** ** The on-chain logger *)

Definition TRANSFER_EVENT_LOG_PREFIX : list byte := str "Transfer Data: ".
Definition TRANSFER_EVENT_SERIALIZED_LEN : nat := 106.
Definition TRANSFER_EVENT_BASE64_LEN : nat := (106 + 2) / 3 * 4.

(** [None] is a panic: an index out of range or [unreachable!()]. *)
Definition transfer_event_byte (e : NorthstarTransferEvent) (index : nat) : option byte :=
  if (index =? 0)%nat then Some (byte_of_Z (ev_version e))
  else if (index =? 1)%nat then Some (byte_of_Z (TransferEventKind_tag (ev_kind e)))
  else if (index <=? 33)%nat then ev_from e !! (index - 2)%nat
  else if (index <=? 65)%nat then ev_to e !! (index - 34)%nat
  else if (index <=? 73)%nat then le_bytes 8 (ev_lamports e) !! (index - 66)%nat
  else if (index <=? 81)%nat then le_bytes 8 (ev_pre_balance e) !! (index - 74)%nat
  else if (index <=? 89)%nat then le_bytes 8 (ev_post_balance e) !! (index - 82)%nat
  else if (index <=? 97)%nat then le_bytes 8 (ev_slot e) !! (index - 90)%nat
  else if (index <=? 105)%nat then le_bytes 8 (ev_timestamp e mod 2 ^ 64) !! (index - 98)%nat
  else None.

(** [output[i] = base64[z]] *)
Definition put_digit (output : list byte) (i : nat) (z : Z) : option (list byte) :=
  d ← BASE64 !! Z.to_nat z;
  if (i <? length output)%nat then Some (<[i := d]> output) else None.

Definition output_triplet (output : list byte) (offset : nat) (a b c : byte) : option (list byte) :=
  let a := byte_val a in let b := byte_val b in let c := byte_val c in
  o ← put_digit output offset (Z.shiftr a 2);
  o ← put_digit o (offset + 1) (Z.lor (Z.shiftl (Z.land a 0x03) 4) (Z.shiftr b 4));
  o ← put_digit o (offset + 2) (Z.lor (Z.shiftl (Z.land b 0x0f) 2) (Z.shiftr c 6));
  put_digit o (offset + 3) (Z.land c 0x3f).

(** The loop body of [for group in 0..35]. *)
Definition log_group (e : NorthstarTransferEvent) (output : list byte) (group : nat) : option (list byte) :=
  let input := (group * 3)%nat in
  let output_offset := (group * 4)%nat in
  a ← transfer_event_byte e input;
  b ← transfer_event_byte e (input + 1);
  c ← transfer_event_byte e (input + 2);
  output_triplet output output_offset a b c.

Fixpoint log_groups (e : NorthstarTransferEvent) (output : list byte) (groups : list nat) : option (list byte) :=
  match groups with
  | [] => Some output
  | g :: gs => o ← log_group e output g; log_groups e o gs
  end.

(** The message that is logged. *)
Definition log_transfer_event_data (e : NorthstarTransferEvent) : option (list byte) :=
  let output := zeros TRANSFER_EVENT_BASE64_LEN in
  o ← log_groups e output (seq 0 35);
  last ← transfer_event_byte e (TRANSFER_EVENT_SERIALIZED_LEN - 1);
  o ← put_digit o 140 (Z.shiftr (byte_val last) 2);
  o ← put_digit o 141 (Z.shiftl (Z.land (byte_val last) 0x03) 4);
  Some (TRANSFER_EVENT_LOG_PREFIX ++ <[143%nat := pad]> (<[142%nat := pad]> o)).

(** What an indexer does with a log line. *)
Definition read_log (line : list byte) : option NorthstarTransferEvent :=
  if starts_with line TRANSFER_EVENT_LOG_PREFIX then
    bs ← base64_decode (drop (length TRANSFER_EVENT_LOG_PREFIX) line);
    try_from_slice bs
  else None.

(** ** The logger computes base64 *)

Lemma lor_shiftl x y k : 0 ≤ k → 0 ≤ y < 2 ^ k → Z.lor (Z.shiftl x k) y = x * 2 ^ k + y.
Proof.
  intros Hk Hy.
  assert (Hland : Z.land (Z.shiftl x k) y = 0).
  { apply Z.bits_inj'. intros i Hi. rewrite Z.land_spec, Z.bits_0, Z.shiftl_spec by done.
    destruct (Z.ltb_spec i k).
    - by rewrite Z.testbit_neg_r by lia.
    - rewrite <- (Z.mod_small y (2 ^ k)), Z.mod_pow2_bits_high by lia. by rewrite andb_false_r. }
  pose proof (Z.add_lor_land (Z.shiftl x k) y). rewrite <- Z.shiftl_mul_pow2 by done. lia.
Qed.

Lemma BASE64_sextet z : 0 ≤ z < 64 → BASE64 !! Z.to_nat z = Some (sextet z).
Proof.
  intros Hz. unfold sextet. rewrite Z.mod_small by done.
  destruct (nth_lookup_or_length BASE64 (Z.to_nat z) x00) as [H|H]; [done|].
  change (length BASE64) with 64%nat in H. lia.
Qed.

Lemma sextet_eq y z : y mod 64 = z mod 64 → sextet y = sextet z.
Proof. unfold sextet. by intros ->. Qed.

Lemma put_digit_app l1 x l2 i z :
  length l1 = i → 0 ≤ z < 64 → put_digit (l1 ++ x :: l2) i z = Some (l1 ++ sextet z :: l2).
Proof.
  intros <- Hz. unfold put_digit. rewrite BASE64_sextet by done. simpl.
  rewrite length_app. simpl.
  destruct (Nat.ltb_spec (length l1) (length l1 + S (length l2))); [|lia].
  by rewrite insert_app_r_alt, Nat.sub_diag by lia.
Qed.

Lemma output_triplet_base64 l1 l2 offset a b c :
  length l1 = offset →
  output_triplet (l1 ++ zeros 4 ++ l2) offset a b c = Some (l1 ++ base64 [a; b; c] ++ l2).
Proof.
  intros Hl. unfold output_triplet.
  pose proof (byte_val_range a) as Ha. pose proof (byte_val_range b) as Hb.
  pose proof (byte_val_range c) as Hc.
  change 0x03 with (Z.ones 2). change 0x0f with (Z.ones 4). change 0x3f with (Z.ones 6).
  rewrite !Z.land_ones, !Z.shiftr_div_pow2 by lia.
  rewrite !lor_shiftl by
    (first [lia | split; [apply Z.div_pos; lia | apply Z.div_lt_upper_bound; lia]]).
  cbn [zeros replicate app].
  rewrite put_digit_app; [|done|split; [apply Z.div_pos; lia | apply Z.div_lt_upper_bound; lia]].
  cbn [mbind option_bind]. rewrite (cons_middle (sextet _)), app_assoc.
  rewrite put_digit_app; [|rewrite length_app; simpl; lia|Z.to_euclidean_division_equations; lia].
  cbn [mbind option_bind]. rewrite (cons_middle (sextet _)), app_assoc.
  rewrite put_digit_app; [|rewrite !length_app; simpl; lia|Z.to_euclidean_division_equations; lia].
  cbn [mbind option_bind]. rewrite (cons_middle (sextet _)), app_assoc.
  rewrite put_digit_app; [|rewrite !length_app; simpl; lia|Z.to_euclidean_division_equations; lia].
  rewrite <- !app_assoc. cbn [base64 app].
  do 3 f_equal; [|f_equal; [|f_equal; [|f_equal]]]; apply sextet_eq;
    Z.to_euclidean_division_equations; lia.
Qed.

Lemma base64_app3 g P Q : length P = (g * 3)%nat → base64 (P ++ Q) = base64 P ++ base64 Q.
Proof.
  revert P. induction g as [|g IH]; intros P HP.
  { by destruct P. }
  destruct P as [|a [|b [|c P]]]; simpl in HP; [lia..|].
  cbn [app base64]. by rewrite (IH P) by lia.
Qed.

Lemma length_base64 g P : length P = (g * 3)%nat → length (base64 P) = (g * 4)%nat.
Proof.
  revert P. induction g as [|g IH]; intros P HP.
  { by destruct P. }
  destruct P as [|a [|b [|c P]]]; simpl in HP; [lia..|].
  cbn [base64]. rewrite length_app, (IH P) by lia. simpl. lia.
Qed.

Lemma log_groups_base64 e D n g rest :
  (∀ i, (i < length D)%nat → transfer_event_byte e i = D !! i) →
  ((g + n) * 3 ≤ length D)%nat →
  log_groups e (base64 (take (g * 3) D) ++ zeros (n * 4) ++ rest) (seq g n)
  = Some (base64 (take ((g + n) * 3) D) ++ rest).
Proof.
  intros HD. revert g. induction n as [|n IH]; intros g Hn.
  { simpl. by rewrite Nat.add_0_r. }
  cbn [seq log_groups]. unfold log_group. rewrite !HD by lia.
  destruct (lookup_lt_is_Some_2 D (g * 3)) as [a Ha]; [lia|].
  destruct (lookup_lt_is_Some_2 D (g * 3 + 1)) as [b Hb]; [lia|].
  destruct (lookup_lt_is_Some_2 D (g * 3 + 2)) as [c Hc]; [lia|].
  rewrite Ha, Hb, Hc. cbn [mbind option_bind].
  replace (zeros (S n * 4)) with (zeros 4 ++ zeros (n * 4)) by done.
  rewrite <- (app_assoc (zeros 4)).
  rewrite output_triplet_base64
    by (apply length_base64; rewrite length_take; lia).
  cbn [mbind option_bind]. rewrite app_assoc, <- (base64_app3 g) by (rewrite length_take; lia).
  replace (take (g * 3) D ++ [a; b; c]) with (take (S g * 3) D).
  - rewrite IH by lia. do 4 f_equal. lia.
  - replace (S g * 3)%nat with (S (S (S (g * 3)))) by lia.
    rewrite (take_S_r _ _ c) by (by rewrite <- Hc; f_equal; lia).
    rewrite (take_S_r _ _ b) by (by rewrite <- Hb; f_equal; lia).
    rewrite (take_S_r _ _ a) by done. by rewrite <- !app_assoc.
Qed.

Lemma transfer_event_byte_spec e i :
  wf borsh e → (i < 106)%nat → transfer_event_byte e i = serialize_data e !! i.
Proof.
  intros (_ & _ & Hf & Ht & _) Hi. unfold serialize_data, borsh, event_borsh.
  cbn [enc struct pair_c event_fields fst snd uint enum bytes i64c wf] in *.
  unfold transfer_event_byte.
  destruct (Nat.eqb_spec i 0) as [->|H0]; [done|].
  destruct (Nat.eqb_spec i 1) as [->|H1]; [done|].
  do 2 rewrite lookup_app_r by (rewrite ?length_le_bytes; simpl; lia).
  rewrite length_le_bytes. cbn [length].
  repeat (match goal with |- context [(i <=? ?k)%nat] => destruct (Nat.leb_spec i k) end;
    [first
       [rewrite lookup_app_l by (rewrite ?length_le_bytes; lia); f_equal; lia
       |f_equal; lia]
    |try lia; rewrite lookup_app_r by (rewrite ?length_le_bytes; lia);
     rewrite ?length_le_bytes, ?Hf, ?Ht]).
Qed.

(** A decoded digit gives back its value. *)
Lemma digit_sextet z : digit (sextet z) = Some (z mod 64).
Proof.
  assert (H : forallb (λ i, bool_decide (digit (sextet (Z.of_nat i)) = Some (Z.of_nat i))) (seq 0 64) = true)
    by (vm_compute; reflexivity).
  rewrite forallb_forall in H. pose proof (Z.mod_pos_bound z 64 ltac:(lia)).
  specialize (H (Z.to_nat (z mod 64))). rewrite <- (sextet_eq (z mod 64) z) by (apply Zmod_mod).
  rewrite Z2Nat.id in H by lia. apply (bool_decide_eq_true _), H, in_seq. lia.
Qed.

Lemma sextet_not_pad z : (sextet z == pad) = false.
Proof.
  apply bool_decide_eq_false. intros H. pose proof (digit_sextet z) as Hd. rewrite H in Hd.
  by vm_compute in Hd.
Qed.

(** Induction in steps of three. *)
Lemma list_ind3 {A} (P : list A → Prop) :
  P [] → (∀ a, P [a]) → (∀ a b, P [a; b]) → (∀ a b c l, P l → P (a :: b :: c :: l)) → ∀ l, P l.
Proof.
  intros H0 H1 H2 H3. fix F 1. intros [|a [|b [|c l]]]; [done..|]. apply H3, F.
Qed.

Lemma base64_decode_cons p q r s x t :
  base64_decode (p :: q :: r :: s :: x :: t) =
  (x0 ← digit p; y ← digit q; z ← digit r; u ← digit s; bs ← base64_decode (x :: t);
   Some (byte_of_Z (x0 * 4 + y / 16) :: byte_of_Z (y * 16 + z / 4) :: byte_of_Z (z * 64 + u) :: bs)).
Proof. reflexivity. Qed.

(** Base64 decoding inverts encoding. *)
Lemma base64_decode_encode bs : base64_decode (base64 bs) = Some bs.
Proof.
  assert (Hb : ∀ b z, z mod 256 = byte_val b → byte_of_Z z = b).
  { intros b z Hz. apply byte_val_inj. by rewrite byte_val_of_Z. }
  induction bs as [|a|a b|a b c bs IH] using list_ind3; [done|..].
  - pose proof (byte_val_range a). cbn [base64 base64_decode].
    rewrite !digit_sextet. cbn [mbind option_bind]. rewrite !bool_decide_eq_true_2 by done.
    do 2 f_equal. apply Hb. Z.to_euclidean_division_equations. lia.
  - pose proof (byte_val_range a). pose proof (byte_val_range b). cbn [base64 base64_decode].
    rewrite !digit_sextet. cbn [mbind option_bind]. rewrite sextet_not_pad.
    rewrite !bool_decide_eq_true_2 by done. cbn [andb].
    do 2 f_equal; [|f_equal]; apply Hb; Z.to_euclidean_division_equations; lia.
  - pose proof (byte_val_range a). pose proof (byte_val_range b). pose proof (byte_val_range c).
    cbn [base64 app]. destruct (base64 bs) as [|x t] eqn:Hx.
    + assert (bs = []) as -> by (by destruct bs as [|? [|? [|? ?]]]).
      cbn [base64_decode]. rewrite !digit_sextet. cbn [mbind option_bind].
      rewrite !sextet_not_pad. cbn [andb].
      do 2 f_equal; [|f_equal; [|f_equal]]; apply Hb; Z.to_euclidean_division_equations; lia.
    + rewrite base64_decode_cons, !digit_sextet. cbn [mbind option_bind].
      rewrite IH. cbn [mbind option_bind].
      do 2 f_equal; [|f_equal; [|f_equal]]; apply Hb; Z.to_euclidean_division_equations; lia.
Qed.

Lemma log_transfer_event_data_base64 e :
  wf borsh e →
  log_transfer_event_data e = Some (TRANSFER_EVENT_LOG_PREFIX ++ base64 (serialize_data e)).
Proof.
  intros Hwf. unfold log_transfer_event_data.
  set (D := serialize_data e). assert (HD : length D = 106%nat) by (by apply codec_size).
  change (zeros TRANSFER_EVENT_BASE64_LEN) with (base64 (take (0 * 3) D) ++ zeros (35 * 4) ++ zeros 4).
  rewrite (log_groups_base64 e D) by
    (first [rewrite HD; lia | intros; apply transfer_event_byte_spec; [done|lia]]).
  cbn [mbind option_bind]. change (TRANSFER_EVENT_SERIALIZED_LEN - 1)%nat with 105%nat.
  rewrite transfer_event_byte_spec by (done || lia). fold D.
  destruct (lookup_lt_is_Some_2 D 105) as [z Hz]; [lia|]. rewrite Hz. cbn [mbind option_bind].
  pose proof (byte_val_range z). change 0x03 with (Z.ones 2).
  rewrite Z.land_ones, Z.shiftr_div_pow2, Z.shiftl_mul_pow2 by lia.
  assert (Hl : length (base64 (take ((0 + 35) * 3) D)) = 140%nat)
    by (apply (length_base64 35); rewrite length_take; lia).
  cbn [zeros replicate]. rewrite put_digit_app by
    (first [done | split; [apply Z.div_pos; lia | apply Z.div_lt_upper_bound; lia]]).
  cbn [mbind option_bind]. rewrite (cons_middle (sextet _)), app_assoc.
  rewrite put_digit_app; [|rewrite length_app, Hl; done|Z.to_euclidean_division_equations; lia].
  cbn [mbind option_bind]. do 2 f_equal.
  replace D with (take 105 D ++ [z]) at 2
    by (by rewrite <- (take_S_r _ _ z Hz), take_ge by lia).
  rewrite (base64_app3 35) by (rewrite length_take; lia).
  rewrite <- !app_assoc. rewrite !insert_app_r_alt by (rewrite Hl; lia).
  rewrite Hl. cbn [base64 app insert list_insert Nat.sub]. do 2 f_equal.
  - apply sextet_eq. Z.to_euclidean_division_equations; lia.
  - f_equal. apply sextet_eq. Z.to_euclidean_division_equations; lia.
Qed.

(** The allocation-free logger of transfer
    events never indexes out of range and writes the prefix followed by the
    base64 text of the event's Borsh bytes, exactly what the reference
    [serialize_data] and a general encoder give; decoding the line gives the
    event back. *)
Theorem transfer_log_is_base64_of_borsh e :
  wf borsh e →
  ∃ msg, log_transfer_event_data e = Some msg ∧
    msg = TRANSFER_EVENT_LOG_PREFIX ++ base64 (serialize_data e) ∧
    length msg = (length TRANSFER_EVENT_LOG_PREFIX + TRANSFER_EVENT_BASE64_LEN)%nat ∧ read_log msg = Some e.
Proof.
  intros Hwf. rewrite log_transfer_event_data_base64 by done. eexists. split; [done|]. split; [done|]. split.
  - rewrite length_app. f_equal. unfold serialize_data.
    assert (Hl : length (enc borsh e) = 106%nat) by (by apply codec_size).
    rewrite <-(take_drop 105 (enc borsh e)), (base64_app3 35), length_app, (length_base64 35) by (rewrite length_take; lia).
    assert (Hd : length (drop 105 (enc borsh e)) = 1%nat) by (rewrite length_drop; lia).
    by destruct (drop 105 (enc borsh e)) as [|b [|]].
  - unfold read_log. rewrite starts_with_app, drop_app_length, base64_decode_encode. cbn [mbind option_bind].
    by apply try_from_slice_enc.
Qed.

Definition example_event : NorthstarTransferEvent :=
  Build_NorthstarTransferEvent 1 Withdrawal (le_bytes 32 5) (le_bytes 32 6) 1000 5000 4000 77 (-3).

Lemma transfer_log_is_base64_of_borsh_witness :
  ∃ msg, log_transfer_event_data example_event = Some msg ∧
    msg = TRANSFER_EVENT_LOG_PREFIX ++ base64 (serialize_data example_event) ∧
    length msg = 159%nat ∧ read_log msg = Some example_event.
Proof.
  apply (transfer_log_is_base64_of_borsh example_event).
  repeat split; vm_compute; congruence.
Defined.
