(* ===== verification/Runtime.v ===== *)
(** * Accounts, sysvars and the System program

    What the Portal runs on.  An [Account] has the four fields the Portal can
    observe; a [World] maps addresses to accounts and keeps the emitted events.
    Handlers receive addresses and read and write the shared world through
    them, so that one account passed twice is one account.  A [Ctx] is what the
    runtime fixes for one instruction: the program, the clock, the keys passed
    and which of them sign and are writable.

    Code outside the repository is the class [Host]: SHA-256, Poseidon, program
    address derivation, rent, the SPL mint and clock readers and pinocchio's
    account close; [HostLaws] states what the development relies on.

    The System program calls of the Portal ([Transfer], [Allocate], [Assign])
    are modelled from the repository's own System program and from the
    account-access rules of transaction-context. *)

From Stdlib Require Import ZArith Lia.
From Stdlib Require Import Strings.Byte.
From stdpp Require Import base gmap list numbers.
From S2P Require Import Prelude Borsh Events.

(** ** Accounts and errors *)

Record Account : Set := mkAccount {
  lamports : Z;
  data : list byte;
  owner : Address;
  executable : bool
}.

(** The System program's id is the all-zero key. *)
Definition system_id : Address := zero32.

(** An address with no account reads as an empty System account. *)
Definition empty_account : Account := mkAccount 0 [] system_id false.

Definition with_lamports (n : Z) (x : Account) : Account :=
  mkAccount n (data x) (owner x) (executable x).
Definition with_data (d : list byte) (x : Account) : Account :=
  mkAccount (lamports x) d (owner x) (executable x).
Definition with_owner (o : Address) (x : Account) : Account :=
  mkAccount (lamports x) (data x) o (executable x).

Inductive InstructionError : Set :=
| IE_MissingRequiredSignature
| IE_InvalidArgument
| IE_ResultWithNegativeLamports
| IE_AccountAlreadyInUse
| IE_InvalidAccountDataLength
| IE_PrivilegeEscalation
| IE_MissingAccount
| IE_InvalidSeeds
| IE_ModifiedProgramId
| IE_ExternalAccountLamportSpend
| IE_ReadonlyLamportChange
| IE_ReadonlyDataModified
| IE_ExternalAccountDataModified
| IE_InvalidRealloc
| IE_ArithmeticOverflow
| IE_CallDepth.

Inductive ProgramError : Set :=
| Custom (code : Z)
| InvalidInstructionData
| InvalidAccountData
| NotEnoughAccountKeys
| ArithmeticOverflow
| InsufficientFunds
| IncorrectProgramId
| AccountBorrowFailed
| MissingRequiredSignature
| InvalidSeeds
| InvalidAccountOwner
| AccountAlreadyInitialized
| InvalidArgument
| Cpi (e : InstructionError)
| HostError (code : Z)
| Panicked.

#[global] Instance InstructionError_eq_dec : EqDecision InstructionError.
Proof. solve_decision. Defined.
#[global] Instance ProgramError_eq_dec : EqDecision ProgramError.
Proof. solve_decision. Defined.

Record Clock : Set := mkClock { slot : Z; unix_timestamp : Z }.

Record World : Set := mkWorld {
  accts : gmap Address Account;
  events : list NorthstarTransferEvent
}.

(** What the runtime fixes for one instruction. *)
Record Ctx : Set := mkCtx {
  program_id : Address;
  clock : Clock;
  keys : gset Address;
  signers : gset Address;
  writables : gset Address
}.

Abbreviation prog := (M World ProgramError).

(** The world a run ends in, if it succeeds. *)
Definition run {A} (m : prog A) (w : World) : World :=
  match m w with Ok (_, w') => w' | Err _ => w end.
Definition err_of {A} (m : prog A) (w : World) : option ProgramError :=
  match m w with Ok _ => None | Err e => Some e end.

(** ** The host *)

Class Host : Type := {
  sha256 : list byte → Hash32;
  poseidon : list (list byte) → option Hash32;
  find_program_address : list (list byte) → Address → Address * Z;
  create_program_address : list (list byte) → Address → option Address;
  try_minimum_balance : nat → result ProgramError Z;
  account_close : Account → Account;
  clock_from_account_view : Address → Account → result ProgramError Clock;
  mint_is_initialized : Account → result ProgramError bool;
  token_program_id : Address
}.

(** [find_program_address] returns the address its bump derives; hashes and
    addresses have 32 bytes; [close] leaves an empty System account; an address
    that is found is off the curve, which the System program's is not. *)
Class HostLaws `{Host} : Prop := {
  sha256_length m : length (sha256 m) = 32%nat;
  find_create seeds p a b :
    find_program_address seeds p = (a, b) →
    create_program_address (seeds ++ [le_bytes 1 b]) p = Some a;
  find_address_length seeds p : length (find_program_address seeds p).1 = 32%nat;
  find_bump_range seeds p : is_u8 (find_program_address seeds p).2;
  rent_nonneg n z : try_minimum_balance n = Ok z → is_u64 z;
  close_empty x : account_close x = mkAccount 0 [] system_id (executable x);
  find_address_not_system seeds p : (find_program_address seeds p).1 ≠ system_id
}.

(** [hashv(&[..]).to_bytes()] *)
Definition hashv `{Host} (parts : list (list byte)) : Hash32 := sha256 (concat parts).

(** ** Reading and writing the world *)

Definition acct (w : World) (a : Address) : Account := default empty_account (accts w !! a).
Definition put (a : Address) (x : Account) (w : World) : World :=
  mkWorld (<[a := x]> (accts w)) (events w).

Definition get_acct (a : Address) : prog Account := gets (λ w, acct w a).
Definition update (a : Address) (f : Account → Account) : prog unit :=
  modify (λ w, put a (f (acct w a)) w).
Definition set_lamports (a : Address) (n : Z) : prog unit := update a (with_lamports n).
Definition set_data (a : Address) (d : list byte) : prog unit := update a (with_data d).
Definition emit_transfer_event (e : NorthstarTransferEvent) : prog unit :=
  modify (λ w, mkWorld (accts w) (events w ++ [e])).

Definition is_signer (cx : Ctx) (a : Address) : bool := bool_decide (a ∈ signers cx).
Definition is_writable (cx : Ctx) (a : Address) : bool := bool_decide (a ∈ writables cx).
Definition is_data_empty (x : Account) : bool := data x == [].
Definition owned_by (x : Account) (o : Address) : bool := owner x == o.

Lemma acct_put w a x b : acct (put a x w) b = if decide (a = b) then x else acct w b.
Proof. unfold acct, put. simpl. rewrite lookup_insert. by case_decide. Qed.
Lemma acct_put_eq w a x : acct (put a x w) a = x.
Proof. rewrite acct_put. by case_decide. Qed.
Lemma acct_put_ne w a x b : a ≠ b → acct (put a x w) b = acct w b.
Proof. intros. rewrite acct_put. by case_decide. Qed.

(** The lamports held by all accounts of the world. *)
Definition total_lamports (w : World) : Z :=
  map_fold (λ _ x t, lamports x + t) 0 (accts w).

Lemma total_lamports_put w a x :
  total_lamports (put a x w) = total_lamports w - lamports (acct w a) + lamports x.
Proof.
  unfold total_lamports, put, acct. simpl.
  assert (Hfresh : ∀ (m : gmap Address Account) (i : Address) y, m !! i = None →
    map_fold (λ _ x t, lamports x + t) 0 (<[i:=y]> m)
    = lamports y + map_fold (λ _ x t, lamports x + t) 0 m).
  { intros m i y Hi. rewrite map_fold_insert_L; [done| |done]. intros. lia. }
  destruct (accts w !! a) as [y|] eqn:Ha; simpl.
  - rewrite <- (insert_id (accts w) a y) at 2 by done.
    rewrite <- !(insert_delete_eq (accts w)).
    rewrite !Hfresh by apply lookup_delete_eq. lia.
  - rewrite Hfresh by done. lia.
Qed.

(** *** Worlds up to absent accounts

    Two worlds are equivalent when every address reads the same; an account that
    is absent and one that is empty are not told apart. *)

#[global] Instance World_equiv : Equiv World := λ w w',
  (∀ b, acct w b = acct w' b) ∧ events w = events w'.
#[global] Instance World_equivalence : Equivalence (≡@{World}).
Proof.
  split.
  - by intros w.
  - intros w w' [Ha He]. by split.
  - intros w1 w2 w3 [Ha He] [Ha' He']. split; [|congruence]. intros b. by rewrite Ha.
Qed.

#[global] Instance acct_proper : Proper ((≡) ==> (=) ==> (=)) acct.
Proof. intros w w' [Ha _] a ? <-. apply Ha. Qed.
#[global] Instance events_proper : Proper ((≡) ==> (=)) events.
Proof. by intros w w' [_ He]. Qed.
#[global] Instance put_proper : Proper ((=) ==> (=) ==> (≡) ==> (≡)) put.
Proof. intros a ? <- x ? <- w w' [Ha He]. split; [|done]. intros b. rewrite !acct_put. by case_decide. Qed.

Lemma total_lamports_lookup (w : World) a :
  total_lamports w
  = lamports (acct w a) + total_lamports (mkWorld (delete a (accts w)) (events w)).
Proof.
  pose proof (total_lamports_put w a empty_account) as Ht.
  pose proof (total_lamports_put (mkWorld (delete a (accts w)) (events w)) a empty_account) as Hd.
  replace (acct (mkWorld (delete a (accts w)) (events w)) a) with empty_account in Hd
    by (unfold acct; simpl; by rewrite lookup_delete_eq).
  replace (put a empty_account (mkWorld (delete a (accts w)) (events w))) with (put a empty_account w) in Hd
    by (unfold put; simpl; by rewrite insert_delete_eq).
  simpl in *. lia.
Qed.

Lemma total_lamports_empty w : (∀ b, acct w b = empty_account) → total_lamports w = 0.
Proof.
  destruct w as [m ev]. revert ev. induction m as [|i x m Hi IH] using map_ind; intros ev Hw.
  { apply map_fold_empty. }
  rewrite (total_lamports_lookup _ i), Hw. simpl. rewrite delete_insert_id by done.
  rewrite IH; [done|]. intros b. specialize (Hw b). unfold acct in *. simpl in *.
  rewrite lookup_insert in Hw. case_decide; [|done]. subst. by rewrite Hi.
Qed.

#[global] Instance total_lamports_proper : Proper ((≡) ==> (=)) total_lamports.
Proof.
  intros [m ev] [m' ev'] [Ha _]. revert m' ev ev' Ha.
  induction m as [|i x m Hi IH] using map_ind; intros m' ev ev' Ha.
  { rewrite total_lamports_empty by done. symmetry. apply total_lamports_empty.
    intros b. by rewrite <- Ha. }
  rewrite (total_lamports_lookup _ i), (total_lamports_lookup (mkWorld m' ev') i), Ha.
  simpl. f_equal. rewrite delete_insert_id by done. apply IH. intros b. specialize (Ha b).
  unfold acct in *. simpl in *. rewrite lookup_insert in Ha. rewrite lookup_delete.
  case_decide; [|done]. subst. by rewrite Hi.
Qed.

(** Every balance is a [u64]. *)
Definition wf_world (w : World) : Prop := ∀ b, is_u64 (lamports (acct w b)).

#[global] Instance wf_world_proper : Proper ((≡) ==> iff) wf_world.
Proof. intros w w' Hw. unfold wf_world. by setoid_rewrite Hw. Qed.

Lemma wf_world_put w a x : wf_world w → is_u64 (lamports x) → wf_world (put a x w).
Proof. intros Hw Hx b. rewrite acct_put. by case_decide. Qed.

Lemma with_lamports_id x : with_lamports (lamports x) x = x.
Proof. by destruct x. Qed.
Lemma put_acct w a : put a (acct w a) w ≡ w.
Proof. split; [|done]. intros b. rewrite acct_put. case_decide; by subst. Qed.

(** ** Account access rules (transaction-context/src/instruction_accounts.rs)

    The rules the runtime applies when the program [p] changes an account.  The
    per-transaction resize budget and the touched flags are not modelled. *)
Module Borrowed.

Definition is_zeroed (buf : list byte) : bool := forallb (λ b, b == x00) buf.

Definition MAX_ACCOUNT_DATA_LEN : Z := 10 * 1024 * 1024.

Section ops.
Context (p : Address) (cx : Ctx).

Definition set_owner (a new : Address) : prog unit :=
  x ← get_acct a;
  err_if (negb (owned_by x p)) (Cpi IE_ModifiedProgramId) ;;
  err_if (negb (is_writable cx a)) (Cpi IE_ModifiedProgramId) ;;
  err_if (negb (is_zeroed (data x))) (Cpi IE_ModifiedProgramId) ;;
  if owner x == new then mret tt else update a (with_owner new).

Definition set_lamports (a : Address) (n : Z) : prog unit :=
  x ← get_acct a;
  err_if (negb (owned_by x p) && (n <? lamports x)) (Cpi IE_ExternalAccountLamportSpend) ;;
  err_if (negb (is_writable cx a)) (Cpi IE_ReadonlyLamportChange) ;;
  if lamports x =? n then mret tt else Runtime.set_lamports a n.

Definition checked_add_lamports (a : Address) (n : Z) : prog unit :=
  x ← get_acct a;
  n' ← ok_or (u64_checked_add (lamports x) n) (Cpi IE_ArithmeticOverflow);
  set_lamports a n'.

Definition checked_sub_lamports (a : Address) (n : Z) : prog unit :=
  x ← get_acct a;
  n' ← ok_or (checked_sub (lamports x) n) (Cpi IE_ArithmeticOverflow);
  set_lamports a n'.

Definition can_data_be_changed (a : Address) : prog unit :=
  x ← get_acct a;
  err_if (negb (is_writable cx a)) (Cpi IE_ReadonlyDataModified) ;;
  err_if (negb (owned_by x p)) (Cpi IE_ExternalAccountDataModified).

Definition can_data_be_resized (a : Address) (new_len : nat) : prog unit :=
  err_if (MAX_ACCOUNT_DATA_LEN <? Z.of_nat new_len) (Cpi IE_InvalidRealloc) ;;
  can_data_be_changed a.

(** [resize(new_len, 0)]: truncate or pad with zeros. *)
Definition resized (d : list byte) (new_len : nat) : list byte :=
  take new_len d ++ zeros (new_len - length d).

Definition set_data_length (a : Address) (new_len : nat) : prog unit :=
  can_data_be_resized a new_len ;;
  x ← get_acct a;
  if bool_decide (length (data x) = new_len) then mret tt
  else Runtime.set_data a (resized (data x) new_len).
End ops.

End Borrowed.

(** ** The System program (programs/system/src/system_processor.rs) *)
Module SystemProgram.

(** [Address::is_signer] with no base key; [extra] are the keys that sign by
    program-derived seeds. *)
Definition signed (cx : Ctx) (extra : gset Address) (a : Address) : bool :=
  bool_decide (a ∈ signers cx ∪ extra).

Definition allocate (cx : Ctx) (extra : gset Address) (a : Address) (space : nat) : prog unit :=
  err_if (negb (signed cx extra a)) (Cpi IE_MissingRequiredSignature) ;;
  x ← get_acct a;
  err_if (negb (is_data_empty x) || negb (owned_by x system_id)) (Cpi IE_AccountAlreadyInUse) ;;
  err_if (Borrowed.MAX_ACCOUNT_DATA_LEN <? Z.of_nat space) (Cpi IE_InvalidAccountDataLength) ;;
  Borrowed.set_data_length system_id cx a space.

Definition assign (cx : Ctx) (extra : gset Address) (a o : Address) : prog unit :=
  x ← get_acct a;
  if owned_by x o then mret tt
  else
    err_if (negb (signed cx extra a)) (Cpi IE_MissingRequiredSignature) ;;
    Borrowed.set_owner system_id cx a o.

Definition transfer_verified (cx : Ctx) (from to : Address) (n : Z) : prog unit :=
  x ← get_acct from;
  err_if (negb (is_data_empty x)) (Cpi IE_InvalidArgument) ;;
  err_if (lamports x <? n) (Cpi IE_ResultWithNegativeLamports) ;;
  Borrowed.checked_sub_lamports system_id cx from n ;;
  Borrowed.checked_add_lamports system_id cx to n.

Definition transfer (cx : Ctx) (extra : gset Address) (from to : Address) (n : Z) : prog unit :=
  err_if (negb (signed cx extra from)) (Cpi IE_MissingRequiredSignature) ;;
  transfer_verified cx from to n.

Definition create_account (cx : Ctx) (extra : gset Address) (from to : Address) (n : Z) (space : nat) (o : Address) :
    prog unit :=
  x ← get_acct to;
  err_if (0 <? lamports x) (Cpi IE_AccountAlreadyInUse) ;;
  allocate cx extra to space ;;
  assign cx extra to o ;;
  transfer cx extra from to n.

End SystemProgram.

(** ** Cross-program invocation

    [verify_instruction_accounts]: an account may not gain the writable or
    signer privilege, and the callee must be among the caller's accounts. *)
Section cpi.
Context `{Host} (cx : Ctx).

Definition verify_instruction_account (extra : gset Address) (m : Address * bool * bool) : prog unit :=
  let '(a, sgn, wr) := m in
  err_if (negb (bool_decide (a ∈ keys cx))) (Cpi IE_MissingAccount) ;;
  err_if (wr && negb (is_writable cx a)) (Cpi IE_PrivilegeEscalation) ;;
  err_if (sgn && negb (SystemProgram.signed cx extra a)) (Cpi IE_PrivilegeEscalation).

Definition verify_instruction_accounts (extra : gset Address) (callee : Address)
    (metas : list (Address * bool * bool)) : prog unit :=
  for_each (verify_instruction_account extra) metas ;;
  err_if (negb (bool_decide (callee ∈ keys cx))) (Cpi IE_MissingAccount).

(** [Transfer { from, to, lamports }.invoke()] *)
Definition Transfer (from to : Address) (n : Z) : prog unit :=
  verify_instruction_accounts ∅ system_id [(from, true, true); (to, false, true)] ;;
  SystemProgram.transfer cx ∅ from to n.

(** The keys a list of signer seeds lets the program sign for. *)
Definition seed_signers (seeds : list (list byte)) : prog (gset Address) :=
  a ← ok_or (create_program_address seeds (program_id cx)) (Cpi IE_InvalidSeeds);
  mret {[a]}.

(** [Allocate { account, space }.invoke_signed(seeds)] *)
Definition Allocate (a : Address) (space : nat) (seeds : list (list byte)) : prog unit :=
  extra ← seed_signers seeds;
  verify_instruction_accounts extra system_id [(a, true, true)] ;;
  SystemProgram.allocate cx extra a space.

(** [Assign { account, owner }.invoke_signed(seeds)] *)
Definition Assign (a o : Address) (seeds : list (list byte)) : prog unit :=
  extra ← seed_signers seeds;
  verify_instruction_accounts extra system_id [(a, true, true)] ;;
  SystemProgram.assign cx extra a o.

(** [CreateAccount { from, to, lamports, space, owner }.invoke_signed(seeds)] *)
Definition CreateAccount (from to : Address) (n : Z) (space : nat) (o : Address) (seeds : list (list byte)) : prog unit :=
  extra ← seed_signers seeds;
  verify_instruction_accounts extra system_id [(from, true, true); (to, true, true)] ;;
  SystemProgram.create_account cx extra from to n space o.
End cpi.

(** ** Frames: what a program cannot change

    [ReadOnly m]: a successful run of [m] leaves the world as it is.
    [Conserves m]: it leaves the total of all lamports as it is.
    [Frame P m]: it changes no account outside [P].
    [Silent m]: it emits no event.
    The classes are closed under the monad's constructs, so that instance
    resolution derives them for a handler from those of its steps. *)

Class ReadOnly {A} (m : prog A) : Prop :=
  read_only w a w' : m w = Ok (a, w') → w' = w.
Class Conserves {A} (m : prog A) : Prop :=
  conserves w a w' : m w = Ok (a, w') → total_lamports w' = total_lamports w.
Class Frame {A} (P : Address → Prop) (m : prog A) : Prop :=
  frame w a w' : m w = Ok (a, w') → ∀ b, ¬ P b → acct w' b = acct w b.
Class Silent {A} (m : prog A) : Prop :=
  silent w a w' : m w = Ok (a, w') → events w' = events w.

Ltac frame_start := intros ???; unfold get_acct, emit_transfer_event, update in *; intros; minv.

Section frame_instances.
Context {A B : Type}.
Implicit Types (m : prog A) (f : A → prog B) (P : Address → Prop).

#[global] Instance read_only_conserves m : ReadOnly m → Conserves m | 10.
Proof. intros Hm w a w' H. by rewrite (Hm _ _ _ H). Qed.
#[global] Instance read_only_frame P m : ReadOnly m → Frame P m | 10.
Proof. intros Hm w a w' H b _. by rewrite (Hm _ _ _ H). Qed.
#[global] Instance read_only_silent m : ReadOnly m → Silent m | 10.
Proof. intros Hm w a w' H. by rewrite (Hm _ _ _ H). Qed.

#[global] Instance ret_read_only (a : A) : ReadOnly (mret a).
Proof. frame_start; done. Qed.
#[global] Instance fail_read_only e : ReadOnly (fail e : prog A).
Proof. frame_start; done. Qed.
#[global] Instance err_if_read_only c e : ReadOnly (err_if c e).
Proof. frame_start; done. Qed.
#[global] Instance ok_or_read_only (o : option A) e : ReadOnly (ok_or o e).
Proof. frame_start; done. Qed.
#[global] Instance lift_err_read_only {F} (g : F → ProgramError) (r : result F A) :
  ReadOnly (lift_err g r).
Proof. frame_start; done. Qed.
#[global] Instance gets_read_only (g : World → A) : ReadOnly (gets g).
Proof. frame_start; done. Qed.
#[global] Instance get_acct_read_only a : ReadOnly (get_acct a).
Proof. frame_start; done. Qed.

#[global] Instance bind_read_only m f :
  ReadOnly m → (∀ a, ReadOnly (f a)) → ReadOnly (m ≫= f).
Proof. intros Hm Hf w b w' H. minv. apply Hf in H. apply Hm in Hrun. congruence. Qed.
#[global] Instance bind_conserves m f :
  Conserves m → (∀ a, Conserves (f a)) → Conserves (m ≫= f).
Proof. intros Hm Hf w b w' H. minv. apply Hf in H. apply Hm in Hrun. congruence. Qed.
#[global] Instance bind_frame P m f :
  Frame P m → (∀ a, Frame P (f a)) → Frame P (m ≫= f).
Proof.
  intros Hm Hf w b w' H c Hc. minv.
  rewrite (Hf _ _ _ _ H c Hc). by apply (Hm _ _ _ Hrun).
Qed.
#[global] Instance bind_silent m f :
  Silent m → (∀ a, Silent (f a)) → Silent (m ≫= f).
Proof. intros Hm Hf w b w' H. minv. apply Hf in H. apply Hm in Hrun. congruence. Qed.

#[global] Instance if_read_only (c : bool) m m' :
  ReadOnly m → ReadOnly m' → ReadOnly (if c then m else m').
Proof. by destruct c. Qed.
#[global] Instance if_conserves (c : bool) m m' :
  Conserves m → Conserves m' → Conserves (if c then m else m').
Proof. by destruct c. Qed.
#[global] Instance if_frame P (c : bool) m m' :
  Frame P m → Frame P m' → Frame P (if c then m else m').
Proof. by destruct c. Qed.
#[global] Instance if_silent (c : bool) m m' :
  Silent m → Silent m' → Silent (if c then m else m').
Proof. by destruct c. Qed.
End frame_instances.

(** Case analysis on the other matches of a handler. *)
Ltac frame_match :=
  match goal with
  | |- ReadOnly (match ?x with _ => _ end) => destruct x
  | |- Conserves (match ?x with _ => _ end) => destruct x
  | |- Frame _ (match ?x with _ => _ end) => destruct x
  | |- Silent (match ?x with _ => _ end) => destruct x
  end.
#[global] Hint Extern 5 (ReadOnly (match _ with _ => _ end)) => frame_match : typeclass_instances.
#[global] Hint Extern 5 (Conserves (match _ with _ => _ end)) => frame_match : typeclass_instances.
#[global] Hint Extern 5 (Frame _ (match _ with _ => _ end)) => frame_match : typeclass_instances.
#[global] Hint Extern 5 (Silent (match _ with _ => _ end)) => frame_match : typeclass_instances.

(** [minv] drops read-only steps; [minv_spec] is extended by the components. *)
Ltac minv_ro H :=
  lazymatch type of H with
  | _ ?s = Ok (_, ?s') =>
      tryif constr_eq s s' then fail else
      let E := fresh "E" in
      pose proof (read_only _ _ _ H) as E; subst
  end.
Lemma update_Ok a f w u w' :
  update a f w = Ok (u, w') → w' ≡ put a (f (acct w a)) w.
Proof. unfold update. intros Hr. by minv. Qed.

Ltac minv_spec H :=
  lazymatch type of H with
  | update _ _ _ = Ok _ => apply update_Ok in H
  | set_lamports _ _ _ = Ok _ => apply update_Ok in H
  | set_data _ _ _ = Ok _ => apply update_Ok in H
  | get_acct _ _ = Ok _ => unfold get_acct in H
  end.
Ltac minv_hook H ::= first [minv_spec H | minv_ro H].

(** Reads an account through a chain of equivalent worlds. *)
Ltac acct_simpl :=
  repeat first
    [ rewrite acct_put_eq
    | rewrite acct_put_ne by congruence
    | match goal with E : ?w ≡ _ |- context [acct ?w _] => rewrite (proj1 E) end ].

Ltac events_simpl :=
  repeat (cbn [events put];
    match goal with E : ?w ≡ _ |- context [events ?w] => rewrite (proj2 E) end).

(** A side condition found by set reasoning during instance resolution. *)
Class Holds (P : Prop) : Prop := holds : P.
#[global] Hint Extern 0 (Holds _) =>
  unfold Holds; repeat rewrite elem_of_cons; tauto : typeclass_instances.

Section frame_writes.
Implicit Types (P : Address → Prop).

Lemma update_conserves a f : (∀ x, lamports (f x) = lamports x) → Conserves (update a f).
Proof. intros Hf. frame_start. rewrite total_lamports_put, Hf. lia. Qed.
#[global] Instance set_data_conserves a d : Conserves (set_data a d).
Proof. by apply update_conserves. Qed.
#[global] Instance with_owner_conserves a o : Conserves (update a (with_owner o)).
Proof. by apply update_conserves. Qed.
#[global] Instance update_frame P a f : Holds (P a) → Frame P (update a f).
Proof. intros Ha. frame_start. apply acct_put_ne. naive_solver. Qed.
#[global] Instance set_data_frame P a d : Holds (P a) → Frame P (set_data a d).
Proof. apply update_frame. Qed.
#[global] Instance set_lamports_frame P a n : Holds (P a) → Frame P (set_lamports a n).
Proof. apply update_frame. Qed.
#[global] Instance update_silent a f : Silent (update a f).
Proof. frame_start. done. Qed.
#[global] Instance set_data_silent a d : Silent (set_data a d).
Proof. apply update_silent. Qed.
#[global] Instance set_lamports_silent a n : Silent (set_lamports a n).
Proof. apply update_silent. Qed.
#[global] Instance emit_conserves e : Conserves (emit_transfer_event e).
Proof. frame_start. done. Qed.
#[global] Instance emit_frame P e : Frame P (emit_transfer_event e).
Proof. frame_start. done. Qed.

#[global] Instance for_each_read_only {A} (f : A → prog unit) xs :
  (∀ x, ReadOnly (f x)) → ReadOnly (for_each f xs).
Proof. intros Hf. induction xs; simpl; apply _. Qed.
#[global] Instance for_each_conserves {A} (f : A → prog unit) xs :
  (∀ x, Conserves (f x)) → Conserves (for_each f xs).
Proof. intros Hf. induction xs; simpl; apply _. Qed.
#[global] Instance for_each_frame {A} P (f : A → prog unit) xs :
  (∀ x, Frame P (f x)) → Frame P (for_each f xs).
Proof. intros Hf. induction xs; simpl; apply _. Qed.

#[global] Instance verify_accounts_read_only cx extra callee metas :
  ReadOnly (verify_instruction_accounts cx extra callee metas).
Proof.
  unfold verify_instruction_accounts.
  assert (∀ m, ReadOnly (verify_instruction_account cx extra m)).
  { intros [[??]?]. unfold verify_instruction_account. apply _. }
  apply _.
Qed.
#[global] Instance seed_signers_read_only `{Host} cx seeds : ReadOnly (seed_signers cx seeds).
Proof. unfold seed_signers. apply _. Qed.

#[global] Instance Allocate_conserves `{Host} cx a n seeds : Conserves (Allocate cx a n seeds).
Proof.
  unfold Allocate, SystemProgram.allocate, Borrowed.set_data_length,
    Borrowed.can_data_be_resized, Borrowed.can_data_be_changed. apply _.
Qed.
#[global] Instance Allocate_frame `{Host} P cx a n seeds :
  Holds (P a) → Frame P (Allocate cx a n seeds).
Proof.
  unfold Allocate, SystemProgram.allocate, Borrowed.set_data_length,
    Borrowed.can_data_be_resized, Borrowed.can_data_be_changed. apply _.
Qed.
#[global] Instance Assign_conserves `{Host} cx a o seeds : Conserves (Assign cx a o seeds).
Proof. unfold Assign, SystemProgram.assign, Borrowed.set_owner. apply _. Qed.
#[global] Instance Assign_frame `{Host} P cx a o seeds :
  Holds (P a) → Frame P (Assign cx a o seeds).
Proof. unfold Assign, SystemProgram.assign, Borrowed.set_owner. apply _. Qed.
End frame_writes.

(** ** Functional behaviour of the System program calls *)

Lemma borrowed_set_lamports_Ok p cx a n w u w' :
  Borrowed.set_lamports p cx a n w = Ok (u, w') →
  w' ≡ put a (with_lamports n (acct w a)) w ∧ is_writable cx a = true ∧
  (owner (acct w a) = p ∨ lamports (acct w a) ≤ n).
Proof.
  unfold Borrowed.set_lamports, get_acct, set_lamports, update. intros Hr. minv; bprop.
  - split_and!; [|done|].
    + match goal with H : lamports _ = n |- _ => rewrite <- H end.
      by rewrite with_lamports_id, put_acct.
    + destruct Hrun0; bprop; [left|right; lia]. unfold owned_by in *. by bprop.
  - split_and!; [done|done|].
    destruct Hrun0; bprop; [left|right; lia]. unfold owned_by in *. by bprop.
Qed.

(** The world after a transfer. *)
Definition moved (from to : Address) (n : Z) (w : World) : World :=
  let w1 := put from (with_lamports (lamports (acct w from) - n) (acct w from)) w in
  put to (with_lamports (lamports (acct w1 to) + n) (acct w1 to)) w1.

#[global] Instance moved_proper : Proper ((=) ==> (=) ==> (=) ==> (≡) ==> (≡)) moved.
Proof.
  intros from ? <- to ? <- n ? <- w w' Hw. unfold moved. cbv zeta. by rewrite Hw.
Qed.

Lemma moved_total from to n w : total_lamports (moved from to n w) = total_lamports w.
Proof.
  unfold moved. rewrite !total_lamports_put, acct_put. case_decide as Hd; simpl; subst; lia.
Qed.

Lemma moved_self a n w : moved a a n w ≡ w.
Proof.
  split; [|done]. intros b. unfold moved. rewrite !acct_put. repeat case_decide; try done; subst.
  destruct (acct w b). unfold with_lamports. simpl. f_equal. lia.
Qed.

Lemma acct_moved from to n w b :
  from ≠ to →
  acct (moved from to n w) b =
    if decide (b = from) then with_lamports (lamports (acct w from) - n) (acct w from)
    else if decide (b = to) then with_lamports (lamports (acct w to) + n) (acct w to)
    else acct w b.
Proof. intros Hne. unfold moved. rewrite !acct_put. repeat case_decide; congruence. Qed.

Lemma moved_fields from to n w b :
  data (acct (moved from to n w) b) = data (acct w b) ∧ owner (acct (moved from to n w) b) = owner (acct w b).
Proof. unfold moved. rewrite !acct_put. by repeat case_decide; subst. Qed.

Lemma transfer_Ok cx extra from to n w u w' :
  SystemProgram.transfer cx extra from to n w = Ok (u, w') →
  w' ≡ moved from to n w ∧ SystemProgram.signed cx extra from = true ∧
  data (acct w from) = [] ∧ n ≤ lamports (acct w from).
Proof.
  unfold SystemProgram.transfer, SystemProgram.transfer_verified,
    Borrowed.checked_sub_lamports, Borrowed.checked_add_lamports.
  intros Hr. minv. unfold get_acct in *. minv. bprop.
  match goal with H : Borrowed.set_lamports _ _ from _ ?s1 = Ok (_, ?s2) |- _ =>
    apply borrowed_set_lamports_Ok in H as (Ha1 & _ & _) end.
  match goal with H : Borrowed.set_lamports _ _ to _ ?s1 = Ok (_, ?s2) |- _ =>
    apply borrowed_set_lamports_Ok in H as (Ha2 & _ & _) end.
  split_and!; [|done| |done].
  - unfold moved. by rewrite Ha2, Ha1.
  - unfold is_data_empty in *. by bprop.
Qed.

Lemma Transfer_Ok `{Host} cx from to n w u w' :
  Transfer cx from to n w = Ok (u, w') →
  w' ≡ moved from to n w ∧ is_signer cx from = true ∧
  data (acct w from) = [] ∧ n ≤ lamports (acct w from).
Proof.
  unfold Transfer. intros Hr. mstep Hr as [] w0 G0. apply transfer_Ok in Hr as (? & Hs & ? & ?).
  split_and!; try done. unfold SystemProgram.signed, is_signer in *. bprop. apply bool_decide_eq_true. set_solver.
Qed.

Lemma run_Ok {A} (m : prog A) w : err_of m w = None → ∃ a, m w = Ok (a, run m w).
Proof. unfold err_of, run. destruct (m w) as [[a w']|e]; [|done]. eauto. Qed.
