(* ===== verification/Toy.v ===== *)
(** * A concrete host

    An instance of [Host] that satisfies [HostLaws], on which handlers are
    evaluated: a 61-bit polynomial checksum for SHA-256, program addresses that
    are checksums of the length-prefixed seeds, and the rent formula of the
    cluster.  Nothing is proved about the Portal here. *)

From Stdlib Require Import ZArith Lia.
From Stdlib Require Import Strings.Byte.
From stdpp Require Import base gmap list numbers.
From S2P Require Import Prelude Borsh Events Runtime.

Definition toy_hash (m : list byte) : Hash32 :=
  le_bytes 32 (1 + fold_left (λ h b, (h * 1000003 + byte_val b + 1) mod (2 ^ 61 - 1)) m 7).

Lemma toy_hash_nonzero m : toy_hash m ≠ system_id.
Proof.
  assert (Hb : 0 ≤ fold_left (λ h b, (h * 1000003 + byte_val b + 1) mod (2 ^ 61 - 1)) m 7 < 2 ^ 61).
  { induction m as [|b m IH] using rev_ind; [by compute|]. rewrite fold_left_app. cbn [fold_left].
    pose proof (Z.mod_pos_bound (fold_left (λ h b, (h * 1000003 + byte_val b + 1) mod (2 ^ 61 - 1)) m 7 * 1000003 + byte_val b + 1)
      (2 ^ 61 - 1) ltac:(lia)). lia. }
  unfold toy_hash. intros He. apply (f_equal le_val) in He. rewrite le_val_bytes in He.
  - change (le_val system_id) with 0 in He. lia.
  - change (256 ^ Z.of_nat 32) with (2 ^ 256). lia.
Qed.

Definition toy_create (seeds : list (list byte)) (p : Address) : option Address :=
  Some (toy_hash (concat ((λ s, le_bytes 1 (Z.of_nat (length s)) ++ s) <$> seeds) ++ p)).

#[global] Instance toy : Host := {|
  sha256 := toy_hash;
  poseidon inputs := Some (toy_hash (concat inputs));
  find_program_address seeds p := (default [] (toy_create (seeds ++ [[xff]]) p), 255);
  create_program_address := toy_create;
  try_minimum_balance n := Ok ((128 + Z.min (Z.of_nat n) 10485760) * 6960);
  account_close x := mkAccount 0 [] system_id (executable x);
  clock_from_account_view _ x := Ok (mkClock (le_val (take 8 (data x))) 0);
  mint_is_initialized x := Ok (bool_decide (length (data x) = 82%nat));
  token_program_id := str "TokenkegQfeZyiNwAJbNbGKPFXCWuBvf"
|}.

#[global] Instance toy_laws : HostLaws.
Proof.
  split; try (intros; apply length_le_bytes).
  - by intros seeds p a b [= <- <-].
  - intros. unfold in_width, umax. cbn. lia.
  - intros n z [= <-]. unfold in_width, umax. lia.
  - done.
  - intros. apply toy_hash_nonzero.
Qed.

(** Address [k] of the examples. *)
Definition key (k : Z) : Address := le_bytes 32 k.

(** Balances as a decidable test, for examples. *)
Definition wf_worldb (w : World) : bool :=
  forallb (λ p, (0 <=? lamports p.2) && (lamports p.2 <=? umax 64)) (map_to_list (accts w)).

Lemma wf_worldb_wf w : wf_worldb w = true → wf_world w.
Proof.
  unfold wf_worldb. rewrite forallb_forall. intros Hw b. unfold acct.
  destruct (accts w !! b) as [x|] eqn:Hx; simpl; [|unfold in_width, umax; simpl; lia].
  apply elem_of_map_to_list, list_elem_of_In in Hx. specialize (Hw _ Hx). simpl in Hw. bprop.
  by split.
Qed.

(** A world with the given accounts and an instruction context in which the
    given keys are passed writable. *)
Definition world_of (l : list (Address * Account)) : World := mkWorld (list_to_map l) [].
Definition cx_of (p : Address) (sl : Z) (passed signing : list Address) : Ctx :=
  mkCtx p (mkClock sl 1700000000) (list_to_set (system_id :: passed)) (list_to_set signing)
    (list_to_set passed).
Definition wallet (n : Z) : Account := mkAccount n [] system_id false.

(** Proves that concrete values fit their encodings. *)
Ltac concrete_wf :=
  repeat match goal with
         | |- _ ∧ _ => split
         | |- Forall _ [] => apply Forall_nil_2
         | |- Forall _ (_ :: _) => apply Forall_cons_2
         | |- Forall ?P ?l => let l' := eval hnf in l in progress change (Forall P l')
         | |- True => exact I
         | |- _ = _ => vm_compute; reflexivity
         | |- _ ≤ _ => vm_compute; let E := fresh in intros E; discriminate E
         | |- _ => progress hnf
         end.
