(* ===== verification/State.v ===== *)
(** * Portal accounts (portal/src/error.rs, portal/src/state.rs)

    The Portal's error codes and the Borsh layout of its accounts.  Each struct
    of the source is a module with the record [t], its codec and the size of its
    encoding, its discriminator and PDA seed prefix. *)

From Stdlib Require Import ZArith Lia.
From Stdlib Require Import Strings.Byte.
From stdpp Require Import base gmap list numbers.
From S2P Require Import Prelude Borsh Events Runtime.

Module PortalError.
Inductive t : Set :=
| InvalidInstruction
| InvalidAccountData
| SessionExpired
| SessionStillActive
| Unauthorized
| InsufficientFees
| ArithmeticOverflow
| InvalidPdaSeeds
| SessionAccountOwnerMismatch
| SessionDeserializeFailed
| SessionStateInvalid
| DepositReceiptDeserializeFailed
| DepositReceiptStateInvalid
| DelegatedAccountOwnerMismatch
| DelegationRecordAlreadyInitialized
| DelegationRecordDeserializeFailed
| DelegationRecordStateInvalid
| DelegateBufferOwnerMismatch
| DelegateBufferSizeMismatch
| SettlementInProgress
| SettlementNotInProgress
| SettlementTooEarly
| SettlementErSlotNotAdvanced
| SettlementErSlotMismatch
| SettlementChecksumMismatch
| SettlementChunkTooLarge
| SettlementChunkOutOfBounds
| SettlementUnauthorizedAbort
| DelegationRecordAccountMismatch
| DelegatedAccountDataNotEmpty
| SettlementLamportsNotConserved
| SettlementLamportsBelowRentExempt
| WithdrawalSinkMismatch
| CheckpointCommitTooEarly
| CheckpointStateInvalid
| CheckpointUnauthorizedCancel
| CheckpointErSlotNotAdvanced
| CheckpointDeserializeFailed
| CheckpointCursorStateInvalid
| CheckpointCursorDeserializeFailed
| CheckpointBondInsufficient
| CheckpointBondAlreadyResolved
| CheckpointChallenged
| CheckpointChallengeWindowClosed
| StepProofStateInvalid
| StepProofDeserializeFailed
| StepProofAlreadySealed
| StepProofNotSealed
| StepProofChunkOutOfBounds
| StepProofCheckpointMismatch
| StepProofVerifierUnavailable
| StepProofHashMismatch
| CheckpointCancelWindowClosed
| CheckpointPreviousRootMismatch
| CheckpointActiveExists
| StepProofPublicInputMismatch
| ChallengeStateInvalid
| ChallengeDeserializeFailed
| ChallengeTurnInvalid
| ChallengeDeadlineNotReached
| ChallengeResponseInvalid
| DataAvailabilityStateInvalid
| DataAvailabilityDeserializeFailed
| DataAvailabilityCommitmentMismatch
| CheckpointChallengeWindowTooLong
| StepProofVerificationFailed
| UndelegationRequestAlreadyInitialized
| UndelegationRequestDeserializeFailed
| UndelegationRequestStateInvalid
| UndelegationNotSettled.
Definition code (e : t) : Z :=
  match e with
  | InvalidInstruction => 0
  | InvalidAccountData => 1
  | SessionExpired => 2
  | SessionStillActive => 3
  | Unauthorized => 4
  | InsufficientFees => 5
  | ArithmeticOverflow => 6
  | InvalidPdaSeeds => 7
  | SessionAccountOwnerMismatch => 8
  | SessionDeserializeFailed => 9
  | SessionStateInvalid => 10
  | DepositReceiptDeserializeFailed => 11
  | DepositReceiptStateInvalid => 12
  | DelegatedAccountOwnerMismatch => 13
  | DelegationRecordAlreadyInitialized => 14
  | DelegationRecordDeserializeFailed => 15
  | DelegationRecordStateInvalid => 16
  | DelegateBufferOwnerMismatch => 17
  | DelegateBufferSizeMismatch => 18
  | SettlementInProgress => 19
  | SettlementNotInProgress => 20
  | SettlementTooEarly => 21
  | SettlementErSlotNotAdvanced => 22
  | SettlementErSlotMismatch => 23
  | SettlementChecksumMismatch => 24
  | SettlementChunkTooLarge => 25
  | SettlementChunkOutOfBounds => 26
  | SettlementUnauthorizedAbort => 27
  | DelegationRecordAccountMismatch => 28
  | DelegatedAccountDataNotEmpty => 29
  | SettlementLamportsNotConserved => 30
  | SettlementLamportsBelowRentExempt => 31
  | WithdrawalSinkMismatch => 32
  | CheckpointCommitTooEarly => 33
  | CheckpointStateInvalid => 34
  | CheckpointUnauthorizedCancel => 35
  | CheckpointErSlotNotAdvanced => 36
  | CheckpointDeserializeFailed => 37
  | CheckpointCursorStateInvalid => 38
  | CheckpointCursorDeserializeFailed => 39
  | CheckpointBondInsufficient => 40
  | CheckpointBondAlreadyResolved => 41
  | CheckpointChallenged => 42
  | CheckpointChallengeWindowClosed => 43
  | StepProofStateInvalid => 44
  | StepProofDeserializeFailed => 45
  | StepProofAlreadySealed => 46
  | StepProofNotSealed => 47
  | StepProofChunkOutOfBounds => 48
  | StepProofCheckpointMismatch => 49
  | StepProofVerifierUnavailable => 50
  | StepProofHashMismatch => 51
  | CheckpointCancelWindowClosed => 52
  | CheckpointPreviousRootMismatch => 53
  | CheckpointActiveExists => 54
  | StepProofPublicInputMismatch => 55
  | ChallengeStateInvalid => 56
  | ChallengeDeserializeFailed => 57
  | ChallengeTurnInvalid => 58
  | ChallengeDeadlineNotReached => 59
  | ChallengeResponseInvalid => 60
  | DataAvailabilityStateInvalid => 61
  | DataAvailabilityDeserializeFailed => 62
  | DataAvailabilityCommitmentMismatch => 63
  | CheckpointChallengeWindowTooLong => 64
  | StepProofVerificationFailed => 65
  | UndelegationRequestAlreadyInitialized => 66
  | UndelegationRequestDeserializeFailed => 67
  | UndelegationRequestStateInvalid => 68
  | UndelegationNotSettled => 69
  end.
(** Every error, in the order of its code. *)
Definition all : list t :=
  [InvalidInstruction; InvalidAccountData; SessionExpired; SessionStillActive; Unauthorized; 
   InsufficientFees; ArithmeticOverflow; InvalidPdaSeeds; SessionAccountOwnerMismatch; 
   SessionDeserializeFailed; SessionStateInvalid; DepositReceiptDeserializeFailed; 
   DepositReceiptStateInvalid; DelegatedAccountOwnerMismatch; 
   DelegationRecordAlreadyInitialized; DelegationRecordDeserializeFailed; 
   DelegationRecordStateInvalid; DelegateBufferOwnerMismatch; DelegateBufferSizeMismatch; 
   SettlementInProgress; SettlementNotInProgress; SettlementTooEarly; 
   SettlementErSlotNotAdvanced; SettlementErSlotMismatch; SettlementChecksumMismatch; 
   SettlementChunkTooLarge; SettlementChunkOutOfBounds; SettlementUnauthorizedAbort; 
   DelegationRecordAccountMismatch; DelegatedAccountDataNotEmpty; 
   SettlementLamportsNotConserved; SettlementLamportsBelowRentExempt; WithdrawalSinkMismatch; 
   CheckpointCommitTooEarly; CheckpointStateInvalid; CheckpointUnauthorizedCancel; 
   CheckpointErSlotNotAdvanced; CheckpointDeserializeFailed; CheckpointCursorStateInvalid; 
   CheckpointCursorDeserializeFailed; CheckpointBondInsufficient; CheckpointBondAlreadyResolved; 
   CheckpointChallenged; CheckpointChallengeWindowClosed; StepProofStateInvalid; 
   StepProofDeserializeFailed; StepProofAlreadySealed; StepProofNotSealed; 
   StepProofChunkOutOfBounds; StepProofCheckpointMismatch; StepProofVerifierUnavailable; 
   StepProofHashMismatch; CheckpointCancelWindowClosed; CheckpointPreviousRootMismatch; 
   CheckpointActiveExists; StepProofPublicInputMismatch; ChallengeStateInvalid; 
   ChallengeDeserializeFailed; ChallengeTurnInvalid; ChallengeDeadlineNotReached; 
   ChallengeResponseInvalid; DataAvailabilityStateInvalid; DataAvailabilityDeserializeFailed; 
   DataAvailabilityCommitmentMismatch; CheckpointChallengeWindowTooLong; 
   StepProofVerificationFailed; UndelegationRequestAlreadyInitialized; 
   UndelegationRequestDeserializeFailed; UndelegationRequestStateInvalid; 
   UndelegationNotSettled].
End PortalError.

(** [PortalError::X.into()] *)
Definition into (e : PortalError.t) : ProgramError := Custom (PortalError.code e).

(** [if c { return Err(PortalError::X.into()) }] *)
Abbreviation bail_if c e := (err_if (S:=World) c (into e)).

(** Distinct errors have distinct codes. *)
Lemma portal_code_inj e f : PortalError.code e = PortalError.code f → e = f.
Proof.
  intros H. assert (Hd : ∃ d : Z → PortalError.t, ∀ e, d (PortalError.code e) = e).
  { exists (λ z, nth (Z.to_nat z) PortalError.all PortalError.InvalidInstruction). by intros []. }
  destruct Hd as [d Hd]. by rewrite <- (Hd e), <- (Hd f), H.
Qed.

(** ** Shared codec tactics *)

(** The tags of a [#[repr(u8)]] enum are read back. *)
Ltac solve_tags from :=
  split; unfold from;
  [by intros []
  |intros z a; repeat (match goal with |- context [z =? ?k] => destruct (Z.eqb_spec z k) end;
     [by intros [= <-]|]); done
  |intros []; simpl; lia].

Lemma codec_size_eq {A} (c : codec A) n m : CodecSize c n → n = m → CodecSize c m.
Proof. by intros ? <-. Qed.

Ltac solve_codec := apply struct_ok; [apply _|]; repeat apply pair_ok; apply _.
Ltac solve_size := eapply codec_size_eq; [apply struct_size; repeat apply pair_size; apply _|reflexivity].

(** Rebuilds the range condition of an updated struct from the ranges of the
    fields in the context. *)
Ltac wf_fields := repeat (split; [first [assumption | exact I]|]); first [assumption | exact I].

(** ** Accounts *)

(** [account_size]: the length of the encoding. *)
Abbreviation account_size := object_length.

(** The ER account that collects withdrawn SOL. *)
Definition WITHDRAWAL_SINK : Address := byte_of_Z <$>
  [0x05; 0x7d; 0x77; 0xa2; 0x13; 0x37; 0xb6; 0x2d; 0xb7; 0x7d; 0xba; 0x7e; 0x26; 0xf8; 0xe1; 0x47;
   0x06; 0x35; 0xbd; 0x36; 0x53; 0x76; 0xa6; 0x7d; 0x7f; 0xf5; 0xa1; 0x82; 0x3e; 0xe0; 0x8f; 0xb8].

Module SettlementStatus.
Inductive t : Set :=
| Idle
| InProgress.
#[global] Instance eq_dec : EqDecision t.
Proof. solve_decision. Defined.
Definition tag (x : t) : Z :=
  match x with Idle => 0 | InProgress => 1 end.
Definition of_tag (z : Z) : option t :=
  if z =? 0 then Some Idle else if z =? 1 then Some InProgress else None.
#[global] Instance tags : Tags tag of_tag.
Proof. solve_tags of_tag. Qed.
#[global] Instance codec : Borsh t := enum tag of_tag.
#[global] Instance codec_ok : CodecOk (borsh (A:=t)).
Proof. apply enum_ok, _. Qed.
#[global] Instance codec_size : CodecSize (borsh (A:=t)) 1.
Proof. apply enum_size. Qed.
End SettlementStatus.

Module CheckpointStatus.
Inductive t : Set :=
| Pending
| Committed
| Cancelled
| Settled
| Challenged
| Invalid.
#[global] Instance eq_dec : EqDecision t.
Proof. solve_decision. Defined.
Definition tag (x : t) : Z :=
  match x with Pending => 0 | Committed => 1 | Cancelled => 2 | Settled => 3 | Challenged => 4 | Invalid => 5 end.
Definition of_tag (z : Z) : option t :=
  if z =? 0 then Some Pending else if z =? 1 then Some Committed else if z =? 2 then Some Cancelled else if z =? 3 then Some Settled else if z =? 4 then Some Challenged else if z =? 5 then Some Invalid else None.
#[global] Instance tags : Tags tag of_tag.
Proof. solve_tags of_tag. Qed.
#[global] Instance codec : Borsh t := enum tag of_tag.
#[global] Instance codec_ok : CodecOk (borsh (A:=t)).
Proof. apply enum_ok, _. Qed.
#[global] Instance codec_size : CodecSize (borsh (A:=t)) 1.
Proof. apply enum_size. Qed.
End CheckpointStatus.

Module CheckpointBondStatus.
Inductive t : Set :=
| Locked
| Released
| Slashed.
#[global] Instance eq_dec : EqDecision t.
Proof. solve_decision. Defined.
Definition tag (x : t) : Z :=
  match x with Locked => 0 | Released => 1 | Slashed => 2 end.
Definition of_tag (z : Z) : option t :=
  if z =? 0 then Some Locked else if z =? 1 then Some Released else if z =? 2 then Some Slashed else None.
#[global] Instance tags : Tags tag of_tag.
Proof. solve_tags of_tag. Qed.
#[global] Instance codec : Borsh t := enum tag of_tag.
#[global] Instance codec_ok : CodecOk (borsh (A:=t)).
Proof. apply enum_ok, _. Qed.
#[global] Instance codec_size : CodecSize (borsh (A:=t)) 1.
Proof. apply enum_size. Qed.
End CheckpointBondStatus.

Module ChallengeStatus.
Inductive t : Set :=
| Active
| ChallengerWon
| ValidatorWon.
#[global] Instance eq_dec : EqDecision t.
Proof. solve_decision. Defined.
Definition tag (x : t) : Z :=
  match x with Active => 0 | ChallengerWon => 1 | ValidatorWon => 2 end.
Definition of_tag (z : Z) : option t :=
  if z =? 0 then Some Active else if z =? 1 then Some ChallengerWon else if z =? 2 then Some ValidatorWon else None.
#[global] Instance tags : Tags tag of_tag.
Proof. solve_tags of_tag. Qed.
#[global] Instance codec : Borsh t := enum tag of_tag.
#[global] Instance codec_ok : CodecOk (borsh (A:=t)).
Proof. apply enum_ok, _. Qed.
#[global] Instance codec_size : CodecSize (borsh (A:=t)) 1.
Proof. apply enum_size. Qed.
End ChallengeStatus.

Module ChallengeTurn.
Inductive t : Set :=
| Respondent
| Challenger
| Prove.
#[global] Instance eq_dec : EqDecision t.
Proof. solve_decision. Defined.
Definition tag (x : t) : Z :=
  match x with Respondent => 0 | Challenger => 1 | Prove => 2 end.
Definition of_tag (z : Z) : option t :=
  if z =? 0 then Some Respondent else if z =? 1 then Some Challenger else if z =? 2 then Some Prove else None.
#[global] Instance tags : Tags tag of_tag.
Proof. solve_tags of_tag. Qed.
#[global] Instance codec : Borsh t := enum tag of_tag.
#[global] Instance codec_ok : CodecOk (borsh (A:=t)).
Proof. apply enum_ok, _. Qed.
#[global] Instance codec_size : CodecSize (borsh (A:=t)) 1.
Proof. apply enum_size. Qed.
End ChallengeTurn.

Module DataAvailabilityStatus.
Inductive t : Set :=
| Missing
| Revealed
| Defaulted.
#[global] Instance eq_dec : EqDecision t.
Proof. solve_decision. Defined.
Definition tag (x : t) : Z :=
  match x with Missing => 0 | Revealed => 1 | Defaulted => 2 end.
Definition of_tag (z : Z) : option t :=
  if z =? 0 then Some Missing else if z =? 1 then Some Revealed else if z =? 2 then Some Defaulted else None.
#[global] Instance tags : Tags tag of_tag.
Proof. solve_tags of_tag. Qed.
#[global] Instance codec : Borsh t := enum tag of_tag.
#[global] Instance codec_ok : CodecOk (borsh (A:=t)).
Proof. apply enum_ok, _. Qed.
#[global] Instance codec_size : CodecSize (borsh (A:=t)) 1.
Proof. apply enum_size. Qed.
End DataAvailabilityStatus.

Module Session.
Record t : Set := mk {
  discriminator : list byte;
  grid_id : Z;
  ttl_slots : Z;
  fee_cap : Z;
  created_at : Z;
  nonce : Z;
  authority : Address;
  validator : Address;
  settlement_interval_slots : Z;
  last_settled_l1_slot : Z;
  last_settled_er_slot : Z;
  settlement_status : SettlementStatus.t;
  settlement_er_slot : Z;
  settlement_checksum : Hash32;
  settlement_accumulator : Hash32;
  settlement_started_l1_slot : Z;
  bump : Z
}.
Definition to_tuple (x : t) :=
  (discriminator x, (grid_id x, (ttl_slots x, (fee_cap x, (created_at x, (nonce x, (authority x, (validator x, (settlement_interval_slots x, (last_settled_l1_slot x, (last_settled_er_slot x, (settlement_status x, (settlement_er_slot x, (settlement_checksum x, (settlement_accumulator x, (settlement_started_l1_slot x, bump x)))))))))))))))).
Definition of_tuple p : t :=
  let '(f0, (f1, (f2, (f3, (f4, (f5, (f6, (f7, (f8, (f9, (f10, (f11, (f12, (f13, (f14, (f15, f16)))))))))))))))) := p in mk f0 f1 f2 f3 f4 f5 f6 f7 f8 f9 f10 f11 f12 f13 f14 f15 f16.
#[global] Instance tuple : Fields to_tuple of_tuple.
Proof. solve_fields. Qed.
#[global] Instance codec : Borsh t := struct to_tuple of_tuple
  (bytes 8 *c u64c *c u64c *c u64c *c u64c *c u128c *c bytes 32 *c bytes 32 *c u64c *c u64c *c u64c *c borsh (A:=SettlementStatus.t) *c u64c *c bytes 32 *c bytes 32 *c u64c *c u8c).
#[global] Instance codec_ok : CodecOk (borsh (A:=t)).
Proof. solve_codec. Qed.
#[global] Instance codec_size : CodecSize (borsh (A:=t)) 226.
Proof. solve_size. Qed.
Definition SEED_PREFIX : list byte := str "session".
Definition DISCRIMINATOR : list byte := byte_of_Z <$> [243; 81; 72; 115; 214; 188; 72; 144].
Definition is_valid (x : t) : bool := discriminator x == DISCRIMINATOR.
Definition is_expired (x : t) (current_slot : Z) : bool :=
  u64_saturating_add (created_at x) (ttl_slots x) <? current_slot.
End Session.

Module Checkpoint.
Record t : Set := mk {
  discriminator : list byte;
  session : Address;
  er_slot : Z;
  step_count : Z;
  previous_state_root : Hash32;
  new_state_root : Hash32;
  trace_root : Hash32;
  tx_effect_root : Hash32;
  readonly_l1_root : Hash32;
  da_commitment : Hash32;
  effect_commitment : Hash32;
  proposer : Address;
  proposed_at_l1_slot : Z;
  challenge_deadline_l1_slot : Z;
  status : CheckpointStatus.t;
  bond_lamports : Z;
  bond_status : CheckpointBondStatus.t;
  challenger : Address;
  challenged_at_l1_slot : Z;
  challenge_resolved : bool;
  bump : Z
}.
Definition to_tuple (x : t) :=
  (discriminator x, (session x, (er_slot x, (step_count x, (previous_state_root x, (new_state_root x, (trace_root x, (tx_effect_root x, (readonly_l1_root x, (da_commitment x, (effect_commitment x, (proposer x, (proposed_at_l1_slot x, (challenge_deadline_l1_slot x, (status x, (bond_lamports x, (bond_status x, (challenger x, (challenged_at_l1_slot x, (challenge_resolved x, bump x)))))))))))))))))))).
Definition of_tuple p : t :=
  let '(f0, (f1, (f2, (f3, (f4, (f5, (f6, (f7, (f8, (f9, (f10, (f11, (f12, (f13, (f14, (f15, (f16, (f17, (f18, (f19, f20)))))))))))))))))))) := p in mk f0 f1 f2 f3 f4 f5 f6 f7 f8 f9 f10 f11 f12 f13 f14 f15 f16 f17 f18 f19 f20.
#[global] Instance tuple : Fields to_tuple of_tuple.
Proof. solve_fields. Qed.
#[global] Instance codec : Borsh t := struct to_tuple of_tuple
  (bytes 8 *c bytes 32 *c u64c *c u64c *c bytes 32 *c bytes 32 *c bytes 32 *c bytes 32 *c bytes 32 *c bytes 32 *c bytes 32 *c bytes 32 *c u64c *c u64c *c borsh (A:=CheckpointStatus.t) *c u64c *c borsh (A:=CheckpointBondStatus.t) *c bytes 32 *c u64c *c boolc *c u8c).
#[global] Instance codec_ok : CodecOk (borsh (A:=t)).
Proof. solve_codec. Qed.
#[global] Instance codec_size : CodecSize (borsh (A:=t)) 380.
Proof. solve_size. Qed.
Definition SEED_PREFIX : list byte := str "checkpoint".
Definition DISCRIMINATOR : list byte := byte_of_Z <$> [199; 62; 186; 186; 98; 119; 211; 139].
Definition is_valid (x : t) : bool := discriminator x == DISCRIMINATOR.
End Checkpoint.

Module CheckpointCursor.
Record t : Set := mk {
  discriminator : list byte;
  session : Address;
  latest_finalized_checkpoint : Address;
  latest_finalized_er_slot : Z;
  latest_finalized_state_root : Hash32;
  active_checkpoint : Address;
  active_er_slot : Z;
  bump : Z
}.
Definition to_tuple (x : t) :=
  (discriminator x, (session x, (latest_finalized_checkpoint x, (latest_finalized_er_slot x, (latest_finalized_state_root x, (active_checkpoint x, (active_er_slot x, bump x))))))).
Definition of_tuple p : t :=
  let '(f0, (f1, (f2, (f3, (f4, (f5, (f6, f7))))))) := p in mk f0 f1 f2 f3 f4 f5 f6 f7.
#[global] Instance tuple : Fields to_tuple of_tuple.
Proof. solve_fields. Qed.
#[global] Instance codec : Borsh t := struct to_tuple of_tuple
  (bytes 8 *c bytes 32 *c bytes 32 *c u64c *c bytes 32 *c bytes 32 *c u64c *c u8c).
#[global] Instance codec_ok : CodecOk (borsh (A:=t)).
Proof. solve_codec. Qed.
#[global] Instance codec_size : CodecSize (borsh (A:=t)) 153.
Proof. solve_size. Qed.
Definition SEED_PREFIX : list byte := str "checkpoint_cursor".
Definition DISCRIMINATOR : list byte := byte_of_Z <$> [251; 223; 216; 188; 51; 244; 129; 196].
Definition is_valid (x : t) : bool := discriminator x == DISCRIMINATOR.
End CheckpointCursor.

Module Challenge.
Record t : Set := mk {
  discriminator : list byte;
  checkpoint : Address;
  challenger : Address;
  respondent : Address;
  opened_at_l1_slot : Z;
  hard_deadline_l1_slot : Z;
  turn_deadline_l1_slot : Z;
  start_step : Z;
  end_step : Z;
  midpoint_step : Z;
  start_state_root : Hash32;
  end_state_root : Hash32;
  midpoint_state_root : Hash32;
  status : ChallengeStatus.t;
  turn : ChallengeTurn.t;
  rounds : Z;
  bump : Z
}.
Definition to_tuple (x : t) :=
  (discriminator x, (checkpoint x, (challenger x, (respondent x, (opened_at_l1_slot x, (hard_deadline_l1_slot x, (turn_deadline_l1_slot x, (start_step x, (end_step x, (midpoint_step x, (start_state_root x, (end_state_root x, (midpoint_state_root x, (status x, (turn x, (rounds x, bump x)))))))))))))))).
Definition of_tuple p : t :=
  let '(f0, (f1, (f2, (f3, (f4, (f5, (f6, (f7, (f8, (f9, (f10, (f11, (f12, (f13, (f14, (f15, f16)))))))))))))))) := p in mk f0 f1 f2 f3 f4 f5 f6 f7 f8 f9 f10 f11 f12 f13 f14 f15 f16.
#[global] Instance tuple : Fields to_tuple of_tuple.
Proof. solve_fields. Qed.
#[global] Instance codec : Borsh t := struct to_tuple of_tuple
  (bytes 8 *c bytes 32 *c bytes 32 *c bytes 32 *c u64c *c u64c *c u64c *c u64c *c u64c *c u64c *c bytes 32 *c bytes 32 *c bytes 32 *c borsh (A:=ChallengeStatus.t) *c borsh (A:=ChallengeTurn.t) *c u32c *c u8c).
#[global] Instance codec_ok : CodecOk (borsh (A:=t)).
Proof. solve_codec. Qed.
#[global] Instance codec_size : CodecSize (borsh (A:=t)) 255.
Proof. solve_size. Qed.
Definition SEED_PREFIX : list byte := str "challenge".
Definition DISCRIMINATOR : list byte := byte_of_Z <$> [119; 250; 161; 121; 119; 81; 22; 208].
Definition is_valid (x : t) : bool := discriminator x == DISCRIMINATOR.
End Challenge.

Module DataAvailabilityProof.
Record t : Set := mk {
  discriminator : list byte;
  challenge : Address;
  checkpoint : Address;
  commitment : Hash32;
  payload_root : Hash32;
  inclusion_proof_hash : Hash32;
  revealed_at_l1_slot : Z;
  status : DataAvailabilityStatus.t;
  bump : Z
}.
Definition to_tuple (x : t) :=
  (discriminator x, (challenge x, (checkpoint x, (commitment x, (payload_root x, (inclusion_proof_hash x, (revealed_at_l1_slot x, (status x, bump x)))))))).
Definition of_tuple p : t :=
  let '(f0, (f1, (f2, (f3, (f4, (f5, (f6, (f7, f8)))))))) := p in mk f0 f1 f2 f3 f4 f5 f6 f7 f8.
#[global] Instance tuple : Fields to_tuple of_tuple.
Proof. solve_fields. Qed.
#[global] Instance codec : Borsh t := struct to_tuple of_tuple
  (bytes 8 *c bytes 32 *c bytes 32 *c bytes 32 *c bytes 32 *c bytes 32 *c u64c *c borsh (A:=DataAvailabilityStatus.t) *c u8c).
#[global] Instance codec_ok : CodecOk (borsh (A:=t)).
Proof. solve_codec. Qed.
#[global] Instance codec_size : CodecSize (borsh (A:=t)) 178.
Proof. solve_size. Qed.
Definition SEED_PREFIX : list byte := str "da_proof".
Definition DISCRIMINATOR : list byte := byte_of_Z <$> [24; 139; 155; 40; 135; 132; 79; 129].
Definition is_valid (x : t) : bool := discriminator x == DISCRIMINATOR.
End DataAvailabilityProof.

Module StepProofAccount.
Record t : Set := mk {
  discriminator : list byte;
  checkpoint : Address;
  challenge : Address;
  authority : Address;
  proof_kind : Z;
  proof_version : Z;
  step_index : Z;
  session_context : Hash32;
  tx_effect_root : Hash32;
  readonly_l1_root : Hash32;
  settlement_effect_root : Hash32;
  public_input_hash : Hash32;
  written_len : Z;
  sealed : bool;
  proof_hash : Hash32;
  bump : Z;
  data : list byte
}.
Definition to_tuple (x : t) :=
  (discriminator x, (checkpoint x, (challenge x, (authority x, (proof_kind x, (proof_version x, (step_index x, (session_context x, (tx_effect_root x, (readonly_l1_root x, (settlement_effect_root x, (public_input_hash x, (written_len x, (sealed x, (proof_hash x, (bump x, data x)))))))))))))))).
Definition of_tuple p : t :=
  let '(f0, (f1, (f2, (f3, (f4, (f5, (f6, (f7, (f8, (f9, (f10, (f11, (f12, (f13, (f14, (f15, f16)))))))))))))))) := p in mk f0 f1 f2 f3 f4 f5 f6 f7 f8 f9 f10 f11 f12 f13 f14 f15 f16.
#[global] Instance tuple : Fields to_tuple of_tuple.
Proof. solve_fields. Qed.
#[global] Instance codec : Borsh t := struct to_tuple of_tuple
  (bytes 8 *c bytes 32 *c bytes 32 *c bytes 32 *c u8c *c u8c *c u64c *c bytes 32 *c bytes 32 *c bytes 32 *c bytes 32 *c bytes 32 *c u32c *c boolc *c bytes 32 *c u8c *c bytes 356).
#[global] Instance codec_ok : CodecOk (borsh (A:=t)).
Proof. solve_codec. Qed.
#[global] Instance codec_size : CodecSize (borsh (A:=t)) 668.
Proof. solve_size. Qed.
Definition SEED_PREFIX : list byte := str "step_proof".
Definition DISCRIMINATOR : list byte := byte_of_Z <$> [62; 34; 242; 0; 245; 185; 56; 19].
Definition is_valid (x : t) : bool := discriminator x == DISCRIMINATOR.
End StepProofAccount.

Module FeeVault.
Record t : Set := mk {
  discriminator : list byte;
  authority : list byte;
  bump : Z
}.
Definition to_tuple (x : t) :=
  (discriminator x, (authority x, bump x)).
Definition of_tuple p : t :=
  let '(f0, (f1, f2)) := p in mk f0 f1 f2.
#[global] Instance tuple : Fields to_tuple of_tuple.
Proof. solve_fields. Qed.
#[global] Instance codec : Borsh t := struct to_tuple of_tuple
  (bytes 8 *c bytes 32 *c u8c).
#[global] Instance codec_ok : CodecOk (borsh (A:=t)).
Proof. solve_codec. Qed.
#[global] Instance codec_size : CodecSize (borsh (A:=t)) 41.
Proof. solve_size. Qed.
Definition SEED_PREFIX : list byte := str "fee_vault".
Definition DISCRIMINATOR : list byte := byte_of_Z <$> [192; 178; 69; 232; 58; 149; 157; 132].
Definition is_valid (x : t) : bool := discriminator x == DISCRIMINATOR.
End FeeVault.

Module DelegationRecord.
Record t : Set := mk {
  discriminator : list byte;
  owner_program : Address;
  grid_id : Z;
  bump : Z
}.
Definition to_tuple (x : t) :=
  (discriminator x, (owner_program x, (grid_id x, bump x))).
Definition of_tuple p : t :=
  let '(f0, (f1, (f2, f3))) := p in mk f0 f1 f2 f3.
#[global] Instance tuple : Fields to_tuple of_tuple.
Proof. solve_fields. Qed.
#[global] Instance codec : Borsh t := struct to_tuple of_tuple
  (bytes 8 *c bytes 32 *c u64c *c u8c).
#[global] Instance codec_ok : CodecOk (borsh (A:=t)).
Proof. solve_codec. Qed.
#[global] Instance codec_size : CodecSize (borsh (A:=t)) 49.
Proof. solve_size. Qed.
Definition SEED_PREFIX : list byte := str "delegation".
Definition DISCRIMINATOR : list byte := byte_of_Z <$> [203; 185; 161; 226; 129; 251; 132; 155].
Definition is_valid (x : t) : bool := discriminator x == DISCRIMINATOR.
End DelegationRecord.

Module UndelegationRequest.
Record t : Set := mk {
  discriminator : list byte;
  session : Address;
  delegated_account : Address;
  owner_program : Address;
  authority : Address;
  requested_at_l1_slot : Z;
  approved : bool;
  bump : Z
}.
Definition to_tuple (x : t) :=
  (discriminator x, (session x, (delegated_account x, (owner_program x, (authority x, (requested_at_l1_slot x, (approved x, bump x))))))).
Definition of_tuple p : t :=
  let '(f0, (f1, (f2, (f3, (f4, (f5, (f6, f7))))))) := p in mk f0 f1 f2 f3 f4 f5 f6 f7.
#[global] Instance tuple : Fields to_tuple of_tuple.
Proof. solve_fields. Qed.
#[global] Instance codec : Borsh t := struct to_tuple of_tuple
  (bytes 8 *c bytes 32 *c bytes 32 *c bytes 32 *c bytes 32 *c u64c *c boolc *c u8c).
#[global] Instance codec_ok : CodecOk (borsh (A:=t)).
Proof. solve_codec. Qed.
#[global] Instance codec_size : CodecSize (borsh (A:=t)) 146.
Proof. solve_size. Qed.
Definition SEED_PREFIX : list byte := str "undelegation_request".
Definition DISCRIMINATOR : list byte := byte_of_Z <$> [141; 66; 225; 119; 110; 101; 37; 38].
Definition is_valid (x : t) : bool := discriminator x == DISCRIMINATOR.
End UndelegationRequest.

Module DepositReceipt.
Record t : Set := mk {
  discriminator : list byte;
  session : Address;
  recipient : Address;
  balance : Z;
  withdrawn : Z;
  bump : Z
}.
Definition to_tuple (x : t) :=
  (discriminator x, (session x, (recipient x, (balance x, (withdrawn x, bump x))))).
Definition of_tuple p : t :=
  let '(f0, (f1, (f2, (f3, (f4, f5))))) := p in mk f0 f1 f2 f3 f4 f5.
#[global] Instance tuple : Fields to_tuple of_tuple.
Proof. solve_fields. Qed.
#[global] Instance codec : Borsh t := struct to_tuple of_tuple
  (bytes 8 *c bytes 32 *c bytes 32 *c u64c *c u64c *c u8c).
#[global] Instance codec_ok : CodecOk (borsh (A:=t)).
Proof. solve_codec. Qed.
#[global] Instance codec_size : CodecSize (borsh (A:=t)) 89.
Proof. solve_size. Qed.
Definition SEED_PREFIX : list byte := str "deposit_receipt".
Definition DISCRIMINATOR : list byte := byte_of_Z <$> [64; 175; 24; 183; 138; 109; 70; 78].
Definition is_valid (x : t) : bool := discriminator x == DISCRIMINATOR.
End DepositReceipt.

Module SessionBridge.
Record t : Set := mk {
  discriminator : list byte;
  session : Address;
  mint : Address;
  bridge_program : Address;
  vault : Address;
  token_program : Address;
  bump : Z
}.
Definition to_tuple (x : t) :=
  (discriminator x, (session x, (mint x, (bridge_program x, (vault x, (token_program x, bump x)))))).
Definition of_tuple p : t :=
  let '(f0, (f1, (f2, (f3, (f4, (f5, f6)))))) := p in mk f0 f1 f2 f3 f4 f5 f6.
#[global] Instance tuple : Fields to_tuple of_tuple.
Proof. solve_fields. Qed.
#[global] Instance codec : Borsh t := struct to_tuple of_tuple
  (bytes 8 *c bytes 32 *c bytes 32 *c bytes 32 *c bytes 32 *c bytes 32 *c u8c).
#[global] Instance codec_ok : CodecOk (borsh (A:=t)).
Proof. solve_codec. Qed.
#[global] Instance codec_size : CodecSize (borsh (A:=t)) 169.
Proof. solve_size. Qed.
Definition SEED_PREFIX : list byte := str "session_bridge".
Definition DISCRIMINATOR : list byte := byte_of_Z <$> [145; 47; 8; 254; 118; 119; 114; 215].
Definition is_valid (x : t) : bool := discriminator x == DISCRIMINATOR.
End SessionBridge.

Module TokenWithdrawalAuthorization.
Record t : Set := mk {
  discriminator : list byte;
  checkpoint : Address;
  tuple_hash : Hash32;
  consumed : bool;
  bump : Z
}.
Definition to_tuple (x : t) :=
  (discriminator x, (checkpoint x, (tuple_hash x, (consumed x, bump x)))).
Definition of_tuple p : t :=
  let '(f0, (f1, (f2, (f3, f4)))) := p in mk f0 f1 f2 f3 f4.
#[global] Instance tuple : Fields to_tuple of_tuple.
Proof. solve_fields. Qed.
#[global] Instance codec : Borsh t := struct to_tuple of_tuple
  (bytes 8 *c bytes 32 *c bytes 32 *c boolc *c u8c).
#[global] Instance codec_ok : CodecOk (borsh (A:=t)).
Proof. solve_codec. Qed.
#[global] Instance codec_size : CodecSize (borsh (A:=t)) 74.
Proof. solve_size. Qed.
Definition SEED_PREFIX : list byte := str "token_withdrawal_auth".
Definition DISCRIMINATOR : list byte := byte_of_Z <$> [201; 36; 84; 147; 113; 63; 92; 11].
Definition is_valid (x : t) : bool := discriminator x == DISCRIMINATOR.
End TokenWithdrawalAuthorization.
