(* ===== verification/Commitments.v ===== *)
(** * Continuity commitments (zk-types/src/continuity.rs)

    The data the second checkpoint format commits to - the identity of a session,
    ingress records, state-root openings and input contexts - and the
    domain-separated commitment that hashes each of them.  The hash function is
    an argument, as in the source.

    [commitment_binding]: equal commitments have equal labels and equal
    encodings, or exhibit a collision of the hash.  [ingress_root_binds_history]:
    the root of an ingress chain determines every record of it. *)

From Stdlib Require Import ZArith Lia.
From Stdlib Require Import Strings.Byte.
From stdpp Require Import base list numbers.
From S2P Require Import Prelude Borsh Events Runtime Toy State.

Definition CHECKPOINT_FORMAT_VERSION_V2 : Z := 2.
Definition ER_STEP_PROOF_KIND_CONTINUITY : Z := 4.
Definition INGRESS_RECORD_DISCRIMINATOR_V2 : list byte := str "NSINGR02".
Definition INGRESS_RECORD_SEED_V2 : list byte := str "ingress_v2".
Definition MAX_INGRESS_ENCODING_BYTES_V2 : nat := 512.

(** [fn(&[&[u8]]) -> Hash32] *)
Abbreviation CommitmentHasher := (list (list byte) → Hash32).

Module ContinuityError.
Inductive t : Set :=
| Encoding
| UnsupportedVersion
| InvalidIdentity
| InvalidSequence
| InvalidRoot
| InvalidPayload.
#[global] Instance eq_dec : EqDecision t.
Proof. solve_decision. Defined.
End ContinuityError.

(** ** The commitment *)

(** [root[0] &= 0x1f]: the result is below the BN254 modulus. *)
Definition mask_root (r : Hash32) : Hash32 :=
  match r with
  | [] => []
  | b :: r' => byte_of_Z (Z.land (byte_val b) 0x1f) :: r'
  end.

Definition commitment {A} (c : codec A) (label : list byte) (value : A)
    (hasher : CommitmentHasher) : result ContinuityError.t Hash32 :=
  let encoded := enc c value in
  if (MAX_INGRESS_ENCODING_BYTES_V2 <? length encoded)%nat then Err ContinuityError.Encoding
  else if umax 16 <? Z.of_nat (length label) then Err ContinuityError.Encoding
  else if umax 16 <? Z.of_nat (length encoded) then Err ContinuityError.Encoding
  else Ok (mask_root (hasher
    [str "northstar-continuity-v2"; le_bytes 2 (Z.of_nat (length label)); label;
     le_bytes 2 (Z.of_nat (length encoded)); encoded])).

(** ** Session identity *)

Module SessionIdentityV2.
Record t : Set := mk {
  version : Z;
  l1_genesis : Hash32;
  portal : Hash32;
  session : Hash32;
  nonce : Z;
  grid_id : Z;
  validator : Hash32;
  profile : Hash32
}.
Definition to_tuple (x : t) :=
  (version x, (l1_genesis x, (portal x, (session x, (nonce x, (grid_id x, (validator x, profile x))))))).
Definition of_tuple p : t :=
  let '(f0, (f1, (f2, (f3, (f4, (f5, (f6, f7))))))) := p in mk f0 f1 f2 f3 f4 f5 f6 f7.
#[global] Instance tuple : Fields to_tuple of_tuple.
Proof. solve_fields. Qed.
#[global] Instance codec : Borsh t := struct to_tuple of_tuple
  (u8c *c bytes 32 *c bytes 32 *c bytes 32 *c u128c *c u64c *c bytes 32 *c bytes 32).
#[global] Instance codec_ok : CodecOk (borsh (A:=t)).
Proof. solve_codec. Qed.
#[global] Instance codec_size : CodecSize (borsh (A:=t)) 185.
Proof. solve_size. Qed.

(** [SessionIdentityV2::commitment] *)
Definition commitment (x : t) (hasher : CommitmentHasher) : result ContinuityError.t Hash32 :=
  if version x != CHECKPOINT_FORMAT_VERSION_V2 then Err ContinuityError.UnsupportedVersion
  else if bool_decide (zero32 ∈ [l1_genesis x; portal x; session x; validator x; profile x])
       || (nonce x =? 0) then Err ContinuityError.InvalidIdentity
  else commitment borsh (str "session") x hasher.
End SessionIdentityV2.

(** ** Ingress *)

Module IngressPayloadV2.
Inductive t : Set :=
| Delegation (account record owner : Hash32) (lamports data_len : Z) (data_hash : Hash32)
    (executable : bool) (rent_epoch : Z)
| SolDeposit (recipient receipt : Hash32) (amount cumulative_deposited : Z)
| TokenDeposit (bridge session_bridge account receipt mint token_program : Hash32)
    (origin_deposited amount cumulative_deposited : Z)
| Freeze (account request : Hash32) (requested_l1_slot : Z)
| Release (account request : Hash32).

Definition to_sum (x : t) :=
  match x with
  | Delegation a r o l n h e re => inl (a, (r, (o, (l, (n, (h, (e, re)))))))
  | SolDeposit a r n c => inr (inl (a, (r, (n, c))))
  | TokenDeposit b sb a r m tp o n c => inr (inr (inl (b, (sb, (a, (r, (m, (tp, (o, (n, c))))))))))
  | Freeze a r s => inr (inr (inr (inl (a, (r, s)))))
  | Release a r => inr (inr (inr (inr (a, r))))
  end.
Definition of_sum s : t :=
  match s with
  | inl (a, (r, (o, (l, (n, (h, (e, re))))))) => Delegation a r o l n h e re
  | inr (inl (a, (r, (n, c)))) => SolDeposit a r n c
  | inr (inr (inl (b, (sb, (a, (r, (m, (tp, (o, (n, c)))))))))) => TokenDeposit b sb a r m tp o n c
  | inr (inr (inr (inl (a, (r, s))))) => Freeze a r s
  | inr (inr (inr (inr (a, r)))) => Release a r
  end.
#[global] Instance sum_fields : Fields to_sum of_sum.
Proof.
  split; [by intros []|].
  intros [(?&?&?&?&?&?&?&?)|[(?&?&?&?)|[(?&?&?&?&?&?&?&?&?)|[(?&?&?)|(?&?)]]]]; done.
Qed.
Abbreviation h := (bytes 32).
#[global] Instance codec : Borsh t := struct to_sum of_sum (union
  (case 0 (h *c h *c h *c u64c *c u32c *c h *c boolc *c u64c) ⊎c
   case 1 (h *c h *c u64c *c u64c) ⊎c
   case 2 (h *c h *c h *c h *c h *c h *c u64c *c u64c *c u64c) ⊎c
   case 3 (h *c h *c u64c) ⊎c
   case 4 (h *c h))).
#[global] Instance codec_ok : CodecOk (borsh (A:=t)).
Proof.
  apply struct_ok; [apply _|]. apply (union_ok _ 5); [|lia].
  apply (case_or_ok _ _ _ 1); [lia|apply case_ok, _|].
  apply (case_or_ok _ _ _ 2); [lia|apply case_ok, _|].
  apply (case_or_ok _ _ _ 3); [lia|apply case_ok, _|].
  apply (case_or_ok _ _ _ 4); [lia|apply case_ok, _|apply case_ok, _].
Qed.

(** [IngressPayloadV2::account] *)
Definition account (x : t) : Hash32 :=
  match x with
  | Delegation a _ _ _ _ _ _ _ | TokenDeposit _ _ a _ _ _ _ _ _ | Freeze a _ _ | Release a _ => a
  | SolDeposit recipient _ _ _ => recipient
  end.

(** [IngressPayloadV2::validate] *)
Definition validate (x : t) : result ContinuityError.t unit :=
  let valid :=
    match x with
    | Delegation _ record _ _ _ data_hash executable _ =>
        (record != zero32) && (data_hash != zero32) && negb executable
    | SolDeposit _ receipt amount cumulative_deposited =>
        (receipt != zero32) && (0 <? amount) && (amount <=? cumulative_deposited)
    | TokenDeposit bridge session_bridge _ receipt mint token_program origin_deposited amount cumulative_deposited =>
        negb (bool_decide (zero32 ∈ [bridge; session_bridge; receipt; mint; token_program]))
        && (0 <? amount)
        && match checked_sub cumulative_deposited origin_deposited with
           | Some available => amount <=? available
           | None => false
           end
    | Freeze _ request _ | Release _ request => request != zero32
    end in
  if valid && (account x != zero32) then Ok tt else Err ContinuityError.InvalidPayload.
End IngressPayloadV2.

Module IngressRecordV2.
Record t : Set := mk {
  discriminator : list byte;
  version : Z;
  session_context : Hash32;
  sequence : Z;
  l1_slot : Z;
  previous_root : Hash32;
  payload : IngressPayloadV2.t;
  root : Hash32;
  bump : Z
}.
Definition to_tuple (x : t) :=
  (discriminator x, (version x, (session_context x, (sequence x, (l1_slot x, (previous_root x, (payload x, (root x, bump x)))))))).
Definition of_tuple p : t :=
  let '(f0, (f1, (f2, (f3, (f4, (f5, (f6, (f7, f8)))))))) := p in mk f0 f1 f2 f3 f4 f5 f6 f7 f8.
#[global] Instance tuple : Fields to_tuple of_tuple.
Proof. solve_fields. Qed.
#[global] Instance codec : Borsh t := struct to_tuple of_tuple
  (bytes 8 *c u8c *c bytes 32 *c u64c *c u64c *c bytes 32 *c borsh (A:=IngressPayloadV2.t) *c bytes 32 *c u8c).
#[global] Instance codec_ok : CodecOk (borsh (A:=t)).
Proof. solve_codec. Qed.

(** The tuple hashed by [computed_root]. *)
Definition root_fields (x : t) :=
  (version x, (session_context x, (sequence x, (l1_slot x, (previous_root x, payload x))))).
Abbreviation root_codec := (u8c *c bytes 32 *c u64c *c u64c *c bytes 32 *c borsh (A:=IngressPayloadV2.t)).

(** [IngressRecordV2::computed_root] *)
Definition computed_root (x : t) (hasher : CommitmentHasher) : result ContinuityError.t Hash32 :=
  Commitments.commitment root_codec (str "ingress") (root_fields x) hasher.

(** [IngressRecordV2::new] *)
Definition new (session_context : Hash32) (sequence l1_slot : Z) (previous_root : Hash32)
    (payload : IngressPayloadV2.t) (bump : Z) (hasher : CommitmentHasher) : result ContinuityError.t t :=
  let record root := mk INGRESS_RECORD_DISCRIMINATOR_V2 CHECKPOINT_FORMAT_VERSION_V2 session_context
                        sequence l1_slot previous_root payload root bump in
  match IngressPayloadV2.validate payload with
  | Err e => Err e
  | Ok _ =>
      if (session_context == zero32) || (sequence =? 0) then Err ContinuityError.InvalidSequence
      else match computed_root (record zero32) hasher with
           | Err e => Err e
           | Ok r => Ok (record r)
           end
  end.

(** [IngressRecordV2::validate_next] *)
Definition validate_next (x : t) (ctx : Hash32) (consumed : Z) (prev : Hash32)
    (hasher : CommitmentHasher) : result ContinuityError.t unit :=
  if (discriminator x != INGRESS_RECORD_DISCRIMINATOR_V2) || (version x != CHECKPOINT_FORMAT_VERSION_V2)
  then Err ContinuityError.UnsupportedVersion
  else if session_context x != ctx then Err ContinuityError.InvalidIdentity
  else if Some (sequence x) != u64_checked_add consumed 1 then Err ContinuityError.InvalidSequence
  else match IngressPayloadV2.validate (payload x) with
       | Err e => Err e
       | Ok _ =>
           if previous_root x != prev then Err ContinuityError.InvalidRoot
           else match computed_root x hasher with
                | Err e => Err e
                | Ok r => if root x != r then Err ContinuityError.InvalidRoot else Ok tt
                end
       end.
End IngressRecordV2.

(** ** State roots and input contexts *)

Module StateRootOpeningV2.
Record t : Set := mk {
  session_context : Hash32;
  account_root : Hash32;
  origin_root : Hash32;
  ingress_count : Z;
  ingress_root : Hash32
}.
Definition to_tuple (x : t) :=
  (session_context x, (account_root x, (origin_root x, (ingress_count x, ingress_root x)))).
Definition of_tuple p : t :=
  let '(f0, (f1, (f2, (f3, f4)))) := p in mk f0 f1 f2 f3 f4.
#[global] Instance tuple : Fields to_tuple of_tuple.
Proof. solve_fields. Qed.
#[global] Instance codec : Borsh t := struct to_tuple of_tuple
  (bytes 32 *c bytes 32 *c bytes 32 *c u64c *c bytes 32).
#[global] Instance codec_ok : CodecOk (borsh (A:=t)).
Proof. solve_codec. Qed.
#[global] Instance codec_size : CodecSize (borsh (A:=t)) 136.
Proof. solve_size. Qed.

(** [StateRootOpeningV2::commitment] *)
Definition commitment (x : t) (hasher : CommitmentHasher) : result ContinuityError.t Hash32 :=
  if session_context x == zero32 then Err ContinuityError.InvalidIdentity
  else if (account_root x == zero32) || (origin_root x == zero32) then Err ContinuityError.InvalidRoot
  else if negb (Bool.eqb (ingress_count x =? 0) (ingress_root x == zero32)) then Err ContinuityError.InvalidRoot
  else Commitments.commitment borsh (str "state") x hasher.
End StateRootOpeningV2.

(** [empty_state_opening_v2] *)
Definition empty_state_opening_v2 (session_context : Hash32) (hasher : CommitmentHasher) :
    result ContinuityError.t StateRootOpeningV2.t :=
  let empty_leaf := hasher [str "northstar-checkpoint-v1"; str "state"; str "empty-leaf";
                            le_bytes 8 4; le_bytes 4 0] in
  let account_root := mask_root (hasher [str "northstar-checkpoint-v1"; str "state"; str "root";
                                         le_bytes 4 0; empty_leaf]) in
  match commitment (bytes 32) (str "origins") (hasher [zeros 20]) hasher with
  | Err e => Err e
  | Ok origin_root =>
      let opening := StateRootOpeningV2.mk session_context account_root origin_root 0 zero32 in
      match StateRootOpeningV2.commitment opening hasher with
      | Err e => Err e
      | Ok _ => Ok opening
      end
  end.

Module InputContextV2.
Record t : Set := mk {
  session_context : Hash32;
  readonly_l1_root : Hash32;
  ingress_start : Z;
  ingress_start_root : Hash32;
  ingress_end : Z;
  ingress_end_root : Hash32
}.
Definition to_tuple (x : t) :=
  (session_context x, (readonly_l1_root x, (ingress_start x, (ingress_start_root x, (ingress_end x, ingress_end_root x))))).
Definition of_tuple p : t :=
  let '(f0, (f1, (f2, (f3, (f4, f5))))) := p in mk f0 f1 f2 f3 f4 f5.
#[global] Instance tuple : Fields to_tuple of_tuple.
Proof. solve_fields. Qed.
#[global] Instance codec : Borsh t := struct to_tuple of_tuple
  (bytes 32 *c bytes 32 *c u64c *c bytes 32 *c u64c *c bytes 32).
#[global] Instance codec_ok : CodecOk (borsh (A:=t)).
Proof. solve_codec. Qed.
#[global] Instance codec_size : CodecSize (borsh (A:=t)) 144.
Proof. solve_size. Qed.

(** [InputContextV2::commitment] *)
Definition commitment (x : t) (hasher : CommitmentHasher) : result ContinuityError.t Hash32 :=
  if (session_context x == zero32) || (readonly_l1_root x == zero32)
     || (ingress_end x <? ingress_start x)
     || negb (Bool.eqb (ingress_start x =? 0) (ingress_start_root x == zero32))
     || negb (Bool.eqb (ingress_end x =? 0) (ingress_end_root x == zero32))
  then Err ContinuityError.InvalidRoot
  else Commitments.commitment borsh (str "input-context") x hasher.
End InputContextV2.

(** ** Binding *)

Lemma mask_root_length r : length (mask_root r) = length r.
Proof. by destruct r. Qed.

Section binding.
Context `{Host}.

(** The bytes a commitment hashes. *)
Definition preimage {A} (c : codec A) (label : list byte) (value : A) : list byte :=
  concat [str "northstar-continuity-v2"; le_bytes 2 (Z.of_nat (length label)); label;
          le_bytes 2 (Z.of_nat (length (enc c value))); enc c value].

(** Two different messages with one root. *)
Definition collides (m m' : list byte) : Prop :=
  m ≠ m' ∧ mask_root (sha256 m) = mask_root (sha256 m').

Lemma commitment_Ok {A} (c : codec A) label (value : A) r :
  commitment c label value hashv = Ok r →
  Z.of_nat (length label) ≤ umax 16 ∧ Z.of_nat (length (enc c value)) ≤ umax 16 ∧
  r = mask_root (sha256 (preimage c label value)).
Proof.
  unfold commitment. repeat case_match; intros [= <-]; bprop. done.
Qed.

Lemma le_bytes_inj n a b :
  0 ≤ a < 256 ^ Z.of_nat n → 0 ≤ b < 256 ^ Z.of_nat n → le_bytes n a = le_bytes n b → a = b.
Proof. intros Ha Hb He. by rewrite <- (le_val_bytes n a), <- (le_val_bytes n b), He. Qed.

(** Labels and encodings of different lengths or contents never give the same
    message. *)
Lemma preimage_inj {A B} (c : codec A) (d : codec B) l1 l2 a b :
  Z.of_nat (length l1) ≤ umax 16 → Z.of_nat (length (enc c a)) ≤ umax 16 →
  Z.of_nat (length l2) ≤ umax 16 → Z.of_nat (length (enc d b)) ≤ umax 16 →
  preimage c l1 a = preimage d l2 b → l1 = l2 ∧ enc c a = enc d b.
Proof.
  rewrite (umax_256 16 2) by done. intros H1 H2 H3 H4. unfold preimage. cbn [concat].
  intros He. apply app_inv_head in He.
  apply app_inj_len in He as [Hl He]; [|by rewrite !length_le_bytes].
  apply le_bytes_inj in Hl; [|lia..]. apply Nat2Z.inj in Hl.
  apply app_inj_len in He as [-> He]; [|done].
  apply app_inj_len in He as [_ He]; [|by rewrite !length_le_bytes].
  rewrite !app_nil_r in He. done.
Qed.

Lemma commitment_binding {A B} (c : codec A) (d : codec B) l1 l2 a b r :
  commitment c l1 a hashv = Ok r → commitment d l2 b hashv = Ok r →
  (l1 = l2 ∧ enc c a = enc d b) ∨ collides (preimage c l1 a) (preimage d l2 b).
Proof.
  intros (?&?&->)%commitment_Ok (?&?&Hr)%commitment_Ok.
  destruct (decide (preimage c l1 a = preimage d l2 b)) as [He|Hne]; [left|by right].
  by apply preimage_inj in He.
Qed.

(** *** Ingress chains *)

Import IngressRecordV2.

(** The message whose hash is the root of a record. *)
Definition record_preimage (x : IngressRecordV2.t) : list byte :=
  preimage root_codec (str "ingress") (root_fields x).

(** Records that extend the prefix of [consumed] records ending in [prev]. *)
Fixpoint valid_chain (ctx : Hash32) (consumed : Z) (prev : Hash32) (l : list IngressRecordV2.t) : bool :=
  match l with
  | [] => true
  | x :: l' => is_ok (validate_next x ctx consumed prev hashv) && valid_chain ctx (consumed + 1) (root x) l'
  end.
Definition chain_root (prev : Hash32) (l : list IngressRecordV2.t) : Hash32 :=
  default prev (root <$> list.last l).

Lemma validate_next_Ok x ctx consumed prev :
  is_ok (validate_next x ctx consumed prev hashv) = true →
  session_context x = ctx ∧ sequence x = consumed + 1 ∧ previous_root x = prev ∧
  computed_root x hashv = Ok (root x).
Proof.
  unfold validate_next. repeat case_match; try done. intros _. bprop.
  match goal with H : Some _ = u64_checked_add _ _ |- _ => symmetry in H; apply checked_add_Some in H end.
  split_and!; naive_solver.
Qed.

Lemma valid_chain_snoc ctx consumed prev l x :
  valid_chain ctx consumed prev (l ++ [x]) = true →
  valid_chain ctx consumed prev l = true ∧
  is_ok (validate_next x ctx (consumed + Z.of_nat (length l)) (chain_root prev l) hashv) = true.
Proof.
  revert consumed prev. induction l as [|y l IH]; intros consumed prev; cbn [app valid_chain].
  - rewrite Z.add_0_r. intros Hv. by bprop.
  - intros Hv. bprop. destruct (IH _ _ ltac:(done)) as [Hv1 Hv2]. split.
    + by apply andb_true_iff.
    + replace (chain_root prev (y :: l)) with (chain_root (root y) l)
        by (unfold chain_root; rewrite last_cons; by destruct (list.last l)).
      rewrite <- Hv2. f_equal. f_equal. cbn [length]. lia.
Qed.

Lemma chain_root_snoc prev l x : chain_root prev (l ++ [x]) = root x.
Proof. unfold chain_root. by rewrite last_snoc. Qed.

Lemma ingress_chains_agree ctx consumed prev l1 l2 :
  Forall (λ x, wf root_codec (root_fields x)) (l1 ++ l2) →
  valid_chain ctx consumed prev l1 = true → valid_chain ctx consumed prev l2 = true →
  length l1 = length l2 → chain_root prev l1 = chain_root prev l2 →
  root_fields <$> l1 = root_fields <$> l2 ∨
  ∃ x y, x ∈ l1 ∧ y ∈ l2 ∧ collides (record_preimage x) (record_preimage y).
Proof.
  revert l2. induction l1 as [|x l1 IH] using rev_ind; intros l2 Hwf H1 H2 Hlen Hroot.
  { destruct l2; [by left|done]. }
  destruct l2 as [|y l2 _] using rev_ind; rewrite !length_app in Hlen; simpl in Hlen; [lia|].
  rewrite !chain_root_snoc in Hroot.
  apply valid_chain_snoc in H1 as [H1 Hx]. apply valid_chain_snoc in H2 as [H2 Hy].
  apply validate_next_Ok in Hx as (_ & _ & Hpx & Hrx).
  apply validate_next_Ok in Hy as (_ & _ & Hpy & Hry).
  rewrite Hroot in Hrx. unfold computed_root in *.
  destruct (commitment_binding _ _ _ _ _ _ _ Hrx Hry) as [[_ He]|Hc].
  2:{ right. exists x, y. rewrite !elem_of_app, !list_elem_of_singleton. auto. }
  rewrite !Forall_app, !Forall_singleton in Hwf. destruct Hwf as [[? Hwx] [? Hwy]].
  apply enc_inj in He; [|apply _|done|done].
  assert (Hprev : previous_root x = previous_root y) by (unfold root_fields in He; congruence).
  destruct (IH l2) as [IHl|(x' & y' & ? & ? & ?)]; [|done|done|lia|congruence| |].
  - apply Forall_app. auto.
  - left. rewrite !fmap_app. simpl. congruence.
  - right. exists x', y'. rewrite !elem_of_app. auto.
Qed.

(** The last records of two chains with one root have the same fields. *)
Lemma chain_heads_agree ctx1 ctx2 l1 l2 x y :
  wf root_codec (root_fields x) → wf root_codec (root_fields y) →
  valid_chain ctx1 0 zero32 (l1 ++ [x]) = true → valid_chain ctx2 0 zero32 (l2 ++ [y]) = true → root x = root y →
  ctx1 = ctx2 ∧ length l1 = length l2 ∨ collides (record_preimage x) (record_preimage y).
Proof.
  intros Hwx Hwy H1 H2 Hroot.
  apply valid_chain_snoc in H1 as [H1 Hx]. apply valid_chain_snoc in H2 as [H2 Hy].
  apply validate_next_Ok in Hx as (Hcx & Hsx & _ & Hrx). apply validate_next_Ok in Hy as (Hcy & Hsy & _ & Hry).
  rewrite Hroot in Hrx. unfold computed_root in *.
  destruct (commitment_binding _ _ _ _ _ _ _ Hrx Hry) as [[_ He]|Hc]; [left|by right].
  apply enc_inj in He; [|apply _|done|done]. unfold root_fields in He. simplify_eq. split; [congruence|lia].
Qed.

(** The root of a non-empty ingress chain binds the
    whole history: two valid chains with the same root belong to the same
    session context, have the same length and carry the same sequence numbers,
    slots and payloads, or two of their records exhibit a collision of the
    masked hash. *)
Theorem ingress_root_binds_history ctx1 ctx2 l1 l2 :
  l1 ≠ [] → l2 ≠ [] → Forall (λ x, wf root_codec (root_fields x)) (l1 ++ l2) →
  valid_chain ctx1 0 zero32 l1 = true → valid_chain ctx2 0 zero32 l2 = true →
  chain_root zero32 l1 = chain_root zero32 l2 →
  ctx1 = ctx2 ∧ root_fields <$> l1 = root_fields <$> l2 ∨
  ∃ x y, x ∈ l1 ∧ y ∈ l2 ∧ collides (record_preimage x) (record_preimage y).
Proof.
  destruct l1 as [|x l1 _] using rev_ind; [done|]. destruct l2 as [|y l2 _] using rev_ind; [done|].
  intros _ _ Hwf H1 H2 Hroot.
  pose proof Hwf as [[_ Hwx]%Forall_app [_ Hwy]%Forall_app]%Forall_app. rewrite Forall_singleton in Hwx, Hwy.
  destruct (chain_heads_agree _ _ _ _ _ _ Hwx Hwy H1 H2) as [[<- Hl]|Hc].
  - by rewrite !chain_root_snoc in Hroot.
  - destruct (ingress_chains_agree _ _ _ _ _ Hwf H1 H2) as [?|?]; [by rewrite !length_app, Hl|done|by left|by right].
  - right. exists x, y. rewrite !elem_of_app, !list_elem_of_singleton. auto.
Qed.
End binding.

Module ChainExample.
Definition ctx : Hash32 := key 3.
Definition record (n : Z) (prev : Hash32) (p : IngressPayloadV2.t) : IngressRecordV2.t :=
  match IngressRecordV2.new ctx n (100 + n) prev p 255 hashv with
  | Ok x => x
  | Err _ => IngressRecordV2.mk [] 0 [] 0 0 [] p [] 0
  end.
Definition first : IngressRecordV2.t :=
  Eval vm_compute in record 1 zero32 (IngressPayloadV2.SolDeposit (key 1) (key 2) 500 500).
Definition second : IngressRecordV2.t :=
  Eval vm_compute in record 2 (IngressRecordV2.root first) (IngressPayloadV2.Freeze (key 1) (key 4) 101).
Definition chain : list IngressRecordV2.t := [first; second].
End ChainExample.

Lemma ingress_root_binds_history_witness :
  valid_chain ChainExample.ctx 0 zero32 ChainExample.chain = true ∧
  (ChainExample.ctx = ChainExample.ctx ∧
   IngressRecordV2.root_fields <$> ChainExample.chain = IngressRecordV2.root_fields <$> ChainExample.chain ∨
   ∃ x y, x ∈ ChainExample.chain ∧ y ∈ ChainExample.chain ∧ collides (record_preimage x) (record_preimage y)).
Proof.
  split; [vm_compute; reflexivity|].
  apply (ingress_root_binds_history ChainExample.ctx ChainExample.ctx ChainExample.chain ChainExample.chain).
  - discriminate.
  - discriminate.
  - unfold ChainExample.chain. cbn [app]. repeat (apply Forall_cons_2; [concrete_wf|]). apply Forall_nil_2.
  - vm_compute. reflexivity.
  - vm_compute. reflexivity.
  - reflexivity.
Defined.
