(* ===== verification/Frames.v ===== *)
(** * Account frames (portal/src/continuity.rs)

    The second format wraps a first-format session, deposit receipt or bridge in
    a longer frame.  [parse_session] and [write_session] (and the receipt pair)
    let every handler work on both formats; they are specified here: what a
    handler reads after a write is what it wrote, and a write into a frame keeps
    the identity and ingress fields ([session_write_reads_back]).
    [account_kinds_disjoint]: no bytes are a valid state of two account types. *)

From Stdlib Require Import ZArith Lia.
From Stdlib Require Import Strings.Byte.
From stdpp Require Import base gmap list numbers.
From S2P Require Import Prelude Borsh Events Runtime State Commitments Toy.

Module SessionV2.
Record t : Set := mk {
  discriminator : list byte;
  base : Session.t;
  l1_genesis : list byte;
  profile : list byte;
  ingress_count : Z;
  ingress_root : list byte;
  consumed_ingress_count : Z;
  consumed_ingress_root : list byte
}.
Definition to_tuple (x : t) :=
  (discriminator x, (base x, (l1_genesis x, (profile x, (ingress_count x, (ingress_root x, (consumed_ingress_count x, consumed_ingress_root x))))))).
Definition of_tuple p : t :=
  let '(f0, (f1, (f2, (f3, (f4, (f5, (f6, f7))))))) := p in mk f0 f1 f2 f3 f4 f5 f6 f7.
#[global] Instance tuple : Fields to_tuple of_tuple.
Proof. solve_fields. Qed.
#[global] Instance codec : Borsh t := struct to_tuple of_tuple
  (bytes 8 *c borsh (A:=Session.t) *c bytes 32 *c bytes 32 *c u64c *c bytes 32 *c u64c *c bytes 32).
#[global] Instance codec_ok : CodecOk (borsh (A:=t)).
Proof. solve_codec. Qed.
#[global] Instance codec_size : CodecSize (borsh (A:=t)) 378.
Proof. solve_size. Qed.
Definition DISCRIMINATOR : list byte := str "NSSESS02".

(** [SessionV2::identity] *)
Definition identity (x : t) (portal session : Address) : SessionIdentityV2.t :=
  SessionIdentityV2.mk 2 (l1_genesis x) portal session (Session.nonce (base x))
    (Session.grid_id (base x)) (Session.validator (base x)) (profile x).

(** [SessionV2::is_valid] *)
Definition is_valid (x : t) : bool :=
  (discriminator x == DISCRIMINATOR) && Session.is_valid (base x) && (0 <? Session.nonce (base x))
  && (l1_genesis x != zero32) && (profile x != zero32)
  && (consumed_ingress_count x <=? ingress_count x)
  && Bool.eqb (ingress_count x =? 0) (ingress_root x == zero32)
  && Bool.eqb (consumed_ingress_count x =? 0) (consumed_ingress_root x == zero32).

Definition with_base (b : Session.t) (x : t) : t :=
  mk (discriminator x) b (l1_genesis x) (profile x) (ingress_count x) (ingress_root x)
     (consumed_ingress_count x) (consumed_ingress_root x).
End SessionV2.

Module SessionEpochV2.
Record t : Set := mk {
  discriminator : list byte;
  last_nonce : Z;
  bump : Z
}.
Definition to_tuple (x : t) :=
  (discriminator x, (last_nonce x, bump x)).
Definition of_tuple p : t :=
  let '(f0, (f1, f2)) := p in mk f0 f1 f2.
#[global] Instance tuple : Fields to_tuple of_tuple.
Proof. solve_fields. Qed.
#[global] Instance codec : Borsh t := struct to_tuple of_tuple
  (bytes 8 *c u128c *c u8c).
#[global] Instance codec_ok : CodecOk (borsh (A:=t)).
Proof. solve_codec. Qed.
#[global] Instance codec_size : CodecSize (borsh (A:=t)) 25.
Proof. solve_size. Qed.
Definition DISCRIMINATOR : list byte := str "NSEPOCH2".
Definition SEED_PREFIX : list byte := str "session_epoch_v2".
End SessionEpochV2.

Module DepositReceiptV2.
Record t : Set := mk {
  discriminator : list byte;
  base : DepositReceipt.t;
  session_context : list byte;
  total_deposited : Z
}.
Definition to_tuple (x : t) :=
  (discriminator x, (base x, (session_context x, total_deposited x))).
Definition of_tuple p : t :=
  let '(f0, (f1, (f2, f3))) := p in mk f0 f1 f2 f3.
#[global] Instance tuple : Fields to_tuple of_tuple.
Proof. solve_fields. Qed.
#[global] Instance codec : Borsh t := struct to_tuple of_tuple
  (bytes 8 *c borsh (A:=DepositReceipt.t) *c bytes 32 *c u64c).
#[global] Instance codec_ok : CodecOk (borsh (A:=t)).
Proof. solve_codec. Qed.
#[global] Instance codec_size : CodecSize (borsh (A:=t)) 137.
Proof. solve_size. Qed.
Definition DISCRIMINATOR : list byte := str "NSRECP02".
Definition SEED_PREFIX : list byte := str "deposit_receipt_v2".

Definition with_base (b : DepositReceipt.t) (x : t) : t :=
  mk (discriminator x) b (session_context x) (total_deposited x).
End DepositReceiptV2.

Module SessionBridgeV2.
Record t : Set := mk {
  discriminator : list byte;
  base : SessionBridge.t;
  session_context : list byte
}.
Definition to_tuple (x : t) :=
  (discriminator x, (base x, session_context x)).
Definition of_tuple p : t :=
  let '(f0, (f1, f2)) := p in mk f0 f1 f2.
#[global] Instance tuple : Fields to_tuple of_tuple.
Proof. solve_fields. Qed.
#[global] Instance codec : Borsh t := struct to_tuple of_tuple
  (bytes 8 *c borsh (A:=SessionBridge.t) *c bytes 32).
#[global] Instance codec_ok : CodecOk (borsh (A:=t)).
Proof. solve_codec. Qed.
#[global] Instance codec_size : CodecSize (borsh (A:=t)) 209.
Proof. solve_size. Qed.
Definition DISCRIMINATOR : list byte := str "NSBRDG02".
Definition SEED_PREFIX : list byte := str "session_bridge_v2".

(** [SessionBridgeV2::is_valid] *)
Definition is_valid (x : t) : bool :=
  (discriminator x == DISCRIMINATOR) && SessionBridge.is_valid (base x) && (session_context x != zero32).
End SessionBridgeV2.

Module CheckpointBindingV2.
Record t : Set := mk {
  discriminator : list byte;
  checkpoint : list byte;
  pre : StateRootOpeningV2.t;
  post : StateRootOpeningV2.t;
  prefix_record : list byte;
  input_context_root : list byte;
  bump : Z
}.
Definition to_tuple (x : t) :=
  (discriminator x, (checkpoint x, (pre x, (post x, (prefix_record x, (input_context_root x, bump x)))))).
Definition of_tuple p : t :=
  let '(f0, (f1, (f2, (f3, (f4, (f5, f6)))))) := p in mk f0 f1 f2 f3 f4 f5 f6.
#[global] Instance tuple : Fields to_tuple of_tuple.
Proof. solve_fields. Qed.
#[global] Instance codec : Borsh t := struct to_tuple of_tuple
  (bytes 8 *c bytes 32 *c borsh (A:=StateRootOpeningV2.t) *c borsh (A:=StateRootOpeningV2.t) *c bytes 32 *c bytes 32 *c u8c).
#[global] Instance codec_ok : CodecOk (borsh (A:=t)).
Proof. solve_codec. Qed.
#[global] Instance codec_size : CodecSize (borsh (A:=t)) 377.
Proof. solve_size. Qed.
Definition DISCRIMINATOR : list byte := str "NSCHKP02".
Definition SEED_PREFIX : list byte := str "checkpoint_v2".
End CheckpointBindingV2.

(** ** Reading and writing either format *)

Definition parse_session (d : list byte) : result PortalError.t Session.t :=
  if starts_with d SessionV2.DISCRIMINATOR then
    match try_from_slice d with
    | None => Err PortalError.SessionDeserializeFailed
    | Some state => if negb (SessionV2.is_valid state) then Err PortalError.SessionStateInvalid
                    else Ok (SessionV2.base state)
    end
  else
    match try_from_slice d with
    | None => Err PortalError.SessionDeserializeFailed
    | Some state => if negb (Session.is_valid state) then Err PortalError.SessionStateInvalid
                    else Ok state
    end.

(** [balance.checked_add(withdrawn).is_none_or(|amount| amount > total)] *)
Definition exceeds (balance withdrawn total : Z) : bool :=
  match u64_checked_add balance withdrawn with Some amount => total <? amount | None => true end.

Definition parse_deposit_receipt (d : list byte) : result PortalError.t DepositReceipt.t :=
  if starts_with d DepositReceiptV2.DISCRIMINATOR then
    match try_from_slice d with
    | None => Err PortalError.DepositReceiptDeserializeFailed
    | Some frame =>
        let base := DepositReceiptV2.base frame in
        if negb (DepositReceipt.is_valid base) || (DepositReceiptV2.session_context frame == zero32)
           || exceeds (DepositReceipt.balance base) (DepositReceipt.withdrawn base)
                (DepositReceiptV2.total_deposited frame)
        then Err PortalError.DepositReceiptStateInvalid else Ok base
    end
  else
    match try_from_slice d with
    | None => Err PortalError.DepositReceiptDeserializeFailed
    | Some state => if negb (DepositReceipt.is_valid state) then Err PortalError.DepositReceiptStateInvalid
                    else Ok state
    end.

Definition write_deposit_receipt (d : list byte) (state : DepositReceipt.t) :
    result PortalError.t (list byte) :=
  let ser {A} `{Borsh A} (a : A) :=
    match serialize_into a d with Some d' => Ok d' | None => Err PortalError.DepositReceiptStateInvalid end in
  if starts_with d DepositReceiptV2.DISCRIMINATOR then
    match try_from_slice d with
    | None => Err PortalError.DepositReceiptDeserializeFailed
    | Some frame =>
        let base := DepositReceiptV2.base frame in
        if (DepositReceipt.session state != DepositReceipt.session base)
           || (DepositReceipt.recipient state != DepositReceipt.recipient base)
           || (DepositReceipt.bump state != DepositReceipt.bump base)
           || (DepositReceipt.withdrawn state <? DepositReceipt.withdrawn base)
           || exceeds (DepositReceipt.balance state) (DepositReceipt.withdrawn state)
                (DepositReceiptV2.total_deposited frame)
        then Err PortalError.DepositReceiptStateInvalid
        else ser (DepositReceiptV2.with_base state frame)
    end
  else ser state.

(** The fields [write_session] may not change in a frame. *)
Definition session_terms (s : Session.t) :=
  (Session.nonce s, Session.grid_id s, Session.authority s, Session.validator s, Session.created_at s,
   Session.ttl_slots s, Session.fee_cap s, Session.settlement_interval_slots s, Session.bump s).

Definition write_session (d : list byte) (state : Session.t) : result PortalError.t (list byte) :=
  let ser {A} `{Borsh A} (a : A) :=
    match serialize_into a d with Some d' => Ok d' | None => Err PortalError.SessionStateInvalid end in
  if starts_with d SessionV2.DISCRIMINATOR then
    match try_from_slice d with
    | None => Err PortalError.SessionDeserializeFailed
    | Some frame =>
        if negb (SessionV2.is_valid frame) then Err PortalError.SessionStateInvalid
        else if session_terms (SessionV2.base frame) != session_terms state
        then Err PortalError.SessionStateInvalid
        else ser (SessionV2.with_base state frame)
    end
  else ser state.

(** ** Specification *)

(** A frame never parses as the other format: the first eight bytes differ. *)
Lemma session_enc_starts s :
  wf borsh s → Session.is_valid s = true → starts_with (enc borsh s) SessionV2.DISCRIMINATOR = false.
Proof.
  intros Hwf Hv. unfold Session.is_valid in Hv. bprop. apply bool_decide_eq_false.
  unfold borsh, Session.codec. cbn [enc struct pair_c Session.to_tuple fst snd bytes]. rewrite Hv. by vm_compute.
Qed.

Lemma frame_enc_starts f :
  SessionV2.discriminator f = SessionV2.DISCRIMINATOR →
  starts_with (enc borsh f) SessionV2.DISCRIMINATOR = true.
Proof.
  intros Hd. unfold borsh, SessionV2.codec.
  cbn [enc struct pair_c SessionV2.to_tuple fst snd bytes]. rewrite Hd. apply starts_with_app.
Qed.

(** The two shapes of a session account. *)
Inductive session_shape (d : list byte) (s : Session.t) : Prop :=
| SessionV1Shape : wf borsh s → Session.is_valid s = true → d = enc borsh s → session_shape d s
| SessionV2Shape f : wf borsh f → SessionV2.is_valid f = true → d = enc borsh f →
    SessionV2.base f = s → session_shape d s.

Lemma parse_session_Ok d s : parse_session d = Ok s ↔ session_shape d s.
Proof.
  unfold parse_session. split.
  - destruct (starts_with _ _).
    + destruct (try_from_slice d) as [f|] eqn:Hf; [|done].
      destruct (SessionV2.is_valid f) eqn:Hv; [|done]. intros [= <-].
      apply try_from_slice_Some in Hf as [? ->]. by eapply SessionV2Shape.
    + destruct (try_from_slice d) as [f|] eqn:Hf; [|done].
      destruct (Session.is_valid f) eqn:Hv; [|done]. intros [= <-].
      apply try_from_slice_Some in Hf as [? ->]. by apply SessionV1Shape.
  - intros [Hwf Hv ->|f Hwf Hv -> <-].
    + by rewrite session_enc_starts, try_from_slice_enc, Hv by done.
    + rewrite frame_enc_starts by (unfold SessionV2.is_valid in Hv; by bprop).
      by rewrite try_from_slice_enc, Hv.
Qed.

Lemma session_shape_wf d s : session_shape d s → wf borsh s ∧ Session.is_valid s = true.
Proof.
  intros [Hwf Hv _|f Hwf Hv _ <-]; [done|]. split.
  - apply Hwf.
  - unfold SessionV2.is_valid in Hv. by bprop.
Qed.

(** Writing the session that differs from the one read only in its settlement
    fields succeeds, and reading gives it back. *)
Lemma parse_write_session d s s' :
  parse_session d = Ok s → wf borsh s' → Session.is_valid s' = true → session_terms s' = session_terms s →
  ∃ d', write_session d s' = Ok d' ∧ parse_session d' = Ok s' ∧ length d' = length d.
Proof.
  rewrite parse_session_Ok. intros Hsh Hwf' Hv' Ht. unfold write_session.
  destruct Hsh as [Hwf Hv ->|f Hwf Hv -> <-].
  - rewrite session_enc_starts by done.
    assert (Hl : length (enc borsh s') = length (enc borsh s)) by (by rewrite !codec_size).
    rewrite serialize_into_exact by done. eexists. split_and!; [done| |done].
    apply parse_session_Ok. by apply SessionV1Shape.
  - assert (Hd : SessionV2.discriminator f = SessionV2.DISCRIMINATOR)
      by (unfold SessionV2.is_valid in Hv; by bprop).
    rewrite frame_enc_starts, try_from_slice_enc, Hv by done. cbn [negb].
    rewrite bool_decide_eq_true_2 by done. cbn [negb].
    set (f' := SessionV2.with_base s' f).
    assert (Hwff : wf borsh f') by (destruct Hwf as (? & _ & ?); split; [done|split; done]).
    assert (Hl : length (enc borsh f) = length (enc borsh f')) by (by rewrite !codec_size).
    rewrite serialize_into_exact by done. eexists. split_and!; [done| |done].
    apply parse_session_Ok. apply (SessionV2Shape _ _ f'); [done| |done|done].
    unfold SessionV2.is_valid in *. cbn. unfold session_terms in Ht. bprop. injection Ht as ?.
    repeat (apply andb_true_iff; split); try (apply bool_decide_eq_true_2; done); try done.
    + apply Z.ltb_lt. congruence.
    + by apply negb_true_iff, bool_decide_eq_false.
    + by apply negb_true_iff, bool_decide_eq_false.
    + by apply Z.leb_le.
Qed.

(** A successful write reads back whatever was written before. *)
Lemma write_session_Ok d s s' d' :
  parse_session d = Ok s → wf borsh s' → Session.is_valid s' = true →
  write_session d s' = Ok d' → parse_session d' = Ok s' ∧ length d' = length d.
Proof.
  intros Hp Hwf Hv Hw.
  destruct (decide (session_terms s' = session_terms s)) as [Ht|Ht].
  - destruct (parse_write_session _ _ _ Hp Hwf Hv Ht) as (d2 & Hw2 & ? & ?).
    rewrite Hw in Hw2. by injection Hw2 as ->.
  - apply parse_session_Ok in Hp as [Hwf0 Hv0 ->|f Hwf0 Hv0 -> <-]; unfold write_session in Hw.
    + rewrite session_enc_starts in Hw by done.
      assert (Hl : length (enc borsh s') = length (enc borsh s)) by (by rewrite !codec_size).
      rewrite serialize_into_exact in Hw by done. injection Hw as <-. split; [|done].
      apply parse_session_Ok. by apply SessionV1Shape.
    + rewrite frame_enc_starts, try_from_slice_enc, Hv0 in Hw
        by (try done; unfold SessionV2.is_valid in Hv0; by bprop).
      cbn [negb] in Hw. by rewrite bool_decide_eq_false_2 in Hw by congruence.
Qed.

(** A write into a frame keeps everything but the settlement fields of the
    session: the genesis, profile, ingress and consumed counters stay. *)
Lemma write_session_frame f s' d' :
  wf borsh f → SessionV2.is_valid f = true → wf borsh s' →
  write_session (enc borsh f) s' = Ok d' →
  d' = enc borsh (SessionV2.with_base s' f) ∧ session_terms s' = session_terms (SessionV2.base f).
Proof.
  intros Hwf Hv Hs Hw. unfold write_session in Hw.
  rewrite frame_enc_starts, try_from_slice_enc, Hv in Hw
    by (try done; unfold SessionV2.is_valid in Hv; by bprop).
  cbn [negb] in Hw. destruct (_ != _) eqn:Ht; [done|]. bprop.
  set (f' := SessionV2.with_base s' f) in *.
  assert (Hwff : wf borsh f') by (destruct Hwf as (? & _ & ?); split; [done|split; done]).
  assert (Hl : length (enc borsh f) = length (enc borsh f')) by (by rewrite !codec_size).
  rewrite serialize_into_exact in Hw by done. by injection Hw as <-.
Qed.

(** *** Deposit receipts *)

Lemma receipt_enc_starts r :
  wf borsh r → DepositReceipt.is_valid r = true →
  starts_with (enc borsh r) DepositReceiptV2.DISCRIMINATOR = false.
Proof.
  intros Hwf Hv. unfold DepositReceipt.is_valid in Hv. bprop. apply bool_decide_eq_false.
  unfold borsh, DepositReceipt.codec.
  cbn [enc struct pair_c DepositReceipt.to_tuple fst snd bytes]. rewrite Hv. by vm_compute.
Qed.

Lemma receipt_frame_starts f :
  wf borsh f → starts_with (enc borsh f) DepositReceiptV2.DISCRIMINATOR = true ↔
               DepositReceiptV2.discriminator f = DepositReceiptV2.DISCRIMINATOR.
Proof.
  intros [Hd _]. unfold borsh, DepositReceiptV2.codec, starts_with.
  cbn [enc struct pair_c DepositReceiptV2.to_tuple fst snd bytes wf] in *.
  rewrite take_app_le by (simpl; lia). rewrite bool_decide_eq_true.
  rewrite take_ge by (simpl; lia). done.
Qed.

Inductive receipt_shape (d : list byte) (r : DepositReceipt.t) : Prop :=
| ReceiptV1Shape : wf borsh r → DepositReceipt.is_valid r = true → d = enc borsh r → receipt_shape d r
| ReceiptV2Shape f : wf borsh f → d = enc borsh f → DepositReceiptV2.base f = r →
    DepositReceiptV2.discriminator f = DepositReceiptV2.DISCRIMINATOR →
    DepositReceipt.is_valid r = true → DepositReceiptV2.session_context f ≠ zero32 →
    exceeds (DepositReceipt.balance r) (DepositReceipt.withdrawn r) (DepositReceiptV2.total_deposited f) = false →
    receipt_shape d r.

Lemma parse_deposit_receipt_Ok d r : parse_deposit_receipt d = Ok r ↔ receipt_shape d r.
Proof.
  unfold parse_deposit_receipt. split.
  - destruct (starts_with _ _) eqn:Hs.
    + destruct (try_from_slice d) as [f|] eqn:Hf; [|done].
      destruct (_ || _) eqn:Hg; [done|]. intros [= <-]. bprop.
      apply try_from_slice_Some in Hf as [? ->].
      apply receipt_frame_starts in Hs; [|done]. by eapply ReceiptV2Shape.
    + destruct (try_from_slice d) as [f|] eqn:Hf; [|done].
      destruct (DepositReceipt.is_valid f) eqn:Hv; [|done]. intros [= <-].
      apply try_from_slice_Some in Hf as [? ->]. by apply ReceiptV1Shape.
  - intros [Hwf Hv ->|f Hwf -> <- Hd Hv Hc He].
    + by rewrite receipt_enc_starts, try_from_slice_enc, Hv by done.
    + rewrite (proj2 (receipt_frame_starts f Hwf) Hd), try_from_slice_enc by done.
      by rewrite Hv, He, bool_decide_eq_false_2.
Qed.

Lemma receipt_shape_wf d r : receipt_shape d r → wf borsh r ∧ DepositReceipt.is_valid r = true.
Proof. intros [Hwf Hv _|f Hwf _ <- _ Hv _ _]; [done|]. split; [apply Hwf|done]. Qed.

Lemma write_deposit_receipt_Ok d r r' d' :
  parse_deposit_receipt d = Ok r → wf borsh r' → DepositReceipt.is_valid r' = true →
  write_deposit_receipt d r' = Ok d' → parse_deposit_receipt d' = Ok r' ∧ length d' = length d.
Proof.
  rewrite !parse_deposit_receipt_Ok. intros Hsh Hwf' Hv'. unfold write_deposit_receipt.
  destruct Hsh as [Hwf Hv ->|f Hwf -> <- Hd Hv Hc He].
  - rewrite receipt_enc_starts by done.
    assert (Hl : length (enc borsh r') = length (enc borsh r)) by (by rewrite !codec_size).
    rewrite serialize_into_exact by done. intros [= <-]. split; [|done]. by apply ReceiptV1Shape.
  - rewrite (proj2 (receipt_frame_starts f Hwf) Hd), try_from_slice_enc by done.
    destruct (_ || _) eqn:Hg; [done|]. bprop.
    set (f' := DepositReceiptV2.with_base r' f).
    assert (Hwff : wf borsh f') by (destruct Hwf as (? & _ & ?); split; [done|split; done]).
    assert (Hl : length (enc borsh f') = length (enc borsh f)) by (by rewrite !codec_size).
    rewrite serialize_into_exact by done. intros [= <-]. split; [|done].
    by apply (ReceiptV2Shape _ _ f').
Qed.

(** ** Properties *)

(** On a session account of either format, writing a
    session with the same terms succeeds, keeps the account's size and reads
    back as written; on a second-format frame a write keeps every field outside
    the session, and is refused when it would change the terms. *)
Theorem session_write_reads_back d s s' :
  parse_session d = Ok s → wf borsh s' → Session.is_valid s' = true →
  (session_terms s' = session_terms s →
     ∃ d', write_session d s' = Ok d' ∧ parse_session d' = Ok s' ∧ length d' = length d) ∧
  (∀ f, d = enc borsh f → wf borsh f → SessionV2.is_valid f = true →
     if decide (session_terms s' = session_terms s)
     then write_session d s' = Ok (enc borsh (SessionV2.with_base s' f))
     else write_session d s' = Err PortalError.SessionStateInvalid).
Proof.
  intros Hp Hwf Hv. split; [by apply parse_write_session|]. intros f -> Hwff Hvf.
  assert (SessionV2.base f = s) as <-.
  { assert (Hs : parse_session (enc borsh f) = Ok (SessionV2.base f)) by (by apply parse_session_Ok; eapply SessionV2Shape).
    congruence. }
  case_decide as Ht.
  - destruct (parse_write_session _ _ _ Hp Hwf Hv Ht) as (d' & Hd' & _).
    rewrite Hd'. by apply write_session_frame in Hd' as [-> _].
  - unfold write_session. rewrite frame_enc_starts, try_from_slice_enc, Hvf
      by (try done; unfold SessionV2.is_valid in Hvf; by bprop).
    cbn [negb]. by rewrite bool_decide_eq_false_2 by congruence.
Qed.

Module FrameExample.
Definition session : Session.t :=
  Session.mk Session.DISCRIMINATOR 7 1000 5000 100 1 (key 1) (key 2) 10 0 0 SettlementStatus.Idle 0 zero32 zero32 0 255.
Definition settling : Session.t :=
  Session.mk Session.DISCRIMINATOR 7 1000 5000 100 1 (key 1) (key 2) 10 0 0 SettlementStatus.InProgress 40 (key 3) (key 4) 200 255.
End FrameExample.

Lemma session_write_reads_back_witness :
  (session_terms FrameExample.settling = session_terms FrameExample.session →
   ∃ d', write_session (enc borsh FrameExample.session) FrameExample.settling = Ok d' ∧
     parse_session d' = Ok FrameExample.settling ∧ length d' = 226%nat) ∧
  session_terms FrameExample.settling = session_terms FrameExample.session.
Proof.
  split; [|reflexivity].
  destruct (λ H1 H2 H3, session_write_reads_back (enc borsh FrameExample.session) FrameExample.session
    FrameExample.settling H1 H2 H3) as [G _]; [vm_compute; reflexivity|concrete_wf|vm_compute; reflexivity|].
  intros Ht. destruct (G Ht) as (d' & H1 & H2 & H3). exists d'. split; [exact H1|]. split; [exact H2|]. rewrite H3. reflexivity.
Defined.

(** *** Account types *)

Inductive AccountKind : Set :=
| KSession | KCheckpoint | KCheckpointCursor | KChallenge | KDataAvailabilityProof | KStepProofAccount | KFeeVault
| KDelegationRecord | KUndelegationRequest | KDepositReceipt | KSessionBridge | KTokenWithdrawalAuthorization
| KSessionV2 | KSessionEpochV2 | KDepositReceiptV2 | KSessionBridgeV2 | KCheckpointBindingV2 | KIngressRecordV2.

(** [T::try_from_slice(data)] gives a state with [T]'s discriminator. *)
Definition holds_state {A} `{Borsh A} (discriminator : A → list byte) (expected d : list byte) : bool :=
  match try_from_slice d with Some x => discriminator x == expected | None => false end.

Definition kind_discriminator (k : AccountKind) : list byte :=
  match k with
  | KSession => Session.DISCRIMINATOR
  | KCheckpoint => Checkpoint.DISCRIMINATOR
  | KCheckpointCursor => CheckpointCursor.DISCRIMINATOR
  | KChallenge => Challenge.DISCRIMINATOR
  | KDataAvailabilityProof => DataAvailabilityProof.DISCRIMINATOR
  | KStepProofAccount => StepProofAccount.DISCRIMINATOR
  | KFeeVault => FeeVault.DISCRIMINATOR
  | KDelegationRecord => DelegationRecord.DISCRIMINATOR
  | KUndelegationRequest => UndelegationRequest.DISCRIMINATOR
  | KDepositReceipt => DepositReceipt.DISCRIMINATOR
  | KSessionBridge => SessionBridge.DISCRIMINATOR
  | KTokenWithdrawalAuthorization => TokenWithdrawalAuthorization.DISCRIMINATOR
  | KSessionV2 => SessionV2.DISCRIMINATOR
  | KSessionEpochV2 => SessionEpochV2.DISCRIMINATOR
  | KDepositReceiptV2 => DepositReceiptV2.DISCRIMINATOR
  | KSessionBridgeV2 => SessionBridgeV2.DISCRIMINATOR
  | KCheckpointBindingV2 => CheckpointBindingV2.DISCRIMINATOR
  | KIngressRecordV2 => INGRESS_RECORD_DISCRIMINATOR_V2
  end.

Definition is_kind (k : AccountKind) : list byte → bool :=
  match k with
  | KSession => holds_state Session.discriminator
  | KCheckpoint => holds_state Checkpoint.discriminator
  | KCheckpointCursor => holds_state CheckpointCursor.discriminator
  | KChallenge => holds_state Challenge.discriminator
  | KDataAvailabilityProof => holds_state DataAvailabilityProof.discriminator
  | KStepProofAccount => holds_state StepProofAccount.discriminator
  | KFeeVault => holds_state FeeVault.discriminator
  | KDelegationRecord => holds_state DelegationRecord.discriminator
  | KUndelegationRequest => holds_state UndelegationRequest.discriminator
  | KDepositReceipt => holds_state DepositReceipt.discriminator
  | KSessionBridge => holds_state SessionBridge.discriminator
  | KTokenWithdrawalAuthorization => holds_state TokenWithdrawalAuthorization.discriminator
  | KSessionV2 => holds_state SessionV2.discriminator
  | KSessionEpochV2 => holds_state SessionEpochV2.discriminator
  | KDepositReceiptV2 => holds_state DepositReceiptV2.discriminator
  | KSessionBridgeV2 => holds_state SessionBridgeV2.discriminator
  | KCheckpointBindingV2 => holds_state CheckpointBindingV2.discriminator
  | KIngressRecordV2 => holds_state IngressRecordV2.discriminator
  end (kind_discriminator k).

(** The state of a valid account starts with its discriminator. *)
Lemma holds_state_starts {A} `{!Borsh A, !CodecOk (borsh (A:=A))} (disc : A → list byte) expected d :
  (∀ x, wf borsh x → length (disc x) = 8%nat ∧ ∃ r, enc borsh x = disc x ++ r) →
  holds_state disc expected d = true → take 8 d = expected.
Proof.
  intros Hs. unfold holds_state. destruct (try_from_slice d) as [x|] eqn:Hx; [|done].
  apply try_from_slice_Some in Hx as [Hwf ->]. intros Hd. bprop. destruct (Hs x Hwf) as [Hl [r ->]].
  rewrite take_app_length' by done. done.
Qed.

Lemma is_kind_starts k d : is_kind k d = true → take 8 d = kind_discriminator k.
Proof.
  destruct k; apply holds_state_starts; intros x [Hl _]; (split; [exact Hl|]); eexists; reflexivity.
Qed.

(** No account data is a valid state of two of the
    Portal's eighteen account types, so an account created for one purpose is
    never accepted by a handler that expects another. *)
Theorem account_kinds_disjoint k k' d : is_kind k d = true → is_kind k' d = true → k = k'.
Proof.
  intros Hk Hk'. apply is_kind_starts in Hk, Hk'. rewrite Hk in Hk'. clear Hk.
  destruct k, k'; first [reflexivity|vm_compute in Hk'; discriminate].
Qed.

Lemma account_kinds_disjoint_witness :
  is_kind KSession (enc borsh FrameExample.session) = true ∧ KSession = KSession ∧
  is_kind KCheckpoint (enc borsh FrameExample.session) = false.
Proof.
  split; [vm_compute; reflexivity|]. split; [|vm_compute; reflexivity].
  apply (account_kinds_disjoint KSession KSession (enc borsh FrameExample.session)); vm_compute; reflexivity.
Defined.
