(* ===== verification/Pda.v ===== *)
(** * Program-derived addresses (portal/src/pda.rs, portal/src/instructions/mod.rs)

    The PDA of every Portal account, and [initialize_pda_account], through which
    the Portal creates each of them: it tops the address up to the rent-exempt
    minimum and claims it from the System program, also when somebody has sent
    lamports there before.  [initialize_pda_account_Ok] is its specification. *)

From Stdlib Require Import ZArith Lia.
From Stdlib Require Import Strings.Byte.
From stdpp Require Import base gmap list numbers.
From S2P Require Import Prelude Borsh Events Runtime State Commitments Frames.

Section pda.
Context `{Host}.
Implicit Types program_id session mint : Address.

Definition find_session_pda program_id : Address * Z :=
  find_program_address [Session.SEED_PREFIX] program_id.

Definition find_fee_vault_pda program_id : Address * Z :=
  find_program_address [FeeVault.SEED_PREFIX] program_id.

Definition find_delegation_record_pda program_id delegated_account : Address * Z :=
  find_program_address [DelegationRecord.SEED_PREFIX; delegated_account] program_id.

Definition find_undelegation_request_pda program_id delegated_account : Address * Z :=
  find_program_address [UndelegationRequest.SEED_PREFIX; delegated_account] program_id.

Definition find_checkpoint_pda program_id session (er_slot : Z) : Address * Z :=
  find_program_address [Checkpoint.SEED_PREFIX; session; le_bytes 8 er_slot] program_id.

Definition find_checkpoint_cursor_pda program_id session : Address * Z :=
  find_program_address [CheckpointCursor.SEED_PREFIX; session] program_id.

Definition find_challenge_pda program_id checkpoint : Address * Z :=
  find_program_address [Challenge.SEED_PREFIX; checkpoint] program_id.

Definition find_da_proof_pda program_id challenge : Address * Z :=
  find_program_address [DataAvailabilityProof.SEED_PREFIX; challenge] program_id.

Definition find_step_proof_pda program_id checkpoint : Address * Z :=
  find_program_address [StepProofAccount.SEED_PREFIX; checkpoint] program_id.

Definition find_deposit_receipt_pda program_id session recipient : Address * Z :=
  find_program_address [DepositReceipt.SEED_PREFIX; session; recipient] program_id.

Definition find_session_bridge_pda program_id session mint : Address * Z :=
  find_program_address [SessionBridge.SEED_PREFIX; session; mint] program_id.

Definition find_token_withdrawal_authorization_pda program_id checkpoint vault (withdrawn : Z) : Address * Z :=
  find_program_address
    [TokenWithdrawalAuthorization.SEED_PREFIX; checkpoint; vault; le_bytes 8 withdrawn] program_id.

Definition find_session_epoch_v2_pda program_id : Address * Z :=
  find_program_address [SessionEpochV2.SEED_PREFIX] program_id.

Definition find_ingress_record_v2_pda program_id (session_context : Hash32) (sequence : Z) : Address * Z :=
  find_program_address [INGRESS_RECORD_SEED_V2; session_context; le_bytes 8 sequence] program_id.

Definition find_deposit_receipt_v2_pda program_id (session_context : Hash32) recipient : Address * Z :=
  find_program_address [DepositReceiptV2.SEED_PREFIX; session_context; recipient] program_id.

Definition find_session_bridge_v2_pda program_id (session_context : Hash32) mint : Address * Z :=
  find_program_address [SessionBridgeV2.SEED_PREFIX; session_context; mint] program_id.

Definition find_checkpoint_binding_v2_pda program_id checkpoint : Address * Z :=
  find_program_address [CheckpointBindingV2.SEED_PREFIX; checkpoint] program_id.

(** [initialize_pda_account] *)
Definition initialize_pda_account (cx : Ctx) (payer pda : Address) (n : Z) (space : nat)
    (owner : Address) (signer : list (list byte)) : prog unit :=
  x ← get_acct pda;
  bail_if (negb (is_data_empty x) || negb (owned_by x system_id)) PortalError.InvalidAccountData ;;
  (if lamports x <? n then
     amount ← ok_or (checked_sub n (lamports x)) (into PortalError.ArithmeticOverflow);
     Transfer cx payer pda amount
   else mret tt) ;;
  Allocate cx pda space signer ;;
  Assign cx pda owner signer.

End pda.

(** ** What it does *)

Section initialize.
Context `{Host}.

(** The world after [initialize_pda_account]. *)
Definition topped_up (payer pda : Address) (n : Z) (w : World) : World :=
  if lamports (acct w pda) <? n then moved payer pda (n - lamports (acct w pda)) w else w.

#[global] Instance topped_up_proper : Proper ((=) ==> (=) ==> (=) ==> (≡) ==> (≡)) topped_up.
Proof. intros payer ? <- pda ? <- n ? <- w w' Hw. unfold topped_up. rewrite Hw. case_match; by rewrite Hw. Qed.

Lemma allocate_Ok cx extra a space w u w' :
  SystemProgram.allocate cx extra a space w = Ok (u, w') →
  w' ≡ put a (with_data (zeros space) (acct w a)) w ∧ data (acct w a) = [] ∧ owner (acct w a) = system_id.
Proof.
  unfold SystemProgram.allocate, Borrowed.set_data_length, Borrowed.can_data_be_resized, Borrowed.can_data_be_changed,
    get_acct, Runtime.set_data, update.
  intros Hr. minv; unfold is_data_empty, owned_by in *; bprop; split; try done.
  - match goal with |- ?w ≡ put a (with_data _ _) _ =>
      replace (with_data (zeros space) (acct w a)) with (acct w a) end; [by rewrite put_acct|].
    destruct (acct _ a). by simpl in *; subst.
  - unfold Borrowed.resized. replace (data (acct _ a)) with (@nil byte) by done.
    by rewrite take_nil, Nat.sub_0_r.
Qed.

Lemma assign_Ok cx extra a o w u w' :
  SystemProgram.assign cx extra a o w = Ok (u, w') → w' ≡ put a (with_owner o (acct w a)) w.
Proof.
  unfold SystemProgram.assign, Borrowed.set_owner, get_acct, update.
  intros Hr. minv; unfold owned_by in *; bprop; try done;
    match goal with |- ?w ≡ put ?a (with_owner ?o _) _ =>
      replace (with_owner o (acct w a)) with (acct w a) end;
    try (by rewrite put_acct); destruct (acct _ a); by simpl in *; subst.
Qed.

Lemma Allocate_Ok cx a space seeds w u w' :
  Allocate cx a space seeds w = Ok (u, w') →
  w' ≡ put a (with_data (zeros space) (acct w a)) w ∧
  data (acct w a) = [] ∧ owner (acct w a) = system_id.
Proof.
  unfold Allocate. intros Hr. apply bind_Ok in Hr as (extra & w0 & G & Hr). pose proof (read_only _ _ _ G). subst w0.
  mstep Hr as [] w0 G0. by apply allocate_Ok in Hr.
Qed.

Lemma Assign_Ok cx a o seeds w u w' :
  Assign cx a o seeds w = Ok (u, w') → w' ≡ put a (with_owner o (acct w a)) w.
Proof.
  unfold Assign. intros Hr. apply bind_Ok in Hr as (extra & w0 & G & Hr). pose proof (read_only _ _ _ G). subst w0.
  mstep Hr as [] w0 G0. by apply assign_Ok in Hr.
Qed.

#[global] Instance Transfer_conserves cx from to n : Conserves (Transfer cx from to n).
Proof. intros w u w' Hr. apply Transfer_Ok in Hr as (-> & _). apply moved_total. Qed.
#[global] Instance Transfer_silent cx from to n : Silent (Transfer cx from to n).
Proof. intros w u w' Hr. by apply Transfer_Ok in Hr as (-> & _). Qed.
#[global] Instance Transfer_frame P cx from to n :
  Holds (P from) → Holds (P to) → Frame P (Transfer cx from to n).
Proof.
  intros Hf Ht w u w' Hr b Hb. apply Transfer_Ok in Hr as (Ha & _). rewrite Ha.
  unfold moved. by rewrite !acct_put_ne by naive_solver.
Qed.
#[global] Instance Allocate_silent cx a n seeds : Silent (Allocate cx a n seeds).
Proof.
  unfold Allocate, SystemProgram.allocate, Borrowed.set_data_length,
    Borrowed.can_data_be_resized, Borrowed.can_data_be_changed. apply _.
Qed.
#[global] Instance Assign_silent cx a o seeds : Silent (Assign cx a o seeds).
Proof. unfold Assign, SystemProgram.assign, Borrowed.set_owner. apply _. Qed.

#[global] Instance initialize_pda_account_conserves cx payer pda n space o signer :
  Conserves (initialize_pda_account cx payer pda n space o signer).
Proof. unfold initialize_pda_account. apply _. Qed.
#[global] Instance initialize_pda_account_silent cx payer pda n space o signer :
  Silent (initialize_pda_account cx payer pda n space o signer).
Proof. unfold initialize_pda_account. apply _. Qed.
#[global] Instance initialize_pda_account_frame P cx payer pda n space o signer :
  Holds (P payer) → Holds (P pda) → Frame P (initialize_pda_account cx payer pda n space o signer).
Proof. unfold initialize_pda_account. apply _. Qed.

Lemma initialize_pda_account_Ok cx payer pda n space o signer w u w' :
  initialize_pda_account cx payer pda n space o signer w = Ok (u, w') →
  w' ≡ put pda (mkAccount (lamports (acct (topped_up payer pda n w) pda)) (zeros space) o
                  (executable (acct w pda))) (topped_up payer pda n w) ∧
  data (acct w pda) = [] ∧ owner (acct w pda) = system_id ∧
  (lamports (acct w pda) < n → is_signer cx payer = true ∧ n - lamports (acct w pda) ≤ lamports (acct w payer)).
Proof.
  unfold initialize_pda_account. intros Hr.
  mstep Hr as x s Hx. mstep Hr as [] s Hg.
  apply bind_Ok in Hr as ([] & s2 & Ht & Hr).
  apply bind_Ok in Hr as ([] & s3 & Hal & Has).
  apply Allocate_Ok in Hal as (Hal & _ & _). apply Assign_Ok in Has.
  assert (s2 ≡ topped_up payer pda n w ∧
    (lamports (acct w pda) < n → is_signer cx payer = true ∧ n - lamports (acct w pda) ≤ lamports (acct w payer)))
    as [Hw Hpay].
  { unfold topped_up. destruct (lamports (acct w pda) <? n) eqn:Hlt; minv; bprop; [|split; [done|lia]].
    match goal with Ht : Transfer _ _ _ _ _ = _ |- _ => by apply Transfer_Ok in Ht as (? & ? & _ & ?) end. }
  unfold is_data_empty, owned_by in Hg. bprop. split_and!; try done.
  assert (Hx : executable (acct (topped_up payer pda n w) pda) = executable (acct w pda)).
  { unfold topped_up, moved. case_match; [|done]. rewrite !acct_put. repeat case_decide; by subst. }
  rewrite Has, Hal, Hw. split; [|done]. intros b. rewrite !acct_put.
  repeat case_decide; try done. unfold with_owner, with_data. simpl. by rewrite Hx.
Qed.

(** The created account holds zeros, is owned by [o] and is rent-exempt; the
    payer paid what was missing; no other account changed. *)
Lemma initialize_created cx payer pda n space o signer w u w' :
  payer ≠ pda →
  initialize_pda_account cx payer pda n space o signer w = Ok (u, w') →
  acct w' pda = mkAccount (Z.max (lamports (acct w pda)) n) (zeros space) o (executable (acct w pda)) ∧
  acct w' payer = with_lamports (lamports (acct w payer) - Z.max 0 (n - lamports (acct w pda))) (acct w payer) ∧
  (∀ b, b ≠ payer → b ≠ pda → acct w' b = acct w b) ∧
  data (acct w pda) = [] ∧ owner (acct w pda) = system_id ∧ events w' = events w.
Proof.
  intros Hne Hr. apply initialize_pda_account_Ok in Hr as (Hw & Hd & Ho & _).
  unfold topped_up in Hw. destruct (Z.ltb_spec (lamports (acct w pda)) n).
  - rewrite acct_moved in Hw by done. rewrite !decide_False, decide_True in Hw by congruence.
    split_and!; try done; try (by rewrite Hw).
    + rewrite Hw, acct_put_eq. simpl. f_equal. lia.
    + rewrite Hw, acct_put_ne, acct_moved, decide_True by congruence. f_equal. lia.
    + intros b ??. by rewrite Hw, acct_put_ne, acct_moved, !decide_False by congruence.
  - split_and!; try done; try (by rewrite Hw).
    + rewrite Hw, acct_put_eq. f_equal. lia.
    + rewrite Hw, acct_put_ne by congruence. rewrite Z.max_l, Z.sub_0_r by lia. by rewrite with_lamports_id.
    + intros b ??. by rewrite Hw, acct_put_ne by congruence.
Qed.
End initialize.
