(* ===== verification/Instruction.v ===== *)
(** * Instruction arguments (portal/src/instruction.rs)

    The Borsh payload of every Portal instruction and the limits of
    portal/src/lib.rs. *)

From Stdlib Require Import ZArith Lia.
From Stdlib Require Import Strings.Byte.
From stdpp Require Import base gmap list numbers.
From S2P Require Import Prelude Borsh Events Runtime State Commitments.

Definition MAX_SETTLEMENT_CHUNK : Z := 700.
Definition MAX_SETTLEMENT_LAMPORT_ACCOUNTS : nat := 7.
Definition CHECKPOINT_PROPOSER_BOND_LAMPORTS : Z := 1000000.
Definition MAX_CHECKPOINT_CADENCE_L1_SLOTS : Z := 75.
Definition CANONICAL_CHECKPOINT_STEPS : Z := 16.
Definition TRACE_AUTH_PATH_NODES : nat := 5.
Definition TX_EFFECT_AUTH_PATH_NODES : nat := 4.
Definition MAX_CHALLENGE_WINDOW_SLOTS : Z := 9000.
Definition CHALLENGE_TURN_WINDOW_SLOTS : Z := 750.
Definition MAX_STEP_PROOF_BYTES : Z := 356.
Definition MAX_STEP_PROOF_CHUNK : Z := 128.

Module StepProofVerifierMode.
Inductive t : Set :=
| Production
| TestOnly.
#[global] Instance eq_dec : EqDecision t.
Proof. solve_decision. Defined.
Definition tag (x : t) : Z :=
  match x with Production => 0 | TestOnly => 1 end.
Definition of_tag (z : Z) : option t :=
  if z =? 0 then Some Production else if z =? 1 then Some TestOnly else None.
#[global] Instance tags : Tags tag of_tag.
Proof. solve_tags of_tag. Qed.
#[global] Instance codec : Borsh t := enum tag of_tag.
#[global] Instance codec_ok : CodecOk (borsh (A:=t)).
Proof. apply enum_ok, _. Qed.
#[global] Instance codec_size : CodecSize (borsh (A:=t)) 1.
Proof. apply enum_size. Qed.
End StepProofVerifierMode.

Module OpenSession.
Record t : Set := mk {
  grid_id : Z;
  ttl_slots : Z;
  fee_cap : Z;
  validator : Address;
  settlement_interval_slots : Z
}.
Definition to_tuple (x : t) :=
  (grid_id x, (ttl_slots x, (fee_cap x, (validator x, settlement_interval_slots x)))).
Definition of_tuple p : t :=
  let '(f0, (f1, (f2, (f3, f4)))) := p in mk f0 f1 f2 f3 f4.
#[global] Instance tuple : Fields to_tuple of_tuple.
Proof. solve_fields. Qed.
#[global] Instance codec : Borsh t := struct to_tuple of_tuple
  (u64c *c u64c *c u64c *c bytes 32 *c u64c).
#[global] Instance codec_ok : CodecOk (borsh (A:=t)).
Proof. solve_codec. Qed.
#[global] Instance codec_size : CodecSize (borsh (A:=t)) 64.
Proof. solve_size. Qed.
End OpenSession.

Module OpenSessionV2.
Record t : Set := mk {
  session : OpenSession.t;
  l1_genesis : Hash32;
  profile : Hash32
}.
Definition to_tuple (x : t) :=
  (session x, (l1_genesis x, profile x)).
Definition of_tuple p : t :=
  let '(f0, (f1, f2)) := p in mk f0 f1 f2.
#[global] Instance tuple : Fields to_tuple of_tuple.
Proof. solve_fields. Qed.
#[global] Instance codec : Borsh t := struct to_tuple of_tuple
  (borsh (A:=OpenSession.t) *c bytes 32 *c bytes 32).
#[global] Instance codec_ok : CodecOk (borsh (A:=t)).
Proof. solve_codec. Qed.
#[global] Instance codec_size : CodecSize (borsh (A:=t)) 128.
Proof. solve_size. Qed.
End OpenSessionV2.

Module BeginSettlement.
Record t : Set := mk {
  er_slot : Z;
  checksum : Hash32;
  effect_commitment : Hash32
}.
Definition to_tuple (x : t) :=
  (er_slot x, (checksum x, effect_commitment x)).
Definition of_tuple p : t :=
  let '(f0, (f1, f2)) := p in mk f0 f1 f2.
#[global] Instance tuple : Fields to_tuple of_tuple.
Proof. solve_fields. Qed.
#[global] Instance codec : Borsh t := struct to_tuple of_tuple
  (u64c *c bytes 32 *c bytes 32).
#[global] Instance codec_ok : CodecOk (borsh (A:=t)).
Proof. solve_codec. Qed.
#[global] Instance codec_size : CodecSize (borsh (A:=t)) 72.
Proof. solve_size. Qed.
End BeginSettlement.

Module WriteSettlementChunk.
Record t : Set := mk {
  er_slot : Z;
  checksum : Hash32;
  account_data_offset : Z;
  chunk_len : Z;
  chunk : list byte
}.
Definition to_tuple (x : t) :=
  (er_slot x, (checksum x, (account_data_offset x, (chunk_len x, chunk x)))).
Definition of_tuple p : t :=
  let '(f0, (f1, (f2, (f3, f4)))) := p in mk f0 f1 f2 f3 f4.
#[global] Instance tuple : Fields to_tuple of_tuple.
Proof. solve_fields. Qed.
#[global] Instance codec : Borsh t := struct to_tuple of_tuple
  (u64c *c bytes 32 *c u32c *c u16c *c bytes 700).
#[global] Instance codec_ok : CodecOk (borsh (A:=t)).
Proof. solve_codec. Qed.
#[global] Instance codec_size : CodecSize (borsh (A:=t)) 746.
Proof. solve_size. Qed.
End WriteSettlementChunk.

Module FinishSettlement.
Record t : Set := mk {
  er_slot : Z;
  checksum : Hash32
}.
Definition to_tuple (x : t) :=
  (er_slot x, checksum x).
Definition of_tuple p : t :=
  let '(f0, f1) := p in mk f0 f1.
#[global] Instance tuple : Fields to_tuple of_tuple.
Proof. solve_fields. Qed.
#[global] Instance codec : Borsh t := struct to_tuple of_tuple
  (u64c *c bytes 32).
#[global] Instance codec_ok : CodecOk (borsh (A:=t)).
Proof. solve_codec. Qed.
#[global] Instance codec_size : CodecSize (borsh (A:=t)) 40.
Proof. solve_size. Qed.
End FinishSettlement.

Module SettleDepositReceipt.
Record t : Set := mk {
  er_slot : Z;
  checksum : Hash32;
  balance : Z;
  withdrawn : Z;
  payout_lamports : Z;
  l1_recipient : Address
}.
Definition to_tuple (x : t) :=
  (er_slot x, (checksum x, (balance x, (withdrawn x, (payout_lamports x, l1_recipient x))))).
Definition of_tuple p : t :=
  let '(f0, (f1, (f2, (f3, (f4, f5))))) := p in mk f0 f1 f2 f3 f4 f5.
#[global] Instance tuple : Fields to_tuple of_tuple.
Proof. solve_fields. Qed.
#[global] Instance codec : Borsh t := struct to_tuple of_tuple
  (u64c *c bytes 32 *c u64c *c u64c *c u64c *c bytes 32).
#[global] Instance codec_ok : CodecOk (borsh (A:=t)).
Proof. solve_codec. Qed.
#[global] Instance codec_size : CodecSize (borsh (A:=t)) 96.
Proof. solve_size. Qed.
End SettleDepositReceipt.

Module SettleAccountOwner.
Record t : Set := mk {
  er_slot : Z;
  checksum : Hash32;
  owner : Address
}.
Definition to_tuple (x : t) :=
  (er_slot x, (checksum x, owner x)).
Definition of_tuple p : t :=
  let '(f0, (f1, f2)) := p in mk f0 f1 f2.
#[global] Instance tuple : Fields to_tuple of_tuple.
Proof. solve_fields. Qed.
#[global] Instance codec : Borsh t := struct to_tuple of_tuple
  (u64c *c bytes 32 *c bytes 32).
#[global] Instance codec_ok : CodecOk (borsh (A:=t)).
Proof. solve_codec. Qed.
#[global] Instance codec_size : CodecSize (borsh (A:=t)) 72.
Proof. solve_size. Qed.
End SettleAccountOwner.

Module SettleAccountLamports.
Record t : Set := mk {
  er_slot : Z;
  checksum : Hash32;
  account_count : Z;
  lamports : list Z
}.
Definition to_tuple (x : t) :=
  (er_slot x, (checksum x, (account_count x, lamports x))).
Definition of_tuple p : t :=
  let '(f0, (f1, (f2, f3))) := p in mk f0 f1 f2 f3.
#[global] Instance tuple : Fields to_tuple of_tuple.
Proof. solve_fields. Qed.
#[global] Instance codec : Borsh t := struct to_tuple of_tuple
  (u64c *c bytes 32 *c u8c *c array u64c 7).
#[global] Instance codec_ok : CodecOk (borsh (A:=t)).
Proof. solve_codec. Qed.
#[global] Instance codec_size : CodecSize (borsh (A:=t)) 97.
Proof. solve_size. Qed.
Definition SERIALIZED_LEN : nat := 97.
End SettleAccountLamports.

Module ProposeCheckpoint.
Record t : Set := mk {
  er_slot : Z;
  step_count : Z;
  previous_state_root : Hash32;
  new_state_root : Hash32;
  trace_root : Hash32;
  tx_effect_root : Hash32;
  readonly_l1_root : Hash32;
  da_commitment : Hash32;
  effect_commitment : Hash32;
  challenge_window_slots : Z
}.
Definition to_tuple (x : t) :=
  (er_slot x, (step_count x, (previous_state_root x, (new_state_root x, (trace_root x, (tx_effect_root x, (readonly_l1_root x, (da_commitment x, (effect_commitment x, challenge_window_slots x))))))))).
Definition of_tuple p : t :=
  let '(f0, (f1, (f2, (f3, (f4, (f5, (f6, (f7, (f8, f9))))))))) := p in mk f0 f1 f2 f3 f4 f5 f6 f7 f8 f9.
#[global] Instance tuple : Fields to_tuple of_tuple.
Proof. solve_fields. Qed.
#[global] Instance codec : Borsh t := struct to_tuple of_tuple
  (u64c *c u64c *c bytes 32 *c bytes 32 *c bytes 32 *c bytes 32 *c bytes 32 *c bytes 32 *c bytes 32 *c u64c).
#[global] Instance codec_ok : CodecOk (borsh (A:=t)).
Proof. solve_codec. Qed.
#[global] Instance codec_size : CodecSize (borsh (A:=t)) 248.
Proof. solve_size. Qed.
End ProposeCheckpoint.

Module ProposeCheckpointV2.
Record t : Set := mk {
  proposal : ProposeCheckpoint.t;
  pre : StateRootOpeningV2.t;
  post : StateRootOpeningV2.t;
  readonly_l1_root : Hash32
}.
Definition to_tuple (x : t) :=
  (proposal x, (pre x, (post x, readonly_l1_root x))).
Definition of_tuple p : t :=
  let '(f0, (f1, (f2, f3))) := p in mk f0 f1 f2 f3.
#[global] Instance tuple : Fields to_tuple of_tuple.
Proof. solve_fields. Qed.
#[global] Instance codec : Borsh t := struct to_tuple of_tuple
  (borsh (A:=ProposeCheckpoint.t) *c borsh (A:=StateRootOpeningV2.t) *c borsh (A:=StateRootOpeningV2.t) *c bytes 32).
#[global] Instance codec_ok : CodecOk (borsh (A:=t)).
Proof. solve_codec. Qed.
#[global] Instance codec_size : CodecSize (borsh (A:=t)) 552.
Proof. solve_size. Qed.
End ProposeCheckpointV2.

Module CommitCheckpoint.
Record t : Set := mk {
  er_slot : Z
}.
Definition to_tuple (x : t) :=
  er_slot x.
Definition of_tuple f0 : t := mk f0.
#[global] Instance tuple : Fields to_tuple of_tuple.
Proof. solve_fields. Qed.
#[global] Instance codec : Borsh t := struct to_tuple of_tuple
  (u64c).
#[global] Instance codec_ok : CodecOk (borsh (A:=t)).
Proof. solve_codec. Qed.
#[global] Instance codec_size : CodecSize (borsh (A:=t)) 8.
Proof. solve_size. Qed.
End CommitCheckpoint.

Module CancelCheckpoint.
Record t : Set := mk {
  er_slot : Z
}.
Definition to_tuple (x : t) :=
  er_slot x.
Definition of_tuple f0 : t := mk f0.
#[global] Instance tuple : Fields to_tuple of_tuple.
Proof. solve_fields. Qed.
#[global] Instance codec : Borsh t := struct to_tuple of_tuple
  (u64c).
#[global] Instance codec_ok : CodecOk (borsh (A:=t)).
Proof. solve_codec. Qed.
#[global] Instance codec_size : CodecSize (borsh (A:=t)) 8.
Proof. solve_size. Qed.
End CancelCheckpoint.

Module OpenChallenge.
Record t : Set := mk {
  er_slot : Z
}.
Definition to_tuple (x : t) :=
  er_slot x.
Definition of_tuple f0 : t := mk f0.
#[global] Instance tuple : Fields to_tuple of_tuple.
Proof. solve_fields. Qed.
#[global] Instance codec : Borsh t := struct to_tuple of_tuple
  (u64c).
#[global] Instance codec_ok : CodecOk (borsh (A:=t)).
Proof. solve_codec. Qed.
#[global] Instance codec_size : CodecSize (borsh (A:=t)) 8.
Proof. solve_size. Qed.
End OpenChallenge.

Module CreateStepProof.
Record t : Set := mk {
  er_slot : Z;
  proof_kind : Z;
  proof_version : Z;
  step_index : Z;
  session_context : Hash32;
  tx_effect_root : Hash32;
  tx_effect_path_len : Z;
  tx_effect_path : list Hash32;
  readonly_l1_root : Hash32;
  settlement_effect_root : Hash32
}.
Definition to_tuple (x : t) :=
  (er_slot x, (proof_kind x, (proof_version x, (step_index x, (session_context x, (tx_effect_root x, (tx_effect_path_len x, (tx_effect_path x, (readonly_l1_root x, settlement_effect_root x))))))))).
Definition of_tuple p : t :=
  let '(f0, (f1, (f2, (f3, (f4, (f5, (f6, (f7, (f8, f9))))))))) := p in mk f0 f1 f2 f3 f4 f5 f6 f7 f8 f9.
#[global] Instance tuple : Fields to_tuple of_tuple.
Proof. solve_fields. Qed.
#[global] Instance codec : Borsh t := struct to_tuple of_tuple
  (u64c *c u8c *c u8c *c u64c *c bytes 32 *c bytes 32 *c u8c *c array (bytes 32) 4 *c bytes 32 *c bytes 32).
#[global] Instance codec_ok : CodecOk (borsh (A:=t)).
Proof. solve_codec. Qed.
#[global] Instance codec_size : CodecSize (borsh (A:=t)) 275.
Proof. solve_size. Qed.
End CreateStepProof.

Module WriteStepProof.
Record t : Set := mk {
  er_slot : Z;
  offset : Z;
  chunk_len : Z;
  chunk : list byte
}.
Definition to_tuple (x : t) :=
  (er_slot x, (offset x, (chunk_len x, chunk x))).
Definition of_tuple p : t :=
  let '(f0, (f1, (f2, f3))) := p in mk f0 f1 f2 f3.
#[global] Instance tuple : Fields to_tuple of_tuple.
Proof. solve_fields. Qed.
#[global] Instance codec : Borsh t := struct to_tuple of_tuple
  (u64c *c u32c *c u16c *c bytes 128).
#[global] Instance codec_ok : CodecOk (borsh (A:=t)).
Proof. solve_codec. Qed.
#[global] Instance codec_size : CodecSize (borsh (A:=t)) 142.
Proof. solve_size. Qed.
End WriteStepProof.

Module SealStepProof.
Record t : Set := mk {
  er_slot : Z;
  proof_len : Z
}.
Definition to_tuple (x : t) :=
  (er_slot x, proof_len x).
Definition of_tuple p : t :=
  let '(f0, f1) := p in mk f0 f1.
#[global] Instance tuple : Fields to_tuple of_tuple.
Proof. solve_fields. Qed.
#[global] Instance codec : Borsh t := struct to_tuple of_tuple
  (u64c *c u32c).
#[global] Instance codec_ok : CodecOk (borsh (A:=t)).
Proof. solve_codec. Qed.
#[global] Instance codec_size : CodecSize (borsh (A:=t)) 12.
Proof. solve_size. Qed.
End SealStepProof.

Module ResolveChallenge.
Record t : Set := mk {
  er_slot : Z;
  verifier_mode : StepProofVerifierMode.t
}.
Definition to_tuple (x : t) :=
  (er_slot x, verifier_mode x).
Definition of_tuple p : t :=
  let '(f0, f1) := p in mk f0 f1.
#[global] Instance tuple : Fields to_tuple of_tuple.
Proof. solve_fields. Qed.
#[global] Instance codec : Borsh t := struct to_tuple of_tuple
  (u64c *c borsh (A:=StepProofVerifierMode.t)).
#[global] Instance codec_ok : CodecOk (borsh (A:=t)).
Proof. solve_codec. Qed.
#[global] Instance codec_size : CodecSize (borsh (A:=t)) 9.
Proof. solve_size. Qed.
End ResolveChallenge.

Module RegisterSessionBridge.
Record t : Set := mk {
  mint : Address;
  bridge_program : Address;
  vault : Address;
  token_program : Address
}.
Definition to_tuple (x : t) :=
  (mint x, (bridge_program x, (vault x, token_program x))).
Definition of_tuple p : t :=
  let '(f0, (f1, (f2, f3))) := p in mk f0 f1 f2 f3.
#[global] Instance tuple : Fields to_tuple of_tuple.
Proof. solve_fields. Qed.
#[global] Instance codec : Borsh t := struct to_tuple of_tuple
  (bytes 32 *c bytes 32 *c bytes 32 *c bytes 32).
#[global] Instance codec_ok : CodecOk (borsh (A:=t)).
Proof. solve_codec. Qed.
#[global] Instance codec_size : CodecSize (borsh (A:=t)) 128.
Proof. solve_size. Qed.
End RegisterSessionBridge.

Module RecordTokenDepositV2.
Record t : Set := mk {
  amount : Z
}.
Definition to_tuple (x : t) :=
  amount x.
Definition of_tuple f0 : t := mk f0.
#[global] Instance tuple : Fields to_tuple of_tuple.
Proof. solve_fields. Qed.
#[global] Instance codec : Borsh t := struct to_tuple of_tuple
  (u64c).
#[global] Instance codec_ok : CodecOk (borsh (A:=t)).
Proof. solve_codec. Qed.
#[global] Instance codec_size : CodecSize (borsh (A:=t)) 8.
Proof. solve_size. Qed.
End RecordTokenDepositV2.

Module AccumulateTokenWithdrawal.
Record t : Set := mk {
  er_slot : Z;
  checksum : Hash32;
  amount : Z;
  withdrawn : Z;
  decimals : Z
}.
Definition to_tuple (x : t) :=
  (er_slot x, (checksum x, (amount x, (withdrawn x, decimals x)))).
Definition of_tuple p : t :=
  let '(f0, (f1, (f2, (f3, f4)))) := p in mk f0 f1 f2 f3 f4.
#[global] Instance tuple : Fields to_tuple of_tuple.
Proof. solve_fields. Qed.
#[global] Instance codec : Borsh t := struct to_tuple of_tuple
  (u64c *c bytes 32 *c u64c *c u64c *c u8c).
#[global] Instance codec_ok : CodecOk (borsh (A:=t)).
Proof. solve_codec. Qed.
#[global] Instance codec_size : CodecSize (borsh (A:=t)) 57.
Proof. solve_size. Qed.
End AccumulateTokenWithdrawal.

Module ConsumeTokenWithdrawal.
Record t : Set := mk {
  er_slot : Z;
  checksum : Hash32;
  amount : Z;
  withdrawn : Z;
  decimals : Z
}.
Definition to_tuple (x : t) :=
  (er_slot x, (checksum x, (amount x, (withdrawn x, decimals x)))).
Definition of_tuple p : t :=
  let '(f0, (f1, (f2, (f3, f4)))) := p in mk f0 f1 f2 f3 f4.
#[global] Instance tuple : Fields to_tuple of_tuple.
Proof. solve_fields. Qed.
#[global] Instance codec : Borsh t := struct to_tuple of_tuple
  (u64c *c bytes 32 *c u64c *c u64c *c u8c).
#[global] Instance codec_ok : CodecOk (borsh (A:=t)).
Proof. solve_codec. Qed.
#[global] Instance codec_size : CodecSize (borsh (A:=t)) 57.
Proof. solve_size. Qed.
End ConsumeTokenWithdrawal.

Module RespondChallenge.
Record t : Set := mk {
  er_slot : Z;
  claimed_step : Z;
  claimed_state_root : Hash32;
  trace_path_len : Z;
  trace_path : list Hash32;
  da_payload_root : Hash32;
  da_inclusion_proof_hash : Hash32
}.
Definition to_tuple (x : t) :=
  (er_slot x, (claimed_step x, (claimed_state_root x, (trace_path_len x, (trace_path x, (da_payload_root x, da_inclusion_proof_hash x)))))).
Definition of_tuple p : t :=
  let '(f0, (f1, (f2, (f3, (f4, (f5, f6)))))) := p in mk f0 f1 f2 f3 f4 f5 f6.
#[global] Instance tuple : Fields to_tuple of_tuple.
Proof. solve_fields. Qed.
#[global] Instance codec : Borsh t := struct to_tuple of_tuple
  (u64c *c u64c *c bytes 32 *c u8c *c array (bytes 32) 5 *c bytes 32 *c bytes 32).
#[global] Instance codec_ok : CodecOk (borsh (A:=t)).
Proof. solve_codec. Qed.
#[global] Instance codec_size : CodecSize (borsh (A:=t)) 273.
Proof. solve_size. Qed.
End RespondChallenge.

Module BisectChallenge.
Record t : Set := mk {
  er_slot : Z;
  dispute_upper : bool
}.
Definition to_tuple (x : t) :=
  (er_slot x, dispute_upper x).
Definition of_tuple p : t :=
  let '(f0, f1) := p in mk f0 f1.
#[global] Instance tuple : Fields to_tuple of_tuple.
Proof. solve_fields. Qed.
#[global] Instance codec : Borsh t := struct to_tuple of_tuple
  (u64c *c boolc).
#[global] Instance codec_ok : CodecOk (borsh (A:=t)).
Proof. solve_codec. Qed.
#[global] Instance codec_size : CodecSize (borsh (A:=t)) 9.
Proof. solve_size. Qed.
End BisectChallenge.

Module TimeoutChallenge.
Record t : Set := mk {
  er_slot : Z
}.
Definition to_tuple (x : t) :=
  er_slot x.
Definition of_tuple f0 : t := mk f0.
#[global] Instance tuple : Fields to_tuple of_tuple.
Proof. solve_fields. Qed.
#[global] Instance codec : Borsh t := struct to_tuple of_tuple
  (u64c).
#[global] Instance codec_ok : CodecOk (borsh (A:=t)).
Proof. solve_codec. Qed.
#[global] Instance codec_size : CodecSize (borsh (A:=t)) 8.
Proof. solve_size. Qed.
End TimeoutChallenge.

Module VerifyErStepProofV1.
Record t : Set := mk {
  proof : list byte;
  public_inputs : list byte
}.
Definition to_tuple (x : t) :=
  (proof x, public_inputs x).
Definition of_tuple p : t :=
  let '(f0, f1) := p in mk f0 f1.
#[global] Instance tuple : Fields to_tuple of_tuple.
Proof. solve_fields. Qed.
#[global] Instance codec : Borsh t := struct to_tuple of_tuple
  (bytes 356 *c bytes 256).
#[global] Instance codec_ok : CodecOk (borsh (A:=t)).
Proof. solve_codec. Qed.
#[global] Instance codec_size : CodecSize (borsh (A:=t)) 612.
Proof. solve_size. Qed.
End VerifyErStepProofV1.
