(* ===== verification/Verifier.v ===== *)
(** * Step proofs (zk-types/src/lib.rs, portal/src/instructions/verifier.rs)

    The encodings of field elements, proofs and public inputs shared with the
    prover, and the verifier the Portal runs.  The pairing check of
    groth16-solana is the parameter [groth16_verify].

    [verifier_accepts_iff] says exactly which pairs of proof and public inputs
    are accepted.  [step_statement_binding] shows that the public inputs
    determine every value they were built from. *)

From Stdlib Require Import ZArith Lia.
From Stdlib Require Import Strings.Byte.
From stdpp Require Import base gmap list numbers.
From S2P Require Import Prelude Borsh Events Runtime State Commitments Toy Instruction.

Definition GROTH16_PROOF_RAW_LEN : nat := 256.
Definition SP1_GROTH16_PROOF_V1_LEN : nat := 356.
Definition SP1_GROTH16_VK_HASH_PREFIX : list byte := [x43; x88; xa2; x1c].
Definition SP1_GROTH16_VK_ROOT : Hash32 :=
  be_bytes 32 0x002f850ee998974d6cc00e50cd0814b098c05bfade466d28573240d057f25352.
Definition ER_STEP_PROOF_KIND_ONE_ACCOUNT : Z := 1.
Definition ER_STEP_PROOF_KIND_FULL_TRANSACTION : Z := 2.
Definition ER_STEP_PROOF_KIND_BOUNDED_VRF : Z := 3.
Definition ER_STEP_PROOF_VERSION_V1 : Z := 1.
Definition BN254_FR_MODULUS_BE : Hash32 :=
  be_bytes 32 0x30644e72e131a029b85045b68181585d2833e84879b9709143e1f593f0000001.

Module ZkTypeError.
Inductive t : Set :=
| NonCanonicalFieldElement
| InvalidProofLength
| InvalidProofDomain
| MissingPublicCommitment
| InvalidProofVerifyingKey
| InvalidProofExitCode
| InvalidProofVerifierRoot.
End ZkTypeError.

(** ** Results without state *)

#[global] Instance result_ret {E} : MRet (result E) := λ A a, Ok a.
#[global] Instance result_bind {E} : MBind (result E) := λ A B f r,
  match r with
  | Ok a => f a
  | Err e => Err e
  end.

(** [if c { return Err(e) }] *)
Definition ensure {E} (c : bool) (e : E) : result E unit := if c then Err e else Ok tt.

Definition map_err {E F A} (f : E → F) (r : result E A) : result F A :=
  match r with
  | Ok a => Ok a
  | Err e => Err (f e)
  end.

(** ** Field elements *)

(** [a < b] on byte arrays: lexicographic. *)
Fixpoint bytes_ltb (a b : list byte) : bool :=
  match a, b with
  | _, [] => false
  | [], _ :: _ => true
  | x :: a', y :: b' => (byte_val x <? byte_val y) || ((byte_val x =? byte_val y) && bytes_ltb a' b')
  end.

Module FrBytes.
(** The newtype is its bytes. *)
Definition ZERO : Hash32 := zero32.

Definition new (b : Hash32) : result ZkTypeError.t Hash32 :=
  if bytes_ltb b BN254_FR_MODULUS_BE then Ok b else Err ZkTypeError.NonCanonicalFieldElement.

Definition from_u64 (value : Z) : Hash32 := zeros 24 ++ be_bytes 8 value.

Definition from_u64_pair (high low : Z) : Hash32 := zeros 16 ++ be_bytes 8 high ++ be_bytes 8 low.

Definition er_step_domain_v1 (proof_kind proof_version : Z) : Hash32 :=
  zeros 8 ++ str "northstar-er-step-v1" ++ zeros 2 ++ le_bytes 1 proof_kind ++ le_bytes 1 proof_version.
End FrBytes.

(** ** Proofs *)

Module Groth16ProofRaw.
Record t : Set := mk { a : list byte; b : list byte; c : list byte }.
Definition from_bytes (l : list byte) : result ZkTypeError.t t :=
  ensure (negb (length l =? GROTH16_PROOF_RAW_LEN)%nat) ZkTypeError.InvalidProofLength ;;
  Ok (mk (slice l 0 64) (slice l 64 128) (drop 192 l)).
Definition to_bytes (x : t) : list byte := a x ++ b x ++ c x.
End Groth16ProofRaw.

Module Sp1Groth16ProofV1.
Record t : Set := mk { proof_nonce : Hash32; proof : Groth16ProofRaw.t }.
Definition from_bytes (l : list byte) : result ZkTypeError.t t :=
  ensure (negb (length l =? SP1_GROTH16_PROOF_V1_LEN)%nat) ZkTypeError.InvalidProofLength ;;
  ensure (slice l 0 4 != SP1_GROTH16_VK_HASH_PREFIX) ZkTypeError.InvalidProofVerifyingKey ;;
  ensure (slice l 4 32 != zero32) ZkTypeError.InvalidProofExitCode ;;
  ensure (slice l 36 32 != SP1_GROTH16_VK_ROOT) ZkTypeError.InvalidProofVerifierRoot ;;
  proof_nonce ← FrBytes.new (slice l 68 32);
  proof ← Groth16ProofRaw.from_bytes (drop 100 l);
  Ok (mk proof_nonce proof).
End Sp1Groth16ProofV1.

(** ** Public inputs *)

Module ErStepPublicInputsV1.
Record t : Set := mk {
  domain : Hash32;
  session_context : Hash32;
  slot_step : Hash32;
  pre_state_root : Hash32;
  post_state_root : Hash32;
  tx_effect_root : Hash32;
  readonly_l1_root : Hash32;
  settlement_effect_root : Hash32
}.
Definition to_array (x : t) : list Hash32 :=
  [domain x; session_context x; slot_step x; pre_state_root x; post_state_root x; tx_effect_root x;
   readonly_l1_root x; settlement_effect_root x].

(** [inputs[k]] of the eight. *)
Definition from_array (inputs : list Hash32) : result ZkTypeError.t t :=
  let input k := default [] (inputs !! k) in
  domain ← FrBytes.new (input 0%nat);
  session_context ← FrBytes.new (input 1%nat);
  slot_step ← FrBytes.new (input 2%nat);
  pre_state_root ← FrBytes.new (input 3%nat);
  post_state_root ← FrBytes.new (input 4%nat);
  tx_effect_root ← FrBytes.new (input 5%nat);
  readonly_l1_root ← FrBytes.new (input 6%nat);
  settlement_effect_root ← FrBytes.new (input 7%nat);
  Ok (mk domain session_context slot_step pre_state_root post_state_root tx_effect_root readonly_l1_root
        settlement_effect_root).

(** The values that must not be zero. *)
Definition commitments (x : t) : list Hash32 :=
  [session_context x; pre_state_root x; post_state_root x; tx_effect_root x; readonly_l1_root x;
   settlement_effect_root x].
End ErStepPublicInputsV1.

Module FullTransactionPublicInputsV1.
Definition try_from (inputs : ErStepPublicInputsV1.t) : result ZkTypeError.t ErStepPublicInputsV1.t :=
  ensure (ErStepPublicInputsV1.domain inputs
          != FrBytes.er_step_domain_v1 ER_STEP_PROOF_KIND_FULL_TRANSACTION ER_STEP_PROOF_VERSION_V1)
    ZkTypeError.InvalidProofDomain ;;
  ensure (existsb (λ c, c == FrBytes.ZERO) (ErStepPublicInputsV1.commitments inputs))
    ZkTypeError.MissingPublicCommitment ;;
  Ok inputs.
End FullTransactionPublicInputsV1.

Module BoundedVrfPublicInputsV1.
Definition try_from (inputs : ErStepPublicInputsV1.t) : result ZkTypeError.t ErStepPublicInputsV1.t :=
  ensure (ErStepPublicInputsV1.domain inputs
          != FrBytes.er_step_domain_v1 ER_STEP_PROOF_KIND_BOUNDED_VRF ER_STEP_PROOF_VERSION_V1)
    ZkTypeError.InvalidProofDomain ;;
  ensure (existsb (λ c, c == FrBytes.ZERO) (ErStepPublicInputsV1.commitments inputs))
    ZkTypeError.MissingPublicCommitment ;;
  Ok inputs.
End BoundedVrfPublicInputsV1.

(** ** The verifier *)

(** Which of the two keys: the fields of [Groth16Verifyingkey] in which they
    differ.  The curve points are SP1's in both. *)
Record Groth16Verifyingkey : Set := { nr_pubinputs : Z; vk_ic : list (list byte) }.

Definition SP1_GROTH16_VK_IC : list (list byte) := [
  be_bytes 64 0x2cd6bf7f164af0b6b0bbbe0fdcb06ee0c1ba07f8e6eb2f9f3943a90cb1d402900a76f7e6e8a78d71649eb7e3132018885e2f57ccca64394738e746c63c9fa83b;
  be_bytes 64 0x0f5460f3b7221705435e745da21e276536379c0113c13c4255e7ae101f1e90bf022b4d6c4b7dbdeed528d5abe6eddd6f2bd4ae4b9b0450dc18901fc727da799c;
  be_bytes 64 0x0b0ae6e491bc04c544da9e8cd4857d201b4cfa0222dbe96aac97f044fdf1c922123e064d2ffdb7f8094b727cde1c0beea6d4d551e5743a336804f8effb7f07ac;
  be_bytes 64 0x097c875a6ebd0999b06e7267ff3d8a6bf859bb9635abae07cb6b3534ba409a83ad84b73fb0f397e356b524f2d0e9ddc9d0f6ac75e566041147ee8554879183ec;
  be_bytes 64 0x1807204ddcd27506ba72e17b55227b0bf310136ecb40c74acd52f3ccfbcba9f7011078b5c7767fe73bb54241dcd143ee805ea4383d48d46bced129482c8c2021;
  be_bytes 64 0x008c7b7c98d78c07a2c4be5f6be7082ba41021611f9a2dfc016f8bbb37d36bee09ce6d246baeac24b5a404ca175c2cc4a974e217176fe2ec2a6c22eb60fd65c1].
Definition FIXED_INPUTS_IC : list byte :=
  be_bytes 64 0x2390e300ae7e4623e609ad8e790ca8ffb2fd25f1fb5abb77948b5f6f18e50a0e0e056ebd8118f6a72b342bc7cfe7fc327cb2b8f9b7e38f0edb226b5bbde4070e.
Definition vk_ic_at (k : nat) : list byte := default [] (SP1_GROTH16_VK_IC !! k).

Definition SP1_FIXED_INPUT_VERIFYING_KEY : Groth16Verifyingkey :=
  {| nr_pubinputs := 2; vk_ic := [FIXED_INPUTS_IC; vk_ic_at 2; vk_ic_at 5] |}.

Definition SP1_REPLAY_PROGRAM_VKEY_HASH : Hash32 :=
  be_bytes 32 0x0063a10e31e90625b76d06bfa22cbf0a4a8fa0850ccf71e063d243bd1a7aa31b.

Module CandidateProfile.
Record t : Set := mk {
  checkpoint_steps : Z;
  program_vkey_hash : Hash32;
  fixed_inputs_key : Groth16Verifyingkey
}.
End CandidateProfile.

(** candidate_key.rs *)
Definition CHECKPOINT_STEPS : Z := 1.
Definition PROFILE : option CandidateProfile.t := Some (CandidateProfile.mk CHECKPOINT_STEPS
  (be_bytes 32 0x00f8e1033f6031fff7297eadacd389d84d78850c1bda406914e771bb69282abe)
  {| nr_pubinputs := 2;
     vk_ic := [be_bytes 64 0x20c19416c7a88efa8faf2fe4eea9c83d4bb9c7b24f465fb36dcff1ff2ec09ee12ea35faa10dd82354e41510d8f92f9533739fe1941c8fa1671ab990d63db1f40;
               vk_ic_at 2; vk_ic_at 5] |}).

Definition bounded_vrf_checkpoint_steps : Z := CHECKPOINT_STEPS.

(** The build's features. *)
Record Features : Set := mkFeatures {
  zk_verifier_prototype : bool;
  zk_verifier_bounded_vrf : bool;
  test_verifier : bool
}.

Definition is_ok_fr (b : Hash32) : bool := is_ok (FrBytes.new b).

Definition candidate_profile : result PortalError.t CandidateProfile.t :=
  match PROFILE with
  | None => Err PortalError.StepProofVerificationFailed
  | Some profile =>
      let steps := CandidateProfile.checkpoint_steps profile in
      let hash := CandidateProfile.program_vkey_hash profile in
      let key := CandidateProfile.fixed_inputs_key profile in
      ensure (negb ((1 <=? steps) && (steps <=? 16)) || negb (steps =? CHECKPOINT_STEPS) || (hash == zero32)
              || (hash == SP1_REPLAY_PROGRAM_VKEY_HASH) || negb (is_ok_fr hash) || negb (nr_pubinputs key =? 2)
              || negb (length (vk_ic key) =? 3)%nat || (default [] (vk_ic key !! 0%nat) == zeros 64))
        PortalError.StepProofVerificationFailed ;;
      Ok profile
  end.

(** groth16-solana: [Groth16Verifier::new] followed by [verify], and
    [negate_g1_be]. *)
Class Groth16 : Type := {
  groth16_verify : Groth16Verifyingkey → list byte → list byte → list byte → list Hash32 → bool;
  negate_g1_be : list byte → list byte
}.

Section verifier.
Context `{Host, Groth16} (ft : Features).

Definition fixed_input_key (program_vkey_hash : Hash32) : result PortalError.t Groth16Verifyingkey :=
  if program_vkey_hash == SP1_REPLAY_PROGRAM_VKEY_HASH then Ok SP1_FIXED_INPUT_VERIFYING_KEY
  else if zk_verifier_bounded_vrf ft then
    profile ← candidate_profile;
    if program_vkey_hash == CandidateProfile.program_vkey_hash profile
    then Ok (CandidateProfile.fixed_inputs_key profile)
    else Err PortalError.StepProofVerificationFailed
  else Err PortalError.StepProofVerificationFailed.

(** [as_chunks::<32>().0], zipped with the eight fields. *)
Definition chunks32 (l : list byte) : list Hash32 := (λ k, slice l (32 * k) 32) <$> seq 0 8.

Definition sp1_public_inputs (public_input_bytes : list byte) (proof_nonce : Hash32) :
    result PortalError.t (list Hash32) :=
  public_inputs ← map_err (λ _, PortalError.StepProofVerificationFailed)
                    (ErStepPublicInputsV1.from_array (chunks32 public_input_bytes));
  program_vkey_hash ←
    (if is_ok (FullTransactionPublicInputsV1.try_from public_inputs) then Ok SP1_REPLAY_PROGRAM_VKEY_HASH
     else if zk_verifier_bounded_vrf ft then
       map_err (λ _, PortalError.StepProofVerificationFailed) (BoundedVrfPublicInputsV1.try_from public_inputs) ;;
       profile ← candidate_profile;
       Ok (CandidateProfile.program_vkey_hash profile)
     else Err PortalError.StepProofVerificationFailed);
  let committed_values_digest := mask_root (hashv [public_input_bytes]) in
  Ok [program_vkey_hash; committed_values_digest; zero32; SP1_GROTH16_VK_ROOT; proof_nonce].

Definition verify_er_step_proof_v1 (proof public_inputs : list byte) : result PortalError.t unit :=
  proof ← map_err (λ _, PortalError.StepProofVerificationFailed) (Sp1Groth16ProofV1.from_bytes proof);
  groth16_inputs ← sp1_public_inputs public_inputs (Sp1Groth16ProofV1.proof_nonce proof);
  let raw := Sp1Groth16ProofV1.proof proof in
  let proof_a := negate_g1_be (Groth16ProofRaw.a raw) in
  let input k := default [] (groth16_inputs !! k) in
  let variable_inputs := [input 1%nat; input 4%nat] in
  key ← fixed_input_key (input 0%nat);
  if groth16_verify key proof_a (Groth16ProofRaw.b raw) (Groth16ProofRaw.c raw) variable_inputs then Ok tt
  else Err PortalError.StepProofVerificationFailed.

(** Instruction 30. *)
Definition process_verify_er_step_proof_v1 (args : VerifyErStepProofV1.t) : prog unit :=
  lift_err into (verify_er_step_proof_v1 (VerifyErStepProofV1.proof args) (VerifyErStepProofV1.public_inputs args)).
End verifier.

(** ** Field elements are numbers below the modulus *)

(** The number a big-endian array denotes. *)
Definition be_val (l : list byte) : Z := le_val (reverse l).

(** The scalar-field modulus of BN254. *)
Definition fr_modulus : Z := 0x30644e72e131a029b85045b68181585d2833e84879b9709143e1f593f0000001.

Lemma le_val_app l k : le_val (l ++ k) = le_val l + 256 ^ Z.of_nat (length l) * le_val k.
Proof.
  induction l as [|b l IH]; cbn [app le_val length]; [lia|].
  rewrite IH, Nat2Z.inj_succ, Z.pow_succ_r by lia. lia.
Qed.

Lemma be_val_cons x l : be_val (x :: l) = byte_val x * 256 ^ Z.of_nat (length l) + be_val l.
Proof.
  unfold be_val. rewrite reverse_cons, le_val_app, length_reverse. cbn [le_val]. lia.
Qed.

Lemma be_val_range l : 0 ≤ be_val l < 256 ^ Z.of_nat (length l).
Proof. unfold be_val. rewrite <-(length_reverse l). apply le_val_range. Qed.

Lemma be_val_be_bytes n z : 0 ≤ z < 256 ^ Z.of_nat n → be_val (be_bytes n z) = z.
Proof. intros. unfold be_val, be_bytes. rewrite reverse_involutive. by apply le_val_bytes. Qed.

Lemma length_be_bytes n z : length (be_bytes n z) = n.
Proof. unfold be_bytes. by rewrite length_reverse, length_le_bytes. Qed.

Lemma bytes_ltb_spec a b : length a = length b → bytes_ltb a b = true ↔ be_val a < be_val b.
Proof.
  revert b. induction a as [|x a IH]; intros [|y b] Hl; try discriminate; [cbn; lia|].
  injection Hl as Hl. cbn [bytes_ltb]. rewrite orb_true_iff, andb_true_iff, Z.ltb_lt, Z.eqb_eq, IH by done.
  rewrite !be_val_cons, Hl. pose proof (be_val_range a). pose proof (be_val_range b). rewrite Hl in *.
  pose proof (byte_val_range x). pose proof (byte_val_range y). split; [nia|].
  intros. destruct (Z.lt_trichotomy (byte_val x) (byte_val y)) as [?|[?|?]]; [by left|right; split; [done|nia]|nia].
Qed.

Lemma fr_new_Ok b c : FrBytes.new b = Ok c ↔ c = b ∧ bytes_ltb b BN254_FR_MODULUS_BE = true.
Proof. unfold FrBytes.new. destruct (bytes_ltb _ _); split; intros Hx; try done; [by injection Hx as <-|by destruct Hx as [-> _]|by destruct Hx]. Qed.

(** [FrBytes::new] accepts a 32-byte array exactly
    when it denotes a number below the BN254 scalar modulus, and returns it
    unchanged: the byte-wise comparison of the code is the numeric one. *)
Theorem field_element_canonical b :
  length b = 32%nat → FrBytes.new b = Ok b ↔ be_val b < fr_modulus.
Proof.
  intros Hl. rewrite fr_new_Ok, bytes_ltb_spec by (rewrite Hl; unfold BN254_FR_MODULUS_BE; by rewrite length_be_bytes).
  unfold BN254_FR_MODULUS_BE. rewrite be_val_be_bytes by (vm_compute; split; congruence). fold fr_modulus. tauto.
Qed.

Lemma field_element_canonical_witness :
  (FrBytes.new (be_bytes 32 (fr_modulus - 1)) = Ok (be_bytes 32 (fr_modulus - 1)) ↔
   be_val (be_bytes 32 (fr_modulus - 1)) < fr_modulus) ∧
  FrBytes.new (be_bytes 32 (fr_modulus - 1)) = Ok (be_bytes 32 (fr_modulus - 1)) ∧
  FrBytes.new (be_bytes 32 fr_modulus) = Err ZkTypeError.NonCanonicalFieldElement.
Proof.
  split; [|by split; vm_compute].
  apply (field_element_canonical (be_bytes 32 (fr_modulus - 1))). apply length_be_bytes.
Defined.

(** ** What a statement determines *)

(** The eight public inputs of step [step] at slot [er_slot]. *)
Definition step_statement (kind version er_slot step : Z)
    (context pre post effects readonly settlement : Hash32) : ErStepPublicInputsV1.t :=
  ErStepPublicInputsV1.mk (FrBytes.er_step_domain_v1 kind version) context
    (FrBytes.from_u64_pair er_slot step) pre post effects readonly settlement.

Definition statement_bytes (x : ErStepPublicInputsV1.t) : list byte := concat (ErStepPublicInputsV1.to_array x).

Lemma be_bytes_inj n a b :
  0 ≤ a < 256 ^ Z.of_nat n → 0 ≤ b < 256 ^ Z.of_nat n → be_bytes n a = be_bytes n b → a = b.
Proof. intros Ha Hb He. apply (f_equal be_val) in He. by rewrite !be_val_be_bytes in He. Qed.

Lemma from_u64_pair_inj h l h' l' :
  is_u64 h → is_u64 l → is_u64 h' → is_u64 l' →
  FrBytes.from_u64_pair h l = FrBytes.from_u64_pair h' l' → h = h' ∧ l = l'.
Proof.
  unfold in_width, umax, FrBytes.from_u64_pair. intros ???? He. apply app_inv_head in He.
  apply app_inj_len in He as [G1 G2]; [|by rewrite !length_be_bytes]. split; apply (be_bytes_inj 8); (done || lia).
Qed.

Lemma er_step_domain_inj k v k' v' :
  is_u8 k → is_u8 v → is_u8 k' → is_u8 v' →
  FrBytes.er_step_domain_v1 k v = FrBytes.er_step_domain_v1 k' v' → k = k' ∧ v = v'.
Proof.
  unfold in_width, umax, FrBytes.er_step_domain_v1. intros ???? He. do 3 apply app_inv_head in He.
  apply app_inj_len in He as [G1 G2]; [|by rewrite !length_le_bytes]. split; apply (le_bytes_inj 1); (done || lia).
Qed.

(** Splits equal concatenations of 32-byte blocks. *)
Lemma concat_inj n (l l' : list (list byte)) :
  length l = length l' → Forall (λ b, length b = n) l → Forall (λ b, length b = n) l' →
  concat l = concat l' → l = l'.
Proof.
  revert l'. induction l as [|b l IH]; intros [|b' l'] Hl Hf Hf' He; try discriminate; [done|].
  apply list.Forall_cons in Hf as [Hb Hf], Hf' as [Hb' Hf']. injection Hl as Hl.
  cbn [concat] in He. apply app_inj_len in He as [-> He]; [|congruence]. f_equal. by apply IH.
Qed.

(** The 256 bytes of public inputs determine the proof
    kind and version, the ER slot, the step, the session context and the five
    roots they were built from: no two different statements about a step are
    given to the verifier as the same inputs. *)
Theorem step_statement_binding kind version er step ctx pre post eff ro se kind' version' er' step' ctx' pre' post'
    eff' ro' se' :
  Forall (in_width 8) [kind; version; kind'; version'] → Forall (in_width 64) [er; step; er'; step'] →
  Forall (λ h, length h = 32%nat) [ctx; pre; post; eff; ro; se; ctx'; pre'; post'; eff'; ro'; se'] →
  statement_bytes (step_statement kind version er step ctx pre post eff ro se) =
  statement_bytes (step_statement kind' version' er' step' ctx' pre' post' eff' ro' se') →
  (kind, version, er, step) = (kind', version', er', step') ∧
  (ctx, pre, post, eff, ro, se) = (ctx', pre', post', eff', ro', se').
Proof.
  rewrite !list.Forall_cons. intros Hk Hs Hh He. destruct_and!.
  apply (concat_inj 32) in He; [|done|by repeat constructor..].
  unfold step_statement in He. cbn [ErStepPublicInputsV1.to_array ErStepPublicInputsV1.domain ErStepPublicInputsV1.session_context
    ErStepPublicInputsV1.slot_step ErStepPublicInputsV1.pre_state_root ErStepPublicInputsV1.post_state_root
    ErStepPublicInputsV1.tx_effect_root ErStepPublicInputsV1.readonly_l1_root ErStepPublicInputsV1.settlement_effect_root] in He.
  assert (FrBytes.er_step_domain_v1 kind version = FrBytes.er_step_domain_v1 kind' version' ∧
    FrBytes.from_u64_pair er step = FrBytes.from_u64_pair er' step' ∧
    (ctx, pre, post, eff, ro, se) = (ctx', pre', post', eff', ro', se')) as (Hd & Hp & Hr).
  { revert He. generalize (FrBytes.er_step_domain_v1 kind version), (FrBytes.er_step_domain_v1 kind' version'),
      (FrBytes.from_u64_pair er step), (FrBytes.from_u64_pair er' step'). intros. by simplify_eq. }
  apply er_step_domain_inj in Hd as [-> ->]; [|done..]. by apply from_u64_pair_inj in Hp as [-> ->].
Qed.

Lemma step_statement_binding_witness :
  let x := statement_bytes (step_statement 2 1 40 3 (key 1) (key 2) (key 3) (key 4) (key 5) (key 6)) in
  length x = 256%nat ∧ (2, 1, 40, 3) = (2, 1, 40, 3) ∧
  (key 1, key 2, key 3, key 4, key 5, key 6) = (key 1, key 2, key 3, key 4, key 5, key 6).
Proof.
  split; [vm_compute; reflexivity|].
  apply (step_statement_binding 2 1 40 3 (key 1) (key 2) (key 3) (key 4) (key 5) (key 6)
    2 1 40 3 (key 1) (key 2) (key 3) (key 4) (key 5) (key 6)).
  - apply (bool_decide_unpack _). vm_compute. reflexivity.
  - apply (bool_decide_unpack _). vm_compute. reflexivity.
  - apply (bool_decide_unpack _). vm_compute. reflexivity.
  - reflexivity.
Defined.

(** ** What the verifier accepts *)

Lemma ensure_bind {E A} c (e : E) (f : unit → result E A) r :
  (x ← ensure c e; f x) = Ok r ↔ c = false ∧ f tt = Ok r.
Proof. destruct c; cbn; split; [done|by intros []|done|by intros []]. Qed.

Lemma result_bind_Ok {E A B} (r : result E A) (f : A → result E B) b :
  (x ← r; f x) = Ok b ↔ ∃ a, r = Ok a ∧ f a = Ok b.
Proof. destruct r; cbn; split; [eauto|by intros (? & [= ->] & ?)|done|by intros (? & ? & ?)]. Qed.

Lemma map_err_Ok {E F A} (f : E → F) (r : result E A) a : map_err f r = Ok a ↔ r = Ok a.
Proof. destruct r; cbn; split; intros Hx; try done; by injection Hx as ->. Qed.

(** A proof envelope: prefix, zero exit code, verifier root, nonce, points. *)
Definition envelope (nonce : Hash32) (p : Groth16ProofRaw.t) : list byte :=
  SP1_GROTH16_VK_HASH_PREFIX ++ zero32 ++ SP1_GROTH16_VK_ROOT ++ nonce ++ Groth16ProofRaw.to_bytes p.

Definition raw_sized (p : Groth16ProofRaw.t) : Prop :=
  length (Groth16ProofRaw.a p) = 64%nat ∧ length (Groth16ProofRaw.b p) = 128%nat ∧ length (Groth16ProofRaw.c p) = 64%nat.

Lemma slice_split l n m k : k = (n + m)%nat → (k ≤ length l)%nat → drop n l = slice l n m ++ drop k l.
Proof. intros -> ?. unfold slice. rewrite <-drop_drop. symmetry. apply take_drop. Qed.

Lemma length_slice l n m : (n + m ≤ length l)%nat → length (slice l n m) = m.
Proof. intros. unfold slice. rewrite length_take, length_drop. lia. Qed.

Lemma raw_from_bytes l p :
  Groth16ProofRaw.from_bytes l = Ok p ↔ l = Groth16ProofRaw.to_bytes p ∧ raw_sized p.
Proof.
  unfold Groth16ProofRaw.from_bytes, GROTH16_PROOF_RAW_LEN, Groth16ProofRaw.to_bytes, raw_sized. rewrite ensure_bind.
  rewrite negb_false_iff, Nat.eqb_eq. split.
  - intros (Hl & [= <-]). cbn [Groth16ProofRaw.a Groth16ProofRaw.b Groth16ProofRaw.c].
    rewrite !length_slice, length_drop by lia. split_and!; [|lia..].
    rewrite <-(slice_split l 64 128 192), <-(slice_split l 0 64 64) by lia. by rewrite drop_0.
  - intros (-> & Ha & Hb & Hc). destruct p as [a b c]. cbn [Groth16ProofRaw.a Groth16ProofRaw.b Groth16ProofRaw.c] in *.
    rewrite !length_app. split; [lia|]. do 2 f_equal; unfold slice.
    + by rewrite drop_0, take_app_length'.
    + by rewrite drop_app_length', take_app_length'.
    + rewrite app_assoc. apply drop_app_length'. rewrite length_app. lia.
Qed.

Lemma sp1_from_bytes l p :
  Sp1Groth16ProofV1.from_bytes l = Ok p ↔
  l = envelope (Sp1Groth16ProofV1.proof_nonce p) (Sp1Groth16ProofV1.proof p) ∧
  length (Sp1Groth16ProofV1.proof_nonce p) = 32%nat ∧
  bytes_ltb (Sp1Groth16ProofV1.proof_nonce p) BN254_FR_MODULUS_BE = true ∧ raw_sized (Sp1Groth16ProofV1.proof p).
Proof.
  unfold Sp1Groth16ProofV1.from_bytes, SP1_GROTH16_PROOF_V1_LEN, envelope.
  assert (Hr : length SP1_GROTH16_VK_ROOT = 32%nat) by apply length_be_bytes.
  revert Hr. generalize SP1_GROTH16_VK_ROOT as root. intros root Hr.
  rewrite !ensure_bind, result_bind_Ok, negb_false_iff, Nat.eqb_eq. setoid_rewrite result_bind_Ok.
  setoid_rewrite fr_new_Ok. setoid_rewrite raw_from_bytes. split.
  - intros (Hl & H1 & H2 & H3 & n & (-> & Hn) & q & (Hq & Hsz) & [= <-]). bprop.
    cbn [Sp1Groth16ProofV1.proof_nonce Sp1Groth16ProofV1.proof].
    rewrite length_slice by lia. split_and!; try done.
    rewrite <-Hq, <-(slice_split l 68 32 100) by lia. rewrite <-H1, <-H2, <-H3.
    rewrite <-(slice_split l 36 32 68), <-(slice_split l 4 32 36), <-(slice_split l 0 4 4) by lia. by rewrite drop_0.
  - intros (-> & Hn & Hlt & Hs). destruct p as [n q]. cbn [Sp1Groth16ProofV1.proof_nonce Sp1Groth16ProofV1.proof] in *.
    assert (Hq : length (Groth16ProofRaw.to_bytes q) = 256%nat).
    { unfold Groth16ProofRaw.to_bytes. destruct Hs as (?&?&?). rewrite !length_app. lia. }
    split_and!.
    + rewrite !length_app, Hn, Hq, Hr. done.
    + done.
    + done.
    + unfold slice. rewrite (app_assoc _ zero32), drop_app_length', take_app_length' by done. by rewrite bool_decide_eq_true_2.
    + exists n. split; [|exists q; split; [|done]].
      * rewrite 2!app_assoc. unfold slice. rewrite drop_app_length', take_app_length'; [done|done|].
        by rewrite !length_app, Hr.
      * rewrite 3!app_assoc. rewrite drop_app_length'; [done|]. by rewrite !length_app, Hr, Hn.
Qed.

Lemma chunks32_statement pi : length pi = 256%nat → concat (chunks32 pi) = pi.
Proof.
  intros Hl. transitivity (drop 0 pi); [|by rewrite drop_0]. unfold chunks32. cbn [seq fmap list_fmap concat Nat.mul Nat.add].
  rewrite (slice_split pi 0 32 32), (slice_split pi 32 32 64), (slice_split pi 64 32 96), (slice_split pi 96 32 128),
    (slice_split pi 128 32 160), (slice_split pi 160 32 192), (slice_split pi 192 32 224), (slice_split pi 224 32 256) by lia.
  by rewrite (drop_ge pi 256) by lia.
Qed.

Lemma chunks32_length pi : length pi = 256%nat → Forall (λ c, length c = 32%nat) (chunks32 pi).
Proof. intros Hl. unfold chunks32. cbn [seq fmap list_fmap]. repeat constructor; rewrite length_slice; lia. Qed.

Definition canonical (b : Hash32) : Prop := length b = 32%nat ∧ bytes_ltb b BN254_FR_MODULUS_BE = true.

Lemma from_array_Ok l x :
  length l = 8%nat →
  ErStepPublicInputsV1.from_array l = Ok x ↔
  l = ErStepPublicInputsV1.to_array x ∧ Forall (λ b, bytes_ltb b BN254_FR_MODULUS_BE = true) l.
Proof.
  intros Hl. do 8 (destruct l as [|? l]; [discriminate|]). destruct l; [|discriminate]. clear Hl.
  unfold ErStepPublicInputsV1.from_array. cbn [lookup list_lookup default id].
  rewrite result_bind_Ok. repeat setoid_rewrite result_bind_Ok. setoid_rewrite fr_new_Ok.
  rewrite !list.Forall_cons. split.
  - intros Hx. repeat match goal with X : ∃ _, _ |- _ => destruct X | X : _ ∧ _ |- _ => destruct X end.
    simplify_eq. cbn. split; [done|]. split_and!; done.
  - intros [He Hf]. destruct x. unfold ErStepPublicInputsV1.to_array in He. cbn in He. simplify_eq. destruct_and!. do 8 (eexists; split; [split; [reflexivity|done]|]). done.
Qed.

Lemma statement_chunks pi x :
  length pi = 256%nat →
  ErStepPublicInputsV1.from_array (chunks32 pi) = Ok x ↔
  pi = statement_bytes x ∧ Forall canonical (ErStepPublicInputsV1.to_array x).
Proof.
  intros Hl. rewrite from_array_Ok by done. unfold statement_bytes, canonical. split.
  - intros [<- Hf]. rewrite chunks32_statement by done. split; [done|].
    apply list.Forall_and. by split; [apply chunks32_length|].
  - intros [He Hf]. assert (chunks32 pi = ErStepPublicInputsV1.to_array x) as ->; [|by split; [|apply list.Forall_and in Hf as [_ ?]]].
    apply (concat_inj 32); [done|by apply chunks32_length|by apply list.Forall_and in Hf as [? _]|]. by rewrite chunks32_statement.
Qed.

(** The key of the bounded-VRF relation. *)
Definition candidate_key : Groth16Verifyingkey :=
  from_option CandidateProfile.fixed_inputs_key SP1_FIXED_INPUT_VERIFYING_KEY PROFILE.
Definition candidate_hash : Hash32 := from_option CandidateProfile.program_vkey_hash zero32 PROFILE.

(** The profile that is built in passes its own checks. *)
Lemma candidate_profile_ok : ∃ profile, candidate_profile = Ok profile ∧
  CandidateProfile.program_vkey_hash profile = candidate_hash ∧ CandidateProfile.fixed_inputs_key profile = candidate_key.
Proof. eexists. split; [vm_compute; reflexivity|by split; vm_compute]. Qed.

Lemma candidate_hash_ne : (candidate_hash == SP1_REPLAY_PROGRAM_VKEY_HASH) = false.
Proof. vm_compute. reflexivity. Qed.

Lemma commitments_nonzero x :
  existsb (λ c, c == FrBytes.ZERO) (ErStepPublicInputsV1.commitments x) = false ↔
  Forall (.≠ zero32) (ErStepPublicInputsV1.commitments x).
Proof.
  generalize (ErStepPublicInputsV1.commitments x). unfold FrBytes.ZERO. induction l as [|c l IH]; [done|].
  cbn [existsb]. rewrite orb_false_iff, bool_decide_eq_false, list.Forall_cons, IH. done.
Qed.

Lemma full_try_from x :
  is_ok (FullTransactionPublicInputsV1.try_from x) = true ↔
  ErStepPublicInputsV1.domain x = FrBytes.er_step_domain_v1 2 1 ∧ Forall (.≠ zero32) (ErStepPublicInputsV1.commitments x).
Proof.
  unfold FullTransactionPublicInputsV1.try_from. rewrite <-commitments_nonzero.
  change ER_STEP_PROOF_KIND_FULL_TRANSACTION with 2. change ER_STEP_PROOF_VERSION_V1 with 1.
  unfold ensure. case_bool_decide; cbn [negb]; [|cbn; naive_solver].
  destruct (existsb (λ c, c == FrBytes.ZERO) (ErStepPublicInputsV1.commitments x)); cbn; naive_solver.
Qed.

Lemma vrf_try_from x y :
  BoundedVrfPublicInputsV1.try_from x = Ok y ↔
  y = x ∧ ErStepPublicInputsV1.domain x = FrBytes.er_step_domain_v1 3 1 ∧
  Forall (.≠ zero32) (ErStepPublicInputsV1.commitments x).
Proof.
  unfold BoundedVrfPublicInputsV1.try_from. rewrite <-commitments_nonzero, !ensure_bind.
  change ER_STEP_PROOF_KIND_BOUNDED_VRF with 3. change ER_STEP_PROOF_VERSION_V1 with 1.
  rewrite negb_false_iff, bool_decide_eq_true. naive_solver.
Qed.

Section accepts.
Context `{Host, Groth16} (ft : Features).
#[local] Opaque be_bytes.

(** The pairing check on the two inputs that vary: the digest of the statement
    and the nonce. *)
Definition pairing_ok (k : Groth16Verifyingkey) (nonce : Hash32) (p : Groth16ProofRaw.t) (pi : list byte) : bool :=
  groth16_verify k (negate_g1_be (Groth16ProofRaw.a p)) (Groth16ProofRaw.b p) (Groth16ProofRaw.c p)
    [mask_root (hashv [pi]); nonce].

Lemma sp1_public_inputs_Ok pi nonce l :
  length pi = 256%nat →
  sp1_public_inputs ft pi nonce = Ok l ↔
  ∃ x h, pi = statement_bytes x ∧ Forall canonical (ErStepPublicInputsV1.to_array x) ∧
    Forall (.≠ zero32) (ErStepPublicInputsV1.commitments x) ∧
    l = [h; mask_root (hashv [pi]); zero32; SP1_GROTH16_VK_ROOT; nonce] ∧
    (ErStepPublicInputsV1.domain x = FrBytes.er_step_domain_v1 2 1 ∧ h = SP1_REPLAY_PROGRAM_VKEY_HASH ∨
     ErStepPublicInputsV1.domain x = FrBytes.er_step_domain_v1 3 1 ∧ zk_verifier_bounded_vrf ft = true ∧
     h = candidate_hash).
Proof.
  intros Hl. unfold sp1_public_inputs. rewrite result_bind_Ok.
  assert (Hd : FrBytes.er_step_domain_v1 2 1 ≠ FrBytes.er_step_domain_v1 3 1) by (vm_compute; congruence).
  split.
  - intros (x & Hx & Hr). apply map_err_Ok, statement_chunks in Hx as [Hpi Hc]; [|done].
    apply result_bind_Ok in Hr as (h & Hh & [= <-]). exists x, h.
    destruct (is_ok _) eqn:Hf; [|destruct (zk_verifier_bounded_vrf ft) eqn:Hft; [|done]].
    + apply full_try_from in Hf as []. injection Hh as <-. auto 10.
    + rewrite result_bind_Ok in Hh. destruct Hh as (y & Hy & Hh).
      apply map_err_Ok, vrf_try_from in Hy as (-> & ? & ?). destruct candidate_profile_ok as (c & Hcp & Hch & _).
      rewrite Hcp in Hh. cbn [mbind result_bind] in Hh. injection Hh as <-. rewrite Hch. split; [exact Hpi|]. split; [exact Hc|]. split; [done|].
      split; [reflexivity|]. right. auto.
  - intros (x & h & Hpi & Hc & Hz & -> & Hcase). exists x.
    split; [by apply map_err_Ok, statement_chunks|]. apply result_bind_Ok. exists h. split; [|done].
    destruct Hcase as [[Hdm ->]|(Hdm & Hft & ->)].
    + by destruct (is_ok _) eqn:Hf; [|apply not_true_iff_false in Hf; destruct Hf; apply full_try_from].
    + destruct (is_ok _) eqn:Hf; [apply full_try_from in Hf as [Hf _]; congruence|]. rewrite Hft.
      apply result_bind_Ok. exists x. split; [by apply map_err_Ok, vrf_try_from|].
      destruct candidate_profile_ok as (c & -> & <- & _). reflexivity.
Qed.

Lemma fixed_input_key_replay : fixed_input_key ft SP1_REPLAY_PROGRAM_VKEY_HASH = Ok SP1_FIXED_INPUT_VERIFYING_KEY.
Proof. unfold fixed_input_key. by rewrite bool_decide_eq_true_2. Qed.

Lemma fixed_input_key_candidate :
  zk_verifier_bounded_vrf ft = true → fixed_input_key ft candidate_hash = Ok candidate_key.
Proof.
  intros Hft. unfold fixed_input_key. rewrite candidate_hash_ne, Hft. destruct candidate_profile_ok as (c & -> & Hh & <-).
  cbn [mbind result_bind]. by rewrite bool_decide_eq_true_2.
Qed.

(** C34: the Portal accepts a proof for 256 bytes of public
    inputs exactly when the proof is a 356-byte SP1 envelope with the expected
    key prefix, exit code zero, the expected verifier root and a canonical
    nonce; the inputs are eight canonical field elements, none of the six
    commitments zero; and the pairing check of the key that belongs to the
    domain (full transactions, or bounded VRF where the feature is built in)
    holds on the digest of all the inputs and the nonce. *)
Theorem verifier_accepts_iff proof pi :
  length pi = 256%nat →
  verify_er_step_proof_v1 ft proof pi = Ok tt ↔
  ∃ nonce p x, proof = envelope nonce p ∧ canonical nonce ∧ raw_sized p ∧
    pi = statement_bytes x ∧ Forall canonical (ErStepPublicInputsV1.to_array x) ∧
    Forall (.≠ zero32) (ErStepPublicInputsV1.commitments x) ∧
    (ErStepPublicInputsV1.domain x = FrBytes.er_step_domain_v1 2 1 ∧
       pairing_ok SP1_FIXED_INPUT_VERIFYING_KEY nonce p pi = true ∨
     ErStepPublicInputsV1.domain x = FrBytes.er_step_domain_v1 3 1 ∧ zk_verifier_bounded_vrf ft = true ∧
       pairing_ok candidate_key nonce p pi = true).
Proof.
  intros Hl. unfold verify_er_step_proof_v1. rewrite result_bind_Ok. split.
  - intros ([nonce p] & Hp & Hr). apply map_err_Ok, sp1_from_bytes in Hp as (He & Hn & Hlt & Hs).
    apply result_bind_Ok in Hr as (l & Hx & Hr). apply sp1_public_inputs_Ok in Hx as (x & h & Hpi & Hc & Hz & -> & Hcase); [|done].
    apply result_bind_Ok in Hr as (k & Hk & Hg).
    cbn [Sp1Groth16ProofV1.proof_nonce Sp1Groth16ProofV1.proof lookup list_lookup default id] in *.
    destruct (groth16_verify _ _ _ _ _) eqn:Hgv; [|discriminate].
    exists nonce, p, x. do 6 (split; [by auto|]).
    destruct Hcase as [[Hd ->]|(Hd & Hft & ->)]; [left|right].
    + rewrite fixed_input_key_replay in Hk. injection Hk as <-. auto.
    + rewrite fixed_input_key_candidate in Hk by done. injection Hk as <-. auto.
  - intros (nonce & p & x & He & (Hn & Hlt) & Hs & Hpi & Hc & Hz & Hcase).
    exists (Sp1Groth16ProofV1.mk nonce p). split; [by apply map_err_Ok, sp1_from_bytes|].
    cbn [Sp1Groth16ProofV1.proof_nonce Sp1Groth16ProofV1.proof]. unfold pairing_ok in Hcase.
    destruct Hcase as [[Hd Hg]|(Hd & Hft & Hg)]; apply result_bind_Ok; eexists; (split;
      [apply sp1_public_inputs_Ok; [done|]; exists x; eexists; do 3 (split; [assumption|]); split; [reflexivity|]|]).
    + left. auto.
    + cbn [lookup list_lookup default id]. rewrite fixed_input_key_replay. cbn [mbind result_bind]. by rewrite Hg.
    + right. auto.
    + cbn [lookup list_lookup default id]. rewrite fixed_input_key_candidate by done. cbn [mbind result_bind]. by rewrite Hg.
Qed.
End accepts.

(** A concrete pairing check: [C] carries the two inputs. *)
#[global] Instance toy_groth16 : Groth16 := {|
  groth16_verify k a b c inputs := c == concat inputs;
  negate_g1_be a := a
|}.

Module VerifierExample.
Definition features : Features := mkFeatures true true false.
Definition statement : ErStepPublicInputsV1.t :=
  step_statement 2 1 40 3 (FrBytes.from_u64 1) (FrBytes.from_u64 2) (FrBytes.from_u64 3) (FrBytes.from_u64 4)
    (FrBytes.from_u64 5) (FrBytes.from_u64 6).
Definition inputs : list byte := Eval vm_compute in statement_bytes statement.
Definition nonce : Hash32 := FrBytes.from_u64 7.
(** The proof the concrete check accepts for [pi]. *)
Definition prove (pi : list byte) : list byte :=
  envelope nonce (Groth16ProofRaw.mk (zeros 64) (zeros 128) (mask_root (hashv [pi]) ++ nonce)).
Definition proof : list byte := Eval vm_compute in prove inputs.
End VerifierExample.

Lemma verifier_accepts_iff_witness :
  verify_er_step_proof_v1 VerifierExample.features VerifierExample.proof VerifierExample.inputs = Ok tt ∧
  (∃ nonce p x, VerifierExample.proof = envelope nonce p ∧ canonical nonce ∧ raw_sized p ∧
     VerifierExample.inputs = statement_bytes x ∧ Forall canonical (ErStepPublicInputsV1.to_array x) ∧
     Forall (.≠ zero32) (ErStepPublicInputsV1.commitments x) ∧
     (ErStepPublicInputsV1.domain x = FrBytes.er_step_domain_v1 2 1 ∧
        pairing_ok SP1_FIXED_INPUT_VERIFYING_KEY nonce p VerifierExample.inputs = true ∨
      ErStepPublicInputsV1.domain x = FrBytes.er_step_domain_v1 3 1 ∧ true = true ∧
        pairing_ok candidate_key nonce p VerifierExample.inputs = true)) ∧
  verify_er_step_proof_v1 VerifierExample.features (drop 1 VerifierExample.proof ++ [x00]) VerifierExample.inputs
    = Err PortalError.StepProofVerificationFailed.
Proof.
  split; [vm_compute; reflexivity|]. split; [|vm_compute; reflexivity].
  apply (verifier_accepts_iff VerifierExample.features VerifierExample.proof VerifierExample.inputs);
    vm_compute; reflexivity.
Defined.
