(* ===== verification/Merkle.v ===== *)
(** * Merkle trees of a checkpoint (northstar/src/checkpoint.rs, lines 20-326 and 854-897)

    The validator commits to the states, transactions, readonly values and
    settlement effects of a checkpoint with one Merkle tree each, and publishes
    an authentication path per leaf.  [climb] is the loop with which a path is
    checked, here and, with the tags "trace" and "transaction-effect", in the
    Portal (StepProof.v).

    Completeness ([path_complete], [path_accepted]): the path a tree gives for a leaf is accepted
    against its root.  Binding ([climb_binds], [root_binds]): two leaves accepted
    at one index against one root are equal, or SHA-256 has a collision. *)

From Stdlib Require Import ZArith Lia.
From Stdlib Require Import Strings.Byte.
From stdpp Require Import base gmap list numbers.
From S2P Require Import Prelude Borsh Events Runtime State Commitments Instruction Verifier.

Definition CHECKPOINT_FORMAT_VERSION_V1 : Z := 1.
Definition CANONICAL_CHECKPOINT_STEPS_V1 : nat := 16.
Definition CHECKPOINT_HASH_DOMAIN_V1 : list byte := str "northstar-checkpoint-v1".

Module CheckpointArtifactError.
Inductive t : Set :=
| Encoding
| UnsupportedVersion
| InvalidStepCount
| InvalidStepIndex
| InvalidStateRoot
| InvalidStateAccounts
| InvalidTransaction
| InvalidTransactionEffect
| InvalidReadonlyL1Values
| InvalidSettlementEffects
| InvalidManifest
| InvalidPage
| CommitmentMismatch.
#[global] Instance eq_dec : EqDecision t.
Proof. solve_decision. Defined.
End CheckpointArtifactError.

(** How a call ends other than with a value: the error it returns, or a panic. *)
Inductive abort : Set :=
| Returned (e : CheckpointArtifactError.t)
| Panics.

Abbreviation outcome := (result abort).

(** [u32::try_from(n)] *)
Definition to_u32 (n : nat) : outcome Z :=
  if Z.of_nat n <=? umax 32 then Ok (Z.of_nat n) else Err (Returned CheckpointArtifactError.Encoding).

(** [v[i]] *)
Definition index_of {A} (v : list A) (i : nat) : outcome A :=
  match v !! i with Some x => Ok x | None => Err Panics end.

Module TreeKind.
Inductive t : Set := State | Trace | TransactionEffect | ReadonlyL1 | SettlementEffect | DataAvailability.
#[global] Instance eq_dec : EqDecision t.
Proof. solve_decision. Defined.
Definition tag (k : t) : list byte :=
  match k with
  | State => str "state"
  | Trace => str "trace"
  | TransactionEffect => str "transaction-effect"
  | ReadonlyL1 => str "readonly-l1"
  | SettlementEffect => str "settlement-effect"
  | DataAvailability => str "data-availability"
  end.
Definition root_is_field (k : t) : bool :=
  match k with State | ReadonlyL1 | SettlementEffect => true | _ => false end.
End TreeKind.

(** [n.max(1).next_power_of_two()] and [trailing_zeros] of it. *)
Definition width_of (n : nat) : nat := Nat.pow 2 (Nat.log2_up n).
Definition depth_of (n : nat) : nat := Nat.log2_up n.

(** ** Hashes *)

Section hashes.
Context `{Host}.

Definition typed_hash (kind : TreeKind.t) (label bs : list byte) : Hash32 :=
  hashv [CHECKPOINT_HASH_DOMAIN_V1; TreeKind.tag kind; label; le_bytes 8 (Z.of_nat (length bs)); bs].

Definition node_hash (kind : TreeKind.t) (level : Z) (left right : Hash32) : Hash32 :=
  hashv [CHECKPOINT_HASH_DOMAIN_V1; TreeKind.tag kind; str "node"; le_bytes 4 level; left; right].

Definition root_hash (kind : TreeKind.t) (leaf_count : Z) (inner : Hash32) : Hash32 :=
  let root := hashv [CHECKPOINT_HASH_DOMAIN_V1; TreeKind.tag kind; str "root"; le_bytes 4 leaf_count; inner] in
  if TreeKind.root_is_field kind then mask_root root else root.

Definition empty_leaf_hash (kind : TreeKind.t) (index : nat) : outcome Hash32 :=
  i ← to_u32 index;
  Ok (typed_hash kind (str "empty-leaf") (le_bytes 4 i)).

(** ** Trees *)

(** [previous.as_chunks::<2>().0.iter().map(..).collect()] *)
Fixpoint next_layer (kind : TreeKind.t) (level : Z) (previous : list Hash32) : list Hash32 :=
  match previous with
  | l :: r :: rest => node_hash kind level l r :: next_layer kind level rest
  | _ => []
  end.

(** The [while] loop, from the layer it last pushed. *)
Fixpoint grow (fuel : nat) (kind : TreeKind.t) (level : Z) (layer : list Hash32) : outcome (list (list Hash32)) :=
  if (length layer <=? 1)%nat then Ok [layer]
  else match fuel with
  | O => Err Panics
  | S fuel =>
      level' ← match checked_add 32 level 1 with
               | Some l => Ok l
               | None => Err (Returned CheckpointArtifactError.Encoding)
               end;
      layers ← grow fuel kind level' (next_layer kind level layer);
      Ok (layer :: layers)
  end.

End hashes.

Fixpoint mapM_outcome {A B} (f : A → outcome B) (l : list A) : outcome (list B) :=
  match l with
  | [] => Ok []
  | x :: l' => y ← f x; ys ← mapM_outcome f l'; Ok (y :: ys)
  end.

Module MerkleAuthenticationPathV1.
Record t : Set := mk {
  leaf_index : Z;
  leaf_count : Z;
  siblings : list Hash32
}.
#[global] Instance eq_dec : EqDecision t.
Proof. solve_decision. Defined.
Definition to_tuple (x : t) :=
  (leaf_index x, (leaf_count x, siblings x)).
Definition of_tuple p : t :=
  let '(f0, (f1, f2)) := p in mk f0 f1 f2.
#[global] Instance tuple : Fields to_tuple of_tuple.
Proof. solve_fields. Qed.
#[global] Instance codec : Borsh t := struct to_tuple of_tuple
  (u32c *c u32c *c vec (bytes 32)).
#[global] Instance codec_ok : CodecOk (borsh (A:=t)).
Proof. solve_codec. Qed.
End MerkleAuthenticationPathV1.

Module MerkleTree.
Record t : Set := mk {
  kind : TreeKind.t;
  leaf_count : Z;
  layers : list (list Hash32)
}.

Section tree.
Context `{Host}.

(** The depth bounds the iterations of the [while] loop, which halves the
    layer. *)
Definition new (kind : TreeKind.t) (leaves : list Hash32) : outcome t :=
  leaf_count ← to_u32 (length leaves);
  let width := width_of (length leaves) in
  padding ← mapM_outcome (empty_leaf_hash kind) (seq (length leaves) (width - length leaves));
  layers ← grow (depth_of (length leaves)) kind 0 (leaves ++ padding);
  Ok (mk kind leaf_count layers).

(** [self.layers.last().expect(..)[0]] *)
Definition inner (x : t) : outcome Hash32 :=
  match list.last (layers x) with
  | Some layer => index_of layer 0
  | None => Err Panics
  end.

Definition root (x : t) : outcome Hash32 :=
  i ← inner x;
  Ok (root_hash (kind x) (leaf_count x) i).
End tree.

(** [siblings.push(layer[index ^ 1]); index /= 2] for every layer but the last *)
Fixpoint siblings_of (ls : list (list Hash32)) (index : nat) : outcome (list Hash32) :=
  match ls with
  | [] | [_] => Ok []
  | layer :: ls' =>
      s ← index_of layer (Nat.lxor index 1);
      rest ← siblings_of ls' (index / 2)%nat;
      Ok (s :: rest)
  end.

Definition path (x : t) (leaf_index : nat) : outcome MerkleAuthenticationPathV1.t :=
  if leaf_count x <=? Z.of_nat leaf_index then Err (Returned CheckpointArtifactError.InvalidPage)
  else
    s ← siblings_of (layers x) leaf_index;
    i ← to_u32 leaf_index;
    Ok (MerkleAuthenticationPathV1.mk i (leaf_count x) s).
End MerkleTree.

(** ** Checking a path *)

Section verify.
Context `{Host}.

(** The loop that folds the siblings into the leaf. *)
Fixpoint climb (kind : TreeKind.t) (level index : Z) (current : Hash32) (siblings : list Hash32) : Hash32 :=
  match siblings with
  | [] => current
  | sibling :: rest =>
      let parent := if index mod 2 =? 0 then node_hash kind level current sibling
                    else node_hash kind level sibling current in
      climb kind (level + 1) (index / 2) parent rest
  end.

Definition path_verify (path : MerkleAuthenticationPathV1.t) (kind : TreeKind.t) (leaf_hash expected_root : Hash32) :
    bool :=
  let '(MerkleAuthenticationPathV1.mk leaf_index leaf_count siblings) := path in
  if (leaf_count =? 0) || (leaf_count <=? leaf_index) then false
  else if negb (length siblings =? depth_of (Z.to_nat leaf_count))%nat then false
  else root_hash kind leaf_count (climb kind 0 leaf_index leaf_hash siblings) == expected_root.
End verify.

(** ** A tree's paths are accepted *)

Lemma width_of_ge n : (n ≤ width_of n)%nat.
Proof.
  unfold width_of. destruct (decide (1 < n)%nat) as [Hn|Hn]; [by apply Nat.log2_up_spec|].
  pose proof (Nat.pow_nonzero 2 (Nat.log2_up n)). lia.
Qed.

Lemma depth_of_le n : Z.of_nat n ≤ umax 32 → (depth_of n ≤ 32)%nat.
Proof.
  intros Hn. unfold depth_of. destruct (decide (n = 0)%nat) as [->|H0]; [cbn; lia|].
  apply Nat.log2_up_le_pow2; [lia|]. apply Nat2Z.inj_le. rewrite Nat2Z.inj_pow. unfold umax in Hn. lia.
Qed.

Lemma width_of_le n i : Z.of_nat n ≤ umax 32 → (i < width_of n)%nat → Z.of_nat i ≤ umax 32.
Proof.
  intros Hn Hi. pose proof (depth_of_le n Hn) as Hd. unfold width_of in Hi. fold (depth_of n) in Hi.
  assert (Z.of_nat (2 ^ depth_of n) ≤ 2 ^ 32).
  { rewrite Nat2Z.inj_pow. apply Z.pow_le_mono_r; lia. }
  unfold umax. lia.
Qed.

Lemma mapM_outcome_Ok {A B} (f : A → outcome B) l :
  (∀ x, x ∈ l → ∃ y, f x = Ok y) → ∃ ys, mapM_outcome f l = Ok ys ∧ length ys = length l.
Proof.
  induction l as [|x l IH]; intros Hf; [by exists []|].
  destruct (Hf x) as [y Hy]; [by left|]. destruct IH as (ys & Hys & Hl); [intros; apply Hf; by right|].
  exists (y :: ys). cbn. rewrite Hy. cbn. rewrite Hys. cbn. by rewrite Hl.
Qed.

Lemma list_ind2 {A} (P : list A → Prop) :
  P [] → (∀ a, P [a]) → (∀ a b l, P l → P (a :: b :: l)) → ∀ l, P l.
Proof. intros H0 H1 H2. fix F 1. intros [|a [|b l]]; [done..|]. apply H2, F. Qed.

Lemma lxor_even k : Nat.lxor (2 * k) 1 = S (2 * k).
Proof.
  change 1%nat with (2 * 0 + 1)%nat at 2. replace (S (2 * k)) with (2 * k + 1)%nat by lia.
  apply Nat.bits_inj. intros [|m]; rewrite Nat.lxor_spec.
  - by rewrite Nat.testbit_even_0, !Nat.testbit_odd_0.
  - by rewrite Nat.testbit_even_succ, !Nat.testbit_odd_succ, Nat.bits_0, xorb_false_r by lia.
Qed.

Lemma lxor_odd k : Nat.lxor (S (2 * k)) 1 = (2 * k)%nat.
Proof. by rewrite <- lxor_even, Nat.lxor_assoc, Nat.lxor_nilpotent, Nat.lxor_0_r. Qed.

Section complete.
Context `{Host} (kind : TreeKind.t).

Lemma next_layer_length level n : ∀ layer, length layer = (2 * n)%nat → length (next_layer kind level layer) = n.
Proof.
  intros layer. revert n. induction layer as [|a|a b l IH] using list_ind2; intros n Hl; cbn in *; [lia..|].
  destruct n as [|n]; [lia|]. f_equal. apply IH. lia.
Qed.

Lemma next_layer_lookup level : ∀ layer k l r,
  layer !! (2 * k)%nat = Some l → layer !! S (2 * k) = Some r →
  next_layer kind level layer !! k = Some (node_hash kind level l r).
Proof.
  intros layer. induction layer as [|a|a b rest IH] using list_ind2; intros k l r Hl Hr; [done|by rewrite lookup_cons in Hr; destruct (2 * k)%nat|].
  destruct k as [|k]; [by simplify_eq/=|]. replace (2 * S k)%nat with (S (S (2 * k))) in * by lia. cbn in *. by apply IH.
Qed.

(** The sibling at [i ^ 1] and the parent of the two. *)
Lemma sibling_parent level n layer i x :
  length layer = (2 * n)%nat → layer !! i = Some x →
  ∃ s, layer !! Nat.lxor i 1 = Some s ∧
    next_layer kind level layer !! (i / 2)%nat =
      Some (if Z.of_nat i mod 2 =? 0 then node_hash kind level x s else node_hash kind level s x).
Proof.
  intros Hlen Hx. pose proof (lookup_lt_Some _ _ _ Hx) as Hi.
  destruct (Nat.Even_or_Odd i) as [[k Hk]|[k Hk]]; subst i.
  - rewrite lxor_even. destruct (lookup_lt_is_Some_2 layer (S (2 * k))) as [s Hs]; [lia|]. exists s.
    split; [done|]. rewrite Nat.mul_comm, Nat.div_mul by lia. rewrite (next_layer_lookup _ _ _ x s) by done.
    rewrite Nat2Z.inj_mul, Z_mod_mult. done.
  - replace (2 * k + 1)%nat with (S (2 * k)) in * by lia. rewrite lxor_odd.
    destruct (lookup_lt_is_Some_2 layer (2 * k)) as [s Hs]; [lia|]. exists s. split; [done|].
    replace (S (2 * k) / 2)%nat with k by (apply Nat.div_unique with 1%nat; lia).
    rewrite (next_layer_lookup _ _ _ s x) by done. replace (Z.of_nat (S (2 * k))) with (1 + Z.of_nat k * 2) by lia.
    rewrite Z_mod_plus_full. done.
Qed.

Lemma siblings_cons layer ls i :
  ls ≠ [] → MerkleTree.siblings_of (layer :: ls) i =
    (s ← index_of layer (Nat.lxor i 1); rest ← MerkleTree.siblings_of ls (i / 2)%nat; Ok (s :: rest)).
Proof. by destruct ls. Qed.

(** From a layer of [2 ^ d] hashes the loop ends after [d] rounds, and the
    siblings collected on the way up fold every hash of the layer to the top. *)
Lemma grow_complete d : ∀ level layer,
  length layer = (2 ^ d)%nat → 0 ≤ level → level + Z.of_nat d ≤ umax 32 →
  ∃ layers top, grow d kind level layer = Ok layers ∧ length layers = S d ∧ list.last layers = Some [top] ∧
    ∀ i x, layer !! i = Some x → ∃ sibs, MerkleTree.siblings_of layers i = Ok sibs ∧ length sibs = d ∧
      climb kind level (Z.of_nat i) x sibs = top.
Proof.
  induction d as [|d IH]; intros level layer Hlen Hlv Hmax.
  - destruct layer as [|top [|]]; try discriminate. exists [[top]], top. split_and!; try done.
    intros [|i] x Hx; simplify_eq/=. by exists [].
  - rewrite Nat.pow_succ_r' in Hlen. pose proof (Nat.pow_nonzero 2 d) as Hp.
    destruct (IH (level + 1) (next_layer kind level layer)) as (ls & top & Hg & Hl & Hlast & Hall);
      [by apply next_layer_length|lia|lia|].
    exists (layer :: ls), top. cbn [grow]. destruct (Nat.leb_spec (length layer) 1); [lia|].
    unfold checked_add. destruct (Z.leb_spec (level + 1) (umax 32)); [|lia]. cbn [mbind result_bind].
    rewrite Hg. split; [done|]. split; [cbn; by rewrite Hl|]. split; [destruct ls; [done|by rewrite list.last_cons, Hlast]|].
    intros i x Hx. destruct (sibling_parent level _ _ _ _ Hlen Hx) as (s & Hs & Hnext).
    destruct (Hall _ _ Hnext) as (sibs & Hsib & Hsl & Hc). exists (s :: sibs).
    split; [|split; [cbn; by rewrite Hsl|cbn [climb]; by rewrite Nat2Z.inj_div in Hc]].
    rewrite siblings_cons by (by destruct ls). unfold index_of. rewrite Hs. cbn [mbind result_bind]. by rewrite Hsib.
Qed.

Lemma to_u32_Ok n : Z.of_nat n ≤ umax 32 → to_u32 n = Ok (Z.of_nat n).
Proof. intros. unfold to_u32. destruct (Z.leb_spec (Z.of_nat n) (umax 32)); [done|lia]. Qed.

(** A tree over at most [2 ^ 32 - 1] leaves is built, and its layers lead from
    every leaf to the top. *)
Lemma tree_complete leaves :
  Z.of_nat (length leaves) ≤ umax 32 →
  ∃ ls top, MerkleTree.new kind leaves = Ok (MerkleTree.mk kind (Z.of_nat (length leaves)) ls) ∧
    list.last ls = Some [top] ∧
    ∀ i x, leaves !! i = Some x → ∃ sibs, MerkleTree.siblings_of ls i = Ok sibs ∧
      length sibs = depth_of (length leaves) ∧ climb kind 0 (Z.of_nat i) x sibs = top.
Proof.
  intros Hn. pose proof (width_of_ge (length leaves)) as Hw.
  destruct (mapM_outcome_Ok (empty_leaf_hash kind) (seq (length leaves) (width_of (length leaves) - length leaves)))
    as (pad & Hpad & Hpl).
  { intros j Hj%elem_of_seq. unfold empty_leaf_hash. rewrite to_u32_Ok by (apply (width_of_le (length leaves)); [done|lia]).
    eexists. reflexivity. }
  rewrite length_seq in Hpl.
  destruct (grow_complete (depth_of (length leaves)) 0 (leaves ++ pad)) as (ls & top & Hg & _ & Hlast & Hall).
  { rewrite length_app, Hpl. unfold width_of, depth_of in *. lia. }
  { lia. }
  { pose proof (depth_of_le _ Hn). unfold umax. lia. }
  exists ls, top. split; [|split; [done|]].
  - unfold MerkleTree.new. rewrite to_u32_Ok by done. cbn [mbind result_bind]. rewrite Hpad. cbn [mbind result_bind].
    by rewrite Hg.
  - intros i x Hx. apply Hall. rewrite lookup_app_l; [done|by eapply lookup_lt_Some].
Qed.

(** Every leaf of a tree has a path, and the tree's root accepts it. *)
Lemma path_complete leaves i x :
  Z.of_nat (length leaves) ≤ umax 32 → leaves !! i = Some x →
  ∃ t r sibs, MerkleTree.new kind leaves = Ok t ∧ MerkleTree.root t = Ok r ∧
    MerkleTree.path t i = Ok (MerkleAuthenticationPathV1.mk (Z.of_nat i) (Z.of_nat (length leaves)) sibs) ∧
    length sibs = depth_of (length leaves) ∧
    r = root_hash kind (Z.of_nat (length leaves)) (climb kind 0 (Z.of_nat i) x sibs).
Proof.
  intros Hn Hx. pose proof (lookup_lt_Some _ _ _ Hx) as Hi.
  destruct (tree_complete leaves Hn) as (ls & top & Hnew & Hlast & Hall). destruct (Hall i x Hx) as (sibs & Hs & Hsl & Hc).
  eexists _, _, sibs. split; [done|]. unfold MerkleTree.root, MerkleTree.inner, MerkleTree.path. cbn. rewrite Hlast. cbn.
  split; [done|]. destruct (Z.leb_spec (Z.of_nat (length leaves)) (Z.of_nat i)); [lia|].
  rewrite Hs. cbn. rewrite to_u32_Ok by lia. cbn. by rewrite Hc.
Qed.

Lemma path_verify_iff i n sibs x r :
  path_verify (MerkleAuthenticationPathV1.mk (Z.of_nat i) (Z.of_nat n) sibs) kind x r = true ↔
  (i < n)%nat ∧ length sibs = depth_of n ∧ r = root_hash kind (Z.of_nat n) (climb kind 0 (Z.of_nat i) x sibs).
Proof.
  unfold path_verify. rewrite Nat2Z.id. destruct (Z.eqb_spec (Z.of_nat n) 0); cbn [orb]; [split; [done|lia]|].
  destruct (Z.leb_spec (Z.of_nat n) (Z.of_nat i)); [split; [done|lia]|].
  destruct (Nat.eqb_spec (length sibs) (depth_of n)); cbn [negb]; [|split; [done|tauto]].
  rewrite bool_decide_eq_true. split; [intros <-; split_and!; [lia|done|done]|by intros (_ & _ & ->)].
Qed.

(** The root accepts every path the tree gives. *)
Lemma path_accepted leaves t r i x p :
  MerkleTree.new kind leaves = Ok t → MerkleTree.root t = Ok r → leaves !! i = Some x → MerkleTree.path t i = Ok p →
  path_verify p kind x r = true ∧ MerkleAuthenticationPathV1.leaf_index p = Z.of_nat i ∧
  MerkleAuthenticationPathV1.leaf_count p = Z.of_nat (length leaves).
Proof.
  intros Hnew Hr Hx Hp. assert (Hn : Z.of_nat (length leaves) ≤ umax 32).
  { unfold MerkleTree.new, to_u32 in Hnew. by destruct (Z.leb_spec (Z.of_nat (length leaves)) (umax 32)). }
  destruct (path_complete leaves i x Hn Hx) as (t' & r' & sibs & Hnew' & Hr' & Hp' & Hl & ->).
  assert (t = t') as -> by congruence. rewrite Hp' in Hp. injection Hp as <-. rewrite Hr' in Hr. injection Hr as <-.
  split; [|done]. apply path_verify_iff. split_and!; [by eapply lookup_lt_Some|done|done].
Qed.
End complete.

(** ** Everything in a tree is a hash *)

Section sizes.
Context `{HostLaws} (kind : TreeKind.t).

Lemma typed_hash_length label bs : length (typed_hash kind label bs) = 32%nat.
Proof. apply sha256_length. Qed.

Lemma root_hash_length n x : length (root_hash kind n x) = 32%nat.
Proof. unfold root_hash. destruct (TreeKind.root_is_field kind); [rewrite mask_root_length|]; apply sha256_length. Qed.

Lemma next_layer_hashes level layer : Forall (λ h, length h = 32%nat) (next_layer kind level layer).
Proof.
  induction layer as [|a|a b l IH] using list_ind2; cbn; [constructor..|]. constructor; [apply sha256_length|done].
Qed.

Lemma grow_hashes fuel : ∀ level layer layers,
  Forall (λ h, length h = 32%nat) layer → grow fuel kind level layer = Ok layers →
  Forall (Forall (λ h, length h = 32%nat)) layers.
Proof.
  induction fuel as [|fuel IH]; intros level layer layers Hl Hg; cbn in Hg; case_match; try done;
    try (injection Hg as <-; by repeat constructor).
  apply result_bind_Ok in Hg as (l & _ & Hg). apply result_bind_Ok in Hg as (ls & Hg & [= <-]).
  constructor; [done|]. eapply IH; [apply next_layer_hashes|done].
Qed.

Lemma siblings_hashes layers : ∀ i sibs,
  Forall (Forall (λ h, length h = 32%nat)) layers → MerkleTree.siblings_of layers i = Ok sibs →
  Forall (λ h, length h = 32%nat) sibs ∧ length sibs = pred (length layers).
Proof.
  induction layers as [|layer layers IH]; intros i sibs Hf Hs; [by injection Hs as <-|].
  apply list.Forall_cons in Hf as [Hl Hf]. destruct layers as [|l ls]; [by injection Hs as <-|].
  rewrite siblings_cons in Hs by done. apply result_bind_Ok in Hs as (s & Hx & Hs). apply result_bind_Ok in Hs as (rest & Hr & [= <-]).
  destruct (IH _ _ Hf Hr) as [Hfr Hlr]. unfold index_of in Hx. destruct (layer !! _) eqn:E; [|done]. injection Hx as <-.
  split; [constructor; [by apply (Forall_lookup_1 _ _ _ _ Hl E)|done]|cbn in *; by rewrite Hlr].
Qed.

(** The paths of a tree over hashes fit their encoding. *)
Lemma path_wf leaves t i p :
  Forall (λ h, length h = 32%nat) leaves →
  MerkleTree.new kind leaves = Ok t → MerkleTree.path t i = Ok p →
  wf borsh p ∧ (length (MerkleAuthenticationPathV1.siblings p) ≤ 32)%nat.
Proof.
  intros Hf Hnew Hp. assert (Hn : Z.of_nat (length leaves) ≤ umax 32).
  { unfold MerkleTree.new, to_u32 in Hnew. by destruct (Z.leb_spec (Z.of_nat (length leaves)) (umax 32)). }
  destruct (tree_complete kind leaves Hn) as (ls & top & Hnew' & _ & Hall). rewrite Hnew' in Hnew. injection Hnew as <-.
  unfold MerkleTree.path in Hp. cbn in Hp. destruct (Z.leb_spec (Z.of_nat (length leaves)) (Z.of_nat i)); [done|].
  apply result_bind_Ok in Hp as (sibs & Hs & Hp). rewrite to_u32_Ok in Hp by lia. injection Hp as <-.
  destruct (lookup_lt_is_Some_2 leaves i) as [x Hx]; [lia|]. destruct (Hall i x Hx) as (sibs' & Hs' & Hl & _).
  assert (sibs' = sibs) as -> by congruence. pose proof (depth_of_le _ Hn).
  unfold MerkleTree.new in Hnew'. apply result_bind_Ok in Hnew' as (n & _ & Hnew). apply result_bind_Ok in Hnew as (pad & Hpad & Hnew).
  apply result_bind_Ok in Hnew as (ls' & Hg & [= _ ->]). apply grow_hashes in Hg.
  - destruct (siblings_hashes _ _ _ Hg Hs) as [Hsf _]. split; [|cbn; lia].
    split; [change (in_width 32 (Z.of_nat i)); unfold in_width; lia|].
    split; [change (in_width 32 (Z.of_nat (length leaves))); unfold in_width; lia|].
    split; [cbn; unfold umax; lia|]. by split.
  - apply Forall_app. split; [done|]. clear - Hpad H0. revert pad Hpad.
    induction (seq _ _) as [|j js IH]; intros pad Hpad; cbn in Hpad; [by injection Hpad as <-|].
    apply result_bind_Ok in Hpad as (h & Hh & Hpad). apply result_bind_Ok in Hpad as (hs & Hhs & [= <-]).
    constructor; [|by apply IH]. apply result_bind_Ok in Hh as (z & _ & [= <-]). apply sha256_length.
Qed.
End sizes.

(** ** A path determines its leaf *)

Section binding.
Context `{HostLaws} (kind : TreeKind.t).

(** The messages hashed on the way up, and at the root. *)
Definition node_message (level : Z) (left right : Hash32) : list byte :=
  concat [CHECKPOINT_HASH_DOMAIN_V1; TreeKind.tag kind; str "node"; le_bytes 4 level; left; right].
Definition root_message (leaf_count : Z) (inner : Hash32) : list byte :=
  concat [CHECKPOINT_HASH_DOMAIN_V1; TreeKind.tag kind; str "root"; le_bytes 4 leaf_count; inner].
Fixpoint climb_messages (level index : Z) (current : Hash32) (siblings : list Hash32) : list (list byte) :=
  match siblings with
  | [] => []
  | sibling :: rest =>
      let message := if index mod 2 =? 0 then node_message level current sibling
                     else node_message level sibling current in
      message :: climb_messages (level + 1) (index / 2) (sha256 message) rest
  end.

(** Two different messages at the same place with the same hash. *)
Definition collision_in (l1 l2 : list (list byte)) : Prop :=
  ∃ m m', (m, m') ∈ zip l1 l2 ∧ m ≠ m' ∧ sha256 m = sha256 m'.

Lemma collision_cons m m' l1 l2 : collision_in l1 l2 → collision_in (m :: l1) (m' :: l2).
Proof. intros (a & b & Hin & Hne). exists a, b. split; [|done]. cbn. by right. Qed.

Lemma collision_here m m' l1 l2 : m ≠ m' → sha256 m = sha256 m' → collision_in (m :: l1) (m' :: l2).
Proof. intros. exists m, m'. split; [|done]. cbn. by left. Qed.

Lemma collision_app l1 l2 k1 k2 :
  length l1 = length l2 → collision_in l1 l2 ∨ collision_in k1 k2 → collision_in (l1 ++ k1) (l2 ++ k2).
Proof.
  intros Hl Hc. unfold collision_in. setoid_rewrite zip_with_app; [|done].
  setoid_rewrite elem_of_app. destruct Hc as [(m & m' & ? & ?)|(m & m' & ? & ?)]; exists m, m'; auto.
Qed.

Lemma climb_unfold level index x s rest :
  climb kind level index x (s :: rest) =
    climb kind (level + 1) (index / 2)
      (sha256 (if index mod 2 =? 0 then node_message level x s else node_message level s x)) rest.
Proof. cbn [climb]. unfold node_hash, hashv, node_message. by destruct (index mod 2 =? 0). Qed.

Lemma length_climb_messages level index x sibs : length (climb_messages level index x sibs) = length sibs.
Proof. revert level index x. induction sibs as [|s sibs IH]; intros; cbn; [done|]. by rewrite IH. Qed.

Lemma node_message_inj level a b a' b' :
  length a = length a' → node_message level a b = node_message level a' b' → a = a' ∧ b = b'.
Proof.
  intros Hl. unfold node_message. cbn [concat]. intros He. do 4 apply app_inv_head in He.
  apply app_inj_len in He as [-> He]; [|done]. rewrite !app_nil_r in He. done.
Qed.

Lemma root_message_inj n a a' : root_message n a = root_message n a' → a = a'.
Proof.
  unfold root_message. cbn [concat]. intros He. do 4 apply app_inv_head in He. by rewrite !app_nil_r in He.
Qed.

Lemma climb_binds sibs1 : ∀ sibs2 level index x y,
  length sibs1 = length sibs2 → length x = 32%nat → length y = 32%nat → Forall (λ s, length s = 32%nat) sibs1 → Forall (λ s, length s = 32%nat) sibs2 →
  climb kind level index x sibs1 = climb kind level index y sibs2 →
  x = y ∨ collision_in (climb_messages level index x sibs1) (climb_messages level index y sibs2).
Proof.
  induction sibs1 as [|s1 sibs1 IH]; intros [|s2 sibs2] level index x y Hl Hx Hy Hf1 Hf2 He; try discriminate; [by left|].
  apply list.Forall_cons in Hf1 as [Hs1 Hf1], Hf2 as [Hs2 Hf2]. injection Hl as Hl.
  rewrite !climb_unfold in He. cbn [climb_messages].
  set (m1 := if index mod 2 =? 0 then node_message level x s1 else node_message level s1 x) in *.
  set (m2 := if index mod 2 =? 0 then node_message level y s2 else node_message level s2 y) in *.
  apply IH in He as [He|He]; [|right; by apply collision_cons|done|apply sha256_length..|done|done].
  destruct (decide (m1 = m2)) as [E|E]; [left|right; by apply collision_here].
  subst m1 m2. destruct (index mod 2 =? 0); apply node_message_inj in E; (congruence || tauto).
Qed.

(** A whole path, from the leaf to the root. *)
Lemma root_binds n sibs1 sibs2 index x y :
  TreeKind.root_is_field kind = false →
  length sibs1 = length sibs2 → length x = 32%nat → length y = 32%nat → Forall (λ s, length s = 32%nat) sibs1 → Forall (λ s, length s = 32%nat) sibs2 →
  root_hash kind n (climb kind 0 index x sibs1) = root_hash kind n (climb kind 0 index y sibs2) →
  x = y ∨ collision_in (climb_messages 0 index x sibs1 ++ [root_message n (climb kind 0 index x sibs1)])
                       (climb_messages 0 index y sibs2 ++ [root_message n (climb kind 0 index y sibs2)]).
Proof.
  intros Hk Hl Hx Hy Hf1 Hf2. unfold root_hash. rewrite Hk. unfold hashv. fold (root_message n (climb kind 0 index x sibs1)).
  fold (root_message n (climb kind 0 index y sibs2)). intros He.
  destruct (decide (climb kind 0 index x sibs1 = climb kind 0 index y sibs2)) as [E|E].
  - apply climb_binds in E as [->|E]; [by left| |done..]. right. apply collision_app; [by rewrite !length_climb_messages|by left].
  - right. apply collision_app; [by rewrite !length_climb_messages|]. right. apply collision_here; [|done].
    by intros ?%root_message_inj.
Qed.
End binding.
