(* ===== verification/StepProof.v ===== *)
(** * What a challenge checks (portal/src/instructions/checkpoint.rs, lines 377-623 and 1612-1730)

    The Portal's authentication paths for states and transaction effects, the
    digest that binds a step proof to its challenge, the session context and the
    choice of verifier.  The hashing of the two paths is the one of the
    validator's Merkle trees (Merkle.v): [verify_trace_authentication_path] and
    [verify_tx_effect_authentication_path] repeat it with the tags "trace" and
    "transaction-effect".

    [trace_path_binds_state], [tx_effect_path_binds_leaf]: against one checkpoint
    only one state root is accepted per index, and one transaction effect, unless
    SHA-256 collides on the messages hashed.  That the validator's own paths are
    accepted is [portal_accepts_artifact_paths] of Artifact.v. *)

From Stdlib Require Import ZArith Lia.
From Stdlib Require Import Strings.Byte.
From stdpp Require Import base gmap list numbers.
From S2P Require Import Prelude Borsh Events Runtime State Commitments Toy Instruction Verifier Merkle.

(** [u32::next_power_of_two] (wrapping to 0 above [2 ^ 31]) and
    [u32::trailing_zeros]. *)
Definition u32_next_power_of_two (n : Z) : Z :=
  let p := 2 ^ Z.log2_up n in if p <=? umax 32 then p else 0.
Definition u32_trailing_zeros (n : Z) : Z := if n =? 0 then 32 else Z.log2 (Z.land n (- n)).

(** The number of siblings a path in a tree of [leaf_count] leaves has. *)
Definition expected_depth (leaf_count : Z) : nat :=
  Z.to_nat (u32_trailing_zeros (u32_next_power_of_two (Z.max leaf_count 1))).

Section paths.
Context `{Host}.

(** [path_len] is right and the rest of the array is zero; [None] where slicing
    the array panics. *)
Definition path_shape (leaf_count path_len : Z) (path : list Hash32) : option bool :=
  let depth := expected_depth leaf_count in
  if negb (path_len =? Z.of_nat depth) then Some false
  else if (length path <? depth)%nat then None
  else Some (negb (existsb (λ node, node != zero32) (drop depth path))).

Definition trace_leaf (state_index : Z) (state_root : Hash32) : Hash32 :=
  hashv [str "northstar-checkpoint-v1"; str "trace"; str "leaf"; le_bytes 8 36; le_bytes 4 state_index; state_root].

Definition verify_trace_authentication_path (checkpoint : Checkpoint.t) (state_index : Z) (state_root : Hash32)
    (path_len : Z) (path : list Hash32) : option bool :=
  let leaf_count := u64_saturating_add (Checkpoint.step_count checkpoint) 1 in
  if umax 32 <? state_index then Some false
  else if umax 32 <? leaf_count then Some false
  else if leaf_count <=? state_index then Some false
  else
    ok ← path_shape leaf_count path_len path;
    if negb ok then Some false
    else
      let current := climb TreeKind.Trace 0 state_index (trace_leaf state_index state_root)
                       (take (expected_depth leaf_count) path) in
      Some (root_hash TreeKind.Trace leaf_count current == Checkpoint.trace_root checkpoint).

Definition verify_tx_effect_authentication_path (checkpoint : Checkpoint.t) (step_index : Z) (leaf : Hash32)
    (path_len : Z) (path : list Hash32) : option bool :=
  let leaf_count := Checkpoint.step_count checkpoint in
  if leaf_count <=? step_index then Some false
  else if umax 32 <? leaf_count then Some false
  else
    ok ← path_shape leaf_count path_len path;
    if negb ok then Some false
    else
      let current := climb TreeKind.TransactionEffect 0 step_index leaf (take (expected_depth leaf_count) path) in
      Some (root_hash TreeKind.TransactionEffect leaf_count current == Checkpoint.tx_effect_root checkpoint).

Definition verify_step_tx_effect_binding (ft : Features) (checkpoint : Checkpoint.t) (step_index : Z)
    (proof_kind proof_version : Z) (commitment : Hash32) (path_len : Z) (path : list Hash32) : option bool :=
  if zk_verifier_bounded_vrf ft && (proof_kind =? ER_STEP_PROOF_KIND_BOUNDED_VRF) then
    Some ((proof_version =? ER_STEP_PROOF_VERSION_V1)
          && (Checkpoint.step_count checkpoint =? bounded_vrf_checkpoint_steps)
          && (step_index <? Checkpoint.step_count checkpoint)
          && (commitment == Checkpoint.tx_effect_root checkpoint)
          && is_ok_fr commitment
          && (commitment != zero32)
          && (path_len =? 0)
          && forallb (λ node, node == zero32) path)
  else verify_tx_effect_authentication_path checkpoint step_index commitment path_len path.

(** ** Binding digests *)

Definition step_proof_public_input_hash (program_id session_key checkpoint_key : Address)
    (checkpoint_state : Checkpoint.t) (challenge_state : Challenge.t) (proof_state : StepProofAccount.t) : Hash32 :=
  hashv [str "northstar-er-step-v1"; program_id; session_key; checkpoint_key;
         le_bytes 1 (StepProofAccount.proof_kind proof_state);
         le_bytes 1 (StepProofAccount.proof_version proof_state);
         le_bytes 8 (Checkpoint.er_slot checkpoint_state);
         le_bytes 8 (Challenge.start_step challenge_state);
         StepProofAccount.session_context proof_state;
         Challenge.start_state_root challenge_state;
         Challenge.end_state_root challenge_state;
         StepProofAccount.tx_effect_root proof_state;
         StepProofAccount.readonly_l1_root proof_state;
         StepProofAccount.settlement_effect_root proof_state].

(** [poseidon_fields] is the host's. *)
Definition poseidon_fields (inputs : list (list byte)) : option Hash32 := poseidon inputs.

(** The 149 bytes of the context. *)
Definition context_bytes (program_id session_key : Address) (session : Session.t) : list byte :=
  concat [str "northstar-session-context-v1"; program_id; session_key; le_bytes 8 (Session.grid_id session);
          le_bytes 16 (Session.nonce session); Session.validator session; [x01]].

(** A chunk right-aligned in a field. *)
Definition field_of (chunk : list byte) : Hash32 := zeros (32 - length chunk) ++ chunk.

Definition session_context_v1 (program_id session_key : Address) (session : Session.t) : option Hash32 :=
  let context := context_bytes program_id session_key session in
  let chunks := (λ k, slice context (31 * k) 31) <$> seq 0 5 in
  poseidon_fields
    ([field_of (be_bytes 8 0x100); field_of (be_bytes 8 0x10a); field_of (be_bytes 8 149)] ++ (field_of <$> chunks)).
End paths.

(** ** Verifying the proof of a step *)

Inductive StepProofVerification : Set := Valid | Invalid | Unavailable.

#[global] Instance step_proof_verification_eq_dec : EqDecision StepProofVerification.
Proof. solve_decision. Defined.

Section verify.
Context `{Host, Groth16} (ft : Features).

Definition bounded_vrf_checkpoint_binding (checkpoint : Checkpoint.t) (challenge : Challenge.t)
    (proof : StepProofAccount.t) : bool :=
  (Checkpoint.step_count checkpoint =? bounded_vrf_checkpoint_steps)
  && (StepProofAccount.tx_effect_root proof == Checkpoint.tx_effect_root checkpoint)
  && (StepProofAccount.step_index proof =? Challenge.start_step challenge)
  && (StepProofAccount.step_index proof <? Checkpoint.step_count checkpoint)
  && (StepProofAccount.readonly_l1_root proof == Checkpoint.readonly_l1_root checkpoint)
  && (StepProofAccount.settlement_effect_root proof == Checkpoint.effect_commitment checkpoint).

(** The six values that must be field elements. *)
Definition step_fields (challenge : Challenge.t) (proof : StepProofAccount.t) : list Hash32 :=
  [StepProofAccount.session_context proof; Challenge.start_state_root challenge; Challenge.end_state_root challenge;
   StepProofAccount.tx_effect_root proof; StepProofAccount.readonly_l1_root proof;
   StepProofAccount.settlement_effect_root proof].

Definition step_public_inputs (checkpoint : Checkpoint.t) (challenge : Challenge.t) (proof : StepProofAccount.t) :
    ErStepPublicInputsV1.t :=
  step_statement (StepProofAccount.proof_kind proof) (StepProofAccount.proof_version proof)
    (Checkpoint.er_slot checkpoint) (StepProofAccount.step_index proof) (StepProofAccount.session_context proof)
    (Challenge.start_state_root challenge) (Challenge.end_state_root challenge) (StepProofAccount.tx_effect_root proof)
    (StepProofAccount.readonly_l1_root proof) (StepProofAccount.settlement_effect_root proof).

Definition verify_step_proof_production (checkpoint_state : Checkpoint.t) (challenge_state : Challenge.t)
    (proof_state : StepProofAccount.t) : StepProofVerification :=
  if negb (zk_verifier_prototype ft) then Unavailable
  else if zk_verifier_bounded_vrf ft && (StepProofAccount.proof_kind proof_state =? ER_STEP_PROOF_KIND_BOUNDED_VRF)
          && negb (bounded_vrf_checkpoint_binding checkpoint_state challenge_state proof_state) then Invalid
  else if negb (forallb is_ok_fr (step_fields challenge_state proof_state)) then Invalid
  else
    let public_input_bytes := statement_bytes (step_public_inputs checkpoint_state challenge_state proof_state) in
    if negb (StepProofAccount.written_len proof_state =? MAX_STEP_PROOF_BYTES) then Invalid
    else if is_ok (verify_er_step_proof_v1 ft (StepProofAccount.data proof_state) public_input_bytes) then Valid
    else Invalid.

Definition verify_step_proof_test_only (proof_state : StepProofAccount.t) : StepProofVerification :=
  if test_verifier ft then
    match StepProofAccount.data proof_state with
    | x02 :: _ => Valid
    | x01 :: _ => Invalid
    | _ => Unavailable
    end
  else Unavailable.

Definition verify_step_proof (verifier_mode : StepProofVerifierMode.t) (checkpoint_state : Checkpoint.t)
    (challenge_state : Challenge.t) (proof_state : StepProofAccount.t) : StepProofVerification :=
  match verifier_mode with
  | StepProofVerifierMode.Production => verify_step_proof_production checkpoint_state challenge_state proof_state
  | StepProofVerifierMode.TestOnly => verify_step_proof_test_only proof_state
  end.
End verify.

(** ** Paths *)

Lemma trailing_zeros_pow2 k : 0 ≤ k → u32_trailing_zeros (2 ^ k) = k.
Proof.
  intros Hk. unfold u32_trailing_zeros. pose proof (Z.pow_pos_nonneg 2 k). destruct (Z.eqb_spec (2 ^ k) 0); [lia|].
  replace (- 2 ^ k) with (Z.lnot (Z.ones k)) by (unfold Z.lnot; rewrite Z.ones_equiv; lia).
  rewrite <- Z.ldiff_land, Z.ldiff_ones_r by done. rewrite Z.shiftr_div_pow2, Z.div_same, Z.shiftl_1_l by lia.
  by apply Z.log2_pow2.
Qed.

Lemma log2_up_nat n : Z.log2_up (Z.of_nat n) = Z.of_nat (Nat.log2_up n).
Proof.
  destruct (decide (1 < n)%nat) as [Hn|Hn].
  - destruct (Nat.log2_up_spec n Hn) as [Hlo Hhi]. pose proof (Nat.log2_up_pos n Hn).
    apply Z.log2_up_unique; [lia|]. split.
    + replace (Z.pred (Z.of_nat (Nat.log2_up n))) with (Z.of_nat (pred (Nat.log2_up n))) by lia.
      rewrite <- (Nat2Z.inj_pow 2). lia.
    + rewrite <- (Nat2Z.inj_pow 2). lia.
  - by destruct n as [|[|]]; [..|lia].
Qed.

(** The Portal and the validator agree on the depth of a tree. *)
Lemma expected_depth_of n : Z.of_nat n ≤ 2 ^ 31 → expected_depth (Z.of_nat n) = depth_of n.
Proof.
  intros Hn. unfold expected_depth, u32_next_power_of_two, depth_of.
  assert (Hm : Z.log2_up (Z.max (Z.of_nat n) 1) = Z.of_nat (Nat.log2_up n)).
  { destruct n as [|n]; [done|]. rewrite Z.max_l by lia. apply log2_up_nat. }
  rewrite Hm. assert (Z.of_nat (Nat.log2_up n) ≤ 31).
  { rewrite <- log2_up_nat. destruct n as [|n]; [done|]. apply Z.log2_up_le_pow2; lia. }
  destruct (Z.leb_spec (2 ^ Z.of_nat (Nat.log2_up n)) (umax 32)) as [|Hbad].
  - rewrite trailing_zeros_pow2 by lia. lia.
  - assert (2 ^ Z.of_nat (Nat.log2_up n) ≤ 2 ^ 31) by (apply Z.pow_le_mono_r; lia). unfold umax in Hbad. lia.
Qed.

Lemma path_shape_true n len path :
  path_shape n len path = Some true →
  len = Z.of_nat (expected_depth n) ∧ (expected_depth n ≤ length path)%nat ∧
  Forall (.= zero32) (drop (expected_depth n) path).
Proof.
  unfold path_shape. destruct (Z.eqb_spec len (Z.of_nat (expected_depth n))); cbn [negb]; [|done].
  destruct (Nat.ltb_spec (length path) (expected_depth n)); [done|]. intros [= Hx]. split_and!; [done|done|].
  apply negb_true_iff in Hx. induction (drop _ path) as [|h l IH]; [done|]. cbn in Hx. apply orb_false_iff in Hx as [Hh Hl].
  bprop. constructor; auto.
Qed.

Section binding.
Context `{HostLaws}.

(** The messages hashed for a state, from its leaf to the root. *)
Definition trace_messages (n i : Z) (r : Hash32) (path : list Hash32) : list (list byte) :=
  let siblings := take (expected_depth n) path in
  concat [str "northstar-checkpoint-v1"; str "trace"; str "leaf"; le_bytes 8 36; le_bytes 4 i; r]
  :: climb_messages TreeKind.Trace 0 i (trace_leaf i r) siblings
  ++ [root_message TreeKind.Trace n (climb TreeKind.Trace 0 i (trace_leaf i r) siblings)].

Definition tx_effect_messages (n i : Z) (leaf : Hash32) (path : list Hash32) : list (list byte) :=
  let siblings := take (expected_depth n) path in
  climb_messages TreeKind.TransactionEffect 0 i leaf siblings
  ++ [root_message TreeKind.TransactionEffect n (climb TreeKind.TransactionEffect 0 i leaf siblings)].

Lemma verify_trace_true c i r len path :
  verify_trace_authentication_path c i r len path = Some true →
  let n := u64_saturating_add (Checkpoint.step_count c) 1 in
  i < n ∧ n ≤ umax 32 ∧ path_shape n len path = Some true ∧
  root_hash TreeKind.Trace n (climb TreeKind.Trace 0 i (trace_leaf i r) (take (expected_depth n) path))
    = Checkpoint.trace_root c.
Proof.
  unfold verify_trace_authentication_path. repeat case_match; try done; bprop. intros Hr.
  destruct (path_shape _ _ _) as [[]|] eqn:Hs; [|done..]. cbn in Hr. injection Hr as Hr. bprop. by split_and!.
Qed.

Lemma verify_tx_effect_true c i leaf len path :
  verify_tx_effect_authentication_path c i leaf len path = Some true →
  let n := Checkpoint.step_count c in
  i < n ∧ n ≤ umax 32 ∧ path_shape n len path = Some true ∧
  root_hash TreeKind.TransactionEffect n (climb TreeKind.TransactionEffect 0 i leaf (take (expected_depth n) path))
    = Checkpoint.tx_effect_root c.
Proof.
  unfold verify_tx_effect_authentication_path. repeat case_match; try done; bprop. intros Hr.
  destruct (path_shape _ _ _) as [[]|] eqn:Hs; [|done..]. cbn in Hr. injection Hr as Hr. bprop. by split_and!.
Qed.

(** C35: against one checkpoint and at one state index the
    Portal accepts only one state root: if two are accepted, with whatever
    paths, they are equal, or two of the messages hashed at the same height are a
    SHA-256 collision. *)
Theorem trace_path_binds_state c i r1 r2 len1 len2 p1 p2 :
  Forall (λ h, length h = 32%nat) (r1 :: r2 :: p1 ++ p2) →
  verify_trace_authentication_path c i r1 len1 p1 = Some true →
  verify_trace_authentication_path c i r2 len2 p2 = Some true →
  let n := u64_saturating_add (Checkpoint.step_count c) 1 in
  r1 = r2 ∨ collision_in (trace_messages n i r1 p1) (trace_messages n i r2 p2).
Proof.
  rewrite !list.Forall_cons, Forall_app. intros (Hr1 & Hr2 & Hp1 & Hp2) (_ & _ & [_ [Hl1 _]]%path_shape_true & H1)%verify_trace_true
    (_ & _ & [_ [Hl2 _]]%path_shape_true & H2)%verify_trace_true. cbv zeta. rewrite <- H2 in H1. unfold trace_messages.
  set (n := u64_saturating_add _ 1) in *.
  apply root_binds in H1 as [E|E]; [|right; by apply collision_cons|done|rewrite !length_take; lia|apply sha256_length..| |].
  - unfold trace_leaf, hashv in E. destruct (decide (r1 = r2)) as [|Hne]; [by left|right].
    apply collision_here; [|done]. cbn [concat]. intros He. do 5 apply app_inv_head in He. by rewrite !app_nil_r in He.
  - by apply Forall_take.
  - by apply Forall_take.
Qed.

(** The same for the transaction effects a step
    proof may name: one commitment per step, or a SHA-256 collision. *)
Theorem tx_effect_path_binds_leaf c i x y len1 len2 p1 p2 :
  Forall (λ h, length h = 32%nat) (x :: y :: p1 ++ p2) →
  verify_tx_effect_authentication_path c i x len1 p1 = Some true →
  verify_tx_effect_authentication_path c i y len2 p2 = Some true →
  let n := Checkpoint.step_count c in
  x = y ∨ collision_in (tx_effect_messages n i x p1) (tx_effect_messages n i y p2).
Proof.
  rewrite !list.Forall_cons, Forall_app. intros (Hr1 & Hr2 & Hp1 & Hp2)
    (_ & _ & [_ [Hl1 _]]%path_shape_true & H1)%verify_tx_effect_true
    (_ & _ & [_ [Hl2 _]]%path_shape_true & H2)%verify_tx_effect_true. cbv zeta. rewrite <- H2 in H1.
  apply root_binds in H1; [done|done|rewrite !length_take; lia|done|done|by apply Forall_take..].
Qed.
End binding.

(** ** Example

    A checkpoint of one step from state 61 to state 62 with effect 70. *)

Module StepProofExample.
Definition leaf0 : Hash32 := Eval vm_compute in trace_leaf 0 (key 61).
Definition leaf1 : Hash32 := Eval vm_compute in trace_leaf 1 (key 62).
Definition trace_root : Hash32 := Eval vm_compute in
  root_hash TreeKind.Trace 2 (climb TreeKind.Trace 0 1 leaf1 [leaf0]).
Definition effect_root : Hash32 := Eval vm_compute in root_hash TreeKind.TransactionEffect 1 (key 70).
Definition checkpoint : Checkpoint.t :=
  Checkpoint.mk Checkpoint.DISCRIMINATOR (key 3) 40 1 (key 61) (key 62) trace_root effect_root (key 26) (key 27) (key 28)
    (key 2) 105 110 CheckpointStatus.Pending 1000000 CheckpointBondStatus.Locked zero32 0 false 255.
Definition path1 : list Hash32 := [leaf0; zero32; zero32; zero32; zero32].
End StepProofExample.

Lemma trace_path_binds_state_witness :
  verify_trace_authentication_path StepProofExample.checkpoint 1 (key 62) 1 StepProofExample.path1 = Some true ∧
  (key 62 = key 62 ∨ collision_in (trace_messages 2 1 (key 62) StepProofExample.path1) (trace_messages 2 1 (key 62) StepProofExample.path1)).
Proof.
  assert (Hv : verify_trace_authentication_path StepProofExample.checkpoint 1 (key 62) 1 StepProofExample.path1 = Some true)
    by (vm_compute; reflexivity).
  split; [exact Hv|]. refine (trace_path_binds_state StepProofExample.checkpoint 1 _ _ _ _ _ _ _ Hv Hv).
  repeat (apply Forall_cons_2; [reflexivity|]). apply Forall_nil_2.
Defined.

Lemma tx_effect_path_binds_leaf_witness :
  verify_tx_effect_authentication_path StepProofExample.checkpoint 0 (key 70) 0 (replicate 4 zero32) = Some true ∧
  (key 70 = key 70 ∨ collision_in (tx_effect_messages 1 0 (key 70) (replicate 4 zero32))
                                  (tx_effect_messages 1 0 (key 70) (replicate 4 zero32))).
Proof.
  assert (Hv : verify_tx_effect_authentication_path StepProofExample.checkpoint 0 (key 70) 0 (replicate 4 zero32) = Some true)
    by (vm_compute; reflexivity).
  split; [exact Hv|]. refine (tx_effect_path_binds_leaf StepProofExample.checkpoint 0 _ _ _ _ _ _ _ Hv Hv).
  repeat (apply Forall_cons_2; [reflexivity|]). apply Forall_nil_2.
Defined.
