(* ===== verification/Artifact.v ===== *)
(** * The validator's checkpoint artifact (northstar/src/checkpoint.rs)

    The steps of a checkpoint with their authentication paths, packed for data
    availability, and the commitment the validator proposes to the Portal.  The
    four trees are those of Merkle.v. *)

From Stdlib Require Import ZArith Lia.
From Stdlib Require Import Strings.Byte.
From stdpp Require Import base gmap list numbers.
From S2P Require Import Prelude Borsh Events Runtime State Commitments Toy Instruction Verifier Merkle StepProof.

Definition MAX_TRANSACTION_BYTES_V1 : nat := 1232.
Definition MAX_TRANSACTION_EFFECT_BYTES_V1 : Z := 1048576.
Definition MAX_SETTLEMENT_EFFECT_BYTES_V1 : Z := 16384.
Definition MAX_READONLY_L1_VALUES_PER_STEP_V1 : nat := 256.
Definition MAX_SETTLEMENT_EFFECTS_PER_STEP_V1 : nat := 256.
Definition MAX_STATE_ACCOUNTS_PER_STEP_V1 : nat := 4096.

(** ** Data *)

Module ReadonlyL1ValueV1.
Record t : Set := mk {
  account : Address;
  owner : Address;
  lamports : Z;
  data_hash : Hash32;
  observed_l1_slot : Z
}.
#[global] Instance eq_dec : EqDecision t.
Proof. solve_decision. Defined.
Definition to_tuple (x : t) :=
  (account x, (owner x, (lamports x, (data_hash x, observed_l1_slot x)))).
Definition of_tuple p : t :=
  let '(f0, (f1, (f2, (f3, f4)))) := p in mk f0 f1 f2 f3 f4.
#[global] Instance tuple : Fields to_tuple of_tuple.
Proof. solve_fields. Qed.
#[global] Instance codec : Borsh t := struct to_tuple of_tuple
  (bytes 32 *c bytes 32 *c u64c *c bytes 32 *c u64c).
#[global] Instance codec_ok : CodecOk (borsh (A:=t)).
Proof. solve_codec. Qed.
#[global] Instance codec_size : CodecSize (borsh (A:=t)) 112.
Proof. solve_size. Qed.
End ReadonlyL1ValueV1.

Module StateAccountValueV1.
Record t : Set := mk {
  account : Address;
  owner : Address;
  lamports : Z;
  executable : bool;
  rent_epoch : Z;
  data_hash : Hash32
}.
#[global] Instance eq_dec : EqDecision t.
Proof. solve_decision. Defined.
Definition to_tuple (x : t) :=
  (account x, (owner x, (lamports x, (executable x, (rent_epoch x, data_hash x))))).
Definition of_tuple p : t :=
  let '(f0, (f1, (f2, (f3, (f4, f5))))) := p in mk f0 f1 f2 f3 f4 f5.
#[global] Instance tuple : Fields to_tuple of_tuple.
Proof. solve_fields. Qed.
#[global] Instance codec : Borsh t := struct to_tuple of_tuple
  (bytes 32 *c bytes 32 *c u64c *c boolc *c u64c *c bytes 32).
#[global] Instance codec_ok : CodecOk (borsh (A:=t)).
Proof. solve_codec. Qed.
#[global] Instance codec_size : CodecSize (borsh (A:=t)) 113.
Proof. solve_size. Qed.
End StateAccountValueV1.

Module CheckpointStepInputV1.
Record t : Set := mk {
  step_index : Z;
  transaction : list byte;
  transaction_effect : list byte;
  pre_state_accounts : list StateAccountValueV1.t;
  post_state_accounts : list StateAccountValueV1.t;
  pre_state_root : Hash32;
  post_state_root : Hash32;
  readonly_l1_values : list ReadonlyL1ValueV1.t;
  settlement_effects : list (list byte)
}.
#[global] Instance eq_dec : EqDecision t.
Proof. solve_decision. Defined.
End CheckpointStepInputV1.

Module AuthenticatedReadonlyL1ValueV1.
Record t : Set := mk {
  global_index : Z;
  value_index : Z;
  value : ReadonlyL1ValueV1.t;
  path : MerkleAuthenticationPathV1.t
}.
#[global] Instance eq_dec : EqDecision t.
Proof. solve_decision. Defined.
Definition to_tuple (x : t) :=
  (global_index x, (value_index x, (value x, path x))).
Definition of_tuple p : t :=
  let '(f0, (f1, (f2, f3))) := p in mk f0 f1 f2 f3.
#[global] Instance tuple : Fields to_tuple of_tuple.
Proof. solve_fields. Qed.
#[global] Instance codec : Borsh t := struct to_tuple of_tuple
  (u32c *c u32c *c borsh (A:=ReadonlyL1ValueV1.t) *c borsh (A:=MerkleAuthenticationPathV1.t)).
#[global] Instance codec_ok : CodecOk (borsh (A:=t)).
Proof. solve_codec. Qed.
End AuthenticatedReadonlyL1ValueV1.

Module AuthenticatedSettlementEffectV1.
Record t : Set := mk {
  global_index : Z;
  effect_index : Z;
  effect : list byte;
  path : MerkleAuthenticationPathV1.t
}.
#[global] Instance eq_dec : EqDecision t.
Proof. solve_decision. Defined.
Definition to_tuple (x : t) :=
  (global_index x, (effect_index x, (effect x, path x))).
Definition of_tuple p : t :=
  let '(f0, (f1, (f2, f3))) := p in mk f0 f1 f2 f3.
#[global] Instance tuple : Fields to_tuple of_tuple.
Proof. solve_fields. Qed.
#[global] Instance codec : Borsh t := struct to_tuple of_tuple
  (u32c *c u32c *c blob *c borsh (A:=MerkleAuthenticationPathV1.t)).
#[global] Instance codec_ok : CodecOk (borsh (A:=t)).
Proof. solve_codec. Qed.
End AuthenticatedSettlementEffectV1.

Module DaStepPageV1.
Record t : Set := mk {
  version : Z;
  page_index : Z;
  step_index : Z;
  transaction : list byte;
  transaction_effect : list byte;
  transaction_effect_commitment : Hash32;
  pre_state_accounts : list StateAccountValueV1.t;
  post_state_accounts : list StateAccountValueV1.t;
  pre_state_root : Hash32;
  post_state_root : Hash32;
  pre_state_path : MerkleAuthenticationPathV1.t;
  post_state_path : MerkleAuthenticationPathV1.t;
  transaction_effect_path : MerkleAuthenticationPathV1.t;
  readonly_l1_values : list AuthenticatedReadonlyL1ValueV1.t;
  settlement_effects : list AuthenticatedSettlementEffectV1.t
}.
#[global] Instance eq_dec : EqDecision t.
Proof. solve_decision. Defined.
Definition to_tuple (x : t) :=
  (version x, (page_index x, (step_index x, (transaction x, (transaction_effect x, (transaction_effect_commitment x, (pre_state_accounts x, (post_state_accounts x, (pre_state_root x, (post_state_root x, (pre_state_path x, (post_state_path x, (transaction_effect_path x, (readonly_l1_values x, settlement_effects x)))))))))))))).
Definition of_tuple p : t :=
  let '(f0, (f1, (f2, (f3, (f4, (f5, (f6, (f7, (f8, (f9, (f10, (f11, (f12, (f13, f14)))))))))))))) := p in mk f0 f1 f2 f3 f4 f5 f6 f7 f8 f9 f10 f11 f12 f13 f14.
#[global] Instance tuple : Fields to_tuple of_tuple.
Proof. solve_fields. Qed.
#[global] Instance codec : Borsh t := struct to_tuple of_tuple
  (u8c *c u32c *c u32c *c blob *c blob *c bytes 32 *c vec (borsh (A:=StateAccountValueV1.t)) *c vec (borsh (A:=StateAccountValueV1.t)) *c bytes 32 *c bytes 32 *c borsh (A:=MerkleAuthenticationPathV1.t) *c borsh (A:=MerkleAuthenticationPathV1.t) *c borsh (A:=MerkleAuthenticationPathV1.t) *c vec (borsh (A:=AuthenticatedReadonlyL1ValueV1.t)) *c vec (borsh (A:=AuthenticatedSettlementEffectV1.t))).
#[global] Instance codec_ok : CodecOk (borsh (A:=t)).
Proof. solve_codec. Qed.
End DaStepPageV1.

Module DaCodecV1.
Inductive t : Set := Raw.
#[global] Instance eq_dec : EqDecision t.
Proof. solve_decision. Defined.
Definition tag (x : t) : Z := match x with Raw => 0 end.
Definition of_tag (z : Z) : option t := if z =? 0 then Some Raw else None.
#[global] Instance tags : Tags tag of_tag.
Proof. solve_tags of_tag. Qed.
#[global] Instance codec : Borsh t := enum tag of_tag.
#[global] Instance codec_ok : CodecOk (borsh (A:=t)).
Proof. apply enum_ok, _. Qed.
End DaCodecV1.

Module DaPageDescriptorV1.
Record t : Set := mk {
  page_index : Z;
  step_index : Z;
  uncompressed_len : Z;
  encoded_len : Z;
  payload_hash : Hash32
}.
#[global] Instance eq_dec : EqDecision t.
Proof. solve_decision. Defined.
Definition to_tuple (x : t) :=
  (page_index x, (step_index x, (uncompressed_len x, (encoded_len x, payload_hash x)))).
Definition of_tuple p : t :=
  let '(f0, (f1, (f2, (f3, f4)))) := p in mk f0 f1 f2 f3 f4.
#[global] Instance tuple : Fields to_tuple of_tuple.
Proof. solve_fields. Qed.
#[global] Instance codec : Borsh t := struct to_tuple of_tuple
  (u32c *c u32c *c u32c *c u32c *c bytes 32).
#[global] Instance codec_ok : CodecOk (borsh (A:=t)).
Proof. solve_codec. Qed.
#[global] Instance codec_size : CodecSize (borsh (A:=t)) 48.
Proof. solve_size. Qed.
End DaPageDescriptorV1.

Module DaManifestV1.
Record t : Set := mk {
  version : Z;
  session : Address;
  er_slot : Z;
  step_count : Z;
  codec_id : DaCodecV1.t;
  dictionary_hash : Hash32;
  trace_root : Hash32;
  transaction_effect_root : Hash32;
  readonly_l1_root : Hash32;
  effect_commitment : Hash32;
  pages : list DaPageDescriptorV1.t
}.
#[global] Instance eq_dec : EqDecision t.
Proof. solve_decision. Defined.
Definition to_tuple (x : t) :=
  (version x, (session x, (er_slot x, (step_count x, (codec_id x, (dictionary_hash x, (trace_root x, (transaction_effect_root x, (readonly_l1_root x, (effect_commitment x, pages x)))))))))).
Definition of_tuple p : t :=
  let '(f0, (f1, (f2, (f3, (f4, (f5, (f6, (f7, (f8, (f9, f10)))))))))) := p in mk f0 f1 f2 f3 f4 f5 f6 f7 f8 f9 f10.
#[global] Instance tuple : Fields to_tuple of_tuple.
Proof. solve_fields. Qed.
#[global] Instance codec : Borsh t := struct to_tuple of_tuple
  (u8c *c bytes 32 *c u64c *c u32c *c borsh (A:=DaCodecV1.t) *c bytes 32 *c bytes 32 *c bytes 32 *c bytes 32 *c bytes 32 *c vec (borsh (A:=DaPageDescriptorV1.t))).
#[global] Instance codec_ok : CodecOk (borsh (A:=t)).
Proof. solve_codec. Qed.
End DaManifestV1.

Module DaPackageV1.
Record t : Set := mk {
  manifest : DaManifestV1.t;
  pages : list DaStepPageV1.t
}.
#[global] Instance eq_dec : EqDecision t.
Proof. solve_decision. Defined.
Definition to_tuple (x : t) :=
  (manifest x, pages x).
Definition of_tuple p : t :=
  let '(f0, f1) := p in mk f0 f1.
#[global] Instance tuple : Fields to_tuple of_tuple.
Proof. solve_fields. Qed.
#[global] Instance codec : Borsh t := struct to_tuple of_tuple
  (borsh (A:=DaManifestV1.t) *c vec (borsh (A:=DaStepPageV1.t))).
#[global] Instance codec_ok : CodecOk (borsh (A:=t)).
Proof. solve_codec. Qed.
End DaPackageV1.

Module CheckpointCommitmentV1.
Record t : Set := mk {
  version : Z;
  session : Address;
  er_slot : Z;
  step_count : Z;
  previous_state_root : Hash32;
  new_state_root : Hash32;
  trace_root : Hash32;
  transaction_effect_root : Hash32;
  readonly_l1_root : Hash32;
  da_commitment : Hash32;
  effect_commitment : Hash32
}.
#[global] Instance eq_dec : EqDecision t.
Proof. solve_decision. Defined.
Definition to_tuple (x : t) :=
  (version x, (session x, (er_slot x, (step_count x, (previous_state_root x, (new_state_root x, (trace_root x, (transaction_effect_root x, (readonly_l1_root x, (da_commitment x, effect_commitment x)))))))))).
Definition of_tuple p : t :=
  let '(f0, (f1, (f2, (f3, (f4, (f5, (f6, (f7, (f8, (f9, f10)))))))))) := p in mk f0 f1 f2 f3 f4 f5 f6 f7 f8 f9 f10.
#[global] Instance tuple : Fields to_tuple of_tuple.
Proof. solve_fields. Qed.
#[global] Instance codec : Borsh t := struct to_tuple of_tuple
  (u8c *c bytes 32 *c u64c *c u32c *c bytes 32 *c bytes 32 *c bytes 32 *c bytes 32 *c bytes 32 *c bytes 32 *c bytes 32).
#[global] Instance codec_ok : CodecOk (borsh (A:=t)).
Proof. solve_codec. Qed.
End CheckpointCommitmentV1.

Module CheckpointArtifactV1.
Record t : Set := mk {
  checkpoint : CheckpointCommitmentV1.t;
  da : DaPackageV1.t
}.
#[global] Instance eq_dec : EqDecision t.
Proof. solve_decision. Defined.
Definition to_tuple (x : t) :=
  (checkpoint x, da x).
Definition of_tuple p : t :=
  let '(f0, f1) := p in mk f0 f1.
#[global] Instance tuple : Fields to_tuple of_tuple.
Proof. solve_fields. Qed.
#[global] Instance codec : Borsh t := struct to_tuple of_tuple
  (borsh (A:=CheckpointCommitmentV1.t) *c borsh (A:=DaPackageV1.t)).
#[global] Instance codec_ok : CodecOk (borsh (A:=t)).
Proof. solve_codec. Qed.
End CheckpointArtifactV1.


(** ** Orders *)

(** The derived [Ord]: fields in turn. *)
Definition lex (c d : comparison) : comparison := match c with Eq => d | _ => c end.
Fixpoint bytes_compare (a b : list byte) : comparison :=
  match a, b with
  | [], [] => Eq
  | [], _ => Lt
  | _, [] => Gt
  | x :: a', y :: b' => lex (byte_val x ?= byte_val y) (bytes_compare a' b')
  end.
Definition bool_compare (a b : bool) : comparison := Z.b2z a ?= Z.b2z b.

Definition readonly_compare (x y : ReadonlyL1ValueV1.t) : comparison :=
  let '(ReadonlyL1ValueV1.mk a o l d s) := x in
  let '(ReadonlyL1ValueV1.mk a' o' l' d' s') := y in
  lex (bytes_compare a a') (lex (bytes_compare o o') (lex (l ?= l') (lex (bytes_compare d d') (s ?= s')))).
Definition account_compare (x y : StateAccountValueV1.t) : comparison :=
  let '(StateAccountValueV1.mk a o l e r d) := x in
  let '(StateAccountValueV1.mk a' o' l' e' r' d') := y in
  lex (bytes_compare a a') (lex (bytes_compare o o') (lex (l ?= l') (lex (bool_compare e e')
    (lex (r ?= r') (bytes_compare d d'))))).

(** [values.windows(2).any(|pair| pair[0] >= pair[1])] *)
Fixpoint not_increasing {A} (compare : A → A → comparison) (l : list A) : bool :=
  match l with
  | x :: (y :: _) as l' => match compare x y with Lt => not_increasing compare l' | _ => true end
  | _ => false
  end.

(** ** Leaves *)

Abbreviation returns e := (Err (Returned e)).
Definition refuse {A} (c : bool) (e : CheckpointArtifactError.t) (k : outcome A) : outcome A :=
  if c then returns e else k.

Definition enumerate {A} (l : list A) : list (nat * A) := zip (seq 0 (length l)) l.
Definition fits_u32 {A} (l : list A) : bool := Z.of_nat (length l) <=? umax 32.

(** [borsh::to_vec] fails on a vector longer than [u32::MAX]. *)
Definition encode {A} (c : codec A) (fits : bool) (value : A) : outcome (list byte) :=
  if fits then Ok (enc c value) else returns CheckpointArtifactError.Encoding.

Section hashing.
Context `{Host}.

Definition trace_leaf_hash (index : Z) (state_root : Hash32) : outcome Hash32 :=
  bs ← encode (u32c *c bytes 32) true (index, state_root);
  Ok (typed_hash TreeKind.Trace (str "leaf") bs).

Definition transaction_effect_leaf_hash (index : Z) (transaction transaction_effect : list byte) : outcome Hash32 :=
  bs ← encode (u32c *c blob *c blob) (fits_u32 transaction && fits_u32 transaction_effect)
         (index, (transaction, transaction_effect));
  Ok (mask_root (typed_hash TreeKind.TransactionEffect (str "leaf") bs)).

Definition readonly_l1_leaf_hash (global_index step_index value_index : Z) (value : ReadonlyL1ValueV1.t) :
    outcome Hash32 :=
  bs ← encode (u32c *c u32c *c u32c *c borsh (A:=ReadonlyL1ValueV1.t)) true
         (global_index, (step_index, (value_index, value)));
  Ok (typed_hash TreeKind.ReadonlyL1 (str "leaf") bs).

Definition settlement_effect_leaf_hash (global_index step_index effect_index : Z) (effect : list byte) :
    outcome Hash32 :=
  bs ← encode (u32c *c u32c *c u32c *c blob) (fits_u32 effect) (global_index, (step_index, (effect_index, effect)));
  Ok (typed_hash TreeKind.SettlementEffect (str "leaf") bs).

Definition state_leaf_hash (index : nat) (account : StateAccountValueV1.t) : outcome Hash32 :=
  i ← to_u32 index;
  bs ← encode (u32c *c borsh (A:=StateAccountValueV1.t)) true (i, account);
  Ok (typed_hash TreeKind.State (str "leaf") bs).

Definition state_root_v1 (accounts : list StateAccountValueV1.t) : outcome Hash32 :=
  refuse (not_increasing account_compare accounts
          || existsb (λ a, StateAccountValueV1.data_hash a == zero32) accounts)
    CheckpointArtifactError.InvalidStateAccounts
  (leaves ← mapM_outcome (λ '(i, a), state_leaf_hash i a) (enumerate accounts);
   tree ← MerkleTree.new TreeKind.State leaves;
   MerkleTree.root tree).

(** [state_root_v1(..).ok() != Some(root)] *)
Definition has_state_root (accounts : list StateAccountValueV1.t) (root : Hash32) : bool :=
  match state_root_v1 accounts with Ok r => r == root | Err _ => false end.
End hashing.

(** ** Validation *)

Section validate.
Context `{Host}.
Import CheckpointStepInputV1.

(** [HashSet::insert] returned false for one of the effects, or its length is
    wrong; otherwise the set with all of them. *)
Fixpoint insert_effects (effects : list (list byte)) (seen : gset (list byte)) : option (gset (list byte)) :=
  match effects with
  | [] => Some seen
  | effect :: rest =>
      if (length effect =? 0)%nat || (MAX_SETTLEMENT_EFFECT_BYTES_V1 <? Z.of_nat (length effect))
         || bool_decide (effect ∈ seen) then None
      else insert_effects rest ({[effect]} ∪ seen)
  end.

(** One iteration of the loop over the steps, with the two sets. *)
Definition validate_step (steps : list CheckpointStepInputV1.t) (index : nat) (step : CheckpointStepInputV1.t)
    (transactions settlement : gset (list byte)) : outcome (gset (list byte) * gset (list byte)) :=
  refuse (negb (step_index step =? Z.of_nat index)) CheckpointArtifactError.InvalidStepIndex (
  refuse ((MAX_STATE_ACCOUNTS_PER_STEP_V1 <? length (pre_state_accounts step))%nat
          || (MAX_STATE_ACCOUNTS_PER_STEP_V1 <? length (post_state_accounts step))%nat
          || negb (has_state_root (pre_state_accounts step) (pre_state_root step))
          || negb (has_state_root (post_state_accounts step) (post_state_root step)))
    CheckpointArtifactError.InvalidStateAccounts (
  refuse ((pre_state_root step == zero32) || (post_state_root step == zero32)
          || negb (is_ok_fr (pre_state_root step)) || negb (is_ok_fr (post_state_root step))
          || ((0 <? index)%nat
              && match steps !! pred index with
                 | Some previous => post_state_root previous != pre_state_root step
                 | None => true
                 end))
    CheckpointArtifactError.InvalidStateRoot (
  refuse ((length (transaction step) =? 0)%nat || (MAX_TRANSACTION_BYTES_V1 <? length (transaction step))%nat
          || bool_decide (transaction step ∈ transactions)) CheckpointArtifactError.InvalidTransaction (
  refuse ((length (transaction_effect step) =? 0)%nat
          || (MAX_TRANSACTION_EFFECT_BYTES_V1 <? Z.of_nat (length (transaction_effect step))))
    CheckpointArtifactError.InvalidTransactionEffect (
  refuse ((MAX_READONLY_L1_VALUES_PER_STEP_V1 <? length (readonly_l1_values step))%nat
          || not_increasing readonly_compare (readonly_l1_values step))
    CheckpointArtifactError.InvalidReadonlyL1Values (
  refuse (MAX_SETTLEMENT_EFFECTS_PER_STEP_V1 <? length (settlement_effects step))%nat
    CheckpointArtifactError.InvalidSettlementEffects (
  match insert_effects (settlement_effects step) settlement with
  | None => returns CheckpointArtifactError.InvalidSettlementEffects
  | Some settlement' => Ok ({[transaction step]} ∪ transactions, settlement')
  end))))))).

Fixpoint validate_loop (steps : list CheckpointStepInputV1.t) (todo : list (nat * CheckpointStepInputV1.t))
    (transactions settlement : gset (list byte)) : outcome unit :=
  match todo with
  | [] => Ok tt
  | (index, step) :: rest =>
      '(transactions', settlement') ← validate_step steps index step transactions settlement;
      validate_loop steps rest transactions' settlement'
  end.

Definition validate_steps (steps : list CheckpointStepInputV1.t) : outcome unit :=
  refuse ((length steps =? 0)%nat || (CANONICAL_CHECKPOINT_STEPS_V1 <? length steps)%nat)
    CheckpointArtifactError.InvalidStepCount
  (validate_loop steps (enumerate steps) ∅ ∅).
End validate.

(** ** Building *)

Section build.
Context `{Host}.

(** The inner loop that hashes the values of one step, [leaves] the leaves so
    far; the same for readonly values and for settlement effects. *)
Fixpoint step_leaves {V} (leaf : Z → Z → Z → V → outcome Hash32) (step_index : Z) (value_index : nat)
    (values : list V) (leaves : list Hash32) : outcome (list Hash32) :=
  match values with
  | [] => Ok leaves
  | value :: rest =>
      global_index ← to_u32 (length leaves);
      i ← to_u32 value_index;
      hash ← leaf global_index step_index i value;
      step_leaves leaf step_index (S value_index) rest (leaves ++ [hash])
  end.

(** The outer loop, with the offset of every step. *)
Fixpoint all_leaves {V} (leaf : Z → Z → Z → V → outcome Hash32) (values : CheckpointStepInputV1.t → list V)
    (steps : list CheckpointStepInputV1.t) (offsets : list nat) (leaves : list Hash32) :
    outcome (list nat * list Hash32) :=
  match steps with
  | [] => Ok (offsets, leaves)
  | step :: rest =>
      leaves' ← step_leaves leaf (CheckpointStepInputV1.step_index step) 0 (values step) leaves;
      all_leaves leaf values rest (offsets ++ [length leaves]) leaves'
  end.

(** [a.checked_add(b).ok_or(Encoding)?] on [usize] *)
Definition usize_add (a b : nat) : outcome nat :=
  if Z.of_nat (a + b) <=? umax 64 then Ok (a + b)%nat else returns CheckpointArtifactError.Encoding.

(** The values of a page with their paths; [make] is the struct's constructor. *)
Definition authenticate {V W} (make : Z → Z → V → MerkleAuthenticationPathV1.t → W) (tree : MerkleTree.t)
    (offset : nat) (values : list V) : outcome (list W) :=
  mapM_outcome (λ '(value_index, value),
    global_index ← usize_add offset value_index;
    g ← to_u32 global_index;
    i ← to_u32 value_index;
    path ← MerkleTree.path tree global_index;
    Ok (make g i value path)) (enumerate values).

Record Trees : Set := mkTrees {
  trace_tree : MerkleTree.t;
  transaction_tree : MerkleTree.t;
  readonly_tree : MerkleTree.t;
  settlement_tree : MerkleTree.t
}.

(** One iteration of the loop over the pages. *)
Definition build_page (trees : Trees) (readonly_offsets settlement_offsets : list nat) (page_index : nat)
    (step : CheckpointStepInputV1.t) : outcome DaStepPageV1.t :=
  let '(CheckpointStepInputV1.mk step_index transaction transaction_effect pre_state_accounts post_state_accounts
          pre_state_root post_state_root readonly_values effects) := step in
  readonly_offset ← index_of readonly_offsets page_index;
  readonly_l1_values ← authenticate AuthenticatedReadonlyL1ValueV1.mk (readonly_tree trees) readonly_offset readonly_values;
  settlement_offset ← index_of settlement_offsets page_index;
  settlement_effects ← authenticate AuthenticatedSettlementEffectV1.mk (settlement_tree trees) settlement_offset effects;
  index ← to_u32 page_index;
  transaction_effect_commitment ← transaction_effect_leaf_hash step_index transaction transaction_effect;
  pre_state_path ← MerkleTree.path (trace_tree trees) page_index;
  post_index ← usize_add page_index 1;
  post_state_path ← MerkleTree.path (trace_tree trees) post_index;
  transaction_effect_path ← MerkleTree.path (transaction_tree trees) page_index;
  Ok (DaStepPageV1.mk CHECKPOINT_FORMAT_VERSION_V1 index step_index transaction transaction_effect
        transaction_effect_commitment pre_state_accounts post_state_accounts pre_state_root post_state_root
        pre_state_path post_state_path transaction_effect_path readonly_l1_values settlement_effects).

(** Every vector in the value fits. *)
Definition path_fits (p : MerkleAuthenticationPathV1.t) : bool := fits_u32 (MerkleAuthenticationPathV1.siblings p).
Definition page_fits (p : DaStepPageV1.t) : bool :=
  fits_u32 (DaStepPageV1.transaction p) && fits_u32 (DaStepPageV1.transaction_effect p)
  && fits_u32 (DaStepPageV1.pre_state_accounts p) && fits_u32 (DaStepPageV1.post_state_accounts p)
  && path_fits (DaStepPageV1.pre_state_path p) && path_fits (DaStepPageV1.post_state_path p)
  && path_fits (DaStepPageV1.transaction_effect_path p)
  && fits_u32 (DaStepPageV1.readonly_l1_values p)
  && forallb (λ v, path_fits (AuthenticatedReadonlyL1ValueV1.path v)) (DaStepPageV1.readonly_l1_values p)
  && fits_u32 (DaStepPageV1.settlement_effects p)
  && forallb (λ v, fits_u32 (AuthenticatedSettlementEffectV1.effect v)
                   && path_fits (AuthenticatedSettlementEffectV1.path v)) (DaStepPageV1.settlement_effects p).

Definition page_hash (page : DaStepPageV1.t) : outcome (nat * Hash32) :=
  bs ← encode borsh (page_fits page) page;
  Ok (length bs, typed_hash TreeKind.DataAvailability (str "page") bs).

Definition describe (page : DaStepPageV1.t) : outcome DaPageDescriptorV1.t :=
  '(len, payload_hash) ← page_hash page;
  uncompressed_len ← to_u32 len;
  Ok (DaPageDescriptorV1.mk (DaStepPageV1.page_index page) (DaStepPageV1.step_index page) uncompressed_len
        uncompressed_len payload_hash).

(** The leaves of the trace tree: the first state and the state after every step. *)
Definition trace_leaves_of (steps : list CheckpointStepInputV1.t) : outcome (list Hash32) :=
  first ← index_of steps 0;
  h ← trace_leaf_hash 0 (CheckpointStepInputV1.pre_state_root first);
  rest ← mapM_outcome (λ step,
    match checked_add 32 (CheckpointStepInputV1.step_index step) 1 with
    | Some post_index => trace_leaf_hash post_index (CheckpointStepInputV1.post_state_root step)
    | None => returns CheckpointArtifactError.InvalidStepIndex
    end) steps;
  Ok (h :: rest).

Definition build_checkpoint_artifact_v1 (session : Address) (er_slot : Z) (steps : list CheckpointStepInputV1.t) :
    outcome CheckpointArtifactV1.t :=
  validate_steps steps ;;
  trace_leaves ← trace_leaves_of steps;
  transaction_leaves ← mapM_outcome (λ step,
    transaction_effect_leaf_hash (CheckpointStepInputV1.step_index step) (CheckpointStepInputV1.transaction step)
      (CheckpointStepInputV1.transaction_effect step)) steps;
  '(readonly_offsets, readonly_leaves) ←
    all_leaves readonly_l1_leaf_hash CheckpointStepInputV1.readonly_l1_values steps [] [];
  '(settlement_offsets, settlement_leaves) ←
    all_leaves settlement_effect_leaf_hash CheckpointStepInputV1.settlement_effects steps [] [];
  trace_tree ← MerkleTree.new TreeKind.Trace trace_leaves;
  transaction_tree ← MerkleTree.new TreeKind.TransactionEffect transaction_leaves;
  readonly_tree ← MerkleTree.new TreeKind.ReadonlyL1 readonly_leaves;
  settlement_tree ← MerkleTree.new TreeKind.SettlementEffect settlement_leaves;
  pages ← mapM_outcome (λ '(page_index, step),
    build_page (mkTrees trace_tree transaction_tree readonly_tree settlement_tree) readonly_offsets settlement_offsets
      page_index step) (enumerate steps);
  trace_root ← MerkleTree.root trace_tree;
  transaction_effect_root ← MerkleTree.root transaction_tree;
  readonly_l1_root ← MerkleTree.root readonly_tree;
  effect_commitment ← MerkleTree.root settlement_tree;
  descriptors ← mapM_outcome describe pages;
  step_count ← to_u32 (length steps);
  let manifest := DaManifestV1.mk CHECKPOINT_FORMAT_VERSION_V1 session er_slot step_count DaCodecV1.Raw
    (typed_hash TreeKind.DataAvailability (str "dictionary") []) trace_root transaction_effect_root readonly_l1_root
    effect_commitment descriptors in
  manifest_bytes ← encode borsh (fits_u32 descriptors) manifest;
  let manifest_hash := typed_hash TreeKind.DataAvailability (str "manifest") manifest_bytes in
  da_tree ← MerkleTree.new TreeKind.DataAvailability
              (manifest_hash :: (DaPageDescriptorV1.payload_hash <$> descriptors));
  da_commitment ← MerkleTree.root da_tree;
  first ← index_of steps 0;
  final ← index_of steps (pred (length steps));
  Ok (CheckpointArtifactV1.mk
        (CheckpointCommitmentV1.mk CHECKPOINT_FORMAT_VERSION_V1 session er_slot step_count
           (CheckpointStepInputV1.pre_state_root first) (CheckpointStepInputV1.post_state_root final) trace_root
           transaction_effect_root readonly_l1_root da_commitment effect_commitment)
        (DaPackageV1.mk manifest pages)).

(** ** Checking *)

(** The values of a page, checked against [root]. *)
Definition values_authenticated {V W} (kind : TreeKind.t) (leaf : Z → Z → Z → V → outcome Hash32) (step_index : Z)
    (root : Hash32) (parts : W → Z * Z * V * MerkleAuthenticationPathV1.t) (values : list W) : bool :=
  forallb (λ w, let '(global_index, value_index, value, path) := parts w in
    match leaf global_index step_index value_index value with
    | Ok hash => (MerkleAuthenticationPathV1.leaf_index path =? global_index) && path_verify path kind hash root
    | Err _ => false
    end) values.

Definition readonly_parts (v : AuthenticatedReadonlyL1ValueV1.t) :=
  (AuthenticatedReadonlyL1ValueV1.global_index v, AuthenticatedReadonlyL1ValueV1.value_index v,
   AuthenticatedReadonlyL1ValueV1.value v, AuthenticatedReadonlyL1ValueV1.path v).
Definition settlement_parts (v : AuthenticatedSettlementEffectV1.t) :=
  (AuthenticatedSettlementEffectV1.global_index v, AuthenticatedSettlementEffectV1.effect_index v,
   AuthenticatedSettlementEffectV1.effect v, AuthenticatedSettlementEffectV1.path v).

Definition verify_authentication_paths (page : DaStepPageV1.t) (checkpoint : CheckpointCommitmentV1.t) : bool :=
  let '(DaStepPageV1.mk version page_index step_index transaction transaction_effect transaction_effect_commitment
          pre_state_accounts post_state_accounts pre_state_root post_state_root pre_state_path post_state_path
          transaction_effect_path readonly_l1_values settlement_effects) := page in
  if negb (version =? CHECKPOINT_FORMAT_VERSION_V1) || negb (page_index =? step_index) then false
  else if negb (has_state_root pre_state_accounts pre_state_root)
          || negb (has_state_root post_state_accounts post_state_root) then false
  else match trace_leaf_hash step_index pre_state_root, checked_add 32 step_index 1 with
  | Ok pre_leaf, Some post_index =>
      match trace_leaf_hash post_index post_state_root,
            transaction_effect_leaf_hash step_index transaction transaction_effect with
      | Ok post_leaf, Ok transaction_leaf =>
          (transaction_leaf == transaction_effect_commitment)
          && path_verify pre_state_path TreeKind.Trace pre_leaf (CheckpointCommitmentV1.trace_root checkpoint)
          && path_verify post_state_path TreeKind.Trace post_leaf (CheckpointCommitmentV1.trace_root checkpoint)
          && path_verify transaction_effect_path TreeKind.TransactionEffect transaction_leaf
               (CheckpointCommitmentV1.transaction_effect_root checkpoint)
          && values_authenticated TreeKind.ReadonlyL1 readonly_l1_leaf_hash step_index
               (CheckpointCommitmentV1.readonly_l1_root checkpoint) readonly_parts readonly_l1_values
          && values_authenticated TreeKind.SettlementEffect settlement_effect_leaf_hash step_index
               (CheckpointCommitmentV1.effect_commitment checkpoint) settlement_parts settlement_effects
      | _, _ => false
      end
  | _, _ => false
  end.

Definition page_to_input (page : DaStepPageV1.t) : CheckpointStepInputV1.t :=
  CheckpointStepInputV1.mk (DaStepPageV1.step_index page) (DaStepPageV1.transaction page)
    (DaStepPageV1.transaction_effect page) (DaStepPageV1.pre_state_accounts page)
    (DaStepPageV1.post_state_accounts page) (DaStepPageV1.pre_state_root page) (DaStepPageV1.post_state_root page)
    (AuthenticatedReadonlyL1ValueV1.value <$> DaStepPageV1.readonly_l1_values page)
    (AuthenticatedSettlementEffectV1.effect <$> DaStepPageV1.settlement_effects page).

Definition verify (x : CheckpointArtifactV1.t) : outcome unit :=
  let checkpoint := CheckpointArtifactV1.checkpoint x in
  let manifest := DaPackageV1.manifest (CheckpointArtifactV1.da x) in
  let pages := DaPackageV1.pages (CheckpointArtifactV1.da x) in
  refuse (negb (CheckpointCommitmentV1.version checkpoint =? CHECKPOINT_FORMAT_VERSION_V1)
          || negb (DaManifestV1.version manifest =? CHECKPOINT_FORMAT_VERSION_V1))
    CheckpointArtifactError.UnsupportedVersion (
  refuse ((length pages =? 0)%nat || (CANONICAL_CHECKPOINT_STEPS_V1 <? length pages)%nat
          || negb (length (DaManifestV1.pages manifest) =? length pages)%nat)
    CheckpointArtifactError.InvalidStepCount (
  rebuilt ← build_checkpoint_artifact_v1 (CheckpointCommitmentV1.session checkpoint)
              (CheckpointCommitmentV1.er_slot checkpoint) (page_to_input <$> pages);
  refuse (negb (bool_decide (rebuilt = x))) CheckpointArtifactError.CommitmentMismatch (
  refuse (negb (forallb (λ page, verify_authentication_paths page checkpoint) pages))
    CheckpointArtifactError.InvalidPage (Ok tt)))).

Definition artifact_fits (x : CheckpointArtifactV1.t) : bool :=
  fits_u32 (DaManifestV1.pages (DaPackageV1.manifest (CheckpointArtifactV1.da x)))
  && fits_u32 (DaPackageV1.pages (CheckpointArtifactV1.da x))
  && forallb page_fits (DaPackageV1.pages (CheckpointArtifactV1.da x)).

Definition canonical_bytes (x : CheckpointArtifactV1.t) : outcome (list byte) := encode borsh (artifact_fits x) x.

Definition decode_verified (bs : list byte) : outcome CheckpointArtifactV1.t :=
  match try_from_slice bs with
  | None => returns CheckpointArtifactError.Encoding
  | Some artifact =>
      canonical ← canonical_bytes artifact;
      refuse (canonical != bs) CheckpointArtifactError.Encoding (
      verify artifact ;;
      Ok artifact)
  end.
End build.

(** One step of a successful computation. *)
Tactic Notation "rstep" ident(H) "as" ident(x) ident(E) :=
  apply result_bind_Ok in H; destruct H as (x & E & H); cbv beta in H.

(** ** Loops *)

Lemma mapM_outcome_inv {A B} (f : A → outcome B) l ys :
  mapM_outcome f l = Ok ys → Forall2 (λ x y, f x = Ok y) l ys.
Proof.
  revert ys. induction l as [|x l IH]; intros ys Hm; cbn in Hm; [by injection Hm as <-|].
  apply result_bind_Ok in Hm as (y & Hy & Hm). apply result_bind_Ok in Hm as (ys' & Hys & [= <-]). constructor; auto.
Qed.

Lemma refuse_Ok {A} c e (k : outcome A) a : refuse c e k = Ok a ↔ c = false ∧ k = Ok a.
Proof. unfold refuse. destruct c; split; [done|by intros []|done|by intros []]. Qed.

Lemma enumerate_lookup {A} (l : list A) k : enumerate l !! k = (λ x, (k, x)) <$> l !! k.
Proof.
  unfold enumerate. rewrite lookup_zip_with. destruct (l !! k) as [x|] eqn:Hk; cbn.
  - rewrite lookup_seq_lt by (by eapply lookup_lt_Some). done.
  - by destruct (seq 0 (length l) !! k).
Qed.

Lemma enumerate_length {A} (l : list A) : length (enumerate l) = length l.
Proof. unfold enumerate. rewrite length_zip, length_seq. lia. Qed.

Lemma enumerate_elem {A} (l : list A) i x : (i, x) ∈ enumerate l ↔ l !! i = Some x.
Proof.
  rewrite list_elem_of_lookup. setoid_rewrite enumerate_lookup. split.
  - intros (k & Hk). destruct (l !! k) eqn:E; [|done]. cbn in Hk. by injection Hk as <- <-.
  - intros Hx. exists i. by rewrite Hx.
Qed.

Lemma enumerate_mapM {A B} (f : nat * A → outcome B) l ys :
  mapM_outcome f (enumerate l) = Ok ys →
  length ys = length l ∧ ∀ k x, l !! k = Some x → ∃ y, ys !! k = Some y ∧ f (k, x) = Ok y.
Proof.
  intros Hm%mapM_outcome_inv. split; [by rewrite <- (Forall2_length Hm), enumerate_length|].
  intros k x Hk. destruct (Forall2_lookup_l _ _ _ k (k, x) Hm) as (y & Hy & Hf); [by rewrite enumerate_lookup, Hk|eauto].
Qed.

(** The leaves of one step are appended in order. *)
Lemma step_leaves_Ok `{Host} {V} (leaf : Z → Z → Z → V → outcome Hash32) si values : ∀ vi leaves leaves',
  step_leaves leaf si vi values leaves = Ok leaves' →
  ∃ new, leaves' = leaves ++ new ∧ ∀ j v, values !! j = Some v →
    ∃ h, leaf (Z.of_nat (length leaves + j)) si (Z.of_nat (vi + j)) v = Ok h ∧ new !! j = Some h.
Proof.
  induction values as [|v values IH]; intros vi leaves leaves' Hs; cbn in Hs.
  { injection Hs as <-. exists []. by rewrite app_nil_r. }
  apply result_bind_Ok in Hs as (g & Hg & Hs). apply result_bind_Ok in Hs as (i & Hi & Hs).
  apply result_bind_Ok in Hs as (h & Hh & Hs). apply IH in Hs as (new & -> & Hnew).
  unfold to_u32 in Hg, Hi. case_match; [|done]. case_match; [|done]. injection Hg as <-. injection Hi as <-.
  exists (h :: new). split; [by rewrite <- app_assoc|]. intros [|j] v' Hv; cbn in Hv.
  - injection Hv as <-. exists h. by rewrite !Nat.add_0_r.
  - destruct (Hnew j v' Hv) as (h' & Hh' & ?). exists h'. split; [|done]. rewrite length_app in Hh'. cbn in Hh'.
    replace (length leaves + S j)%nat with (length leaves + 1 + j)%nat by lia. by replace (vi + S j)%nat with (S vi + j)%nat by lia.
Qed.

(** Every value's leaf is at its step's offset plus its index. *)
Lemma all_leaves_Ok `{Host} {V} (leaf : Z → Z → Z → V → outcome Hash32) values steps : ∀ offs leaves offs' leaves',
  all_leaves leaf values steps offs leaves = Ok (offs', leaves') →
  ∃ no nl, offs' = offs ++ no ∧ leaves' = leaves ++ nl ∧ ∀ k s, steps !! k = Some s →
    ∃ off, no !! k = Some off ∧ ∀ j v, values s !! j = Some v →
      ∃ h, leaf (Z.of_nat (off + j)) (CheckpointStepInputV1.step_index s) (Z.of_nat j) v = Ok h ∧
        leaves' !! (off + j)%nat = Some h.
Proof.
  induction steps as [|s steps IH]; intros offs leaves offs' leaves' Ha; cbn in Ha.
  { injection Ha as <- <-. exists [], []. by rewrite !app_nil_r. }
  apply result_bind_Ok in Ha as (l1 & Hs & Ha). apply step_leaves_Ok in Hs as (new & -> & Hnew).
  apply IH in Ha as (no & nl & -> & -> & Hall). exists (length leaves :: no), (new ++ nl).
  split; [by rewrite <- app_assoc|]. split; [by rewrite <- app_assoc|]. intros [|k] s' Hk; cbn in Hk; [|by apply Hall].
  injection Hk as <-. exists (length leaves). split; [done|]. intros j v Hv. destruct (Hnew j v Hv) as (h & Hh & Hj).
  exists h. split; [done|]. rewrite <- app_assoc, lookup_app_r by lia.
  replace (length leaves + j - length leaves)%nat with j by lia. by rewrite lookup_app_l by (by eapply lookup_lt_Some).
Qed.

(** ** What validated steps satisfy *)

Section valid.
Context `{Host}.
Import CheckpointStepInputV1.

(** The conditions on step [k] that do not depend on the sets. *)
Record step_valid (steps : list CheckpointStepInputV1.t) (k : nat) (s : CheckpointStepInputV1.t) : Prop := {
  sv_index : step_index s = Z.of_nat k;
  sv_accounts : (length (pre_state_accounts s) ≤ 4096)%nat ∧ (length (post_state_accounts s) ≤ 4096)%nat;
  sv_pre : state_root_v1 (pre_state_accounts s) = Ok (pre_state_root s);
  sv_post : state_root_v1 (post_state_accounts s) = Ok (post_state_root s);
  sv_chain j p : k = S j → steps !! j = Some p → post_state_root p = pre_state_root s;
  sv_transaction : (0 < length (transaction s) ≤ 1232)%nat;
  sv_effect : 0 < Z.of_nat (length (transaction_effect s)) ≤ MAX_TRANSACTION_EFFECT_BYTES_V1;
  sv_readonly : (length (readonly_l1_values s) ≤ 256)%nat;
  sv_settlement : (length (settlement_effects s) ≤ 256)%nat ∧
    Forall (λ e, 0 < Z.of_nat (length e) ≤ MAX_SETTLEMENT_EFFECT_BYTES_V1) (settlement_effects s)
}.

Lemma has_state_root_true accounts r : has_state_root accounts r = true → state_root_v1 accounts = Ok r.
Proof. unfold has_state_root. destruct (state_root_v1 accounts); [|done]. by intros ->%bool_decide_eq_true. Qed.

Lemma insert_effects_Some effects : ∀ seen seen', insert_effects effects seen = Some seen' →
  Forall (λ e, 0 < Z.of_nat (length e) ≤ MAX_SETTLEMENT_EFFECT_BYTES_V1) effects.
Proof.
  induction effects as [|e effects IH]; intros seen seen' Hi; [done|]. cbn in Hi.
  destruct (_ || _) eqn:Hc; [done|]. apply orb_false_iff in Hc as [Hc _]. apply orb_false_iff in Hc as [He Hm].
  apply Nat.eqb_neq in He. bprop. constructor; [lia|eauto].
Qed.

Lemma validate_step_Ok steps k s tx se r : validate_step steps k s tx se = Ok r → step_valid steps k s.
Proof.
  unfold validate_step. rewrite !refuse_Ok. intros (G1 & G2 & G3 & G4 & G5 & G6 & G7 & G8).
  destruct (insert_effects _ _) eqn:Hi; [|done]. apply insert_effects_Some in Hi.
  repeat match goal with X : (_ || _) = false |- _ => apply orb_false_iff in X; destruct X end.
  repeat match goal with X : (_ <? _)%nat = false |- _ => apply Nat.ltb_ge in X
                       | X : (_ =? _)%nat = false |- _ => apply Nat.eqb_neq in X end.
  unfold MAX_STATE_ACCOUNTS_PER_STEP_V1, MAX_TRANSACTION_BYTES_V1, MAX_READONLY_L1_VALUES_PER_STEP_V1,
    MAX_SETTLEMENT_EFFECTS_PER_STEP_V1 in *.
  repeat match goal with X : negb _ = false |- _ => apply negb_false_iff in X end. bprop.
  split; try done; try lia; try (by apply has_state_root_true).
  intros j p -> Hp. match goal with X : _ ∨ _ |- _ => destruct X as [X|X]; [done|] end. cbn [pred] in *.
  match goal with X : match steps !! j with _ => _ end = false |- _ => rewrite Hp in X; by bprop end.
Qed.

Lemma validate_loop_Ok steps todo : ∀ tx se u, validate_loop steps todo tx se = Ok u →
  ∀ k s, (k, s) ∈ todo → step_valid steps k s.
Proof.
  induction todo as [|[k s] todo IH]; intros tx se u Hv k' s' Hin; [by apply elem_of_nil in Hin|].
  cbn in Hv. apply result_bind_Ok in Hv as ([tx' se'] & Hs & Hv).
  apply elem_of_cons in Hin as [[= -> ->]|Hin]; [by eapply validate_step_Ok|by eapply IH].
Qed.

Lemma validate_steps_Ok steps u :
  validate_steps steps = Ok u →
  (1 ≤ length steps ≤ 16)%nat ∧ ∀ k s, steps !! k = Some s → step_valid steps k s.
Proof.
  unfold validate_steps, CANONICAL_CHECKPOINT_STEPS_V1. rewrite refuse_Ok, orb_false_iff, Nat.eqb_neq, Nat.ltb_ge.
  intros [[? ?] Hv]. split; [lia|]. intros k s Hk. eapply validate_loop_Ok; [done|]. by apply enumerate_elem.
Qed.

(** ** Pages *)

Lemma authenticate_Ok {V W} (make : Z → Z → V → MerkleAuthenticationPathV1.t → W) tree off values ws :
  authenticate make tree off values = Ok ws →
  length ws = length values ∧ ∀ j v, values !! j = Some v →
    ∃ p, ws !! j = Some (make (Z.of_nat (off + j)) (Z.of_nat j) v p) ∧ MerkleTree.path tree (off + j) = Ok p.
Proof.
  intros [Hl Ha]%enumerate_mapM. split; [done|]. intros j v Hv. destruct (Ha j v Hv) as (w & Hw & Hf).
  apply result_bind_Ok in Hf as (g & Hg & Hf). apply result_bind_Ok in Hf as (g' & Hg' & Hf).
  apply result_bind_Ok in Hf as (i & Hi & Hf). apply result_bind_Ok in Hf as (p & Hp & [= <-]).
  unfold usize_add, to_u32 in *. repeat case_match; try done. injection Hg as <-. injection Hg' as <-. injection Hi as <-.
  eauto.
Qed.

(** [field] of the authenticated values gives the values back. *)
Lemma authenticate_values {V W} (make : Z → Z → V → MerkleAuthenticationPathV1.t → W) (field : W → V) tree off values ws :
  (∀ g i v p, field (make g i v p) = v) → authenticate make tree off values = Ok ws → field <$> ws = values.
Proof.
  intros Hf [Hl Ha]%authenticate_Ok. apply list_eq. intros j. rewrite list_lookup_fmap.
  destruct (values !! j) as [v|] eqn:Hv.
  - destruct (Ha j v Hv) as (p & -> & _). cbn. by rewrite Hf.
  - apply lookup_ge_None in Hv. rewrite lookup_ge_None_2 by lia. done.
Qed.

(** What a page holds. *)
Record page_of (trees : Trees) (ro so : list nat) (k : nat) (s : CheckpointStepInputV1.t) (p : DaStepPageV1.t) : Prop := {
  po_input : page_to_input p = s;
  po_version : DaStepPageV1.version p = 1;
  po_index : DaStepPageV1.page_index p = Z.of_nat k;
  po_commitment : transaction_effect_leaf_hash (step_index s) (transaction s) (transaction_effect s)
    = Ok (DaStepPageV1.transaction_effect_commitment p);
  po_pre : MerkleTree.path (trace_tree trees) k = Ok (DaStepPageV1.pre_state_path p);
  po_post : MerkleTree.path (trace_tree trees) (S k) = Ok (DaStepPageV1.post_state_path p);
  po_effect : MerkleTree.path (transaction_tree trees) k = Ok (DaStepPageV1.transaction_effect_path p);
  po_readonly : ∃ off, ro !! k = Some off ∧
    authenticate AuthenticatedReadonlyL1ValueV1.mk (readonly_tree trees) off (readonly_l1_values s)
      = Ok (DaStepPageV1.readonly_l1_values p);
  po_settlement : ∃ off, so !! k = Some off ∧
    authenticate AuthenticatedSettlementEffectV1.mk (settlement_tree trees) off (settlement_effects s)
      = Ok (DaStepPageV1.settlement_effects p)
}.

Lemma index_of_Ok {A} (l : list A) i x : index_of l i = Ok x ↔ l !! i = Some x.
Proof. unfold index_of. destruct (l !! i); split; congruence. Qed.

Lemma build_page_Ok trees ro so k s p : build_page trees ro so k s = Ok p → page_of trees ro so k s p.
Proof.
  unfold build_page. destruct s as [si tx eff pre post prer postr rov sev]. intros Hb.
  rstep Hb as off1 H1. rstep Hb as ws1 Hw1. rstep Hb as off2 H2. rstep Hb as ws2 Hw2. rstep Hb as i Hi. rstep Hb as c Hc.
  rstep Hb as p1 Hp1. rstep Hb as q Hq. rstep Hb as p2 Hp2. rstep Hb as p3 Hp3. injection Hb as <-.
  apply index_of_Ok in H1, H2.
  unfold to_u32, usize_add in *. case_match; [|done]. case_match; [|done]. injection Hi as <-. injection Hq as <-.
  rewrite Nat.add_1_r in Hp2. split; cbn; eauto. unfold page_to_input. cbn. f_equal.
  - by eapply authenticate_values; [|exact Hw1].
  - by eapply authenticate_values; [|exact Hw2].
Qed.
End valid.

(** ** Artifacts *)

Section built.
Context `{Host}.

(** What [build_checkpoint_artifact_v1] returned, with its intermediate values. *)
Record built (session : Address) (er_slot : Z) (steps : list CheckpointStepInputV1.t) (a : CheckpointArtifactV1.t)
    (tl xl : list Hash32) (ro : list nat) (rl : list Hash32) (so : list nat) (sl : list Hash32) (trees : Trees)
    (descriptors : list DaPageDescriptorV1.t) (cp : CheckpointCommitmentV1.t) (manifest : DaManifestV1.t)
    (pages : list DaStepPageV1.t) : Prop := {
  bt_artifact : a = CheckpointArtifactV1.mk cp (DaPackageV1.mk manifest pages);
  bt_valid : validate_steps steps = Ok tt;
  bt_trace : trace_leaves_of steps = Ok tl;
  bt_transactions : Forall2 (λ step h, transaction_effect_leaf_hash (CheckpointStepInputV1.step_index step)
    (CheckpointStepInputV1.transaction step) (CheckpointStepInputV1.transaction_effect step) = Ok h) steps xl;
  bt_readonly : all_leaves readonly_l1_leaf_hash CheckpointStepInputV1.readonly_l1_values steps [] [] = Ok (ro, rl);
  bt_settlement : all_leaves settlement_effect_leaf_hash CheckpointStepInputV1.settlement_effects steps [] [] = Ok (so, sl);
  bt_trace_tree : MerkleTree.new TreeKind.Trace tl = Ok (trace_tree trees);
  bt_transaction_tree : MerkleTree.new TreeKind.TransactionEffect xl = Ok (transaction_tree trees);
  bt_readonly_tree : MerkleTree.new TreeKind.ReadonlyL1 rl = Ok (readonly_tree trees);
  bt_settlement_tree : MerkleTree.new TreeKind.SettlementEffect sl = Ok (settlement_tree trees);
  bt_pages : mapM_outcome (λ '(k, s), build_page trees ro so k s) (enumerate steps) = Ok pages;
  bt_trace_root : MerkleTree.root (trace_tree trees) = Ok (CheckpointCommitmentV1.trace_root cp);
  bt_transaction_root : MerkleTree.root (transaction_tree trees) = Ok (CheckpointCommitmentV1.transaction_effect_root cp);
  bt_readonly_root : MerkleTree.root (readonly_tree trees) = Ok (CheckpointCommitmentV1.readonly_l1_root cp);
  bt_settlement_root : MerkleTree.root (settlement_tree trees) = Ok (CheckpointCommitmentV1.effect_commitment cp);
  bt_descriptors : mapM_outcome describe pages = Ok descriptors;
  bt_manifest : manifest = DaManifestV1.mk 1 session er_slot (Z.of_nat (length steps)) DaCodecV1.Raw
    (typed_hash TreeKind.DataAvailability (str "dictionary") []) (CheckpointCommitmentV1.trace_root cp)
    (CheckpointCommitmentV1.transaction_effect_root cp) (CheckpointCommitmentV1.readonly_l1_root cp)
    (CheckpointCommitmentV1.effect_commitment cp) descriptors;
  bt_da : ∃ tree, MerkleTree.new TreeKind.DataAvailability
    (typed_hash TreeKind.DataAvailability (str "manifest") (enc borsh manifest)
     :: (DaPageDescriptorV1.payload_hash <$> descriptors)) = Ok tree ∧
    MerkleTree.root tree = Ok (CheckpointCommitmentV1.da_commitment cp);
  bt_identity : CheckpointCommitmentV1.version cp = 1 ∧ CheckpointCommitmentV1.session cp = session ∧
    CheckpointCommitmentV1.er_slot cp = er_slot ∧ CheckpointCommitmentV1.step_count cp = Z.of_nat (length steps);
  bt_first : CheckpointStepInputV1.pre_state_root <$> steps !! 0%nat = Some (CheckpointCommitmentV1.previous_state_root cp);
  bt_last : CheckpointStepInputV1.post_state_root <$> steps !! pred (length steps) = Some (CheckpointCommitmentV1.new_state_root cp)
}.

Lemma to_u32_inv n z : to_u32 n = Ok z → z = Z.of_nat n ∧ Z.of_nat n ≤ umax 32.
Proof. unfold to_u32. destruct (Z.leb_spec (Z.of_nat n) (umax 32)); [|done]. by intros [= <-]. Qed.

Lemma build_Ok session er steps a :
  build_checkpoint_artifact_v1 session er steps = Ok a →
  ∃ tl xl ro rl so sl trees ds cp manifest pages, built session er steps a tl xl ro rl so sl trees ds cp manifest pages.
Proof.
  unfold build_checkpoint_artifact_v1. intros Hb. rstep Hb as u Hv. destruct u. rstep Hb as tl Htl. rstep Hb as xl Hxl.
  rstep Hb as rr Hr. destruct rr as [ro rl]. rstep Hb as ss Hs. destruct ss as [so sl].
  rstep Hb as t1 Ht1. rstep Hb as t2 Ht2. rstep Hb as t3 Ht3. rstep Hb as t4 Ht4. rstep Hb as pages Hp.
  rstep Hb as r1 Hr1. rstep Hb as r2 Hr2. rstep Hb as r3 Hr3. rstep Hb as r4 Hr4. rstep Hb as ds Hds.
  rstep Hb as n Hn. apply to_u32_inv in Hn as [-> Hn]. cbv zeta in Hb. rstep Hb as mb Hmb. rstep Hb as dt Hdt. rstep Hb as dr Hdr.
  rstep Hb as s0 Hs0. rstep Hb as sn Hsn. injection Hb as <-. apply index_of_Ok in Hs0, Hsn.
  unfold encode in Hmb. destruct (fits_u32 ds); [|done]. injection Hmb as <-.
  exists tl, xl, ro, rl, so, sl, (mkTrees t1 t2 t3 t4), ds. do 3 eexists. split; try done; cbn.
  - by apply mapM_outcome_inv.
  - eauto.
  - by rewrite Hs0.
  - by rewrite Hsn.
Qed.

(** The trace tree has the state before step [k] at [k] and the state after it at
    [k + 1]. *)
Lemma trace_leaves_lookup steps tl k s :
  validate_steps steps = Ok tt → trace_leaves_of steps = Ok tl → steps !! k = Some s →
  length tl = S (length steps) ∧
  (∃ h, trace_leaf_hash (Z.of_nat k) (CheckpointStepInputV1.pre_state_root s) = Ok h ∧ tl !! k = Some h) ∧
  (∃ h, trace_leaf_hash (Z.of_nat k + 1) (CheckpointStepInputV1.post_state_root s) = Ok h ∧ tl !! S k = Some h).
Proof.
  intros [_ Hv]%validate_steps_Ok Ht Hk. unfold trace_leaves_of in Ht.
  rstep Ht as s0 Hs0. rstep Ht as h0 Hh0. rstep Ht as rest Hrest. injection Ht as <-. apply index_of_Ok in Hs0.
  apply mapM_outcome_inv in Hrest. split; [cbn; by rewrite <- (Forall2_length Hrest)|].
  assert (Hpost : ∀ j p, steps !! j = Some p → ∃ h,
    trace_leaf_hash (Z.of_nat j + 1) (CheckpointStepInputV1.post_state_root p) = Ok h ∧ rest !! j = Some h).
  { intros j p Hj. destruct (Forall2_lookup_l _ _ _ _ _ Hrest Hj) as (h & Hh & Hf). exists h. split; [|done].
    rewrite (sv_index _ _ _ (Hv _ _ Hj)) in Hf. unfold checked_add in Hf. by destruct (_ <=? _). }
  split; [|by apply Hpost]. destruct k as [|j]; [assert (s0 = s) as -> by congruence; by exists h0|].
  destruct (lookup_lt_is_Some_2 steps j) as [p Hp]; [apply lookup_lt_Some in Hk; lia|].
  destruct (Hpost j p Hp) as (h & Hh & Hr). exists h. split; [|done].
  rewrite <- (sv_chain _ _ _ (Hv _ _ Hk) j p eq_refl Hp). by rewrite Nat2Z.inj_succ, <- Z.add_1_r.
Qed.

Lemma values_verified {V W} kind (leaf : Z → Z → Z → V → outcome Hash32) make (parts : W → Z * Z * V * MerkleAuthenticationPathV1.t)
    leaves tree root off si values ws :
  (∀ g i v p, parts (make g i v p) = (g, i, v, p)) →
  MerkleTree.new kind leaves = Ok tree → MerkleTree.root tree = Ok root →
  authenticate make tree off values = Ok ws →
  (∀ j v, values !! j = Some v → ∃ h, leaf (Z.of_nat (off + j)) si (Z.of_nat j) v = Ok h ∧ leaves !! (off + j)%nat = Some h) →
  values_authenticated kind leaf si root parts ws = true.
Proof.
  intros Hparts Hnew Hroot [Hl Ha]%authenticate_Ok Hleaves. apply forallb_forall. intros w Hw%list_elem_of_In.
  apply list_elem_of_lookup in Hw as [j Hj]. destruct (lookup_lt_is_Some_2 values j) as [v Hv].
  { apply lookup_lt_Some in Hj. lia. }
  destruct (Ha j v Hv) as (p & Hp & Hpath), (Hleaves j v Hv) as (h & Hh & Hlf).
  assert (w = make (Z.of_nat (off + j)) (Z.of_nat j) v p) as -> by congruence. rewrite Hparts, Hh.
  destruct (path_accepted kind _ _ _ _ _ _ Hnew Hroot Hlf Hpath) as (-> & -> & _). by rewrite Z.eqb_refl.
Qed.

(** The checks of a page, as facts about its fields. *)
Lemma verify_paths_true p cp h1 h2 :
  let si := DaStepPageV1.step_index p in
  DaStepPageV1.version p = 1 → DaStepPageV1.page_index p = si →
  state_root_v1 (DaStepPageV1.pre_state_accounts p) = Ok (DaStepPageV1.pre_state_root p) →
  state_root_v1 (DaStepPageV1.post_state_accounts p) = Ok (DaStepPageV1.post_state_root p) →
  trace_leaf_hash si (DaStepPageV1.pre_state_root p) = Ok h1 → si + 1 ≤ umax 32 →
  trace_leaf_hash (si + 1) (DaStepPageV1.post_state_root p) = Ok h2 →
  transaction_effect_leaf_hash si (DaStepPageV1.transaction p) (DaStepPageV1.transaction_effect p)
    = Ok (DaStepPageV1.transaction_effect_commitment p) →
  path_verify (DaStepPageV1.pre_state_path p) TreeKind.Trace h1 (CheckpointCommitmentV1.trace_root cp) = true →
  path_verify (DaStepPageV1.post_state_path p) TreeKind.Trace h2 (CheckpointCommitmentV1.trace_root cp) = true →
  path_verify (DaStepPageV1.transaction_effect_path p) TreeKind.TransactionEffect
    (DaStepPageV1.transaction_effect_commitment p) (CheckpointCommitmentV1.transaction_effect_root cp) = true →
  values_authenticated TreeKind.ReadonlyL1 readonly_l1_leaf_hash si (CheckpointCommitmentV1.readonly_l1_root cp)
    readonly_parts (DaStepPageV1.readonly_l1_values p) = true →
  values_authenticated TreeKind.SettlementEffect settlement_effect_leaf_hash si
    (CheckpointCommitmentV1.effect_commitment cp) settlement_parts (DaStepPageV1.settlement_effects p) = true →
  verify_authentication_paths p cp = true.
Proof.
  destruct p. cbn [DaStepPageV1.step_index DaStepPageV1.version DaStepPageV1.page_index DaStepPageV1.pre_state_accounts
    DaStepPageV1.post_state_accounts DaStepPageV1.pre_state_root DaStepPageV1.post_state_root DaStepPageV1.transaction
    DaStepPageV1.transaction_effect DaStepPageV1.transaction_effect_commitment DaStepPageV1.pre_state_path
    DaStepPageV1.post_state_path DaStepPageV1.transaction_effect_path DaStepPageV1.readonly_l1_values
    DaStepPageV1.settlement_effects].
  intros -> -> G1 G2 G3 G4 G5 G6 G7 G8 G9 G10 G11. unfold verify_authentication_paths. cbv beta iota.
  unfold has_state_root, checked_add. rewrite G1, G2, !bool_decide_eq_true_2, Z.eqb_refl, G3, (proj2 (Z.leb_le _ _) G4), G5, G6 by done.
  rewrite G7, G8, G9, G10, G11, Z.eqb_refl. by rewrite bool_decide_eq_true_2.
Qed.

Section artifact.
Context session er steps a tl xl ro rl so sl trees ds cp manifest pages
  (Hb : built session er steps a tl xl ro rl so sl trees ds cp manifest pages).

Lemma built_page k p :
  pages !! k = Some p → ∃ s, steps !! k = Some s ∧ step_valid steps k s ∧ page_of trees ro so k s p.
Proof.
  intros Hp. destruct Hb. apply enumerate_mapM in bt_pages0 as [Hl Hall].
  destruct (lookup_lt_is_Some_2 steps k) as [s Hs]; [apply lookup_lt_Some in Hp; lia|].
  destruct (Hall k s Hs) as (p' & Hp' & Hf). assert (p' = p) as -> by congruence.
  exists s. split; [done|]. split; [by apply (validate_steps_Ok steps tt)|by apply build_page_Ok].
Qed.

Lemma built_inputs : page_to_input <$> pages = steps.
Proof.
  apply list_eq. intros k. rewrite list_lookup_fmap. destruct (pages !! k) as [p|] eqn:Hp.
  - destruct (built_page k p Hp) as (s & Hs & _ & Hpo). cbn. by rewrite (po_input _ _ _ _ _ _ Hpo).
  - destruct Hb. apply enumerate_mapM in bt_pages0 as [Hl _]. apply lookup_ge_None in Hp.
    cbn. symmetry. apply lookup_ge_None_2. lia.
Qed.

Lemma built_page_verified k p : pages !! k = Some p → verify_authentication_paths p cp = true.
Proof.
  intros Hp. destruct (built_page k p Hp) as (s & Hs & Hv & Hpo).
  pose proof (po_input _ _ _ _ _ _ Hpo) as <-. destruct Hb, Hpo, Hv.
  destruct (trace_leaves_lookup _ _ _ _ bt_valid0 bt_trace0 Hs) as (_ & (h1 & Hh1 & Hl1) & (h2 & Hh2 & Hl2)).
  destruct (Forall2_lookup_l _ _ _ _ _ bt_transactions0 Hs) as (h3 & Hl3 & Hh3).
  destruct po_readonly0 as (o1 & Ho1 & Ha1), po_settlement0 as (o2 & Ho2 & Ha2).
  apply all_leaves_Ok in bt_readonly0 as (no1 & nl1 & -> & -> & Hro), bt_settlement0 as (no2 & nl2 & -> & -> & Hse).
  destruct (Hro k _ Hs) as (o1' & Hn1 & Hro1), (Hse k _ Hs) as (o2' & Hn2 & Hse2).
  rewrite !app_nil_l in *. assert (o1' = o1) as -> by congruence. assert (o2' = o2) as -> by congruence.
  assert (h3 = DaStepPageV1.transaction_effect_commitment p) as -> by congruence.
  cbn [page_to_input CheckpointStepInputV1.step_index CheckpointStepInputV1.pre_state_root
    CheckpointStepInputV1.post_state_root CheckpointStepInputV1.transaction CheckpointStepInputV1.transaction_effect
    CheckpointStepInputV1.pre_state_accounts CheckpointStepInputV1.post_state_accounts] in *.
  assert (Hk : Z.of_nat k + 1 ≤ umax 32).
  { apply lookup_lt_Some in Hs. apply validate_steps_Ok in bt_valid0 as [? _]. unfold umax. lia. }
  rewrite <- sv_index0 in *. eapply (verify_paths_true p cp h1 h2); try done.
  - by destruct (path_accepted _ _ _ _ _ _ _ bt_trace_tree0 bt_trace_root0 Hl1 po_pre0) as (-> & _).
  - by destruct (path_accepted _ _ _ _ _ _ _ bt_trace_tree0 bt_trace_root0 Hl2 po_post0) as (-> & _).
  - by destruct (path_accepted _ _ _ _ _ _ _ bt_transaction_tree0 bt_transaction_root0 Hl3 po_effect0) as (-> & _).
  - eapply values_verified; [|exact bt_readonly_tree0|done|exact Ha1|exact Hro1]. done.
  - eapply values_verified; [|exact bt_settlement_tree0|done|exact Ha2|exact Hse2]. done.
Qed.
End artifact.
End built.

(** ** Artifacts fit their encoding *)

Lemma vec_wf {A} (c : codec A) l : Z.of_nat (length l) ≤ umax 32 → Forall (wf c) l → wf (vec c) l.
Proof. done. Qed.
Lemma blob_wf l : Z.of_nat (length l) ≤ umax 32 → wf blob l.
Proof. done. Qed.

Section fits.
Context `{HostLaws}.
Abbreviation hashes := (Forall (λ h : Hash32, length h = 32%nat)).

(** The machine widths of a step. *)
Definition step_typed (s : CheckpointStepInputV1.t) : Prop :=
  Forall (wf borsh) (CheckpointStepInputV1.pre_state_accounts s) ∧
  Forall (wf borsh) (CheckpointStepInputV1.post_state_accounts s) ∧
  length (CheckpointStepInputV1.pre_state_root s) = 32%nat ∧ length (CheckpointStepInputV1.post_state_root s) = 32%nat ∧
  Forall (wf borsh) (CheckpointStepInputV1.readonly_l1_values s).

Lemma trace_leaf_length i r h : trace_leaf_hash i r = Ok h → length h = 32%nat.
Proof. intros Hh. rstep Hh as bs Hbs. injection Hh as <-. apply typed_hash_length. Qed.
Lemma transaction_leaf_length i tx eff h : transaction_effect_leaf_hash i tx eff = Ok h → length h = 32%nat.
Proof. intros Hh. rstep Hh as bs Hbs. injection Hh as <-. rewrite mask_root_length. apply typed_hash_length. Qed.
Lemma readonly_leaf_length g s i v h : readonly_l1_leaf_hash g s i v = Ok h → length h = 32%nat.
Proof. intros Hh. rstep Hh as bs Hbs. injection Hh as <-. apply typed_hash_length. Qed.
Lemma settlement_leaf_length g s i v h : settlement_effect_leaf_hash g s i v = Ok h → length h = 32%nat.
Proof. intros Hh. rstep Hh as bs Hbs. injection Hh as <-. apply typed_hash_length. Qed.

Lemma step_leaves_hashes {V} (leaf : Z → Z → Z → V → outcome Hash32) si values :
  (∀ g s i v h, leaf g s i v = Ok h → length h = 32%nat) → ∀ vi leaves leaves',
  hashes leaves → step_leaves leaf si vi values leaves = Ok leaves' → hashes leaves'.
Proof.
  intros Hleaf. induction values as [|v values IH]; intros vi leaves leaves' Hl Hs; cbn in Hs; [by injection Hs as <-|].
  rstep Hs as g Hg. rstep Hs as i Hi. rstep Hs as h Hh. eapply IH; [|done].
  apply Forall_app. split; [done|]. constructor; [by eapply Hleaf|done].
Qed.

Lemma all_leaves_hashes {V} (leaf : Z → Z → Z → V → outcome Hash32) values steps :
  (∀ g s i v h, leaf g s i v = Ok h → length h = 32%nat) → ∀ offs leaves offs' leaves',
  hashes leaves → all_leaves leaf values steps offs leaves = Ok (offs', leaves') → hashes leaves'.
Proof.
  intros Hleaf. induction steps as [|s steps IH]; intros offs leaves offs' leaves' Hl Ha; cbn in Ha; [by injection Ha as _ <-|].
  rstep Ha as l1 Hs. eapply IH; [|done]. by eapply step_leaves_hashes.
Qed.

Lemma trace_leaves_hashes steps tl : trace_leaves_of steps = Ok tl → hashes tl.
Proof.
  intros Ht. unfold trace_leaves_of in Ht. rstep Ht as s0 Hs0. rstep Ht as h0 Hh0. rstep Ht as rest Hrest. injection Ht as <-.
  constructor; [by eapply trace_leaf_length|]. apply mapM_outcome_inv in Hrest.
  clear - Hrest H H0. induction Hrest as [|s h l hs Hf _ IH]; [constructor|]. constructor; [|done]. case_match; [by eapply trace_leaf_length|done].
Qed.

(** ** Sizes *)

(** The value fits its encoding, which takes at most [n] bytes. *)
Definition fits {A} (c : codec A) (n : Z) (x : A) : Prop := wf c x ∧ Z.of_nat (length (enc c x)) ≤ n.

Lemma fits_sized {A} (c : codec A) n `{!CodecSize c n} x : wf c x → fits c (Z.of_nat n) x.
Proof. intros Hx. split; [done|]. rewrite codec_size by done. lia. Qed.

Lemma fits_blob n l : Z.of_nat (length l) ≤ n → n ≤ umax 32 → fits blob (4 + n) l.
Proof.
  intros Hl Hn. split; [apply blob_wf; lia|]. cbn [enc blob counted uint bytes]. rewrite length_app, length_le_bytes. lia.
Qed.

Lemma fits_vec {A} (c : codec A) m n l :
  Z.of_nat (length l) ≤ m → m ≤ umax 32 → 0 ≤ n → Forall (fits c n) l → fits (vec c) (4 + m * n) l.
Proof.
  intros Hl Hm Hn Hf. split; [apply vec_wf; [lia|by eapply list.Forall_impl; [exact Hf|intros ? []]]|].
  cbn [enc vec counted uint array]. rewrite length_app, length_le_bytes.
  assert (Z.of_nat (length (concat (enc c <$> l))) ≤ Z.of_nat (length l) * n); [|nia].
  clear Hl. induction Hf as [|x l [_ Hx] _ IH]; [cbn; lia|]. cbn [fmap list_fmap concat length]. rewrite length_app. lia.
Qed.

Lemma fits_pair {A B} (ca : codec A) (cb : codec B) n m a b : fits ca n a → fits cb m b → fits (ca *c cb) (n + m) (a, b).
Proof. intros [Ha Hn] [Hb Hm]. split; [done|]. cbn [enc pair_c fst snd]. rewrite length_app. lia. Qed.

Lemma fits_mono {A} (c : codec A) n m x : fits c n x → n ≤ m → fits c m x.
Proof. intros [??] ?. split; [done|lia]. Qed.

Lemma path_fits_bytes kind leaves t i p :
  hashes leaves → MerkleTree.new kind leaves = Ok t → MerkleTree.path t i = Ok p → fits borsh 1036 p.
Proof.
  intros Hl Hnew Hp. destruct (path_wf kind _ _ _ _ Hl Hnew Hp) as [[Hi [Hc Hs]] Hlen]. destruct p as [i' n' sibs].
  change (fits (u32c *c u32c *c vec (bytes 32)) 1036 (i', (n', sibs))).
  eapply fits_mono; [apply fits_pair; [by apply (fits_sized _ 4)|apply fits_pair; [by apply (fits_sized _ 4)|]]|].
  - apply (fits_vec (bytes 32) 32 32); [cbn in *; lia|unfold umax; lia|lia|].
    destruct Hs as [_ [_ Hs]]. eapply list.Forall_impl; [exact Hs|]. intros h Hh. by apply (fits_sized _ 32).
  - lia.
Qed.

Lemma authenticate_fits {V W} (make : Z → Z → V → MerkleAuthenticationPathV1.t → W) (P : W → Prop) kind leaves tree off values ws :
  hashes leaves → MerkleTree.new kind leaves = Ok tree → authenticate make tree off values = Ok ws →
  (∀ g i v p, fits u32c 4 g → fits u32c 4 i → v ∈ values → fits borsh 1036 p → P (make g i v p)) → Forall P ws.
Proof.
  intros Hl Hnew Ha HP. apply mapM_outcome_inv in Ha. apply Forall_lookup. intros k w Hw.
  destruct (Forall2_lookup_r _ _ _ _ _ Ha Hw) as ([j v] & Hv & Hf). apply list_elem_of_lookup_2, enumerate_elem in Hv.
  rstep Hf as o Ho. rstep Hf as g Hg. rstep Hf as i Hi. rstep Hf as p Hp. injection Hf as <-.
  apply to_u32_inv in Hg as [-> ?], Hi as [-> ?].
  apply HP; [apply (fits_sized _ 4); change (in_width 32 (Z.of_nat o))
            |apply (fits_sized _ 4); change (in_width 32 (Z.of_nat j))
            |by eapply list_elem_of_lookup_2|by eapply path_fits_bytes]; unfold in_width; lia.
Qed.

(** The trees of a checkpoint, over these leaves. *)
Record forest (tl xl rl sl : list Hash32) (trees : Trees) : Prop := {
  fo_trace : MerkleTree.new TreeKind.Trace tl = Ok (trace_tree trees);
  fo_transaction : MerkleTree.new TreeKind.TransactionEffect xl = Ok (transaction_tree trees);
  fo_readonly : MerkleTree.new TreeKind.ReadonlyL1 rl = Ok (readonly_tree trees);
  fo_settlement : MerkleTree.new TreeKind.SettlementEffect sl = Ok (settlement_tree trees);
  fo_hashes : hashes tl ∧ hashes xl ∧ hashes rl ∧ hashes sl
}.

Lemma readonly_values_fit tl xl rl sl trees off values ws :
  forest tl xl rl sl trees → Forall (wf borsh) values → (length values ≤ 256)%nat →
  authenticate AuthenticatedReadonlyL1ValueV1.mk (readonly_tree trees) off values = Ok ws →
  fits (vec borsh) (4 + 256 * 1156) ws.
Proof.
  intros [_ _ Hr _ (_ & _ & Hh & _)] Hv Hn Ha. pose proof (proj1 (authenticate_Ok _ _ _ _ _ Ha)) as Hl.
  apply fits_vec; [lia|unfold umax; lia|lia|]. eapply authenticate_fits; [exact Hh|exact Hr|exact Ha|].
  intros g i v p Hg Hi Hin Hp. pose proof (proj1 (list.Forall_forall _ _) Hv v Hin) as Hwv.
  change (fits (u32c *c u32c *c borsh (A:=ReadonlyL1ValueV1.t) *c borsh (A:=MerkleAuthenticationPathV1.t)) 1156 (g, (i, (v, p)))).
  apply (fits_pair _ _ 4 1152); [done|]. apply (fits_pair _ _ 4 1148); [done|]. apply (fits_pair _ _ 112 1036); [|done].
  by apply (fits_sized _ 112).
Qed.

Lemma settlement_values_fit tl xl rl sl trees off values ws :
  forest tl xl rl sl trees → Forall (λ e, Z.of_nat (length e) ≤ MAX_SETTLEMENT_EFFECT_BYTES_V1) values →
  (length values ≤ 256)%nat →
  authenticate AuthenticatedSettlementEffectV1.mk (settlement_tree trees) off values = Ok ws →
  fits (vec borsh) (4 + 256 * 17432) ws.
Proof.
  intros [_ _ _ Hr (_ & _ & _ & Hh)] Hv Hn Ha. pose proof (proj1 (authenticate_Ok _ _ _ _ _ Ha)) as Hl.
  apply fits_vec; [lia|unfold umax; lia|lia|]. eapply authenticate_fits; [exact Hh|exact Hr|exact Ha|].
  intros g i v p Hg Hi Hin Hp. pose proof (proj1 (list.Forall_forall _ _) Hv v Hin) as Hwv.
  change (fits (u32c *c u32c *c blob *c borsh (A:=MerkleAuthenticationPathV1.t)) 17432 (g, (i, (v, p)))).
  apply (fits_pair _ _ 4 17428); [done|]. apply (fits_pair _ _ 4 17424); [done|]. apply (fits_pair _ _ 16388 1036); [|done].
  apply (fits_blob 16384); [done|unfold umax; lia].
Qed.

Lemma accounts_fit l :
  Forall (wf (borsh (A:=StateAccountValueV1.t))) l → (length l ≤ 4096)%nat → fits (vec borsh) (4 + 4096 * 113) l.
Proof.
  intros Hl Hn. apply fits_vec; [lia|unfold umax; lia|lia|]. eapply list.Forall_impl; [exact Hl|].
  intros x Hx. by apply (fits_sized _ 113).
Qed.

Lemma fits_struct {A B} (to : A → B) (from : B → A) c n x : fits c n (to x) → fits (struct to from c) n x.
Proof. done. Qed.

(** A page takes at most 7 MB. *)
Lemma page_of_fits steps tl xl rl sl trees ro so k s p :
  (k < 16)%nat → forest tl xl rl sl trees → step_valid steps k s → step_typed s → page_of trees ro so k s p →
  fits borsh 7000000 p.
Proof.
  intros Hk Hfo Hv Ht Hpo. pose proof (po_input _ _ _ _ _ _ Hpo) as <-. destruct Hpo, Hv, Ht as (Ht1 & Ht2 & Ht3 & Ht4 & Ht5).
  destruct po_readonly0 as (o1 & _ & Ha1), po_settlement0 as (o2 & _ & Ha2), sv_settlement0 as [Hsl Hse].
  pose proof (readonly_values_fit _ _ _ _ _ _ _ _ Hfo Ht5 sv_readonly0 Ha1) as Hr.
  assert (Hs : fits (vec borsh) (4 + 256 * 17432) (DaStepPageV1.settlement_effects p)).
  { eapply settlement_values_fit; [done| |done|done]. eapply list.Forall_impl; [exact Hse|]. cbv beta. lia. }
  pose proof Hfo as [Hf1 Hf2 _ _ (Hh1 & Hh2 & _ & _)].
  pose proof (path_fits_bytes _ _ _ _ _ Hh1 Hf1 po_pre0) as Hp1. pose proof (path_fits_bytes _ _ _ _ _ Hh1 Hf1 po_post0) as Hp2.
  pose proof (path_fits_bytes _ _ _ _ _ Hh2 Hf2 po_effect0) as Hp3. apply transaction_leaf_length in po_commitment0.
  assert (Hu : fits u32c 4 (Z.of_nat k)).
  { apply (fits_sized _ 4). change (in_width 32 (Z.of_nat k)). unfold in_width, umax. lia. }
  cbn [page_to_input CheckpointStepInputV1.step_index CheckpointStepInputV1.pre_state_root
    CheckpointStepInputV1.post_state_root CheckpointStepInputV1.transaction CheckpointStepInputV1.transaction_effect
    CheckpointStepInputV1.pre_state_accounts CheckpointStepInputV1.post_state_accounts] in *.
  eapply fits_mono; [apply fits_struct; unfold DaStepPageV1.to_tuple;
    repeat lazymatch goal with |- fits (_ *c _) _ _ => apply fits_pair end|].
  - apply (fits_sized _ 1). rewrite po_version0. change (in_width 8 1). unfold in_width, umax. lia.
  - by rewrite po_index0.
  - by rewrite sv_index0.
  - apply (fits_blob 1232); unfold umax; lia.
  - apply (fits_blob MAX_TRANSACTION_EFFECT_BYTES_V1); unfold umax, MAX_TRANSACTION_EFFECT_BYTES_V1 in *; lia.
  - by apply (fits_sized (bytes 32) 32).
  - apply accounts_fit; [done|apply sv_accounts0].
  - apply accounts_fit; [done|apply sv_accounts0].
  - by apply (fits_sized (bytes 32) 32).
  - by apply (fits_sized (bytes 32) 32).
  - exact Hp1.
  - exact Hp2.
  - exact Hp3.
  - exact Hr.
  - exact Hs.
  - unfold MAX_TRANSACTION_EFFECT_BYTES_V1. lia.
Qed.

Section typed.
Context session er steps a tl xl ro rl so sl trees ds cp manifest pages
  (Hb : built session er steps a tl xl ro rl so sl trees ds cp manifest pages)
  (Hs : Forall step_typed steps) (Hses : length session = 32%nat) (Her : is_u64 er).

Lemma transaction_leaves_hashes steps' xl' :
  Forall2 (λ step h, transaction_effect_leaf_hash (CheckpointStepInputV1.step_index step)
    (CheckpointStepInputV1.transaction step) (CheckpointStepInputV1.transaction_effect step) = Ok h) steps' xl' → hashes xl'.
Proof. intros Hx. induction Hx; [constructor|]. constructor; [by eapply transaction_leaf_length|done]. Qed.

Lemma built_forest : forest tl xl rl sl trees.
Proof.
  destruct Hb. split; try done. split_and!; [by eapply trace_leaves_hashes|by eapply transaction_leaves_hashes|..].
  - eapply all_leaves_hashes; [apply readonly_leaf_length|constructor|done].
  - eapply all_leaves_hashes; [apply settlement_leaf_length|constructor|done].
Qed.

Lemma built_page_wf k p : pages !! k = Some p → wf borsh p.
Proof.
  intros Hp. destruct (built_page _ _ _ _ _ _ _ _ _ _ _ _ _ _ _ Hb k p Hp) as (s & Hk & Hv & Hpo).
  pose proof (Forall_lookup_1 _ _ _ _ Hs Hk) as Ht. pose proof (bt_valid _ _ _ _ _ _ _ _ _ _ _ _ _ _ _ Hb) as [Hlen _]%validate_steps_Ok.
  apply lookup_lt_Some in Hk. eapply page_of_fits; [|exact built_forest|done|done|done]. lia.
Qed.

Lemma descriptors_wf : Forall (wf borsh) ds ∧ length ds = length pages.
Proof.
  destruct Hb. apply mapM_outcome_inv in bt_descriptors0. split; [|by rewrite (Forall2_length bt_descriptors0)].
  apply Forall_lookup. intros k d Hd. destruct (Forall2_lookup_r _ _ _ _ _ bt_descriptors0 Hd) as (p & Hp & Hf).
  pose proof (built_page_wf k p Hp) as (_ & Hi & Hsi & _). unfold describe, page_hash in Hf. rstep Hf as hp Hhp.
  rstep Hhp as bs Hbs. injection Hhp as <-. rstep Hf as n Hn. injection Hf as <-. apply to_u32_inv in Hn as [-> ?].
  assert (in_width 32 (Z.of_nat (length bs))) by (unfold in_width; lia).
  pose proof (typed_hash_length TreeKind.DataAvailability (str "page") bs). wf_fields.
Qed.

Lemma tree_root_length t r : MerkleTree.root t = Ok r → length r = 32%nat.
Proof. intros Hr. unfold MerkleTree.root in Hr. rstep Hr as i Hi. injection Hr as <-. apply root_hash_length. Qed.

Lemma built_wf : wf borsh a.
Proof.
  pose proof descriptors_wf as [Hd Hdl]. assert (Hpw : Forall (wf borsh) pages).
  { apply Forall_lookup. apply built_page_wf. }
  pose proof Hb as Hb'. destruct Hb'.
  pose proof (enumerate_mapM _ _ _ bt_pages0) as [Hpl _]. apply validate_steps_Ok in bt_valid0 as [Hlen Hvalid].
  pose proof (tree_root_length _ _ bt_trace_root0). pose proof (tree_root_length _ _ bt_transaction_root0).
  pose proof (tree_root_length _ _ bt_readonly_root0). pose proof (tree_root_length _ _ bt_settlement_root0).
  destruct bt_da0 as (dt & _ & Hdr). pose proof (tree_root_length _ _ Hdr). destruct bt_identity0 as (Hv & Hcs & Hce & Hcn).
  assert (length (CheckpointCommitmentV1.previous_state_root cp) = 32%nat).
  { destruct (steps !! 0%nat) eqn:E; [|done]. injection bt_first0 as <-. by apply (Forall_lookup_1 _ _ _ _ Hs E). }
  assert (length (CheckpointCommitmentV1.new_state_root cp) = 32%nat).
  { destruct (steps !! pred _) eqn:E; [|done]. injection bt_last0 as <-. by apply (Forall_lookup_1 _ _ _ _ Hs E). }
  assert (in_width 32 (Z.of_nat (length steps))) by (unfold in_width, umax; lia).
  assert (in_width 8 1) by (unfold in_width, umax; lia).
  pose proof (typed_hash_length TreeKind.DataAvailability (str "dictionary") []).
  assert (wf (vec borsh) ds) by (apply vec_wf; [unfold umax; lia|done]).
  assert (wf (vec borsh) pages) by (apply vec_wf; [unfold umax; lia|done]).
  assert (wf borsh cp). { rewrite <- Hv, <- Hcs, <- Hce, <- Hcn in *. wf_fields. }
  assert (wf borsh manifest). { rewrite bt_manifest0. wf_fields. }
  assert (wf borsh (DaPackageV1.mk manifest pages)) by wf_fields.
  rewrite bt_artifact0. wf_fields.
Qed.
End typed.
End fits.

Lemma wf_fits_u32 {A} (l : list A) : Z.of_nat (length l) ≤ umax 32 → fits_u32 l = true.
Proof. intros. by apply Z.leb_le. Qed.

Lemma page_wf_fits p : wf borsh p → page_fits p = true.
Proof.
  intros (_ & _ & _ & [G1 _] & [G2 _] & _ & [G3 _] & [G4 _] & _ & _ & (_ & _ & G5 & _) & (_ & _ & G6 & _) & (_ & _ & G7 & _)
          & (G8 & _ & G9) & (G10 & _ & G11)).
  unfold page_fits, path_fits.
  rewrite !wf_fits_u32 by assumption. cbn [andb]. rewrite andb_true_iff. split.
  - rewrite andb_true_r. apply forallb_forall. intros v Hv%list_elem_of_In.
    destruct (proj1 (list.Forall_forall _ _) G9 v Hv) as (_ & _ & _ & _ & _ & Hl & _). by apply wf_fits_u32.
  - apply forallb_forall. intros v Hv%list_elem_of_In.
    destruct (proj1 (list.Forall_forall _ _) G11 v Hv) as (_ & _ & [Hl1 _] & _ & _ & Hl2 & _). by rewrite !wf_fits_u32.
Qed.

Lemma artifact_wf_fits a : wf borsh a → artifact_fits a = true.
Proof.
  intros (_ & (_ & _ & _ & _ & _ & _ & _ & _ & _ & _ & G1 & _) & G2 & _ & G3). unfold artifact_fits.
  rewrite !wf_fits_u32 by assumption. apply forallb_forall. intros p Hp%list_elem_of_In. apply page_wf_fits.
  by apply (proj1 (list.Forall_forall _ _) G3).
Qed.

(** ** Validated steps can always be packed *)

Section total.
Context `{HostLaws}.

Lemma tree_total kind leaves :
  Z.of_nat (length leaves) ≤ umax 32 →
  ∃ t r, MerkleTree.new kind leaves = Ok t ∧ MerkleTree.root t = Ok r ∧
    ∀ i, (i < length leaves)%nat → ∃ p, MerkleTree.path t i = Ok p.
Proof.
  intros Hn. destruct (tree_complete kind leaves Hn) as (ls & top & Hnew & Hlast & Hall).
  exists (MerkleTree.mk kind (Z.of_nat (length leaves)) ls). eexists. split; [done|]. split.
  - unfold MerkleTree.root, MerkleTree.inner. cbn. by rewrite Hlast.
  - intros i Hi. destruct (lookup_lt_is_Some_2 leaves i Hi) as [x Hx]. destruct (Hall i x Hx) as (sibs & Hs & _).
    unfold MerkleTree.path. cbn. destruct (Z.leb_spec (Z.of_nat (length leaves)) (Z.of_nat i)); [lia|].
    rewrite Hs. cbn. rewrite to_u32_Ok by lia. cbn. eauto.
Qed.

Lemma step_leaves_total {V} (leaf : Z → Z → Z → V → outcome Hash32) si values :
  (∀ g s i v, v ∈ values → ∃ h, leaf g s i v = Ok h) → ∀ vi leaves,
  Z.of_nat (length leaves + length values) ≤ umax 32 → Z.of_nat (vi + length values) ≤ umax 32 →
  ∃ leaves', step_leaves leaf si vi values leaves = Ok leaves' ∧ length leaves' = (length leaves + length values)%nat.
Proof.
  intros Hleaf. induction values as [|v values IH]; intros vi leaves Hl Hv; cbn [step_leaves length] in *.
  { exists leaves. split; [done|lia]. }
  rewrite to_u32_Ok by lia. cbn [mbind result_bind]. rewrite to_u32_Ok by lia. cbn [mbind result_bind].
  destruct (Hleaf (Z.of_nat (length leaves)) si (Z.of_nat vi) v) as [h ->]; [by left|]. cbn [mbind result_bind].
  destruct (IH (λ g s i w Hw, Hleaf g s i w (list_elem_of_further _ _ _ Hw)) (S vi) (leaves ++ [h])) as (l' & Hl' & Hlen);
    rewrite ?length_app; cbn [length]; try lia. exists l'. split; [done|]. rewrite length_app in Hlen. cbn [length] in Hlen. lia.
Qed.

Lemma all_leaves_total {V} (leaf : Z → Z → Z → V → outcome Hash32) (values : CheckpointStepInputV1.t → list V) steps :
  Forall (λ s, (length (values s) ≤ 256)%nat ∧ ∀ g i j v, v ∈ values s → ∃ h, leaf g i j v = Ok h) steps → ∀ offs leaves,
  Z.of_nat (length leaves) + 256 * Z.of_nat (length steps) ≤ umax 32 →
  ∃ offs' leaves', all_leaves leaf values steps offs leaves = Ok (offs', leaves') ∧
    Z.of_nat (length leaves') ≤ Z.of_nat (length leaves) + 256 * Z.of_nat (length steps).
Proof.
  intros Hs. induction Hs as [|s steps [Hl Hf] _ IH]; intros offs leaves Hn; cbn [all_leaves length] in *.
  { do 2 eexists. split; [done|lia]. }
  destruct (step_leaves_total leaf (CheckpointStepInputV1.step_index s) (values s) Hf 0 leaves) as (l1 & Hl1 & Hlen); [lia..|].
  rewrite Hl1. cbn [mbind result_bind].
  destruct (IH (offs ++ [length leaves]) l1) as (o & l2 & Hl2 & Hle); [lia|]. exists o, l2. split; [done|lia].
Qed.

Lemma authenticate_total {V W} (make : Z → Z → V → MerkleAuthenticationPathV1.t → W) tree off values n :
  (∀ i, (i < n)%nat → ∃ p, MerkleTree.path tree i = Ok p) → Z.of_nat n ≤ umax 32 →
  (∀ j, (j < length values)%nat → (off + j < n)%nat) →
  ∃ ws, authenticate make tree off values = Ok ws.
Proof.
  intros Hp Hn Hj. destruct (mapM_outcome_Ok (λ '(value_index, value),
    global_index ← usize_add off value_index; g ← to_u32 global_index; i ← to_u32 value_index;
    path ← MerkleTree.path tree global_index; Ok (make g i value path)) (enumerate values)) as (ws & Hws & _); [|eauto].
  intros [j v] Hin. apply enumerate_elem, lookup_lt_Some, Hj in Hin. unfold usize_add.
  destruct (Z.leb_spec (Z.of_nat (off + j)) (umax 64)); [|unfold umax in *; lia]. cbn [mbind result_bind].
  rewrite to_u32_Ok by lia. cbn [mbind result_bind]. rewrite to_u32_Ok by lia. cbn [mbind result_bind].
  destruct (Hp _ Hin) as [p ->]. cbn [mbind result_bind]. eauto.
Qed.

Lemma trace_leaves_total steps :
  validate_steps steps = Ok tt → ∃ tl, trace_leaves_of steps = Ok tl ∧ length tl = S (length steps).
Proof.
  intros [Hlen Hv]%validate_steps_Ok. destruct (lookup_lt_is_Some_2 steps 0) as [s0 Hs0]; [lia|].
  unfold trace_leaves_of, index_of. rewrite Hs0. cbn [mbind result_bind trace_leaf_hash encode].
  match goal with |- context [mapM_outcome ?f steps] => destruct (mapM_outcome_Ok f steps) as (rest & Hr & Hl) end.
  - intros s [k Hk]%list_elem_of_lookup. pose proof (lookup_lt_Some _ _ _ Hk). rewrite (sv_index _ _ _ (Hv _ _ Hk)).
    unfold checked_add. destruct (Z.leb_spec (Z.of_nat k + 1) (umax 32)); [eauto|unfold umax in *; lia].
  - rewrite Hr. cbn [mbind result_bind]. eexists. split; [done|]. cbn. by rewrite Hl.
Qed.

Lemma transaction_leaves_total steps :
  validate_steps steps = Ok tt → ∃ xl, mapM_outcome (λ step,
    transaction_effect_leaf_hash (CheckpointStepInputV1.step_index step) (CheckpointStepInputV1.transaction step)
      (CheckpointStepInputV1.transaction_effect step)) steps = Ok xl ∧ length xl = length steps.
Proof.
  intros [Hlen Hv]%validate_steps_Ok. apply mapM_outcome_Ok. intros s [k Hk]%list_elem_of_lookup.
  destruct (Hv _ _ Hk). unfold transaction_effect_leaf_hash, encode, MAX_TRANSACTION_EFFECT_BYTES_V1 in *.
  rewrite !wf_fits_u32 by (unfold umax; lia). cbn. eauto.
Qed.

(** Paths for every index below [n]. *)
Abbreviation paths_below t n := (∀ i, (i < n)%nat → ∃ p, MerkleTree.path t i = Ok p).

Lemma page_total trees ro so nr ns n k s o1 o2 :
  (k < n)%nat → Z.of_nat (S n) ≤ umax 32 → Z.of_nat nr ≤ umax 32 → Z.of_nat ns ≤ umax 32 →
  paths_below (trace_tree trees) (S n) → paths_below (transaction_tree trees) n →
  paths_below (readonly_tree trees) nr → paths_below (settlement_tree trees) ns →
  ro !! k = Some o1 → so !! k = Some o2 →
  (∀ j, (j < length (CheckpointStepInputV1.readonly_l1_values s))%nat → (o1 + j < nr)%nat) →
  (∀ j, (j < length (CheckpointStepInputV1.settlement_effects s))%nat → (o2 + j < ns)%nat) →
  (∃ h, transaction_effect_leaf_hash (CheckpointStepInputV1.step_index s) (CheckpointStepInputV1.transaction s)
     (CheckpointStepInputV1.transaction_effect s) = Ok h) →
  ∃ p, build_page trees ro so k s = Ok p.
Proof.
  intros Hk Hn Hnr Hns Ht Hx Hr Hse Ho1 Ho2 Hj1 Hj2 [h Hh]. destruct s. cbn in Hh, Hj1, Hj2. unfold build_page, index_of.
  rewrite Ho1, Ho2. cbn [mbind result_bind].
  destruct (authenticate_total AuthenticatedReadonlyL1ValueV1.mk _ _ _ _ Hr Hnr Hj1) as [ws1 ->]. cbn [mbind result_bind].
  destruct (authenticate_total AuthenticatedSettlementEffectV1.mk _ _ _ _ Hse Hns Hj2) as [ws2 ->]. cbn [mbind result_bind].
  rewrite to_u32_Ok by lia. cbn [mbind result_bind]. rewrite Hh. cbn [mbind result_bind].
  destruct (Ht k) as [p1 ->]; [lia|]. cbn [mbind result_bind]. unfold usize_add.
  destruct (Z.leb_spec (Z.of_nat (k + 1)) (umax 64)); [|unfold umax in *; lia]. cbn [mbind result_bind].
  destruct (Ht (k + 1)%nat) as [p2 ->]; [lia|]. cbn [mbind result_bind]. destruct (Hx k) as [p3 ->]; [lia|]. cbn [mbind result_bind]. eauto.
Qed.

Lemma describe_total p : fits borsh 7000000 p → ∃ d, describe p = Ok d.
Proof.
  intros [Hw Hs]. unfold describe, page_hash, encode. rewrite page_wf_fits by done. cbn [mbind result_bind].
  rewrite to_u32_Ok by (unfold umax; lia). cbn [mbind result_bind]. eauto.
Qed.

(** The offsets of a step leave room for its values. *)
Lemma offsets_room {V} (leaf : Z → Z → Z → V → outcome Hash32) values steps offs leaves k s :
  all_leaves leaf values steps [] [] = Ok (offs, leaves) → steps !! k = Some s →
  ∃ off, offs !! k = Some off ∧ ∀ j, (j < length (values s))%nat → (off + j < length leaves)%nat.
Proof.
  intros (no & nl & -> & -> & Hall)%all_leaves_Ok Hk. destruct (Hall k s Hk) as (off & Ho & Hv). exists off. split; [done|].
  intros j Hj. destruct (lookup_lt_is_Some_2 (values s) j Hj) as [v Hvj]. destruct (Hv j v Hvj) as (h & _ & Hl).
  by eapply lookup_lt_Some.
Qed.

(** The four trees of validated steps. *)
Lemma trees_total steps :
  Forall step_typed steps → validate_steps steps = Ok tt →
  ∃ tl xl ro rl so sl trees r1 r2 r3 r4,
    trace_leaves_of steps = Ok tl ∧ length tl = S (length steps) ∧
    mapM_outcome (λ step, transaction_effect_leaf_hash (CheckpointStepInputV1.step_index step)
      (CheckpointStepInputV1.transaction step) (CheckpointStepInputV1.transaction_effect step)) steps = Ok xl ∧
    length xl = length steps ∧
    all_leaves readonly_l1_leaf_hash CheckpointStepInputV1.readonly_l1_values steps [] [] = Ok (ro, rl) ∧
    all_leaves settlement_effect_leaf_hash CheckpointStepInputV1.settlement_effects steps [] [] = Ok (so, sl) ∧
    Z.of_nat (length rl) ≤ 4096 ∧ Z.of_nat (length sl) ≤ 4096 ∧ forest tl xl rl sl trees ∧
    MerkleTree.root (trace_tree trees) = Ok r1 ∧ MerkleTree.root (transaction_tree trees) = Ok r2 ∧
    MerkleTree.root (readonly_tree trees) = Ok r3 ∧ MerkleTree.root (settlement_tree trees) = Ok r4 ∧
    paths_below (trace_tree trees) (S (length steps)) ∧ paths_below (transaction_tree trees) (length steps) ∧
    paths_below (readonly_tree trees) (length rl) ∧ paths_below (settlement_tree trees) (length sl).
Proof.
  intros Hty Hv. pose proof (validate_steps_Ok _ _ Hv) as [Hlen Hsv].
  destruct (trace_leaves_total steps Hv) as (tl & Htl & Htll), (transaction_leaves_total steps Hv) as (xl & Hxl & Hxll).
  destruct (all_leaves_total readonly_l1_leaf_hash CheckpointStepInputV1.readonly_l1_values steps) with (offs := @nil nat)
    (leaves := @nil Hash32) as (ro & rl & Hrl & Hrll); [|cbn; unfold umax; lia|].
  { apply Forall_lookup. intros k s Hk. split; [apply (Hsv _ _ Hk)|]. intros. unfold readonly_l1_leaf_hash, encode. cbn. eauto. }
  destruct (all_leaves_total settlement_effect_leaf_hash CheckpointStepInputV1.settlement_effects steps) with (offs := @nil nat)
    (leaves := @nil Hash32) as (so & sl & Hsl & Hsll); [|cbn; unfold umax; lia|].
  { apply Forall_lookup. intros k s Hk. destruct (Hsv _ _ Hk). destruct sv_settlement0 as [? Hse]. split; [done|].
    intros g i j v Hin. pose proof (proj1 (list.Forall_forall _ _) Hse v Hin) as Hx. cbv beta in Hx.
    unfold settlement_effect_leaf_hash, encode, MAX_SETTLEMENT_EFFECT_BYTES_V1 in *. rewrite wf_fits_u32 by (unfold umax; lia).
    cbn. eauto. }
  cbn [length] in Hrll, Hsll.
  destruct (tree_total TreeKind.Trace tl) as (t1 & r1 & Ht1 & Hr1 & Hp1); [unfold umax; lia|].
  destruct (tree_total TreeKind.TransactionEffect xl) as (t2 & r2 & Ht2 & Hr2 & Hp2); [unfold umax; lia|].
  destruct (tree_total TreeKind.ReadonlyL1 rl) as (t3 & r3 & Ht3 & Hr3 & Hp3); [unfold umax; lia|].
  destruct (tree_total TreeKind.SettlementEffect sl) as (t4 & r4 & Ht4 & Hr4 & Hp4); [unfold umax; lia|].
  exists tl, xl, ro, rl, so, sl, (mkTrees t1 t2 t3 t4), r1, r2, r3, r4. cbn. rewrite <- Htll, <- Hxll.
  split_and!; try done; try lia. split; try done.
  split_and!; [by eapply trace_leaves_hashes|by eapply transaction_leaves_hashes, mapM_outcome_inv|..].
  - eapply all_leaves_hashes; [apply readonly_leaf_length|constructor|done].
  - eapply all_leaves_hashes; [apply settlement_leaf_length|constructor|done].
Qed.

(** Every page is built, and described. *)
Lemma pages_total steps tl xl ro rl so sl trees :
  Forall step_typed steps → validate_steps steps = Ok tt → length tl = S (length steps) → length xl = length steps →
  mapM_outcome (λ step, transaction_effect_leaf_hash (CheckpointStepInputV1.step_index step)
    (CheckpointStepInputV1.transaction step) (CheckpointStepInputV1.transaction_effect step)) steps = Ok xl →
  all_leaves readonly_l1_leaf_hash CheckpointStepInputV1.readonly_l1_values steps [] [] = Ok (ro, rl) →
  all_leaves settlement_effect_leaf_hash CheckpointStepInputV1.settlement_effects steps [] [] = Ok (so, sl) →
  Z.of_nat (length rl) ≤ 4096 → Z.of_nat (length sl) ≤ 4096 → forest tl xl rl sl trees →
  paths_below (trace_tree trees) (S (length steps)) → paths_below (transaction_tree trees) (length steps) →
  paths_below (readonly_tree trees) (length rl) → paths_below (settlement_tree trees) (length sl) →
  ∃ pages ds, mapM_outcome (λ '(k, s), build_page trees ro so k s) (enumerate steps) = Ok pages ∧
    mapM_outcome describe pages = Ok ds ∧ length ds = length steps.
Proof.
  intros Hty Hv Htll Hxll Hxl Hrl Hsl Hrll Hsll Hfo Hp1 Hp2 Hp3 Hp4. pose proof (validate_steps_Ok _ _ Hv) as [Hlen Hsv].
  assert (Hpages : ∀ x, x ∈ enumerate steps → ∃ y, (λ '(k, s), build_page trees ro so k s) x = Ok y ∧ fits borsh 7000000 y).
  { intros [k s] Hk%enumerate_elem. destruct (offsets_room _ _ _ _ _ _ _ Hrl Hk) as (o1 & Ho1 & Hj1).
    destruct (offsets_room _ _ _ _ _ _ _ Hsl Hk) as (o2 & Ho2 & Hj2). pose proof (lookup_lt_Some _ _ _ Hk) as Hlt.
    destruct (page_total trees ro so (length rl) (length sl) (length steps) k s o1 o2) as [p Hp]; try done;
      [unfold umax; lia..| |].
    - apply mapM_outcome_inv in Hxl. destruct (Forall2_lookup_l _ _ _ _ _ Hxl Hk) as (h & _ & Hh). eauto.
    - exists p. split; [done|]. eapply page_of_fits; [|done|by apply Hsv|by eapply Forall_lookup_1|by apply build_page_Ok]. lia. }
  destruct (mapM_outcome_Ok (λ '(k, s), build_page trees ro so k s) (enumerate steps)) as (pages & Hpg & Hpl).
  { intros x Hx. destruct (Hpages x Hx) as (y & Hy & _). eauto. }
  destruct (mapM_outcome_Ok describe pages) as (ds & Hds & Hdl).
  { intros p [k Hk]%list_elem_of_lookup. apply mapM_outcome_inv in Hpg.
    destruct (Forall2_lookup_r _ _ _ _ _ Hpg Hk) as (x & Hx & Hf). apply list_elem_of_lookup_2 in Hx.
    destruct (Hpages x Hx) as (y & Hy & Hfit). rewrite Hf in Hy. injection Hy as <-. by apply describe_total. }
  exists pages, ds. split_and!; [done|done|]. by rewrite Hdl, Hpl, enumerate_length.
Qed.

Lemma result_bind_intro {E A B} (r : result E A) (f : A → result E B) a P :
  r = Ok a → (∃ b, f a = Ok b ∧ P b) → ∃ b, (x ← r; f x) = Ok b ∧ P b.
Proof. by intros ->. Qed.
End total.

(** ** The Portal accepts the same paths *)

(** The array a path is sent in: the siblings, then zeros. *)
Definition pad (n : nat) (siblings : list Hash32) : list Hash32 := siblings ++ replicate (n - length siblings) zero32.

Section portal.
Context `{HostLaws}.

Lemma path_shape_pad n m siblings :
  Z.of_nat n ≤ 2 ^ 31 → length siblings = depth_of n → (depth_of n ≤ m)%nat →
  path_shape (Z.of_nat n) (Z.of_nat (length siblings)) (pad m siblings) = Some true.
Proof.
  intros Hn Hl Hm. unfold path_shape, pad. rewrite expected_depth_of by done. rewrite Hl, Z.eqb_refl. cbn [negb].
  rewrite length_app, length_replicate, Hl. destruct (Nat.ltb_spec (depth_of n + (m - depth_of n)) (depth_of n)) as [|_]; [lia|].
  rewrite drop_app_length' by done. f_equal. apply negb_true_iff.
  induction (m - depth_of n)%nat as [|j IH]; [done|]. cbn [replicate existsb]. rewrite IH, bool_decide_eq_true_2 by done. done.
Qed.

(** The validator's leaf is the Portal's. *)
Lemma trace_leaf_agrees i r h : length r = 32%nat → trace_leaf_hash i r = Ok h → h = trace_leaf i r.
Proof.
  intros Hr Hh. rstep Hh as bs Hbs. injection Hbs as <-. injection Hh as <-. unfold typed_hash, trace_leaf, hashv. f_equal.
  cbn [length]. rewrite Hr. reflexivity.
Qed.

(** A tree's path, its root and its leaf, seen from the Portal. *)
Lemma path_seen kind leaves t r i x p :
  Z.of_nat (length leaves) ≤ 2 ^ 31 →
  MerkleTree.new kind leaves = Ok t → MerkleTree.root t = Ok r → leaves !! i = Some x → MerkleTree.path t i = Ok p →
  length (MerkleAuthenticationPathV1.siblings p) = depth_of (length leaves) ∧
  r = root_hash kind (Z.of_nat (length leaves)) (climb kind 0 (Z.of_nat i) x (MerkleAuthenticationPathV1.siblings p)).
Proof.
  intros Hn Hnew Hr Hx Hp. destruct (path_complete kind leaves i x) as (t' & r' & sibs & Hnew' & Hr' & Hp' & Hl & ->); [unfold umax; lia|done|].
  assert (t = t') as -> by congruence. rewrite Hp' in Hp. injection Hp as <-. split; [done|].
  rewrite Hr in Hr'. by injection Hr' as ->.
Qed.

Lemma portal_trace_accepts c leaves t i r h p m :
  (1 ≤ length leaves)%nat → Z.of_nat (length leaves) ≤ 2 ^ 31 → Checkpoint.step_count c = Z.of_nat (length leaves) - 1 →
  MerkleTree.new TreeKind.Trace leaves = Ok t → MerkleTree.root t = Ok (Checkpoint.trace_root c) →
  length r = 32%nat → trace_leaf_hash (Z.of_nat i) r = Ok h → leaves !! i = Some h → MerkleTree.path t i = Ok p →
  (depth_of (length leaves) ≤ m)%nat →
  let siblings := MerkleAuthenticationPathV1.siblings p in
  verify_trace_authentication_path c (Z.of_nat i) r (Z.of_nat (length siblings)) (pad m siblings) = Some true.
Proof.
  intros H1 Hn Hc Hnew Hroot Hr Hh Hl Hp Hm. cbv zeta.
  destruct (path_seen _ _ _ _ _ _ _ Hn Hnew Hroot Hl Hp) as [Hsl Hrt]. apply trace_leaf_agrees in Hh as ->; [|done].
  apply lookup_lt_Some in Hl. unfold verify_trace_authentication_path.
  assert (Hsat : u64_saturating_add (Checkpoint.step_count c) 1 = Z.of_nat (length leaves)).
  { rewrite Hc. unfold saturating_add, umax. lia. }
  rewrite Hsat. destruct (Z.ltb_spec (umax 32) (Z.of_nat i)); [unfold umax in *; lia|].
  destruct (Z.ltb_spec (umax 32) (Z.of_nat (length leaves))); [unfold umax in *; lia|].
  destruct (Z.leb_spec (Z.of_nat (length leaves)) (Z.of_nat i)); [lia|].
  rewrite path_shape_pad by done. cbn [mbind option_bind negb]. rewrite expected_depth_of, Hrt by done. unfold pad.
  rewrite take_app_length' by done. by rewrite bool_decide_eq_true_2.
Qed.

Lemma portal_tx_effect_accepts c leaves t i h p m :
  Z.of_nat (length leaves) ≤ 2 ^ 31 → Checkpoint.step_count c = Z.of_nat (length leaves) →
  MerkleTree.new TreeKind.TransactionEffect leaves = Ok t → MerkleTree.root t = Ok (Checkpoint.tx_effect_root c) →
  leaves !! i = Some h → MerkleTree.path t i = Ok p → (depth_of (length leaves) ≤ m)%nat →
  let siblings := MerkleAuthenticationPathV1.siblings p in
  verify_tx_effect_authentication_path c (Z.of_nat i) h (Z.of_nat (length siblings)) (pad m siblings) = Some true.
Proof.
  intros Hn Hc Hnew Hroot Hl Hp Hm. cbv zeta. destruct (path_seen _ _ _ _ _ _ _ Hn Hnew Hroot Hl Hp) as [Hsl Hrt].
  apply lookup_lt_Some in Hl. unfold verify_tx_effect_authentication_path. rewrite Hc.
  destruct (Z.leb_spec (Z.of_nat (length leaves)) (Z.of_nat i)); [lia|].
  destruct (Z.ltb_spec (umax 32) (Z.of_nat (length leaves))); [unfold umax in *; lia|].
  rewrite path_shape_pad by done. cbn [mbind option_bind negb]. rewrite expected_depth_of, Hrt by done. unfold pad.
  rewrite take_app_length' by done. by rewrite bool_decide_eq_true_2.
Qed.
End portal.

(** ** Claims *)

Section claims.
Context `{HostLaws}.

Lemma verify_built session er steps a :
  build_checkpoint_artifact_v1 session er steps = Ok a → verify a = Ok tt.
Proof.
  intros Hbuild. destruct (build_Ok _ _ _ _ Hbuild) as (tl & xl & ro & rl & so & sl & trees & ds & cp & manifest & pages & Hb).
  pose proof (built_inputs _ _ _ _ _ _ _ _ _ _ _ _ _ _ _ Hb) as Hin.
  pose proof (built_page_verified _ _ _ _ _ _ _ _ _ _ _ _ _ _ _ Hb) as Hpv. destruct Hb.
  pose proof (enumerate_mapM _ _ _ bt_pages0) as [Hpl _]. pose proof (validate_steps_Ok _ _ bt_valid0) as [Hlen _].
  apply mapM_outcome_inv in bt_descriptors0. pose proof (Forall2_length bt_descriptors0) as Hdl.
  destruct bt_identity0 as (Hv & Hcs & Hce & _). unfold verify. rewrite bt_artifact0 in *.
  cbn [CheckpointArtifactV1.checkpoint CheckpointArtifactV1.da DaPackageV1.manifest DaPackageV1.pages]. rewrite Hcs, Hce, Hin, Hbuild.
  rewrite Hv, bt_manifest0. cbn [DaManifestV1.version DaManifestV1.pages]. cbv zeta. rewrite refuse_Ok. split; [done|].
  rewrite refuse_Ok. split.
  { unfold CANONICAL_CHECKPOINT_STEPS_V1. rewrite !orb_false_iff, Nat.eqb_neq, Nat.ltb_ge, negb_false_iff, Nat.eqb_eq. lia. }
  apply result_bind_Ok. eexists. split; [done|]. rewrite !refuse_Ok, !negb_false_iff, bool_decide_eq_true.
  split_and!; try done. apply forallb_forall. intros p Hp%list_elem_of_In. apply list_elem_of_lookup in Hp as [k Hk]. by eapply Hpv.
Qed.

(** C37: every artifact the validator builds passes its own
    verification: it rebuilds to itself from its pages, and every authentication
    path in it (states, transactions, readonly values, settlement effects) is
    accepted against the committed roots. *)
Theorem artifact_verifies session er steps a :
  build_checkpoint_artifact_v1 session er steps = Ok a → verify a = Ok tt.
Proof. apply verify_built. Qed.

Lemma decode_built session er steps a :
  Forall step_typed steps → length session = 32%nat → is_u64 er →
  build_checkpoint_artifact_v1 session er steps = Ok a →
  ∃ bs, canonical_bytes a = Ok bs ∧ decode_verified bs = Ok a.
Proof.
  intros Hs Hses Her Hbuild. pose proof (verify_built _ _ _ _ Hbuild) as Hv.
  destruct (build_Ok _ _ _ _ Hbuild) as (tl & xl & ro & rl & so & sl & trees & ds & cp & manifest & pages & Hb).
  pose proof (built_wf _ _ _ _ _ _ _ _ _ _ _ _ _ _ _ Hb Hs Hses Her) as Hwf.
  exists (enc borsh a). assert (Hc : canonical_bytes a = Ok (enc borsh a)).
  { unfold canonical_bytes, encode. by rewrite artifact_wf_fits. }
  split; [done|]. unfold decode_verified. rewrite try_from_slice_enc by done. rewrite Hc. cbn [mbind result_bind].
  rewrite refuse_Ok. split; [by rewrite bool_decide_eq_true_2|]. by rewrite Hv.
Qed.

(** A built artifact can be encoded, and decoding what was
    encoded gives the artifact back, verified. *)
Theorem artifact_roundtrip session er steps a :
  Forall step_typed steps → length session = 32%nat → is_u64 er →
  build_checkpoint_artifact_v1 session er steps = Ok a →
  ∃ bs, canonical_bytes a = Ok bs ∧ decode_verified bs = Ok a.
Proof. apply decode_built. Qed.

(** The states of consecutive pages, from the first root to the last. *)
Definition chained (pages : list DaStepPageV1.t) (first final : Hash32) : Prop :=
  DaStepPageV1.pre_state_root <$> pages !! 0%nat = Some first ∧
  DaStepPageV1.post_state_root <$> pages !! pred (length pages) = Some final ∧
  ∀ k p q, pages !! k = Some p → pages !! S k = Some q → DaStepPageV1.post_state_root p = DaStepPageV1.pre_state_root q.

(** C38: bytes that [decode_verified] accepts are the
    encoding of the artifact, which is what the builder makes from its own steps;
    it has between 1 and 16 of them, every state root in it is the root of the
    accounts published with it, and the roots form a chain from the committed
    previous root to the committed new root. *)
Theorem accepted_artifact_is_canonical bs a :
  decode_verified bs = Ok a →
  let cp := CheckpointArtifactV1.checkpoint a in
  let pages := DaPackageV1.pages (CheckpointArtifactV1.da a) in
  bs = enc borsh a ∧
  build_checkpoint_artifact_v1 (CheckpointCommitmentV1.session cp) (CheckpointCommitmentV1.er_slot cp)
    (page_to_input <$> pages) = Ok a ∧
  (1 ≤ length pages ≤ 16)%nat ∧
  Forall (λ p, state_root_v1 (DaStepPageV1.pre_state_accounts p) = Ok (DaStepPageV1.pre_state_root p) ∧
               state_root_v1 (DaStepPageV1.post_state_accounts p) = Ok (DaStepPageV1.post_state_root p)) pages ∧
  chained pages (CheckpointCommitmentV1.previous_state_root cp) (CheckpointCommitmentV1.new_state_root cp).
Proof.
  unfold decode_verified. destruct (try_from_slice bs) as [x|] eqn:Hx; [|done]. intros Hd.
  rstep Hd as cb Hcb. apply refuse_Ok in Hd as [_ Hd]. rstep Hd as u Hv. injection Hd as ->.
  apply try_from_slice_Some in Hx as [_ Hx]. unfold verify in Hv. apply refuse_Ok in Hv as [_ Hv]. apply refuse_Ok in Hv as [_ Hv].
  rstep Hv as r Hr. apply refuse_Ok in Hv as [Hrb _]. apply negb_false_iff, bool_decide_eq_true in Hrb as ->.
  cbv zeta. split; [done|]. split; [done|].
  destruct (build_Ok _ _ _ _ Hr) as (tl & xl & ro & rl & so & sl & trees & ds & cp & manifest & pages & Hb).
  pose proof (built_page _ _ _ _ _ _ _ _ _ _ _ _ _ _ _ Hb) as Hpage. destruct Hb. rewrite bt_artifact0 in *.
  cbn [CheckpointArtifactV1.checkpoint CheckpointArtifactV1.da DaPackageV1.manifest DaPackageV1.pages] in *.
  apply validate_steps_Ok in bt_valid0 as [Hlen _]. rewrite length_fmap in Hlen, bt_last0. split; [done|]. split.
  - apply Forall_lookup. intros k p Hp. destruct (Hpage k p Hp) as (s & _ & Hsv & Hpo).
    pose proof (po_input _ _ _ _ _ _ Hpo) as <-. by destruct Hsv.
  - split; [by destruct (pages !! 0%nat) eqn:E; rewrite list_lookup_fmap, E in bt_first0|].
    split; [by destruct (pages !! pred (length pages)) eqn:E; rewrite list_lookup_fmap, E in bt_last0|].
    intros k p q Hp Hq. destruct (Hpage _ _ Hq) as (s & _ & Hsv & Hpo). pose proof (po_input _ _ _ _ _ _ Hpo) as <-.
    apply (sv_chain _ _ _ Hsv k (page_to_input p) eq_refl). by rewrite list_lookup_fmap, Hp.
Qed.

(** C36: the two sides fit together.  For every step
    of an artifact the validator built, the Portal's check of a checkpoint with
    the committed roots accepts the state before the step, the state after it and
    the transaction effect, each with the path published in the artifact: an
    honest validator can answer every round of a challenge. *)
Theorem portal_accepts_artifact_paths session er steps a c k p :
  Forall step_typed steps → build_checkpoint_artifact_v1 session er steps = Ok a →
  let cp := CheckpointArtifactV1.checkpoint a in
  Checkpoint.step_count c = CheckpointCommitmentV1.step_count cp →
  Checkpoint.trace_root c = CheckpointCommitmentV1.trace_root cp →
  Checkpoint.tx_effect_root c = CheckpointCommitmentV1.transaction_effect_root cp →
  DaPackageV1.pages (CheckpointArtifactV1.da a) !! k = Some p →
  let sent n path := pad n (MerkleAuthenticationPathV1.siblings path) in
  let len path := Z.of_nat (length (MerkleAuthenticationPathV1.siblings path)) in
  verify_trace_authentication_path c (Z.of_nat k) (DaStepPageV1.pre_state_root p)
    (len (DaStepPageV1.pre_state_path p)) (sent TRACE_AUTH_PATH_NODES (DaStepPageV1.pre_state_path p)) = Some true ∧
  verify_trace_authentication_path c (Z.of_nat (S k)) (DaStepPageV1.post_state_root p)
    (len (DaStepPageV1.post_state_path p)) (sent TRACE_AUTH_PATH_NODES (DaStepPageV1.post_state_path p)) = Some true ∧
  verify_tx_effect_authentication_path c (Z.of_nat k) (DaStepPageV1.transaction_effect_commitment p)
    (len (DaStepPageV1.transaction_effect_path p))
    (sent TX_EFFECT_AUTH_PATH_NODES (DaStepPageV1.transaction_effect_path p)) = Some true.
Proof.
  intros Hs Hbuild. destruct (build_Ok _ _ _ _ Hbuild) as (tl & xl & ro & rl & so & sl & trees & ds & cp & manifest & pages & Hb).
  pose proof (built_page _ _ _ _ _ _ _ _ _ _ _ _ _ _ _ Hb k p) as Hpage. destruct Hb. subst a.
  cbn [CheckpointArtifactV1.checkpoint CheckpointArtifactV1.da DaPackageV1.pages]. intros Hn Ht Hx Hp.
  destruct (Hpage Hp) as (s & Hk & Hsv & Hpo). pose proof (validate_steps_Ok _ _ bt_valid0) as [Hlen _].
  destruct (trace_leaves_lookup _ _ _ _ bt_valid0 bt_trace0 Hk) as (Htl & (h1 & Hh1 & Hl1) & (h2 & Hh2 & Hl2)).
  destruct (Forall2_lookup_l _ _ _ _ _ bt_transactions0 Hk) as (h3 & Hl3 & Hh3). pose proof (Forall2_length bt_transactions0) as Hxl.
  pose proof (Forall_lookup_1 _ _ _ _ Hs Hk) as (_ & _ & Hr1 & Hr2 & _).
  pose proof (po_input _ _ _ _ _ _ Hpo) as <-. destruct Hpo, bt_identity0 as (_ & _ & _ & Hcn).
  rewrite <- Ht in bt_trace_root0. rewrite <- Hx in bt_transaction_root0. rewrite po_commitment0 in Hh3. injection Hh3 as <-.
  assert (Hd1 : (depth_of (length tl) ≤ TRACE_AUTH_PATH_NODES)%nat).
  { unfold depth_of, TRACE_AUTH_PATH_NODES. transitivity (Nat.log2_up 17); [apply Nat.log2_up_le_mono; lia|cbn; lia]. }
  assert (Hd2 : (depth_of (length xl) ≤ TX_EFFECT_AUTH_PATH_NODES)%nat).
  { unfold depth_of, TX_EFFECT_AUTH_PATH_NODES. transitivity (Nat.log2_up 16); [apply Nat.log2_up_le_mono; lia|cbn; lia]. }
  replace (Z.of_nat k + 1) with (Z.of_nat (S k)) in Hh2 by lia. split_and!.
  - eapply (portal_trace_accepts c tl (trace_tree trees) k); try done; lia.
  - eapply (portal_trace_accepts c tl (trace_tree trees) (S k)); try done; lia.
  - eapply (portal_tx_effect_accepts c xl (transaction_tree trees) k); try done; lia.
Qed.

Lemma build_total session er steps :
  Forall step_typed steps → validate_steps steps = Ok tt →
  ∃ a, build_checkpoint_artifact_v1 session er steps = Ok a.
Proof.
  intros Hty Hv. pose proof (validate_steps_Ok _ _ Hv) as [Hlen Hsv].
  destruct (trees_total steps Hty Hv) as (tl & xl & ro & rl & so & sl & trees & r1 & r2 & r3 & r4 & Htl & Htll & Hxl & Hxll
    & Hrl & Hsl & Hrll & Hsll & Hfo & Hr1 & Hr2 & Hr3 & Hr4 & Hp1 & Hp2 & Hp3 & Hp4).
  destruct (pages_total steps tl xl ro rl so sl trees) as (pages & ds & Hpg & Hds & Hdl); try done.
  destruct Hfo as [Hf1 Hf2 Hf3 Hf4 _], trees as [t1 t2 t3 t4].
  cbn [trace_tree transaction_tree readonly_tree settlement_tree] in *.
  destruct (lookup_lt_is_Some_2 steps 0) as [s0 Hs0]; [lia|].
  destruct (lookup_lt_is_Some_2 steps (pred (length steps))) as [sn Hsn]; [lia|].
  assert (Hn : to_u32 (length steps) = Ok (Z.of_nat (length steps))) by (apply to_u32_Ok; unfold umax; lia).
  assert (Hfit : fits_u32 ds = true) by (apply wf_fits_u32; unfold umax; lia).
  assert (∃ a, build_checkpoint_artifact_v1 session er steps = Ok a ∧ True) as (a & Ha & _); [|eauto].
  unfold build_checkpoint_artifact_v1, index_of, encode.
  do 16 (eapply result_bind_intro; [eassumption|cbv beta iota zeta]). rewrite Hfit, Hs0, Hsn.
  eapply result_bind_intro; [done|cbv beta].
  match goal with |- context [MerkleTree.new TreeKind.DataAvailability ?l] =>
    destruct (tree_total TreeKind.DataAvailability l) as (t5 & r5 & Ht5 & Hr5 & _) end.
  { cbn [length]. rewrite length_fmap. unfold umax. lia. }
  do 2 (eapply result_bind_intro; [eassumption|cbv beta]). do 2 (eapply result_bind_intro; [done|cbv beta]). eauto.
Qed.

(** The builder is total on what it accepts: for steps
    that pass validation it returns an artifact.  No tree, path, page, size
    conversion or index in it fails or panics, and its loops end. *)
Theorem validated_steps_build session er steps :
  Forall step_typed steps → validate_steps steps = Ok tt →
  ∃ a, build_checkpoint_artifact_v1 session er steps = Ok a.
Proof. apply build_total. Qed.
End claims.

(** ** Two steps *)

Module ArtifactExample.
Definition account (k lamports : Z) : StateAccountValueV1.t :=
  StateAccountValueV1.mk (key k) (key 9) lamports false 0 (key 77).
Definition state0 := [account 1 100; account 2 50].
Definition state1 := [account 1 90; account 2 60].
Definition state2 := [account 1 90; account 2 55; account 3 5].
Definition root_of (l : list StateAccountValueV1.t) : Hash32 :=
  match state_root_v1 l with Ok r => r | Err _ => [] end.
Definition step (k : Z) (pre post : list StateAccountValueV1.t) : CheckpointStepInputV1.t :=
  CheckpointStepInputV1.mk k (le_bytes 4 (k + 7)) (le_bytes 2 (k + 9)) pre post (root_of pre) (root_of post)
    [ReadonlyL1ValueV1.mk (key (k + 20)) (key 9) 1 (key 78) 5] [le_bytes 3 (k + 11)].
Definition session : Address := key 4.
Definition steps : list CheckpointStepInputV1.t := Eval vm_compute in [step 0 state0 state1; step 1 state1 state2].

Lemma steps_typed : Forall step_typed steps.
Proof. unfold step_typed. concrete_wf. Qed.

Lemma steps_valid : validate_steps steps = Ok tt.
Proof. vm_compute. reflexivity. Qed.

(** The artifact is built, decodes, and has two pages. *)
Lemma built_example :
  ∃ a, build_checkpoint_artifact_v1 session 40 steps = Ok a ∧ decode_verified (enc borsh a) = Ok a ∧
    CheckpointCommitmentV1.session (CheckpointArtifactV1.checkpoint a) = session ∧
    CheckpointCommitmentV1.er_slot (CheckpointArtifactV1.checkpoint a) = 40 ∧
    length (DaPackageV1.pages (CheckpointArtifactV1.da a)) = 2%nat.
Proof.
  destruct (build_total session 40 steps steps_typed steps_valid) as [a Ha]. exists a. split; [exact Ha|].
  destruct (decode_built session 40 steps a steps_typed) as (bs & Hc & Hd); [reflexivity|concrete_wf|exact Ha|].
  assert (bs = enc borsh a) as ->.
  { unfold canonical_bytes, encode in Hc. destruct (artifact_fits a); [|discriminate]. by injection Hc as <-. }
  split; [exact Hd|]. clear Hc Hd. revert Ha.
  generalize 40, session. intros er ses Ha.
  destruct (build_Ok _ _ _ _ Ha) as (tl & xl & ro & rl & so & sl & trees & ds & cp & manifest & pages & Hb). clear Ha.
  destruct Hb. subst a. destruct bt_identity0 as (_ & <- & <- & _). apply enumerate_mapM in bt_pages0 as [Hl _].
  split; [reflexivity|]. split; [reflexivity|]. exact Hl.
Qed.
End ArtifactExample.

Lemma artifact_verifies_witness :
  ∃ a, build_checkpoint_artifact_v1 ArtifactExample.session 40 ArtifactExample.steps = Ok a ∧ verify a = Ok tt.
Proof.
  destruct ArtifactExample.built_example as (a & E & Hd & Hs & He & Hl).
  exists a. split; [exact E|]. apply (artifact_verifies _ _ _ _ E).
Defined.

Lemma artifact_roundtrip_witness :
  ∃ a bs, build_checkpoint_artifact_v1 ArtifactExample.session 40 ArtifactExample.steps = Ok a ∧
    canonical_bytes a = Ok bs ∧ decode_verified bs = Ok a.
Proof.
  destruct ArtifactExample.built_example as (a & E & Hd & Hs & He & Hl).
  destruct (λ H1 H2 H3, artifact_roundtrip _ _ _ _ H1 H2 H3 E) as (bs & ? & ?).
  - exact ArtifactExample.steps_typed.
  - vm_compute. reflexivity.
  - concrete_wf.
  - exists a, bs. split; [exact E|]. split; assumption.
Defined.

Lemma accepted_artifact_is_canonical_witness :
  ∃ a bs, decode_verified bs = Ok a ∧ bs = enc borsh a ∧
    build_checkpoint_artifact_v1 ArtifactExample.session 40
      (page_to_input <$> DaPackageV1.pages (CheckpointArtifactV1.da a)) = Ok a ∧
    (1 ≤ length (DaPackageV1.pages (CheckpointArtifactV1.da a)) ≤ 16)%nat.
Proof.
  destruct ArtifactExample.built_example as (a & E & Hd & Hs & He & Hl).
  destruct (accepted_artifact_is_canonical _ _ Hd) as (Hb & Hr & Hn & _). rewrite Hs, He in Hr.
  exists a, (enc borsh a). split; [exact Hd|]. split; [exact Hb|]. split; [exact Hr|exact Hn].
Defined.

(** The Portal's account for the example's checkpoint. *)
Definition ArtifactExample_account (cp : CheckpointCommitmentV1.t) : Checkpoint.t :=
  Checkpoint.mk Checkpoint.DISCRIMINATOR (CheckpointCommitmentV1.session cp) (CheckpointCommitmentV1.er_slot cp)
    (CheckpointCommitmentV1.step_count cp) (CheckpointCommitmentV1.previous_state_root cp)
    (CheckpointCommitmentV1.new_state_root cp) (CheckpointCommitmentV1.trace_root cp)
    (CheckpointCommitmentV1.transaction_effect_root cp) (CheckpointCommitmentV1.readonly_l1_root cp)
    (CheckpointCommitmentV1.da_commitment cp) (CheckpointCommitmentV1.effect_commitment cp) (key 1) 10 20
    CheckpointStatus.Challenged 1000000 CheckpointBondStatus.Locked (key 2) 11 false 255.

Lemma portal_accepts_artifact_paths_witness :
  ∃ a p, build_checkpoint_artifact_v1 ArtifactExample.session 40 ArtifactExample.steps = Ok a ∧
    DaPackageV1.pages (CheckpointArtifactV1.da a) !! 1%nat = Some p ∧
    verify_trace_authentication_path (ArtifactExample_account (CheckpointArtifactV1.checkpoint a)) 1
      (DaStepPageV1.pre_state_root p)
      (Z.of_nat (length (MerkleAuthenticationPathV1.siblings (DaStepPageV1.pre_state_path p))))
      (pad TRACE_AUTH_PATH_NODES (MerkleAuthenticationPathV1.siblings (DaStepPageV1.pre_state_path p))) = Some true.
Proof.
  destruct ArtifactExample.built_example as (a & E & Hd & Hs & He & Hl).
  destruct (DaPackageV1.pages (CheckpointArtifactV1.da a) !! 1%nat) as [p|] eqn:Hp.
  - exists a, p. split; [exact E|]. split; [exact Hp|].
    apply (portal_accepts_artifact_paths _ _ _ a (ArtifactExample_account (CheckpointArtifactV1.checkpoint a)) 1 p
      ArtifactExample.steps_typed E eq_refl eq_refl eq_refl Hp).
  - exfalso. apply lookup_ge_None in Hp. rewrite Hl in Hp. lia.
Defined.

Lemma validated_steps_build_witness :
  validate_steps ArtifactExample.steps = Ok tt ∧
  ∃ a, build_checkpoint_artifact_v1 ArtifactExample.session 40 ArtifactExample.steps = Ok a.
Proof.
  split; [exact ArtifactExample.steps_valid|].
  apply (validated_steps_build _ _ _ ArtifactExample.steps_typed ArtifactExample.steps_valid).
Defined.
