(* ===== verification/SessionOps.v ===== *)
(** * Opening and closing a session
      (portal/src/instructions/open_session.rs, close_session.rs)

    [process_open_session] creates the session and fee-vault accounts;
    [process_close_session] pays everything they hold to the session's
    authority and retires them, unless a settlement or a checkpoint is open. *)

From Stdlib Require Import ZArith Lia.
From Stdlib Require Import Strings.Byte.
From stdpp Require Import base gmap list numbers.
From S2P Require Import Prelude Borsh Events Runtime State Commitments Frames Toy Pda Instruction.

(** ** Reading and writing account state *)

Section store.
Context {A} `{Borsh A}.

(** [state.serialize(&mut &mut account.try_borrow_mut()?[..]).map_err(|_| e)?] *)
Definition store (a : Address) (state : A) (e : ProgramError) : prog unit :=
  x ← get_acct a;
  d ← ok_or (serialize_into state (data x)) e;
  set_data a d.

(** [T::try_from_slice(&account.try_borrow()?).map_err(|_| e)?] *)
Definition load (a : Address) (e : ProgramError) : prog A :=
  x ← get_acct a;
  ok_or (try_from_slice (data x)) e.
End store.

(** [account.try_borrow_mut()?.fill(0)] *)
Definition fill_zero (a : Address) : prog unit :=
  update a (λ x, with_data (zeros (length (data x))) x).

(** [account.close()?] *)
Definition close `{Host} (a : Address) : prog unit := update a account_close.

#[global] Instance load_read_only {A} `{Borsh A} a e : ReadOnly (load (A:=A) a e).
Proof. unfold load. apply _. Qed.
#[global] Instance store_conserves {A} `{Borsh A} a (x : A) e : Conserves (store a x e).
Proof. unfold store. apply _. Qed.
#[global] Instance store_frame {A} `{Borsh A} P a (x : A) e : Holds (P a) → Frame P (store a x e).
Proof. unfold store. apply _. Qed.
#[global] Instance store_silent {A} `{Borsh A} a (x : A) e : Silent (store a x e).
Proof. unfold store. apply _. Qed.

(** ** Open *)

Section open.
Context `{Host}.

Record V2SessionInitialization : Set := {
  v2_nonce : Z;
  v2_l1_genesis : Hash32;
  v2_profile : Hash32
}.

(** The states written by [process_open_session_initialized]. *)
Definition opened_session (args : OpenSession.t) (version2 : option V2SessionInitialization)
    (payer : Address) (current_slot session_bump : Z) : Session.t := {|
  Session.discriminator := Session.DISCRIMINATOR;
  Session.grid_id := OpenSession.grid_id args;
  Session.ttl_slots := OpenSession.ttl_slots args;
  Session.fee_cap := OpenSession.fee_cap args;
  Session.created_at := current_slot;
  Session.nonce := match version2 with Some initial => v2_nonce initial | None => 0 end;
  Session.authority := payer;
  Session.validator := OpenSession.validator args;
  Session.settlement_interval_slots := OpenSession.settlement_interval_slots args;
  Session.last_settled_l1_slot := current_slot;
  Session.last_settled_er_slot := 0;
  Session.settlement_status := SettlementStatus.Idle;
  Session.settlement_er_slot := 0;
  Session.settlement_checksum := zero32;
  Session.settlement_accumulator := zero32;
  Session.settlement_started_l1_slot := 0;
  Session.bump := session_bump
|}.

Definition opened_frame (session_state : Session.t) (initial : V2SessionInitialization) : SessionV2.t := {|
  SessionV2.discriminator := SessionV2.DISCRIMINATOR;
  SessionV2.base := session_state;
  SessionV2.l1_genesis := v2_l1_genesis initial;
  SessionV2.profile := v2_profile initial;
  SessionV2.ingress_count := 0;
  SessionV2.ingress_root := zero32;
  SessionV2.consumed_ingress_count := 0;
  SessionV2.consumed_ingress_root := zero32
|}.

Definition process_open_session_initialized (cx : Ctx) (accounts : list Address)
    (args : OpenSession.t) (version2 : option V2SessionInitialization) : prog unit :=
  match accounts with
  | payer :: session :: fee_vault :: _system_program :: _ =>
    bail_if (negb (is_signer cx payer)) PortalError.Unauthorized ;;
    err_if ((OpenSession.settlement_interval_slots args =? 0)
            || (MAX_CHECKPOINT_CADENCE_L1_SLOTS <? OpenSession.settlement_interval_slots args))
           InvalidInstructionData ;;
    let '(expected_session_key, session_bump) := find_session_pda (program_id cx) in
    let '(expected_fee_vault_key, fee_vault_bump) := find_fee_vault_pda (program_id cx) in
    bail_if (session != expected_session_key) PortalError.InvalidPdaSeeds ;;
    bail_if (fee_vault != expected_fee_vault_key) PortalError.InvalidPdaSeeds ;;
    let current_slot := slot (clock cx) in
    let session_state := opened_session args version2 payer current_slot session_bump in
    let session_frame := opened_frame session_state <$> version2 in
    let fee_vault_state := FeeVault.mk FeeVault.DISCRIMINATOR payer fee_vault_bump in
    let session_size := match session_frame with
                        | None => account_size session_state
                        | Some frame => account_size frame
                        end in
    let fee_vault_size := account_size fee_vault_state in
    session_lamports ← lift_err id (try_minimum_balance session_size);
    fee_vault_lamports ← lift_err id (try_minimum_balance fee_vault_size);
    initialize_pda_account cx payer session session_lamports session_size (program_id cx)
      [Session.SEED_PREFIX; le_bytes 1 session_bump] ;;
    initialize_pda_account cx payer fee_vault fee_vault_lamports fee_vault_size (program_id cx)
      [FeeVault.SEED_PREFIX; le_bytes 1 fee_vault_bump] ;;
    match session_frame with
    | Some frame => store session frame Panicked
    | None => store session session_state Panicked
    end ;;
    store fee_vault fee_vault_state Panicked
  | _ => fail NotEnoughAccountKeys
  end.

Definition process_open_session (cx : Ctx) (accounts : list Address) (args : OpenSession.t) : prog unit :=
  process_open_session_initialized cx accounts args None.

End open.

(** ** Close *)

Section close.
Context `{Host}.

(** [if from.lamports() > 0 { to.set_lamports(to.lamports() + from.lamports()) }] *)
Definition refund (closer from : Address) : prog unit :=
  x ← get_acct from;
  if 0 <? lamports x then
    c ← get_acct closer;
    closer_lamports ← ok_or (u64_checked_add (lamports c) (lamports x)) (into PortalError.ArithmeticOverflow);
    set_lamports closer closer_lamports
  else mret tt.

(** The end of [process_close_session]: pays the three balances to the closer and
    closes the accounts. *)
Definition close_accounts (closer session fee_vault checkpoint_cursor : Address) : prog unit :=
  refund closer fee_vault ;;
  set_lamports fee_vault 0 ;;
  refund closer session ;;
  cursor ← get_acct checkpoint_cursor;
  (if 0 <? lamports cursor then
     refund closer checkpoint_cursor ;;
     set_lamports checkpoint_cursor 0 ;;
     fill_zero checkpoint_cursor ;;
     close checkpoint_cursor
   else mret tt) ;;
  set_lamports session 0 ;;
  fill_zero fee_vault ;;
  fill_zero session ;;
  close fee_vault ;;
  close session.

Definition process_close_session (cx : Ctx) (accounts : list Address) : prog unit :=
  match accounts with
  | closer :: session :: fee_vault :: _system_program :: checkpoint_cursor :: _ =>
    bail_if (negb (is_signer cx closer)) PortalError.Unauthorized ;;
    let '(expected_session_key, _) := find_session_pda (program_id cx) in
    let '(expected_fee_vault_key, _) := find_fee_vault_pda (program_id cx) in
    let '(expected_cursor_key, _) := find_checkpoint_cursor_pda (program_id cx) session in
    bail_if (session != expected_session_key) PortalError.InvalidPdaSeeds ;;
    bail_if (fee_vault != expected_fee_vault_key) PortalError.InvalidPdaSeeds ;;
    bail_if (checkpoint_cursor != expected_cursor_key) PortalError.InvalidPdaSeeds ;;
    session_state ← load session (into PortalError.SessionDeserializeFailed);
    bail_if (negb (Session.is_valid session_state)) PortalError.SessionStateInvalid ;;
    bail_if (closer != Session.authority session_state) PortalError.Unauthorized ;;
    fee_vault_state ← load fee_vault (into PortalError.InvalidAccountData);
    bail_if (negb (FeeVault.is_valid fee_vault_state) || (FeeVault.authority fee_vault_state != closer))
      PortalError.Unauthorized ;;
    bail_if (Session.settlement_status session_state == SettlementStatus.InProgress)
      PortalError.SettlementInProgress ;;
    cursor ← get_acct checkpoint_cursor;
    (if negb (is_data_empty cursor) then
       bail_if (negb (owned_by cursor (program_id cx))) PortalError.CheckpointCursorStateInvalid ;;
       cursor_state ← load checkpoint_cursor (into PortalError.CheckpointCursorDeserializeFailed);
       bail_if (negb (CheckpointCursor.is_valid cursor_state) || (CheckpointCursor.session cursor_state != session))
         PortalError.CheckpointCursorStateInvalid ;;
       bail_if (CheckpointCursor.active_checkpoint cursor_state != zero32) PortalError.CheckpointActiveExists
     else mret tt) ;;
    close_accounts closer session fee_vault checkpoint_cursor
  | _ => fail NotEnoughAccountKeys
  end.

End close.

#[global] Instance process_open_session_conserves `{Host} cx accounts args :
  Conserves (process_open_session cx accounts args).
Proof.
  unfold process_open_session, process_open_session_initialized.
  destruct (find_session_pda _), (find_fee_vault_pda _). apply _.
Qed.

(** ** What opening does *)

Lemma store_Ok {A} `{Borsh A} a (x : A) e w u w' :
  store a x e w = Ok (u, w') →
  ∃ d, serialize_into x (data (acct w a)) = Some d ∧ w' = put a (with_data d (acct w a)) w.
Proof. unfold store, get_acct, set_data, update. intros Hr. minv. eauto. Qed.

Lemma load_Ok {A} `{Borsh A} a e w (x : A) w' :
  load a e w = Ok (x, w') ↔ try_from_slice (data (acct w a)) = Some x ∧ w' = w.
Proof.
  unfold load, get_acct. split.
  - intros Hr. by minv.
  - intros [Hx ->]. unfold mbind, M_bind, gets, ok_or. by rewrite Hx.
Qed.

(** Storing into an account of the right size. *)
Lemma store_exact_Ok {A} `{Borsh A} a (x : A) e w u w' :
  length (data (acct w a)) = account_size x →
  store a x e w = Ok (u, w') → w' = put a (with_data (enc borsh x) (acct w a)) w.
Proof.
  intros Hd (d & Hs & ->)%store_Ok. rewrite serialize_into_exact in Hs by done. by assert (d = enc borsh x) as -> by congruence.
Qed.

Section open_spec.
Context `{HostLaws}.

Lemma opened_session_wf args payer sl b :
  wf borsh args → length payer = 32%nat → is_u64 sl → is_u8 b →
  wf borsh (opened_session args None payer sl b) ∧
  Session.is_valid (opened_session args None payer sl b) = true.
Proof.
  intros (Hg & Ht & Hf & Hv & Hi) Hp Hs Hb. split; [|by vm_compute].
  unfold borsh, Session.codec. cbn [wf struct pair_c Session.to_tuple opened_session fst snd uint bytes].
  cbn [wf uint bytes] in *.
  split_and!; try done; try (unfold in_width, umax; lia); try (by vm_compute).
Qed.

Definition open_pre (cx : Ctx) (payer session fee_vault : Address) (args : OpenSession.t) : Prop :=
  NoDup [payer; session; fee_vault] ∧ wf borsh args ∧ length payer = 32%nat ∧ is_u64 (slot (clock cx)).

(** The bytes of a new session account. *)
Definition opened_bytes (args : OpenSession.t) (version2 : option V2SessionInitialization) (payer : Address)
    (sl bump : Z) : list byte :=
  let s := opened_session args version2 payer sl bump in
  match version2 with
  | None => enc borsh s
  | Some initial => enc borsh (opened_frame s initial)
  end.

Lemma process_open_session_initialized_Ok cx payer session fee_vault sys rest args v2 w u w' :
  open_pre cx payer session fee_vault args →
  process_open_session_initialized cx (payer :: session :: fee_vault :: sys :: rest) args v2 w = Ok (u, w') →
  (* the accounts are the Portal's PDAs and did not exist *)
  session = (find_session_pda (program_id cx)).1 ∧ fee_vault = (find_fee_vault_pda (program_id cx)).1 ∧
  is_signer cx payer = true ∧ 0 < OpenSession.settlement_interval_slots args ≤ 75 ∧
  data (acct w session) = [] ∧ data (acct w fee_vault) = [] ∧
  (* they now hold an idle session of the payer and its fee vault *)
  data (acct w' session) = opened_bytes args v2 payer (slot (clock cx)) (find_session_pda (program_id cx)).2 ∧
  try_from_slice (data (acct w' fee_vault)) =
    Some (FeeVault.mk FeeVault.DISCRIMINATOR payer (find_fee_vault_pda (program_id cx)).2) ∧
  owner (acct w' session) = program_id cx ∧ owner (acct w' fee_vault) = program_id cx ∧
  (* and nothing else changed *)
  (∀ b, b ∉ [payer; session; fee_vault] → acct w' b = acct w b).
Proof.
  intros (Hnd & Hargs & Hpl & Hsl) Hr.
  nodup.
  unfold process_open_session_initialized in Hr.
  pose proof (find_bump_range [Session.SEED_PREFIX] (program_id cx)) as Hb1.
  pose proof (find_bump_range [FeeVault.SEED_PREFIX] (program_id cx)) as Hb2.
  unfold find_session_pda, find_fee_vault_pda in *.
  destruct (find_program_address [Session.SEED_PREFIX] _) as [sk sb].
  destruct (find_program_address [FeeVault.SEED_PREFIX] _) as [fk fb].
  assert (Hst : ∀ w1 w2, length (data (acct w1 session)) = length (opened_bytes args v2 payer (slot (clock cx)) sb) →
    match opened_frame (opened_session args v2 payer (slot (clock cx)) sb) <$> v2 with
    | Some frame => store session frame Panicked
    | None => store session (opened_session args v2 payer (slot (clock cx)) sb) Panicked
    end w1 = Ok (tt, w2) →
    w2 = put session (with_data (opened_bytes args v2 payer (slot (clock cx)) sb) (acct w1 session)) w1).
  { intros w1 w2. unfold opened_bytes. destruct v2; cbn [fmap option_fmap option_map]; apply store_exact_Ok. }
  assert (Hlen : match opened_frame (opened_session args v2 payer (slot (clock cx)) sb) <$> v2 with
    | None => account_size (opened_session args v2 payer (slot (clock cx)) sb) | Some frame => account_size frame end =
    length (opened_bytes args v2 payer (slot (clock cx)) sb)) by (by destruct v2).
  cbn [fst snd] in *. mstep Hr as [] w1 G1. mstep Hr as [] w1 G2. mstep Hr as [] w1 G3. mstep Hr as [] w1 G4.
  cbv zeta in Hr. rewrite Hlen in Hr. bprop. subst sk fk.
  mstep Hr as m1 w1 G5. mstep Hr as m2 w1 G6. mstep Hr as [] w1 G7. mstep Hr as [] w2 G8.
  apply bind_Ok in Hr as ([] & w3 & G9 & Hr).
  apply initialize_created in G7 as (Hs & _ & Hsf & Hsd & _); [|done].
  apply initialize_created in G8 as (Hf & _ & Hff & Hfd & _); [|done].
  apply Hst in G9 as ->; [|rewrite Hff, Hs by congruence; apply length_zeros].
  apply store_exact_Ok in Hr as ->; [|rewrite acct_put_ne, Hf by congruence; apply length_zeros].
  assert (0 < OpenSession.settlement_interval_slots args ≤ 75).
  { destruct Hargs as (_ & _ & _ & _ & [Hi _]). cbn [fst snd OpenSession.to_tuple] in Hi.
    unfold MAX_CHECKPOINT_CADENCE_L1_SLOTS in *. lia. }
  split_and!; try (done || lia).
  - rewrite Hsf in Hfd by congruence. done.
  - by rewrite acct_put_ne, acct_put_eq by congruence.
  - rewrite acct_put_eq. cbn [data with_data]. apply try_from_slice_enc. split; [done|split; done].
  - rewrite acct_put_ne, acct_put_eq by congruence. cbn. by rewrite Hff, Hs by congruence.
  - rewrite acct_put_eq. cbn. by rewrite acct_put_ne, Hf by congruence.
  - intros b Hb. nodup. rewrite !acct_put_ne, Hff, Hsf by congruence. done.
Qed.

Lemma process_open_session_Ok cx payer session fee_vault sys rest args w u w' :
  open_pre cx payer session fee_vault args →
  process_open_session cx (payer :: session :: fee_vault :: sys :: rest) args w = Ok (u, w') →
  (* the accounts are the Portal's PDAs and did not exist *)
  session = (find_session_pda (program_id cx)).1 ∧ fee_vault = (find_fee_vault_pda (program_id cx)).1 ∧
  is_signer cx payer = true ∧ 0 < OpenSession.settlement_interval_slots args ≤ 75 ∧
  data (acct w session) = [] ∧ data (acct w fee_vault) = [] ∧
  (* they now hold an idle session of the payer and its fee vault *)
  parse_session (data (acct w' session)) =
    Ok (opened_session args None payer (slot (clock cx)) (find_session_pda (program_id cx)).2) ∧
  try_from_slice (data (acct w' fee_vault)) =
    Some (FeeVault.mk FeeVault.DISCRIMINATOR payer (find_fee_vault_pda (program_id cx)).2) ∧
  owner (acct w' session) = program_id cx ∧ owner (acct w' fee_vault) = program_id cx ∧
  (* and nothing else changed *)
  (∀ b, b ∉ [payer; session; fee_vault] → acct w' b = acct w b).
Proof.
  intros Hpre Hr. pose proof Hpre as (_ & Hargs & Hpl & Hsl). unfold process_open_session in Hr.
  destruct (process_open_session_initialized_Ok _ _ _ _ _ _ _ _ _ _ _ Hpre Hr) as (?&?&?&?&?&?& Hd &?&?&?&?).
  split_and!; try done; try tauto.
  rewrite Hd. apply parse_session_Ok.
  pose proof (find_bump_range [Session.SEED_PREFIX] (program_id cx)) as Hb.
  destruct (opened_session_wf args payer (slot (clock cx)) _ Hargs Hpl Hsl Hb) as [Hwf Hv]. by apply SessionV1Shape.
Qed.
End open_spec.

(** ** What closing does *)

Lemma not_in_progress st : st ≠ SettlementStatus.InProgress → st = SettlementStatus.Idle.
Proof. by destruct st. Qed.

Section close_spec.
Context `{HostLaws}.

Lemma refund_Ok closer from w u w' :
  0 ≤ lamports (acct w from) →
  refund closer from w = Ok (u, w') →
  w' ≡ put closer (with_lamports (lamports (acct w closer) + lamports (acct w from)) (acct w closer)) w.
Proof.
  intros Hf. unfold refund, get_acct, set_lamports, update. intros Hr. minv; bprop; [done|].
  match goal with |- ?s ≡ _ => replace (lamports (acct s from)) with 0 by lia end.
  by rewrite Z.add_0_r, with_lamports_id, put_acct.
Qed.

(** What [fill_zero] and [close] leave. *)
Definition closed (x : Account) : Account := mkAccount 0 [] system_id (executable x).

(** The refund of an account that is then emptied. *)
Definition collected (closer from : Address) (w : World) : World :=
  put from (closed (acct w from))
    (put closer (with_lamports (lamports (acct w closer) + lamports (acct w from)) (acct w closer)) w).

Lemma collected_total closer from w :
  closer ≠ from → total_lamports (collected closer from w) = total_lamports w.
Proof.
  intros Hne. unfold collected. rewrite !total_lamports_put, acct_put_ne by done. simpl. lia.
Qed.

Lemma acct_collected closer from w b :
  acct (collected closer from w) b =
    if decide (b = from) then closed (acct w from)
    else if decide (b = closer)
    then with_lamports (lamports (acct w closer) + lamports (acct w from)) (acct w closer) else acct w b.
Proof. unfold collected. rewrite !acct_put. repeat case_decide; congruence. Qed.

(** The world after closing: the three accounts collected into the closer's; a
    cursor without lamports is left alone. *)
Definition closed_world (closer session fee_vault cursor : Address) (w : World) : World :=
  let w1 := collected closer session (collected closer fee_vault w) in
  if 0 <? lamports (acct w cursor) then collected closer cursor w1 else w1.

Lemma close_accounts_Ok closer session fee_vault cursor w u w' :
  NoDup [closer; session; fee_vault; cursor] → wf_world w →
  close_accounts closer session fee_vault cursor w = Ok (u, w') →
  w' ≡ closed_world closer session fee_vault cursor w.
Proof.
  intros Hnd Hwf Hr. nodup. unfold close_accounts, close, fill_zero in Hr.
  assert (Hpos : ∀ b, 0 ≤ lamports (acct w b)) by (intros b; apply Hwf).
  unfold closed_world. minv; bprop.
  - apply refund_Ok in Hrun; [|done]. apply refund_Ok in Hrun1; [|by acct_simpl].
    apply refund_Ok in Hrun8; [|lia].
    destruct (Z.ltb_spec 0 (lamports (acct w cursor))) as [_|Hc];
      [|revert Hif; acct_simpl; lia].
    split; [|by events_simpl].
    intros b. rewrite acct_collected, !acct_collected.
    repeat case_decide; subst; try congruence; acct_simpl; rewrite ?close_empty; try done.
  - apply refund_Ok in Hrun; [|done]. apply refund_Ok in Hrun1; [|by acct_simpl].
    destruct (Z.ltb_spec 0 (lamports (acct w cursor))) as [Hc|_];
      [revert Hif; acct_simpl; lia|].
    split; [|by events_simpl].
    intros b. rewrite !acct_collected.
    repeat case_decide; subst; try congruence; acct_simpl; rewrite ?close_empty; done.
Qed.

Lemma process_close_session_Ok cx closer session fee_vault sys cursor rest w u w' :
  NoDup [closer; session; fee_vault; cursor] → wf_world w →
  process_close_session cx (closer :: session :: fee_vault :: sys :: cursor :: rest) w = Ok (u, w') →
  w' ≡ closed_world closer session fee_vault cursor w ∧
  is_signer cx closer = true ∧
  (∃ s, try_from_slice (data (acct w session)) = Some s ∧ Session.is_valid s = true ∧
        Session.authority s = closer ∧ Session.settlement_status s = SettlementStatus.Idle) ∧
  (data (acct w cursor) = [] ∨
   ∃ c, try_from_slice (data (acct w cursor)) = Some c ∧ CheckpointCursor.active_checkpoint c = zero32).
Proof.
  intros Hnd Hwf Hr. unfold process_close_session in Hr.
  destruct (find_session_pda _) as [sk ?], (find_fee_vault_pda _) as [fk ?],
    (find_checkpoint_cursor_pda _ _) as [ck ?].
  minv; bprop; repeat match goal with Hl : load _ _ _ = Ok _ |- _ => apply load_Ok in Hl as [Hl _] end;
    (split_and!; [by eapply close_accounts_Ok|done| |]);
    try (eexists; split_and!; [done..|by apply not_in_progress]).
  - right. eauto.
  - left. unfold is_data_empty in *. by bprop.
Qed.

Lemma closed_world_total closer session fee_vault cursor w :
  NoDup [closer; session; fee_vault; cursor] →
  total_lamports (closed_world closer session fee_vault cursor w) = total_lamports w.
Proof.
  intros Hnd. nodup. unfold closed_world. case_match; by rewrite !collected_total.
Qed.

Lemma closed_world_closer closer session fee_vault cursor w :
  NoDup [closer; session; fee_vault; cursor] → wf_world w →
  lamports (acct (closed_world closer session fee_vault cursor w) closer) =
  lamports (acct w closer) + lamports (acct w session) + lamports (acct w fee_vault) + lamports (acct w cursor).
Proof.
  intros Hnd Hwf. nodup. pose proof (Hwf cursor) as [? _]. unfold closed_world.
  destruct (Z.ltb_spec 0 (lamports (acct w cursor)));
    rewrite !acct_collected; repeat case_decide; try congruence; simpl; lia.
Qed.
End close_spec.

(** ** Examples and properties *)

Module SessionExample.
Definition portal : Address := key 99.
Definition payer : Address := key 1.
Definition session : Address := Eval vm_compute in (find_session_pda portal).1.
Definition fee_vault : Address := Eval vm_compute in (find_fee_vault_pda portal).1.
Definition cursor : Address := Eval vm_compute in (find_checkpoint_cursor_pda portal session).1.
Definition validator : Address := key 2.
Definition args : OpenSession.t := OpenSession.mk 7 1000 5000 validator 10.
Definition cx : Ctx := cx_of portal 100 [payer; session; fee_vault; cursor] [payer].
Definition w0 : World := world_of [(payer, wallet 1000000000); (session, wallet 5)].
Abbreviation open := (process_open_session cx [payer; session; fee_vault; system_id] args).
Definition w1 : World := run open w0.
Abbreviation close := (process_close_session cx [payer; session; fee_vault; system_id; cursor]).
Lemma open_pre_holds : open_pre cx payer session fee_vault args.
Proof.
  split; [|split; [|split]].
  - apply (bool_decide_unpack _). vm_compute. reflexivity.
  - unfold wf; cbn; unfold in_width, umax; cbn; repeat split; lia.
  - reflexivity.
  - unfold in_width, umax; cbn; lia.
Qed.
End SessionExample.

(** A successful [OpenSession] was signed by
    the payer, finds the session and fee-vault PDAs empty (a session cannot be
    opened twice), and leaves there, owned by the Portal, an idle session with
    the payer as authority and the requested terms, and the payer's fee vault;
    it changes no other account and creates no lamports. *)
Theorem open_session_creates_idle_session `{HostLaws} cx payer session fee_vault sys rest args w u w' :
  open_pre cx payer session fee_vault args →
  process_open_session cx (payer :: session :: fee_vault :: sys :: rest) args w = Ok (u, w') →
  (session = (find_session_pda (program_id cx)).1 ∧ fee_vault = (find_fee_vault_pda (program_id cx)).1 ∧
   is_signer cx payer = true ∧ 0 < OpenSession.settlement_interval_slots args ≤ 75 ∧
   data (acct w session) = [] ∧ data (acct w fee_vault) = [] ∧
   parse_session (data (acct w' session)) =
     Ok (opened_session args None payer (slot (clock cx)) (find_session_pda (program_id cx)).2) ∧
   try_from_slice (data (acct w' fee_vault)) =
     Some (FeeVault.mk FeeVault.DISCRIMINATOR payer (find_fee_vault_pda (program_id cx)).2) ∧
   owner (acct w' session) = program_id cx ∧ owner (acct w' fee_vault) = program_id cx ∧
   (∀ b, b ∉ [payer; session; fee_vault] → acct w' b = acct w b)) ∧
  total_lamports w' = total_lamports w.
Proof.
  intros Hpre Hr. split; [by eapply process_open_session_Ok|].
  revert Hr. apply process_open_session_conserves.
Qed.

Lemma open_session_creates_idle_session_witness :
  let w' := run SessionExample.open SessionExample.w0 in
  parse_session (data (acct w' SessionExample.session)) =
    Ok (opened_session SessionExample.args None SessionExample.payer 100 255) ∧
  total_lamports w' = total_lamports SessionExample.w0.
Proof.
  intros w'. destruct (run_Ok SessionExample.open SessionExample.w0) as [[] Hr]; [vm_compute; reflexivity|].
  destruct (open_session_creates_idle_session _ _ _ _ _ _ _ _ _ _ SessionExample.open_pre_holds Hr)
    as ((_ & _ & _ & _ & _ & _ & Hp & _) & Ht).
  split; [exact Hp|exact Ht].
Defined.

(** A successful [CloseSession] was signed by the
    session's authority while no settlement is in progress and no checkpoint is
    active; it leaves the session and the fee vault empty System accounts, the
    authority with the sum of the four balances, and every account outside the
    four and the total of all lamports as they were. *)
Theorem close_session_pays_authority `{HostLaws} cx closer session fee_vault sys cursor rest w u w' :
  NoDup [closer; session; fee_vault; cursor] → wf_world w →
  process_close_session cx (closer :: session :: fee_vault :: sys :: cursor :: rest) w = Ok (u, w') →
  (is_signer cx closer = true ∧
   (∃ s, try_from_slice (data (acct w session)) = Some s ∧ Session.is_valid s = true ∧
         Session.authority s = closer ∧ Session.settlement_status s = SettlementStatus.Idle) ∧
   (data (acct w cursor) = [] ∨
    ∃ c, try_from_slice (data (acct w cursor)) = Some c ∧ CheckpointCursor.active_checkpoint c = zero32)) ∧
  acct w' session = closed (acct w session) ∧ acct w' fee_vault = closed (acct w fee_vault) ∧
  lamports (acct w' closer) =
    lamports (acct w closer) + lamports (acct w session) + lamports (acct w fee_vault) + lamports (acct w cursor) ∧
  (∀ b, b ∉ [closer; session; fee_vault; cursor] → acct w' b = acct w b) ∧
  total_lamports w' = total_lamports w.
Proof.
  intros Hnd Hwf Hr. destruct (process_close_session_Ok _ _ _ _ _ _ _ _ _ _ Hnd Hwf Hr) as (Hw & Hpre).
  split; [done|]. setoid_rewrite Hw. rewrite closed_world_total, closed_world_closer by done.
  nodup. unfold closed_world. split_and!; [| |done| |done].
  1-2: case_match; rewrite !acct_collected; repeat case_decide; congruence.
  intros b Hb. nodup. case_match; rewrite !acct_collected; repeat case_decide; congruence.
Qed.

Lemma close_session_pays_authority_witness :
  let w' := run SessionExample.close SessionExample.w1 in
  lamports (acct w' SessionExample.payer) = 1000000005 ∧
  total_lamports w' = total_lamports SessionExample.w1.
Proof.
  intros w'. destruct (run_Ok SessionExample.close SessionExample.w1) as [[] Hr]; [vm_compute; reflexivity|].
  assert (Hnd : NoDup [SessionExample.payer; SessionExample.session; SessionExample.fee_vault; SessionExample.cursor])
    by (apply (bool_decide_unpack _); vm_compute; reflexivity).
  assert (Hwf : wf_world SessionExample.w1) by (apply wf_worldb_wf; vm_compute; reflexivity).
  destruct (close_session_pays_authority _ _ _ _ _ _ _ _ _ _ Hnd Hwf Hr) as (_ & _ & _ & Hl & _ & Ht).
  split; [|exact Ht]. unfold w'. rewrite Hl. vm_compute. reflexivity.
Defined.
