(* ===== verification/Delegation.v ===== *)
(** * Delegation
      (portal/src/instructions/delegate.rs, undelegate.rs, request_undelegation.rs)

    An account that its owner program has assigned to the Portal is delegated by
    a [DelegationRecord]; it returns through a request that the session's
    validator approves once the account's settlement is final.

    [process_delegate_account_Ok], [process_undelegate_inner_Ok] and
    [process_approve_undelegation_Ok] specify the handlers; the last section
    puts them together: an undelegation was approved by the validator
    ([undelegation_was_approved]) and gives the account back to the owner
    program recorded at delegation ([undelegate_returns_to_recorded_owner]). *)

From Stdlib Require Import ZArith Lia.
From Stdlib Require Import Strings.Byte.
From stdpp Require Import base gmap list numbers.
From S2P Require Import Prelude Borsh Events Runtime State Commitments Frames Toy Pda Instruction SessionOps.

Section delegate.
Context `{Host} (cx : Ctx).

(** [validate_session] of delegate.rs *)
Definition validate_session (session : Address) (grid_id : Z) : prog Session.t :=
  let '(expected_session_key, _) := find_session_pda (program_id cx) in
  bail_if (session != expected_session_key) PortalError.InvalidPdaSeeds ;;
  x ← get_acct session;
  bail_if (negb (owned_by x (program_id cx))) PortalError.SessionAccountOwnerMismatch ;;
  session_state ← load session (into PortalError.SessionDeserializeFailed);
  bail_if (negb (Session.is_valid session_state)) PortalError.SessionStateInvalid ;;
  bail_if (Session.settlement_status session_state == SettlementStatus.InProgress)
    PortalError.SettlementInProgress ;;
  bail_if (Session.grid_id session_state != grid_id) PortalError.Unauthorized ;;
  mret session_state.

(** [process_delegate_account]; borrowing the buffer and the delegated account at
    once fails when they are one account, and [copy_from_slice] panics on
    different lengths. *)
Definition process_delegate_account (payer delegated_account owner_program delegation_record buffer : Address)
    (session_state : Session.t) : prog unit :=
  bail_if (negb (is_signer cx payer)) PortalError.Unauthorized ;;
  bail_if (negb (is_signer cx delegated_account)) PortalError.Unauthorized ;;
  delegated ← get_acct delegated_account;
  bail_if (negb (owned_by delegated (program_id cx))) PortalError.DelegatedAccountOwnerMismatch ;;
  let '(expected_delegation_key, bump) := find_delegation_record_pda (program_id cx) delegated_account in
  bail_if (delegation_record != expected_delegation_key) PortalError.InvalidPdaSeeds ;;
  record ← get_acct delegation_record;
  bail_if (negb (is_data_empty record) || negb (owned_by record system_id))
    PortalError.DelegationRecordAlreadyInitialized ;;
  buf ← get_acct buffer;
  bail_if (negb (owned_by buf owner_program)) PortalError.DelegateBufferOwnerMismatch ;;
  bail_if (negb (bool_decide (length (data buf) = length (data delegated))))
    PortalError.DelegateBufferSizeMismatch ;;
  let delegation_state := DelegationRecord.mk DelegationRecord.DISCRIMINATOR owner_program
                            (Session.grid_id session_state) bump in
  let delegation_size := account_size delegation_state in
  rent ← lift_err id (try_minimum_balance delegation_size);
  initialize_pda_account cx payer delegation_record rent delegation_size (program_id cx)
    [DelegationRecord.SEED_PREFIX; delegated_account; le_bytes 1 bump] ;;
  store delegation_record delegation_state Panicked ;;
  err_if (buffer == delegated_account) AccountBorrowFailed ;;
  buf ← get_acct buffer;
  delegated ← get_acct delegated_account;
  err_if (negb (bool_decide (length (data buf) = length (data delegated)))) Panicked ;;
  set_data delegated_account (data buf).

(** The groups of four accounts after the prefix. *)
Fixpoint delegate_groups (payer : Address) (session_state : Session.t) (accounts : list Address) : prog unit :=
  match accounts with
  | delegated_account :: owner_program :: delegation_record :: buffer :: rest =>
      process_delegate_account payer delegated_account owner_program delegation_record buffer session_state ;;
      delegate_groups payer session_state rest
  | _ => mret tt
  end.

Definition process_delegate (accounts : list Address) (grid_id : Z) : prog unit :=
  err_if (length accounts <? 3 + 4)%nat NotEnoughAccountKeys ;;
  match accounts with
  | payer :: _system_program :: session :: delegation_accounts =>
      err_if (negb (length delegation_accounts mod 4 =? 0)%nat) InvalidInstructionData ;;
      session_state ← validate_session session grid_id;
      delegate_groups payer session_state delegation_accounts
  | _ => fail Panicked
  end.
End delegate.

Section undelegate.
Context `{Host} (cx : Ctx).

(** [unsafe { account.assign(owner) }] *)
Definition assign_owner (a o : Address) : prog unit := update a (with_owner o).

(** The checks of [process_undelegate_inner]. *)
Definition undelegate_checks (authority delegated_account owner_program delegation_record session request : Address) :
    prog unit :=
  bail_if (negb (is_signer cx authority)) PortalError.Unauthorized ;;
  bail_if (negb (is_signer cx delegated_account)) PortalError.Unauthorized ;;
  let '(expected_session_key, _) := find_session_pda (program_id cx) in
  bail_if (session != expected_session_key) PortalError.InvalidPdaSeeds ;;
  x ← get_acct session;
  bail_if (negb (owned_by x (program_id cx))) PortalError.SessionAccountOwnerMismatch ;;
  session_state ← load session (into PortalError.SessionDeserializeFailed);
  bail_if (negb (Session.is_valid session_state)) PortalError.SessionStateInvalid ;;
  bail_if (Session.settlement_status session_state == SettlementStatus.InProgress)
    PortalError.SettlementInProgress ;;
  let '(expected_delegation_key, _) := find_delegation_record_pda (program_id cx) delegated_account in
  bail_if (delegation_record != expected_delegation_key) PortalError.InvalidPdaSeeds ;;
  delegation_state ← load delegation_record (into PortalError.DelegationRecordDeserializeFailed);
  bail_if (negb (DelegationRecord.is_valid delegation_state)) PortalError.DelegationRecordStateInvalid ;;
  bail_if (DelegationRecord.owner_program delegation_state != owner_program) PortalError.Unauthorized ;;
  delegated ← get_acct delegated_account;
  bail_if (negb (owned_by delegated (program_id cx))) PortalError.DelegatedAccountOwnerMismatch ;;
  let '(expected_request, request_bump) := find_undelegation_request_pda (program_id cx) delegated_account in
  req ← get_acct request;
  bail_if ((request != expected_request) || negb (owned_by req (program_id cx))) PortalError.InvalidPdaSeeds ;;
  request_state ← load request (into PortalError.UndelegationRequestDeserializeFailed);
  bail_if (negb (UndelegationRequest.is_valid request_state)
           || (UndelegationRequest.bump request_state != request_bump)
           || (UndelegationRequest.session request_state != session)
           || (UndelegationRequest.delegated_account request_state != delegated_account)
           || (UndelegationRequest.owner_program request_state != owner_program)
           || (UndelegationRequest.authority request_state != authority))
    PortalError.UndelegationRequestStateInvalid ;;
  bail_if (negb (UndelegationRequest.approved request_state)) PortalError.UndelegationNotSettled.

Definition process_undelegate_inner (accounts : list Address) (allow_non_empty_handoff : bool) : prog unit :=
  match accounts with
  | authority :: delegated_account :: owner_program :: delegation_record :: _system_program :: session :: request :: _ =>
    undelegate_checks authority delegated_account owner_program delegation_record session request ;;
    delegated ← get_acct delegated_account;
    let has_non_empty_data := negb (Borrowed.is_zeroed (data delegated)) in
    bail_if (has_non_empty_data && negb allow_non_empty_handoff) PortalError.DelegatedAccountDataNotEmpty ;;
    (if has_non_empty_data then fill_zero delegated_account else mret tt) ;;
    assign_owner delegated_account owner_program ;;
    record ← get_acct delegation_record;
    req ← get_acct request;
    refund_lamports ← ok_or (u64_checked_add (lamports record) (lamports req)) (into PortalError.ArithmeticOverflow);
    (if 0 <? refund_lamports then
       auth ← get_acct authority;
       authority_lamports ← ok_or (u64_checked_add (lamports auth) refund_lamports) (into PortalError.ArithmeticOverflow);
       set_lamports authority authority_lamports ;;
       set_lamports delegation_record 0 ;;
       set_lamports request 0
     else mret tt) ;;
    fill_zero delegation_record ;;
    fill_zero request
  | _ => fail NotEnoughAccountKeys
  end.

Definition process_undelegate (accounts : list Address) : prog unit :=
  process_undelegate_inner accounts false.
Definition process_undelegate_handoff (accounts : list Address) : prog unit :=
  process_undelegate_inner accounts true.

Definition process_request_undelegation (accounts : list Address) : prog unit :=
  match accounts with
  | payer :: authority :: delegated_account :: owner_program :: delegation_record :: session :: request :: _system_program :: _ =>
    bail_if (negb (is_signer cx payer) || negb (is_signer cx authority) || negb (is_signer cx delegated_account))
      PortalError.Unauthorized ;;
    let '(expected_session, _) := find_session_pda (program_id cx) in
    x ← get_acct session;
    bail_if ((session != expected_session) || negb (owned_by x (program_id cx))) PortalError.InvalidPdaSeeds ;;
    session_state ← load session (into PortalError.SessionDeserializeFailed);
    bail_if (negb (Session.is_valid session_state)) PortalError.SessionStateInvalid ;;
    bail_if (Session.is_expired session_state (slot (clock cx))) PortalError.SessionExpired ;;
    delegated ← get_acct delegated_account;
    bail_if (negb (owned_by delegated (program_id cx))) PortalError.DelegatedAccountOwnerMismatch ;;
    let '(expected_record, _) := find_delegation_record_pda (program_id cx) delegated_account in
    rec ← get_acct delegation_record;
    bail_if ((delegation_record != expected_record) || negb (owned_by rec (program_id cx))) PortalError.InvalidPdaSeeds ;;
    record ← load delegation_record (into PortalError.DelegationRecordDeserializeFailed);
    bail_if (negb (DelegationRecord.is_valid record) || (DelegationRecord.owner_program record != owner_program))
      PortalError.DelegationRecordStateInvalid ;;
    let '(expected_request, bump) := find_undelegation_request_pda (program_id cx) delegated_account in
    bail_if (request != expected_request) PortalError.InvalidPdaSeeds ;;
    req ← get_acct request;
    bail_if (negb (is_data_empty req)) PortalError.UndelegationRequestAlreadyInitialized ;;
    let request_state := UndelegationRequest.mk UndelegationRequest.DISCRIMINATOR session delegated_account
                           owner_program authority (slot (clock cx)) false bump in
    let request_size := account_size request_state in
    request_rent ← lift_err id (try_minimum_balance request_size);
    initialize_pda_account cx payer request request_rent request_size (program_id cx)
      [UndelegationRequest.SEED_PREFIX; delegated_account; le_bytes 1 bump] ;;
    store request request_state (into PortalError.InvalidAccountData)
  | _ => fail NotEnoughAccountKeys
  end.

Definition with_approved (r : UndelegationRequest.t) : UndelegationRequest.t :=
  UndelegationRequest.mk (UndelegationRequest.discriminator r) (UndelegationRequest.session r)
    (UndelegationRequest.delegated_account r) (UndelegationRequest.owner_program r)
    (UndelegationRequest.authority r) (UndelegationRequest.requested_at_l1_slot r) true (UndelegationRequest.bump r).

Definition process_approve_undelegation (accounts : list Address) : prog unit :=
  match accounts with
  | validator :: session :: request :: _ =>
    bail_if (negb (is_signer cx validator)) PortalError.Unauthorized ;;
    let '(expected_session, _) := find_session_pda (program_id cx) in
    x ← get_acct session;
    bail_if ((session != expected_session) || negb (owned_by x (program_id cx))) PortalError.InvalidPdaSeeds ;;
    session_state ← load session (into PortalError.SessionDeserializeFailed);
    bail_if (negb (Session.is_valid session_state) || (Session.validator session_state != validator))
      PortalError.Unauthorized ;;
    bail_if (Session.settlement_status session_state != SettlementStatus.Idle) PortalError.SettlementInProgress ;;
    request_state ← load request (into PortalError.UndelegationRequestDeserializeFailed);
    let '(expected_request, bump) :=
      find_undelegation_request_pda (program_id cx) (UndelegationRequest.delegated_account request_state) in
    req ← get_acct request;
    bail_if (negb (owned_by req (program_id cx)) || (request != expected_request)
             || negb (UndelegationRequest.is_valid request_state)
             || (UndelegationRequest.bump request_state != bump)
             || (UndelegationRequest.session request_state != session))
      PortalError.UndelegationRequestStateInvalid ;;
    store request (with_approved request_state) (into PortalError.InvalidAccountData)
  | _ => fail NotEnoughAccountKeys
  end.
End undelegate.

(** ** Delegating *)

Lemma is_zeroed_zeros d : Borrowed.is_zeroed d = true ↔ d = zeros (length d).
Proof.
  unfold Borrowed.is_zeroed, zeros. induction d as [|b d IH]; [done|].
  cbn [forallb length replicate]. rewrite andb_true_iff, IH, bool_decide_eq_true. split.
  - by intros [-> <-].
  - intros Hd. split; congruence.
Qed.

Section delegate_spec.
Context `{HostLaws} (cx : Ctx).

#[global] Instance validate_session_read_only session g : ReadOnly (validate_session cx session g).
Proof. unfold validate_session. destruct (find_session_pda _). apply _. Qed.
#[global] Instance process_delegate_account_conserves payer d o r b s :
  Conserves (process_delegate_account cx payer d o r b s).
Proof. unfold process_delegate_account. destruct (find_delegation_record_pda _ _). apply _. Qed.
#[global] Instance delegate_groups_conserves payer s accounts : Conserves (delegate_groups cx payer s accounts).
Proof.
  revert accounts. fix IH 1. intros [|a [|b [|c [|d accounts]]]]; simpl; apply _.
Qed.
#[global] Instance process_delegate_conserves accounts g : Conserves (process_delegate cx accounts g).
Proof. unfold process_delegate. apply _. Qed.

(** The delegated account takes the buffer's bytes, the record names the owner
    program and the session's grid. *)
Lemma process_delegate_account_Ok payer delegated owner_program record buffer s w u w' :
  NoDup [payer; delegated; record] → record ≠ buffer → length owner_program = 32%nat → is_u64 (Session.grid_id s) →
  process_delegate_account cx payer delegated owner_program record buffer s w = Ok (u, w') →
  let k := find_delegation_record_pda (program_id cx) delegated in
  is_signer cx payer = true ∧ is_signer cx delegated = true ∧ owner (acct w delegated) = program_id cx ∧
  record = k.1 ∧ data (acct w record) = [] ∧
  owner (acct w buffer) = owner_program ∧ buffer ≠ delegated ∧
  try_from_slice (data (acct w' record)) =
    Some (DelegationRecord.mk DelegationRecord.DISCRIMINATOR owner_program (Session.grid_id s) k.2) ∧
  owner (acct w' record) = program_id cx ∧
  (buffer ≠ payer → acct w' delegated = with_data (data (acct w buffer)) (acct w delegated)) ∧
  (∀ b, b ∉ [payer; delegated; record] → acct w' b = acct w b).
Proof.
  intros Hnd Hrb Hol Hg Hr. nodup. unfold process_delegate_account in Hr.
  pose proof (find_bump_range [DelegationRecord.SEED_PREFIX; delegated] (program_id cx)) as Hb.
  unfold find_delegation_record_pda in *. destruct (find_program_address _ _) as [k kb]. cbn [fst snd] in *.
  minv. bprop. unfold owned_by, is_data_empty in *. bprop. subst k.
  match goal with X : initialize_pda_account _ _ _ _ _ _ _ _ = _ |- _ =>
    apply initialize_created in X as (Hi & Hpay & Hif & Hid & _); [|done] end.
  match goal with X : store _ _ _ _ = _ |- _ =>
    apply store_exact_Ok in X as ->; [|rewrite Hi; apply length_zeros] end.
  split_and!; try done.
  - acct_simpl. cbn [data with_data]. apply try_from_slice_enc. split; [done|split; [done|split; done]].
  - acct_simpl. by rewrite Hi.
  - intros Hbp. acct_simpl. by rewrite !Hif by congruence.
  - intros b Hb'. nodup. acct_simpl. by apply Hif.
Qed.
End delegate_spec.

(** ** Undelegating *)

Section undelegate_spec.
Context `{HostLaws} (cx : Ctx).

(** The request account holds a request for this account that was approved. *)
Definition approved_request (w : World) (request delegated : Address) : Prop :=
  ∃ r, try_from_slice (data (acct w request)) = Some r ∧ UndelegationRequest.is_valid r = true ∧
       UndelegationRequest.delegated_account r = delegated ∧ UndelegationRequest.approved r = true.

(** The record names [o] as the owner program. *)
Definition recorded_owner (w : World) (record o : Address) : Prop :=
  ∃ d, try_from_slice (data (acct w record)) = Some d ∧ DelegationRecord.is_valid d = true ∧
       DelegationRecord.owner_program d = o.

#[global] Instance undelegate_checks_read_only a d o r s q : ReadOnly (undelegate_checks cx a d o r s q).
Proof.
  unfold undelegate_checks.
  destruct (find_session_pda _), (find_delegation_record_pda _ _), (find_undelegation_request_pda _ _). apply _.
Qed.

Lemma undelegate_checks_Ok authority delegated o record session request w u w' :
  undelegate_checks cx authority delegated o record session request w = Ok (u, w') →
  is_signer cx authority = true ∧ is_signer cx delegated = true ∧
  (session = (find_session_pda (program_id cx)).1 ∧
   ∃ s, try_from_slice (data (acct w session)) = Some s ∧
        Session.settlement_status s = SettlementStatus.Idle) ∧
  record = (find_delegation_record_pda (program_id cx) delegated).1 ∧ recorded_owner w record o ∧
  owner (acct w delegated) = program_id cx ∧
  request = (find_undelegation_request_pda (program_id cx) delegated).1 ∧ approved_request w request delegated.
Proof.
  unfold undelegate_checks, recorded_owner, approved_request. intros Hr.
  destruct (find_session_pda _) as [sk ?], (find_delegation_record_pda _ _) as [rk ?],
    (find_undelegation_request_pda _ _) as [qk ?]. minv.
  repeat match goal with X : load _ _ _ = Ok _ |- _ => apply load_Ok in X as [X _] end.
  unfold owned_by in *. bprop. cbn [fst snd]. subst.
  split_and!; try done; eauto 6 using not_in_progress.
Qed.

(** An account whose lamports were refunded and whose data was cleared. *)
Definition emptied (x : Account) : Account := mkAccount 0 (zeros (length (data x))) (owner x) (executable x).

Definition undelegated_world (authority delegated o record request : Address) (w : World) : World :=
  let refund := lamports (acct w record) + lamports (acct w request) in
  let w1 := put delegated (with_owner o (with_data (zeros (length (data (acct w delegated)))) (acct w delegated))) w in
  let w2 := put authority (with_lamports (lamports (acct w1 authority) + refund) (acct w1 authority)) w1 in
  put request (emptied (acct w request)) (put record (emptied (acct w record)) w2).

(** Clearing an account that may be clear already. *)
Lemma clear_Ok a x w u w' :
  x = acct w a →
  (if negb (Borrowed.is_zeroed (data x)) then update a (λ x, with_data (zeros (length (data x))) x) else mret tt) w
    = Ok (u, w') →
  w' ≡ put a (with_data (zeros (length (data x))) x) w.
Proof.
  intros -> Hr. minv; [done|]. bprop.
  match goal with X : Borrowed.is_zeroed _ = true |- _ => apply is_zeroed_zeros in X; rewrite <- X end.
  match goal with |- ?s ≡ _ => replace (with_data _ (acct s a)) with (acct s a) by (by destruct (acct s a)) end.
  by rewrite put_acct.
Qed.

(** [authority] receives what two accounts hold. *)
Lemma refund_two_Ok authority record request n w u w' :
  NoDup [authority; record; request] → wf_world w →
  n = lamports (acct w record) + lamports (acct w request) →
  (if 0 <? n then
     auth ← get_acct authority;
     authority_lamports ← ok_or (u64_checked_add (lamports auth) n) (into PortalError.ArithmeticOverflow);
     set_lamports authority authority_lamports ;;
     set_lamports record 0 ;;
     set_lamports request 0
   else mret tt) w = Ok (u, w') →
  w' ≡ put request (with_lamports 0 (acct w request)) (put record (with_lamports 0 (acct w record))
         (put authority (with_lamports (lamports (acct w authority) + n) (acct w authority)) w)).
Proof.
  intros Hnd Hwf -> Hr. nodup. pose proof (Hwf record) as [? _]. pose proof (Hwf request) as [? _].
  assert (Hid : ∀ x, lamports x = 0 → with_lamports 0 x = x) by (intros [] [= ->]; done).
  minv; bprop.
  - split; [|by events_simpl]. intros b. rewrite !acct_put. repeat case_decide; subst; try congruence; by acct_simpl.
  - match goal with |- ?s ≡ _ => replace (lamports (acct s record) + lamports (acct s request)) with 0 by lia end.
    rewrite Z.add_0_r, with_lamports_id, !Hid by lia. split; [|done].
    intros b. rewrite !acct_put. repeat case_decide; by subst.
Qed.

Definition undelegate_pre (authority delegated record request : Address) : Prop :=
  (authority ∉ [record; request]) ∧ (delegated ∉ [record; request]) ∧ record ≠ request.

Lemma process_undelegate_inner_Ok authority delegated o record sys session request rest handoff w u w' :
  undelegate_pre authority delegated record request → wf_world w →
  process_undelegate_inner cx (authority :: delegated :: o :: record :: sys :: session :: request :: rest) handoff w
    = Ok (u, w') →
  w' ≡ undelegated_world authority delegated o record request w ∧
  (handoff = false → data (acct w delegated) = zeros (length (data (acct w delegated)))) ∧
  is_signer cx authority = true ∧ is_signer cx delegated = true ∧
  recorded_owner w record o ∧ approved_request w request delegated.
Proof.
  intros (Ha & Hd & Hrr) Hwf Hr. nodup. unfold process_undelegate_inner, fill_zero, assign_owner in Hr.
  mstep Hr as [] w0 Hc. apply undelegate_checks_Ok in Hc as (Hsa & Hsd & _ & _ & Hrec & _ & _ & Hq).
  mstep Hr as x w1 Hx. mstep Hr as [] w1 Hg. mstep Hr as [] w1 Hf. apply clear_Ok in Hf; [|done].
  mstep Hr as [] w2 Has. mstep Hr as x w3 Hx. mstep Hr as x w3 Hx. mstep Hr as n w3 Hn. mstep Hr as [] w3 Hp.
  assert (Hwf2 : wf_world w2).
  { rewrite Has, Hf. acct_simpl. repeat apply wf_world_put; [done|apply Hwf..]. }
  apply refund_two_Ok in Hp; [|apply NoDup_3; done|done|by bprop].
  minv. bprop. split; [|split_and!; try done; intros ->; apply is_zeroed_zeros; destruct Hg; by bprop].
  split; [|by events_simpl]. intros b. unfold undelegated_world, emptied. rewrite !acct_put.
  repeat case_decide; subst; try congruence; acct_simpl; try done.
  all: try (unfold with_lamports, with_owner, with_data; simpl; f_equal; lia).
Qed.

Lemma undelegated_world_total authority delegated o record request w :
  undelegate_pre authority delegated record request →
  total_lamports (undelegated_world authority delegated o record request w) = total_lamports w.
Proof.
  intros (Ha & Hd & Hrr). nodup. unfold undelegated_world. rewrite !total_lamports_put, !acct_put.
  repeat case_decide; try congruence; simpl; lia.
Qed.

Lemma store_loaded_Ok {A} `{!Borsh A, !CodecOk (borsh (A:=A))} {n} `{!CodecSize (borsh (A:=A)) n}
    a (x y : A) e w u w' :
  try_from_slice (data (acct w a)) = Some x → wf borsh y →
  store a y e w = Ok (u, w') → w' = put a (with_data (enc borsh y) (acct w a)) w.
Proof.
  intros Hx Hy. apply try_from_slice_Some in Hx as [Hwf Hx]. apply store_exact_Ok.
  rewrite Hx. unfold object_length. by rewrite !codec_size.
Qed.

Lemma with_approved_wf d r : try_from_slice d = Some r → wf borsh (with_approved r).
Proof. intros [(?&?&?&?&?&?&?&?) _]%try_from_slice_Some. wf_fields. Qed.

(** What an approval of the request [q] to return [d] rests on: the signature of
    the validator of the program's own session, which is valid and has no
    settlement in progress, and a valid request of that session for [d]. *)
Definition approves (w : World) (validator session q d : Address) : Prop :=
  is_signer cx validator = true ∧
  session = (find_session_pda (program_id cx)).1 ∧ owner (acct w session) = program_id cx ∧
  q = (find_undelegation_request_pda (program_id cx) d).1 ∧ owner (acct w q) = program_id cx ∧
  (∃ s, try_from_slice (data (acct w session)) = Some s ∧ Session.is_valid s = true ∧
        Session.validator s = validator ∧ Session.settlement_status s = SettlementStatus.Idle) ∧
  ∃ r, try_from_slice (data (acct w q)) = Some r ∧ UndelegationRequest.is_valid r = true ∧
       UndelegationRequest.session r = session ∧ UndelegationRequest.delegated_account r = d.

(** Only the session's validator approves, and only between settlements. *)
Lemma process_approve_undelegation_Ok validator session request rest w u w' :
  process_approve_undelegation cx (validator :: session :: request :: rest) w = Ok (u, w') →
  ∃ r, try_from_slice (data (acct w request)) = Some r ∧
       approves w validator session request (UndelegationRequest.delegated_account r) ∧
       w' = put request (with_data (enc borsh (with_approved r)) (acct w request)) w.
Proof.
  intros Hr. unfold process_approve_undelegation in Hr. unfold approves.
  destruct (find_session_pda _) as [sk ?]. minv.
  repeat match goal with X : load _ _ _ = Ok _ |- _ => apply load_Ok in X as [X _] end.
  unfold owned_by in *. bprop. subst. eexists. split; [done|]. split; [split_and!; eauto 6; by rewrite Hpair|].
  eapply store_loaded_Ok; [done| |done]. by eapply with_approved_wf.
Qed.
End undelegate_spec.

(** ** The life of a delegation *)

Section lifecycle.
Context `{HostLaws}.

Inductive DelegationOp : Set :=
| OpDelegate (accounts : list Address) (grid_id : Z)
| OpRequest (accounts : list Address)
| OpApprove (accounts : list Address)
| OpUndelegate (accounts : list Address) (handoff : bool).

Definition exec_delegation (cx : Ctx) (op : DelegationOp) : prog unit :=
  match op with
  | OpDelegate accounts g => process_delegate cx accounts g
  | OpRequest accounts => process_request_undelegation cx accounts
  | OpApprove accounts => process_approve_undelegation cx accounts
  | OpUndelegate accounts handoff => process_undelegate_inner cx accounts handoff
  end.

Definition op_accounts (op : DelegationOp) : list Address :=
  match op with
  | OpDelegate accounts _ | OpRequest accounts | OpApprove accounts | OpUndelegate accounts _ => accounts
  end.

(** Instructions that succeed one after the other. *)
Inductive runs : World → list (Ctx * DelegationOp) → World → Prop :=
| runs_nil w : runs w [] w
| runs_cons w cx op w1 l w2 :
    exec_delegation cx op w = Ok (tt, w1) → runs w1 l w2 → runs w ((cx, op) :: l) w2.

(** A program address has no private key, so it does not sign; the request of an
    account is not the delegation record of one; keys have 32 bytes and slots are
    [u64]. *)
Definition op_safe (q : Address) (p : Ctx * DelegationOp) : Prop :=
  is_signer p.1 q = false ∧ is_u64 (slot (clock p.1)) ∧ Forall (λ a, length a = 32%nat) (op_accounts p.2) ∧
  Forall (λ a, (find_delegation_record_pda (program_id p.1) a).1 ≠ q) (op_accounts p.2).

#[global] Instance approved_request_dec w q d : Decision (approved_request w q d).
Proof.
  unfold approved_request. destruct (try_from_slice (data (acct w q))) as [r|] eqn:Hr.
  - destruct (decide (UndelegationRequest.is_valid r = true ∧ UndelegationRequest.delegated_account r = d ∧
      UndelegationRequest.approved r = true)) as [Hd|Hd].
    + left. exists r. naive_solver.
    + right. naive_solver.
  - right. naive_solver.
Defined.

Lemma approved_request_acct w w' q d :
  acct w' q = acct w q → approved_request w' q d ↔ approved_request w q d.
Proof. unfold approved_request. by intros ->. Qed.

(** Writing [λ b, b ≠ q] for the accounts that may change. *)
Lemma frame_at {A} (m : prog A) q w a w' :
  Frame (λ b, b ≠ q) m → m w = Ok (a, w') → acct w' q = acct w q.
Proof. intros Hf Hr. apply (Hf _ _ _ Hr). naive_solver. Qed.

Lemma signer_ne cx a q : is_signer cx a = true → is_signer cx q = false → a ≠ q.
Proof. congruence. Qed.

Lemma delegate_account_keeps cx q payer d o r b s w u w' :
  is_signer cx q = false → (find_delegation_record_pda (program_id cx) d).1 ≠ q →
  process_delegate_account cx payer d o r b s w = Ok (u, w') → acct w' q = acct w q.
Proof.
  intros Hq Hk Hr. unfold process_delegate_account in Hr. mstep Hr as [] w1 H1. mstep Hr as [] w1 H2. bprop.
  pose proof (signer_ne _ _ _ H1 Hq). pose proof (signer_ne _ _ _ H2 Hq). minv. bprop. cbn [fst] in Hk. subst.
  match goal with X : initialize_pda_account _ _ _ _ _ _ _ _ = _ |- _ => apply (frame_at _ q) in X; [|apply _] end.
  match goal with X : store _ _ _ _ = _ |- _ => apply (frame_at _ q) in X; [|apply _] end.
  acct_simpl. congruence.
Qed.

Lemma delegate_groups_keeps cx q payer s accounts w u w' :
  is_signer cx q = false → Forall (λ a, (find_delegation_record_pda (program_id cx) a).1 ≠ q) accounts →
  delegate_groups cx payer s accounts w = Ok (u, w') → acct w' q = acct w q.
Proof.
  intros Hq. revert w. induction accounts as [|? |? ? |? ? ? |d o r b accounts IH] using list_ind4;
    intros w Hf Hr; simpl in Hr; try (minv; done).
  rewrite !list.Forall_cons in Hf. destruct Hf as (Hd & _ & _ & _ & Hf).
  apply bind_Ok in Hr as ([] & w1 & H1 & Hr). apply IH in Hr; [|done].
  apply delegate_account_keeps with (q := q) in H1; [congruence|done|done].
Qed.

Lemma zeros_not_request w q d n : data (acct w q) = zeros n → ¬ approved_request w q d.
Proof.
  intros Hz (r & Hr & Hv & _). apply try_from_slice_Some in Hr as [[Hd _] He]. rewrite Hz in He.
  unfold UndelegationRequest.is_valid in Hv. bprop.
  assert (Hh : take 8 (enc borsh r) = UndelegationRequest.DISCRIMINATOR).
  { unfold borsh, UndelegationRequest.codec.
    cbn [enc struct pair_c UndelegationRequest.to_tuple fst snd bytes]. by rewrite Hv. }
  rewrite <- He in Hh. unfold zeros in Hh. rewrite take_replicate in Hh.
  apply (f_equal head) in Hh. destruct (8 `min` n)%nat; by vm_compute in Hh.
Qed.

Lemma request_keeps cx q d accounts w u w' :
  is_signer cx q = false → is_u64 (slot (clock cx)) → Forall (λ a, length a = 32%nat) accounts →
  process_request_undelegation cx accounts w = Ok (u, w') →
  ¬ approved_request w q d → ¬ approved_request w' q d.
Proof.
  intros Hq Hsl Hlen Hr Hn. unfold process_request_undelegation in Hr.
  destruct accounts as [|payer [|authority [|delegated [|o [|record [|session [|request [|sys rest]]]]]]]];
    try (minv; done).
  rewrite !list.Forall_cons in Hlen. destruct Hlen as (_ & Hal & Hdl & Hol & _ & Hsel & _).
  mstep Hr as [] w1 Hs. bprop. assert (payer ≠ q) by congruence.
  destruct (decide (request = q)) as [->|Hne].
  - minv.
    match goal with X : initialize_pda_account _ _ _ _ _ _ _ _ = _ |- _ =>
      apply initialize_created in X as (Hi & _); [|done] end.
    apply store_exact_Ok in Hr as ->; [|rewrite Hi; apply length_zeros].
    intros (r & Hr & _ & _ & Ha). rewrite acct_put_eq in Hr. cbn [data with_data] in Hr.
    apply try_from_slice_Some in Hr as [Hwf He].
    apply enc_inj in He; [by subst r|apply _| |done].
    match goal with X : find_undelegation_request_pda _ _ = _ |- _ =>
      pose proof (find_bump_range [UndelegationRequest.SEED_PREFIX; delegated] (program_id cx)) as Hb;
      unfold find_undelegation_request_pda in X; rewrite X in Hb end.
    split; [done|]. wf_fields.
  - rewrite (approved_request_acct w w'); [done|]. revert Hr. apply frame_at.
    destruct (find_session_pda _), (find_delegation_record_pda _ _), (find_undelegation_request_pda _ _). apply _.
Qed.

Lemma undelegate_keeps cx q d accounts handoff w u w' :
  op_safe q (cx, OpUndelegate accounts handoff) →
  process_undelegate_inner cx accounts handoff w = Ok (u, w') →
  ¬ approved_request w q d → ¬ approved_request w' q d.
Proof.
  intros (Hq & _ & _ & Hrec) Hr Hn. cbn [fst snd op_accounts] in *.
  unfold process_undelegate_inner in Hr.
  destruct accounts as [|authority [|delegated [|o [|record [|sys [|session [|request rest]]]]]]]; try (minv; done).
  mstep Hr as [] w1 Hc. apply undelegate_checks_Ok in Hc as (Ha & Hd & _ & -> & _).
  rewrite !list.Forall_cons in Hrec. destruct Hrec as (_ & Hrk & _).
  assert (authority ≠ q) by congruence. assert (delegated ≠ q) by congruence.
  destruct (decide (request = q)) as [->|Hne].
  - repeat (apply bind_Ok in Hr as (? & ? & _ & Hr); cbv beta zeta in Hr).
    unfold fill_zero in Hr. minv. eapply zeros_not_request. by acct_simpl.
  - rewrite (approved_request_acct w w'); [done|]. revert Hr. apply frame_at.
    unfold fill_zero, assign_owner. apply _.
Qed.

(** An approved request is for the account the request named before. *)
Lemma approved_with_approved q x r d w :
  try_from_slice (data x) = Some r → approved_request (put q (with_data (enc borsh (with_approved r)) x) w) q d →
  UndelegationRequest.delegated_account r = d.
Proof.
  intros Hr (r' & Hr' & _ & <- & _). revert Hr'. rewrite acct_put, decide_True by done. cbn [data with_data].
  rewrite try_from_slice_enc by by eapply with_approved_wf. by intros [= <-].
Qed.

(** An approval appears only by [ApproveUndelegation]. *)
Lemma exec_delegation_approves cx op q d w w' :
  op_safe q (cx, op) → exec_delegation cx op w = Ok (tt, w') →
  ¬ approved_request w q d → approved_request w' q d →
  ∃ validator session rest, op = OpApprove (validator :: session :: q :: rest) ∧
    approves cx w validator session q d.
Proof.
  intros Hsafe Hr Hn Ha. pose proof Hsafe as (Hq & Hsl & Hlen & Hrec).
  destruct op as [accounts g|accounts|accounts|accounts handoff]; cbn [exec_delegation op_accounts fst snd] in *.
  - exfalso. apply Hn. revert Ha. apply approved_request_acct. unfold process_delegate in Hr.
    destruct accounts as [|payer [|sys [|session accounts]]]; try (minv; done).
    rewrite !list.Forall_cons in Hrec. destruct Hrec as (_ & _ & _ & Hrec).
    mstep Hr as [] w1 H1. mstep Hr as [] w1 H2. mstep Hr as s w1 H3.
    symmetry. by eapply delegate_groups_keeps.
  - exfalso. by eapply request_keeps.
  - destruct accounts as [|validator [|session [|request rest]]]; try (unfold process_approve_undelegation in Hr; minv; done).
    apply process_approve_undelegation_Ok in Hr as (r & Hr & Hap & ->).
    destruct (decide (request = q)) as [->|Hne].
    { eapply approved_with_approved in Ha; [|done]. subst. eauto. }
    exfalso. apply Hn. revert Ha. apply approved_request_acct. by rewrite acct_put_ne.
  - exfalso. by eapply undelegate_keeps.
Qed.

(** Over any run: an approval that was not there was given by the session's
    validator, between settlements. *)
Lemma runs_approved q d w l w' :
  runs w l w' → Forall (op_safe q) l → ¬ approved_request w q d → approved_request w' q d →
  ∃ l1 cx validator session rest l2 w1,
    l = l1 ++ (cx, OpApprove (validator :: session :: q :: rest)) :: l2 ∧ runs w l1 w1 ∧
    approves cx w1 validator session q d.
Proof.
  induction 1 as [w|w cx op w1 l w2 He Hruns IH]; intros Hsafe Hn Ha; [done|].
  apply list.Forall_cons in Hsafe as [Hs Hsafe].
  destruct (decide (approved_request w1 q d)) as [Ha1|Hn1].
  - destruct (exec_delegation_approves _ _ _ _ _ _ Hs He Hn Ha1) as (v & se & rest & -> & Hap).
    exists [], cx, v, se, rest, l, w. split_and!; try done. constructor.
  - destruct (IH Hsafe Hn1 Ha) as (l1 & cx' & v & se & rest & l2 & w3 & -> & Hr1 & Hap).
    exists ((cx, op) :: l1), cx', v, se, rest, l2, w3. split_and!; try done. by econstructor.
Qed.
End lifecycle.

(** ** Examples and properties *)

Module DelegationExample.
Import SessionExample.
Definition delegated : Address := key 5.
Definition buffer : Address := key 6.
Definition owner_program : Address := key 77.
Definition record : Address := Eval vm_compute in (find_delegation_record_pda portal delegated).1.
Definition request : Address := Eval vm_compute in (find_undelegation_request_pda portal delegated).1.
Definition cx : Ctx :=
  cx_of portal 150 [payer; validator; session; delegated; owner_program; record; request; buffer]
    [payer; validator; delegated].
(** The session of [SessionExample] with an account assigned to the Portal and a
    buffer of its owner program. *)
Definition w0 : World :=
  put delegated (mkAccount 2000000 [x01; x02; x03] portal false)
    (put buffer (mkAccount 1000000 [x0a; x0b; x0c] owner_program false) w1).
Abbreviation delegate := (process_delegate cx [payer; system_id; session; delegated; owner_program; record; buffer] 7).
Definition life : list (Ctx * DelegationOp) :=
  [(cx, OpDelegate [payer; system_id; session; delegated; owner_program; record; buffer] 7);
   (cx, OpRequest [payer; payer; delegated; owner_program; record; session; request; system_id]);
   (cx, OpApprove [validator; session; request])].
Fixpoint run_all (l : list (Ctx * DelegationOp)) (w : World) : World :=
  match l with [] => w | (cx, op) :: l' => run_all l' (run (exec_delegation cx op) w) end.
Definition w3 : World := run_all life w0.
Abbreviation undelegate :=
  (process_undelegate_inner cx [payer; delegated; owner_program; record; system_id; session; request] true).
End DelegationExample.

(** Delegating an account requires the signatures of
    the payer and of the account, an idle session of the given grid and no
    existing record; it leaves a Portal-owned record naming the owner program
    and the grid, installs the buffer's bytes in the account, and changes
    nothing else; no lamports are created. *)
Theorem delegate_installs_buffer `{HostLaws} cx payer sys session delegated o record buffer g w u w' :
  NoDup [payer; delegated; record] → record ≠ buffer → buffer ≠ payer → length o = 32%nat → is_u64 g →
  process_delegate cx [payer; sys; session; delegated; o; record; buffer] g w = Ok (u, w') →
  (is_signer cx payer = true ∧ is_signer cx delegated = true ∧
   (∃ s, try_from_slice (data (acct w session)) = Some s ∧ Session.grid_id s = g ∧
         Session.settlement_status s = SettlementStatus.Idle) ∧
   owner (acct w delegated) = program_id cx ∧ data (acct w record) = [] ∧ owner (acct w buffer) = o) ∧
  recorded_owner w' record o ∧ owner (acct w' record) = program_id cx ∧
  acct w' delegated = with_data (data (acct w buffer)) (acct w delegated) ∧
  (∀ b, b ∉ [payer; delegated; record] → acct w' b = acct w b) ∧
  total_lamports w' = total_lamports w.
Proof.
  intros Hnd Hrb Hbp Ho Hg Hr. pose proof (conserves _ _ _ Hr) as Ht.
  unfold process_delegate in Hr. mstep Hr as [] w1 H1. mstep Hr as [] w1 H2. mstep Hr as s w1 Hv.
  cbn [delegate_groups] in Hr. mstep Hr as [] w1 Hd. minv.
  assert (Hs : try_from_slice (data (acct w session)) = Some s ∧ Session.grid_id s = g ∧
    Session.settlement_status s = SettlementStatus.Idle).
  { unfold validate_session in Hv. minv.
    match goal with X : load _ _ _ = Ok _ |- _ => apply load_Ok in X as [X _] end.
    bprop. split_and!; try done. by apply not_in_progress. }
  destruct Hs as (Hs & <- & Hi).
  apply process_delegate_account_Ok in Hd as (? & ? & ? & ? & ? & ? & ? & Hrec & ? & Hdata & ?); [|done..].
  split_and!; try done; [by eauto| |by apply Hdata]. eexists. split_and!; [done| |done]. by vm_compute.
Qed.

Lemma delegate_installs_buffer_witness :
  let w' := run DelegationExample.delegate DelegationExample.w0 in
  data (acct w' DelegationExample.delegated) = [x0a; x0b; x0c] ∧
  recorded_owner w' DelegationExample.record DelegationExample.owner_program.
Proof.
  intros w'. destruct (run_Ok DelegationExample.delegate DelegationExample.w0) as [[] Hr];
    [vm_compute; reflexivity|].
  destruct (λ H1 H2 H3 H4 H5, delegate_installs_buffer _ _ _ _ _ _ _ _ _ _ _ _ H1 H2 H3 H4 H5 Hr)
    as (_ & Hrec & _ & Hd & _).
  - apply (bool_decide_unpack _). vm_compute. reflexivity.
  - apply (bool_decide_unpack _). vm_compute. reflexivity.
  - apply (bool_decide_unpack _). vm_compute. reflexivity.
  - reflexivity.
  - unfold in_width, umax; cbn; lia.
  - split; [|exact Hrec]. unfold w'. rewrite Hd. vm_compute. reflexivity.
Defined.

(** A successful [Undelegate] or
    [UndelegateHandoff] is signed by the requesting authority and the account,
    finds an approved request and a record naming the owner program; it assigns
    the account to exactly that program with cleared data (the plain form
    requires data that is already clear), pays the lamports of record and
    request to the authority, and changes nothing else; no lamports appear or
    vanish. *)
Theorem undelegate_returns_to_recorded_owner `{HostLaws} cx authority delegated o record sys session request rest
    handoff w u w' :
  undelegate_pre authority delegated record request → wf_world w →
  process_undelegate_inner cx (authority :: delegated :: o :: record :: sys :: session :: request :: rest) handoff w
    = Ok (u, w') →
  (is_signer cx authority = true ∧ is_signer cx delegated = true ∧
   recorded_owner w record o ∧ approved_request w request delegated ∧
   (handoff = false → data (acct w delegated) = zeros (length (data (acct w delegated))))) ∧
  owner (acct w' delegated) = o ∧ data (acct w' delegated) = zeros (length (data (acct w delegated))) ∧
  lamports (acct w' authority) =
    lamports (acct w authority) + lamports (acct w record) + lamports (acct w request) ∧
  lamports (acct w' record) = 0 ∧ lamports (acct w' request) = 0 ∧
  (∀ b, b ∉ [authority; delegated; record; request] → acct w' b = acct w b) ∧
  total_lamports w' = total_lamports w.
Proof.
  intros Hpre Hwf Hr.
  destruct (process_undelegate_inner_Ok _ _ _ _ _ _ _ _ _ _ _ _ _ Hpre Hwf Hr) as (Hw & ? & ? & ? & ? & ?).
  split; [done|]. setoid_rewrite Hw. rewrite undelegated_world_total by done.
  destruct Hpre as (Ha & Hd & Hrr). nodup. unfold undelegated_world, emptied. setoid_rewrite acct_put.
  split_and!; [..|intros b Hb; nodup|done].
  all: repeat (rewrite ?acct_put; case_decide; try congruence); cbn; subst; try done; lia.
Qed.

Lemma undelegate_returns_to_recorded_owner_witness :
  let w' := run DelegationExample.undelegate DelegationExample.w3 in
  owner (acct w' DelegationExample.delegated) = DelegationExample.owner_program ∧
  total_lamports w' = total_lamports DelegationExample.w3.
Proof.
  intros w'. destruct (run_Ok DelegationExample.undelegate DelegationExample.w3) as [[] Hr];
    [vm_compute; reflexivity|].
  destruct (λ H1 H2, undelegate_returns_to_recorded_owner _ _ _ _ _ _ _ _ _ _ _ _ _ H1 H2 Hr)
    as (_ & Ho & _ & _ & _ & _ & _ & Ht).
  - split; [|split]; apply (bool_decide_unpack _); vm_compute; reflexivity.
  - apply wf_worldb_wf. vm_compute. reflexivity.
  - split; [exact Ho|exact Ht].
Defined.

(** C39: along any sequence of delegation instructions in
    which the request address does not sign, an undelegation that succeeds after
    starting without an approval was approved on the way: some step was an
    [ApproveUndelegation] of this request, signed by the validator that the
    program's own session account named at that moment.  The session is the one
    at the session address derived from the program, owned by the program, valid
    and with no settlement in progress, the request was a valid request of that
    session for this account, and it is the session the undelegation itself is
    given. *)
Theorem undelegation_was_approved `{HostLaws} cx authority delegated o record sys session request rest handoff
    w l w1 u w2 :
  runs w l w1 → Forall (op_safe request) l → ¬ approved_request w request delegated →
  process_undelegate_inner cx (authority :: delegated :: o :: record :: sys :: session :: request :: rest) handoff w1
    = Ok (u, w2) →
  ∃ l1 cxa validator sess rest' l2 wa,
    l = l1 ++ (cxa, OpApprove (validator :: sess :: request :: rest')) :: l2 ∧ runs w l1 wa ∧
    approves cxa wa validator sess request delegated ∧
    (program_id cxa = program_id cx → sess = session).
Proof.
  intros Hruns Hsafe Hn Hr. unfold process_undelegate_inner in Hr. mstep Hr as [] w3 Hc.
  apply undelegate_checks_Ok in Hc as (_ & _ & (Hsess & _) & _ & _ & _ & _ & Hq).
  destruct (runs_approved _ _ _ _ _ Hruns Hsafe Hn Hq) as (l1 & cxa & v & se & rest' & l2 & wa & Hl & Hr1 & Hap).
  exists l1, cxa, v, se, rest', l2, wa. split_and!; try done.
  intros Hp. destruct Hap as (_ & -> & _). by rewrite Hp.
Qed.

Lemma undelegation_was_approved_witness :
  ∃ l1 cxa validator sess rest' l2 wa,
    DelegationExample.life = l1 ++ (cxa, OpApprove (validator :: sess :: DelegationExample.request :: rest')) :: l2 ∧
    approves cxa wa validator sess DelegationExample.request DelegationExample.delegated.
Proof.
  destruct (run_Ok DelegationExample.undelegate DelegationExample.w3) as [[] Hu]; [vm_compute; reflexivity|].
  assert (Hruns : runs DelegationExample.w0 DelegationExample.life DelegationExample.w3).
  { unfold DelegationExample.w3, DelegationExample.life. cbn [DelegationExample.run_all].
    repeat (eapply runs_cons; [|]); [..|apply runs_nil];
    match goal with |- exec_delegation ?cx ?op ?w = _ =>
      destruct (run_Ok (exec_delegation cx op) w) as [[] Hx]; [vm_compute; reflexivity|exact Hx] end. }
  destruct (λ H1 H2, undelegation_was_approved _ _ _ _ _ _ _ _ _ _ _ _ _ _ _ Hruns H1 H2 Hu)
    as (l1 & cxa & v & se & rest & l2 & wa & Hl & _ & Hap & _).
  - unfold DelegationExample.life.
    repeat (apply Forall_cons; [split; [vm_compute; reflexivity|split; [unfold in_width, umax; cbn; lia|split]];
      apply (bool_decide_unpack _); vm_compute; reflexivity|]). apply Forall_nil.
  - apply (bool_decide_unpack _). vm_compute. reflexivity.
  - exists l1, cxa, v, se, rest, l2, wa. split; [exact Hl|exact Hap].
Defined.
