(* ===== verification/Settlement.v ===== *)
(** * Settlement (portal/src/instructions/settlement.rs)

    Writing the state of a committed checkpoint back to L1.  The validator opens
    a settlement with the checksum of the operations it plans, applies them one
    instruction at a time, each folded into an accumulator kept in the session,
    and closes it when the accumulator has reached the checksum.

    The first part translates the handlers.  [settle_fold_binding] shows that
    the checksum determines the list of operations.  Integrity.v builds on both:
    the session account, through every handler, implements an abstract machine
    that remembers the operations themselves. *)

From Stdlib Require Import ZArith Lia.
From Stdlib Require Import Strings.Byte.
From stdpp Require Import base gmap list numbers.
From S2P Require Import Prelude Borsh Events Runtime State Commitments Frames Toy Pda Instruction SessionOps Delegation.

(** ** Checksums *)

Section checksum.
Context `{Host}.

Definition SETTLEMENT_CHECKSUM_DOMAIN : list byte := str "northstar-settlement-v0".

Definition initial_settlement_checksum (er_slot : Z) : Hash32 :=
  hashv [SETTLEMENT_CHECKSUM_DOMAIN; le_bytes 8 er_slot].

Definition accumulate_data_chunk_checksum (accumulator : Hash32) (account : Address)
    (account_data_offset : Z) (d : list byte) : Hash32 :=
  hashv [accumulator; str "data"; account; le_bytes 4 account_data_offset;
         le_bytes 4 (Z.of_nat (length d)); d].

Definition accumulate_owner_checksum (accumulator : Hash32) (account owner : Address) : Hash32 :=
  hashv [accumulator; str "owner"; account; owner].

Definition accumulate_lamports_checksum (accumulator : Hash32) (account : Address) (n : Z) : Hash32 :=
  hashv [accumulator; str "lamports"; account; le_bytes 8 n].

Definition accumulate_receipt_checksum (accumulator : Hash32) (er_source l1_recipient : Address)
    (balance withdrawn payout_lamports : Z) : Hash32 :=
  hashv [accumulator; str "receipt"; er_source; l1_recipient; le_bytes 8 balance; le_bytes 8 withdrawn;
         le_bytes 8 payout_lamports].

Record TokenWithdrawalChecksum : Set := {
  tw_bridge_program : Address;
  tw_session_bridge : Address;
  tw_er_token_account : Address;
  tw_vault : Address;
  tw_vault_token_account : Address;
  tw_destination_token_account : Address;
  tw_mint : Address;
  tw_token_program : Address;
  tw_amount : Z;
  tw_withdrawn : Z;
  tw_decimals : Z
}.

Definition accumulate_token_withdrawal_checksum (accumulator : Hash32) (x : TokenWithdrawalChecksum) : Hash32 :=
  hashv [accumulator; str "token_withdrawal"; tw_bridge_program x; tw_session_bridge x; tw_er_token_account x;
         tw_vault x; tw_vault_token_account x; tw_destination_token_account x; tw_mint x; tw_token_program x;
         le_bytes 8 (tw_amount x); le_bytes 8 (tw_withdrawn x); le_bytes 1 (tw_decimals x)].
End checksum.

(** ** Session updates *)

Definition with_settlement (status : SettlementStatus.t) (er_slot : Z) (checksum accumulator : Hash32)
    (started : Z) (s : Session.t) : Session.t :=
  Session.mk (Session.discriminator s) (Session.grid_id s) (Session.ttl_slots s) (Session.fee_cap s)
    (Session.created_at s) (Session.nonce s) (Session.authority s) (Session.validator s)
    (Session.settlement_interval_slots s) (Session.last_settled_l1_slot s) (Session.last_settled_er_slot s)
    status er_slot checksum accumulator started (Session.bump s).

(** [session_state.settlement_accumulator = accumulator] *)
Definition with_accumulator (accumulator : Hash32) (s : Session.t) : Session.t :=
  with_settlement (Session.settlement_status s) (Session.settlement_er_slot s) (Session.settlement_checksum s)
    accumulator (Session.settlement_started_l1_slot s) s.

Definition with_last_settled (l1_slot er_slot : Z) (s : Session.t) : Session.t :=
  Session.mk (Session.discriminator s) (Session.grid_id s) (Session.ttl_slots s) (Session.fee_cap s)
    (Session.created_at s) (Session.nonce s) (Session.authority s) (Session.validator s)
    (Session.settlement_interval_slots s) l1_slot er_slot
    (Session.settlement_status s) (Session.settlement_er_slot s) (Session.settlement_checksum s)
    (Session.settlement_accumulator s) (Session.settlement_started_l1_slot s) (Session.bump s).

(** The five assignments that end a settlement. *)
Definition idle_settlement (s : Session.t) : Session.t :=
  with_settlement SettlementStatus.Idle 0 zero32 zero32 0 s.

(** ** Loading and storing *)

Section load.
Context `{Host} (cx : Ctx).

Definition load_session (session : Address) : prog Session.t :=
  let '(expected_session_key, _) := find_session_pda (program_id cx) in
  bail_if (session != expected_session_key) PortalError.InvalidPdaSeeds ;;
  x ← get_acct session;
  bail_if (negb (owned_by x (program_id cx))) PortalError.SessionAccountOwnerMismatch ;;
  session_state ← lift_err into (parse_session (data x));
  bail_if (negb (Session.is_valid session_state)) PortalError.SessionStateInvalid ;;
  mret session_state.

Definition store_session (session : Address) (session_state : Session.t) : prog unit :=
  x ← get_acct session;
  d ← lift_err into (write_session (data x) session_state);
  set_data session d.

Definition require_validator (validator : Address) (session_state : Session.t) : prog unit :=
  bail_if (negb (is_signer cx validator) || (validator != Session.validator session_state)) PortalError.Unauthorized.

Definition require_active_settlement (session_state : Session.t) (er_slot : Z) (checksum : Hash32) : prog unit :=
  bail_if (Session.settlement_status session_state != SettlementStatus.InProgress)
    PortalError.SettlementNotInProgress ;;
  bail_if (er_slot != Session.settlement_er_slot session_state) PortalError.SettlementErSlotMismatch ;;
  bail_if (checksum != Session.settlement_checksum session_state) PortalError.SettlementChecksumMismatch.

Definition load_checkpoint_for_settlement (session_key : Address) (er_slot : Z) (checkpoint : Address) :
    prog Checkpoint.t :=
  let '(expected_checkpoint_key, _) := find_checkpoint_pda (program_id cx) session_key er_slot in
  bail_if (checkpoint != expected_checkpoint_key) PortalError.InvalidPdaSeeds ;;
  x ← get_acct checkpoint;
  bail_if (negb (owned_by x (program_id cx))) PortalError.CheckpointStateInvalid ;;
  checkpoint_state ← load checkpoint (into PortalError.CheckpointDeserializeFailed);
  bail_if (negb (Checkpoint.is_valid checkpoint_state) || (Checkpoint.session checkpoint_state != session_key)
           || (Checkpoint.er_slot checkpoint_state != er_slot)) PortalError.CheckpointStateInvalid ;;
  bail_if (Checkpoint.status checkpoint_state == CheckpointStatus.Challenged) PortalError.CheckpointChallenged ;;
  bail_if (Checkpoint.status checkpoint_state == CheckpointStatus.Invalid) PortalError.CheckpointStateInvalid ;;
  bail_if (Checkpoint.status checkpoint_state != CheckpointStatus.Committed) PortalError.CheckpointStateInvalid ;;
  mret checkpoint_state.

Definition store_checkpoint (checkpoint : Address) (checkpoint_state : Checkpoint.t) : prog unit :=
  store checkpoint checkpoint_state Panicked.

Definition load_cursor (session_key cursor : Address) : prog CheckpointCursor.t :=
  let '(expected_cursor_key, _) := find_checkpoint_cursor_pda (program_id cx) session_key in
  bail_if (cursor != expected_cursor_key) PortalError.InvalidPdaSeeds ;;
  x ← get_acct cursor;
  bail_if (negb (owned_by x (program_id cx))) PortalError.CheckpointCursorStateInvalid ;;
  cursor_state ← load cursor (into PortalError.CheckpointCursorDeserializeFailed);
  bail_if (negb (CheckpointCursor.is_valid cursor_state) || (CheckpointCursor.session cursor_state != session_key))
    PortalError.CheckpointCursorStateInvalid ;;
  mret cursor_state.

Definition store_cursor (cursor : Address) (cursor_state : CheckpointCursor.t) : prog unit :=
  store cursor cursor_state Panicked.

Definition require_active_checkpoint (cursor_state : CheckpointCursor.t) (checkpoint_key : Address) (er_slot : Z) :
    prog unit :=
  bail_if ((CheckpointCursor.active_checkpoint cursor_state != checkpoint_key)
           || (CheckpointCursor.active_er_slot cursor_state != er_slot)) PortalError.CheckpointStateInvalid.

Definition clear_active_checkpoint (c : CheckpointCursor.t) : CheckpointCursor.t :=
  CheckpointCursor.mk (CheckpointCursor.discriminator c) (CheckpointCursor.session c)
    (CheckpointCursor.latest_finalized_checkpoint c) (CheckpointCursor.latest_finalized_er_slot c)
    (CheckpointCursor.latest_finalized_state_root c) zero32 0 (CheckpointCursor.bump c).

Definition load_delegation_record (session_state : Session.t) (delegated_account delegation_record : Address) :
    prog DelegationRecord.t :=
  x ← get_acct delegated_account;
  bail_if (negb (owned_by x (program_id cx))) PortalError.DelegatedAccountOwnerMismatch ;;
  let '(expected_record, _) := find_delegation_record_pda (program_id cx) delegated_account in
  bail_if (delegation_record != expected_record) PortalError.DelegationRecordAccountMismatch ;;
  r ← get_acct delegation_record;
  bail_if (negb (owned_by r (program_id cx))) PortalError.DelegationRecordStateInvalid ;;
  delegation_state ← load delegation_record (into PortalError.DelegationRecordDeserializeFailed);
  bail_if (negb (DelegationRecord.is_valid delegation_state)
           || (DelegationRecord.grid_id delegation_state != Session.grid_id session_state))
    PortalError.DelegationRecordStateInvalid ;;
  mret delegation_state.
End load.

(** ** Handlers *)

Section handlers.
Context `{Host} (cx : Ctx).

Definition process_begin_settlement (accounts : list Address) (args : BeginSettlement.t) : prog unit :=
  let '(BeginSettlement.mk er_slot checksum effect_commitment) := args in
  match accounts with
  | validator :: session :: checkpoint :: _ =>
    session_state ← load_session cx session;
    require_validator cx validator session_state ;;
    bail_if (Session.settlement_status session_state == SettlementStatus.InProgress)
      PortalError.SettlementInProgress ;;
    let current_slot := slot (clock cx) in
    let next_settlement_slot := u64_saturating_add (Session.last_settled_l1_slot session_state)
                                  (Session.settlement_interval_slots session_state) in
    bail_if (current_slot <? next_settlement_slot) PortalError.SettlementTooEarly ;;
    bail_if (er_slot <=? Session.last_settled_er_slot session_state) PortalError.SettlementErSlotNotAdvanced ;;
    checkpoint_state ← load_checkpoint_for_settlement cx session er_slot checkpoint;
    bail_if (Checkpoint.effect_commitment checkpoint_state != effect_commitment)
      PortalError.SettlementChecksumMismatch ;;
    store_session session
      (with_settlement SettlementStatus.InProgress er_slot checksum (initial_settlement_checksum er_slot)
         current_slot session_state)
  | _ => fail NotEnoughAccountKeys
  end.

Definition process_write_settlement_chunk (accounts : list Address) (args : WriteSettlementChunk.t) : prog unit :=
  let '(WriteSettlementChunk.mk er_slot checksum account_data_offset chunk_len chunk) := args in
  match accounts with
  | validator :: session :: delegated_account :: delegation_record :: _ =>
    session_state ← load_session cx session;
    require_validator cx validator session_state ;;
    require_active_settlement session_state er_slot checksum ;;
    load_delegation_record cx session_state delegated_account delegation_record ;;
    bail_if (MAX_SETTLEMENT_CHUNK <? chunk_len) PortalError.SettlementChunkTooLarge ;;
    end_ ← ok_or (u64_checked_add account_data_offset chunk_len) (into PortalError.SettlementChunkOutOfBounds);
    x ← get_acct delegated_account;
    bail_if (Z.of_nat (length (data x)) <? end_) PortalError.SettlementChunkOutOfBounds ;;
    let start := Z.to_nat account_data_offset in
    let chunk_data := take (Z.to_nat chunk_len) chunk in
    if slice (data x) start (Z.to_nat chunk_len) == chunk_data then mret tt
    else
      set_data delegated_account (splice (data x) start chunk_data) ;;
      store_session session
        (with_accumulator (accumulate_data_chunk_checksum (Session.settlement_accumulator session_state)
                             delegated_account account_data_offset chunk_data) session_state)
  | _ => fail NotEnoughAccountKeys
  end.

Definition with_owner_program (o : Address) (d : DelegationRecord.t) : DelegationRecord.t :=
  DelegationRecord.mk (DelegationRecord.discriminator d) o (DelegationRecord.grid_id d) (DelegationRecord.bump d).

Definition process_settle_account_owner (accounts : list Address) (args : SettleAccountOwner.t) : prog unit :=
  let '(SettleAccountOwner.mk er_slot checksum owner) := args in
  match accounts with
  | validator :: session :: delegated_account :: delegation_record :: _ =>
    session_state ← load_session cx session;
    require_validator cx validator session_state ;;
    require_active_settlement session_state er_slot checksum ;;
    delegation_state ← load_delegation_record cx session_state delegated_account delegation_record;
    if DelegationRecord.owner_program delegation_state == owner then mret tt
    else
      store delegation_record (with_owner_program owner delegation_state) Panicked ;;
      store_session session
        (with_accumulator (accumulate_owner_checksum (Session.settlement_accumulator session_state)
                             delegated_account owner) session_state)
  | _ => fail NotEnoughAccountKeys
  end.

(** *** Lamports *)

(** [as_chunks::<2>().0] *)
Fixpoint as_chunks2 {A} (l : list A) : list (A * A) :=
  match l with
  | a :: r :: l' => (a, r) :: as_chunks2 l'
  | _ => []
  end.

(** The first loop: every account has its record, and no account comes twice. *)
Fixpoint check_pairs (session_state : Session.t) (seen : list Address) (pairs : list (Address * Address)) : prog unit :=
  match pairs with
  | [] => mret tt
  | (account, record) :: pairs' =>
      load_delegation_record cx session_state account record ;;
      err_if (bool_decide (account ∈ seen)) InvalidInstructionData ;;
      check_pairs session_state (seen ++ [account]) pairs'
  end.

(** Folding the targets into an accumulator. *)
Definition accumulate_targets (accumulator : Hash32) (targets : list (Address * Z)) : Hash32 :=
  fold_left (λ acc t, accumulate_lamports_checksum acc t.1 t.2) targets accumulator.

Inductive VaultGuard : Set := AlreadyApplied | NoVault | SurplusVault (fee_vault : Address).

Definition surplus_vault (session_state : Session.t) (trailing_accounts : list Address)
    (targets : list (Address * Z)) (previous_accumulator : option Hash32) : prog VaultGuard :=
  match previous_accumulator with
  | None => mret NoVault
  | Some previous_accumulator =>
      fee_vault ← ok_or (head trailing_accounts) NotEnoughAccountKeys;
      let '(expected_vault, vault_bump) := find_fee_vault_pda (program_id cx) in
      bail_if (fee_vault != expected_vault) PortalError.InvalidPdaSeeds ;;
      x ← get_acct fee_vault;
      bail_if (negb (owned_by x (program_id cx))) PortalError.InvalidAccountData ;;
      vault_state ← load fee_vault (into PortalError.InvalidAccountData);
      bail_if (negb (FeeVault.is_valid vault_state) || (FeeVault.bump vault_state != vault_bump)
               || (FeeVault.authority vault_state != Session.authority session_state)
               || bool_decide (fee_vault ∈ targets.*1)) PortalError.InvalidAccountData ;;
      let next_accumulator := accumulate_targets previous_accumulator targets in
      if Session.settlement_accumulator session_state == next_accumulator then mret AlreadyApplied
      else
        bail_if (Session.settlement_accumulator session_state != previous_accumulator)
          PortalError.SettlementChecksumMismatch ;;
        mret (SurplusVault fee_vault)
  end.

(** The second loop: totals, the rent check and whether every balance is already
    the target. *)
Fixpoint lamport_totals (targets : list (Address * Z)) (current_total target_total : Z) (already_settled : bool) :
    prog (Z * Z * bool) :=
  match targets with
  | [] => mret (current_total, target_total, already_settled)
  | (account, target) :: targets' =>
      x ← get_acct account;
      current_total ← ok_or (checked_add 128 current_total (lamports x)) (into PortalError.ArithmeticOverflow);
      target_total ← ok_or (checked_add 128 target_total target) (into PortalError.ArithmeticOverflow);
      (if (0 <? length (data x))%nat then
         minimum ← lift_err id (try_minimum_balance (length (data x)));
         bail_if (target <? minimum) PortalError.SettlementLamportsBelowRentExempt
       else mret tt) ;;
      lamport_totals targets' current_total target_total (already_settled && (lamports x =? target))
  end.

Definition process_settle_account_lamports_inner (accounts : list Address) (args : SettleAccountLamports.t)
    (previous_accumulator : option Hash32) : prog unit :=
  let '(SettleAccountLamports.mk er_slot checksum account_count targets) := args in
  let account_count := Z.to_nat account_count in
  err_if ((account_count =? 0)%nat || (MAX_SETTLEMENT_LAMPORT_ACCOUNTS <? account_count)%nat) InvalidInstructionData ;;
  err_if (length accounts <? 2 + account_count * 2)%nat NotEnoughAccountKeys ;;
  match accounts with
  | validator :: session :: rest =>
    let pairs := as_chunks2 (take (account_count * 2) rest) in
    let trailing_accounts := drop (account_count * 2) rest in
    let targets := zip pairs.*1 targets in
    session_state ← load_session cx session;
    require_validator cx validator session_state ;;
    require_active_settlement session_state er_slot checksum ;;
    check_pairs session_state [] pairs ;;
    guard ← surplus_vault session_state trailing_accounts targets previous_accumulator;
    match guard with
    | AlreadyApplied => mret tt
    | _ =>
      '(current_total, target_total, already_settled) ← lamport_totals targets 0 0 true;
      if already_settled && bool_decide (previous_accumulator = None) then mret tt
      else
        surplus ← ok_or (checked_sub current_total target_total) (into PortalError.SettlementLamportsNotConserved);
        vault_balance ←
          match guard with
          | SurplusVault vault =>
              v ← get_acct vault;
              bail_if (umax 64 <? surplus) PortalError.ArithmeticOverflow ;;
              b ← ok_or (u64_checked_add (lamports v) surplus) (into PortalError.ArithmeticOverflow);
              mret (Some (vault, b))
          | _ => bail_if (surplus != 0) PortalError.SettlementLamportsNotConserved ;; mret None
          end;
        for_each (λ t, set_lamports t.1 t.2) targets ;;
        match vault_balance with
        | Some (fee_vault, b) => set_lamports fee_vault b
        | None => mret tt
        end ;;
        store_session session
          (with_accumulator (accumulate_targets (Session.settlement_accumulator session_state) targets) session_state)
    end
  | _ => fail Panicked
  end.

Definition process_settle_account_lamports (accounts : list Address) (args : SettleAccountLamports.t) : prog unit :=
  process_settle_account_lamports_inner accounts args None.
Definition process_settle_account_lamports_with_surplus (accounts : list Address) (args : SettleAccountLamports.t)
    (previous_accumulator : Hash32) : prog unit :=
  process_settle_account_lamports_inner accounts args (Some previous_accumulator).

(** *** Finish and abort *)

Definition with_status (st : CheckpointStatus.t) (c : Checkpoint.t) : Checkpoint.t :=
  Checkpoint.mk (Checkpoint.discriminator c) (Checkpoint.session c) (Checkpoint.er_slot c) (Checkpoint.step_count c)
    (Checkpoint.previous_state_root c) (Checkpoint.new_state_root c) (Checkpoint.trace_root c)
    (Checkpoint.tx_effect_root c) (Checkpoint.readonly_l1_root c) (Checkpoint.da_commitment c)
    (Checkpoint.effect_commitment c) (Checkpoint.proposer c) (Checkpoint.proposed_at_l1_slot c)
    (Checkpoint.challenge_deadline_l1_slot c) st (Checkpoint.bond_lamports c) (Checkpoint.bond_status c)
    (Checkpoint.challenger c) (Checkpoint.challenged_at_l1_slot c) (Checkpoint.challenge_resolved c)
    (Checkpoint.bump c).

Definition process_finish_settlement (accounts : list Address) (args : FinishSettlement.t) : prog unit :=
  let '(FinishSettlement.mk er_slot checksum) := args in
  match accounts with
  | validator :: session :: checkpoint :: cursor :: _ =>
    session_state ← load_session cx session;
    require_validator cx validator session_state ;;
    bail_if (Session.settlement_status session_state != SettlementStatus.InProgress)
      PortalError.SettlementNotInProgress ;;
    bail_if (er_slot != Session.settlement_er_slot session_state) PortalError.SettlementErSlotMismatch ;;
    bail_if ((checksum != Session.settlement_checksum session_state)
             || (checksum != Session.settlement_accumulator session_state)) PortalError.SettlementChecksumMismatch ;;
    checkpoint_state ← load_checkpoint_for_settlement cx session er_slot checkpoint;
    cursor_state ← load_cursor cx session cursor;
    require_active_checkpoint cursor_state checkpoint er_slot ;;
    store_checkpoint checkpoint (with_status CheckpointStatus.Settled checkpoint_state) ;;
    store_cursor cursor (clear_active_checkpoint cursor_state) ;;
    store_session session (idle_settlement (with_last_settled (slot (clock cx)) er_slot session_state))
  | _ => fail NotEnoughAccountKeys
  end.

Definition process_abort_settlement (accounts : list Address) : prog unit :=
  match accounts with
  | authority_or_validator :: session :: _ =>
    session_state ← load_session cx session;
    bail_if (negb (is_signer cx authority_or_validator)) PortalError.Unauthorized ;;
    bail_if (Session.settlement_status session_state != SettlementStatus.InProgress)
      PortalError.SettlementNotInProgress ;;
    let is_validator := authority_or_validator == Session.validator session_state in
    let is_timed_out_authority :=
      (authority_or_validator == Session.authority session_state)
      && (u64_saturating_add (Session.settlement_started_l1_slot session_state)
            (Session.settlement_interval_slots session_state) <? slot (clock cx)) in
    bail_if (negb is_validator && negb is_timed_out_authority) PortalError.SettlementUnauthorizedAbort ;;
    bail_if (Session.settlement_accumulator session_state
             != initial_settlement_checksum (Session.settlement_er_slot session_state))
      PortalError.SettlementInProgress ;;
    store_session session (idle_settlement session_state)
  | _ => fail NotEnoughAccountKeys
  end.
End handlers.

(** ** The checksum determines the operations *)

Inductive SettleOp : Set :=
| SetData (account : Address) (offset : Z) (d : list byte)
| SetOwner (account owner : Address)
| SetLamports (account : Address) (n : Z)
| SettleReceipt (er_source l1_recipient : Address) (balance withdrawn payout : Z)
| SettleToken (x : TokenWithdrawalChecksum).

Definition op_parts (op : SettleOp) : list (list byte) :=
  match op with
  | SetData a off d => [str "data"; a; le_bytes 4 off; le_bytes 4 (Z.of_nat (length d)); d]
  | SetOwner a o => [str "owner"; a; o]
  | SetLamports a n => [str "lamports"; a; le_bytes 8 n]
  | SettleReceipt s r b wd p => [str "receipt"; s; r; le_bytes 8 b; le_bytes 8 wd; le_bytes 8 p]
  | SettleToken x =>
      [str "token_withdrawal"; tw_bridge_program x; tw_session_bridge x; tw_er_token_account x;
       tw_vault x; tw_vault_token_account x; tw_destination_token_account x; tw_mint x; tw_token_program x;
       le_bytes 8 (tw_amount x); le_bytes 8 (tw_withdrawn x); le_bytes 1 (tw_decimals x)]
  end.

Definition is_key (a : Address) : Prop := length a = 32%nat.

Definition wf_op (op : SettleOp) : Prop :=
  match op with
  | SetData a off d => is_key a ∧ in_width 32 off ∧ in_width 32 (Z.of_nat (length d))
  | SetOwner a o => is_key a ∧ is_key o
  | SetLamports a n => is_key a ∧ is_u64 n
  | SettleReceipt s r b wd p => is_key s ∧ is_key r ∧ is_u64 b ∧ is_u64 wd ∧ is_u64 p
  | SettleToken x =>
      Forall is_key [tw_bridge_program x; tw_session_bridge x; tw_er_token_account x; tw_vault x;
        tw_vault_token_account x; tw_destination_token_account x; tw_mint x; tw_token_program x] ∧
      is_u64 (tw_amount x) ∧ is_u64 (tw_withdrawn x) ∧ is_u8 (tw_decimals x)
  end.

Lemma le_bytes_inj_width n w a b :
  w = 8 * Z.of_nat n → in_width w a → in_width w b → le_bytes n a = le_bytes n b → a = b.
Proof.
  intros -> Ha Hb. unfold in_width in *. rewrite (umax_256 _ n) in * by done. apply le_bytes_inj; lia.
Qed.

(** Splits an equation between concatenations of parts of equal lengths. *)
Ltac split_parts :=
  repeat match goal with
         | H : ?a ++ _ = ?b ++ _ |- _ =>
             apply app_inj_len in H; [destruct H as [? H]
             |first [by rewrite !length_le_bytes|etrans; [eassumption|symmetry; eassumption]]]
         end.

Lemma op_parts_inj a b : wf_op a → wf_op b → concat (op_parts a) = concat (op_parts b) → a = b.
Proof.
  unfold is_key. destruct a, b; intros Ha Hb He; try discriminate He; cbn [op_parts concat] in He;
    apply app_inv_head in He; cbn [wf_op] in *.
  - destruct Ha as (? & ? & ?), Hb as (? & ? & ?). unfold is_key in *. split_parts.
    rewrite !app_nil_r in He. subst. f_equal. by eapply (le_bytes_inj_width 4 32).
  - destruct Ha, Hb. unfold is_key in *. split_parts. by subst.
  - destruct Ha, Hb. unfold is_key in *. split_parts. subst. f_equal. by eapply (le_bytes_inj_width 8 64).
  - destruct Ha as (? & ? & ? & ? & ?), Hb as (? & ? & ? & ? & ?). unfold is_key in *. split_parts.
    subst. f_equal; by eapply (le_bytes_inj_width 8 64).
  - destruct Ha as (Ha & ? & ? & ?), Hb as (Hb & ? & ? & ?). rewrite !list.Forall_cons in Ha, Hb.
    unfold is_key in *. destruct_and!. split_parts. destruct x, x0.
    cbn [tw_bridge_program tw_session_bridge tw_er_token_account tw_vault tw_vault_token_account
      tw_destination_token_account tw_mint tw_token_program tw_amount tw_withdrawn tw_decimals] in *. subst.
    do 2 f_equal; first [by eapply (le_bytes_inj_width 8 64)|by eapply (le_bytes_inj_width 1 8)].
Qed.

Section fold.
Context `{HostLaws}.

Definition accumulate (acc : Hash32) (op : SettleOp) : Hash32 := hashv (acc :: op_parts op).

(** The accumulator after [ops]. *)
Definition settle_fold (er_slot : Z) (ops : list SettleOp) : Hash32 :=
  fold_left accumulate ops (initial_settlement_checksum er_slot).

(** The messages hashed on the way. *)
Definition initial_message (er_slot : Z) : list byte := concat [SETTLEMENT_CHECKSUM_DOMAIN; le_bytes 8 er_slot].
Definition op_message (acc : Hash32) (op : SettleOp) : list byte := concat (acc :: op_parts op).
Fixpoint op_messages (acc : Hash32) (ops : list SettleOp) : list (list byte) :=
  match ops with
  | [] => []
  | op :: ops' => op_message acc op :: op_messages (accumulate acc op) ops'
  end.
Definition messages (er_slot : Z) (ops : list SettleOp) : list (list byte) :=
  initial_message er_slot :: op_messages (initial_settlement_checksum er_slot) ops.

(** Two different messages, one of each run, with one hash. *)
Definition sha_collision (l l' : list (list byte)) : Prop :=
  ∃ m m', m ∈ l ∧ m' ∈ l' ∧ m ≠ m' ∧ sha256 m = sha256 m'.

Lemma settle_fold_length er ops : length (settle_fold er ops) = 32%nat.
Proof.
  unfold settle_fold. destruct ops as [|op ops _] using rev_ind; [apply sha256_length|].
  rewrite fold_left_app. apply sha256_length.
Qed.

Lemma settle_fold_snoc er ops op : settle_fold er (ops ++ [op]) = accumulate (settle_fold er ops) op.
Proof. unfold settle_fold. by rewrite fold_left_app. Qed.

Lemma op_messages_snoc acc ops op :
  op_messages acc (ops ++ [op]) = op_messages acc ops ++ [op_message (fold_left accumulate ops acc) op].
Proof. revert acc. induction ops as [|o ops IH]; intros acc; simpl; [done|]. by rewrite IH. Qed.

Lemma messages_snoc er ops op :
  messages er (ops ++ [op]) = messages er ops ++ [op_message (settle_fold er ops) op].
Proof. unfold messages. by rewrite op_messages_snoc. Qed.

Lemma initial_not_op er acc op : length acc = 32%nat → initial_message er ≠ op_message acc op.
Proof.
  intros Hl He. apply (f_equal length) in He. revert He. unfold initial_message, op_message.
  cbn [concat]. rewrite !length_app, length_le_bytes, Hl. simpl. lia.
Qed.

Lemma sha_collision_mono l1 l2 k1 k2 :
  l1 ⊆ k1 → l2 ⊆ k2 → sha_collision l1 l2 → sha_collision k1 k2.
Proof. intros H1 H2 (m & m' & ? & ? & ? & ?). exists m, m'. auto. Qed.

Lemma settle_fold_binding er1 er2 ops1 ops2 :
  is_u64 er1 → is_u64 er2 → Forall wf_op ops1 → Forall wf_op ops2 →
  settle_fold er1 ops1 = settle_fold er2 ops2 →
  er1 = er2 ∧ ops1 = ops2 ∨ sha_collision (messages er1 ops1) (messages er2 ops2).
Proof.
  intros He1 He2. revert ops2.
  induction ops1 as [|op1 ops1 IH] using rev_ind; intros ops2 Hw1 Hw2 Hf;
    destruct ops2 as [|op2 ops2 _] using rev_ind; rewrite ?settle_fold_snoc in Hf.
  - destruct (decide (initial_message er1 = initial_message er2)) as [Hm|Hm].
    + left. split; [|done]. apply app_inv_head in Hm. cbn [concat] in Hm. rewrite !app_nil_r in Hm.
      by eapply (le_bytes_inj_width 8 64).
    + right. exists (initial_message er1), (initial_message er2). split_and!; [set_solver..|done|done].
  - right. exists (initial_message er1), (op_message (settle_fold er2 ops2) op2).
    rewrite messages_snoc. split_and!; [set_solver..| |done]. apply initial_not_op, settle_fold_length.
  - right. exists (op_message (settle_fold er1 ops1) op1), (initial_message er2).
    rewrite messages_snoc. split_and!; [set_solver..| |done].
    apply not_eq_sym, initial_not_op, settle_fold_length.
  - rewrite Forall_app, Forall_singleton in Hw1, Hw2. destruct Hw1 as [Hw1 Ho1], Hw2 as [Hw2 Ho2].
    rewrite !messages_snoc.
    destruct (decide (op_message (settle_fold er1 ops1) op1 = op_message (settle_fold er2 ops2) op2)) as [Hm|Hm].
    + unfold op_message in Hm. cbn [concat] in Hm.
      apply app_inj_len in Hm as [Hacc Hp]; [|by rewrite !settle_fold_length].
      apply op_parts_inj in Hp as ->; [|done..].
      destruct (IH _ Hw1 Hw2 Hacc) as [[-> ->]|Hc]; [by left|right].
      eapply sha_collision_mono; [..|exact Hc]; set_solver.
    + right. eexists _, _. split_and!; [..|exact Hm|exact Hf]; set_solver.
Qed.
End fold.

(** ** What loading and storing do *)

Section specs.
Context `{HostLaws} (cx : Ctx).

(** The session account holds [s]. *)
Definition session_at (w : World) (a : Address) (s : Session.t) : Prop := parse_session (data (acct w a)) = Ok s.

#[global] Instance session_at_proper : Proper ((≡) ==> (=) ==> (=) ==> iff) session_at.
Proof. intros w w' Hw a ? <- s ? <-. unfold session_at. by rewrite Hw. Qed.

Lemma session_at_wf w a s : session_at w a s → wf borsh s ∧ Session.is_valid s = true.
Proof. intros Hs%parse_session_Ok. by eapply session_shape_wf. Qed.

Lemma with_settlement_wf st er chk acc started s :
  wf borsh s → is_u64 er → is_key chk → is_key acc → is_u64 started →
  wf borsh (with_settlement st er chk acc started s) ∧
  (Session.is_valid s = true → Session.is_valid (with_settlement st er chk acc started s) = true).
Proof.
  intros (?&?&?&?&?&?&?&?&?&?&?&?&?&?&?&?&?) ????. split; [|done]. wf_fields.
Qed.

Lemma with_last_settled_wf l1 er s :
  wf borsh s → is_u64 l1 → is_u64 er → wf borsh (with_last_settled l1 er s).
Proof. intros (?&?&?&?&?&?&?&?&?&?&?&?&?&?&?&?&?) ??. wf_fields. Qed.

#[global] Instance load_session_read_only session : ReadOnly (load_session cx session).
Proof. unfold load_session. destruct (find_session_pda _). apply _. Qed.
#[global] Instance require_validator_read_only v s : ReadOnly (require_validator cx v s).
Proof. unfold require_validator. apply _. Qed.
#[global] Instance require_active_settlement_read_only s er chk : ReadOnly (require_active_settlement s er chk).
Proof. unfold require_active_settlement. apply _. Qed.
#[global] Instance load_checkpoint_for_settlement_read_only se er c :
  ReadOnly (load_checkpoint_for_settlement cx se er c).
Proof. unfold load_checkpoint_for_settlement. destruct (find_checkpoint_pda _ _ _). apply _. Qed.
#[global] Instance load_cursor_read_only se c : ReadOnly (load_cursor cx se c).
Proof. unfold load_cursor. destruct (find_checkpoint_cursor_pda _ _). apply _. Qed.
#[global] Instance load_delegation_record_read_only s d r : ReadOnly (load_delegation_record cx s d r).
Proof. unfold load_delegation_record. destruct (find_delegation_record_pda _ _). apply _. Qed.
#[global] Instance store_session_conserves a s : Conserves (store_session a s).
Proof. unfold store_session. apply _. Qed.
#[global] Instance store_session_frame P a s : Holds (P a) → Frame P (store_session a s).
Proof. unfold store_session. apply _. Qed.
#[global] Instance store_session_silent a s : Silent (store_session a s).
Proof. unfold store_session. apply _. Qed.

Lemma load_session_Ok session w s w' :
  load_session cx session w = Ok (s, w') →
  session = (find_session_pda (program_id cx)).1 ∧ owner (acct w session) = program_id cx ∧ session_at w session s.
Proof. unfold load_session, owned_by. intros Hr. minv. by bprop. Qed.

Lemma require_validator_Ok v s w u w' :
  require_validator cx v s w = Ok (u, w') → is_signer cx v = true ∧ v = Session.validator s.
Proof. unfold require_validator. intros Hr. minv. by bprop. Qed.

Lemma require_active_settlement_Ok s er chk w u w' :
  require_active_settlement s er chk w = Ok (u, w') →
  Session.settlement_status s = SettlementStatus.InProgress ∧ er = Session.settlement_er_slot s ∧
  chk = Session.settlement_checksum s.
Proof. unfold require_active_settlement. intros Hr. minv. by bprop. Qed.

Lemma load_delegation_record_Ok s d r w x w' :
  load_delegation_record cx s d r w = Ok (x, w') →
  owner (acct w d) = program_id cx ∧ r = (find_delegation_record_pda (program_id cx) d).1 ∧
  try_from_slice (data (acct w r)) = Some x ∧ DelegationRecord.is_valid x = true ∧
  DelegationRecord.grid_id x = Session.grid_id s.
Proof.
  unfold load_delegation_record, owned_by. intros Hr. minv.
  match goal with X : load _ _ _ = Ok _ |- _ => apply load_Ok in X as [X _] end. by bprop.
Qed.

(** Storing a session whose terms are unchanged. *)
Lemma store_session_Ok session s0 s w u w' :
  session_at w session s0 → wf borsh s → Session.is_valid s = true →
  store_session session s w = Ok (u, w') →
  session_at w' session s ∧ ∃ d, w' ≡ put session (with_data d (acct w session)) w.
Proof.
  unfold session_at, store_session. intros Hp Hwf Hv Hr. minv.
  match goal with X : write_session _ _ = Ok ?d |- _ => apply write_session_Ok with (s := s0) in X as [X _]; [|done..] end.
  split; [|by eexists]. by acct_simpl.
Qed.

(** It does not fail. *)
Lemma store_session_total session s0 s w :
  session_at w session s0 → wf borsh s → Session.is_valid s = true → session_terms s = session_terms s0 →
  is_ok (store_session session s w) = true.
Proof.
  unfold session_at, store_session. intros Hp Hwf Hv Ht.
  destruct (parse_write_session _ _ _ Hp Hwf Hv Ht) as (d & Hd & _).
  unfold mbind, M_bind, get_acct, gets, lift_err. by rewrite Hd.
Qed.

(** Storing an accumulator. *)
Lemma store_accumulator_Ok session s acc w0 w u w' :
  session_at w0 session s → data (acct w session) = data (acct w0 session) → is_key acc →
  store_session session (with_accumulator acc s) w = Ok (u, w') →
  session_at w' session (with_accumulator acc s) ∧ (∀ b, b ≠ session → acct w' b = acct w b) ∧
  (∃ d, acct w' session = with_data d (acct w session)) ∧ events w' = events w.
Proof.
  intros Hs Hd Hacc Hr. pose proof (session_at_wf _ _ _ Hs) as [Hwf Hv].
  destruct (with_settlement_wf (Session.settlement_status s) (Session.settlement_er_slot s)
    (Session.settlement_checksum s) acc (Session.settlement_started_l1_slot s) s) as [Hwf' Hv']; try done;
    try (by destruct Hwf as (?&?&?&?&?&?&?&?&?&?&?&?&?&?&?&?&?)).
  apply (store_session_Ok _ s) in Hr as (? & d & Hw); [|unfold session_at in *; by rewrite Hd|done|by apply Hv'].
  split_and!; [done| |exists d; by acct_simpl|by events_simpl].
  intros b Hb. by acct_simpl.
Qed.
End specs.

(** ** What the handlers do *)

Section handler_specs.
Context `{HostLaws} (cx : Ctx).

(** The validator of the session signs, and the settlement it names is open. *)
Definition settling (w : World) (validator session : Address) (er_slot : Z) (checksum : Hash32) (s : Session.t) : Prop :=
  session_at w session s ∧ is_signer cx validator = true ∧ validator = Session.validator s ∧
  Session.settlement_status s = SettlementStatus.InProgress ∧
  er_slot = Session.settlement_er_slot s ∧ checksum = Session.settlement_checksum s.

Lemma sha_key parts : is_key (hashv parts).
Proof. apply sha256_length. Qed.

(** A chunk either is there already, and nothing changes, or is written in
    place and accumulated. *)
Lemma process_write_settlement_chunk_Ok validator session delegated record rest args w u w' :
  delegated ≠ session → wf borsh args →
  process_write_settlement_chunk cx (validator :: session :: delegated :: record :: rest) args w = Ok (u, w') →
  let off := WriteSettlementChunk.account_data_offset args in
  let len := WriteSettlementChunk.chunk_len args in
  let chunk := take (Z.to_nat len) (WriteSettlementChunk.chunk args) in
  ∃ s x, settling w validator session (WriteSettlementChunk.er_slot args) (WriteSettlementChunk.checksum args) s ∧
    load_delegation_record cx s delegated record w = Ok (x, w) ∧
    0 ≤ len ≤ 700 ∧ 0 ≤ off ∧ off + len ≤ Z.of_nat (length (data (acct w delegated))) ∧
    length chunk = Z.to_nat len ∧
    (w' = w ∧ slice (data (acct w delegated)) (Z.to_nat off) (Z.to_nat len) = chunk ∨
     slice (data (acct w delegated)) (Z.to_nat off) (Z.to_nat len) ≠ chunk ∧
     acct w' delegated = with_data (splice (data (acct w delegated)) (Z.to_nat off) chunk) (acct w delegated) ∧
     session_at w' session
       (with_accumulator (accumulate (Session.settlement_accumulator s) (SetData delegated off chunk)) s) ∧
     (∃ d, acct w' session = with_data d (acct w session)) ∧
     (∀ b, b ≠ session → b ≠ delegated → acct w' b = acct w b)).
Proof.
  intros Hne Hargs Hr. destruct args as [er chk off len chunk]. unfold process_write_settlement_chunk in Hr.
  destruct Hargs as (_ & _ & Ho & Hl & Hc). cbn in Ho, Hl, Hc.
  mstep Hr as s w1 Hs. apply load_session_Ok in Hs as (_ & _ & Hs).
  mstep Hr as [] w1 Hv. apply require_validator_Ok in Hv as [Hsig Hv].
  mstep Hr as [] w1 Ha. apply require_active_settlement_Ok in Ha as (Hst & Her & Hck).
  mstep Hr as x w1 Hx. mstep Hr as [] w1 Hlen. mstep Hr as e w1 He. mstep Hr as y w1 Hy. mstep Hr as [] w1 Hb.
  unfold MAX_SETTLEMENT_CHUNK in Hlen. bprop.
  cbn [WriteSettlementChunk.account_data_offset WriteSettlementChunk.chunk_len WriteSettlementChunk.chunk
    WriteSettlementChunk.er_slot WriteSettlementChunk.checksum]. cbv zeta in Hr.
  assert (Hlt : length (take (Z.to_nat len) chunk) = Z.to_nat len) by (rewrite length_take; unfold in_width in *; lia).
  exists s, x. split; [done|]. split; [done|]. unfold in_width in *. do 4 (split; [lia|]).
  destruct (_ == _) eqn:Heq; bprop; [left; minv; done|right]. minv.
  match goal with X : store_session _ _ _ = _ |- _ =>
    apply (store_accumulator_Ok _ _ _ w) in X as (Hs' & Hf & Hd & _); [|done|by acct_simpl|apply sha_key] end.
  split_and!; [done| |exact Hs'| |].
  - rewrite Hf by done. by acct_simpl.
  - destruct Hd as [d Hd]. exists d. rewrite Hd. by acct_simpl.
  - intros b ??. rewrite Hf by done. by acct_simpl.
Qed.

(** The delegation record's owner program is replaced. *)
Lemma process_settle_account_owner_Ok validator session delegated record rest args w u w' :
  record ≠ session → wf borsh args →
  process_settle_account_owner cx (validator :: session :: delegated :: record :: rest) args w = Ok (u, w') →
  let o := SettleAccountOwner.owner args in
  ∃ s x, settling w validator session (SettleAccountOwner.er_slot args) (SettleAccountOwner.checksum args) s ∧
    load_delegation_record cx s delegated record w = Ok (x, w) ∧
    (w' = w ∧ DelegationRecord.owner_program x = o ∨
     DelegationRecord.owner_program x ≠ o ∧
     try_from_slice (data (acct w' record)) = Some (with_owner_program o x) ∧
     session_at w' session
       (with_accumulator (accumulate (Session.settlement_accumulator s) (SetOwner delegated o)) s) ∧
     (∃ d, acct w' session = with_data d (acct w session)) ∧
     (∀ b, b ≠ session → b ≠ record → acct w' b = acct w b)).
Proof.
  intros Hne Hargs Hr. destruct args as [er chk o]. unfold process_settle_account_owner in Hr.
  destruct Hargs as (_ & _ & Ho).
  mstep Hr as s w1 Hs. apply load_session_Ok in Hs as (_ & _ & Hs).
  mstep Hr as [] w1 Hv. apply require_validator_Ok in Hv as [Hsig Hv].
  mstep Hr as [] w1 Ha. apply require_active_settlement_Ok in Ha as (Hst & Her & Hck).
  mstep Hr as x w1 Hx. pose proof (load_delegation_record_Ok _ _ _ _ _ _ _ Hx) as (_ & _ & Hp & _).
  cbn [SettleAccountOwner.owner SettleAccountOwner.er_slot SettleAccountOwner.checksum].
  exists s, x. split; [done|]. split; [done|].
  destruct (_ == _) eqn:Heq; bprop; [left; by minv|right]. mstep Hr as [] w1 Hst1.
  assert (Hwf : wf borsh (with_owner_program o x)).
  { apply try_from_slice_Some in Hp as [(?&?&?&?) _]. wf_fields. }
  apply (store_loaded_Ok (n:=49) _ x) in Hst1 as ->; [|done..].
  apply (store_accumulator_Ok _ _ _ w) in Hr as (Hs' & Hf & Hd & _); [|done|by acct_simpl|apply sha_key].
  split_and!; [done| |exact Hs'| |].
  - rewrite Hf by done. acct_simpl. cbn [data with_data]. by apply try_from_slice_enc.
  - destruct Hd as [d Hd]. exists d. rewrite Hd. by acct_simpl.
  - intros b ??. rewrite Hf by done. by acct_simpl.
Qed.
End handler_specs.

(** ** Settling lamports *)

Definition apply_targets (targets : list (Address * Z)) (w : World) : World :=
  fold_left (λ w t, put t.1 (with_lamports t.2 (acct w t.1)) w) targets w.

Definition current_sum (w : World) (targets : list (Address * Z)) : Z :=
  foldr (λ t n, lamports (acct w t.1) + n) 0 targets.
Definition target_sum (targets : list (Address * Z)) : Z := foldr (λ t n, t.2 + n) 0 targets.

Lemma acct_apply_targets_notin targets w b : b ∉ targets.*1 → acct (apply_targets targets w) b = acct w b.
Proof.
  revert w. induction targets as [|[a n] ts IH]; intros w Hb; [done|].
  rewrite fmap_cons in Hb. nodup. cbn [apply_targets fold_left fst snd].
  change (fold_left _ ts ?w) with (apply_targets ts w). rewrite IH by done. by rewrite acct_put_ne.
Qed.

Lemma acct_apply_targets_in targets w a n :
  NoDup targets.*1 → (a, n) ∈ targets → acct (apply_targets targets w) a = with_lamports n (acct w a).
Proof.
  revert w. induction targets as [|[a' n'] ts IH]; intros w Hnd Hin; [by apply elem_of_nil in Hin|].
  rewrite fmap_cons in Hnd. apply list.NoDup_cons in Hnd as [Hn Hnd].
  cbn [apply_targets fold_left fst snd]. change (fold_left _ ts ?w) with (apply_targets ts w).
  apply elem_of_cons in Hin as [[= <- <-]|Hin].
  - rewrite acct_apply_targets_notin by done. by rewrite acct_put_eq.
  - rewrite IH by done. assert (a' ≠ a) by (intros ->; apply Hn; by apply (list_elem_of_fmap_2 fst _ (a, n))).
    by rewrite acct_put_ne.
Qed.

Lemma current_sum_put w a x targets : a ∉ targets.*1 → current_sum (put a x w) targets = current_sum w targets.
Proof.
  induction targets as [|[b n] ts IH]; [done|]. rewrite fmap_cons. intros Hn. nodup. simpl in *.
  by rewrite acct_put_ne, IH.
Qed.

Lemma apply_targets_total targets w :
  NoDup targets.*1 →
  total_lamports (apply_targets targets w) = total_lamports w - current_sum w targets + target_sum targets.
Proof.
  revert w. induction targets as [|[a n] ts IH]; intros w Hnd; [simpl; lia|].
  rewrite fmap_cons in Hnd. apply list.NoDup_cons in Hnd as [Hn Hnd].
  cbn [apply_targets fold_left fst snd]. change (fold_left _ ts ?w) with (apply_targets ts w).
  rewrite IH, total_lamports_put, current_sum_put by done. simpl. lia.
Qed.

Lemma apply_targets_events targets w : events (apply_targets targets w) = events w.
Proof. revert w. induction targets as [|t ts IH]; intros w; [done|]. unfold apply_targets in *. simpl. by rewrite IH. Qed.

Lemma for_each_set_lamports targets w u w' :
  for_each (λ t, set_lamports t.1 t.2) targets w = Ok (u, w') → w' = apply_targets targets w.
Proof.
  revert w. induction targets as [|t ts IH]; intros w Hr; simpl in Hr; [by minv|].
  unfold set_lamports, update in Hr. apply bind_Ok in Hr as ([] & w1 & H1 & Hr). apply modify_Ok in H1 as ->.
  by apply IH in Hr.
Qed.

Section lamports_spec.
Context `{HostLaws} (cx : Ctx).

#[global] Instance check_pairs_read_only s seen pairs : ReadOnly (check_pairs cx s seen pairs).
Proof. revert seen. induction pairs as [|[a r] ps IH]; intros seen; simpl; apply _. Qed.

Lemma check_pairs_Ok s seen pairs w u w' :
  check_pairs cx s seen pairs w = Ok (u, w') →
  NoDup pairs.*1 ∧ (∀ a, a ∈ pairs.*1 → a ∉ seen) ∧
  Forall (λ p, ∃ x, load_delegation_record cx s p.1 p.2 w = Ok (x, w)) pairs.
Proof.
  revert seen. induction pairs as [|[a r] ps IH]; intros seen Hr; simpl in Hr.
  { rewrite fmap_nil. split_and!; [constructor| |constructor]. intros a Ha. by apply elem_of_nil in Ha. }
  mstep Hr as x w1 Hx. mstep Hr as [] w1 Hs. apply IH in Hr as (Hnd & Hseen & Hf). bprop.
  rewrite fmap_cons. cbn [fst]. split_and!.
  - apply list.NoDup_cons. split; [|done]. intros Ha. apply (Hseen _ Ha). set_solver.
  - intros b Hb. apply elem_of_cons in Hb as [->|Hb]; [done|]. specialize (Hseen b Hb). set_solver.
  - constructor; [eauto|done].
Qed.

#[global] Instance lamport_totals_read_only ts c t b : ReadOnly (lamport_totals ts c t b).
Proof. revert c t b. induction ts as [|[a n] ts IH]; intros c t b; simpl; apply _. Qed.
#[global] Instance surplus_vault_read_only s tr ts p : ReadOnly (surplus_vault cx s tr ts p).
Proof. unfold surplus_vault. destruct p; [|apply _]. destruct (find_fee_vault_pda _). apply _. Qed.

Lemma lamport_totals_Ok ts c t b w c' t' b' w' :
  lamport_totals ts c t b w = Ok (c', t', b', w') →
  c' = c + current_sum w ts ∧ t' = t + target_sum ts ∧
  (b' = true ↔ b = true ∧ Forall (λ p, lamports (acct w p.1) = p.2) ts) ∧
  Forall (λ p, data (acct w p.1) ≠ [] →
            ∃ m, try_minimum_balance (length (data (acct w p.1))) = Ok m ∧ m ≤ p.2) ts.
Proof.
  revert c t b. induction ts as [|[a n] ts IH]; intros c t b Hr; simpl in Hr.
  { apply ret_Ok in Hr as [[= <- <- <-] ->]. simpl. split_and!; [lia|lia| |constructor].
    split; [intros ->; split; [done|constructor]|by intros [-> _]]. }
  mstep Hr as x w1 Hx. mstep Hr as c1 w1 Hc. mstep Hr as t1 w1 Ht. bprop.
  apply bind_Ok in Hr as ([] & w1 & Hrent & Hr). pose proof (read_only _ _ _ Hrent). subst w1.
  apply IH in Hr as (-> & -> & Hb & Hf). simpl. split_and!; [lia|lia| |].
  - rewrite Hb, andb_true_iff, Z.eqb_eq, list.Forall_cons. simpl. tauto.
  - constructor; [|done]. simpl. intros Hd. minv; bprop; [eauto|].
    destruct (data (acct w a)); simpl in *; [done|]. by apply Nat.ltb_ge in Hif; lia.
Qed.

(** The balances an instruction sets: the accounts at even positions after the
    first two, with their targets. *)
Definition lamport_targets (accounts : list Address) (args : SettleAccountLamports.t) : list (Address * Z) :=
  zip (as_chunks2 (take (Z.to_nat (SettleAccountLamports.account_count args) * 2) (drop 2 accounts))).*1
    (SettleAccountLamports.lamports args).

Abbreviation vault_of := (find_fee_vault_pda (program_id cx)).1.

Lemma surplus_vault_Ok s trailing targets prev w g w' :
  surplus_vault cx s trailing targets prev w = Ok (g, w') →
  match g with
  | NoVault => prev = None
  | AlreadyApplied => ∃ p, prev = Some p ∧ Session.settlement_accumulator s = accumulate_targets p targets
  | SurplusVault v => v = vault_of ∧ prev = Some (Session.settlement_accumulator s) ∧ v ∉ targets.*1
  end.
Proof.
  unfold surplus_vault. destruct prev as [p|]; intros Hr; minv; bprop; cbn [fst]; subst; [by eauto| |done].
  split_and!; [done|congruence|done].
Qed.

Lemma accumulate_targets_fold acc targets :
  accumulate_targets acc targets = fold_left accumulate ((λ t, SetLamports t.1 t.2) <$> targets) acc.
Proof. revert acc. induction targets as [|t ts IH]; intros acc; [done|]. apply IH. Qed.

Lemma accumulate_targets_key acc targets : is_key acc → is_key (accumulate_targets acc targets).
Proof.
  destruct targets as [|t ts _] using rev_ind; [done|]. intros _.
  unfold accumulate_targets. rewrite fold_left_app. apply sha_key.
Qed.

Lemma zip_fst_NoDup {A B} (l : list A) (k : list B) : NoDup l → NoDup (zip l k).*1.
Proof.
  revert k. induction l as [|a l IH]; intros [|b k] Hnd; try constructor;
    apply list.NoDup_cons in Hnd as [Ha Hnd]; [|by apply IH].
  cbn [zip fmap list_fmap fst]. intros Hin%list_elem_of_fmap. destruct Hin as ([x y] & Hx & Hin).
  cbn [fst] in Hx. subst x. apply elem_of_zip_l in Hin. done.
Qed.

(** The writes at the end of the handler, with the vault's new balance. *)
Lemma lamports_written_Ok session s targets vb w u w' :
  session_at w session s → NoDup targets.*1 → session ∉ targets.*1 →
  (∀ v n, vb = Some (v, n) → v ≠ session ∧ v ∉ targets.*1) →
  (for_each (λ t, set_lamports t.1 t.2) targets ;;
   match vb with Some (fee_vault, b) => set_lamports fee_vault b | None => mret tt end ;;
   store_session session
     (with_accumulator (accumulate_targets (Session.settlement_accumulator s) targets) s)) w = Ok (u, w') →
  session_at w' session (with_accumulator (accumulate_targets (Session.settlement_accumulator s) targets) s) ∧
  (∃ d, acct w' session = with_data d (acct w session)) ∧
  (∀ a n, (a, n) ∈ targets → acct w' a = with_lamports n (acct w a)) ∧
  (∀ b, b ∉ session :: targets.*1 → acct w' b =
     match vb with
     | Some (v, n) => if decide (b = v) then with_lamports n (acct w b) else acct w b
     | None => acct w b
     end) ∧
  total_lamports w' = total_lamports w - current_sum w targets + target_sum targets +
    match vb with Some (v, n) => n - lamports (acct w v) | None => 0 end.
Proof.
  intros Hs Hnd Hsn Hvb Hr. apply bind_Ok in Hr as ([] & w1 & Hw1 & Hr). apply for_each_set_lamports in Hw1.
  apply bind_Ok in Hr as ([] & w2 & Hw2 & Hr).
  assert (Hacct : ∀ b, acct w2 b = match vb with
    | Some (v, n) => if decide (b = v) then with_lamports n (acct w1 b) else acct w1 b
    | None => acct w1 b end).
  { intros b. destruct vb as [[v n]|]; minv; [|done]. acct_simpl. rewrite acct_put.
    repeat case_decide; subst; congruence. }
  assert (Htot : total_lamports w2 = total_lamports w1 +
    match vb with Some (v, n) => n - lamports (acct w1 v) | None => 0 end).
  { destruct vb as [[v n]|]; minv; [|lia]. rewrite Hw2, total_lamports_put. simpl. lia. }
  assert (Hse : acct w2 session = acct w session).
  { rewrite Hacct. subst w1. destruct vb as [[v n]|]; [|by rewrite acct_apply_targets_notin].
    destruct (Hvb v n eq_refl). rewrite decide_False by congruence. by rewrite acct_apply_targets_notin. }
  pose proof (conserves _ _ _ Hr) as Htot2.
  apply (store_accumulator_Ok _ _ _ w) in Hr as (Hs' & Hf & [d Hd] & _);
    [|done|by rewrite Hse|apply accumulate_targets_key; by destruct (session_at_wf _ _ _ Hs) as [(?&?&?&?&?&?&?&?&?&?&?&?&?&?&?&?&?) _]].
  split_and!; [done|exists d; by rewrite Hd, Hse|..].
  - intros a n Ha. assert (a ∈ targets.*1) by (by apply (list_elem_of_fmap_2 fst _ (a, n))).
    assert (a ≠ session) by congruence. rewrite Hf, Hacct by done. subst w1.
    destruct vb as [[v m]|]; [|by apply acct_apply_targets_in].
    destruct (Hvb v m eq_refl). rewrite decide_False by congruence. by apply acct_apply_targets_in.
  - intros b Hb. nodup. rewrite Hf, Hacct by done. subst w1. by rewrite acct_apply_targets_notin.
  - rewrite Htot2, Htot. subst w1. rewrite apply_targets_total by done.
    destruct vb as [[v m]|]; [|done]. destruct (Hvb v m eq_refl). by rewrite acct_apply_targets_notin.
Qed.

Lemma process_settle_account_lamports_inner_Ok validator session rest args prev w u w' :
  let targets := lamport_targets (validator :: session :: rest) args in
  session ∉ targets.*1 → vault_of ≠ session →
  process_settle_account_lamports_inner cx (validator :: session :: rest) args prev w = Ok (u, w') →
  ∃ s, settling cx w validator session (SettleAccountLamports.er_slot args) (SettleAccountLamports.checksum args) s ∧
    NoDup targets.*1 ∧
    (w' = w ∨
     session_at w' session (with_accumulator (accumulate_targets (Session.settlement_accumulator s) targets) s) ∧
     (∃ d, acct w' session = with_data d (acct w session)) ∧
     (∀ a n, (a, n) ∈ targets → acct w' a = with_lamports n (acct w a)) ∧
     Forall (λ p, data (acct w p.1) ≠ [] →
       ∃ m, try_minimum_balance (length (data (acct w p.1))) = Ok m ∧ m ≤ p.2) targets ∧
     match prev with
     | None => current_sum w targets = target_sum targets
     | Some p => p = Session.settlement_accumulator s ∧ target_sum targets ≤ current_sum w targets ∧
                 acct w' vault_of =
                   with_lamports (lamports (acct w vault_of) + (current_sum w targets - target_sum targets))
                     (acct w vault_of)
     end ∧
     (∀ b, b ∉ session :: targets.*1 → (prev ≠ None → b ≠ vault_of) → acct w' b = acct w b) ∧
     total_lamports w' = total_lamports w).
Proof.
  intros targets Hsn Hvs Hr. destruct args as [er chk count lams]. unfold process_settle_account_lamports_inner in Hr.
  mstep Hr as [] w1 H1. mstep Hr as [] w1 H2. cbv zeta in Hr.
  change (zip _.*1 lams) with targets in Hr.
  mstep Hr as s w1 Hs. apply load_session_Ok in Hs as (_ & _ & Hs).
  mstep Hr as [] w1 Hv. apply require_validator_Ok in Hv as [Hsig Hv].
  mstep Hr as [] w1 Ha. apply require_active_settlement_Ok in Ha as (Hst & Her & Hck).
  mstep Hr as [] w1 Hp. apply check_pairs_Ok in Hp as (Hnd & _ & _).
  mstep Hr as g w1 Hg. apply surplus_vault_Ok in Hg.
  assert (Hndt : NoDup targets.*1) by (by apply zip_fst_NoDup).
  exists s. split; [done|]. split; [done|].
  destruct g as [| |v]; [left; by minv|..].
  - subst prev. mstep Hr as [[c t] b] w1 Ht. apply lamport_totals_Ok in Ht as (-> & -> & Hb & Hrent).
    destruct (b && _) eqn:Hif; [left; by minv|right].
    mstep Hr as n w1 Hn. mstep Hr as vb w1 Hvb.
    revert Hr. minv. bprop. intros Hr.
    apply (lamports_written_Ok _ _ _ None) in Hr as (Hs' & Hd & Hin & Hout & Htot); [|done..].
    split_and!; try done; [lia| |lia]. intros b' Hb' _. by rewrite Hout.
  - destruct Hg as (-> & -> & Hvn).
    mstep Hr as [[c t] b] w1 Ht. apply lamport_totals_Ok in Ht as (-> & -> & Hb & Hrent).
    destruct (b && _) eqn:Hif; [left; by minv|right].
    mstep Hr as n w1 Hn. mstep Hr as vb w1 Hvb.
    revert Hr. minv. bprop. intros Hr.
    eapply (lamports_written_Ok _ _ _ (Some (_, _))) in Hr as (Hs' & Hd & Hin & Hout & Htot); [|done..|naive_solver].
    split_and!; try done; [| |lia].
    + by rewrite Hout, decide_True by set_solver.
    + intros b' Hb' Hne. by rewrite Hout, decide_False by auto.
Qed.
End lamports_spec.

(** ** Opening, finishing and aborting *)

Section phases.
Context `{HostLaws} (cx : Ctx).

(** An account that holds a session does not hold a state of another size. *)
Lemma session_not_sized {A} `{Borsh A} (x : A) n w a s :
  CodecOk (borsh (A:=A)) → CodecSize (borsh (A:=A)) n → n ≠ 226%nat → n ≠ 378%nat →
  session_at w a s → try_from_slice (data (acct w a)) = Some x → False.
Proof.
  intros ? Hsz Hn1 Hn2 Hs%parse_session_Ok [Hwf He]%try_from_slice_Some.
  apply (f_equal length) in He. rewrite codec_size in He by done.
  destruct Hs as [Hw Hv Hd|f Hw Hv Hd _]; rewrite Hd in He; rewrite codec_size in He by done; [by apply Hn1|by apply Hn2].
Qed.

Lemma load_checkpoint_for_settlement_Ok session er a w c w' :
  load_checkpoint_for_settlement cx session er a w = Ok (c, w') →
  a = (find_checkpoint_pda (program_id cx) session er).1 ∧ owner (acct w a) = program_id cx ∧
  try_from_slice (data (acct w a)) = Some c ∧ Checkpoint.is_valid c = true ∧ Checkpoint.session c = session ∧
  Checkpoint.er_slot c = er ∧ Checkpoint.status c = CheckpointStatus.Committed.
Proof.
  unfold load_checkpoint_for_settlement, owned_by. intros Hr. minv.
  match goal with X : load _ _ _ = Ok _ |- _ => apply load_Ok in X as [X _] end. by bprop.
Qed.

Lemma load_cursor_Ok session a w c w' :
  load_cursor cx session a w = Ok (c, w') →
  a = (find_checkpoint_cursor_pda (program_id cx) session).1 ∧ owner (acct w a) = program_id cx ∧
  try_from_slice (data (acct w a)) = Some c ∧ CheckpointCursor.is_valid c = true ∧
  CheckpointCursor.session c = session.
Proof.
  unfold load_cursor, owned_by. intros Hr. minv.
  match goal with X : load _ _ _ = Ok _ |- _ => apply load_Ok in X as [X _] end. by bprop.
Qed.

(** A settlement opens on a committed checkpoint whose effects it names, after
    the interval, for a later slot than the last one settled. *)
Lemma process_begin_settlement_Ok validator session checkpoint rest args w u w' :
  wf borsh args → is_u64 (slot (clock cx)) →
  process_begin_settlement cx (validator :: session :: checkpoint :: rest) args w = Ok (u, w') →
  ∃ s c, session_at w session s ∧ is_signer cx validator = true ∧ validator = Session.validator s ∧
    Session.settlement_status s = SettlementStatus.Idle ∧
    u64_saturating_add (Session.last_settled_l1_slot s) (Session.settlement_interval_slots s) ≤ slot (clock cx) ∧
    Session.last_settled_er_slot s < BeginSettlement.er_slot args ∧
    load_checkpoint_for_settlement cx session (BeginSettlement.er_slot args) checkpoint w = Ok (c, w) ∧
    Checkpoint.effect_commitment c = BeginSettlement.effect_commitment args ∧
    session_at w' session (with_settlement SettlementStatus.InProgress (BeginSettlement.er_slot args)
      (BeginSettlement.checksum args) (initial_settlement_checksum (BeginSettlement.er_slot args))
      (slot (clock cx)) s) ∧
    ∃ d, w' ≡ put session (with_data d (acct w session)) w.
Proof.
  intros Hargs Hsl Hr. destruct args as [er chk eff]. destruct Hargs as (? & ? & _). unfold process_begin_settlement in Hr.
  mstep Hr as s w1 Hs. apply load_session_Ok in Hs as (_ & _ & Hs).
  mstep Hr as [] w1 Hv. apply require_validator_Ok in Hv as [Hsig Hv].
  mstep Hr as [] w1 Hst. cbv zeta in Hr. mstep Hr as [] w1 Hearly. mstep Hr as [] w1 Hadv.
  mstep Hr as c w1 Hc. mstep Hr as [] w1 He. bprop. apply not_in_progress in Hst.
  pose proof (session_at_wf _ _ _ Hs) as [Hwf Hval].
  edestruct (with_settlement_wf SettlementStatus.InProgress er chk (initial_settlement_checksum er)
    (slot (clock cx)) s) as [Hwf' Hval']; [done..|apply sha_key|done|].
  apply (store_session_Ok _ s) in Hr as [Hs' Hw]; [|done|done|by apply Hval'].
  exists s, c. cbn [BeginSettlement.er_slot BeginSettlement.checksum BeginSettlement.effect_commitment].
  split_and!; done.
Qed.

(** Only the validator, or the authority after the interval, aborts, and only
    before an effect was applied. *)
Lemma process_abort_settlement_Ok a session rest w u w' :
  process_abort_settlement cx (a :: session :: rest) w = Ok (u, w') →
  ∃ s, session_at w session s ∧ is_signer cx a = true ∧
    Session.settlement_status s = SettlementStatus.InProgress ∧
    (a = Session.validator s ∨ a = Session.authority s ∧
     u64_saturating_add (Session.settlement_started_l1_slot s) (Session.settlement_interval_slots s)
       < slot (clock cx)) ∧
    Session.settlement_accumulator s = initial_settlement_checksum (Session.settlement_er_slot s) ∧
    session_at w' session (idle_settlement s) ∧ ∃ d, w' ≡ put session (with_data d (acct w session)) w.
Proof.
  intros Hr. unfold process_abort_settlement in Hr.
  mstep Hr as s w1 Hs. apply load_session_Ok in Hs as (_ & _ & Hs). mstep Hr as [] w1 Hsig. mstep Hr as [] w1 Hst.
  cbv zeta in Hr. mstep Hr as [] w1 Hau. mstep Hr as [] w1 Hacc. bprop.
  pose proof (session_at_wf _ _ _ Hs) as [Hwf Hval].
  edestruct (with_settlement_wf SettlementStatus.Idle 0 zero32 zero32 0 s) as [Hwf' Hval'];
    [done|unfold in_width, umax; lia|done..|unfold in_width, umax; lia|].
  apply (store_session_Ok _ s) in Hr as [Hs' Hw]; [|done|done|by apply Hval'].
  exists s. split_and!; try done.
  destruct Hau as [Hau|Hau]; apply negb_false_iff in Hau; bprop; [by left|by right].
Qed.

Lemma with_status_wf st c : wf borsh c → wf borsh (with_status st c).
Proof. intros (?&?&?&?&?&?&?&?&?&?&?&?&?&?&?&?&?&?&?&?&?). wf_fields. Qed.

Lemma clear_active_checkpoint_wf c : wf borsh c → wf borsh (clear_active_checkpoint c).
Proof.
  intros (?&?&?&?&?&?&?&?). assert (is_u64 0) by (unfold in_width, umax; lia).
  assert (length zero32 = 32%nat) by done. wf_fields.
Qed.

(** A settlement finishes when the accumulator has reached the checksum; the
    checkpoint is settled, the cursor released and the session idle. *)
Lemma process_finish_settlement_Ok validator session checkpoint cursor rest args w u w' :
  wf borsh args → is_u64 (slot (clock cx)) →
  process_finish_settlement cx (validator :: session :: checkpoint :: cursor :: rest) args w = Ok (u, w') →
  let er := FinishSettlement.er_slot args in
  ∃ s c k, settling cx w validator session er (FinishSettlement.checksum args) s ∧
    Session.settlement_accumulator s = Session.settlement_checksum s ∧
    load_checkpoint_for_settlement cx session er checkpoint w = Ok (c, w) ∧
    load_cursor cx session cursor w = Ok (k, w) ∧
    CheckpointCursor.active_checkpoint k = checkpoint ∧ CheckpointCursor.active_er_slot k = er ∧
    try_from_slice (data (acct w' checkpoint)) = Some (with_status CheckpointStatus.Settled c) ∧
    try_from_slice (data (acct w' cursor)) = Some (clear_active_checkpoint k) ∧
    session_at w' session (idle_settlement (with_last_settled (slot (clock cx)) er s)) ∧
    (∀ b, lamports (acct w' b) = lamports (acct w b) ∧ owner (acct w' b) = owner (acct w b)) ∧
    (∀ b, b ∉ [session; checkpoint; cursor] → acct w' b = acct w b).
Proof.
  intros Hargs Hsl Hr. destruct args as [er chk]. destruct Hargs as (Her & _). unfold process_finish_settlement in Hr.
  mstep Hr as s w1 Hs. apply load_session_Ok in Hs as (_ & _ & Hs).
  mstep Hr as [] w1 Hv. apply require_validator_Ok in Hv as [Hsig Hv].
  mstep Hr as [] w1 Hst. mstep Hr as [] w1 He. mstep Hr as [] w1 Hck. bprop.
  mstep Hr as c w1 Hc. pose proof (load_checkpoint_for_settlement_Ok _ _ _ _ _ _ Hc) as (_ & _ & Hcd & _).
  mstep Hr as k w1 Hk. pose proof (load_cursor_Ok _ _ _ _ _ Hk) as (_ & _ & Hkd & _).
  mstep Hr as [] w1 Hact. unfold require_active_checkpoint in Hact. minv. bprop.
  unfold store_checkpoint, store_cursor in Hr.
  assert (Hne1 : session ≠ checkpoint).
  { intros ->. eapply (session_not_sized c 380); [apply _|apply _|lia|lia|done|done]. }
  assert (Hne2 : session ≠ cursor).
  { intros ->. eapply (session_not_sized k 153); [apply _|apply _|lia|lia|done|done]. }
  assert (Hne3 : checkpoint ≠ cursor).
  { intros ->. apply try_from_slice_Some in Hcd as [Hw1 Hcd], Hkd as [Hw2 Hkd]. rewrite Hcd in Hkd.
    apply (f_equal length) in Hkd. by rewrite !codec_size in Hkd. }
  apply (store_loaded_Ok (n:=380) _ c) in Hrun as ->;
    [|done|apply with_status_wf; by apply try_from_slice_Some in Hcd as [? _]].
  apply (store_loaded_Ok (n:=153) _ k) in Hrun0 as ->;
    [|by acct_simpl|apply clear_active_checkpoint_wf; by apply try_from_slice_Some in Hkd as [? _]].
  pose proof (session_at_wf _ _ _ Hs) as [Hwf Hval].
  edestruct (with_settlement_wf SettlementStatus.Idle 0 zero32 zero32 0
    (with_last_settled (slot (clock cx)) (Session.settlement_er_slot s) s)) as [Hwf' Hval'];
    [by apply with_last_settled_wf|unfold in_width, umax; lia|done..|unfold in_width, umax; lia|].
  apply (store_session_Ok _ s) in Hr as [Hs' [d Hw]];
    [|unfold session_at in *; by acct_simpl|done|by apply Hval'].
  exists s, c, k. cbn [FinishSettlement.er_slot FinishSettlement.checksum].
  split_and!; try done.
  - acct_simpl. cbn [data with_data]. apply try_from_slice_enc, with_status_wf.
    by apply try_from_slice_Some in Hcd as [? _].
  - acct_simpl. cbn [data with_data]. apply try_from_slice_enc, clear_active_checkpoint_wf.
    by apply try_from_slice_Some in Hkd as [? _].
  - intros b. rewrite Hw, !acct_put. repeat case_decide; subst; done.
  - intros b Hb. nodup. by acct_simpl.
Qed.
End phases.

(** ** Example

    The session of [SessionExample] with the account delegated in
    [DelegationExample], and a committed checkpoint for ER slot 40. *)

Module SettlementExample.
Import SessionExample.
Import DelegationExample.
Definition er_slot : Z := 40.
Definition checkpoint : Address := Eval vm_compute in (find_checkpoint_pda portal session er_slot).1.
Definition effects : Hash32 := key 21.
Definition checkpoint_state : Checkpoint.t :=
  Checkpoint.mk Checkpoint.DISCRIMINATOR session er_slot 16 (key 22) (key 23) (key 24) (key 25) (key 26) (key 27)
    effects validator 105 110 CheckpointStatus.Committed 1000000 CheckpointBondStatus.Released zero32 0 false 255.
Definition cursor_state : CheckpointCursor.t :=
  CheckpointCursor.mk CheckpointCursor.DISCRIMINATOR session checkpoint er_slot (key 23) checkpoint er_slot 255.
Definition cx : Ctx :=
  cx_of portal 200 [validator; session; checkpoint; cursor; delegated; record; fee_vault] [validator].
Definition w0 : World :=
  put checkpoint (mkAccount 5000000 (enc borsh checkpoint_state) portal false)
    (put cursor (mkAccount 5000000 (enc borsh cursor_state) portal false)
       (put validator (wallet 100000000) (run delegate DelegationExample.w0))).
End SettlementExample.
