(* ===== verification/Checkpoint.v ===== *)
(** * Checkpoints (portal/src/instructions/checkpoint.rs, first half)

    The validator of a session proposes a checkpoint under a bond; when nobody
    has challenged it by its deadline it is committed, the bond returned and the
    cursor's finalized slot and root advanced; before the deadline the proposer
    may cancel it.  Challenges are in Challenge.v.

    checkpoint.rs has its own copies of [load_session], [load_cursor],
    [store_checkpoint], [store_cursor], [require_active_checkpoint] and
    [clear_active_checkpoint], the same text as in settlement.rs; the definitions
    of Settlement.v are used for both. *)

From Stdlib Require Import ZArith Lia.
From Stdlib Require Import Strings.Byte.
From stdpp Require Import base gmap list numbers.
From S2P Require Import Prelude Borsh Events Runtime State Commitments Frames Toy Pda Instruction SessionOps Delegation Settlement.

(** ** Updates *)

(** [checkpoint_state.bond_status = next_status] *)
Definition with_bond_status (st : CheckpointBondStatus.t) (c : Checkpoint.t) : Checkpoint.t :=
  Checkpoint.mk (Checkpoint.discriminator c) (Checkpoint.session c) (Checkpoint.er_slot c) (Checkpoint.step_count c)
    (Checkpoint.previous_state_root c) (Checkpoint.new_state_root c) (Checkpoint.trace_root c)
    (Checkpoint.tx_effect_root c) (Checkpoint.readonly_l1_root c) (Checkpoint.da_commitment c)
    (Checkpoint.effect_commitment c) (Checkpoint.proposer c) (Checkpoint.proposed_at_l1_slot c)
    (Checkpoint.challenge_deadline_l1_slot c) (Checkpoint.status c) (Checkpoint.bond_lamports c) st
    (Checkpoint.challenger c) (Checkpoint.challenged_at_l1_slot c) (Checkpoint.challenge_resolved c)
    (Checkpoint.bump c).

(** [cursor_state.active_checkpoint = ..; cursor_state.active_er_slot = ..] *)
Definition with_active (checkpoint : Address) (er_slot : Z) (k : CheckpointCursor.t) : CheckpointCursor.t :=
  CheckpointCursor.mk (CheckpointCursor.discriminator k) (CheckpointCursor.session k)
    (CheckpointCursor.latest_finalized_checkpoint k) (CheckpointCursor.latest_finalized_er_slot k)
    (CheckpointCursor.latest_finalized_state_root k) checkpoint er_slot (CheckpointCursor.bump k).

(** The three assignments that finalize a checkpoint. *)
Definition with_finalized (checkpoint : Address) (er_slot : Z) (root : Hash32) (k : CheckpointCursor.t) :
    CheckpointCursor.t :=
  CheckpointCursor.mk (CheckpointCursor.discriminator k) (CheckpointCursor.session k) checkpoint er_slot root
    (CheckpointCursor.active_checkpoint k) (CheckpointCursor.active_er_slot k) (CheckpointCursor.bump k).

(** ** Loading *)

Section load.
Context `{Host} (cx : Ctx).

Definition load_checkpoint (session_key : Address) (er_slot : Z) (checkpoint : Address) : prog Checkpoint.t :=
  let '(expected_checkpoint_key, _) := find_checkpoint_pda (program_id cx) session_key er_slot in
  bail_if (checkpoint != expected_checkpoint_key) PortalError.InvalidPdaSeeds ;;
  x ← get_acct checkpoint;
  bail_if (negb (owned_by x (program_id cx))) PortalError.CheckpointStateInvalid ;;
  checkpoint_state ← load checkpoint (into PortalError.CheckpointDeserializeFailed);
  bail_if (negb (Checkpoint.is_valid checkpoint_state) || (Checkpoint.session checkpoint_state != session_key)
           || (Checkpoint.er_slot checkpoint_state != er_slot)) PortalError.CheckpointStateInvalid ;;
  mret checkpoint_state.

Definition new_cursor (session_key : Address) (bump : Z) : CheckpointCursor.t :=
  CheckpointCursor.mk CheckpointCursor.DISCRIMINATOR session_key zero32 0 zero32 zero32 0 bump.

Definition create_cursor (payer session_key cursor : Address) : prog CheckpointCursor.t :=
  let '(expected_cursor_key, cursor_bump) := find_checkpoint_cursor_pda (program_id cx) session_key in
  bail_if (cursor != expected_cursor_key) PortalError.InvalidPdaSeeds ;;
  let cursor_state := new_cursor session_key cursor_bump in
  let cursor_size := account_size cursor_state in
  cursor_lamports ← lift_err id (try_minimum_balance cursor_size);
  initialize_pda_account cx payer cursor cursor_lamports cursor_size (program_id cx)
    [CheckpointCursor.SEED_PREFIX; session_key; le_bytes 1 cursor_bump] ;;
  store_cursor cursor cursor_state ;;
  mret cursor_state.

Definition load_or_create_cursor (payer session_key cursor : Address) : prog CheckpointCursor.t :=
  x ← get_acct cursor;
  if is_data_empty x then create_cursor payer session_key cursor else load_cursor cx session_key cursor.

Definition require_advancing_checkpoint (session_state : Session.t) (cursor_state : CheckpointCursor.t) (er_slot : Z) :
    prog unit :=
  bail_if ((er_slot <=? Session.last_settled_er_slot session_state)
           || (er_slot <=? CheckpointCursor.latest_finalized_er_slot cursor_state))
    PortalError.CheckpointErSlotNotAdvanced.

Definition require_no_active_checkpoint (cursor_state : CheckpointCursor.t) : prog unit :=
  bail_if (CheckpointCursor.active_checkpoint cursor_state != zero32) PortalError.CheckpointActiveExists.

(** The guard that links a checkpoint to the finalized state. *)
Definition require_previous_root (cursor_state : CheckpointCursor.t) (previous_state_root : Hash32) : prog unit :=
  bail_if ((CheckpointCursor.latest_finalized_checkpoint cursor_state != zero32)
           && (previous_state_root != CheckpointCursor.latest_finalized_state_root cursor_state))
    PortalError.CheckpointPreviousRootMismatch.

(** The format of the session account is the one the instruction is for. *)
Definition require_version (session : Address) (version2 : bool) : prog unit :=
  x ← get_acct session;
  err_if (negb (Bool.eqb (starts_with (data x) SessionV2.DISCRIMINATOR) version2)) InvalidInstructionData.
End load.

(** ** Bonds *)

Section bond.
Context `{Host}.

Definition resolve_checkpoint_bond (checkpoint recipient : Address) (checkpoint_state : Checkpoint.t)
    (next_status : CheckpointBondStatus.t) : prog Checkpoint.t :=
  bail_if (Checkpoint.bond_status checkpoint_state != CheckpointBondStatus.Locked)
    PortalError.CheckpointBondAlreadyResolved ;;
  let bond_lamports := Checkpoint.bond_lamports checkpoint_state in
  bail_if (bond_lamports =? 0) PortalError.CheckpointBondInsufficient ;;
  rent_lamports ← lift_err id (try_minimum_balance (account_size checkpoint_state));
  minimum_locked_lamports ← ok_or (u64_checked_add rent_lamports bond_lamports) (into PortalError.ArithmeticOverflow);
  c ← get_acct checkpoint;
  bail_if (lamports c <? minimum_locked_lamports) PortalError.CheckpointBondInsufficient ;;
  r ← get_acct recipient;
  recipient_lamports ← ok_or (u64_checked_add (lamports r) bond_lamports) (into PortalError.ArithmeticOverflow);
  set_lamports recipient recipient_lamports ;;
  c ← get_acct checkpoint;
  checkpoint_lamports ← ok_or (checked_sub (lamports c) bond_lamports) (into PortalError.ArithmeticOverflow);
  set_lamports checkpoint checkpoint_lamports ;;
  mret (with_bond_status next_status checkpoint_state).

Definition release_checkpoint_bond (checkpoint proposer : Address) (checkpoint_state : Checkpoint.t) :
    prog Checkpoint.t :=
  bail_if (proposer != Checkpoint.proposer checkpoint_state) PortalError.CheckpointStateInvalid ;;
  resolve_checkpoint_bond checkpoint proposer checkpoint_state CheckpointBondStatus.Released.

Definition slash_checkpoint_bond (checkpoint recipient : Address) (checkpoint_state : Checkpoint.t) :
    prog Checkpoint.t :=
  resolve_checkpoint_bond checkpoint recipient checkpoint_state CheckpointBondStatus.Slashed.
End bond.

(** ** Handlers *)

Section handlers.
Context `{Host} (cx : Ctx).

(** The checkpoint a proposal stores. *)
Definition proposed (session_key proposer : Address) (args : ProposeCheckpoint.t) (current_slot deadline bump : Z) :
    Checkpoint.t :=
  let '(ProposeCheckpoint.mk er_slot step_count previous_state_root new_state_root trace_root tx_effect_root
          readonly_l1_root da_commitment effect_commitment _) := args in
  Checkpoint.mk Checkpoint.DISCRIMINATOR session_key er_slot step_count previous_state_root new_state_root trace_root
    tx_effect_root readonly_l1_root da_commitment effect_commitment proposer current_slot deadline
    CheckpointStatus.Pending CHECKPOINT_PROPOSER_BOND_LAMPORTS CheckpointBondStatus.Locked zero32 0 false bump.

(** A checkpoint account that may be proposed anew. *)
Definition reusable_terminal (previous_checkpoint : Checkpoint.t) (cursor_state : CheckpointCursor.t) : bool :=
  (Checkpoint.status previous_checkpoint == CheckpointStatus.Cancelled)
  || (Checkpoint.status previous_checkpoint == CheckpointStatus.Invalid)
  || ((Checkpoint.status previous_checkpoint == CheckpointStatus.Settled)
      && (CheckpointCursor.latest_finalized_checkpoint cursor_state == zero32)
      && (CheckpointCursor.latest_finalized_er_slot cursor_state =? 0)
      && (CheckpointCursor.latest_finalized_state_root cursor_state == zero32)).

(** [if checkpoint.is_data_empty() { .. } else { .. }]: the account and the bond. *)
Definition fund_checkpoint (proposer session_key checkpoint : Address) (er_slot bump : Z)
    (cursor_state : CheckpointCursor.t) (checkpoint_size : nat) : prog unit :=
  checkpoint_rent_lamports ← lift_err id (try_minimum_balance checkpoint_size);
  x ← get_acct checkpoint;
  if is_data_empty x then
    checkpoint_lamports ← ok_or (u64_checked_add checkpoint_rent_lamports CHECKPOINT_PROPOSER_BOND_LAMPORTS)
                            (into PortalError.ArithmeticOverflow);
    initialize_pda_account cx proposer checkpoint checkpoint_lamports checkpoint_size (program_id cx)
      [Checkpoint.SEED_PREFIX; session_key; le_bytes 8 er_slot; le_bytes 1 bump]
  else
    previous_checkpoint ← load_checkpoint cx session_key er_slot checkpoint;
    bail_if (negb (reusable_terminal previous_checkpoint cursor_state)) PortalError.CheckpointStateInvalid ;;
    x ← get_acct checkpoint;
    bail_if (lamports x <? checkpoint_rent_lamports) PortalError.CheckpointBondInsufficient ;;
    Transfer cx proposer checkpoint CHECKPOINT_PROPOSER_BOND_LAMPORTS.

Definition process_propose_checkpoint_versioned (accounts : list Address) (args : ProposeCheckpoint.t)
    (version2 : bool) : prog unit :=
  let er_slot := ProposeCheckpoint.er_slot args in
  let step_count := ProposeCheckpoint.step_count args in
  let challenge_window_slots := ProposeCheckpoint.challenge_window_slots args in
  err_if ((challenge_window_slots =? 0) || (step_count =? 0) || (CANONICAL_CHECKPOINT_STEPS <? step_count))
    InvalidInstructionData ;;
  bail_if (MAX_CHALLENGE_WINDOW_SLOTS <? challenge_window_slots) PortalError.CheckpointChallengeWindowTooLong ;;
  match accounts with
  | proposer :: session :: checkpoint :: cursor :: _system_program :: _ =>
    bail_if (negb (is_signer cx proposer)) PortalError.Unauthorized ;;
    require_version session version2 ;;
    session_state ← load_session cx session;
    bail_if (proposer != Session.validator session_state) PortalError.Unauthorized ;;
    let current_slot := slot (clock cx) in
    bail_if (Session.is_expired session_state current_slot) PortalError.SessionExpired ;;
    cursor_state ← load_or_create_cursor cx proposer session cursor;
    require_no_active_checkpoint cursor_state ;;
    require_advancing_checkpoint session_state cursor_state er_slot ;;
    require_previous_root cursor_state (ProposeCheckpoint.previous_state_root args) ;;
    let '(expected_checkpoint_key, checkpoint_bump) := find_checkpoint_pda (program_id cx) session er_slot in
    bail_if (checkpoint != expected_checkpoint_key) PortalError.InvalidPdaSeeds ;;
    deadline ← ok_or (u64_checked_add current_slot challenge_window_slots) (into PortalError.ArithmeticOverflow);
    let checkpoint_state := proposed session proposer args current_slot deadline checkpoint_bump in
    fund_checkpoint proposer session checkpoint er_slot checkpoint_bump cursor_state (account_size checkpoint_state) ;;
    store_checkpoint checkpoint checkpoint_state ;;
    store_cursor cursor (with_active checkpoint er_slot cursor_state)
  | _ => fail NotEnoughAccountKeys
  end.

Definition process_propose_checkpoint (accounts : list Address) (args : ProposeCheckpoint.t) : prog unit :=
  process_propose_checkpoint_versioned accounts args false.

Definition process_commit_checkpoint_versioned (accounts : list Address) (args : CommitCheckpoint.t)
    (version2 : bool) : prog unit :=
  let er_slot := CommitCheckpoint.er_slot args in
  match accounts with
  | committer :: session :: checkpoint :: cursor :: proposer :: _ =>
    bail_if (negb (is_signer cx committer)) PortalError.Unauthorized ;;
    require_version session version2 ;;
    session_state ← load_session cx session;
    checkpoint_state ← load_checkpoint cx session er_slot checkpoint;
    cursor_state ← load_cursor cx session cursor;
    let current_slot := slot (clock cx) in
    match Checkpoint.status checkpoint_state with
    | CheckpointStatus.Pending => mret tt
    | CheckpointStatus.Challenged => fail (into PortalError.CheckpointChallenged)
    | _ => fail (into PortalError.CheckpointStateInvalid)
    end ;;
    bail_if (current_slot <? Checkpoint.challenge_deadline_l1_slot checkpoint_state)
      PortalError.CheckpointCommitTooEarly ;;
    require_advancing_checkpoint session_state cursor_state er_slot ;;
    require_active_checkpoint cursor_state checkpoint er_slot ;;
    require_previous_root cursor_state (Checkpoint.previous_state_root checkpoint_state) ;;
    checkpoint_state ← release_checkpoint_bond checkpoint proposer (with_status CheckpointStatus.Committed checkpoint_state);
    store_checkpoint checkpoint checkpoint_state ;;
    store_cursor cursor
      (with_finalized checkpoint er_slot (Checkpoint.new_state_root checkpoint_state) cursor_state)
  | _ => fail NotEnoughAccountKeys
  end.

Definition process_commit_checkpoint (accounts : list Address) (args : CommitCheckpoint.t) : prog unit :=
  process_commit_checkpoint_versioned accounts args false.

Definition process_cancel_checkpoint (accounts : list Address) (args : CancelCheckpoint.t) : prog unit :=
  let er_slot := CancelCheckpoint.er_slot args in
  match accounts with
  | proposer :: session :: checkpoint :: cursor :: _ =>
    bail_if (negb (is_signer cx proposer)) PortalError.Unauthorized ;;
    load_session cx session ;;
    checkpoint_state ← load_checkpoint cx session er_slot checkpoint;
    cursor_state ← load_cursor cx session cursor;
    bail_if (Checkpoint.status checkpoint_state == CheckpointStatus.Challenged) PortalError.CheckpointChallenged ;;
    bail_if (Checkpoint.status checkpoint_state != CheckpointStatus.Pending) PortalError.CheckpointStateInvalid ;;
    bail_if (proposer != Checkpoint.proposer checkpoint_state) PortalError.CheckpointUnauthorizedCancel ;;
    bail_if (Checkpoint.challenge_deadline_l1_slot checkpoint_state <=? slot (clock cx))
      PortalError.CheckpointCancelWindowClosed ;;
    require_active_checkpoint cursor_state checkpoint er_slot ;;
    checkpoint_state ← release_checkpoint_bond checkpoint proposer (with_status CheckpointStatus.Cancelled checkpoint_state);
    store_checkpoint checkpoint checkpoint_state ;;
    store_cursor cursor (clear_active_checkpoint cursor_state)
  | _ => fail NotEnoughAccountKeys
  end.
End handlers.

(** ** What loading and bonds do *)

(** The account holds this state. *)
Abbreviation checkpoint_at w a c := (try_from_slice (data (acct w a)) = Some (c : Checkpoint.t)).
Abbreviation cursor_at w a k := (try_from_slice (data (acct w a)) = Some (k : CheckpointCursor.t)).

Section specs.
Context `{HostLaws} (cx : Ctx).

#[global] Instance load_checkpoint_read_only s er c : ReadOnly (load_checkpoint cx s er c).
Proof. unfold load_checkpoint. destruct (find_checkpoint_pda _ _ _). apply _. Qed.
#[global] Instance require_advancing_read_only s k er : ReadOnly (require_advancing_checkpoint s k er).
Proof. unfold require_advancing_checkpoint. apply _. Qed.
#[global] Instance require_no_active_read_only k : ReadOnly (require_no_active_checkpoint k).
Proof. unfold require_no_active_checkpoint. apply _. Qed.
#[global] Instance require_previous_root_read_only k r : ReadOnly (require_previous_root k r).
Proof. unfold require_previous_root. apply _. Qed.
#[global] Instance require_version_read_only s v : ReadOnly (require_version s v).
Proof. unfold require_version. apply _. Qed.
#[global] Instance require_active_checkpoint_read_only k c er : ReadOnly (require_active_checkpoint k c er).
Proof. unfold require_active_checkpoint. apply _. Qed.

Lemma load_checkpoint_Ok session er a w c w' :
  load_checkpoint cx session er a w = Ok (c, w') →
  a = (find_checkpoint_pda (program_id cx) session er).1 ∧ owner (acct w a) = program_id cx ∧
  checkpoint_at w a c ∧ Checkpoint.is_valid c = true ∧ Checkpoint.session c = session ∧ Checkpoint.er_slot c = er.
Proof.
  unfold load_checkpoint, owned_by. intros Hr. minv.
  match goal with X : load _ _ _ = Ok _ |- _ => apply load_Ok in X as [X _] end. by bprop.
Qed.

Lemma require_active_checkpoint_Ok k c er w u w' :
  require_active_checkpoint k c er w = Ok (u, w') →
  CheckpointCursor.active_checkpoint k = c ∧ CheckpointCursor.active_er_slot k = er.
Proof. unfold require_active_checkpoint. intros Hr. minv. by bprop. Qed.

Lemma require_no_active_Ok k w u w' :
  require_no_active_checkpoint k w = Ok (u, w') → CheckpointCursor.active_checkpoint k = zero32.
Proof. unfold require_no_active_checkpoint. intros Hr. minv. by bprop. Qed.

Lemma require_previous_root_Ok k r w u w' :
  require_previous_root k r w = Ok (u, w') →
  CheckpointCursor.latest_finalized_checkpoint k = zero32 ∨ r = CheckpointCursor.latest_finalized_state_root k.
Proof.
  unfold require_previous_root. intros Hr. minv. destruct (_ && _) eqn:Hg; [done|].
  apply andb_false_iff in Hg as [Hg|Hg]; bprop; auto.
Qed.

Lemma require_advancing_Ok s k er w u w' :
  require_advancing_checkpoint s k er w = Ok (u, w') →
  Session.last_settled_er_slot s < er ∧ CheckpointCursor.latest_finalized_er_slot k < er.
Proof. unfold require_advancing_checkpoint. intros Hr. minv. by bprop. Qed.

Lemma require_version_Ok s v w u w' :
  require_version s v w = Ok (u, w') → starts_with (data (acct w s)) SessionV2.DISCRIMINATOR = v.
Proof. unfold require_version. intros Hr. minv. bprop. by apply Bool.eqb_prop. Qed.

(** The bond moves from the checkpoint to the recipient, once, and leaves the
    rent. *)
Lemma resolve_checkpoint_bond_Ok c r s st w s' w' :
  resolve_checkpoint_bond c r s st w = Ok (s', w') →
  s' = with_bond_status st s ∧ Checkpoint.bond_status s = CheckpointBondStatus.Locked ∧
  w' ≡ moved c r (Checkpoint.bond_lamports s) w ∧
  ∃ rent, try_minimum_balance (account_size s) = Ok rent ∧
    rent + Checkpoint.bond_lamports s ≤ lamports (acct w c).
Proof.
  unfold resolve_checkpoint_bond. intros Hr. minv. bprop. split; [done|]. split; [done|]. split; [|eauto].
  rewrite Hrun10, Hrun7. split; [|done]. intros b. unfold moved. rewrite !acct_put.
  repeat case_decide; subst; try congruence; unfold with_lamports; simpl; f_equal; lia.
Qed.

Lemma release_checkpoint_bond_Ok c p s w s' w' :
  release_checkpoint_bond c p s w = Ok (s', w') →
  p = Checkpoint.proposer s ∧ s' = with_bond_status CheckpointBondStatus.Released s ∧
  Checkpoint.bond_status s = CheckpointBondStatus.Locked ∧
  w' ≡ moved c p (Checkpoint.bond_lamports s) w ∧
  ∃ rent, try_minimum_balance (account_size s) = Ok rent ∧
    rent + Checkpoint.bond_lamports s ≤ lamports (acct w c).
Proof.
  unfold release_checkpoint_bond. intros Hr. mstep Hr as [] w1 Hp. bprop.
  apply resolve_checkpoint_bond_Ok in Hr. naive_solver.
Qed.

#[global] Instance resolve_bond_conserves c r s st : Conserves (resolve_checkpoint_bond c r s st).
Proof. intros w u w' Hr. apply resolve_checkpoint_bond_Ok in Hr as (_ & _ & Hw & _). rewrite Hw. apply moved_total. Qed.
#[global] Instance resolve_bond_silent c r s st : Silent (resolve_checkpoint_bond c r s st).
Proof. intros w u w' Hr. apply resolve_checkpoint_bond_Ok in Hr as (_ & _ & Hw & _). by rewrite Hw. Qed.
#[global] Instance release_bond_conserves c p s : Conserves (release_checkpoint_bond c p s).
Proof. unfold release_checkpoint_bond. apply _. Qed.
#[global] Instance slash_bond_conserves c r s : Conserves (slash_checkpoint_bond c r s).
Proof. unfold slash_checkpoint_bond. apply _. Qed.

Lemma with_bond_status_wf st c : wf borsh c → wf borsh (with_bond_status st c).
Proof. intros (?&?&?&?&?&?&?&?&?&?&?&?&?&?&?&?&?&?&?&?&?). wf_fields. Qed.

Lemma new_cursor_wf session bump : is_key session → is_u8 bump → wf borsh (new_cursor session bump).
Proof.
  intros Hs Hb. assert (is_u64 0) by (unfold in_width, umax; lia). assert (length zero32 = 32%nat) by done.
  assert (length CheckpointCursor.DISCRIMINATOR = 8%nat) by done. wf_fields.
Qed.

Lemma with_active_wf c er k : wf borsh k → is_key c → is_u64 er → wf borsh (with_active c er k).
Proof. intros (?&?&?&?&?&?&?&?) ??. wf_fields. Qed.

Lemma with_finalized_wf c er r k : wf borsh k → is_key c → is_u64 er → is_key r → wf borsh (with_finalized c er r k).
Proof. intros (?&?&?&?&?&?&?&?) ???. wf_fields. Qed.

Lemma proposed_wf session proposer args slot deadline bump :
  is_key session → is_key proposer → wf borsh args → is_u64 slot → is_u64 deadline → is_u8 bump →
  wf borsh (proposed session proposer args slot deadline bump).
Proof.
  intros ?? (?&?&?&?&?&?&?&?&?&?) ???. destruct args. cbn in *.
  assert (is_u64 0) by (unfold in_width, umax; lia). assert (length zero32 = 32%nat) by done.
  assert (length Checkpoint.DISCRIMINATOR = 8%nat) by done.
  assert (is_u64 CHECKPOINT_PROPOSER_BOND_LAMPORTS) by (unfold in_width, umax, CHECKPOINT_PROPOSER_BOND_LAMPORTS; lia).
  wf_fields.
Qed.
End specs.

(** Accounts told apart by the size of what they hold. *)
Lemma sized {A} `{!Borsh A, !CodecOk (borsh (A:=A))} {n} `{!CodecSize (borsh (A:=A)) n} bs (x : A) :
  try_from_slice bs = Some x → length bs = n.
Proof. intros [? ->]%try_from_slice_Some. by apply codec_size. Qed.

Lemma decoded_wf {A} `{!Borsh A, !CodecOk (borsh (A:=A))} bs (x : A) : try_from_slice bs = Some x → wf borsh x.
Proof. by intros [? _]%try_from_slice_Some. Qed.

Lemma store_sized_Ok {A} `{!Borsh A, !CodecOk (borsh (A:=A))} {n} `{!CodecSize (borsh (A:=A)) n} a (y : A) e w u w' :
  length (data (acct w a)) = n → wf borsh y →
  store a y e w = Ok (u, w') → w' = put a (with_data (enc borsh y) (acct w a)) w.
Proof. intros Hn Hy. apply store_exact_Ok. rewrite Hn. symmetry. by apply codec_size. Qed.

(** The two writes that end a handler. *)
Lemma store_both_Ok a b c k w u w' :
  length (data (acct w a)) = 380%nat → length (data (acct w b)) = 153%nat → wf borsh c → wf borsh k →
  (store_checkpoint a c ;; store_cursor b k) w = Ok (u, w') →
  checkpoint_at w' a c ∧ cursor_at w' b k ∧
  (∀ x, lamports (acct w' x) = lamports (acct w x) ∧ owner (acct w' x) = owner (acct w x)) ∧
  (∀ x, x ≠ a → x ≠ b → acct w' x = acct w x).
Proof.
  intros Ha Hb Hc Hk Hr. assert (Hab : a ≠ b) by (intros ->; by rewrite Ha in Hb).
  mstep Hr as [] w1 G1. unfold store_checkpoint, store_cursor in *. apply (store_sized_Ok (n:=380)) in G1 as ->; [|done..].
  apply (store_sized_Ok (n:=153)) in Hr as ->; [|by acct_simpl|done]. split_and!.
  - acct_simpl. cbn [data with_data]. by apply try_from_slice_enc.
  - acct_simpl. cbn [data with_data]. by apply try_from_slice_enc.
  - intros x. rewrite !acct_put. by repeat case_decide; subst.
  - intros x ??. by acct_simpl.
Qed.

Lemma acct_moved_other from to n w b : b ≠ from → b ≠ to → acct (moved from to n w) b = acct w b.
Proof. intros. unfold moved. by acct_simpl. Qed.

(** The bond is paid, then the two accounts are written. *)
Lemma bond_then_store_Ok `{HostLaws} a b r c0 k0 c k st c' w w1 u w' :
  checkpoint_at w a c0 → cursor_at w b k0 → wf borsh c → wf borsh k →
  resolve_checkpoint_bond a r c st w = Ok (c', w1) →
  (store_checkpoint a c' ;; store_cursor b k) w1 = Ok (u, w') →
  Checkpoint.bond_status c = CheckpointBondStatus.Locked ∧
  checkpoint_at w' a (with_bond_status st c) ∧ cursor_at w' b k ∧
  (∀ x, lamports (acct w' x) = lamports (acct (moved a r (Checkpoint.bond_lamports c) w) x) ∧
        owner (acct w' x) = owner (acct w x)) ∧
  (∀ x, x ≠ a → x ≠ b → data (acct w' x) = data (acct w x)) ∧
  (∀ x, x ∉ [a; b; r] → acct w' x = acct w x) ∧
  ∃ rent, try_minimum_balance 380 = Ok rent ∧ rent + Checkpoint.bond_lamports c ≤ lamports (acct w a).
Proof.
  intros Ha%(sized (n:=380)) Hb%(sized (n:=153)) Hc Hk Hres Hr.
  apply resolve_checkpoint_bond_Ok in Hres as (-> & Hl & Hw & Hrent).
  assert (Hf : ∀ x, data (acct w1 x) = data (acct w x) ∧ owner (acct w1 x) = owner (acct w x)).
  { intros x. rewrite Hw. apply moved_fields. }
  unfold object_length in Hrent. rewrite (codec_size (n:=380)) in Hrent by done.
  apply store_both_Ok in Hr as (Hc' & Hk' & Hlo & Hoth); [|by rewrite (proj1 (Hf _))..|by apply with_bond_status_wf|done].
  split_and!; try done.
  - intros x. by rewrite (proj1 (Hlo x)), (proj2 (Hlo x)), (proj2 (Hf x)), Hw.
  - intros x ??. rewrite Hoth by done. apply Hf.
  - intros x Hx. nodup. by rewrite Hoth, Hw, acct_moved_other by assumption.
Qed.

(** ** What the handlers do *)

Section handler_specs.
Context `{HostLaws} (cx : Ctx).

Abbreviation checkpoint_pda s er := (find_checkpoint_pda (program_id cx) s er).
Abbreviation cursor_pda s := (find_checkpoint_cursor_pda (program_id cx) s).

(** Data and owner of every account but [a] are kept. *)
Definition kept_but (a : Address) (w w' : World) : Prop :=
  ∀ b, b ≠ a → data (acct w' b) = data (acct w b) ∧ owner (acct w' b) = owner (acct w b).

Lemma load_or_create_cursor_Ok payer session cursor w k w' :
  payer ≠ cursor → is_key session →
  load_or_create_cursor cx payer session cursor w = Ok (k, w') →
  cursor = (cursor_pda session).1 ∧ owner (acct w' cursor) = program_id cx ∧ cursor_at w' cursor k ∧
  CheckpointCursor.is_valid k = true ∧ CheckpointCursor.session k = session ∧
  (data (acct w cursor) = [] ∧ k = new_cursor session (cursor_pda session).2 ∨ w' = w) ∧
  kept_but cursor w w' ∧ (∀ b, b ≠ payer → b ≠ cursor → acct w' b = acct w b).
Proof.
  intros Hne Hs Hr. unfold load_or_create_cursor in Hr. mstep Hr as x w1 Hx.
  destruct (is_data_empty _) eqn:Hemp.
  - unfold create_cursor in Hr.
    pose proof (find_bump_range [CheckpointCursor.SEED_PREFIX; session] (program_id cx)) as Hb.
    unfold find_checkpoint_cursor_pda in *. destruct (find_program_address _ _) as [key bump]. cbn [fst snd] in *.
    mstep Hr as [] w1 Hk. mstep Hr as n w1 Hn. mstep Hr as [] w1 Hi. mstep Hr as [] w2 Hst.
    apply ret_Ok in Hr as [<- ->]. bprop.
    apply initialize_created in Hi as (Hi & Hpay & Hif & Hid & _); [|done].
    unfold store_cursor in Hst. apply store_exact_Ok in Hst as ->; [|rewrite Hi; apply length_zeros].
    split; [done|]. split; [acct_simpl; by rewrite Hi|]. split.
    { acct_simpl. cbn [data with_data]. by apply try_from_slice_enc, new_cursor_wf. }
    split_and!; [done|done|by left| |].
    + intros b ?. acct_simpl. destruct (decide (b = payer)) as [->|]; [by rewrite Hpay|by rewrite Hif].
    + intros b ??. acct_simpl. by apply Hif.
  - pose proof (read_only _ _ _ Hr). subst w'. apply load_cursor_Ok in Hr as (?&?&?&?&?).
    split_and!; try done. by right.
Qed.

(** The account is there with the rent and a fresh bond. *)
Lemma fund_checkpoint_Ok proposer session checkpoint er bump k size w u w' :
  proposer ≠ checkpoint →
  fund_checkpoint cx proposer session checkpoint er bump k size w = Ok (u, w') →
  (data (acct w checkpoint) = [] ∧ length (data (acct w' checkpoint)) = size ∨
   ∃ c, load_checkpoint cx session er checkpoint w = Ok (c, w) ∧ reusable_terminal c k = true ∧
     data (acct w' checkpoint) = data (acct w checkpoint)) ∧
  owner (acct w' checkpoint) = program_id cx ∧
  (∃ rent, try_minimum_balance size = Ok rent ∧
     rent + CHECKPOINT_PROPOSER_BOND_LAMPORTS ≤ lamports (acct w' checkpoint)) ∧
  kept_but checkpoint w w' ∧ (∀ b, b ≠ proposer → b ≠ checkpoint → acct w' b = acct w b).
Proof.
  intros Hne Hr. unfold fund_checkpoint in Hr. mstep Hr as rent w1 Hrent. mstep Hr as x w1 Hx.
  destruct (is_data_empty _) eqn:Hemp; unfold is_data_empty in Hemp; bprop.
  - mstep Hr as n w1 Hn. bprop. apply initialize_created in Hr as (Hi & Hpay & Hif & Hid & _); [|done].
    split; [left; split; [done|rewrite Hi; apply length_zeros]|]. split; [by rewrite Hi|].
    split; [exists rent; split; [done|rewrite Hi; simpl; lia]|]. split; [|done].
    intros b ?. destruct (decide (b = proposer)) as [->|]; [by rewrite Hpay|by rewrite Hif].
  - apply bind_Ok in Hr as (c & w1 & Hc & Hr). pose proof (read_only _ _ _ Hc). subst w1.
    mstep Hr as [] w1 Hre. mstep Hr as y w1 Hy. mstep Hr as [] w1 Hl. bprop.
    apply Transfer_Ok in Hr as (Hw & _). pose proof (load_checkpoint_Ok _ _ _ _ _ _ _ Hc) as (_ & Ho & _).
    assert (Hf : ∀ b, data (acct w' b) = data (acct w b) ∧ owner (acct w' b) = owner (acct w b)).
    { intros b. rewrite Hw. apply moved_fields. }
    split; [right; exists c; split_and!; [done|done|apply Hf]|]. split; [by rewrite (proj2 (Hf checkpoint))|].
    split; [exists rent; split; [done|]|split; [by intros b _|]].
    + rewrite Hw, acct_moved, decide_False, decide_True by congruence. simpl. lia.
    + intros b ??. by rewrite Hw, acct_moved, !decide_False by congruence.
Qed.

(** The guards a proposal passes; [k] is the cursor, created if need be. *)
Record propose_guards (w : World) (proposer session checkpoint cursor : Address) (args : ProposeCheckpoint.t)
    (version2 : bool) (s : Session.t) (k : CheckpointCursor.t) : Prop := {
  pg_signer : is_signer cx proposer = true;
  pg_session : session_at w session s;
  pg_validator : proposer = Session.validator s;
  pg_version : starts_with (data (acct w session)) SessionV2.DISCRIMINATOR = version2;
  pg_open : Session.is_expired s (slot (clock cx)) = false;
  pg_steps : 0 < ProposeCheckpoint.step_count args ≤ CANONICAL_CHECKPOINT_STEPS;
  pg_window : 0 < ProposeCheckpoint.challenge_window_slots args ≤ MAX_CHALLENGE_WINDOW_SLOTS;
  pg_deadline : slot (clock cx) + ProposeCheckpoint.challenge_window_slots args ≤ umax 64;
  pg_idle : CheckpointCursor.active_checkpoint k = zero32;
  pg_after_settled : Session.last_settled_er_slot s < ProposeCheckpoint.er_slot args;
  pg_after_final : CheckpointCursor.latest_finalized_er_slot k < ProposeCheckpoint.er_slot args;
  pg_root : CheckpointCursor.latest_finalized_checkpoint k = zero32 ∨
    ProposeCheckpoint.previous_state_root args = CheckpointCursor.latest_finalized_state_root k;
  pg_checkpoint : checkpoint = (checkpoint_pda session (ProposeCheckpoint.er_slot args)).1;
}.

(** The checkpoint a successful proposal leaves. *)
Definition proposal (proposer session : Address) (args : ProposeCheckpoint.t) : Checkpoint.t :=
  proposed session proposer args (slot (clock cx)) (slot (clock cx) + ProposeCheckpoint.challenge_window_slots args)
    (checkpoint_pda session (ProposeCheckpoint.er_slot args)).2.

Lemma proposal_wf proposer session args :
  is_key session → is_key proposer → wf borsh args → is_u64 (slot (clock cx)) →
  slot (clock cx) + ProposeCheckpoint.challenge_window_slots args ≤ umax 64 →
  0 < ProposeCheckpoint.challenge_window_slots args → wf borsh (proposal proposer session args).
Proof.
  intros. apply proposed_wf; try done; [unfold in_width in *; lia|apply find_bump_range].
Qed.

(** A proposal passes its guards, then makes the account, then writes. *)
Lemma process_propose_steps proposer session checkpoint cursor sys rest args v2 w u w' :
  wf borsh args →
  process_propose_checkpoint_versioned cx (proposer :: session :: checkpoint :: cursor :: sys :: rest) args v2 w
    = Ok (u, w') →
  ∃ s k w1 w2, propose_guards w proposer session checkpoint cursor args v2 s k ∧ is_key session ∧
    load_or_create_cursor cx proposer session cursor w = Ok (k, w1) ∧
    fund_checkpoint cx proposer session checkpoint (ProposeCheckpoint.er_slot args)
      (checkpoint_pda session (ProposeCheckpoint.er_slot args)).2 k
      (account_size (proposal proposer session args)) w1 = Ok (tt, w2) ∧
    (store_checkpoint checkpoint (proposal proposer session args) ;;
     store_cursor cursor (with_active checkpoint (ProposeCheckpoint.er_slot args) k)) w2 = Ok (u, w').
Proof.
  intros Hargs Hr. unfold process_propose_checkpoint_versioned in Hr.
  mstep Hr as [] w1 Ha. mstep Hr as [] w1 Hb. mstep Hr as [] w1 Hsig.
  mstep Hr as [] w1 Hv. apply require_version_Ok in Hv.
  mstep Hr as s w1 Hs. apply load_session_Ok in Hs as (Hse & _ & Hs).
  assert (Hsk : is_key session) by (rewrite Hse; apply find_address_length). clear Hse.
  mstep Hr as [] w1 Hval. cbv zeta in Hr. mstep Hr as [] w1 Hexp.
  apply bind_Ok in Hr as (k & w1 & Hk & Hr).
  mstep Hr as [] w2 Hna. apply require_no_active_Ok in Hna.
  mstep Hr as [] w2 Hadv. apply require_advancing_Ok in Hadv as [Hadv1 Hadv2].
  mstep Hr as [] w2 Hroot. apply require_previous_root_Ok in Hroot.
  unfold proposal. destruct (checkpoint_pda _ _) as [ck cb] eqn:Hpda.
  mstep Hr as [] w2 Hck. mstep Hr as d w2 Hd. bprop. apply bind_Ok in Hr as ([] & w2 & Hfund & Hr).
  exists s, k, w1, w2. split_and!; try done. destruct Hargs as (?&?&?&?&?&?&?&?&?&?). cbn in *. unfold in_width in *.
  split; try done; [lia..|by rewrite Hpda].
Qed.

Lemma process_propose_checkpoint_Ok proposer session checkpoint cursor sys rest args v2 w u w' :
  proposer ≠ checkpoint → proposer ≠ cursor → wf borsh args → is_u64 (slot (clock cx)) →
  process_propose_checkpoint_versioned cx (proposer :: session :: checkpoint :: cursor :: sys :: rest) args v2 w
    = Ok (u, w') →
  ∃ s k, propose_guards w proposer session checkpoint cursor args v2 s k ∧
    cursor = (cursor_pda session).1 ∧ checkpoint ≠ cursor ∧
    (data (acct w cursor) = [] ∧ k = new_cursor session (cursor_pda session).2 ∨
     cursor_at w cursor k ∧ owner (acct w cursor) = program_id cx) ∧
    (data (acct w checkpoint) = [] ∨
     ∃ c, checkpoint_at w checkpoint c ∧ reusable_terminal c k = true) ∧
    checkpoint_at w' checkpoint (proposal proposer session args) ∧
    cursor_at w' cursor (with_active checkpoint (ProposeCheckpoint.er_slot args) k) ∧
    owner (acct w' checkpoint) = program_id cx ∧ owner (acct w' cursor) = program_id cx ∧
    (∃ rent, try_minimum_balance 380 = Ok rent ∧
       rent + CHECKPOINT_PROPOSER_BOND_LAMPORTS ≤ lamports (acct w' checkpoint)) ∧
    (∀ b, b ≠ checkpoint → b ≠ cursor → data (acct w' b) = data (acct w b) ∧ owner (acct w' b) = owner (acct w b)) ∧
    (∀ b, b ∉ [proposer; checkpoint; cursor] → acct w' b = acct w b).
Proof.
  intros Hpc Hpk Hargs Hslot (s & k & w1 & w2 & Hg & Hsk & Hk & Hfund & Hr)%process_propose_steps; [|done].
  apply load_or_create_cursor_Ok in Hk as (Hkp & Hko & Hkd & _ & _ & Hkc & Hkb & Hkf); [|done..].
  assert (Hpl : is_key proposer).
  { rewrite (pg_validator _ _ _ _ _ _ _ _ _ Hg).
    by destruct (session_at_wf _ _ _ (pg_session _ _ _ _ _ _ _ _ _ Hg)) as [(?&?&?&?&?&?&?&?&?&?&?&?&?&?&?&?&?) _]. }
  assert (Hwf : wf borsh (proposal proposer session args)) by (by destruct Hg; apply proposal_wf; try done; lia).
  unfold object_length in Hfund. rewrite (codec_size (n:=380)) in Hfund by done.
  apply fund_checkpoint_Ok in Hfund as (Hcd & Hco & Hcl & Hcb & Hcf); [|done].
  pose proof (sized (n:=153) _ _ Hkd) as Hkl.
  assert (Hckc : checkpoint ≠ cursor).
  { intros E. destruct Hcd as [[Hcd _]|(c & Hcd & _)]; [by rewrite <- E, Hcd in Hkl|].
    apply load_checkpoint_Ok in Hcd as (_ & _ & Hcd & _). apply (sized (n:=380)) in Hcd. by rewrite E, Hkl in Hcd. }
  assert (Hck0 : data (acct w1 checkpoint) = data (acct w checkpoint)) by (by apply Hkb).
  apply store_both_Ok in Hr as (Hc' & Hk' & Hlo & Hoth); [| | |done|].
  2: { destruct Hcd as [[_ Hcd]|(c & Hcd & _ & Hd2)]; [done|]. rewrite Hd2.
       apply load_checkpoint_Ok in Hcd as (_ & _ & Hcd & _). by apply (sized (n:=380)) in Hcd. }
  2: { by rewrite (proj1 (Hcb cursor ltac:(congruence))). }
  2: { apply with_active_wf; [by eapply decoded_wf| |by destruct Hargs].
       rewrite (pg_checkpoint _ _ _ _ _ _ _ _ _ Hg). apply find_address_length. }
  exists s, k. split_and!; try done.
  - destruct Hkc as [|E]; [by left|right]. by rewrite E in Hkd, Hko.
  - destruct Hcd as [[Hcd _]|(c & Hcd & Hre & _)]; rewrite <- Hck0; [by left|right].
    apply load_checkpoint_Ok in Hcd as (_ & _ & Hcd & _). eauto.
  - by rewrite (proj2 (Hlo _)).
  - rewrite (proj2 (Hlo _)). by rewrite (proj2 (Hcb cursor ltac:(congruence))).
  - by rewrite (proj1 (Hlo _)).
  - intros b ??. rewrite Hoth by done. destruct (Hcb b) as [E1 E2], (Hkb b) as [E3 E4]; [done..|]. split; congruence.
  - intros b Hb. nodup. by rewrite Hoth, Hcf, Hkf by assumption.
Qed.

(** A commit comes after the window of an unchallenged proposal. *)
Lemma process_commit_checkpoint_Ok committer session checkpoint cursor proposer rest args v2 w u w' :
  process_commit_checkpoint_versioned cx (committer :: session :: checkpoint :: cursor :: proposer :: rest) args v2 w
    = Ok (u, w') →
  let er := CommitCheckpoint.er_slot args in
  ∃ s c k, session_at w session s ∧ starts_with (data (acct w session)) SessionV2.DISCRIMINATOR = v2 ∧
    checkpoint_at w checkpoint c ∧ cursor_at w cursor k ∧
    checkpoint = (checkpoint_pda session er).1 ∧ cursor = (cursor_pda session).1 ∧
    Checkpoint.er_slot c = er ∧ Checkpoint.session c = session ∧
    Checkpoint.status c = CheckpointStatus.Pending ∧ Checkpoint.bond_status c = CheckpointBondStatus.Locked ∧
    Checkpoint.challenge_deadline_l1_slot c ≤ slot (clock cx) ∧
    Session.last_settled_er_slot s < er ∧ CheckpointCursor.latest_finalized_er_slot k < er ∧
    CheckpointCursor.active_checkpoint k = checkpoint ∧
    (CheckpointCursor.latest_finalized_checkpoint k = zero32 ∨
     Checkpoint.previous_state_root c = CheckpointCursor.latest_finalized_state_root k) ∧
    proposer = Checkpoint.proposer c ∧
    checkpoint_at w' checkpoint
      (with_bond_status CheckpointBondStatus.Released (with_status CheckpointStatus.Committed c)) ∧
    cursor_at w' cursor (with_finalized checkpoint er (Checkpoint.new_state_root c) k) ∧
    (∀ x, lamports (acct w' x) = lamports (acct (moved checkpoint proposer (Checkpoint.bond_lamports c) w) x) ∧
        owner (acct w' x) = owner (acct w x)) ∧
    (∀ x, x ≠ checkpoint → x ≠ cursor → data (acct w' x) = data (acct w x)) ∧
    (∀ x, x ∉ [checkpoint; cursor; proposer] → acct w' x = acct w x) ∧
    ∃ rent, try_minimum_balance 380 = Ok rent ∧ rent + Checkpoint.bond_lamports c ≤ lamports (acct w checkpoint).
Proof.
  intros Hr. unfold process_commit_checkpoint_versioned in Hr.
  mstep Hr as [] w1 Hsig. mstep Hr as [] w1 Hv. apply require_version_Ok in Hv.
  mstep Hr as s w1 Hs. apply load_session_Ok in Hs as (_ & _ & Hs).
  mstep Hr as c w1 Hc. apply load_checkpoint_Ok in Hc. mstep Hr as k w1 Hk. apply load_cursor_Ok in Hk.
  destruct (Checkpoint.status c) eqn:Hst; try (apply bind_Ok in Hr as (? & ? & Hr & _); by apply fail_Ok in Hr).
  mstep Hr as [] w1 Hp. mstep Hr as [] w1 Hdl. mstep Hr as [] w1 Hadv. apply require_advancing_Ok in Hadv.
  mstep Hr as [] w1 Hact. apply require_active_checkpoint_Ok in Hact.
  mstep Hr as [] w1 Hroot. apply require_previous_root_Ok in Hroot.
  apply bind_Ok in Hr as (c' & w1 & Hrel & Hr). unfold release_checkpoint_bond in Hrel. mstep Hrel as [] w2 Hpr.
  destruct Hc as (Hcp & _ & Hc & _ & Hcs & Hce), Hk as (Hkp & _ & Hk & _), Hadv as [Ha1 Ha2], Hact as [Hact _].
  pose proof (resolve_checkpoint_bond_Ok _ _ _ _ _ _ _ Hrel) as (E & _).
  assert (En : Checkpoint.new_state_root c' = Checkpoint.new_state_root c) by (by rewrite E).
  rewrite En in Hr. clear E En. pose proof (decoded_wf _ _ Hc) as Hcw. pose proof (decoded_wf _ _ Hk) as Hkw.
  eapply bond_then_store_Ok in Hr as (Hl & Hc' & Hk' & Hlo & Hda & Hoth & Hrent); [|done|done| | |done].
  - exists s, c, k. bprop. by split_and!.
  - by apply with_status_wf.
  - destruct Hcw as (?&?&?&?&?&?&?&?&?&?&?&?&?&?&?&?&?&?&?&?&?). apply with_finalized_wf; try done.
    + rewrite Hcp. apply find_address_length.
    + by rewrite <- Hce.
Qed.

(** Before the deadline the proposer takes an unchallenged proposal back. *)
Lemma process_cancel_checkpoint_Ok proposer session checkpoint cursor rest args w u w' :
  process_cancel_checkpoint cx (proposer :: session :: checkpoint :: cursor :: rest) args w = Ok (u, w') →
  let er := CancelCheckpoint.er_slot args in
  ∃ s c k, is_signer cx proposer = true ∧ session_at w session s ∧ checkpoint_at w checkpoint c ∧ cursor_at w cursor k ∧
    checkpoint = (checkpoint_pda session er).1 ∧ cursor = (cursor_pda session).1 ∧
    Checkpoint.er_slot c = er ∧ Checkpoint.session c = session ∧
    Checkpoint.status c = CheckpointStatus.Pending ∧ Checkpoint.bond_status c = CheckpointBondStatus.Locked ∧
    slot (clock cx) < Checkpoint.challenge_deadline_l1_slot c ∧
    CheckpointCursor.active_checkpoint k = checkpoint ∧ proposer = Checkpoint.proposer c ∧
    checkpoint_at w' checkpoint
      (with_bond_status CheckpointBondStatus.Released (with_status CheckpointStatus.Cancelled c)) ∧
    cursor_at w' cursor (clear_active_checkpoint k) ∧
    (∀ x, lamports (acct w' x) = lamports (acct (moved checkpoint proposer (Checkpoint.bond_lamports c) w) x) ∧
        owner (acct w' x) = owner (acct w x)) ∧
    (∀ x, x ≠ checkpoint → x ≠ cursor → data (acct w' x) = data (acct w x)) ∧
    (∀ x, x ∉ [checkpoint; cursor; proposer] → acct w' x = acct w x) ∧
    ∃ rent, try_minimum_balance 380 = Ok rent ∧ rent + Checkpoint.bond_lamports c ≤ lamports (acct w checkpoint).
Proof.
  intros Hr. unfold process_cancel_checkpoint in Hr.
  mstep Hr as [] w1 Hsig. mstep Hr as s w1 Hs. apply load_session_Ok in Hs as (_ & _ & Hs).
  mstep Hr as c w1 Hc. apply load_checkpoint_Ok in Hc. mstep Hr as k w1 Hk. apply load_cursor_Ok in Hk.
  mstep Hr as [] w1 Hch. mstep Hr as [] w1 Hst. mstep Hr as [] w1 Hp. mstep Hr as [] w1 Hdl.
  mstep Hr as [] w1 Hact. apply require_active_checkpoint_Ok in Hact.
  apply bind_Ok in Hr as (c' & w1 & Hrel & Hr). unfold release_checkpoint_bond in Hrel. mstep Hrel as [] w2 Hpr.
  destruct Hc as (Hcp & _ & Hc & _ & Hcs & Hce), Hk as (Hkp & _ & Hk & _), Hact as [Hact _].
  eapply bond_then_store_Ok in Hr as (Hl & Hc' & Hk' & Hlo & Hda & Hoth & Hrent); [|done|done| | |done].
  - exists s, c, k. bprop. by split_and!.
  - eapply with_status_wf, decoded_wf, Hc.
  - eapply clear_active_checkpoint_wf, decoded_wf, Hk.
Qed.
End handler_specs.
