(* ===== verification/Challenge.v ===== *)
(** * Challenges (portal/src/instructions/checkpoint.rs, second half)

    A pending checkpoint can be challenged before its deadline.  Respondent and
    challenger then bisect the interval of steps in dispute: the respondent
    claims the state in the middle with a path to the trace root, the challenger
    picks a half.  Whoever misses a turn loses.  At one step the challenger
    uploads a proof of the step ([process_create_step_proof],
    [process_write_step_proof], [process_seal_step_proof]), whose verification
    decides ([process_resolve_challenge]). *)

From Stdlib Require Import ZArith Lia.
From Stdlib Require Import Strings.Byte.
From stdpp Require Import base gmap list numbers.
From S2P Require Import Prelude Borsh Events Runtime State Commitments Frames Toy Pda Instruction Verifier Merkle StepProof SessionOps Delegation Settlement Checkpoint.

(** ** Updates *)

(** [checkpoint_state.status = Challenged; .challenger = ..; .challenged_at_l1_slot = ..] *)
Definition with_challenger (challenger : Address) (slot : Z) (c : Checkpoint.t) : Checkpoint.t :=
  Checkpoint.mk (Checkpoint.discriminator c) (Checkpoint.session c) (Checkpoint.er_slot c) (Checkpoint.step_count c)
    (Checkpoint.previous_state_root c) (Checkpoint.new_state_root c) (Checkpoint.trace_root c)
    (Checkpoint.tx_effect_root c) (Checkpoint.readonly_l1_root c) (Checkpoint.da_commitment c)
    (Checkpoint.effect_commitment c) (Checkpoint.proposer c) (Checkpoint.proposed_at_l1_slot c)
    (Checkpoint.challenge_deadline_l1_slot c) CheckpointStatus.Challenged (Checkpoint.bond_lamports c)
    (Checkpoint.bond_status c) challenger slot (Checkpoint.challenge_resolved c) (Checkpoint.bump c).

(** [checkpoint_state.status = st; checkpoint_state.challenge_resolved = true] *)
Definition with_resolution (st : CheckpointStatus.t) (c : Checkpoint.t) : Checkpoint.t :=
  Checkpoint.mk (Checkpoint.discriminator c) (Checkpoint.session c) (Checkpoint.er_slot c) (Checkpoint.step_count c)
    (Checkpoint.previous_state_root c) (Checkpoint.new_state_root c) (Checkpoint.trace_root c)
    (Checkpoint.tx_effect_root c) (Checkpoint.readonly_l1_root c) (Checkpoint.da_commitment c)
    (Checkpoint.effect_commitment c) (Checkpoint.proposer c) (Checkpoint.proposed_at_l1_slot c)
    (Checkpoint.challenge_deadline_l1_slot c) st (Checkpoint.bond_lamports c) (Checkpoint.bond_status c)
    (Checkpoint.challenger c) (Checkpoint.challenged_at_l1_slot c) true (Checkpoint.bump c).

(** [challenge_state.status = st] *)
Definition with_outcome (st : ChallengeStatus.t) (h : Challenge.t) : Challenge.t :=
  Challenge.mk (Challenge.discriminator h) (Challenge.checkpoint h) (Challenge.challenger h) (Challenge.respondent h)
    (Challenge.opened_at_l1_slot h) (Challenge.hard_deadline_l1_slot h) (Challenge.turn_deadline_l1_slot h)
    (Challenge.start_step h) (Challenge.end_step h) (Challenge.midpoint_step h) (Challenge.start_state_root h)
    (Challenge.end_state_root h) (Challenge.midpoint_state_root h) st (Challenge.turn h) (Challenge.rounds h)
    (Challenge.bump h).

(** The interval, the claimed middle, whose turn it is until when, and the round. *)
Definition with_round (start_step end_step midpoint_step : Z) (start_root end_root midpoint_root : Hash32)
    (turn : ChallengeTurn.t) (deadline rounds : Z) (h : Challenge.t) : Challenge.t :=
  Challenge.mk (Challenge.discriminator h) (Challenge.checkpoint h) (Challenge.challenger h) (Challenge.respondent h)
    (Challenge.opened_at_l1_slot h) (Challenge.hard_deadline_l1_slot h) deadline start_step end_step midpoint_step
    start_root end_root midpoint_root (Challenge.status h) turn rounds (Challenge.bump h).

(** The respondent's assignments. *)
Definition with_claim (midpoint : Z) (root : Hash32) (turn : ChallengeTurn.t) (deadline : Z) (h : Challenge.t) : Challenge.t :=
  with_round (Challenge.start_step h) (Challenge.end_step h) midpoint (Challenge.start_state_root h)
    (Challenge.end_state_root h) root turn deadline (Challenge.rounds h) h.

(** The challenger's: the upper or the lower half. *)
Definition with_half (upper : bool) (deadline rounds : Z) (h : Challenge.t) : Challenge.t :=
  if upper then
    with_round (Challenge.midpoint_step h) (Challenge.end_step h) 0 (Challenge.midpoint_state_root h)
      (Challenge.end_state_root h) zero32 ChallengeTurn.Respondent deadline rounds h
  else
    with_round (Challenge.start_step h) (Challenge.midpoint_step h) 0 (Challenge.start_state_root h)
      (Challenge.midpoint_state_root h) zero32 ChallengeTurn.Respondent deadline rounds h.

Definition with_reveal (payload_root inclusion_proof_hash : Hash32) (slot : Z) (d : DataAvailabilityProof.t) :
    DataAvailabilityProof.t :=
  DataAvailabilityProof.mk (DataAvailabilityProof.discriminator d) (DataAvailabilityProof.challenge d)
    (DataAvailabilityProof.checkpoint d) (DataAvailabilityProof.commitment d) payload_root inclusion_proof_hash slot
    DataAvailabilityStatus.Revealed (DataAvailabilityProof.bump d).

Definition with_default (d : DataAvailabilityProof.t) : DataAvailabilityProof.t :=
  DataAvailabilityProof.mk (DataAvailabilityProof.discriminator d) (DataAvailabilityProof.challenge d)
    (DataAvailabilityProof.checkpoint d) (DataAvailabilityProof.commitment d) (DataAvailabilityProof.payload_root d)
    (DataAvailabilityProof.inclusion_proof_hash d) (DataAvailabilityProof.revealed_at_l1_slot d)
    DataAvailabilityStatus.Defaulted (DataAvailabilityProof.bump d).

(** ** Accounts *)

Section accounts.
Context `{Host} (cx : Ctx).

Definition store_challenge (challenge : Address) (challenge_state : Challenge.t) : prog unit :=
  store challenge challenge_state Panicked.

Definition load_challenge (checkpoint_key challenge : Address) : prog Challenge.t :=
  let '(expected_key, _) := find_challenge_pda (program_id cx) checkpoint_key in
  bail_if (challenge != expected_key) PortalError.InvalidPdaSeeds ;;
  x ← get_acct challenge;
  bail_if (negb (owned_by x (program_id cx))) PortalError.ChallengeStateInvalid ;;
  state ← load challenge (into PortalError.ChallengeDeserializeFailed);
  bail_if (negb (Challenge.is_valid state) || (Challenge.checkpoint state != checkpoint_key))
    PortalError.ChallengeStateInvalid ;;
  mret state.

Definition store_da_proof (account : Address) (state : DataAvailabilityProof.t) : prog unit :=
  store account state Panicked.

Definition load_da_proof (challenge_key checkpoint_key account : Address) : prog DataAvailabilityProof.t :=
  let '(expected_key, _) := find_da_proof_pda (program_id cx) challenge_key in
  bail_if (account != expected_key) PortalError.InvalidPdaSeeds ;;
  x ← get_acct account;
  bail_if (negb (owned_by x (program_id cx))) PortalError.DataAvailabilityStateInvalid ;;
  state ← load account (into PortalError.DataAvailabilityDeserializeFailed);
  bail_if (negb (DataAvailabilityProof.is_valid state) || (DataAvailabilityProof.challenge state != challenge_key)
           || (DataAvailabilityProof.checkpoint state != checkpoint_key)) PortalError.DataAvailabilityStateInvalid ;;
  mret state.

Definition next_turn_deadline (current_slot hard_deadline : Z) : prog Z :=
  next ← ok_or (u64_checked_add current_slot CHALLENGE_TURN_WINDOW_SLOTS) (into PortalError.ArithmeticOverflow);
  mret (Z.min next hard_deadline).

Definition require_live_turn (challenge_state : Challenge.t) (current_slot : Z) : prog unit :=
  bail_if (Challenge.status challenge_state != ChallengeStatus.Active) PortalError.ChallengeStateInvalid ;;
  bail_if ((Challenge.turn_deadline_l1_slot challenge_state <=? current_slot)
           || (Challenge.hard_deadline_l1_slot challenge_state <=? current_slot))
    PortalError.CheckpointChallengeWindowClosed.

(** [if checkpoint_state.status != Challenged { return Err(..) }] *)
Definition require_challenged (checkpoint_state : Checkpoint.t) : prog unit :=
  bail_if (Checkpoint.status checkpoint_state != CheckpointStatus.Challenged) PortalError.CheckpointStateInvalid.
End accounts.

(** ** The game *)

Section game.
Context `{Host} (cx : Ctx).

(** The state of a freshly opened challenge. *)
Definition opened_challenge (checkpoint challenger : Address) (session_state : Session.t) (c : Checkpoint.t)
    (current_slot deadline bump : Z) : Challenge.t :=
  Challenge.mk Challenge.DISCRIMINATOR checkpoint challenger (Session.validator session_state) current_slot
    (Checkpoint.challenge_deadline_l1_slot c) deadline 0 (Checkpoint.step_count c) 0 (Checkpoint.previous_state_root c)
    (Checkpoint.new_state_root c) zero32 ChallengeStatus.Active ChallengeTurn.Respondent 0 bump.

Definition missing_da (challenge checkpoint : Address) (c : Checkpoint.t) (bump : Z) : DataAvailabilityProof.t :=
  DataAvailabilityProof.mk DataAvailabilityProof.DISCRIMINATOR challenge checkpoint (Checkpoint.da_commitment c) zero32
    zero32 0 DataAvailabilityStatus.Missing bump.

(** [if challenge.is_data_empty() { .. } else if ..] *)
Definition prepare_challenge (challenger checkpoint challenge : Address) (bump : Z) (challenge_size : nat) : prog unit :=
  x ← get_acct challenge;
  if is_data_empty x then
    lamports ← lift_err id (try_minimum_balance challenge_size);
    initialize_pda_account cx challenger challenge lamports challenge_size (program_id cx)
      [Challenge.SEED_PREFIX; checkpoint; le_bytes 1 bump]
  else
    previous ← load_challenge cx checkpoint challenge;
    bail_if (Challenge.status previous == ChallengeStatus.Active) PortalError.CheckpointChallenged.

(** [if da_proof.is_data_empty() { .. } else { .. }] *)
Definition prepare_da_proof (challenger checkpoint challenge da_proof : Address) (bump : Z) (da_size : nat) : prog unit :=
  x ← get_acct da_proof;
  if is_data_empty x then
    lamports ← lift_err id (try_minimum_balance da_size);
    initialize_pda_account cx challenger da_proof lamports da_size (program_id cx)
      [DataAvailabilityProof.SEED_PREFIX; challenge; le_bytes 1 bump]
  else
    load_da_proof cx challenge checkpoint da_proof ;;
    mret tt.

Definition process_open_challenge (accounts : list Address) (args : OpenChallenge.t) : prog unit :=
  let er_slot := OpenChallenge.er_slot args in
  match accounts with
  | challenger :: session :: checkpoint :: challenge :: da_proof :: _system_program :: _ =>
    bail_if (negb (is_signer cx challenger)) PortalError.Unauthorized ;;
    session_state ← load_session cx session;
    checkpoint_state ← load_checkpoint cx session er_slot checkpoint;
    bail_if ((Checkpoint.status checkpoint_state != CheckpointStatus.Pending)
             || Checkpoint.challenge_resolved checkpoint_state) PortalError.CheckpointStateInvalid ;;
    let current_slot := slot (clock cx) in
    bail_if (Checkpoint.challenge_deadline_l1_slot checkpoint_state <=? current_slot)
      PortalError.CheckpointChallengeWindowClosed ;;
    let '(expected_challenge_key, challenge_bump) := find_challenge_pda (program_id cx) checkpoint in
    bail_if (challenge != expected_challenge_key) PortalError.InvalidPdaSeeds ;;
    deadline ← next_turn_deadline current_slot (Checkpoint.challenge_deadline_l1_slot checkpoint_state);
    let challenge_state :=
      opened_challenge checkpoint challenger session_state checkpoint_state current_slot deadline challenge_bump in
    prepare_challenge challenger checkpoint challenge challenge_bump (account_size challenge_state) ;;
    let '(expected_da_key, da_bump) := find_da_proof_pda (program_id cx) challenge in
    bail_if (da_proof != expected_da_key) PortalError.InvalidPdaSeeds ;;
    let da_state := missing_da challenge checkpoint checkpoint_state da_bump in
    prepare_da_proof challenger checkpoint challenge da_proof da_bump (account_size da_state) ;;
    store_challenge challenge challenge_state ;;
    store_da_proof da_proof da_state ;;
    store_checkpoint checkpoint (with_challenger challenger current_slot checkpoint_state)
  | _ => fail NotEnoughAccountKeys
  end.

(** The data availability part of a response. *)
Definition reveal (da_proof : Address) (da_payload_root da_inclusion_proof_hash : Hash32) (da_state : DataAvailabilityProof.t) :
    prog unit :=
  if DataAvailabilityProof.status da_state == DataAvailabilityStatus.Missing then
    bail_if ((da_payload_root != DataAvailabilityProof.commitment da_state) || (da_inclusion_proof_hash == zero32))
      PortalError.DataAvailabilityCommitmentMismatch ;;
    store_da_proof da_proof (with_reveal da_payload_root da_inclusion_proof_hash (slot (clock cx)) da_state)
  else if DataAvailabilityProof.status da_state != DataAvailabilityStatus.Revealed then
    fail (into PortalError.DataAvailabilityStateInvalid)
  else
    bail_if ((da_payload_root != DataAvailabilityProof.payload_root da_state)
             || (da_inclusion_proof_hash != DataAvailabilityProof.inclusion_proof_hash da_state))
      PortalError.DataAvailabilityCommitmentMismatch.

(** The claim about the interval: the midpoint and root to record, and the turn. *)
Definition claim (checkpoint_state : Checkpoint.t) (h : Challenge.t) (args : RespondChallenge.t) :
    prog (Z * Hash32 * ChallengeTurn.t) :=
  let claimed_step := RespondChallenge.claimed_step args in
  let claimed_state_root := RespondChallenge.claimed_state_root args in
  width ← ok_or (checked_sub (Challenge.end_step h) (Challenge.start_step h)) (into PortalError.ChallengeResponseInvalid);
  bail_if (width =? 0) PortalError.ChallengeResponseInvalid ;;
  if width =? 1 then
    bail_if (negb (claimed_step =? Challenge.start_step h) || (claimed_state_root != Challenge.end_state_root h))
      PortalError.ChallengeResponseInvalid ;;
    mret (Challenge.midpoint_step h, Challenge.midpoint_state_root h, ChallengeTurn.Prove)
  else
    midpoint ← ok_or (u64_checked_add (Challenge.start_step h) (width / 2)) (into PortalError.ArithmeticOverflow);
    bail_if (negb (claimed_step =? midpoint)) PortalError.ChallengeResponseInvalid ;;
    valid ← ok_or (verify_trace_authentication_path checkpoint_state claimed_step claimed_state_root
                     (RespondChallenge.trace_path_len args) (RespondChallenge.trace_path args)) Panicked;
    bail_if (negb valid) PortalError.ChallengeResponseInvalid ;;
    mret (midpoint, claimed_state_root, ChallengeTurn.Challenger).

Definition process_respond_challenge (accounts : list Address) (args : RespondChallenge.t) : prog unit :=
  match accounts with
  | validator :: session :: checkpoint :: challenge :: da_proof :: _ =>
    bail_if (negb (is_signer cx validator)) PortalError.Unauthorized ;;
    session_state ← load_session cx session;
    bail_if (validator != Session.validator session_state) PortalError.Unauthorized ;;
    checkpoint_state ← load_checkpoint cx session (RespondChallenge.er_slot args) checkpoint;
    require_challenged checkpoint_state ;;
    challenge_state ← load_challenge cx checkpoint challenge;
    let current_slot := slot (clock cx) in
    require_live_turn challenge_state current_slot ;;
    bail_if ((Challenge.turn challenge_state != ChallengeTurn.Respondent)
             || (validator != Challenge.respondent challenge_state)) PortalError.ChallengeTurnInvalid ;;
    da_state ← load_da_proof cx challenge checkpoint da_proof;
    reveal da_proof (RespondChallenge.da_payload_root args) (RespondChallenge.da_inclusion_proof_hash args) da_state ;;
    '(midpoint, root, turn) ← claim checkpoint_state challenge_state args;
    deadline ← next_turn_deadline current_slot (Challenge.hard_deadline_l1_slot challenge_state);
    store_challenge challenge (with_claim midpoint root turn deadline challenge_state)
  | _ => fail NotEnoughAccountKeys
  end.

Definition process_bisect_challenge (accounts : list Address) (args : BisectChallenge.t) : prog unit :=
  match accounts with
  | challenger :: session :: checkpoint :: challenge :: _ =>
    bail_if (negb (is_signer cx challenger)) PortalError.Unauthorized ;;
    load_session cx session ;;
    checkpoint_state ← load_checkpoint cx session (BisectChallenge.er_slot args) checkpoint;
    require_challenged checkpoint_state ;;
    state ← load_challenge cx checkpoint challenge;
    let current_slot := slot (clock cx) in
    require_live_turn state current_slot ;;
    bail_if ((Challenge.turn state != ChallengeTurn.Challenger) || (challenger != Challenge.challenger state))
      PortalError.ChallengeTurnInvalid ;;
    bail_if ((Challenge.midpoint_step state <=? Challenge.start_step state)
             || (Challenge.end_step state <=? Challenge.midpoint_step state)) PortalError.ChallengeResponseInvalid ;;
    rounds ← ok_or (checked_add 32 (Challenge.rounds state) 1) (into PortalError.ArithmeticOverflow);
    deadline ← next_turn_deadline current_slot (Challenge.hard_deadline_l1_slot state);
    store_challenge challenge (with_half (BisectChallenge.dispute_upper args) deadline rounds state)
  | _ => fail NotEnoughAccountKeys
  end.

Definition process_timeout_challenge (accounts : list Address) (args : TimeoutChallenge.t) : prog unit :=
  let er_slot := TimeoutChallenge.er_slot args in
  match accounts with
  | caller :: session :: checkpoint :: challenge :: da_proof :: bond_recipient :: cursor :: _ =>
    bail_if (negb (is_signer cx caller)) PortalError.Unauthorized ;;
    load_session cx session ;;
    checkpoint_state ← load_checkpoint cx session er_slot checkpoint;
    require_challenged checkpoint_state ;;
    challenge_state ← load_challenge cx checkpoint challenge;
    bail_if (Challenge.status challenge_state != ChallengeStatus.Active) PortalError.ChallengeStateInvalid ;;
    let current_slot := slot (clock cx) in
    bail_if ((current_slot <? Challenge.turn_deadline_l1_slot challenge_state)
             && (current_slot <? Challenge.hard_deadline_l1_slot challenge_state))
      PortalError.ChallengeDeadlineNotReached ;;
    bail_if (bond_recipient != Challenge.challenger challenge_state) PortalError.Unauthorized ;;
    cursor_state ← load_cursor cx session cursor;
    require_active_checkpoint cursor_state checkpoint er_slot ;;
    da_state ← load_da_proof cx challenge checkpoint da_proof;
    if Challenge.turn challenge_state == ChallengeTurn.Respondent then
      (if DataAvailabilityProof.status da_state == DataAvailabilityStatus.Missing
       then store_da_proof da_proof (with_default da_state) else mret tt) ;;
      checkpoint_state ← slash_checkpoint_bond checkpoint bond_recipient checkpoint_state;
      store_cursor cursor (clear_active_checkpoint cursor_state) ;;
      store_checkpoint checkpoint (with_resolution CheckpointStatus.Invalid checkpoint_state) ;;
      store_challenge challenge (with_outcome ChallengeStatus.ChallengerWon challenge_state)
    else
      store_checkpoint checkpoint (with_resolution CheckpointStatus.Pending checkpoint_state) ;;
      store_challenge challenge (with_outcome ChallengeStatus.ValidatorWon challenge_state)
  | _ => fail NotEnoughAccountKeys
  end.
End game.

(** ** Step proofs *)

Section step_proofs.
Context `{Host, Groth16} (ft : Features) (cx : Ctx).

Definition store_step_proof (proof : Address) (proof_state : StepProofAccount.t) : prog unit :=
  store proof proof_state Panicked.

Definition load_step_proof (checkpoint_key proof : Address) : prog StepProofAccount.t :=
  let '(expected_proof_key, _) := find_step_proof_pda (program_id cx) checkpoint_key in
  bail_if (proof != expected_proof_key) PortalError.InvalidPdaSeeds ;;
  x ← get_acct proof;
  bail_if (negb (owned_by x (program_id cx))) PortalError.StepProofStateInvalid ;;
  proof_state ← load proof (into PortalError.StepProofDeserializeFailed);
  bail_if (negb (StepProofAccount.is_valid proof_state) || (StepProofAccount.checkpoint proof_state != checkpoint_key))
    PortalError.StepProofStateInvalid ;;
  mret proof_state.

(** [proof_state.public_input_hash = ..] *)
Definition with_public_input_hash (hash : Hash32) (p : StepProofAccount.t) : StepProofAccount.t :=
  StepProofAccount.mk (StepProofAccount.discriminator p) (StepProofAccount.checkpoint p) (StepProofAccount.challenge p)
    (StepProofAccount.authority p) (StepProofAccount.proof_kind p) (StepProofAccount.proof_version p)
    (StepProofAccount.step_index p) (StepProofAccount.session_context p) (StepProofAccount.tx_effect_root p)
    (StepProofAccount.readonly_l1_root p) (StepProofAccount.settlement_effect_root p) hash
    (StepProofAccount.written_len p) (StepProofAccount.sealed p) (StepProofAccount.proof_hash p)
    (StepProofAccount.bump p) (StepProofAccount.data p).

(** The bytes, how many were written, whether they are sealed, and their hash. *)
Definition with_bytes (data : list byte) (written_len : Z) (sealed : bool) (proof_hash : Hash32)
    (p : StepProofAccount.t) : StepProofAccount.t :=
  StepProofAccount.mk (StepProofAccount.discriminator p) (StepProofAccount.checkpoint p) (StepProofAccount.challenge p)
    (StepProofAccount.authority p) (StepProofAccount.proof_kind p) (StepProofAccount.proof_version p)
    (StepProofAccount.step_index p) (StepProofAccount.session_context p) (StepProofAccount.tx_effect_root p)
    (StepProofAccount.readonly_l1_root p) (StepProofAccount.settlement_effect_root p)
    (StepProofAccount.public_input_hash p) written_len sealed proof_hash (StepProofAccount.bump p) data.

(** The account before its digest is filled in. *)
Definition new_step_proof (checkpoint challenge authority : Address) (args : CreateStepProof.t) (bump : Z) :
    StepProofAccount.t :=
  let '(CreateStepProof.mk _ proof_kind proof_version step_index session_context tx_effect_root _ _ readonly_l1_root
          settlement_effect_root) := args in
  StepProofAccount.mk StepProofAccount.DISCRIMINATOR checkpoint challenge authority proof_kind proof_version step_index
    session_context tx_effect_root readonly_l1_root settlement_effect_root zero32 0 false zero32 bump
    (zeros (Z.to_nat MAX_STEP_PROOF_BYTES)).

Definition process_create_step_proof (accounts : list Address) (args : CreateStepProof.t) : prog unit :=
  let step_index := CreateStepProof.step_index args in
  match accounts with
  | authority :: session :: checkpoint :: challenge :: proof :: _system_program :: _ =>
    bail_if (negb (is_signer cx authority)) PortalError.Unauthorized ;;
    x ← get_acct session;
    bail_if (starts_with (data x) SessionV2.DISCRIMINATOR) PortalError.StepProofVerifierUnavailable ;;
    session_state ← load_session cx session;
    checkpoint_state ← load_checkpoint cx session (CreateStepProof.er_slot args) checkpoint;
    require_challenged checkpoint_state ;;
    challenge_state ← load_challenge cx checkpoint challenge;
    require_live_turn challenge_state (slot (clock cx)) ;;
    bail_if ((Challenge.turn challenge_state != ChallengeTurn.Prove)
             || negb (Challenge.end_step challenge_state =? u64_saturating_add (Challenge.start_step challenge_state) 1)
             || negb (step_index =? Challenge.start_step challenge_state)) PortalError.ChallengeTurnInvalid ;;
    err_if ((CreateStepProof.proof_kind args =? 0) || (CreateStepProof.proof_version args =? 0)) InvalidInstructionData ;;
    bail_if (bool_decide (session_context_v1 (program_id cx) session session_state
                          ≠ Some (CreateStepProof.session_context args))) PortalError.StepProofPublicInputMismatch ;;
    bail_if ((authority != Challenge.challenger challenge_state)
             || (CreateStepProof.readonly_l1_root args != Checkpoint.readonly_l1_root checkpoint_state)
             || (CreateStepProof.settlement_effect_root args != Checkpoint.effect_commitment checkpoint_state))
      PortalError.Unauthorized ;;
    bound ← ok_or (verify_step_tx_effect_binding ft checkpoint_state step_index (CreateStepProof.proof_kind args)
                     (CreateStepProof.proof_version args) (CreateStepProof.tx_effect_root args)
                     (CreateStepProof.tx_effect_path_len args) (CreateStepProof.tx_effect_path args)) Panicked;
    bail_if (negb bound) PortalError.StepProofPublicInputMismatch ;;
    let '(expected_proof_key, proof_bump) := find_step_proof_pda (program_id cx) checkpoint in
    bail_if (proof != expected_proof_key) PortalError.InvalidPdaSeeds ;;
    let fresh := new_step_proof checkpoint challenge authority args proof_bump in
    let proof_state := with_public_input_hash
      (step_proof_public_input_hash (program_id cx) session checkpoint checkpoint_state challenge_state fresh) fresh in
    let proof_size := account_size proof_state in
    proof_lamports ← lift_err id (try_minimum_balance proof_size);
    y ← get_acct proof;
    (if is_data_empty y then
       initialize_pda_account cx authority proof proof_lamports proof_size (program_id cx)
         [StepProofAccount.SEED_PREFIX; checkpoint; le_bytes 1 proof_bump]
     else bail_if (negb (owned_by y (program_id cx)) || (lamports y <? proof_lamports)) PortalError.StepProofStateInvalid) ;;
    store_step_proof proof proof_state
  | _ => fail NotEnoughAccountKeys
  end.

(** The guards writing and sealing share. *)
Definition load_open_proof (authority session checkpoint challenge proof : Address) (er_slot : Z) : prog StepProofAccount.t :=
  bail_if (negb (is_signer cx authority)) PortalError.Unauthorized ;;
  load_session cx session ;;
  checkpoint_state ← load_checkpoint cx session er_slot checkpoint;
  require_challenged checkpoint_state ;;
  challenge_state ← load_challenge cx checkpoint challenge;
  require_live_turn challenge_state (slot (clock cx)) ;;
  bail_if (Challenge.turn challenge_state != ChallengeTurn.Prove) PortalError.ChallengeTurnInvalid ;;
  proof_state ← load_step_proof checkpoint proof;
  bail_if (StepProofAccount.challenge proof_state != challenge) PortalError.StepProofCheckpointMismatch ;;
  bail_if (StepProofAccount.authority proof_state != authority) PortalError.Unauthorized ;;
  bail_if (StepProofAccount.sealed proof_state) PortalError.StepProofAlreadySealed ;;
  mret proof_state.

(** [offset + chunk_len] does not overflow a 64-bit [usize]. *)
Definition process_write_step_proof (accounts : list Address) (args : WriteStepProof.t) : prog unit :=
  let '(WriteStepProof.mk er_slot offset chunk_len chunk) := args in
  match accounts with
  | authority :: session :: checkpoint :: challenge :: proof :: _ =>
    proof_state ← load_open_proof authority session checkpoint challenge proof er_slot;
    let end_ := offset + chunk_len in
    bail_if ((MAX_STEP_PROOF_BYTES <? end_) || (Z.of_nat (length chunk) <? chunk_len))
      PortalError.StepProofChunkOutOfBounds ;;
    store_step_proof proof
      (with_bytes (splice (StepProofAccount.data proof_state) (Z.to_nat offset) (take (Z.to_nat chunk_len) chunk))
         (Z.max (StepProofAccount.written_len proof_state) end_) (StepProofAccount.sealed proof_state)
         (StepProofAccount.proof_hash proof_state) proof_state)
  | _ => fail NotEnoughAccountKeys
  end.

Definition process_seal_step_proof (accounts : list Address) (args : SealStepProof.t) : prog unit :=
  let '(SealStepProof.mk er_slot proof_len) := args in
  match accounts with
  | authority :: session :: checkpoint :: challenge :: proof :: _ =>
    proof_state ← load_open_proof authority session checkpoint challenge proof er_slot;
    bail_if ((proof_len =? 0) || (StepProofAccount.written_len proof_state <? proof_len))
      PortalError.StepProofChunkOutOfBounds ;;
    err_if (Z.of_nat (length (StepProofAccount.data proof_state)) <? proof_len) Panicked ;;
    store_step_proof proof
      (with_bytes (StepProofAccount.data proof_state) proof_len true
         (hashv [take (Z.to_nat proof_len) (StepProofAccount.data proof_state)]) proof_state)
  | _ => fail NotEnoughAccountKeys
  end.

Definition process_resolve_challenge (accounts : list Address) (args : ResolveChallenge.t) : prog unit :=
  let er_slot := ResolveChallenge.er_slot args in
  match accounts with
  | submitter :: session :: checkpoint :: challenge :: da_proof :: proof :: bond_recipient :: cursor :: _ =>
    bail_if (negb (is_signer cx submitter)) PortalError.Unauthorized ;;
    load_session cx session ;;
    checkpoint_state ← load_checkpoint cx session er_slot checkpoint;
    require_challenged checkpoint_state ;;
    challenge_state ← load_challenge cx checkpoint challenge;
    require_live_turn challenge_state (slot (clock cx)) ;;
    bail_if ((Challenge.turn challenge_state != ChallengeTurn.Prove)
             || negb (Challenge.end_step challenge_state =? u64_saturating_add (Challenge.start_step challenge_state) 1))
      PortalError.ChallengeTurnInvalid ;;
    da_state ← load_da_proof cx challenge checkpoint da_proof;
    bail_if (DataAvailabilityProof.status da_state != DataAvailabilityStatus.Revealed)
      PortalError.DataAvailabilityStateInvalid ;;
    cursor_state ← load_cursor cx session cursor;
    require_active_checkpoint cursor_state checkpoint er_slot ;;
    proof_state ← load_step_proof checkpoint proof;
    bail_if ((StepProofAccount.checkpoint proof_state != checkpoint) || (StepProofAccount.challenge proof_state != challenge))
      PortalError.StepProofCheckpointMismatch ;;
    bail_if (StepProofAccount.authority proof_state != Challenge.challenger challenge_state) PortalError.Unauthorized ;;
    bail_if (negb (StepProofAccount.sealed proof_state)) PortalError.StepProofNotSealed ;;
    let proof_len := StepProofAccount.written_len proof_state in
    bail_if ((proof_len =? 0) || (MAX_STEP_PROOF_BYTES <? proof_len)) PortalError.StepProofChunkOutOfBounds ;;
    bail_if (hashv [take (Z.to_nat proof_len) (StepProofAccount.data proof_state)] != StepProofAccount.proof_hash proof_state)
      PortalError.StepProofHashMismatch ;;
    bail_if (StepProofAccount.public_input_hash proof_state
             != step_proof_public_input_hash (program_id cx) session checkpoint checkpoint_state challenge_state proof_state)
      PortalError.StepProofPublicInputMismatch ;;
    match verify_step_proof ft (ResolveChallenge.verifier_mode args) checkpoint_state challenge_state proof_state with
    | Unavailable => fail (into PortalError.StepProofVerifierUnavailable)
    | Invalid =>
        bail_if (bond_recipient != Challenge.challenger challenge_state) PortalError.Unauthorized ;;
        checkpoint_state ← slash_checkpoint_bond checkpoint bond_recipient checkpoint_state;
        store_checkpoint checkpoint (with_resolution CheckpointStatus.Invalid checkpoint_state) ;;
        store_challenge challenge (with_outcome ChallengeStatus.ChallengerWon challenge_state) ;;
        store_cursor cursor (clear_active_checkpoint cursor_state)
    | Valid =>
        store_checkpoint checkpoint (with_resolution CheckpointStatus.Pending checkpoint_state) ;;
        store_challenge challenge (with_outcome ChallengeStatus.ValidatorWon challenge_state)
    end
  | _ => fail NotEnoughAccountKeys
  end.
End step_proofs.

(** ** What loading does *)

Abbreviation challenge_at w a h := (try_from_slice (data (acct w a)) = Some (h : Challenge.t)).
Abbreviation da_at w a d := (try_from_slice (data (acct w a)) = Some (d : DataAvailabilityProof.t)).
Abbreviation proof_at w a p := (try_from_slice (data (acct w a)) = Some (p : StepProofAccount.t)).

Section specs.
Context `{HostLaws} (cx : Ctx).

Abbreviation challenge_pda c := (find_challenge_pda (program_id cx) c).
Abbreviation da_pda c := (find_da_proof_pda (program_id cx) c).

#[global] Instance load_challenge_read_only c a : ReadOnly (load_challenge cx c a).
Proof. unfold load_challenge. destruct (find_challenge_pda _ _). apply _. Qed.
#[global] Instance load_da_proof_read_only h c a : ReadOnly (load_da_proof cx h c a).
Proof. unfold load_da_proof. destruct (find_da_proof_pda _ _). apply _. Qed.
#[global] Instance load_step_proof_read_only c a : ReadOnly (load_step_proof cx c a).
Proof. unfold load_step_proof. destruct (find_step_proof_pda _ _). apply _. Qed.
#[global] Instance next_turn_deadline_read_only s d : ReadOnly (next_turn_deadline s d).
Proof. unfold next_turn_deadline. apply _. Qed.
#[global] Instance require_live_turn_read_only h s : ReadOnly (require_live_turn h s).
Proof. unfold require_live_turn. apply _. Qed.
#[global] Instance require_challenged_read_only c : ReadOnly (require_challenged c).
Proof. unfold require_challenged. apply _. Qed.
#[global] Instance load_open_proof_read_only a s c h p er : ReadOnly (load_open_proof cx a s c h p er).
Proof. unfold load_open_proof. apply _. Qed.
#[global] Instance claim_read_only c h args : ReadOnly (claim c h args).
Proof. unfold claim. apply _. Qed.

Lemma load_challenge_Ok ck a w h w' :
  load_challenge cx ck a w = Ok (h, w') →
  a = (challenge_pda ck).1 ∧ owner (acct w a) = program_id cx ∧ challenge_at w a h ∧
  Challenge.is_valid h = true ∧ Challenge.checkpoint h = ck.
Proof.
  unfold load_challenge, owned_by. intros Hr. minv.
  match goal with X : load _ _ _ = Ok _ |- _ => apply load_Ok in X as [X _] end. by bprop.
Qed.

Lemma load_da_proof_Ok h ck a w d w' :
  load_da_proof cx h ck a w = Ok (d, w') →
  a = (da_pda h).1 ∧ owner (acct w a) = program_id cx ∧ da_at w a d ∧
  DataAvailabilityProof.is_valid d = true ∧ DataAvailabilityProof.challenge d = h ∧ DataAvailabilityProof.checkpoint d = ck.
Proof.
  unfold load_da_proof, owned_by. intros Hr. minv.
  match goal with X : load _ _ _ = Ok _ |- _ => apply load_Ok in X as [X _] end. by bprop.
Qed.

Lemma load_step_proof_Ok ck a w p w' :
  load_step_proof cx ck a w = Ok (p, w') →
  a = (find_step_proof_pda (program_id cx) ck).1 ∧ owner (acct w a) = program_id cx ∧ proof_at w a p ∧
  StepProofAccount.is_valid p = true ∧ StepProofAccount.checkpoint p = ck.
Proof.
  unfold load_step_proof, owned_by. intros Hr. minv.
  match goal with X : load _ _ _ = Ok _ |- _ => apply load_Ok in X as [X _] end. by bprop.
Qed.

Lemma next_turn_deadline_Ok s d w n w' :
  next_turn_deadline s d w = Ok (n, w') → n = Z.min (s + 750) d ∧ s + 750 ≤ umax 64.
Proof. unfold next_turn_deadline, CHALLENGE_TURN_WINDOW_SLOTS. intros Hr. minv. by bprop. Qed.

Lemma require_live_turn_Ok h s w u w' :
  require_live_turn h s w = Ok (u, w') →
  Challenge.status h = ChallengeStatus.Active ∧ s < Challenge.turn_deadline_l1_slot h ∧ s < Challenge.hard_deadline_l1_slot h.
Proof. unfold require_live_turn. intros Hr. minv. by bprop. Qed.

Lemma require_challenged_Ok c w u w' :
  require_challenged c w = Ok (u, w') → Checkpoint.status c = CheckpointStatus.Challenged.
Proof. unfold require_challenged. intros Hr. minv. by bprop. Qed.

(** The claim names the middle of the interval and a root on the trace, or the
    single step that is left. *)
Definition claimed (c : Checkpoint.t) (h : Challenge.t) (args : RespondChallenge.t) (m : Z) (r : Hash32)
    (t : ChallengeTurn.t) : Prop :=
  let lo := Challenge.start_step h in
  let width := Challenge.end_step h - lo in
  (width = 1 ∧ m = Challenge.midpoint_step h ∧ r = Challenge.midpoint_state_root h ∧ t = ChallengeTurn.Prove) ∨
  (2 ≤ width ∧ m = lo + width / 2 ∧ t = ChallengeTurn.Challenger ∧ r = RespondChallenge.claimed_state_root args ∧
   verify_trace_authentication_path c m r (RespondChallenge.trace_path_len args) (RespondChallenge.trace_path args) = Some true).

Lemma claim_Ok c h args w m r t w' : claim c h args w = Ok ((m, r, t), w') → claimed c h args m r t.
Proof.
  intros Hr. unfold claim, claimed in *. mstep Hr as width w1 Hw. mstep Hr as [] w1 H0w. bprop.
  destruct (_ =? 1) eqn:H1.
  - left. mstep Hr as [] w1 Hg. apply ret_Ok in Hr as [[= <- <- <-] _]. bprop. by split_and!.
  - right. mstep Hr as mid w1 Hm. mstep Hr as [] w1 Hc. mstep Hr as v w1 Hv. mstep Hr as [] w1 Hvt.
    apply ret_Ok in Hr as [[= <- <- <-] _]. bprop.
    split; [lia|]. split; [done|]. split; [done|]. split; [done|]. congruence.
Qed.

Lemma with_challenger_wf a s c : wf borsh c → is_key a → is_u64 s → wf borsh (with_challenger a s c).
Proof. intros (?&?&?&?&?&?&?&?&?&?&?&?&?&?&?&?&?&?&?&?&?) ??. wf_fields. Qed.
Lemma with_resolution_wf st c : wf borsh c → wf borsh (with_resolution st c).
Proof. intros (?&?&?&?&?&?&?&?&?&?&?&?&?&?&?&?&?&?&?&?&?). wf_fields. Qed.
Lemma with_outcome_wf st h : wf borsh h → wf borsh (with_outcome st h).
Proof. intros (?&?&?&?&?&?&?&?&?&?&?&?&?&?&?&?&?). wf_fields. Qed.
Lemma with_round_wf a b m ra rb rm t d n h :
  wf borsh h → is_u64 a → is_u64 b → is_u64 m → is_key ra → is_key rb → is_key rm → is_u64 d → in_width 32 n →
  wf borsh (with_round a b m ra rb rm t d n h).
Proof. intros (?&?&?&?&?&?&?&?&?&?&?&?&?&?&?&?&?) ????????. wf_fields. Qed.
Lemma with_reveal_wf p i s d : wf borsh d → is_key p → is_key i → is_u64 s → wf borsh (with_reveal p i s d).
Proof. intros (?&?&?&?&?&?&?&?&?) ???. wf_fields. Qed.
Lemma with_default_wf d : wf borsh d → wf borsh (with_default d).
Proof. intros (?&?&?&?&?&?&?&?&?). wf_fields. Qed.

(** ** Opening *)

Lemma prepare_challenge_Ok challenger ck a bump w u w' :
  challenger ≠ a → prepare_challenge cx challenger ck a bump 255 w = Ok (u, w') →
  (data (acct w a) = [] ∨ ∃ h, challenge_at w a h ∧ Challenge.status h ≠ ChallengeStatus.Active) ∧
  length (data (acct w' a)) = 255%nat ∧ owner (acct w' a) = program_id cx ∧ kept_but a w w' ∧ (∀ b, b ≠ challenger → b ≠ a → acct w' b = acct w b).
Proof.
  intros Hne Hr. unfold prepare_challenge in Hr. mstep Hr as x w1 Hx.
  destruct (is_data_empty _) eqn:He; unfold is_data_empty in He; bprop.
  - mstep Hr as n w1 Hn. apply initialize_created in Hr as (Hi & Hp & Hf & Hd & _); [|done].
    split; [by left|]. split; [rewrite Hi; apply length_zeros|]. split; [by rewrite Hi|]. split; [|done].
    intros b ?. destruct (decide (b = challenger)) as [->|]; [by rewrite Hp|by rewrite Hf].
  - mstep Hr as h w1 Hh. apply load_challenge_Ok in Hh as (_ & Ho & Hh & _). minv. bprop.
    split; [right; eauto|]. split; [by apply (sized (n:=255)) in Hh|]. split; [done|]. by split.
Qed.

Lemma prepare_da_proof_Ok challenger ck h a bump w u w' :
  challenger ≠ a → prepare_da_proof cx challenger ck h a bump 178 w = Ok (u, w') →
  (data (acct w a) = [] ∨ ∃ d, da_at w a d) ∧
  length (data (acct w' a)) = 178%nat ∧ owner (acct w' a) = program_id cx ∧ kept_but a w w' ∧ (∀ b, b ≠ challenger → b ≠ a → acct w' b = acct w b).
Proof.
  intros Hne Hr. unfold prepare_da_proof in Hr. mstep Hr as x w1 Hx.
  destruct (is_data_empty _) eqn:He; unfold is_data_empty in He; bprop.
  - mstep Hr as n w1 Hn. apply initialize_created in Hr as (Hi & Hp & Hf & Hd & _); [|done].
    split; [by left|]. split; [rewrite Hi; apply length_zeros|]. split; [by rewrite Hi|]. split; [|done].
    intros b ?. destruct (decide (b = challenger)) as [->|]; [by rewrite Hp|by rewrite Hf].
  - mstep Hr as d w1 Hd. apply load_da_proof_Ok in Hd as (_ & Ho & Hd & _). minv.
    split; [right; eauto|]. split; [by apply (sized (n:=178)) in Hd|]. split; [done|]. by split.
Qed.

(** Three writes to accounts of the three sizes. *)
Lemma store_three_Ok a b c h d k w u w' :
  length (data (acct w a)) = 255%nat → length (data (acct w b)) = 178%nat → length (data (acct w c)) = 380%nat →
  wf borsh h → wf borsh d → wf borsh k →
  (store_challenge a h ;; store_da_proof b d ;; store_checkpoint c k) w = Ok (u, w') →
  challenge_at w' a h ∧ da_at w' b d ∧ checkpoint_at w' c k ∧
  (∀ x, lamports (acct w' x) = lamports (acct w x) ∧ owner (acct w' x) = owner (acct w x)) ∧
  (∀ x, x ∉ [a; b; c] → acct w' x = acct w x).
Proof.
  intros Ha Hb Hc Hh Hd Hk Hr. assert (Hab : a ≠ b) by (intros ->; by rewrite Ha in Hb).
  assert (Hac : a ≠ c) by (intros ->; by rewrite Ha in Hc). assert (Hbc : b ≠ c) by (intros ->; by rewrite Hb in Hc).
  unfold store_challenge, store_da_proof, store_checkpoint in Hr.
  mstep Hr as [] w1 G1. apply (store_sized_Ok (n:=255)) in G1 as ->; [|done..].
  mstep Hr as [] w2 G2. apply (store_sized_Ok (n:=178)) in G2 as ->; [|by acct_simpl|done].
  apply (store_sized_Ok (n:=380)) in Hr as ->; [|by acct_simpl|done]. split_and!.
  - acct_simpl. cbn [data with_data]. by apply try_from_slice_enc.
  - acct_simpl. cbn [data with_data]. by apply try_from_slice_enc.
  - acct_simpl. cbn [data with_data]. by apply try_from_slice_enc.
  - intros x. rewrite !acct_put. by repeat case_decide; subst.
  - intros x Hx. nodup. by acct_simpl.
Qed.

Lemma opened_challenge_wf ck ch s c sl dl bump :
  is_key ck → is_key ch → wf borsh s → wf borsh c → is_u64 sl → is_u64 dl → is_u8 bump →
  wf borsh (opened_challenge ck ch s c sl dl bump).
Proof.
  intros ?? (?&?&?&?&?&?&?&?&?&?&?&?&?&?&?&?&?) (?&?&?&?&?&?&?&?&?&?&?&?&?&?&?&?&?&?&?&?&?) ???.
  assert (is_u64 0) by (unfold in_width, umax; lia). assert (in_width 32 0) by (unfold in_width, umax; lia).
  assert (length zero32 = 32%nat) by done. assert (length Challenge.DISCRIMINATOR = 8%nat) by done. wf_fields.
Qed.

Lemma missing_da_wf h ck c bump : is_key h → is_key ck → wf borsh c → is_u8 bump → wf borsh (missing_da h ck c bump).
Proof.
  intros ?? (?&?&?&?&?&?&?&?&?&?&?&?&?&?&?&?&?&?&?&?&?) ?.
  assert (is_u64 0) by (unfold in_width, umax; lia). assert (length zero32 = 32%nat) by done.
  assert (length DataAvailabilityProof.DISCRIMINATOR = 8%nat) by done. wf_fields.
Qed.

(** Opening passes its guards, then makes the two accounts, then writes. *)
Lemma process_open_steps challenger session checkpoint challenge da_proof sys rest args w u w' :
  is_key challenger → is_u64 (slot (clock cx)) →
  process_open_challenge cx (challenger :: session :: checkpoint :: challenge :: da_proof :: sys :: rest) args w
    = Ok (u, w') →
  let now := slot (clock cx) in
  ∃ s c w1 w2, session_at w session s ∧ load_checkpoint cx session (OpenChallenge.er_slot args) checkpoint w = Ok (c, w) ∧
    Checkpoint.status c = CheckpointStatus.Pending ∧ Checkpoint.challenge_resolved c = false ∧
    now < Checkpoint.challenge_deadline_l1_slot c ∧ now + 750 ≤ umax 64 ∧
    challenge = (challenge_pda checkpoint).1 ∧ da_proof = (da_pda challenge).1 ∧
    let h := opened_challenge checkpoint challenger s c now
      (Z.min (now + 750) (Checkpoint.challenge_deadline_l1_slot c)) (challenge_pda checkpoint).2 in
    let d := missing_da challenge checkpoint c (da_pda challenge).2 in
    wf borsh h ∧ wf borsh d ∧
    prepare_challenge cx challenger checkpoint challenge (challenge_pda checkpoint).2 255 w = Ok (tt, w1) ∧
    prepare_da_proof cx challenger checkpoint challenge da_proof (da_pda challenge).2 178 w1 = Ok (tt, w2) ∧
    (store_challenge challenge h ;; store_da_proof da_proof d ;;
     store_checkpoint checkpoint (with_challenger challenger now c)) w2 = Ok (u, w').
Proof.
  intros Hchk Hnow Hr. cbv zeta. unfold process_open_challenge in Hr. mstep Hr as [] w1 Hsig.
  mstep Hr as s w1 Hs. apply load_session_Ok in Hs as (_ & _ & Hs).
  apply bind_Ok in Hr as (c & w1 & Hld & Hr). pose proof (read_only _ _ _ Hld). subst w1.
  mstep Hr as [] w1 Hst. cbv zeta in Hr. mstep Hr as [] w1 Hdl.
  pose proof (find_bump_range [Challenge.SEED_PREFIX; checkpoint] (program_id cx)) as Hb1.
  pose proof (find_bump_range [DataAvailabilityProof.SEED_PREFIX; challenge] (program_id cx)) as Hb2.
  pose proof (find_address_length [Challenge.SEED_PREFIX; checkpoint] (program_id cx)) as Hk1.
  unfold find_challenge_pda, find_da_proof_pda in *.
  destruct (find_program_address [Challenge.SEED_PREFIX; checkpoint] (program_id cx)) as [hk hb]. cbn [fst snd] in *.
  mstep Hr as [] w1 Hpda. mstep Hr as dl w1 Hn. apply next_turn_deadline_Ok in Hn as [-> Hn].
  apply bind_Ok in Hr as ([] & w1 & Hp1 & Hr).
  destruct (find_program_address [DataAvailabilityProof.SEED_PREFIX; challenge] (program_id cx)) as [dk db]. cbn [fst snd] in *.
  mstep Hr as [] w2 Hpda2. apply bind_Ok in Hr as ([] & w2 & Hp2 & Hr). bprop.
  pose proof (load_checkpoint_Ok _ _ _ _ _ _ _ Hld) as (Hcp & Hco & Hc & _).
  destruct (session_at_wf _ _ _ Hs) as [Hsw _]. pose proof (decoded_wf _ _ Hc) as Hcw.
  assert (Hckk : is_key checkpoint) by (rewrite Hcp; apply find_address_length).
  assert (Hdlw : is_u64 (Checkpoint.challenge_deadline_l1_slot c)) by (by destruct Hcw as (?&?&?&?&?&?&?&?&?&?&?&?&?&?&?)).
  assert (Hhw : wf borsh (opened_challenge checkpoint challenger s c (slot (clock cx))
    (Z.min (slot (clock cx) + 750) (Checkpoint.challenge_deadline_l1_slot c)) hb)).
  { apply opened_challenge_wf; try done. unfold in_width in *. lia. }
  assert (Hdw : wf borsh (missing_da challenge checkpoint c db)) by (apply missing_da_wf; try done; by subst challenge).
  unfold object_length in *. rewrite (codec_size (n:=255)) in Hp1 by done. rewrite (codec_size (n:=178)) in Hp2 by done.
  exists s, c, w1, w2. split; [done|]. split; [done|]. by split_and!.
Qed.

Lemma process_open_challenge_Ok challenger session checkpoint challenge da_proof sys rest args w u w' :
  challenger ∉ [checkpoint; challenge; da_proof] → is_key challenger → is_u64 (slot (clock cx)) →
  process_open_challenge cx (challenger :: session :: checkpoint :: challenge :: da_proof :: sys :: rest) args w
    = Ok (u, w') →
  let now := slot (clock cx) in
  ∃ s c, session_at w session s ∧ load_checkpoint cx session (OpenChallenge.er_slot args) checkpoint w = Ok (c, w) ∧
    Checkpoint.status c = CheckpointStatus.Pending ∧ Checkpoint.challenge_resolved c = false ∧
    now < Checkpoint.challenge_deadline_l1_slot c ∧ now + 750 ≤ umax 64 ∧
    challenge = (challenge_pda checkpoint).1 ∧ da_proof = (da_pda challenge).1 ∧
    (data (acct w challenge) = [] ∨ ∃ h, challenge_at w challenge h ∧ Challenge.status h ≠ ChallengeStatus.Active) ∧
    (data (acct w da_proof) = [] ∨ ∃ d, da_at w da_proof d) ∧
    challenge_at w' challenge (opened_challenge checkpoint challenger s c now
      (Z.min (now + 750) (Checkpoint.challenge_deadline_l1_slot c)) (challenge_pda checkpoint).2) ∧
    da_at w' da_proof (missing_da challenge checkpoint c (da_pda challenge).2) ∧
    checkpoint_at w' checkpoint (with_challenger challenger now c) ∧
    owner (acct w' challenge) = program_id cx ∧ owner (acct w' da_proof) = program_id cx ∧
    owner (acct w' checkpoint) = owner (acct w checkpoint) ∧ lamports (acct w' checkpoint) = lamports (acct w checkpoint) ∧
    (∀ b, b ∉ [checkpoint; challenge; da_proof] → data (acct w' b) = data (acct w b) ∧ owner (acct w' b) = owner (acct w b)) ∧
    (∀ b, b ∉ [challenger; checkpoint; challenge; da_proof] → acct w' b = acct w b).
Proof.
  intros Hch Hchk Hnow Hr. apply process_open_steps in Hr as (s & c & w1 & w2 & Hs & Hld & G1 & G2 & G3 & G4 & G5 & G6 & Hhw & Hdw
    & Hp1 & Hp2 & Hr); [|done..]. cbv zeta in *. nodup.
  apply prepare_challenge_Ok in Hp1 as (Hhd & Hl1 & Hho & Hhk & Hhf); [|done].
  apply prepare_da_proof_Ok in Hp2 as (Hdd & Hl2 & Hdo & Hdk & Hdf); [|done].
  pose proof (load_checkpoint_Ok _ _ _ _ _ _ _ Hld) as (Hcp & Hco & Hc & _). pose proof (sized (n:=380) _ _ Hc) as Hl3.
  assert (Hne1 : checkpoint ≠ challenge).
  { intros <-. destruct Hhd as [Hd|(h & Hh & _)]; [by rewrite Hd in Hl3|]. apply (sized (n:=255)) in Hh. by rewrite Hl3 in Hh. }
  assert (Hck1 : data (acct w1 checkpoint) = data (acct w checkpoint)) by (by apply Hhk).
  assert (Hne2 : checkpoint ≠ da_proof).
  { intros <-. rewrite Hck1 in Hdd. destruct Hdd as [Hd|[d Hd]]; [by rewrite Hd in Hl3|]. apply (sized (n:=178)) in Hd. by rewrite Hl3 in Hd. }
  assert (Hne3 : challenge ≠ da_proof).
  { intros <-. destruct Hdd as [Hd|[d Hd]]; [by rewrite Hd in Hl1|]. apply (sized (n:=178)) in Hd. by rewrite Hl1 in Hd. }
  apply store_three_Ok in Hr as (Hh' & Hd' & Hc' & Hlo & Hoth); [|by rewrite (proj1 (Hdk challenge Hne3))|done
    |by rewrite (proj1 (Hdk checkpoint Hne2)), Hck1|done|done|].
  2: { apply with_challenger_wf; [by eapply decoded_wf|done|done]. }
  assert (Hda1 : data (acct w1 da_proof) = data (acct w da_proof)) by (apply Hhk; congruence). rewrite Hda1 in Hdd.
  exists s, c. do 10 (split; [done|]). do 3 (split; [done|]).
  split; [by rewrite (proj2 (Hlo _)), (proj2 (Hdk challenge Hne3))|]. split; [by rewrite (proj2 (Hlo _))|].
  split; [by rewrite (proj2 (Hlo _)), Hdf, Hhf by congruence|]. split; [by rewrite (proj1 (Hlo _)), Hdf, Hhf by congruence|].
  split; intros b Hb; nodup.
  - rewrite Hoth by (by rewrite !not_elem_of_cons; auto using not_elem_of_nil).
    destruct (Hdk b) as [E1 E2], (Hhk b) as [E3 E4]; [done..|]. by rewrite E1, E2, E3, E4.
  - rewrite Hoth, Hdf, Hhf; try done. rewrite !not_elem_of_cons. auto using not_elem_of_nil.
Qed.

(** ** Turns *)

Lemma with_claim_wf c h args m r t dl :
  wf borsh h → is_key (RespondChallenge.claimed_state_root args) → is_u64 dl → claimed c h args m r t →
  wf borsh (with_claim m r t dl h).
Proof.
  intros Hh Hr Hdl Hc. pose proof Hh as (_&_&_&_&_&_&_&Hlo&Hhi&Hm&Hra&Hrb&Hrm&_&_&Hn&_). unfold with_claim.
  apply with_round_wf; try done.
  - destruct Hc as [(_ & -> & _)|(? & -> & _)]; [done|].
    change (in_width 64 (Challenge.start_step h)) in Hlo. change (in_width 64 (Challenge.end_step h)) in Hhi.
    unfold in_width in *. assert (0 ≤ (Challenge.end_step h - Challenge.start_step h) / 2 ≤ Challenge.end_step h - Challenge.start_step h).
    { split; [apply Z.div_pos; lia|]. apply Z.div_le_upper_bound; lia. }
    lia.
  - destruct Hc as [(_ & _ & -> & _)|(_ & _ & _ & -> & _)]; done.
Qed.

Lemma with_half_wf up dl n h : wf borsh h → is_u64 dl → in_width 32 n → wf borsh (with_half up dl n h).
Proof.
  intros Hh Hdl Hn. pose proof Hh as (_&_&_&_&_&_&_&Hlo&Hhi&Hm&Hra&Hrb&Hrm&_&_&_&_).
  assert (is_u64 0) by (unfold in_width, umax; lia). unfold with_half. destruct up; by apply with_round_wf.
Qed.

(** A challenged checkpoint and its live challenge. *)
Record disputed (w : World) (session : Address) (er : Z) (checkpoint challenge : Address) (c : Checkpoint.t) (h : Challenge.t) :
    Prop := {
  dp_checkpoint : load_checkpoint cx session er checkpoint w = Ok (c, w);
  dp_status : Checkpoint.status c = CheckpointStatus.Challenged;
  dp_challenge : load_challenge cx checkpoint challenge w = Ok (h, w);
  dp_active : Challenge.status h = ChallengeStatus.Active
}.

(** The move is in time. *)
Definition in_time (h : Challenge.t) : Prop :=
  slot (clock cx) < Challenge.turn_deadline_l1_slot h ∧ slot (clock cx) < Challenge.hard_deadline_l1_slot h.

(** The next deadline. *)
Definition next_deadline (h : Challenge.t) : Z := Z.min (slot (clock cx) + 750) (Challenge.hard_deadline_l1_slot h).

Lemma store_challenge_Ok a h0 h w u w' :
  challenge_at w a h0 → wf borsh h → store_challenge a h w = Ok (u, w') →
  challenge_at w' a h ∧ (∀ x, lamports (acct w' x) = lamports (acct w x) ∧ owner (acct w' x) = owner (acct w x)) ∧
  (∀ x, x ≠ a → acct w' x = acct w x).
Proof.
  intros Ha Hh Hr. apply (store_loaded_Ok (n:=255) _ h0) in Hr as ->; [|done..]. split_and!.
  - acct_simpl. cbn [data with_data]. by apply try_from_slice_enc.
  - intros x. rewrite acct_put. by case_decide; subst.
  - intros x ?. by acct_simpl.
Qed.

(** What the first response leaves of the data availability proof. *)
Definition revealed (p i : Hash32) (d : DataAvailabilityProof.t) : DataAvailabilityProof.t :=
  if DataAvailabilityProof.status d == DataAvailabilityStatus.Missing then with_reveal p i (slot (clock cx)) d else d.

Lemma reveal_Ok da p i d w u w' :
  da_at w da d → is_key p → is_key i → is_u64 (slot (clock cx)) → reveal cx da p i d w = Ok (u, w') →
  da_at w' da (revealed p i d) ∧ DataAvailabilityProof.status (revealed p i d) = DataAvailabilityStatus.Revealed ∧
  DataAvailabilityProof.payload_root (revealed p i d) = p ∧
  (DataAvailabilityProof.status d = DataAvailabilityStatus.Missing → p = DataAvailabilityProof.commitment d) ∧
  (∀ x, lamports (acct w' x) = lamports (acct w x) ∧ owner (acct w' x) = owner (acct w x)) ∧
  (∀ x, x ≠ da → acct w' x = acct w x).
Proof.
  intros Hd Hp Hi Hnow Hr. unfold revealed, reveal, store_da_proof in *.
  destruct (_ == DataAvailabilityStatus.Missing) eqn:Hm; bprop.
  - mstep Hr as [] w1 Hg. bprop.
    assert (Hwf : wf borsh (with_reveal p i (slot (clock cx)) d)) by (apply with_reveal_wf; try done; by eapply decoded_wf).
    apply (store_loaded_Ok (n:=178) _ d) in Hr as ->; [|done..]. split_and!; try done.
    + acct_simpl. cbn [data with_data]. by apply try_from_slice_enc.
    + intros x. rewrite acct_put. by case_decide; subst.
    + intros x ?. by acct_simpl.
  - destruct (_ != DataAvailabilityStatus.Revealed) eqn:Hv; [by apply fail_Ok in Hr|]. minv. bprop. split_and!; try done; congruence.
Qed.

Lemma process_respond_challenge_Ok validator session checkpoint challenge da_proof rest args w u w' :
  wf borsh args → is_u64 (slot (clock cx)) →
  process_respond_challenge cx (validator :: session :: checkpoint :: challenge :: da_proof :: rest) args w = Ok (u, w') →
  ∃ s c h d m r t, session_at w session s ∧ is_signer cx validator = true ∧ validator = Session.validator s ∧
    disputed w session (RespondChallenge.er_slot args) checkpoint challenge c h ∧ in_time h ∧
    Challenge.turn h = ChallengeTurn.Respondent ∧ validator = Challenge.respondent h ∧
    load_da_proof cx challenge checkpoint da_proof w = Ok (d, w) ∧ claimed c h args m r t ∧
    let p := RespondChallenge.da_payload_root args in
    let d' := revealed p (RespondChallenge.da_inclusion_proof_hash args) d in
    da_at w' da_proof d' ∧ DataAvailabilityProof.status d' = DataAvailabilityStatus.Revealed ∧
    (DataAvailabilityProof.status d = DataAvailabilityStatus.Missing → p = DataAvailabilityProof.commitment d) ∧
    challenge_at w' challenge (with_claim m r t (next_deadline h) h) ∧
    (∀ x, lamports (acct w' x) = lamports (acct w x) ∧ owner (acct w' x) = owner (acct w x)) ∧
    (∀ x, x ∉ [challenge; da_proof] → acct w' x = acct w x).
Proof.
  intros Hargs Hnow Hr. unfold process_respond_challenge in Hr. mstep Hr as [] w1 Hsig.
  mstep Hr as s w1 Hs. apply load_session_Ok in Hs as (_ & _ & Hs). mstep Hr as [] w1 Hval.
  apply bind_Ok in Hr as (c & w1 & Hc & Hr). pose proof (read_only _ _ _ Hc). subst w1.
  mstep Hr as [] w1 Hst. apply require_challenged_Ok in Hst.
  apply bind_Ok in Hr as (h & w1 & Hh & Hr). pose proof (read_only _ _ _ Hh). subst w1. cbv zeta in Hr.
  mstep Hr as [] w1 Hlive. apply require_live_turn_Ok in Hlive as (Hact & Hlive). mstep Hr as [] w1 Hturn.
  apply bind_Ok in Hr as (d & w1 & Hd & Hr). pose proof (read_only _ _ _ Hd). subst w1.
  apply bind_Ok in Hr as ([] & w1 & Hrev & Hr). apply bind_Ok in Hr as ([[m r] t] & w2 & Hcl & Hr).
  pose proof (read_only _ _ _ Hcl). subst w2. mstep Hr as dl w2 Hdl. apply next_turn_deadline_Ok in Hdl as [-> Hmax]. bprop.
  pose proof (load_challenge_Ok _ _ _ _ _ Hh) as (_ & _ & Hhd & _). pose proof (load_da_proof_Ok _ _ _ _ _ _ Hd) as (_ & _ & Hdd & _).
  apply claim_Ok in Hcl. assert (Hne : challenge ≠ da_proof).
  { intros <-. apply (sized (n:=255)) in Hhd. apply (sized (n:=178)) in Hdd. by rewrite Hhd in Hdd. }
  apply reveal_Ok in Hrev as (Hd' & Hds & _ & Hdm & Hlo1 & Hf1); [|done|apply Hargs..|done].
  assert (Hwf : wf borsh (with_claim m r t (Z.min (slot (clock cx) + 750) (Challenge.hard_deadline_l1_slot h)) h)).
  { apply with_claim_wf with c args; try done; [by eapply decoded_wf|by destruct Hargs as (?&?&?&?)|].
    pose proof (decoded_wf _ _ Hhd) as (_&_&_&_&_&Hhw&_). cbn in Hhw. unfold in_width in *. lia. }
  eapply store_challenge_Ok in Hr as (Hh' & Hlo2 & Hf2); [|by rewrite (Hf1 challenge Hne)|done].
  exists s, c, h, d, m, r, t. do 3 (split; [done|]). split; [by split|]. do 5 (split; [done|]). cbv zeta.
  split; [by rewrite Hf2 by congruence|]. do 3 (split; [done|]). split; intros x; [|intros Hx; nodup; by rewrite Hf2, Hf1].
  by rewrite (proj1 (Hlo2 x)), (proj2 (Hlo2 x)), (proj1 (Hlo1 x)), (proj2 (Hlo1 x)).
Qed.

Lemma process_bisect_challenge_Ok challenger session checkpoint challenge rest args w u w' :
  is_u64 (slot (clock cx)) →
  process_bisect_challenge cx (challenger :: session :: checkpoint :: challenge :: rest) args w = Ok (u, w') →
  ∃ c h, is_signer cx challenger = true ∧
    disputed w session (BisectChallenge.er_slot args) checkpoint challenge c h ∧ in_time h ∧
    Challenge.turn h = ChallengeTurn.Challenger ∧ challenger = Challenge.challenger h ∧
    Challenge.start_step h < Challenge.midpoint_step h < Challenge.end_step h ∧
    Challenge.rounds h + 1 ≤ umax 32 ∧
    challenge_at w' challenge (with_half (BisectChallenge.dispute_upper args) (next_deadline h) (Challenge.rounds h + 1) h) ∧
    (∀ x, lamports (acct w' x) = lamports (acct w x) ∧ owner (acct w' x) = owner (acct w x)) ∧
    (∀ x, x ≠ challenge → acct w' x = acct w x).
Proof.
  intros Hnow Hr. unfold process_bisect_challenge in Hr. mstep Hr as [] w1 Hsig. mstep Hr as s w1 Hs.
  apply load_session_Ok in Hs as (_ & _ & Hs).
  apply bind_Ok in Hr as (c & w1 & Hc & Hr). pose proof (read_only _ _ _ Hc). subst w1.
  mstep Hr as [] w1 Hst. apply require_challenged_Ok in Hst.
  apply bind_Ok in Hr as (h & w1 & Hh & Hr). pose proof (read_only _ _ _ Hh). subst w1. cbv zeta in Hr.
  mstep Hr as [] w1 Hlive. apply require_live_turn_Ok in Hlive as (Hact & Hlive). mstep Hr as [] w1 Hturn.
  mstep Hr as [] w1 Hmid. mstep Hr as n w1 Hn. mstep Hr as dl w1 Hdl. apply next_turn_deadline_Ok in Hdl as [-> Hmax]. bprop.
  pose proof (load_challenge_Ok _ _ _ _ _ Hh) as (_ & _ & Hhd & _). pose proof (decoded_wf _ _ Hhd) as Hhw.
  eapply store_challenge_Ok in Hr as (Hh' & Hlo & Hf); [|done|].
  - exists c, h. split; [done|]. split; [by split|]. by split_and!.
  - apply with_half_wf; [done|unfold in_width in *|]; destruct Hhw as (_&_&_&_&_&Hx&_&_&_&_&_&_&_&_&_&Hy&_); cbn in Hx, Hy.
    + change (in_width 64 (Challenge.hard_deadline_l1_slot h)) in Hx. unfold in_width in Hx. lia.
    + change (in_width 32 (Challenge.rounds h)) in Hy. unfold in_width in *. lia.
Qed.

(** ** Outcomes *)

(** The checkpoint, challenge and cursor of a dispute that has an outcome. *)
Record contest (w : World) (session : Address) (er : Z) (checkpoint challenge cursor : Address) (c : Checkpoint.t)
    (h : Challenge.t) (k : CheckpointCursor.t) : Prop := {
  ct_disputed : disputed w session er checkpoint challenge c h;
  ct_cursor : load_cursor cx session cursor w = Ok (k, w);
  ct_active : CheckpointCursor.active_checkpoint k = checkpoint;
  ct_slot : CheckpointCursor.active_er_slot k = er
}.

(** The challenger won: the bond is the challenger's, the session may propose again. *)
Record challenger_won (w w' : World) (checkpoint challenge cursor : Address) (c : Checkpoint.t) (h : Challenge.t)
    (k : CheckpointCursor.t) : Prop := {
  cw_locked : Checkpoint.bond_status c = CheckpointBondStatus.Locked;
  cw_checkpoint : checkpoint_at w' checkpoint
    (with_resolution CheckpointStatus.Invalid (with_bond_status CheckpointBondStatus.Slashed c));
  cw_challenge : challenge_at w' challenge (with_outcome ChallengeStatus.ChallengerWon h);
  cw_cursor : cursor_at w' cursor (clear_active_checkpoint k);
  cw_paid : ∀ x, lamports (acct w' x)
      = lamports (acct (moved checkpoint (Challenge.challenger h) (Checkpoint.bond_lamports c) w) x) ∧
    owner (acct w' x) = owner (acct w x)
}.

(** The respondent won: the checkpoint is pending again and cannot be challenged. *)
Record respondent_won (w w' : World) (checkpoint challenge : Address) (c : Checkpoint.t) (h : Challenge.t) : Prop := {
  rw_checkpoint : checkpoint_at w' checkpoint (with_resolution CheckpointStatus.Pending c);
  rw_challenge : challenge_at w' challenge (with_outcome ChallengeStatus.ValidatorWon h);
  rw_kept : ∀ x, lamports (acct w' x) = lamports (acct w x) ∧ owner (acct w' x) = owner (acct w x);
  rw_frame : ∀ x, x ∉ [checkpoint; challenge] → acct w' x = acct w x
}.

Lemma contest_sizes w session er checkpoint challenge cursor c h k :
  contest w session er checkpoint challenge cursor c h k →
  checkpoint_at w checkpoint c ∧ challenge_at w challenge h ∧ cursor_at w cursor k ∧
  checkpoint ≠ challenge ∧ checkpoint ≠ cursor ∧ challenge ≠ cursor.
Proof.
  intros [[Hc _ Hh _] Hk _ _]. apply load_checkpoint_Ok in Hc as (_ & _ & Hc & _).
  apply load_challenge_Ok in Hh as (_ & _ & Hh & _). apply load_cursor_Ok in Hk as (_ & _ & Hk & _).
  pose proof (sized (n:=380) _ _ Hc). pose proof (sized (n:=255) _ _ Hh). pose proof (sized (n:=153) _ _ Hk).
  split_and!; try done; intros ->; congruence.
Qed.

Lemma moved_lamports a b n w0 w x :
  (∀ y, lamports (acct w0 y) = lamports (acct w y)) → lamports (acct (moved a b n w0) x) = lamports (acct (moved a b n w) x).
Proof. intros Hl. unfold moved. rewrite !acct_put. repeat case_decide; subst; simpl; rewrite ?Hl; done. Qed.

(** The bond is paid and the three accounts are written; [w0] may differ from
    [w] in the data of the account [da]. *)
Lemma challenger_won_intro w session er checkpoint challenge cursor c h k da w0 c' w1 w2 :
  contest w session er checkpoint challenge cursor c h k →
  (∀ x, lamports (acct w0 x) = lamports (acct w x) ∧ owner (acct w0 x) = owner (acct w x)) →
  (∀ x, x ≠ da → acct w0 x = acct w x) →
  slash_checkpoint_bond checkpoint (Challenge.challenger h) c w0 = Ok (c', w1) →
  (∀ x, acct w2 x =
     if decide (x = checkpoint) then with_data (enc borsh (with_resolution CheckpointStatus.Invalid c')) (acct w1 x)
     else if decide (x = challenge) then with_data (enc borsh (with_outcome ChallengeStatus.ChallengerWon h)) (acct w1 x)
     else if decide (x = cursor) then with_data (enc borsh (clear_active_checkpoint k)) (acct w1 x)
     else acct w1 x) →
  challenger_won w w2 checkpoint challenge cursor c h k ∧
  (∀ x, x ∉ [checkpoint; challenge; cursor; da; Challenge.challenger h] → acct w2 x = acct w x).
Proof.
  intros (Hc & Hh & Hk & N1 & N2 & N3)%contest_sizes Hlo Hda Hsl Hw2.
  unfold slash_checkpoint_bond in Hsl. apply resolve_checkpoint_bond_Ok in Hsl as (-> & Hl & Hw1 & _).
  apply decoded_wf in Hc, Hh, Hk. split; [split; [done|..]|].
  - rewrite Hw2, decide_True by done. by apply try_from_slice_enc, with_resolution_wf, with_bond_status_wf.
  - rewrite Hw2, decide_False, decide_True by congruence. by apply try_from_slice_enc, with_outcome_wf.
  - rewrite Hw2, !decide_False, decide_True by congruence. by apply try_from_slice_enc, clear_active_checkpoint_wf.
  - intros x. destruct (moved_fields checkpoint (Challenge.challenger h) (Checkpoint.bond_lamports c) w0 x) as [_ Ho].
    rewrite (proj2 (Hlo x)), <- Hw1 in Ho. rewrite <- (moved_lamports _ _ _ w0), <- Hw1, Hw2 by apply Hlo.
    by repeat case_decide.
  - intros x Hx. nodup. rewrite Hw2, !decide_False, Hw1 by done. rewrite acct_moved_other by done. by apply Hda.
Qed.

(** Three writes to the accounts of a dispute, in two orders. *)
Lemma store_outcome_Ok checkpoint challenge cursor c h k w u w' :
  length (data (acct w checkpoint)) = 380%nat → length (data (acct w challenge)) = 255%nat →
  length (data (acct w cursor)) = 153%nat → wf borsh c → wf borsh h → wf borsh k →
  ((store_cursor cursor k ;; store_checkpoint checkpoint c ;; store_challenge challenge h) w = Ok (u, w') ∨
   (store_checkpoint checkpoint c ;; store_challenge challenge h ;; store_cursor cursor k) w = Ok (u, w')) →
  ∀ x, acct w' x = if decide (x = checkpoint) then with_data (enc borsh c) (acct w x)
    else if decide (x = challenge) then with_data (enc borsh h) (acct w x)
    else if decide (x = cursor) then with_data (enc borsh k) (acct w x) else acct w x.
Proof.
  intros Ha Hb Hc Hwc Hwh Hwk Hr x. unfold store_challenge, store_cursor, store_checkpoint in Hr.
  assert (checkpoint ≠ challenge) by (intros ->; by rewrite Ha in Hb).
  assert (checkpoint ≠ cursor) by (intros ->; by rewrite Ha in Hc).
  assert (challenge ≠ cursor) by (intros ->; by rewrite Hb in Hc).
  destruct Hr as [Hr|Hr]; mstep Hr as [] w1 G1; mstep Hr as [] w2 G2.
  - apply (store_sized_Ok (n:=153)) in G1 as ->; [|done..].
    apply (store_sized_Ok (n:=380)) in G2 as ->; [|by acct_simpl|done].
    apply (store_sized_Ok (n:=255)) in Hr as ->; [|by acct_simpl|done].
    rewrite !acct_put. repeat case_decide; subst; try done; exfalso; auto.
  - apply (store_sized_Ok (n:=380)) in G1 as ->; [|done..].
    apply (store_sized_Ok (n:=255)) in G2 as ->; [|by acct_simpl|done].
    apply (store_sized_Ok (n:=153)) in Hr as ->; [|by acct_simpl|done].
    rewrite !acct_put. repeat case_decide; subst; try done; exfalso; auto.
Qed.

Lemma respondent_won_intro w session er checkpoint challenge c h u w' :
  disputed w session er checkpoint challenge c h →
  (store_checkpoint checkpoint (with_resolution CheckpointStatus.Pending c) ;;
   store_challenge challenge (with_outcome ChallengeStatus.ValidatorWon h)) w = Ok (u, w') →
  respondent_won w w' checkpoint challenge c h.
Proof.
  intros [Hc _ Hh _] Hr. apply load_checkpoint_Ok in Hc as (_ & _ & Hc & _).
  apply load_challenge_Ok in Hh as (_ & _ & Hh & _).
  pose proof (sized (n:=380) _ _ Hc) as Hlc. pose proof (sized (n:=255) _ _ Hh) as Hlh.
  assert (checkpoint ≠ challenge) by (intros ->; by rewrite Hlc in Hlh). apply decoded_wf in Hc, Hh.
  unfold store_challenge, store_checkpoint in Hr. mstep Hr as [] w1 G1.
  apply (store_sized_Ok (n:=380)) in G1 as ->; [|done|by apply with_resolution_wf].
  apply (store_sized_Ok (n:=255)) in Hr as ->; [|by acct_simpl|by apply with_outcome_wf]. split.
  - acct_simpl. cbn [data with_data]. by apply try_from_slice_enc, with_resolution_wf.
  - acct_simpl. cbn [data with_data]. by apply try_from_slice_enc, with_outcome_wf.
  - intros x. rewrite !acct_put. by repeat case_decide; subst.
  - intros x Hx. nodup. by acct_simpl.
Qed.

Lemma contest_da w session er checkpoint challenge cursor c h k da d :
  contest w session er checkpoint challenge cursor c h k → da_at w da d → da ∉ [checkpoint; challenge; cursor].
Proof.
  intros (Hc & Hh & Hk & _)%contest_sizes Hd%(sized (n:=178)). apply (sized (n:=380)) in Hc. apply (sized (n:=255)) in Hh.
  apply (sized (n:=153)) in Hk. rewrite !not_elem_of_cons. split_and!; [intros ->; congruence..|apply not_elem_of_nil].
Qed.

(** Writes after the bond is paid. *)
Lemma outcome_writes w session er checkpoint challenge cursor c h k da w0 c' w1 u w' :
  contest w session er checkpoint challenge cursor c h k → da ∉ [checkpoint; challenge; cursor] →
  (∀ x, lamports (acct w0 x) = lamports (acct w x) ∧ owner (acct w0 x) = owner (acct w x)) →
  (∀ x, x ≠ da → acct w0 x = acct w x) →
  slash_checkpoint_bond checkpoint (Challenge.challenger h) c w0 = Ok (c', w1) →
  let c2 := with_resolution CheckpointStatus.Invalid c' in
  let h2 := with_outcome ChallengeStatus.ChallengerWon h in
  ((store_cursor cursor (clear_active_checkpoint k) ;; store_checkpoint checkpoint c2 ;; store_challenge challenge h2) w1
    = Ok (u, w') ∨
   (store_checkpoint checkpoint c2 ;; store_challenge challenge h2 ;; store_cursor cursor (clear_active_checkpoint k)) w1
    = Ok (u, w')) →
  challenger_won w w' checkpoint challenge cursor c h k ∧ data (acct w' da) = data (acct w0 da) ∧
  (∀ x, x ∉ [checkpoint; challenge; cursor; da] → data (acct w' x) = data (acct w x)) ∧
  (∀ x, x ∉ [checkpoint; challenge; cursor; da; Challenge.challenger h] → acct w' x = acct w x).
Proof.
  intros Hct Hda Hlo Hoth Hsl c2 h2 Hr. nodup. pose proof Hct as (Hc & Hh & Hk & _)%contest_sizes.
  pose proof Hsl as (-> & _ & Hw1 & _)%resolve_checkpoint_bond_Ok.
  assert (Hf : ∀ x, data (acct w1 x) = data (acct w0 x)) by (intros x; rewrite Hw1; apply moved_fields).
  pose proof (λ A B C D E F, store_outcome_Ok _ _ _ _ _ _ _ _ _ A B C D E F Hr) as Hr'. clear Hr.
  rewrite !Hf, !Hoth in Hr' by (by intros ->).
  specialize (Hr' (sized (n:=380) _ _ Hc) (sized (n:=255) _ _ Hh) (sized (n:=153) _ _ Hk)
    (with_resolution_wf _ _ (with_bond_status_wf _ _ (decoded_wf _ _ Hc))) (with_outcome_wf _ _ (decoded_wf _ _ Hh))
    (clear_active_checkpoint_wf _ (decoded_wf _ _ Hk))).
  destruct (challenger_won_intro _ _ _ _ _ _ _ _ _ da w0 _ w1 w' Hct Hlo Hoth Hsl Hr') as [Hw Hf2].
  split; [done|]. split; [by rewrite Hr', !decide_False, Hf by done|]. split; [|done].
  intros x Hx. nodup. by rewrite Hr', !decide_False, Hf, Hoth by done.
Qed.

(** Whoever's turn it was loses; while it was the respondent's, unrevealed data
    is recorded as defaulted. *)
Lemma process_timeout_challenge_Ok caller session checkpoint challenge da_proof recipient cursor rest args w u w' :
  process_timeout_challenge cx (caller :: session :: checkpoint :: challenge :: da_proof :: recipient :: cursor :: rest)
    args w = Ok (u, w') →
  ∃ c h k d, contest w session (TimeoutChallenge.er_slot args) checkpoint challenge cursor c h k ∧ da_at w da_proof d ∧
    da_proof = (da_pda challenge).1 ∧
    Z.min (Challenge.turn_deadline_l1_slot h) (Challenge.hard_deadline_l1_slot h) ≤ slot (clock cx) ∧
    recipient = Challenge.challenger h ∧
    (Challenge.turn h = ChallengeTurn.Respondent ∧ challenger_won w w' checkpoint challenge cursor c h k ∧
       da_at w' da_proof (if DataAvailabilityProof.status d == DataAvailabilityStatus.Missing then with_default d else d) ∧
       (∀ x, x ∉ [checkpoint; challenge; cursor; da_proof] → data (acct w' x) = data (acct w x)) ∧
       (∀ x, x ∉ [checkpoint; challenge; cursor; da_proof; recipient] → acct w' x = acct w x) ∨
     Challenge.turn h ≠ ChallengeTurn.Respondent ∧ respondent_won w w' checkpoint challenge c h).
Proof.
  intros Hr. unfold process_timeout_challenge in Hr. mstep Hr as [] w1 Hsig. mstep Hr as s w1 Hs.
  apply bind_Ok in Hr as (c & w1 & Hc & Hr). pose proof (read_only _ _ _ Hc). subst w1.
  mstep Hr as [] w1 Hst. apply require_challenged_Ok in Hst.
  apply bind_Ok in Hr as (h & w1 & Hh & Hr). pose proof (read_only _ _ _ Hh). subst w1.
  mstep Hr as [] w1 Hact. cbv zeta in Hr. mstep Hr as [] w1 Hdl. mstep Hr as [] w1 Hrec.
  apply bind_Ok in Hr as (k & w1 & Hk & Hr). pose proof (read_only _ _ _ Hk). subst w1.
  mstep Hr as [] w1 Hact2. apply require_active_checkpoint_Ok in Hact2.
  mstep Hr as d w1 Hd. apply load_da_proof_Ok in Hd as (Hdp & _ & Hd & _). destruct Hact2 as [Ha1 Ha2].
  assert (Hdl' : Z.min (Challenge.turn_deadline_l1_slot h) (Challenge.hard_deadline_l1_slot h) ≤ slot (clock cx)).
  { destruct (_ && _) eqn:Hg in Hdl; [done|]. apply andb_false_iff in Hg as [Hg|Hg]; bprop; lia. }
  clear Hdl. bprop. assert (Hct : contest w session (TimeoutChallenge.er_slot args) checkpoint challenge cursor c h k)
    by (split; [by split|done..]).
  exists c, h, k, d. do 5 (split; [done|]). pose proof (contest_da _ _ _ _ _ _ _ _ _ _ _ Hct Hd) as Hda.
  destruct (Challenge.turn h == ChallengeTurn.Respondent) eqn:Hturn; bprop; [left|right].
  2: { split; [done|]. eapply respondent_won_intro in Hr; [done|apply (ct_disputed _ _ _ _ _ _ _ _ _ Hct)]. }
  split; [done|]. apply bind_Ok in Hr as ([] & w0 & Hw0 & Hr). apply bind_Ok in Hr as (c' & w1 & Hsl & Hr). subst recipient.
  assert (Hw0' : (∀ x, lamports (acct w0 x) = lamports (acct w x) ∧ owner (acct w0 x) = owner (acct w x)) ∧
    (∀ x, x ≠ da_proof → acct w0 x = acct w x) ∧
    da_at w0 da_proof (if DataAvailabilityProof.status d == DataAvailabilityStatus.Missing then with_default d else d)).
  { destruct (_ == _); [|minv; by split_and!]. unfold store_da_proof in Hw0. pose proof (decoded_wf _ _ Hd).
    apply (store_sized_Ok (n:=178)) in Hw0 as ->; [|by apply (sized (n:=178)) in Hd|by apply with_default_wf]. split_and!.
    - intros x. rewrite acct_put. by case_decide; subst.
    - intros x Hx. by acct_simpl.
    - acct_simpl. cbn [data with_data]. by apply try_from_slice_enc, with_default_wf. }
  destruct Hw0' as (Hlo & Hoth & Hd0). eapply or_introl, outcome_writes in Hr as (Hw & Hdd & Hfd & Hf); [|done..].
  split; [done|]. split; [by rewrite Hdd|done].
Qed.

(** What a resolution has checked of the proof account. *)
Record sealed_proof (w : World) (session checkpoint challenge proof : Address) (c : Checkpoint.t) (h : Challenge.t)
    (p : StepProofAccount.t) : Prop := {
  sp_proof : load_step_proof cx checkpoint proof w = Ok (p, w);
  sp_challenge : StepProofAccount.challenge p = challenge;
  sp_authority : StepProofAccount.authority p = Challenge.challenger h;
  sp_sealed : StepProofAccount.sealed p = true;
  sp_hash : hashv [take (Z.to_nat (StepProofAccount.written_len p)) (StepProofAccount.data p)] = StepProofAccount.proof_hash p;
  sp_inputs : StepProofAccount.public_input_hash p
    = step_proof_public_input_hash (program_id cx) session checkpoint c h p
}.

(** The verifier's answer on the sealed proof decides. *)
Lemma process_resolve_challenge_Ok `{Groth16} ft submitter session checkpoint challenge da_proof proof recipient cursor rest
    args w u w' :
  process_resolve_challenge ft cx
    (submitter :: session :: checkpoint :: challenge :: da_proof :: proof :: recipient :: cursor :: rest) args w = Ok (u, w') →
  ∃ c h k d p, contest w session (ResolveChallenge.er_slot args) checkpoint challenge cursor c h k ∧ in_time h ∧
    Challenge.turn h = ChallengeTurn.Prove ∧ Challenge.end_step h = u64_saturating_add (Challenge.start_step h) 1 ∧
    da_at w da_proof d ∧ da_proof = (da_pda challenge).1 ∧ DataAvailabilityProof.status d = DataAvailabilityStatus.Revealed ∧
    sealed_proof w session checkpoint challenge proof c h p ∧
    (verify_step_proof ft (ResolveChallenge.verifier_mode args) c h p = Invalid ∧ recipient = Challenge.challenger h ∧
       challenger_won w w' checkpoint challenge cursor c h k ∧
       (∀ x, x ∉ [checkpoint; challenge; cursor; da_proof] → data (acct w' x) = data (acct w x)) ∧
       (∀ x, x ∉ [checkpoint; challenge; cursor; da_proof; recipient] → acct w' x = acct w x) ∧
       data (acct w' da_proof) = data (acct w da_proof) ∨
     verify_step_proof ft (ResolveChallenge.verifier_mode args) c h p = Valid ∧
       respondent_won w w' checkpoint challenge c h).
Proof.
  intros Hr. unfold process_resolve_challenge in Hr. mstep Hr as [] w1 Hsig. mstep Hr as s w1 Hs.
  apply bind_Ok in Hr as (c & w1 & Hc & Hr). pose proof (read_only _ _ _ Hc). subst w1.
  mstep Hr as [] w1 Hst. apply require_challenged_Ok in Hst.
  apply bind_Ok in Hr as (h & w1 & Hh & Hr). pose proof (read_only _ _ _ Hh). subst w1.
  mstep Hr as [] w1 Hlive. apply require_live_turn_Ok in Hlive. mstep Hr as [] w1 Hturn.
  mstep Hr as d w1 Hd. apply load_da_proof_Ok in Hd. mstep Hr as [] w1 Hrev.
  apply bind_Ok in Hr as (k & w1 & Hk & Hr). pose proof (read_only _ _ _ Hk). subst w1.
  mstep Hr as [] w1 Hact. apply require_active_checkpoint_Ok in Hact.
  apply bind_Ok in Hr as (p & w1 & Hp & Hr). pose proof (read_only _ _ _ Hp). subst w1.
  mstep Hr as [] w1 Hpc. mstep Hr as [] w1 Hpa. mstep Hr as [] w1 Hse. cbv zeta in Hr. mstep Hr as [] w1 Hlen.
  mstep Hr as [] w1 Hha. mstep Hr as [] w1 Hin. bprop.
  destruct Hd as (Hdp & _ & Hd & _), Hact as [Ha1 Ha2], Hlive as [Hl1 Hl2].
  assert (Hct : contest w session (ResolveChallenge.er_slot args) checkpoint challenge cursor c h k)
    by (split; [by split|done..]).
  exists c, h, k, d, p. do 7 (split; [done|]). split; [by split|].
  destruct (verify_step_proof _ _ _ _ _) eqn:Hv.
  - right. split; [done|]. eapply respondent_won_intro in Hr; [done|apply (ct_disputed _ _ _ _ _ _ _ _ _ Hct)].
  - left. split; [done|]. mstep Hr as [] w1 Hrec. apply bind_Ok in Hr as (c' & w1 & Hsl & Hr). bprop. subst recipient.
    split; [done|]. pose proof (contest_da _ _ _ _ _ _ _ _ _ _ _ Hct Hd) as Hda.
    eapply or_intror, outcome_writes in Hr as (Hw & Hdd & Hfd & Hf); done.
  - by apply fail_Ok in Hr.
Qed.

(** ** Proof accounts

    The three instructions that fill a proof account change no other data. *)

(** The account is new or at least as long as a proof; no other data changed. *)
Record proof_written (proof : Address) (w w' : World) : Prop := {
  pw_before : data (acct w proof) = [] ∨ (668 ≤ length (data (acct w proof)))%nat;
  pw_size : (668 ≤ length (data (acct w' proof)))%nat;
  pw_data : ∀ x, x ≠ proof → data (acct w' x) = data (acct w x) ∧ owner (acct w' x) = owner (acct w x)
}.

Lemma store_keeps_length {A} `{!Borsh A} a (y : A) e w u w' :
  store a y e w = Ok (u, w') →
  (object_length y ≤ length (data (acct w' a)))%nat ∧ length (data (acct w' a)) = length (data (acct w a)) ∧
  ∀ x, x ≠ a → acct w' x = acct w x.
Proof.
  intros (d & (Hl & _ & Hle)%serialize_into_Some & ->)%store_Ok. split; [acct_simpl; simpl; lia|].
  split; [by acct_simpl|]. intros x Hx. by acct_simpl.
Qed.

Lemma store_loaded_proof authority session checkpoint challenge proof er p p' w u w' :
  load_open_proof cx authority session checkpoint challenge proof er w = Ok (p, w) →
  store_step_proof proof p' w = Ok (u, w') →
  (∃ c h, disputed w session er checkpoint challenge c h) ∧ proof_written proof w w' ∧ ∀ x, x ≠ proof → acct w' x = acct w x.
Proof.
  intros Hl Hr. unfold load_open_proof in Hl. mstep Hl as [] w1 G1. mstep Hl as s w1 G2.
  apply bind_Ok in Hl as (c & w1 & Hc & Hl). pose proof (read_only _ _ _ Hc). subst w1.
  mstep Hl as [] w1 G4. apply require_challenged_Ok in G4.
  apply bind_Ok in Hl as (h & w1 & Hh & Hl). pose proof (read_only _ _ _ Hh). subst w1.
  mstep Hl as [] w1 G6. apply require_live_turn_Ok in G6 as [G6 _]. mstep Hl as [] w1 G7.
  mstep Hl as p0 w1 Hp. apply load_step_proof_Ok in Hp as (_ & _ & Hp & _). apply (sized (n:=668)) in Hp.
  apply store_keeps_length in Hr as (_ & Hlen & Hf). split; [by exists c, h|]. split; [|done].
  split; [right; by rewrite Hp|by rewrite Hlen, Hp|]. intros x Hx. by rewrite Hf.
Qed.

Lemma process_write_step_proof_Ok authority session checkpoint challenge proof rest args w u w' :
  process_write_step_proof cx (authority :: session :: checkpoint :: challenge :: proof :: rest) args w = Ok (u, w') →
  (∃ c h, disputed w session (WriteStepProof.er_slot args) checkpoint challenge c h) ∧
  proof_written proof w w' ∧ ∀ x, x ≠ proof → acct w' x = acct w x.
Proof.
  intros Hr. destruct args. unfold process_write_step_proof in Hr.
  apply bind_Ok in Hr as (p & w1 & Hp & Hr). pose proof (read_only _ _ _ Hp). subst w1. mstep Hr as [] w1 G.
  by eapply store_loaded_proof.
Qed.

Lemma process_seal_step_proof_Ok authority session checkpoint challenge proof rest args w u w' :
  process_seal_step_proof cx (authority :: session :: checkpoint :: challenge :: proof :: rest) args w = Ok (u, w') →
  (∃ c h, disputed w session (SealStepProof.er_slot args) checkpoint challenge c h) ∧
  proof_written proof w w' ∧ ∀ x, x ≠ proof → acct w' x = acct w x.
Proof.
  intros Hr. destruct args. unfold process_seal_step_proof in Hr.
  apply bind_Ok in Hr as (p & w1 & Hp & Hr). pose proof (read_only _ _ _ Hp). subst w1. mstep Hr as [] w1 G. mstep Hr as [] w1 G'.
  by eapply store_loaded_proof.
Qed.

Lemma new_step_proof_wf ck ch a args bump hash :
  is_key ck → is_key ch → is_key a → wf borsh args → is_u8 bump → is_key hash →
  wf borsh (with_public_input_hash hash (new_step_proof ck ch a args bump)).
Proof.
  intros ??? (?&?&?&?&?&?&?&?&?&?) ??. destruct args. cbn in *.
  assert (in_width 32 0) by (unfold in_width, umax; lia). assert (length zero32 = 32%nat) by done.
  assert (length StepProofAccount.DISCRIMINATOR = 8%nat) by done.
  assert (length (zeros (Z.to_nat MAX_STEP_PROOF_BYTES)) = 356%nat) by apply length_zeros. wf_fields.
Qed.

Lemma process_create_step_proof_Ok ft authority session checkpoint challenge proof sys rest args w u w' :
  authority ≠ proof → is_key authority → wf borsh args →
  process_create_step_proof ft cx (authority :: session :: checkpoint :: challenge :: proof :: sys :: rest) args w
    = Ok (u, w') →
  (∃ c h, disputed w session (CreateStepProof.er_slot args) checkpoint challenge c h) ∧
  proof_written proof w w' ∧ ∀ x, x ≠ authority → x ≠ proof → acct w' x = acct w x.
Proof.
  intros Hne Hak Hargs Hr. unfold process_create_step_proof in Hr. cbv zeta in Hr.
  mstep Hr as [] w1 Hsig. mstep Hr as x0 w1 G1. mstep Hr as [] w1 G2. mstep Hr as s w1 G3.
  apply bind_Ok in Hr as (c & w1 & Hc & Hr). pose proof (read_only _ _ _ Hc). subst w1.
  mstep Hr as [] w1 G4. apply require_challenged_Ok in G4.
  apply bind_Ok in Hr as (h & w1 & Hh & Hr). pose proof (read_only _ _ _ Hh). subst w1.
  mstep Hr as [] w1 G5. apply require_live_turn_Ok in G5 as [G5 _]. mstep Hr as [] w1 G6. mstep Hr as [] w1 G7.
  mstep Hr as [] w1 G8. mstep Hr as [] w1 G9. mstep Hr as b w1 G10. mstep Hr as [] w1 G11.
  pose proof (find_bump_range [StepProofAccount.SEED_PREFIX; checkpoint] (program_id cx)) as Hb.
  unfold find_step_proof_pda in *.
  destruct (find_program_address [StepProofAccount.SEED_PREFIX; checkpoint] (program_id cx)) as [pk pb]. cbn [snd] in Hb.
  mstep Hr as [] w1 G12. cbv zeta in Hr. mstep Hr as n w1 Hn. mstep Hr as y w1 Hy.
  apply bind_Ok in Hr as ([] & w1 & Hi & Hr). assert (Hdis : ∃ c h, disputed w session (CreateStepProof.er_slot args) checkpoint challenge c h) by (by exists c, h).
  apply load_checkpoint_Ok in Hc as (Hc & _). apply load_challenge_Ok in Hh as (Hh & _).
  assert (Hwf : wf borsh (with_public_input_hash (step_proof_public_input_hash (program_id cx) session checkpoint c h
    (new_step_proof checkpoint challenge authority args pb)) (new_step_proof checkpoint challenge authority args pb))).
  { apply new_step_proof_wf; try done; [rewrite Hc|rewrite Hh|]; [apply find_address_length..|apply sha256_length]. }
  unfold store_step_proof in Hr. apply store_keeps_length in Hr as (Hsz & Hsm & Hf).
  unfold object_length in Hsz. rewrite (codec_size (n:=668)) in Hsz by done. bprop. split; [done|].
  destruct (is_data_empty _).
  - apply initialize_created in Hi as (_ & Hpay & Hif & Hemp & _); [|done]. split; [split; [by left|done|]|].
    + intros x Hx. rewrite Hf by done. destruct (decide (x = authority)) as [->|]; [by rewrite Hpay|by rewrite Hif].
    + intros x ??. by rewrite Hf, Hif.
  - minv. split; [split; [right; by rewrite <- Hsm|done|]|]; intros x ?; [by rewrite Hf|]. intros ?. by rewrite Hf.
Qed.
End specs.
