(* ===== verification/Lifecycle.v ===== *)
(** * The life of checkpoints, abstractly

    The lifecycle the Portal promises (northstar/docs/checkpoint-outcome-matrix-v1.md
    and northstar/SETTLEMENT_V1.md), as a transition system over a ledger: the
    slot and root finalized last and at most one proposal in progress, which
    waits for its window to pass, is contested in a bisection game, or is
    finalized and waits for its settlement.  Dispute.v proves that the
    instructions of checkpoint.rs refine it.

    Here: finalized proposals form a chain ([commits_linked]), the endpoints of
    the interval in dispute are on the proposal's trace ([step_good]) and the game
    is short ([moves_bounded]). *)

From Stdlib Require Import ZArith Lia.
From Stdlib Require Import Strings.Byte.
From stdpp Require Import base gmap list numbers.
From S2P Require Import Prelude Borsh Events Runtime State Commitments Instruction Verifier Merkle StepProof.

(** ** States *)

(** What is fixed when a checkpoint is proposed. *)
Record Proposal : Set := mkProposal {
  p_slot : Z;
  p_steps : Z;
  p_previous : Hash32;
  p_new : Hash32;
  p_trace : Hash32;
  p_proposer : Address;
  p_deadline : Z
}.

(** The interval in dispute, the claim about its middle and whose turn it is. *)
Record Game : Set := mkGame {
  g_challenger : Address;
  g_lo : Z;
  g_hi : Z;
  g_mid : Z;
  g_lo_root : Hash32;
  g_hi_root : Hash32;
  g_mid_root : Hash32;
  g_turn : ChallengeTurn.t;
  g_rounds : Z;
  g_turn_deadline : Z;
  g_hard_deadline : Z
}.

Inductive Stage : Set :=
| Idle
| Waiting (p : Proposal) (resolved : bool)
| Contested (p : Proposal) (g : Game)
| Finalized (p : Proposal).

(** [l_root] is [None] until a first proposal is finalized. *)
Record Ledger : Set := mkLedger {
  l_slot : Z;
  l_root : option Hash32;
  l_stage : Stage
}.

Definition proposal_of (c : Checkpoint.t) : Proposal :=
  mkProposal (Checkpoint.er_slot c) (Checkpoint.step_count c) (Checkpoint.previous_state_root c)
    (Checkpoint.new_state_root c) (Checkpoint.trace_root c) (Checkpoint.proposer c)
    (Checkpoint.challenge_deadline_l1_slot c).

Definition game_of (h : Challenge.t) : Game :=
  mkGame (Challenge.challenger h) (Challenge.start_step h) (Challenge.end_step h) (Challenge.midpoint_step h)
    (Challenge.start_state_root h) (Challenge.end_state_root h) (Challenge.midpoint_state_root h) (Challenge.turn h)
    (Challenge.rounds h) (Challenge.turn_deadline_l1_slot h) (Challenge.hard_deadline_l1_slot h).

(** ** Transitions *)

Inductive Label : Set :=
| Proposed (p : Proposal)
| Cancelled
| Opened (challenger : Address)
| Responded
| Bisected (upper : bool)
| RespondentTimedOut
| ChallengerTimedOut
| ProofRejected
| ProofAccepted
| Committed (p : Proposal)
| Settled.

Section machine.
Context `{Host}.

(** A path to the trace root of the proposal has been accepted. *)
Definition on_trace (p : Proposal) (i : Z) (r : Hash32) : Prop :=
  ∃ c len path, proposal_of c = p ∧ verify_trace_authentication_path c i r len path = Some true.

(** The state after [i] steps, as the proposal commits to it. *)
Definition attested (p : Proposal) (i : Z) (r : Hash32) : Prop :=
  (i = 0 ∧ r = p_previous p) ∨ (i = p_steps p ∧ r = p_new p) ∨ on_trace p i r.

(** A proposal that follows what is final. *)
Definition follows (l : Ledger) (p : Proposal) : Prop :=
  l_slot l < p_slot p ∧ match l_root l with Some r => p_previous p = r | None => True end.

Definition enter (l : Ledger) (s : Stage) : Ledger := mkLedger (l_slot l) (l_root l) s.
Definition finalize (p : Proposal) : Ledger := mkLedger (p_slot p) (Some (p_new p)) (Finalized p).

Definition in_turn (now : Z) (g : Game) : Prop := now < g_turn_deadline g ∧ now < g_hard_deadline g.
Definition extended (now : Z) (g : Game) : Z := Z.min (now + 750) (g_hard_deadline g).

Definition start_game (now : Z) (challenger : Address) (p : Proposal) : Game :=
  mkGame challenger 0 (p_steps p) 0 (p_previous p) (p_new p) zero32 ChallengeTurn.Respondent 0
    (Z.min (now + 750) (p_deadline p)) (p_deadline p).

Definition claim_middle (now m : Z) (r : Hash32) (g : Game) : Game :=
  mkGame (g_challenger g) (g_lo g) (g_hi g) m (g_lo_root g) (g_hi_root g) r ChallengeTurn.Challenger (g_rounds g)
    (extended now g) (g_hard_deadline g).

Definition claim_step (now : Z) (g : Game) : Game :=
  mkGame (g_challenger g) (g_lo g) (g_hi g) (g_mid g) (g_lo_root g) (g_hi_root g) (g_mid_root g) ChallengeTurn.Prove
    (g_rounds g) (extended now g) (g_hard_deadline g).

Definition halve (now : Z) (upper : bool) (g : Game) : Game :=
  mkGame (g_challenger g) (if upper then g_mid g else g_lo g) (if upper then g_hi g else g_mid g) 0
    (if upper then g_mid_root g else g_lo_root g) (if upper then g_hi_root g else g_mid_root g) zero32
    ChallengeTurn.Respondent (g_rounds g + 1) (extended now g) (g_hard_deadline g).

Inductive step (now : Z) (l : Ledger) : Label → Ledger → Prop :=
| step_propose p :
    l_stage l = Idle → follows l p → 0 < p_steps p ≤ 16 → now < p_deadline p ≤ now + 9000 →
    step now l (Proposed p) (enter l (Waiting p false))
| step_cancel p r :
    l_stage l = Waiting p r → now < p_deadline p → step now l Cancelled (enter l Idle)
| step_open p challenger :
    l_stage l = Waiting p false → now < p_deadline p →
    step now l (Opened challenger) (enter l (Contested p (start_game now challenger p)))
| step_respond_middle p g m r :
    l_stage l = Contested p g → in_turn now g → g_turn g = ChallengeTurn.Respondent →
    2 ≤ g_hi g - g_lo g → m = g_lo g + (g_hi g - g_lo g) / 2 → on_trace p m r →
    step now l Responded (enter l (Contested p (claim_middle now m r g)))
| step_respond_step p g :
    l_stage l = Contested p g → in_turn now g → g_turn g = ChallengeTurn.Respondent → g_hi g - g_lo g = 1 →
    step now l Responded (enter l (Contested p (claim_step now g)))
| step_bisect p g upper :
    l_stage l = Contested p g → in_turn now g → g_turn g = ChallengeTurn.Challenger →
    step now l (Bisected upper) (enter l (Contested p (halve now upper g)))
| step_respondent_timeout p g :
    l_stage l = Contested p g → Z.min (g_turn_deadline g) (g_hard_deadline g) ≤ now →
    g_turn g = ChallengeTurn.Respondent → step now l RespondentTimedOut (enter l Idle)
| step_challenger_timeout p g :
    l_stage l = Contested p g → Z.min (g_turn_deadline g) (g_hard_deadline g) ≤ now →
    g_turn g ≠ ChallengeTurn.Respondent → step now l ChallengerTimedOut (enter l (Waiting p true))
| step_reject p g :
    l_stage l = Contested p g → in_turn now g → g_turn g = ChallengeTurn.Prove → step now l ProofRejected (enter l Idle)
| step_accept p g :
    l_stage l = Contested p g → in_turn now g → g_turn g = ChallengeTurn.Prove →
    step now l ProofAccepted (enter l (Waiting p true))
| step_commit p r :
    l_stage l = Waiting p r → p_deadline p ≤ now → follows l p → step now l (Committed p) (finalize p)
| step_settle p :
    l_stage l = Finalized p → step now l Settled (enter l Idle).

(** Transitions in sequence. *)
Inductive path (l : Ledger) : list Label → Ledger → Prop :=
| path_nil : path l [] l
| path_snoc tr l1 now a l2 : path l tr l1 → step now l1 a l2 → path l (tr ++ [a]) l2.

(** ** Finalized proposals *)

Definition committed (a : Label) : option Proposal := match a with Committed p => Some p | _ => None end.
Definition commits (tr : list Label) : list Proposal := omap committed tr.

(** Each proposal continues from the one before it. *)
Fixpoint linked (slot : Z) (root : option Hash32) (ps : list Proposal) : Prop :=
  match ps with
  | [] => True
  | p :: ps' => slot < p_slot p ∧ match root with Some r => p_previous p = r | None => True end
                ∧ linked (p_slot p) (Some (p_new p)) ps'
  end.

(** What is final after them. *)
Definition final_after (slot : Z) (root : option Hash32) (ps : list Proposal) : Z * option Hash32 :=
  match list.last ps with Some p => (p_slot p, Some (p_new p)) | None => (slot, root) end.

(** ** The game *)

(** What holds of a game on its way. *)
Record game_ok (p : Proposal) (g : Game) : Prop := {
  go_interval : 0 ≤ g_lo g < g_hi g ∧ g_hi g ≤ p_steps p;
  go_lo : attested p (g_lo g) (g_lo_root g);
  go_hi : attested p (g_hi g) (g_hi_root g);
  go_mid : g_turn g = ChallengeTurn.Challenger → g_lo g < g_mid g < g_hi g ∧ 2 * g_mid g ≤ g_lo g + g_hi g ∧
    g_lo g + g_hi g ≤ 2 * g_mid g + 1 ∧ attested p (g_mid g) (g_mid_root g);
  go_prove : g_turn g = ChallengeTurn.Prove → g_hi g = g_lo g + 1;
  go_deadlines : g_turn_deadline g ≤ g_hard_deadline g ∧ g_hard_deadline g = p_deadline p;
  go_rounds : 0 ≤ g_rounds g ∧ g_rounds g + Z.log2_up (g_hi g - g_lo g) ≤ Z.log2_up (p_steps p)
}.

Definition good (l : Ledger) : Prop :=
  match l_stage l with
  | Idle => True
  | Waiting p _ => 0 < p_steps p ≤ 16 ∧ follows l p
  | Contested p g => (0 < p_steps p ≤ 16 ∧ follows l p) ∧ game_ok p g
  | Finalized p => 0 < p_steps p ≤ 16
  end.

(** Labels of the game, and the moves that are left at most. *)
Definition is_move (a : Label) : bool :=
  match a with
  | Responded | Bisected _ | RespondentTimedOut | ChallengerTimedOut | ProofRejected | ProofAccepted => true
  | _ => false
  end.
Definition moves (tr : list Label) : Z := Z.of_nat (length (List.filter is_move tr)).

Definition is_open (a : Label) : bool := match a with Opened _ => true | _ => false end.
Definition openings (tr : list Label) : Z := Z.of_nat (length (List.filter is_open tr)).

Definition budget (l : Ledger) : Z :=
  match l_stage l with
  | Contested _ g =>
    match g_turn g with
    | ChallengeTurn.Respondent => 2 * Z.log2_up (g_hi g - g_lo g) + 2
    | ChallengeTurn.Challenger => 2 * Z.log2_up (g_hi g - g_lo g) + 1
    | ChallengeTurn.Prove => 1
    end
  | _ => 0
  end.

(** *** Chains *)

Lemma linked_snoc ps : ∀ slot root p,
  linked slot root (ps ++ [p]) ↔
  linked slot root ps ∧ let '(s, r) := final_after slot root ps in
    s < p_slot p ∧ match r with Some r => p_previous p = r | None => True end.
Proof.
  induction ps as [|q ps IH]; intros slot root p; [cbn; tauto|].
  change (linked slot root ((q :: ps) ++ [p])) with
    (slot < p_slot q ∧ match root with Some r => p_previous q = r | None => True end
     ∧ linked (p_slot q) (Some (p_new q)) (ps ++ [p])).
  rewrite IH. cbn [linked]. unfold final_after. rewrite last_cons. destruct (list.last ps); tauto.
Qed.

Lemma final_after_snoc slot root ps p : final_after slot root (ps ++ [p]) = (p_slot p, Some (p_new p)).
Proof. unfold final_after. by rewrite last_snoc. Qed.

Lemma commits_snoc tr a : commits (tr ++ [a]) = commits tr ++ match committed a with Some p => [p] | None => [] end.
Proof. unfold commits. rewrite omap_app. by destruct a. Qed.

(** The proposals a path finalizes continue one from the other, and the last is
    what is final. *)
Lemma commits_linked l tr l' :
  path l tr l' →
  linked (l_slot l) (l_root l) (commits tr) ∧ (l_slot l', l_root l') = final_after (l_slot l) (l_root l) (commits tr).
Proof.
  induction 1 as [|tr l1 now a l2 _ [IH1 IH2] Hs]; [done|]. rewrite commits_snoc.
  assert (Hc : committed a = None ∧ l_slot l2 = l_slot l1 ∧ l_root l2 = l_root l1 ∨
    ∃ p, committed a = Some p ∧ follows l1 p ∧ l2 = finalize p) by (destruct Hs; eauto 6).
  destruct Hc as [(-> & -> & ->)|(p & -> & Hf & ->)].
  - by rewrite app_nil_r.
  - rewrite linked_snoc, final_after_snoc, <- IH2. done.
Qed.

(** *** Games *)

Lemma log2_up_half w w' : 2 ≤ w → 0 < w' → 2 * w' ≤ w + 1 → Z.log2_up w' + 1 ≤ Z.log2_up w.
Proof.
  intros Hw Hp Hh. pose proof (Z.log2_up_spec w ltac:(lia)) as [_ Hk]. set (k := Z.log2_up w) in *.
  assert (1 ≤ k) by (apply (Z.log2_up_le_mono 2) in Hw; exact Hw).
  assert (w' ≤ 2 ^ (k - 1)).
  { replace k with (k - 1 + 1) in Hk by lia. rewrite Z.pow_add_r in Hk by lia. lia. }
  assert (Z.log2_up w' ≤ k - 1) by (apply Z.log2_up_le_pow2; lia). lia.
Qed.

Lemma start_game_ok now a p : 0 < p_steps p → game_ok p (start_game now a p).
Proof.
  intros Hp. split; cbn; try done; try lia; [by left|by right; left|]. split; [lia|]. replace (p_steps p - 0) with (p_steps p) by lia. lia.
Qed.

Lemma claim_middle_ok now m r p g :
  game_ok p g → 2 ≤ g_hi g - g_lo g → m = g_lo g + (g_hi g - g_lo g) / 2 → on_trace p m r →
  game_ok p (claim_middle now m r g).
Proof.
  intros [Hi Hlo Hhi _ _ Hd Hr] Hw -> Ht. split; cbn; try done.
  - intros _. pose proof (Z.div_mod (g_hi g - g_lo g) 2). pose proof (Z.mod_pos_bound (g_hi g - g_lo g) 2).
    split; [lia|]. split; [lia|]. split; [lia|]. by right; right.
  - unfold extended. lia.
Qed.

Lemma claim_step_ok now p g : game_ok p g → g_hi g - g_lo g = 1 → game_ok p (claim_step now g).
Proof. intros [Hi Hlo Hhi _ _ Hd Hr] Hw. split; cbn; try done; [lia|unfold extended; lia]. Qed.

Lemma halve_ok now up p g : game_ok p g → g_turn g = ChallengeTurn.Challenger → game_ok p (halve now up g).
Proof.
  intros [Hi Hlo Hhi Hm _ Hd Hr] Ht. destruct (Hm Ht) as (Hb & H1 & H2 & Ha).
  pose proof (log2_up_half (g_hi g - g_lo g) (g_hi g - g_mid g)). pose proof (log2_up_half (g_hi g - g_lo g) (g_mid g - g_lo g)).
  unfold halve, extended. destruct up; split; cbn; try done; lia.
Qed.

(** Every transition keeps the invariant. *)
Lemma step_good now l a l' : step now l a l' → good l → good l'.
Proof.
  unfold good. intros [] Hg; try match goal with X : l_stage l = _ |- _ => rewrite X in Hg end; cbn; try done; try lia.
  - split; [done|]. apply start_game_ok. lia.
  - destruct Hg. split; [done|]. eapply claim_middle_ok; eassumption.
  - destruct Hg. split; [done|]. by apply claim_step_ok.
  - destruct Hg. split; [done|]. by apply halve_ok.
  - by destruct Hg.
  - by destruct Hg.
Qed.

Lemma path_good l tr l' : path l tr l' → good l → good l'.
Proof. induction 1; eauto using step_good. Qed.

(** A move uses up budget; opening a game grants at most ten. *)
Lemma step_budget now l a l' :
  step now l a l' → good l →
  0 ≤ budget l' ∧ budget l' + (if is_move a then 1 else 0) ≤ budget l + (if is_open a then 10 else 0).
Proof.
  intros Hs Hg. unfold budget, good in *.
  destruct Hs; match goal with X : l_stage l = _ |- _ => rewrite X in *; cbn in *; try done end.
  - assert (Z.log2_up (p_steps p - 0) ≤ 4) by (apply Z.log2_up_le_pow2; lia). pose proof (Z.log2_up_nonneg (p_steps p - 0)). lia.
  - pose proof (Z.log2_up_nonneg (g_hi g - g_lo g)). rewrite H2. lia.
  - pose proof (Z.log2_up_nonneg (g_hi g - g_lo g)). rewrite H2. lia.
  - rewrite H2. destruct Hg as [_ [Hi _ _ Hm _ _ _]]. destruct (Hm H2) as (Hb & H3 & H4 & _).
    pose proof (log2_up_half (g_hi g - g_lo g) (g_hi g - g_mid g)). pose proof (log2_up_half (g_hi g - g_lo g) (g_mid g - g_lo g)).
    pose proof (Z.log2_up_nonneg (g_hi g - g_mid g)). pose proof (Z.log2_up_nonneg (g_mid g - g_lo g)). destruct upper; lia.
  - pose proof (Z.log2_up_nonneg (g_hi g - g_lo g)). destruct (g_turn g); lia.
  - pose proof (Z.log2_up_nonneg (g_hi g - g_lo g)). destruct (g_turn g); lia.
  - rewrite H2. lia.
  - rewrite H2. lia.
Qed.

Lemma moves_snoc tr a : moves (tr ++ [a]) = moves tr + (if is_move a then 1 else 0).
Proof. unfold moves. rewrite filter_app, length_app. destruct a; cbn; lia. Qed.
Lemma openings_snoc tr a : openings (tr ++ [a]) = openings tr + (if is_open a then 1 else 0).
Proof. unfold openings. rewrite filter_app, length_app. destruct a; cbn; lia. Qed.

Lemma moves_bounded l tr l' : path l tr l' → good l → moves tr + budget l' ≤ budget l + 10 * openings tr ∧ 0 ≤ budget l'.
Proof.
  intros Hp Hg. induction Hp as [|tr l1 now a l2 Hp [IH _] Hs].
  - split; [change (moves []) with 0; change (openings []) with 0; lia|]. unfold budget. destruct (l_stage l); try lia. pose proof (Z.log2_up_nonneg (g_hi g - g_lo g)).
    destruct (g_turn g); lia.
  - apply step_budget in Hs as [? Hb]; [|by eapply path_good]. rewrite moves_snoc, openings_snoc. destruct (is_open a); lia.
Qed.
End machine.
