(* ===== verification/Dispute.v ===== *)
(** * The Portal implements the checkpoint lifecycle

    The accounts of a session (cursor, checkpoints, challenge and data
    availability proof) represent a ledger of Lifecycle.v ([represents]).  Every
    successful instruction of checkpoint.rs, and the instruction that finishes a
    settlement, is a transition of that ledger or leaves it as it is
    ([exec_refines]), whatever else happens on the chain in between
    ([run_refines]).  The properties of the transition system then hold of the
    accounts. *)

From Stdlib Require Import ZArith Lia.
From Stdlib Require Import Strings.Byte.
From stdpp Require Import base gmap list numbers.
From S2P Require Import Prelude Borsh Events Runtime State Commitments Frames Toy Pda Instruction Verifier Merkle StepProof SessionOps Delegation Settlement Checkpoint Challenge Lifecycle.

Section dispute.
Context `{HostLaws} (P session : Address).

Abbreviation cursor_key := (find_checkpoint_cursor_pda P session).1.
Abbreviation slot_key er := (find_checkpoint_pda P session er).1.
Abbreviation challenge_key ck := (find_challenge_pda P ck).1.
Abbreviation da_key h := (find_da_proof_pda P h).1.

(** ** Representation *)

(** A checkpoint of the session, in its account. *)
Record holds (w : World) (c : Checkpoint.t) : Prop := {
  ho_owner : owner (acct w (slot_key (Checkpoint.er_slot c))) = P;
  ho_data : checkpoint_at w (slot_key (Checkpoint.er_slot c)) c;
  ho_valid : Checkpoint.is_valid c = true;
  ho_session : Checkpoint.session c = session
}.

(** In progress: neither settled nor cancelled nor invalid. *)
Definition in_progress (c : Checkpoint.t) : bool :=
  match Checkpoint.status c with
  | CheckpointStatus.Pending | CheckpointStatus.Challenged | CheckpointStatus.Committed => true
  | _ => false
  end.

(** The account holds the bond on top of its rent. *)
Record bonded (w : World) (c : Checkpoint.t) : Prop := {
  bo_locked : Checkpoint.bond_status c = CheckpointBondStatus.Locked;
  bo_amount : Checkpoint.bond_lamports c = CHECKPOINT_PROPOSER_BOND_LAMPORTS;
  bo_funds : ∃ rent, try_minimum_balance 380 = Ok rent ∧
    rent + CHECKPOINT_PROPOSER_BOND_LAMPORTS ≤ lamports (acct w (slot_key (Checkpoint.er_slot c)))
}.

(** The challenge of a checkpoint and its data availability proof. *)
Record contends (w : World) (c : Checkpoint.t) (h : Challenge.t) (d : DataAvailabilityProof.t) : Prop := {
  co_owner : owner (acct w (challenge_key (slot_key (Checkpoint.er_slot c)))) = P;
  co_data : challenge_at w (challenge_key (slot_key (Checkpoint.er_slot c))) h;
  co_valid : Challenge.is_valid h = true;
  co_checkpoint : Challenge.checkpoint h = slot_key (Checkpoint.er_slot c);
  co_active : Challenge.status h = ChallengeStatus.Active;
  co_da_owner : owner (acct w (da_key (challenge_key (slot_key (Checkpoint.er_slot c))))) = P;
  co_da : da_at w (da_key (challenge_key (slot_key (Checkpoint.er_slot c)))) d;
  co_da_valid : DataAvailabilityProof.is_valid d = true;
  co_da_challenge : DataAvailabilityProof.challenge d = challenge_key (slot_key (Checkpoint.er_slot c));
  co_da_checkpoint : DataAvailabilityProof.checkpoint d = slot_key (Checkpoint.er_slot c)
}.

Definition active_is (k : CheckpointCursor.t) (c : Checkpoint.t) : Prop :=
  CheckpointCursor.active_checkpoint k = slot_key (Checkpoint.er_slot c) ∧
  CheckpointCursor.active_er_slot k = Checkpoint.er_slot c.

Inductive rep_stage (w : World) (k : CheckpointCursor.t) : Stage → Prop :=
| rep_idle : CheckpointCursor.active_checkpoint k = zero32 → rep_stage w k Idle
| rep_waiting c :
    active_is k c → holds w c → Checkpoint.status c = CheckpointStatus.Pending → bonded w c →
    rep_stage w k (Waiting (proposal_of c) (Checkpoint.challenge_resolved c))
| rep_contested c h d :
    active_is k c → holds w c → Checkpoint.status c = CheckpointStatus.Challenged → bonded w c → contends w c h d →
    rep_stage w k (Contested (proposal_of c) (game_of h))
| rep_finalized c :
    active_is k c → holds w c → Checkpoint.status c = CheckpointStatus.Committed →
    rep_stage w k (Finalized (proposal_of c)).

(** The root that is final, once there is one. *)
Definition final_root (k : CheckpointCursor.t) : option Hash32 :=
  if decide (CheckpointCursor.latest_finalized_checkpoint k = zero32) then None
  else Some (CheckpointCursor.latest_finalized_state_root k).

Record has_cursor (w : World) (k : CheckpointCursor.t) : Prop := {
  hk_owner : owner (acct w cursor_key) = P;
  hk_data : cursor_at w cursor_key k;
  hk_valid : CheckpointCursor.is_valid k = true;
  hk_session : CheckpointCursor.session k = session
}.

Definition stage_slot (s : Stage) : option Z :=
  match s with Idle => None | Waiting p _ | Contested p _ | Finalized p => Some (p_slot p) end.

(** No checkpoint but the one the ledger has in progress is in progress. *)
Definition single (w : World) (s : Stage) : Prop :=
  ∀ c, holds w c → in_progress c = true → stage_slot s = Some (Checkpoint.er_slot c).

Record rep_cursor (w : World) (k : CheckpointCursor.t) (l : Ledger) : Prop := {
  rc_cursor : has_cursor w k;
  rc_slot : l_slot l = CheckpointCursor.latest_finalized_er_slot k;
  rc_root : l_root l = final_root k;
  rc_stage : rep_stage w k (l_stage l)
}.

Record represents (w : World) (l : Ledger) : Prop := {
  re_cursor : data (acct w cursor_key) = [] ∧ l = mkLedger 0 None Idle ∨ ∃ k, rep_cursor w k l;
  re_single : single w (l_stage l)
}.

(** ** Frames *)

Definition same (w w' : World) (a : Address) : Prop :=
  data (acct w' a) = data (acct w a) ∧ owner (acct w' a) = owner (acct w a).

Lemma holds_same w w' c : same w w' (slot_key (Checkpoint.er_slot c)) → holds w c → holds w' c.
Proof. intros [Hd Ho] []. split; congruence. Qed.
Lemma same_sym w w' a : same w w' a → same w' w a.
Proof. by intros []. Qed.

Lemma bonded_same w w' c :
  lamports (acct w (slot_key (Checkpoint.er_slot c))) ≤ lamports (acct w' (slot_key (Checkpoint.er_slot c))) →
  bonded w c → bonded w' c.
Proof. intros Hl [H1 H2 (r & Hr & Hf)]. split; [done|done|]. exists r. split; [done|lia]. Qed.

Lemma contends_same w w' c h d :
  same w w' (challenge_key (slot_key (Checkpoint.er_slot c))) →
  same w w' (da_key (challenge_key (slot_key (Checkpoint.er_slot c)))) → contends w c h d → contends w' c h d.
Proof. intros [H1 H2] [H3 H4] []. split; congruence. Qed.

Lemma has_cursor_same w w' k : same w w' cursor_key → has_cursor w k → has_cursor w' k.
Proof. intros [H1 H2] []. split; congruence. Qed.

(** No checkpoint is written. *)
Lemma single_keep w w' s s' :
  (∀ b c, checkpoint_at w' b c → same w w' b) → stage_slot s' = stage_slot s → single w s → single w' s'.
Proof.
  intros Hf Hs Hw c Hc Hi. rewrite Hs. apply Hw; [|done].
  apply (holds_same w'); [|done]. apply same_sym. by eapply Hf, ho_data.
Qed.

(** One checkpoint is written, that of the ledger if there is one. *)
Lemma single_write w w' s s' c0 :
  (∀ b c, b ≠ slot_key (Checkpoint.er_slot c0) → checkpoint_at w' b c → same w w' b) →
  checkpoint_at w' (slot_key (Checkpoint.er_slot c0)) c0 →
  (in_progress c0 = true → stage_slot s' = Some (Checkpoint.er_slot c0)) →
  (stage_slot s = None ∨ stage_slot s = Some (Checkpoint.er_slot c0)) → single w s → single w' s'.
Proof.
  intros Hf Hc0 Hs' Hs Hw c Hc Hi. pose proof (ho_data _ _ Hc) as Hd.
  destruct (decide (slot_key (Checkpoint.er_slot c) = slot_key (Checkpoint.er_slot c0))) as [E|E].
  - rewrite E, Hc0 in Hd. injection Hd as <-. auto.
  - assert (Hc' : holds w c) by (apply (holds_same w'); [apply same_sym; by eapply Hf|done]).
    specialize (Hw _ Hc' Hi). destruct Hs as [Hs|Hs]; rewrite Hs in Hw; [done|]. injection Hw as Hw. by rewrite Hw in E.
Qed.

(** ** What the ledger says of a checkpoint in progress *)

Lemma represents_progress w l c :
  represents w l → holds w c → in_progress c = true →
  ∃ k, rep_cursor w k l ∧ active_is k c ∧
    match Checkpoint.status c with
    | CheckpointStatus.Pending => l_stage l = Waiting (proposal_of c) (Checkpoint.challenge_resolved c) ∧ bonded w c
    | CheckpointStatus.Challenged =>
        ∃ h d, l_stage l = Contested (proposal_of c) (game_of h) ∧ bonded w c ∧ contends w c h d
    | _ => l_stage l = Finalized (proposal_of c)
    end.
Proof.
  intros [Hcur Hs] Hc Hi. specialize (Hs c Hc Hi). destruct Hcur as [[_ ->]|(k & Hk)]; [done|].
  exists k. split; [done|]. destruct Hk as [_ _ _ Hk].
  inversion Hk as [|c' Ha Hc' Hst' Hb E|c' h d Ha Hc' Hst' Hb Hh E|c' Ha Hc' Hst' E];
    match goal with X : _ = l_stage l |- _ => rewrite <- X in Hs end; cbn in Hs; try done; injection Hs as Hs;
    pose proof (ho_data _ _ Hc') as Hd; rewrite Hs, (ho_data _ _ Hc) in Hd; injection Hd as <-; rewrite Hst'; eauto 6.
Qed.

(** ** Loading *)

Lemma load_checkpoint_holds cx er a w c w' :
  program_id cx = P → load_checkpoint cx session er a w = Ok (c, w') →
  holds w c ∧ er = Checkpoint.er_slot c ∧ a = slot_key (Checkpoint.er_slot c).
Proof.
  intros HP (Ha & Ho & Hd & Hv & Hs & He)%load_checkpoint_Ok. rewrite HP in *. subst a er. split; [by split|done].
Qed.

Lemma load_cursor_has cx a w k w' :
  program_id cx = P → load_cursor cx session a w = Ok (k, w') → has_cursor w k ∧ a = cursor_key.
Proof. intros HP (Ha & Ho & Hd & Hv & Hs)%load_cursor_Ok. rewrite HP in *. subst a. split; [by split|done]. Qed.

Lemma load_challenge_contends cx ck a w h w' c h' d :
  program_id cx = P → load_challenge cx ck a w = Ok (h, w') → ck = slot_key (Checkpoint.er_slot c) →
  contends w c h' d → h = h' ∧ a = challenge_key ck.
Proof.
  intros HP (Ha & _ & Hd & _)%load_challenge_Ok Hck Hc. rewrite HP in *. subst a ck. rewrite (co_data _ _ _ _ Hc) in Hd. by injection Hd as ->.
Qed.

(** ** Instructions are transitions *)

(** A transition to the ledger that [w'] represents. *)
Definition advances (now : Z) (l : Ledger) (ok : Label → bool) (w' : World) : Prop :=
  ∃ a l', ok a = true ∧ step now l a l' ∧ represents w' l'.

Definition is_propose (a : Label) : bool := match a with Proposed _ => true | _ => false end.
Definition is_cancel (a : Label) : bool := match a with Cancelled => true | _ => false end.
Definition is_respond (a : Label) : bool := match a with Responded => true | _ => false end.
Definition is_bisect (a : Label) : bool := match a with Bisected _ => true | _ => false end.
Definition is_timeout (a : Label) : bool := match a with RespondentTimedOut | ChallengerTimedOut => true | _ => false end.
Definition is_resolve (a : Label) : bool := match a with ProofRejected | ProofAccepted => true | _ => false end.
Definition is_commit (er : Z) (a : Label) : bool := match a with Committed p => p_slot p =? er | _ => false end.
Definition is_settle (a : Label) : bool := match a with Settled => true | _ => false end.

Lemma checkpoint_not_cursor w a c k : checkpoint_at w a c → cursor_at w a k → False.
Proof. intros Hc%(sized (n:=380)) Hk%(sized (n:=153)). congruence. Qed.
Lemma checkpoint_not_challenge w a c h : checkpoint_at w a c → challenge_at w a h → False.
Proof. intros Hc%(sized (n:=380)) Hk%(sized (n:=255)). congruence. Qed.
Lemma checkpoint_not_da w a c d : checkpoint_at w a c → da_at w a d → False.
Proof. intros Hc%(sized (n:=380)) Hk%(sized (n:=178)). congruence. Qed.

Lemma rep_cursor_at w k k' l : rep_cursor w k l → cursor_at w cursor_key k' → k' = k.
Proof. intros [[_ Hk _ _] _ _ _] Hk'. rewrite Hk' in Hk. by injection Hk. Qed.

Lemma represents_idle w l k :
  represents w l →
  (data (acct w cursor_key) = [] ∧ k = new_cursor session (find_checkpoint_cursor_pda P session).2 ∨
   cursor_at w cursor_key k) →
  CheckpointCursor.active_checkpoint k = zero32 →
  l_stage l = Idle ∧ l_slot l = CheckpointCursor.latest_finalized_er_slot k ∧ l_root l = final_root k ∧
  CheckpointCursor.session k = session ∧ CheckpointCursor.is_valid k = true.
Proof.
  intros [[[He ->]|(k0 & Hk0)] _] Hk Hz.
  - destruct Hk as [[_ ->]|Hk]; [done|]. rewrite He in Hk. apply (sized (n:=153)) in Hk. done.
  - destruct Hk as [[He _]|Hk].
    { destruct Hk0 as [[_ Hd _ _] _ _ _]. rewrite He in Hd. apply (sized (n:=153)) in Hd. done. }
    apply (rep_cursor_at _ _ _ _ Hk0) in Hk as ->. destruct Hk0 as [[] Hs Hr Hst].
    split; [|done]. inversion Hst as [|c [Ha _]|c h d [Ha _]|c [Ha _]]; try done;
      rewrite Hz in Ha; symmetry in Ha; by apply find_address_not_system in Ha.
Qed.

(** The cursor's guard on the proposal is [follows]. *)
Lemma follows_cursor l k p :
  l_slot l = CheckpointCursor.latest_finalized_er_slot k → l_root l = final_root k →
  CheckpointCursor.latest_finalized_er_slot k < p_slot p →
  (CheckpointCursor.latest_finalized_checkpoint k = zero32 ∨ p_previous p = CheckpointCursor.latest_finalized_state_root k) →
  follows l p.
Proof.
  intros Hs Hr Hlt Hp. unfold follows. rewrite Hs, Hr. split; [done|]. unfold final_root. case_decide; [done|]. by destruct Hp.
Qed.

Lemma propose_refines cx proposer checkpoint cursor sys rest args v2 w u w' l :
  program_id cx = P → is_u64 (slot (clock cx)) → wf borsh args → proposer ≠ checkpoint → proposer ≠ cursor →
  process_propose_checkpoint_versioned cx (proposer :: session :: checkpoint :: cursor :: sys :: rest) args v2 w
    = Ok (u, w') → represents w l → advances (slot (clock cx)) l is_propose w'.
Proof.
  intros HP Hnow Hargs N1 N2 Hr Hl.
  apply process_propose_checkpoint_Ok in Hr as (s & k & Hg & Hcu & Hne & Hk & _ & Hc' & Hk' & Ho & Hko & Hrent & Hf & _); [|done..].
  rewrite HP in *. subst cursor. destruct Hg as [_ _ _ _ _ Hsteps Hwin Hdlm Hidle _ Hfin Hroot Hckp]. rewrite HP in Hckp. assert (Hk0 : _) by exact (represents_idle w l k Hl
    ltac:(destruct Hk as [?|[? _]]; auto) Hidle). destruct Hk0 as (Hst & Hls & Hlr & Hks & Hkv).
  set (c := proposal cx proposer session args) in *.
  assert (Hck : checkpoint = slot_key (Checkpoint.er_slot c)) by (subst c; by destruct args).
  assert (Hcv : Checkpoint.is_valid c = true ∧ Checkpoint.session c = session ∧ in_progress c = true ∧
    Checkpoint.status c = CheckpointStatus.Pending ∧ Checkpoint.bond_status c = CheckpointBondStatus.Locked ∧
    Checkpoint.bond_lamports c = CHECKPOINT_PROPOSER_BOND_LAMPORTS ∧ Checkpoint.challenge_resolved c = false)
    by (by destruct args).
  assert (Hcp : Checkpoint.er_slot c = ProposeCheckpoint.er_slot args ∧ Checkpoint.step_count c = ProposeCheckpoint.step_count args ∧
    Checkpoint.previous_state_root c = ProposeCheckpoint.previous_state_root args ∧ Checkpoint.challenge_deadline_l1_slot c =
    slot (clock cx) + ProposeCheckpoint.challenge_window_slots args) by (by destruct args).
  destruct Hcv as (Hv & Hse & Hip & Hpe & Hbl & Hba & Hre), Hcp as (E1 & E2 & E3 & E4).
  exists (Proposed (proposal_of c)), (enter l (Waiting (proposal_of c) false)). split; [done|]. split.
  { apply step_propose; [done|apply (follows_cursor l k); cbn; rewrite ?E1, ?E3; done|cbn; rewrite E2; exact Hsteps|].
    cbn. rewrite E4. unfold MAX_CHALLENGE_WINDOW_SLOTS in *. lia. }
  rewrite Hck in *. split; [right|].
  - eexists. split; [by split|done|done|]. cbn [enter l_stage]. rewrite <- Hre.
    apply rep_waiting; [split; [done|by rewrite <- E1]|by split|done|by split].
  - eapply (single_write w w' Idle); [| |done|by left|rewrite <- Hst; apply Hl]; [|done].
    intros b c2 Hb Hc2. apply Hf; [done|]. intros ->. by eapply checkpoint_not_cursor.
Qed.

Lemma represents_active w l k c :
  represents w l → cursor_at w cursor_key k → CheckpointCursor.active_checkpoint k = slot_key (Checkpoint.er_slot c) →
  checkpoint_at w (slot_key (Checkpoint.er_slot c)) c → holds w c ∧ in_progress c = true ∧ rep_cursor w k l.
Proof.
  intros [[[He _]|(k0 & Hk0)] _] Hk Ha Hc.
  { rewrite He in Hk. by apply (sized (n:=153)) in Hk. }
  pose proof (rep_cursor_at _ _ _ _ Hk0 Hk) as <-. assert (Hst := rc_stage _ _ _ Hk0). unfold in_progress.
  inversion Hst as [Hz|c' [Ha' _] Hc' Hp|c' h d [Ha' _] Hc' Hp|c' [Ha' _] Hc' Hp];
    [rewrite Ha in Hz; by apply find_address_not_system in Hz|..];
    pose proof (ho_data _ _ Hc') as Hd; rewrite <- Ha', Ha, Hc in Hd; injection Hd as <-; by rewrite Hp.
Qed.

(** A write of the checkpoint that keeps what identifies it. *)
Lemma holds_write w w' c c' :
  holds w c → owner (acct w' (slot_key (Checkpoint.er_slot c))) = owner (acct w (slot_key (Checkpoint.er_slot c))) →
  Checkpoint.er_slot c' = Checkpoint.er_slot c → Checkpoint.discriminator c' = Checkpoint.discriminator c →
  Checkpoint.session c' = Checkpoint.session c → checkpoint_at w' (slot_key (Checkpoint.er_slot c)) c' → holds w' c'.
Proof.
  intros [Ho Hd Hv Hs] Ho' He Hdi Hs' Hc'. split; rewrite ?He; try congruence. unfold Checkpoint.is_valid in *. by rewrite Hdi.
Qed.

Lemma cursor_write w w' k k' :
  has_cursor w k → owner (acct w' cursor_key) = owner (acct w cursor_key) →
  CheckpointCursor.discriminator k' = CheckpointCursor.discriminator k → CheckpointCursor.session k' = CheckpointCursor.session k →
  cursor_at w' cursor_key k' → has_cursor w' k'.
Proof. intros [Ho Hd Hv Hs] Ho' Hdi Hs' Hk'. split; try congruence. unfold CheckpointCursor.is_valid in *. by rewrite Hdi. Qed.

(** The cursor is released: the ledger is idle again. *)
Lemma represents_release w w' l k c c' :
  rep_cursor w k l → single w (l_stage l) → stage_slot (l_stage l) = Some (Checkpoint.er_slot c) →
  Checkpoint.er_slot c' = Checkpoint.er_slot c → in_progress c' = false →
  checkpoint_at w' (slot_key (Checkpoint.er_slot c)) c' → cursor_at w' cursor_key (clear_active_checkpoint k) →
  owner (acct w' cursor_key) = owner (acct w cursor_key) →
  (∀ b c2, b ≠ slot_key (Checkpoint.er_slot c) → checkpoint_at w' b c2 → same w w' b) →
  represents w' (enter l Idle).
Proof.
  intros [Hk Hs Hr _] Hsg Hsl He Hip Hc' Hk' Ho Hf. split.
  - right. exists (clear_active_checkpoint k). split; [by eapply cursor_write|done|done|by apply rep_idle].
  - eapply (single_write w w' (l_stage l) Idle c'); rewrite ?He; auto. congruence.
Qed.

Lemma commit_refines cx committer checkpoint cursor proposer rest args v2 w u w' l :
  program_id cx = P →
  process_commit_checkpoint_versioned cx (committer :: session :: checkpoint :: cursor :: proposer :: rest) args v2 w
    = Ok (u, w') → represents w l →
  advances (slot (clock cx)) l (is_commit (CommitCheckpoint.er_slot args)) w'.
Proof.
  intros HP Hr Hl. apply process_commit_checkpoint_Ok in Hr as (s & c & k & _ & _ & Hc & Hk & Hck & Hcu & He & _ & Hst & _ & Hdl
    & _ & Hadv & Hact & Hroot & _ & Hc' & Hk' & Hlo & Hda & _). rewrite HP in *. subst cursor. rewrite <- He in *. subst checkpoint.
  destruct (represents_active w l k c) as (Hho & Hip & Hrc); [done..|].
  destruct (represents_progress w l c) as (k0 & Hrc0 & Ha & Hstage); [done..|].
  pose proof (rep_cursor_at _ _ _ _ Hrc0 Hk) as <-. rewrite Hst in Hstage. destruct Hstage as [Hstage _], Hrc as [Hhk Hls Hlr _].
  exists (Committed (proposal_of c)), (finalize (proposal_of c)). split; [apply Z.eqb_refl|]. split.
  { eapply step_commit; [done|done|]. by eapply follows_cursor. }
  set (c' := with_bond_status CheckpointBondStatus.Released (with_status CheckpointStatus.Committed c)) in *.
  split; [right; eexists; split|].
  - eapply (cursor_write w); [done|apply Hlo| | |done]; done.
  - done.
  - cbn. unfold final_root. cbn. rewrite decide_False; [done|]. apply find_address_not_system.
  - eapply (rep_finalized _ _ c'); [done|by eapply (holds_write w); [|apply Hlo|..]|done].
  - eapply (single_write w w' (l_stage l) _ c'); [|done|done|right; by rewrite Hstage|apply Hl].
    intros b c2 Hb Hc2. split; [|apply Hlo]. apply Hda; [done|]. intros ->. by eapply checkpoint_not_cursor.
Qed.

Lemma cancel_refines cx proposer checkpoint cursor rest args w u w' l :
  program_id cx = P →
  process_cancel_checkpoint cx (proposer :: session :: checkpoint :: cursor :: rest) args w = Ok (u, w') →
  represents w l → advances (slot (clock cx)) l is_cancel w'.
Proof.
  intros HP Hr Hl. apply process_cancel_checkpoint_Ok in Hr as (s & c & k & _ & _ & Hc & Hk & Hck & Hcu & He & _ & Hst & _ & Hdl
    & Hact & _ & Hc' & Hk' & Hlo & Hda & _). rewrite HP in *. subst cursor. rewrite <- He in *. subst checkpoint.
  destruct (represents_active w l k c) as (Hho & Hip & Hrc); [done..|].
  destruct (represents_progress w l c) as (k0 & _ & _ & Hstage); [done..|]. rewrite Hst in Hstage. destruct Hstage as [Hstage _].
  exists Cancelled, (enter l Idle). split; [done|]. split; [by eapply step_cancel|].
  eapply (represents_release w w' l k c); [done|apply Hl|by rewrite Hstage|..|exact Hc'|done|apply Hlo|]; try done.
  intros b c2 Hb Hc2. split; [|apply Hlo]. apply Hda; [done|]. intros ->. by eapply checkpoint_not_cursor.
Qed.

Lemma settle_refines cx validator checkpoint cursor rest args w u w' l :
  program_id cx = P → wf borsh args → is_u64 (slot (clock cx)) →
  process_finish_settlement cx (validator :: session :: checkpoint :: cursor :: rest) args w = Ok (u, w') →
  represents w l → advances (slot (clock cx)) l is_settle w'.
Proof.
  intros HP Hargs Hnow Hr Hl. apply process_finish_settlement_Ok in Hr as (s & c & k & _ & _ & Hlc & Hlk & Hact & _ & Hc' & Hk' & Hs' & Hlo & Hf);
    [|done..]. apply load_checkpoint_for_settlement_Ok in Hlc as (Hck & Ho & Hc & Hv & Hse & He & Hst).
  apply (load_cursor_has _ _ _ _ _ HP) in Hlk as [Hk ->]. rewrite HP in *. rewrite <- He in *. subst checkpoint.
  destruct (represents_active w l k c) as (Hho & Hip & Hrc); [done|apply Hk|done|done|].
  destruct (represents_progress w l c) as (k0 & _ & _ & Hstage); [done..|]. rewrite Hst in Hstage.
  exists Settled, (enter l Idle). split; [done|]. split; [by eapply step_settle|].
  eapply (represents_release w w' l k c); [done|apply Hl|by rewrite Hstage|..|exact Hc'|done|apply Hlo|]; try done.
  intros b c2 Hb Hc2. assert (b ≠ cursor_key) by (intros ->; by eapply checkpoint_not_cursor).
  assert (b ≠ session).
  { intros ->. eapply (session_not_sized c2 380); [apply _|apply _|lia|lia|exact Hs'|done]. }
  assert (E : acct w' b = acct w b); [apply Hf; rewrite !not_elem_of_cons; auto using not_elem_of_nil|]. split; by rewrite E.
Qed.

Lemma bonded_write w w' c c' :
  bonded w c → Checkpoint.er_slot c' = Checkpoint.er_slot c → Checkpoint.bond_status c' = Checkpoint.bond_status c →
  Checkpoint.bond_lamports c' = Checkpoint.bond_lamports c →
  lamports (acct w' (slot_key (Checkpoint.er_slot c))) = lamports (acct w (slot_key (Checkpoint.er_slot c))) → bonded w' c'.
Proof. intros [H1 H2 H3] He Hs Hb Hl. split; [congruence..|]. by rewrite He, Hl. Qed.

(** The cursor is read only by content, so an account that holds something else
    is another one. *)
Lemma cursor_elsewhere w k a :
  has_cursor w k →
  (data (acct w a) = [] ∨ (∃ c, checkpoint_at w a c) ∨ (∃ h, challenge_at w a h) ∨ (∃ d, da_at w a d)) → cursor_key ≠ a.
Proof.
  intros [_ Hk _ _] Ha <-. apply (sized (n:=153)) in Hk. destruct Ha as [Ha|[[c Ha]|[[h Ha]|[d Ha]]]].
  - by rewrite Ha in Hk.
  - apply (sized (n:=380)) in Ha. congruence.
  - apply (sized (n:=255)) in Ha. congruence.
  - apply (sized (n:=178)) in Ha. congruence.
Qed.

Lemma open_refines cx challenger checkpoint challenge da_proof sys rest args w u w' l :
  program_id cx = P → challenger ∉ [checkpoint; challenge; da_proof] → is_key challenger → is_u64 (slot (clock cx)) →
  process_open_challenge cx (challenger :: session :: checkpoint :: challenge :: da_proof :: sys :: rest) args w
    = Ok (u, w') → represents w l → advances (slot (clock cx)) l is_open w'.
Proof.
  intros HP Hch Hck Hnow Hr Hl. apply process_open_challenge_Ok in Hr as (s & c & _ & Hc & Hst & Hres & Hdl & _ & Hh & Hd & Hhd & Hdd
    & Hh' & Hd' & Hc' & Ho1 & Ho2 & Ho3 & Hlam & Hdat & _); [|done..].
  apply (load_checkpoint_holds _ _ _ _ _ _ HP) in Hc as (Hho & _ & Hcke). rewrite HP in *. subst checkpoint challenge da_proof.
  assert (Hip : in_progress c = true) by (unfold in_progress; by rewrite Hst).
  destruct (represents_progress w l c) as (k & Hrc & Ha & Hstage); [done..|]. rewrite Hst, Hres in Hstage. destruct Hstage as [Hstage Hb].
  pose proof (rc_cursor _ _ _ Hrc) as Hk. set (ck := slot_key (Checkpoint.er_slot c)) in *.
  assert (N1 : cursor_key ≠ ck) by (apply (cursor_elsewhere w k); [done|right; left; exists c; apply Hho]).
  assert (N2 : cursor_key ≠ challenge_key ck) by (apply (cursor_elsewhere w k); [done|]; destruct Hhd as [?|(h & ? & _)]; eauto).
  assert (N3 : cursor_key ≠ da_key (challenge_key ck)) by (apply (cursor_elsewhere w k); [done|]; destruct Hdd as [?|[d ?]]; eauto 6).
  set (c' := with_challenger challenger (slot (clock cx)) c) in *.
  exists (Opened challenger), (enter l (Contested (proposal_of c) (start_game (slot (clock cx)) challenger (proposal_of c)))).
  split; [done|]. split; [by apply step_open|]. destruct Hrc as [_ Hls Hlr _]. split; [right; exists k; split|].
  - eapply has_cursor_same; [|done]. apply Hdat. rewrite !not_elem_of_cons; auto using not_elem_of_nil.
  - done.
  - done.
  - set (h' := opened_challenge _ _ _ _ _ _ _) in Hh'. change (rep_stage w' k (Contested (proposal_of c') (game_of h'))).
    eapply (rep_contested w' k c'); [done| |done| |split; done].
    + by eapply (holds_write w w' c).
    + by eapply (bonded_write w w' c).
  - eapply (single_write w w' (l_stage l) _ c'); [|done|done|right; by rewrite Hstage|apply Hl].
    intros b c2 Hb2 Hc2. apply Hdat. rewrite !not_elem_of_cons. split_and!; [done|..|apply not_elem_of_nil].
    + intros ->. by eapply checkpoint_not_challenge.
    + intros ->. by eapply checkpoint_not_da.
Qed.

(** The dispute an instruction finds is the ledger's. *)
Lemma represents_disputed w l cx er checkpoint challenge c h :
  program_id cx = P → represents w l → disputed cx w session er checkpoint challenge c h →
  ∃ k d, rep_cursor w k l ∧ active_is k c ∧ l_stage l = Contested (proposal_of c) (game_of h) ∧ bonded w c ∧
    contends w c h d ∧ holds w c ∧ er = Checkpoint.er_slot c ∧ checkpoint = slot_key (Checkpoint.er_slot c) ∧
    challenge = challenge_key checkpoint.
Proof.
  intros HP Hl [Hc Hst Hh Hact]. apply (load_checkpoint_holds _ _ _ _ _ _ HP) in Hc as (Hho & He & Hck).
  destruct (represents_progress w l c) as (k & Hrc & Ha & Hstage); [done|done|unfold in_progress; by rewrite Hst|].
  rewrite Hst in Hstage. destruct Hstage as (h0 & d & Hstage & Hb & Hco).
  destruct (load_challenge_contends _ _ _ _ _ _ _ _ _ HP Hh Hck Hco) as [-> Hch]. exists k, d. by split_and!.
Qed.

(** A move of the game: challenge and data availability proof are written. *)
Lemma represents_move w w' l k c h d h' d' :
  rep_cursor w k l → active_is k c → single w (l_stage l) → l_stage l = Contested (proposal_of c) (game_of h) →
  holds w c → Checkpoint.status c = CheckpointStatus.Challenged → bonded w c → contends w c h d → contends w' c h' d' →
  (∀ x, lamports (acct w' x) = lamports (acct w x) ∧ owner (acct w' x) = owner (acct w x)) →
  (∀ x, x ∉ [challenge_key (slot_key (Checkpoint.er_slot c)); da_key (challenge_key (slot_key (Checkpoint.er_slot c)))] →
     acct w' x = acct w x) →
  represents w' (enter l (Contested (proposal_of c) (game_of h'))).
Proof.
  intros [Hk Hs Hr _] Ha Hsg Hst Hho Hp Hb Hco Hco' Hlo Hf.
  assert (Hsame : ∀ x, x ∉ [challenge_key (slot_key (Checkpoint.er_slot c)); da_key (challenge_key (slot_key (Checkpoint.er_slot c)))] →
    same w w' x) by (intros x Hx; split; by rewrite Hf).
  assert (Hcw : ∀ b c2, checkpoint_at w' b c2 → same w w' b).
  { intros b c2 Hc2. apply Hsame. rewrite !not_elem_of_cons. split_and!; [intros ->..|apply not_elem_of_nil].
    - eapply checkpoint_not_challenge; [done|apply Hco'].
    - eapply checkpoint_not_da; [done|apply Hco']. }
  assert (Hho' : holds w' c).
  { apply (holds_same w); [|done]. apply Hsame. rewrite !not_elem_of_cons. split_and!; [intros E..|apply not_elem_of_nil].
    - eapply checkpoint_not_challenge; [|apply Hco]. rewrite <- E. apply Hho.
    - eapply checkpoint_not_da; [|apply Hco]. rewrite <- E. apply Hho. }
  split; [right; exists k; split|eapply (single_keep w w' (l_stage l)); [done|by rewrite Hst|done]].
  - eapply has_cursor_same; [apply Hsame|done]. rewrite !not_elem_of_cons. split_and!; [..|apply not_elem_of_nil];
      apply (cursor_elsewhere w k); try done; right; right; [left; exists h; apply Hco|right; exists d; apply Hco].
  - done.
  - done.
  - eapply rep_contested; try done. eapply bonded_same; [|done]. by rewrite (proj1 (Hlo _)).
Qed.

(** A write of the challenge that keeps what identifies it. *)
Lemma contends_write w w' c h d h' d' :
  contends w c h d → (∀ x, lamports (acct w' x) = lamports (acct w x) ∧ owner (acct w' x) = owner (acct w x)) →
  challenge_at w' (challenge_key (slot_key (Checkpoint.er_slot c))) h' →
  da_at w' (da_key (challenge_key (slot_key (Checkpoint.er_slot c)))) d' →
  Challenge.discriminator h' = Challenge.discriminator h → Challenge.checkpoint h' = Challenge.checkpoint h →
  Challenge.status h' = Challenge.status h → DataAvailabilityProof.discriminator d' = DataAvailabilityProof.discriminator d →
  DataAvailabilityProof.challenge d' = DataAvailabilityProof.challenge d →
  DataAvailabilityProof.checkpoint d' = DataAvailabilityProof.checkpoint d → contends w' c h' d'.
Proof.
  intros [G1 G2 G3 G4 G5 G6 G7 G8 G9 G10] Hlo Hh Hd E1 E2 E3 E4 E5 E6.
  unfold Challenge.is_valid, DataAvailabilityProof.is_valid in *. rewrite <- E1 in G3. rewrite <- E4 in G8.
  split; rewrite ?(proj2 (Hlo _)); try assumption; congruence.
Qed.

Lemma respond_refines cx validator checkpoint challenge da_proof rest args w u w' l :
  program_id cx = P → is_u64 (slot (clock cx)) → wf borsh args →
  process_respond_challenge cx (validator :: session :: checkpoint :: challenge :: da_proof :: rest) args w = Ok (u, w') →
  represents w l → advances (slot (clock cx)) l is_respond w'.
Proof.
  intros HP Hnow Hargs Hr Hl. apply process_respond_challenge_Ok in Hr as (s & c & h & d & m & r & t & _ & _ & _ & Hdis & Hin & Hturn & _
    & Hld & Hcl & Hd' & _ & _ & Hh' & Hlo & Hf); [|done..].
  pose proof (dp_status _ _ _ _ _ _ _ _ Hdis) as Hp.
  destruct (represents_disputed w l cx _ _ _ _ _ HP Hl Hdis) as (k & d0 & Hrc & Ha & Hst & Hb & Hco & Hho & _ & -> & ->).
  apply load_da_proof_Ok in Hld as (Hda & _ & Hdd & _). rewrite HP in Hda. subst da_proof.
  rewrite (co_da _ _ _ _ Hco) in Hdd. injection Hdd as ->.
  set (h' := with_claim m r t (next_deadline cx h) h) in *.
  assert (Hl' : represents w' (enter l (Contested (proposal_of c) (game_of h')))).
  { eapply represents_move; [done|done|apply Hl|done..| |done|done]. eapply contends_write; try done; unfold revealed; by case_match. }
  destruct Hcl as [(Hw & -> & -> & ->)|(Hw & Em & -> & -> & Hpath)].
  - exists Responded, (enter l (Contested (proposal_of c) (claim_step (slot (clock cx)) (game_of h)))).
    split; [done|]. split; [|done]. by apply step_respond_step.
  - exists Responded, (enter l (Contested (proposal_of c) (claim_middle (slot (clock cx)) m
      (RespondChallenge.claimed_state_root args) (game_of h)))).
    split; [done|]. split; [|done]. apply step_respond_middle; try done. by exists c, (RespondChallenge.trace_path_len args), (RespondChallenge.trace_path args).
Qed.

Lemma bisect_refines cx challenger checkpoint challenge rest args w u w' l :
  program_id cx = P → is_u64 (slot (clock cx)) →
  process_bisect_challenge cx (challenger :: session :: checkpoint :: challenge :: rest) args w = Ok (u, w') →
  represents w l → advances (slot (clock cx)) l is_bisect w'.
Proof.
  intros HP Hnow Hr Hl. apply process_bisect_challenge_Ok in Hr as (c & h & _ & Hdis & Hin & Hturn & _ & _ & _ & Hh' & Hlo & Hf); [|done].
  pose proof (dp_status _ _ _ _ _ _ _ _ Hdis) as Hp.
  destruct (represents_disputed w l cx _ _ _ _ _ HP Hl Hdis) as (k & d & Hrc & Ha & Hst & Hb & Hco & Hho & _ & -> & ->).
  set (up := BisectChallenge.dispute_upper args) in *. set (h' := with_half _ _ _ _) in *.
  assert (Hg : game_of h' = halve (slot (clock cx)) up (game_of h)) by (subst h'; by destruct up).
  exists (Bisected up), (enter l (Contested (proposal_of c) (halve (slot (clock cx)) up (game_of h)))).
  split; [done|]. split; [by apply step_bisect|]. rewrite <- Hg.
  assert (Hda : da_at w' (da_key (challenge_key (slot_key (Checkpoint.er_slot c)))) d).
  { rewrite Hf; [apply Hco|]. intros E. pose proof (co_da _ _ _ _ Hco) as X. rewrite E in X. apply (sized (n:=178)) in X.
    pose proof (co_data _ _ _ _ Hco) as Y. apply (sized (n:=255)) in Y. congruence. }
  eapply represents_move; [done|done|apply Hl|done..| |done|].
  - eapply contends_write; try done; subst h'; by destruct up.
  - intros x Hx. nodup. by apply Hf.
Qed.

Lemma represents_challenger_won w w' l k c h cu da :
  represents w l → rep_cursor w k l → l_stage l = Contested (proposal_of c) (game_of h) → cu = cursor_key →
  challenger_won w w' (slot_key (Checkpoint.er_slot c)) (challenge_key (slot_key (Checkpoint.er_slot c))) cu c h k →
  (∀ x, x ∉ [slot_key (Checkpoint.er_slot c); challenge_key (slot_key (Checkpoint.er_slot c)); cu; da] →
     data (acct w' x) = data (acct w x)) →
  (data (acct w' da) = data (acct w da) ∨ ∃ d, da_at w' da d) → represents w' (enter l Idle).
Proof.
  intros Hl Hrc Hst -> [_ Hc' Hh' Hk' Hlo] Hf Hda.
  eapply (represents_release w w' l k c); [done|apply Hl|by rewrite Hst|..|exact Hc'|done|apply Hlo|]; try done.
  intros b c2 Hb Hc2. split; [|apply Hlo]. destruct (decide (b = da)) as [->|].
  { destruct Hda as [|[d Hd]]; [done|]. by destruct (checkpoint_not_da _ _ _ _ Hc2 Hd). }
  apply Hf. rewrite !not_elem_of_cons. split_and!; [done|intros ->..|done|apply not_elem_of_nil].
  - by eapply checkpoint_not_challenge.
  - by eapply checkpoint_not_cursor.
Qed.

Lemma represents_respondent_won w w' l k c h d :
  represents w l → rep_cursor w k l → active_is k c → l_stage l = Contested (proposal_of c) (game_of h) → holds w c →
  bonded w c → contends w c h d →
  respondent_won w w' (slot_key (Checkpoint.er_slot c)) (challenge_key (slot_key (Checkpoint.er_slot c))) c h →
  represents w' (enter l (Waiting (proposal_of c) true)).
Proof.
  intros Hl [Hk Hs Hr _] Ha Hst Hho Hb Hco [Hc' Hh' Hlo Hf]. set (c' := with_resolution CheckpointStatus.Pending c) in *.
  split; [right; exists k; split|].
  - eapply has_cursor_same; [|done]. assert (E : acct w' cursor_key = acct w cursor_key).
    { apply Hf. rewrite !not_elem_of_cons. split_and!; [..|apply not_elem_of_nil]; apply (cursor_elsewhere w k); try done.
      - right; left. exists c. apply Hho.
      - right; right; left. exists h. apply Hco. }
    split; by rewrite E.
  - done.
  - done.
  - apply (rep_waiting w' k c'); [done| |done|].
    + by eapply (holds_write w w' c); [|apply Hlo|..].
    + by eapply (bonded_write w w' c); [|..|apply Hlo].
  - eapply (single_write w w' (l_stage l) _ c'); [|done|done|right; by rewrite Hst|apply Hl].
    intros b c2 Hb2 Hc2. assert (E : acct w' b = acct w b).
    { apply Hf. rewrite !not_elem_of_cons. split_and!; [done|intros ->|apply not_elem_of_nil]. by eapply checkpoint_not_challenge. }
    split; by rewrite E.
Qed.

Lemma timeout_refines cx caller checkpoint challenge da_proof recipient cursor rest args w u w' l :
  program_id cx = P →
  process_timeout_challenge cx (caller :: session :: checkpoint :: challenge :: da_proof :: recipient :: cursor :: rest) args w
    = Ok (u, w') → represents w l → advances (slot (clock cx)) l is_timeout w'.
Proof.
  intros HP Hr Hl. apply process_timeout_challenge_Ok in Hr as (c & h & k & d & [Hdis Hk _ _] & _ & _ & Hdl & _ & Hout).
  destruct (represents_disputed w l cx _ _ _ _ _ HP Hl Hdis) as (k0 & d0 & Hrc & Ha & Hst & Hb & Hco & Hho & _ & -> & ->).
  apply (load_cursor_has _ _ _ _ _ HP) in Hk as [Hk ->]. pose proof (rep_cursor_at _ _ _ _ Hrc (hk_data _ _ Hk)) as <-.
  destruct Hout as [(Hturn & Hwon & Hd' & Hf & _)|(Hturn & Hwon)].
  - exists RespondentTimedOut, (enter l Idle). split; [done|]. split; [by eapply step_respondent_timeout|].
    eapply represents_challenger_won; [done|done|done|done|done|exact Hf|right; eauto].
  - exists ChallengerTimedOut, (enter l (Waiting (proposal_of c) true)). split; [done|].
    split; [by eapply step_challenger_timeout|]. by eapply represents_respondent_won.
Qed.

Lemma resolve_refines `{Groth16} ft cx submitter checkpoint challenge da_proof proof recipient cursor rest args w u w' l :
  program_id cx = P →
  process_resolve_challenge ft cx
    (submitter :: session :: checkpoint :: challenge :: da_proof :: proof :: recipient :: cursor :: rest) args w = Ok (u, w') →
  represents w l → advances (slot (clock cx)) l is_resolve w'.
Proof.
  intros HP Hr Hl. apply process_resolve_challenge_Ok in Hr as (c & h & k & d & p & [Hdis Hk _ _] & Hin & Hturn & _ & _ & _ & _ & _ & Hout).
  destruct (represents_disputed w l cx _ _ _ _ _ HP Hl Hdis) as (k0 & d0 & Hrc & Ha & Hst & Hb & Hco & Hho & _ & -> & ->).
  apply (load_cursor_has _ _ _ _ _ HP) in Hk as [Hk ->]. pose proof (rep_cursor_at _ _ _ _ Hrc (hk_data _ _ Hk)) as <-.
  destruct Hout as [(_ & _ & Hwon & Hf & _ & Hda)|(_ & Hwon)].
  - exists ProofRejected, (enter l Idle). split; [done|]. split; [by eapply step_reject|].
    eapply represents_challenger_won; [done|done|done|done|done|exact Hf|by left].
  - exists ProofAccepted, (enter l (Waiting (proposal_of c) true)). split; [done|].
    split; [by eapply step_accept|]. by eapply represents_respondent_won.
Qed.

(** ** What leaves the ledger alone *)

(** The addresses the ledger is read from. *)
Inductive protected : Address → Prop :=
| protected_cursor : protected cursor_key
| protected_checkpoint er : protected (slot_key er)
| protected_challenge er : protected (challenge_key (slot_key er))
| protected_da er : protected (da_key (challenge_key (slot_key er))).

Definition tracked (w : World) (a : Address) : Prop :=
  (∃ k, cursor_at w a k) ∨ (∃ c, checkpoint_at w a c) ∨ (∃ h, challenge_at w a h) ∨ (∃ d, da_at w a d).

Lemma represents_frame w w' l :
  (∀ a, protected a → tracked w a ∨ tracked w' a → same w w' a) →
  (data (acct w cursor_key) = [] → data (acct w' cursor_key) = []) →
  (∀ c, holds w c → in_progress c = true →
     lamports (acct w (slot_key (Checkpoint.er_slot c))) ≤ lamports (acct w' (slot_key (Checkpoint.er_slot c)))) →
  represents w l → represents w' l.
Proof.
  intros Hs Hcur Hlam [Hk Hsg].
  assert (Hho : ∀ c, holds w c → holds w' c).
  { intros c Hc. eapply holds_same; [|done]. apply Hs; [constructor|]. left; right; left. exists c. apply Hc. }
  assert (Hco : ∀ c h d, contends w c h d → contends w' c h d).
  { intros c h d Hc. eapply contends_same; [..|done]; (apply Hs; [constructor|]); left; right; right.
    - left. exists h. apply Hc.
    - right. exists d. apply Hc. }
  split.
  - destruct Hk as [[He ->]|(k & [Hhk Hls Hlr Hst])]; [left; auto|right]. exists k. split; [|done|done|].
    + eapply has_cursor_same; [|done]. apply Hs; [constructor|]. left; left. exists k. apply Hhk.
    + destruct Hst as [|c Ha Hc Hp Hb|c h d Ha Hc Hp Hb Hcn|]; econstructor; eauto;
        (eapply bonded_same; [|done]); apply Hlam; try done; unfold in_progress; by rewrite Hp.
  - intros c Hc. apply Hsg. eapply (holds_same w'); [|done]. apply same_sym, Hs; [constructor|].
    right; right; left. exists c. apply Hc.
Qed.

Lemma proof_written_tracked proof w w' a :
  proof_written proof w w' → tracked w a ∨ tracked w' a → a ≠ proof.
Proof.
  intros [Hb Hs Hf] Ht ->. unfold tracked in Ht.
  assert (∀ bs, (∃ k : CheckpointCursor.t, try_from_slice bs = Some k) ∨ (∃ c : Checkpoint.t, try_from_slice bs = Some c) ∨
    (∃ h : Challenge.t, try_from_slice bs = Some h) ∨ (∃ d : DataAvailabilityProof.t, try_from_slice bs = Some d) →
    (0 < length bs < 668)%nat) as Hlen.
  { intros bs [[? E]|[[? E]|[[? E]|[? E]]]].
    - apply (sized (n:=153)) in E. lia.
    - apply (sized (n:=380)) in E. lia.
    - apply (sized (n:=255)) in E. lia.
    - apply (sized (n:=178)) in E. lia. }
  destruct Ht as [Ht|Ht]; apply Hlen in Ht; [|lia]. destruct Hb as [Hb|Hb]; [rewrite Hb in Ht; cbn in Ht|]; lia.
Qed.

(** Filling a proof account leaves the ledger as it is. *)
Lemma represents_proof_written cx er checkpoint challenge payer proof w w' l :
  program_id cx = P → (∃ c h, disputed cx w session er checkpoint challenge c h) → payer = proof ∨ payer ≠ checkpoint →
  proof_written proof w w' → (∀ x, x ≠ payer → x ≠ proof → acct w' x = acct w x) → represents w l → represents w' l.
Proof.
  intros HP (c & h & Hdis) Hpc Hw Hf Hl.
  destruct (represents_disputed w l cx _ _ _ _ _ HP Hl Hdis) as (k & d & Hrc & _ & Hst & _ & _ & Hho & _ & -> & _).
  eapply represents_frame; [..|done].
  - intros a _ Ht. apply (pw_data _ _ _ Hw). by eapply proof_written_tracked.
  - intros He. destruct Hrc as [[_ Hd _ _] _ _ _]. rewrite He in Hd. by apply (sized (n:=153)) in Hd.
  - intros c2 Hc2 Hip. pose proof (re_single _ _ Hl c2 Hc2 Hip) as Hs. rewrite Hst in Hs. injection Hs as Hs. rewrite <- Hs.
    assert (Hne : slot_key (Checkpoint.er_slot c) ≠ proof).
    { eapply proof_written_tracked; [done|]. left; right; left. exists c. apply Hho. }
    rewrite Hf; [done| |done]. destruct Hpc as [->|Hpc]; congruence.
Qed.

(** ** Runs *)

(** The instructions, with the accounts each takes; the second is the session. *)
Inductive Instr : Set :=
| IPropose (proposer checkpoint cursor system : Address) (rest : list Address) (args : ProposeCheckpoint.t) (version2 : bool)
| ICommit (committer checkpoint cursor proposer : Address) (rest : list Address) (args : CommitCheckpoint.t) (version2 : bool)
| ICancel (proposer checkpoint cursor : Address) (rest : list Address) (args : CancelCheckpoint.t)
| IOpen (challenger checkpoint challenge da_proof system : Address) (rest : list Address) (args : OpenChallenge.t)
| IRespond (validator checkpoint challenge da_proof : Address) (rest : list Address) (args : RespondChallenge.t)
| IBisect (challenger checkpoint challenge : Address) (rest : list Address) (args : BisectChallenge.t)
| ITimeout (caller checkpoint challenge da_proof recipient cursor : Address) (rest : list Address) (args : TimeoutChallenge.t)
| ICreate (authority checkpoint challenge proof system : Address) (rest : list Address) (args : CreateStepProof.t)
| IWrite (authority checkpoint challenge proof : Address) (rest : list Address) (args : WriteStepProof.t)
| ISeal (authority checkpoint challenge proof : Address) (rest : list Address) (args : SealStepProof.t)
| IResolve (submitter checkpoint challenge da_proof proof recipient cursor : Address) (rest : list Address)
    (args : ResolveChallenge.t)
| IFinish (validator checkpoint cursor : Address) (rest : list Address) (args : FinishSettlement.t).

Definition exec `{Groth16} (ft : Features) (cx : Ctx) (i : Instr) : prog unit :=
  match i with
  | IPropose p ck cu sys rest args v2 => process_propose_checkpoint_versioned cx (p :: session :: ck :: cu :: sys :: rest) args v2
  | ICommit p ck cu pr rest args v2 => process_commit_checkpoint_versioned cx (p :: session :: ck :: cu :: pr :: rest) args v2
  | ICancel p ck cu rest args => process_cancel_checkpoint cx (p :: session :: ck :: cu :: rest) args
  | IOpen p ck ch da sys rest args => process_open_challenge cx (p :: session :: ck :: ch :: da :: sys :: rest) args
  | IRespond p ck ch da rest args => process_respond_challenge cx (p :: session :: ck :: ch :: da :: rest) args
  | IBisect p ck ch rest args => process_bisect_challenge cx (p :: session :: ck :: ch :: rest) args
  | ITimeout p ck ch da to cu rest args => process_timeout_challenge cx (p :: session :: ck :: ch :: da :: to :: cu :: rest) args
  | ICreate p ck ch pf sys rest args => process_create_step_proof ft cx (p :: session :: ck :: ch :: pf :: sys :: rest) args
  | IWrite p ck ch pf rest args => process_write_step_proof cx (p :: session :: ck :: ch :: pf :: rest) args
  | ISeal p ck ch pf rest args => process_seal_step_proof cx (p :: session :: ck :: ch :: pf :: rest) args
  | IResolve p ck ch da pf to cu rest args =>
      process_resolve_challenge ft cx (p :: session :: ck :: ch :: da :: pf :: to :: cu :: rest) args
  | IFinish p ck cu rest args => process_finish_settlement cx (p :: session :: ck :: cu :: rest) args
  end.

(** What the transport guarantees of an instruction: its data fit their types,
    and the signer that pays is a 32-byte key and none of the program addresses
    named beside it. *)
Definition admissible (i : Instr) : Prop :=
  match i with
  | IPropose p ck cu _ _ args _ => wf borsh args ∧ p ∉ [ck; cu]
  | IOpen p ck ch da _ _ _ => is_key p ∧ p ∉ [ck; ch; da]
  | IRespond _ _ _ _ _ args => wf borsh args
  | ICreate p ck _ pf _ _ args => is_key p ∧ wf borsh args ∧ p ∉ [ck; pf]
  | IFinish _ _ _ _ args => wf borsh args
  | _ => True
  end.

(** The transitions an instruction can be; filling a proof account is none. *)
Definition label_ok (i : Instr) : option (Label → bool) :=
  match i with
  | IPropose _ _ _ _ _ _ _ => Some is_propose
  | ICommit _ _ _ _ _ args _ => Some (is_commit (CommitCheckpoint.er_slot args))
  | ICancel _ _ _ _ _ => Some is_cancel
  | IOpen _ _ _ _ _ _ _ => Some is_open
  | IRespond _ _ _ _ _ _ => Some is_respond
  | IBisect _ _ _ _ _ => Some is_bisect
  | ITimeout _ _ _ _ _ _ _ _ => Some is_timeout
  | ICreate _ _ _ _ _ _ _ | IWrite _ _ _ _ _ _ | ISeal _ _ _ _ _ _ => None
  | IResolve _ _ _ _ _ _ _ _ _ => Some is_resolve
  | IFinish _ _ _ _ _ => Some is_settle
  end.

(** A successful instruction is a transition, or leaves the ledger alone. *)
Lemma exec_refines `{Groth16} ft cx i w u w' l :
  program_id cx = P → is_u64 (slot (clock cx)) → admissible i → exec ft cx i w = Ok (u, w') → represents w l →
  match label_ok i with Some ok => advances (slot (clock cx)) l ok w' | None => represents w' l end.
Proof.
  intros HP Hnow Hi Hr Hl. destruct i; cbn [admissible exec label_ok] in *.
  - destruct Hi as [Hi Hp]. nodup. revert Hr Hl. by apply propose_refines.
  - by eapply commit_refines.
  - by eapply cancel_refines.
  - destruct Hi. by eapply open_refines.
  - by eapply respond_refines.
  - by eapply bisect_refines.
  - by eapply timeout_refines.
  - destruct Hi as (Hk & Hi & Hp). nodup. apply process_create_step_proof_Ok in Hr as (Hd & Hw & Hf); [|done..].
    eapply (represents_proof_written cx _ _ _ authority proof); try done. by right.
  - apply process_write_step_proof_Ok in Hr as (Hd & Hw & Hf).
    eapply (represents_proof_written cx _ _ _ proof proof); try done; [by left|]. auto.
  - apply process_seal_step_proof_Ok in Hr as (Hd & Hw & Hf).
    eapply (represents_proof_written cx _ _ _ proof proof); try done; [by left|]. auto.
  - by eapply resolve_refines.
  - by eapply settle_refines.
Qed.

Section runs.
Context `{Groth16} (ft : Features).

(** Successful instructions on the session, in order, with anything in between
    that leaves the session's checkpoint accounts their data and owner and takes
    no lamports from them. *)
Inductive session_run (w : World) : list Instr → World → Prop :=
| run_nil : session_run w [] w
| run_exec ixs w1 cx i u w2 :
    session_run w ixs w1 → program_id cx = P → is_u64 (slot (clock cx)) → admissible i → exec ft cx i w1 = Ok (u, w2) →
    session_run w (ixs ++ [i]) w2
| run_other ixs w1 w2 :
    session_run w ixs w1 →
    (∀ a, protected a → same w1 w2 a ∧ lamports (acct w1 a) ≤ lamports (acct w2 a)) → session_run w ixs w2.

Lemma represents_between w w' l :
  (∀ a, protected a → same w w' a ∧ lamports (acct w a) ≤ lamports (acct w' a)) → represents w l → represents w' l.
Proof.
  intros Hs Hl. eapply represents_frame; [..|done].
  - intros a Ha _. by apply Hs.
  - intros He. destruct (Hs cursor_key) as [[Hd _] _]; [constructor|]. congruence.
  - intros c _ _. apply Hs. constructor.
Qed.

(** The transition is one the instruction can be. *)
Definition fits_label (i : Instr) (a : Label) : Prop := ∃ ok, label_ok i = Some ok ∧ ok a = true.

(** The instructions that are transitions. *)
Definition acting (ixs : list Instr) : list Instr :=
  List.filter (λ i, match label_ok i with Some _ => true | None => false end) ixs.

Lemma run_refines w ixs w' l :
  session_run w ixs w' → represents w l →
  ∃ tr l', path l tr l' ∧ represents w' l' ∧ Forall2 fits_label (acting ixs) tr.
Proof.
  intros Hr Hl. induction Hr as [|ixs w1 cx i u w2 _ IH HP Hnow Hi Hx|ixs w1 w2 _ IH Hs].
  - exists [], l. split; [constructor|done].
  - destruct IH as (tr & l1 & Hp & Hl1 & Hm). pose proof (exec_refines _ _ _ _ _ _ _ HP Hnow Hi Hx Hl1) as Hx'.
    unfold acting in *. rewrite List.filter_app. cbn [List.filter]. destruct (label_ok i) as [ok|] eqn:Hok.
    + destruct Hx' as (a & l2 & Ha & Hstep & Hl2). exists (tr ++ [a]), l2. split; [by eapply path_snoc|]. split; [done|].
      apply Forall2_app; [done|]. constructor; [by exists ok|done].
    + exists tr, l1. by rewrite app_nil_r.
  - destruct IH as (tr & l1 & Hp & Hl1 & Hm). exists tr, l1. split; [done|]. split; [|done].
    by eapply represents_between.
Qed.

(** ** Properties *)

Definition commit_slot (i : Instr) : option Z :=
  match i with ICommit _ _ _ _ _ args _ => Some (CommitCheckpoint.er_slot args) | _ => None end.
Definition is_open_instr (i : Instr) : bool := match i with IOpen _ _ _ _ _ _ _ => true | _ => false end.
Definition is_move_instr (i : Instr) : bool :=
  match i with
  | IRespond _ _ _ _ _ _ | IBisect _ _ _ _ _ | ITimeout _ _ _ _ _ _ _ _ | IResolve _ _ _ _ _ _ _ _ _ => true
  | _ => false
  end.
Definition count (f : Instr → bool) (ixs : list Instr) : Z := Z.of_nat (length (List.filter f ixs)).

Lemma fits_commit i a : fits_label i a → commit_slot i = p_slot <$> committed a.
Proof. intros (ok & Hi & Ha). destruct i; try injection Hi as <-; try done; destruct a; try done. cbn in *. bprop. by rewrite Ha. Qed.
Lemma fits_move i a : fits_label i a → is_move_instr i = is_move a.
Proof. intros (ok & Hi & Ha). destruct i; try injection Hi as <-; try done; by destruct a. Qed.
Lemma fits_open i a : fits_label i a → is_open_instr i = is_open a.
Proof. intros (ok & Hi & Ha). destruct i; try injection Hi as <-; try done; by destruct a. Qed.

Lemma acting_commits ixs : omap commit_slot (acting ixs) = omap commit_slot ixs.
Proof. unfold acting. induction ixs as [|[] ixs IH]; [done|..]; cbn; rewrite <- IH; done. Qed.
Lemma acting_count f ixs : (∀ i, label_ok i = None → f i = false) → count f (acting ixs) = count f ixs.
Proof.
  intros Hf. unfold count, acting. induction ixs as [|i ixs IH]; [done|]. cbn [List.filter].
  destruct (label_ok i) eqn:Hi; cbn [List.filter].
  - destruct (f i); cbn [length]; lia.
  - by rewrite Hf.
Qed.

Lemma fits_commits ixs tr : Forall2 fits_label ixs tr → omap commit_slot ixs = p_slot <$> commits tr.
Proof.
  induction 1 as [|i a ixs tr Hia _ IH]; [done|]. apply fits_commit in Hia. unfold commits in *. cbn. rewrite Hia, IH.
  by destruct (committed a).
Qed.
Lemma fits_count f g ixs tr :
  (∀ i a, fits_label i a → f i = g a) → Forall2 fits_label ixs tr → count f ixs = Z.of_nat (length (List.filter g tr)).
Proof.
  intros Hfg. unfold count. induction 1 as [|i a ixs tr Hia _ IH]; [done|]. cbn [List.filter].
  rewrite (Hfg _ _ Hia). destruct (g a); cbn [length]; lia.
Qed.

(** The checkpoint an instruction finalizes when it succeeds at [w]: what the
    account it commits holds there. *)
Definition finalizes (w : World) (i : Instr) : list Checkpoint.t :=
  match i with
  | ICommit _ ck _ _ _ _ _ => match try_from_slice (data (acct w ck)) with Some c => [c] | None => [] end
  | _ => []
  end.

(** A run of [session_run] with the checkpoints it finalizes, each as it stood in
    its account when it was committed. *)
Inductive recorded_run (w : World) : list Instr → list Checkpoint.t → World → Prop :=
| rec_nil : recorded_run w [] [] w
| rec_exec ixs cs w1 cx i u w2 :
    recorded_run w ixs cs w1 → program_id cx = P → is_u64 (slot (clock cx)) → admissible i →
    exec ft cx i w1 = Ok (u, w2) → recorded_run w (ixs ++ [i]) (cs ++ finalizes w1 i) w2
| rec_other ixs cs w1 w2 :
    recorded_run w ixs cs w1 →
    (∀ a, protected a → same w1 w2 a ∧ lamports (acct w1 a) ≤ lamports (acct w2 a)) → recorded_run w ixs cs w2.

(** Every run has a record. *)
Lemma run_recorded w ixs w' : session_run w ixs w' → ∃ cs, recorded_run w ixs cs w'.
Proof.
  induction 1 as [|ixs w1 cx i u w2 _ [cs IH]|ixs w1 w2 _ [cs IH]].
  - exists []. constructor.
  - eexists. by eapply rec_exec.
  - exists cs. by eapply rec_other.
Qed.

(** The transition of a successful commit is that of the checkpoint in the
    account it was given. *)
Lemma commit_records cx i w u w' l a l' :
  program_id cx = P → exec ft cx i w = Ok (u, w') → represents w l → step (slot (clock cx)) l a l' → fits_label i a →
  proposal_of <$> finalizes w i = match committed a with Some p => [p] | None => [] end.
Proof.
  intros HP Hr Hl Hstep Hfit. pose proof (fits_commit _ _ Hfit) as Hc.
  destruct i as [| p ck cu pr rest args v2| | | | | | | | | |]; try (by destruct (committed a)).
  destruct a; try done. cbn [finalizes committed exec] in *.
  apply process_commit_checkpoint_Ok in Hr as (s & c & k & _ & _ & Hck & Hk & Hpk & Hcu & He & _ & Hst & _ & _ & _ & _ & Hact & _).
  rewrite HP in *. subst cu. rewrite <- He in *. subst ck. rewrite Hck.
  destruct (represents_active w l k c) as (Hho & Hip & _); [done..|].
  destruct (represents_progress w l c) as (k0 & _ & _ & Hstage); [done..|].
  rewrite Hst in Hstage. destruct Hstage as [Hstage _]. inversion Hstep as [| | | | | | | | | |q r Hq|]; subst.
  rewrite Hstage in Hq. by injection Hq as <- _.
Qed.

Lemma recorded_refines w ixs cs w' l :
  recorded_run w ixs cs w' → represents w l →
  ∃ tr l', path l tr l' ∧ represents w' l' ∧ commits tr = proposal_of <$> cs ∧ omap commit_slot ixs = p_slot <$> commits tr.
Proof.
  intros Hr Hl. induction Hr as [|ixs cs w1 cx i u w2 _ IH HP Hnow Hi Hx|ixs cs w1 w2 _ IH Hs].
  - exists [], l. split; [constructor|done].
  - destruct IH as (tr & l1 & Hp & Hl1 & Hcs & Hsl). pose proof (exec_refines _ _ _ _ _ _ _ HP Hnow Hi Hx Hl1) as Hx'.
    rewrite omap_app, fmap_app, Hsl. cbn [omap list_omap]. destruct (label_ok i) as [ok|] eqn:Hok.
    + destruct Hx' as (a & l2 & Ha & Hstep & Hl2). assert (Hfit : fits_label i a) by (by exists ok).
      exists (tr ++ [a]), l2. split; [by eapply path_snoc|]. split; [done|].
      rewrite commits_snoc, fmap_app, Hcs, (commit_records _ _ _ _ _ _ _ _ HP Hx Hl1 Hstep Hfit), (fits_commit _ _ Hfit).
      split; [done|]. by destruct (committed a).
    + exists tr, l1. destruct i; try done; cbn [commit_slot finalizes fmap list_fmap]; by rewrite !app_nil_r.
  - destruct IH as (tr & l1 & Hp & Hl1 & Hm). exists tr, l1. split; [done|]. split; [|done].
    by eapply represents_between.
Qed.

(** C3: whatever sequence of checkpoint, challenge, step-proof
    and finishing instructions succeeds on a session, with whatever happens in
    between that leaves the session's checkpoint accounts alone, the accounts go
    through the lifecycle of the outcome matrix: each instruction is the
    transition it is meant to be (filling a proof account is none), at most one
    checkpoint is in progress at any time, it is the one the cursor names, and
    while it is pending or challenged its account holds the bond above its rent. *)
Theorem checkpoint_lifecycle w ixs w' l :
  represents w l → session_run w ixs w' →
  ∃ tr l', path l tr l' ∧ represents w' l' ∧ Forall2 fits_label (acting ixs) tr.
Proof. intros Hl Hr. by apply (run_refines w). Qed.

(** C6: take the checkpoints a run finalizes, each as its account held it at
    the moment it was committed.  They are those of the run's commit instructions,
    in order.  Their ER slots strictly increase, beyond the slot that was final
    before; the previous state root of each is the new state root of the one
    finalized before it; and the cursor at the end names the slot and the new
    state root of the last of them.  Cancelled, invalidated or challenged
    checkpoints never move what is final. *)
Theorem finalized_checkpoints_chain w ixs cs w' l k :
  represents w l → recorded_run w ixs cs w' → cursor_at w' cursor_key k →
  Checkpoint.er_slot <$> cs = omap commit_slot ixs ∧
  linked (l_slot l) (l_root l) (proposal_of <$> cs) ∧
  (CheckpointCursor.latest_finalized_er_slot k, final_root k)
    = final_after (l_slot l) (l_root l) (proposal_of <$> cs).
Proof.
  intros Hl Hr Hk. destruct (recorded_refines _ _ _ _ _ Hr Hl) as (tr & l' & Hp & Hl' & Hcs & Hsl).
  apply commits_linked in Hp as [Hlink Hfin]. rewrite Hcs in *. split_and!; [|done|].
  - rewrite Hsl, <- list_fmap_compose. done.
  - rewrite <- Hfin. destruct Hl' as [[[He _]|(k' & Hk')] _]; [rewrite He in Hk; by apply (sized (n:=153)) in Hk|].
    rewrite (rep_cursor_at _ _ _ _ Hk' Hk). by destruct Hk' as [_ -> -> _].
Qed.

(** C18: disputes are short.  In a run at most ten instructions
    that answer, bisect, time out or resolve succeed for every challenge that is
    opened, besides those left in a dispute under way at the start: a challenge
    over at most sixteen steps ends after at most ten moves. *)
Theorem disputes_bounded w ixs w' l :
  represents w l → good l → session_run w ixs w' →
  count is_move_instr ixs ≤ budget l + 10 * count is_open_instr ixs.
Proof.
  intros Hl Hg Hr. destruct (run_refines _ _ _ _ Hr Hl) as (tr & l' & Hp & _ & Hm).
  rewrite <- (acting_count is_move_instr), <- (acting_count is_open_instr) by (by intros []).
  rewrite (fits_count _ _ _ _ fits_move Hm), (fits_count _ _ _ _ fits_open Hm).
  destruct (moves_bounded _ _ _ Hp Hg) as [Hb ?]. unfold moves, openings in Hb. lia.
Qed.

(** C17: in every dispute a run reaches, the interval is
    not empty and within the checkpoint's steps; the state roots at both ends, and
    at the middle when the challenger is to choose, are the checkpoint's own first
    and last roots or were accepted against its trace root; a step is proved only
    when a single one is left; the hard deadline is the checkpoint's deadline, no
    turn ends after it, and the rounds played and left are at most log2 of the
    number of steps. *)
Theorem disputed_interval_attested w ixs w' l cx er checkpoint challenge c h :
  represents w l → good l → session_run w ixs w' → program_id cx = P →
  disputed cx w' session er checkpoint challenge c h → game_ok (proposal_of c) (game_of h).
Proof.
  intros Hl Hg Hr HP Hd. destruct (run_refines _ _ _ _ Hr Hl) as (tr & l' & Hp & Hl' & _).
  apply path_good in Hp; [|done]. destruct (represents_disputed _ _ _ _ _ _ _ _ HP Hl' Hd) as (k & d & _ & _ & Hst & _).
  unfold good in Hp. rewrite Hst in Hp. apply Hp.
Qed.
End runs.
End dispute.

(** ** Example

    On the session of [SessionExample] the validator proposes two steps for ER
    slot 40; a challenger opens a dispute, picks the lower half, and does not prove
    the step that is left; the checkpoint is committed at its deadline. *)

Module DisputeExample.
Import SessionExample.
Definition challenger : Address := key 8.
Definition er_slot : Z := 40.
Definition checkpoint : Address := Eval vm_compute in (find_checkpoint_pda portal session er_slot).1.
Definition challenge : Address := Eval vm_compute in (find_challenge_pda portal checkpoint).1.
Definition da_proof : Address := Eval vm_compute in (find_da_proof_pda portal challenge).1.
Definition w0 : World := put validator (wallet 10000000000) (put challenger (wallet 1000000000) w1).
Definition at_slot (t : Z) : Ctx :=
  cx_of portal t [validator; challenger; session; checkpoint; cursor; challenge; da_proof] [validator; challenger].

(** States 61, 62 and 63. *)
Definition leaves : list Hash32 := [trace_leaf 0 (key 61); trace_leaf 1 (key 62); trace_leaf 2 (key 63)].
Definition trace_root : Hash32 := Eval vm_compute in
  match MerkleTree.new TreeKind.Trace leaves with
  | Ok t => match MerkleTree.root t with Ok r => r | Err _ => zero32 end
  | Err _ => zero32
  end.
Definition middle_path : list Hash32 := Eval vm_compute in
  match MerkleTree.new TreeKind.Trace leaves with
  | Ok t => match MerkleTree.path t 1 with Ok p => MerkleAuthenticationPathV1.siblings p | Err _ => [] end
  | Err _ => []
  end ++ [zero32; zero32; zero32].

Definition propose : Instr :=
  IPropose validator checkpoint cursor system_id []
    (ProposeCheckpoint.mk er_slot 2 (key 61) (key 63) trace_root (key 25) (key 26) (key 27) (key 28) 800) false.
Definition open_it : Instr := IOpen challenger checkpoint challenge da_proof system_id [] (OpenChallenge.mk er_slot).
Definition respond (step : Z) (root : Hash32) : Instr :=
  IRespond validator checkpoint challenge da_proof []
    (RespondChallenge.mk er_slot step root 2 middle_path (key 27) (key 29)).
Definition bisect : Instr := IBisect challenger checkpoint challenge [] (BisectChallenge.mk er_slot false).
Definition time_out : Instr :=
  ITimeout validator checkpoint challenge da_proof challenger cursor [] (TimeoutChallenge.mk er_slot).
Definition commit : Instr := ICommit challenger checkpoint cursor validator [] (CommitCheckpoint.mk er_slot) false.

(** The run and the slots at which its instructions are executed. *)
Definition dispute : list (Z * Instr) :=
  [(200, propose); (210, open_it); (220, respond 1 (key 62)); (230, bisect); (240, respond 0 (key 62))].
Definition story : list (Z * Instr) := dispute ++ [(990, time_out); (1000, commit)].
Fixpoint play (context : Z → Ctx) (l : list (Z * Instr)) (w : World) : option World :=
  match l with
  | [] => Some w
  | (t, i) :: l' =>
      match exec session VerifierExample.features (context t) i w with Ok (_, w') => play context l' w' | Err _ => None end
  end.
Definition end_of (l : list (Z * Instr)) : World := default w0 (play at_slot l w0).
End DisputeExample.

(** No account has the size of a checkpoint. *)
Definition no_checkpoints (w : World) : bool :=
  forallb (λ p, negb (length (data p.2) =? 380)%nat) (map_to_list (accts w)).

Lemma represents_fresh `{HostLaws} P session w :
  data (acct w (find_checkpoint_cursor_pda P session).1) = [] → no_checkpoints w = true →
  represents P session w (mkLedger 0 None Idle).
Proof.
  intros Hk Hc. split; [by left|]. intros c Hh _. exfalso. pose proof (ho_data _ _ _ _ Hh) as Hd%(sized (n:=380)).
  unfold acct in Hd. destruct (accts w !! _) as [x|] eqn:Hx; [|done]. cbn in Hd.
  unfold no_checkpoints in Hc. rewrite forallb_forall in Hc. apply elem_of_map_to_list, list_elem_of_In in Hx.
  specialize (Hc _ Hx). cbn in Hc. by rewrite Hd in Hc.
Qed.

(** A dispute of which [f] holds. *)
Definition disputedb `{Host} (cx : Ctx) (w : World) (session : Address) (er : Z) (checkpoint challenge : Address)
    (f : Checkpoint.t → Challenge.t → bool) : bool :=
  match load_checkpoint cx session er checkpoint w, load_challenge cx checkpoint challenge w with
  | Ok (c, _), Ok (h, _) =>
      (Checkpoint.status c == CheckpointStatus.Challenged) && (Challenge.status h == ChallengeStatus.Active) && f c h
  | _, _ => false
  end.

Lemma disputedb_disputed `{HostLaws} cx w session er checkpoint challenge f :
  disputedb cx w session er checkpoint challenge f = true →
  ∃ c h, disputed cx w session er checkpoint challenge c h ∧ f c h = true.
Proof.
  unfold disputedb. destruct (load_checkpoint _ _ _ _ _) as [[c w1]|] eqn:Hc; [|done].
  destruct (load_challenge _ _ _ _) as [[h w2]|] eqn:Hh; [|done]. intros Hg. bprop.
  pose proof (read_only _ _ _ Hc). pose proof (read_only _ _ _ Hh). subst w1 w2. by exists c, h.
Qed.

Module DisputeRuns.
Import SessionExample.
Import DisputeExample.

Lemma run_app `{HostLaws, Groth16} P s ft w i1 w1 i2 w2 :
  session_run P s ft w i1 w1 → session_run P s ft w1 i2 w2 → session_run P s ft w (i1 ++ i2) w2.
Proof.
  intros Hr1. induction 1 as [|ixs w3 cx i u w4 _ IH HP Hn Ha Hx|ixs w3 w4 _ IH Hs].
  - by rewrite app_nil_r.
  - rewrite app_assoc. by eapply run_exec.
  - by eapply run_other.
Qed.

Lemma play_run context l : ∀ w w',
  (∀ t, program_id (context t) = portal ∧ slot (clock (context t)) = t) →
  Forall (λ p, is_u64 p.1 ∧ admissible p.2) l → play context l w = Some w' →
  session_run portal session VerifierExample.features w (l.*2) w'.
Proof.
  induction l as [|[t i] l IH]; intros w w' Hcx Hl Hp; [injection Hp as <-; constructor|].
  apply list.Forall_cons in Hl as [[Ht Hi] Hl]. cbn [play] in Hp.
  destruct (exec session _ (context t) i w) as [[u w1]|e] eqn:Hx; [|done]. destruct (Hcx t) as [HP Hs].
  apply (run_app _ _ _ w [i] w1); [|by apply IH].
  eapply (run_exec _ _ _ w [] w (context t)); [constructor|done|by rewrite Hs|done|done].
Qed.

Lemma story_plays : match play at_slot story w0 with Some _ => true | None => false end = true.
Proof. vm_compute. reflexivity. Qed.
Lemma dispute_plays : match play at_slot dispute w0 with Some _ => true | None => false end = true.
Proof. vm_compute. reflexivity. Qed.
Lemma fresh : represents portal session w0 (mkLedger 0 None Idle).
Proof. apply represents_fresh; vm_compute; reflexivity. Qed.

Lemma story_admissible : Forall (λ p, is_u64 p.1 ∧ admissible p.2) story.
Proof.
  assert (∀ t, 0 ≤ t ≤ 1000 → is_u64 t) by (intros t Ht; unfold in_width, umax; lia).
  repeat (apply Forall_cons_2; [split; [cbn; auto with lia|]|]); [..|apply Forall_nil_2]; cbn [snd admissible];
    rewrite ?not_elem_of_cons; repeat split; try concrete_wf; try apply not_elem_of_nil;
    apply (bool_decide_unpack _); vm_compute; reflexivity.
Qed.
Lemma dispute_admissible : Forall (λ p, is_u64 p.1 ∧ admissible p.2) dispute.
Proof. pose proof story_admissible as Hs. unfold story in Hs. by apply Forall_app in Hs as [Hs _]. Qed.

Lemma story_run : session_run portal session VerifierExample.features w0 (story.*2) (end_of story).
Proof.
  apply (play_run at_slot); [done|apply story_admissible|]. unfold end_of. generalize story_plays. destruct (play at_slot story w0); [done|discriminate].
Qed.
Lemma dispute_run : session_run portal session VerifierExample.features w0 (dispute.*2) (end_of dispute).
Proof.
  apply (play_run at_slot); [done|apply dispute_admissible|]. unfold end_of. generalize dispute_plays. destruct (play at_slot dispute w0); [done|discriminate].
Qed.
Lemma story_cursor : is_Some (A:=CheckpointCursor.t) (try_from_slice (data (acct (end_of story) (find_checkpoint_cursor_pda portal session).1))).
Proof.
  assert (E : match try_from_slice (A:=CheckpointCursor.t) (data (acct (end_of story) (find_checkpoint_cursor_pda portal session).1))
    with Some _ => true | None => false end = true) by (vm_compute; reflexivity).
  revert E. destruct (try_from_slice _); [done|discriminate].
Qed.
(** The challenger is to prove the step until slot 990. *)
Lemma dispute_open : ∃ c h, disputed (at_slot 990) (end_of dispute) session er_slot checkpoint challenge c h ∧
  (Challenge.turn h == ChallengeTurn.Prove) && (Challenge.turn_deadline_l1_slot h =? 990)
  && (Challenge.challenger h == challenger) = true.
Proof. apply disputedb_disputed. vm_compute. reflexivity. Qed.
End DisputeRuns.

Lemma checkpoint_lifecycle_witness :
  ∃ tr l, path (mkLedger 0 None Idle) tr l ∧
    represents SessionExample.portal SessionExample.session (DisputeExample.end_of DisputeExample.story) l ∧
    Forall2 fits_label (acting (DisputeExample.story.*2)) tr.
Proof. apply (checkpoint_lifecycle _ _ _ _ _ _ _ DisputeRuns.fresh DisputeRuns.story_run). Defined.

Lemma finalized_checkpoints_chain_witness :
  ∃ cs k, recorded_run SessionExample.portal SessionExample.session VerifierExample.features DisputeExample.w0
      (DisputeExample.story.*2) cs (DisputeExample.end_of DisputeExample.story) ∧
    Checkpoint.er_slot <$> cs = [40] ∧ linked 0 None (proposal_of <$> cs) ∧
    (CheckpointCursor.latest_finalized_er_slot k, final_root k) = final_after 0 None (proposal_of <$> cs).
Proof.
  destruct DisputeRuns.story_cursor as [k Hk]. destruct (run_recorded _ _ _ _ _ _ DisputeRuns.story_run) as [cs Hr].
  exists cs, k. split; [exact Hr|].
  exact (finalized_checkpoints_chain _ _ _ _ _ _ _ _ k DisputeRuns.fresh Hr Hk).
Defined.

Lemma disputes_bounded_witness :
  count is_move_instr (DisputeExample.story.*2) ≤ 10 * count is_open_instr (DisputeExample.story.*2).
Proof. apply (disputes_bounded _ _ _ _ _ _ _ DisputeRuns.fresh I DisputeRuns.story_run). Defined.

Lemma disputed_interval_attested_witness : ∃ c h, game_ok (proposal_of c) (game_of h).
Proof.
  destruct DisputeRuns.dispute_open as (c & h & Hd & _). exists c, h.
  apply (disputed_interval_attested _ _ _ _ _ _ _ (DisputeExample.at_slot 990) _ _ _ c h DisputeRuns.fresh I
    DisputeRuns.dispute_run eq_refl Hd).
Defined.
