(* ===== verification/Outcomes.v ===== *)
(** * How checkpoints and disputes end

    On the accounts of Dispute.v: a dispute past its deadline can be timed out and
    a due checkpoint committed by anyone ([expired_dispute_times_out],
    [due_checkpoint_commits]), so that no proposal blocks a session for ever; a
    settled, cancelled or invalid checkpoint refuses every instruction but a new
    proposal ([terminal_checkpoint_rejects]); what a proposal and a resolution do
    to the bond ([proposal_locks_bond], [resolution_follows_verifier]). *)

From Stdlib Require Import ZArith Lia.
From Stdlib Require Import Strings.Byte.
From stdpp Require Import base gmap list numbers.
From S2P Require Import Prelude Borsh Events Runtime State Commitments Frames Toy Pda Instruction Verifier Merkle StepProof SessionOps Delegation Settlement Checkpoint Challenge Lifecycle Dispute.

(** ** Running a handler forward *)

Lemma load_run {A} `{!Borsh A} a (x : A) e w : try_from_slice (data (acct w a)) = Some x → load a e w = Ok (x, w).
Proof. intros Hx. unfold load, get_acct, gets, ok_or. unfold mbind, M_bind. by rewrite Hx. Qed.

Lemma store_run {A} `{!Borsh A, !CodecOk (borsh (A:=A))} {n} `{!CodecSize (borsh (A:=A)) n} a (y : A) e w :
  length (data (acct w a)) = n → wf borsh y →
  store a y e w = Ok (tt, put a (with_data (enc borsh y) (acct w a)) w).
Proof.
  intros Hn Hy. unfold store, get_acct, gets, ok_or, set_data, update, modify. unfold mbind, M_bind.
  rewrite serialize_into_exact; [done|]. rewrite Hn. symmetry. by apply codec_size.
Qed.

Ltac fwd H := rewrite (bind_run _ _ _ _ _ H).

Section outcomes.
Context `{HostLaws} (P session : Address).

Abbreviation cursor_key := (find_checkpoint_cursor_pda P session).1.
Abbreviation slot_key er := (find_checkpoint_pda P session er).1.
Abbreviation challenge_key ck := (find_challenge_pda P ck).1.
Abbreviation da_key h := (find_da_proof_pda P h).1.

Lemma neq_refl {A} `{EqDecision A} (a : A) : (a != a) = false.
Proof. by rewrite bool_decide_eq_true_2. Qed.

Lemma load_checkpoint_run cx w c :
  program_id cx = P → holds P session w c →
  load_checkpoint cx session (Checkpoint.er_slot c) (slot_key (Checkpoint.er_slot c)) w = Ok (c, w).
Proof.
  intros HP [Ho Hd Hv Hs]. unfold load_checkpoint, owned_by. rewrite HP. destruct (find_checkpoint_pda _ _ _) as [a b]. cbn [fst] in *.
  rewrite err_if_bind, neq_refl. fwd (eq_refl : get_acct a w = Ok (acct w a, w)).
  rewrite err_if_bind, Ho, neq_refl. fwd (load_run a c (into PortalError.CheckpointDeserializeFailed) w Hd).
  rewrite err_if_bind, Hv, Hs, !neq_refl. done.
Qed.

Lemma load_cursor_run cx w k :
  program_id cx = P → has_cursor P session w k → load_cursor cx session cursor_key w = Ok (k, w).
Proof.
  intros HP [Ho Hd Hv Hs]. unfold load_cursor, owned_by. rewrite HP. destruct (find_checkpoint_cursor_pda _ _) as [a b]. cbn [fst] in *.
  rewrite err_if_bind, neq_refl. fwd (eq_refl : get_acct a w = Ok (acct w a, w)).
  rewrite err_if_bind, Ho, neq_refl. fwd (load_run a k (into PortalError.CheckpointCursorDeserializeFailed) w Hd).
  rewrite err_if_bind, Hv, Hs, !neq_refl. done.
Qed.

Lemma load_challenge_run cx w c h d :
  program_id cx = P → contends P session w c h d →
  let ck := slot_key (Checkpoint.er_slot c) in load_challenge cx ck (challenge_key ck) w = Ok (h, w).
Proof.
  intros HP Hc. destruct Hc as [Ho Hd Hv Hs _ _ _ _ _ _]. cbv zeta. unfold load_challenge, owned_by. rewrite HP.
  destruct (find_challenge_pda _ _) as [a b]. cbn [fst] in *.
  rewrite err_if_bind, neq_refl. fwd (eq_refl : get_acct a w = Ok (acct w a, w)).
  rewrite err_if_bind, Ho, neq_refl. fwd (load_run a h (into PortalError.ChallengeDeserializeFailed) w Hd).
  rewrite err_if_bind, Hv, Hs, !neq_refl. done.
Qed.

Lemma load_da_proof_run cx w c h d :
  program_id cx = P → contends P session w c h d →
  let ck := slot_key (Checkpoint.er_slot c) in
  load_da_proof cx (challenge_key ck) ck (da_key (challenge_key ck)) w = Ok (d, w).
Proof.
  intros HP Hc. destruct Hc as [_ _ _ _ _ Ho Hd Hv Hs1 Hs2]. cbv zeta. unfold load_da_proof, owned_by. rewrite HP.
  destruct (find_da_proof_pda _ _) as [a b]. cbn [fst] in *.
  rewrite err_if_bind, neq_refl. fwd (eq_refl : get_acct a w = Ok (acct w a, w)).
  rewrite err_if_bind, Ho, neq_refl. fwd (load_run a d (into PortalError.DataAvailabilityDeserializeFailed) w Hd).
  rewrite err_if_bind, Hv, Hs1, Hs2, !neq_refl. done.
Qed.

Lemma require_active_run k c w : active_is P session k c →
  require_active_checkpoint k (slot_key (Checkpoint.er_slot c)) (Checkpoint.er_slot c) w = Ok (tt, w).
Proof. intros [H1 H2]. unfold require_active_checkpoint. by rewrite H1, H2, !neq_refl. Qed.

(** The bond can be paid out. *)
Lemma resolve_bond_run w w0 c r st :
  wf borsh c → wf_world w0 → bonded P session w c → (∀ x, lamports (acct w0 x) = lamports (acct w x)) →
  lamports (acct w r) + CHECKPOINT_PROPOSER_BOND_LAMPORTS ≤ umax 64 →
  ∃ w1, resolve_checkpoint_bond (slot_key (Checkpoint.er_slot c)) r c st w0 = Ok (with_bond_status st c, w1) ∧
    ∀ x, data (acct w1 x) = data (acct w0 x).
Proof.
  intros Hwf Hw [Hl Hb (rent & Hrent & Hf)] Hlam Hr. set (a := slot_key _) in *. unfold resolve_checkpoint_bond.
  rewrite err_if_bind, Hl, neq_refl, err_if_bind, Hb.
  change (CHECKPOINT_PROPOSER_BOND_LAMPORTS =? 0) with false. cbv iota.
  unfold object_length. rewrite (codec_size (n:=380)) by done.
  assert (E1 : lift_err id (try_minimum_balance 380) w0 = Ok (rent, w0)) by (apply lift_err_Ok; done). fwd E1.
  pose proof (rent_nonneg _ _ Hrent) as Hrn. pose proof (Hw a) as Ha. rewrite Hlam in Ha.
  assert (Hbp : 0 ≤ CHECKPOINT_PROPOSER_BOND_LAMPORTS) by (unfold CHECKPOINT_PROPOSER_BOND_LAMPORTS; lia).
  unfold in_width in Hrn, Ha.
  assert (E2 : ok_or (u64_checked_add rent CHECKPOINT_PROPOSER_BOND_LAMPORTS) (into PortalError.ArithmeticOverflow) w0
    = Ok (rent + CHECKPOINT_PROPOSER_BOND_LAMPORTS, w0)) by (apply ok_or_Ok; split; [apply checked_add_Some; lia|done]). fwd E2.
  fwd (eq_refl : get_acct a w0 = Ok (acct w0 a, w0)). rewrite err_if_bind, Hlam.
  destruct (Z.ltb_spec (lamports (acct w a)) (rent + CHECKPOINT_PROPOSER_BOND_LAMPORTS)); [lia|].
  fwd (eq_refl : get_acct r w0 = Ok (acct w0 r, w0)). rewrite Hlam.
  assert (E3 : ok_or (u64_checked_add (lamports (acct w r)) CHECKPOINT_PROPOSER_BOND_LAMPORTS) (into PortalError.ArithmeticOverflow) w0
    = Ok (lamports (acct w r) + CHECKPOINT_PROPOSER_BOND_LAMPORTS, w0)).
  { apply ok_or_Ok; split; [apply checked_add_Some; lia|done]. }
  fwd E3. set (w1 := put r (with_lamports (lamports (acct w r) + CHECKPOINT_PROPOSER_BOND_LAMPORTS) (acct w0 r)) w0).
  fwd (eq_refl : set_lamports r (lamports (acct w r) + CHECKPOINT_PROPOSER_BOND_LAMPORTS) w0 = Ok (tt, w1)).
  fwd (eq_refl : get_acct a w1 = Ok (acct w1 a, w1)).
  assert (E4 : checked_sub (lamports (acct w1 a)) CHECKPOINT_PROPOSER_BOND_LAMPORTS
    = Some (lamports (acct w1 a) - CHECKPOINT_PROPOSER_BOND_LAMPORTS)).
  { apply checked_sub_Some. split; [done|]. subst w1. rewrite acct_put. case_decide; cbn; [subst; lia|rewrite Hlam; lia]. }
  assert (E5 := proj2 (ok_or_Ok _ (into PortalError.ArithmeticOverflow) w1 _ w1) (conj E4 eq_refl)). fwd E5.
  eexists. split; [done|]. intros x. subst w1. rewrite !acct_put. repeat case_decide; subst; done.
Qed.

(** ** A dispute past its deadline *)

Lemma stage_contested w k p g :
  rep_stage P session w k (Contested p g) →
  ∃ c h d, p = proposal_of c ∧ g = game_of h ∧ active_is P session k c ∧ holds P session w c ∧
    Checkpoint.status c = CheckpointStatus.Challenged ∧ bonded P session w c ∧ contends P session w c h d.
Proof. inversion 1; subst. eexists _, _, _. by split_and!. Qed.

Lemma stage_waiting w k p r :
  rep_stage P session w k (Waiting p r) →
  ∃ c, p = proposal_of c ∧ active_is P session k c ∧ holds P session w c ∧
    Checkpoint.status c = CheckpointStatus.Pending ∧ bonded P session w c.
Proof. inversion 1; subst. eexists. by split_and!. Qed.

(** The sizes of the accounts of a dispute. *)
Lemma dispute_sizes w c h d k :
  holds P session w c → contends P session w c h d → has_cursor P session w k →
  let ck := slot_key (Checkpoint.er_slot c) in
  length (data (acct w ck)) = 380%nat ∧ length (data (acct w (challenge_key ck))) = 255%nat ∧
  length (data (acct w (da_key (challenge_key ck)))) = 178%nat ∧ length (data (acct w cursor_key)) = 153%nat ∧
  NoDup [ck; challenge_key ck; da_key (challenge_key ck); cursor_key].
Proof.
  intros Hc Hh Hk. cbv zeta. set (ck := slot_key (Checkpoint.er_slot c)).
  pose proof (sized (n:=380) _ _ (ho_data _ _ _ _ Hc)) as E1. pose proof (sized (n:=255) _ _ (co_data _ _ _ _ _ _ Hh)) as E2.
  pose proof (sized (n:=178) _ _ (co_da _ _ _ _ _ _ Hh)) as E3. pose proof (sized (n:=153) _ _ (hk_data _ _ _ _ Hk)) as E4.
  fold ck in E1, E2, E3. do 4 (split; [done|]).
  repeat (apply NoDup_cons_2; [rewrite ?not_elem_of_cons; split_and?; try apply not_elem_of_nil; intros E; rewrite E in *; congruence|]).
  apply NoDup_nil_2.
Qed.

(** The writes that end a lost dispute succeed. *)
Lemma lost_writes_run ck ch cu c h k w :
  length (data (acct w ck)) = 380%nat → length (data (acct w ch)) = 255%nat → length (data (acct w cu)) = 153%nat →
  wf borsh c → wf borsh h → wf borsh k →
  ∃ w', (store_cursor cu k ;; store_checkpoint ck c ;; store_challenge ch h) w = Ok (tt, w').
Proof.
  intros E1 E2 E3 Hc Hh Hk. unfold store_cursor, store_checkpoint, store_challenge.
  assert (ck ≠ cu) by (intros ->; congruence). assert (ch ≠ cu) by (intros ->; congruence). assert (ck ≠ ch) by (intros ->; congruence).
  fwd (store_run (n:=153) cu k Panicked w E3 Hk). set (w1 := put cu _ _).
  assert (F1 : length (data (acct w1 ck)) = 380%nat) by (subst w1; by acct_simpl).
  fwd (store_run (n:=380) ck c Panicked w1 F1 Hc). set (w2 := put ck _ _).
  assert (F2 : length (data (acct w2 ch)) = 255%nat) by (subst w2 w1; by acct_simpl).
  eexists. by apply (store_run (n:=255)).
Qed.

(** The part of a timeout that comes before the outcome. *)
Lemma timeout_guards cx caller rest w c h d k s :
  program_id cx = P → holds P session w c → Checkpoint.status c = CheckpointStatus.Challenged →
  contends P session w c h d → has_cursor P session w k → active_is P session k c →
  is_signer cx caller = true → load_session cx session w = Ok (s, w) →
  Z.min (Challenge.turn_deadline_l1_slot h) (Challenge.hard_deadline_l1_slot h) ≤ slot (clock cx) →
  let ck := slot_key (Checkpoint.er_slot c) in
  let ch := challenge_key ck in
  process_timeout_challenge cx (caller :: session :: ck :: ch :: da_key ch :: Challenge.challenger h :: cursor_key :: rest)
    (TimeoutChallenge.mk (Checkpoint.er_slot c)) w =
  (if Challenge.turn h == ChallengeTurn.Respondent then
     (if DataAvailabilityProof.status d == DataAvailabilityStatus.Missing
      then store_da_proof (da_key ch) (with_default d) else mret tt) ;;
     c ← slash_checkpoint_bond ck (Challenge.challenger h) c;
     store_cursor cursor_key (clear_active_checkpoint k) ;;
     store_checkpoint ck (with_resolution CheckpointStatus.Invalid c) ;;
     store_challenge ch (with_outcome ChallengeStatus.ChallengerWon h)
   else
     store_checkpoint ck (with_resolution CheckpointStatus.Pending c) ;;
     store_challenge ch (with_outcome ChallengeStatus.ValidatorWon h)) w.
Proof.
  intros HP Hc Hst Hh Hk Ha Hsig Hs Hdl. cbv zeta. unfold process_timeout_challenge. cbn [TimeoutChallenge.er_slot].
  rewrite err_if_bind, Hsig. cbn [negb]. fwd Hs. fwd (load_checkpoint_run cx w c HP Hc).
  assert (E1 : require_challenged c w = Ok (tt, w)) by (unfold require_challenged; by rewrite Hst, neq_refl). fwd E1.
  fwd (load_challenge_run cx w c h d HP Hh). rewrite err_if_bind, (co_active _ _ _ _ _ _ Hh), neq_refl. cbv zeta.
  rewrite err_if_bind. destruct (Z.ltb_spec (slot (clock cx)) (Challenge.turn_deadline_l1_slot h)),
    (Z.ltb_spec (slot (clock cx)) (Challenge.hard_deadline_l1_slot h)); try lia; cbn [andb].
  all: rewrite err_if_bind, neq_refl; fwd (load_cursor_run cx w k HP Hk); fwd (require_active_run k c w Ha);
    fwd (load_da_proof_run cx w c h d HP Hh); done.
Qed.

Lemma timeout_run cx caller rest w c h d k s :
  program_id cx = P → holds P session w c → Checkpoint.status c = CheckpointStatus.Challenged → bonded P session w c →
  contends P session w c h d → has_cursor P session w k → active_is P session k c → wf_world w →
  is_signer cx caller = true → load_session cx session w = Ok (s, w) →
  Z.min (Challenge.turn_deadline_l1_slot h) (Challenge.hard_deadline_l1_slot h) ≤ slot (clock cx) →
  lamports (acct w (Challenge.challenger h)) + CHECKPOINT_PROPOSER_BOND_LAMPORTS ≤ umax 64 →
  let ck := slot_key (Checkpoint.er_slot c) in
  let ch := challenge_key ck in
  ∃ w', process_timeout_challenge cx
    (caller :: session :: ck :: ch :: da_key ch :: Challenge.challenger h :: cursor_key :: rest)
    (TimeoutChallenge.mk (Checkpoint.er_slot c)) w = Ok (tt, w').
Proof.
  intros HP Hc Hst Hb Hh Hk Ha Hw Hsig Hs Hdl Hr. cbv zeta. rewrite (timeout_guards cx caller rest w c h d k s) by done.
  destruct (dispute_sizes w c h d k Hc Hh Hk) as (E1 & E2 & E3 & E4 & Hnd). set (ck := slot_key (Checkpoint.er_slot c)) in *.
  set (ch := challenge_key ck) in *. pose proof (decoded_wf _ _ (ho_data _ _ _ _ Hc)) as Wc.
  pose proof (decoded_wf _ _ (co_data _ _ _ _ _ _ Hh)) as Wh. pose proof (decoded_wf _ _ (co_da _ _ _ _ _ _ Hh)) as Wd.
  pose proof (decoded_wf _ _ (hk_data _ _ _ _ Hk)) as Wk. nodup. destruct (_ == ChallengeTurn.Respondent).
  - assert (∃ w0, (if DataAvailabilityProof.status d == DataAvailabilityStatus.Missing
      then store_da_proof (da_key ch) (with_default d) else mret tt) w = Ok (tt, w0) ∧ wf_world w0 ∧
      (∀ x, lamports (acct w0 x) = lamports (acct w x)) ∧ ∀ x, x ≠ da_key ch → data (acct w0 x) = data (acct w x)) as (w0 & Hw0 & Hwf & Hlam & Hd0).
    { destruct (_ == _); [|by exists w]. eexists. split; [by apply (store_run (n:=178)); [|apply with_default_wf]|].
      assert (Hl : ∀ x, lamports (acct (put (da_key ch) (with_data (enc borsh (with_default d)) (acct w (da_key ch))) w) x)
        = lamports (acct w x)) by (intros x; rewrite acct_put; by case_decide; subst).
      split; [intros x; rewrite Hl; apply Hw|]. split; [done|]. intros x Hx. by acct_simpl. }
    fwd Hw0. destruct (resolve_bond_run w w0 c (Challenge.challenger h) CheckpointBondStatus.Slashed) as (w1 & Hsl & Hd1); [done..|].
    unfold slash_checkpoint_bond. fwd Hsl.
    apply lost_writes_run; [rewrite Hd1, Hd0 by congruence; done..| | |].
    + by apply with_resolution_wf, with_bond_status_wf.
    + by apply with_outcome_wf.
    + by apply clear_active_checkpoint_wf.
  - unfold store_checkpoint, store_challenge.
    fwd (store_run (n:=380) ck _ Panicked w E1 (with_resolution_wf CheckpointStatus.Pending _ Wc)).
    eexists. apply (store_run (n:=255)); [by acct_simpl|by apply with_outcome_wf].
Qed.

Lemma timeout_step now l a l' p g :
  step now l a l' → is_timeout a = true → l_stage l = Contested p g →
  l' = enter l (if decide (g_turn g = ChallengeTurn.Respondent) then Idle else Waiting p true).
Proof.
  intros Hs Ha Hst. destruct Hs; try done; rewrite Hst in *; simplify_eq; by case_decide.
Qed.

(** C15: no dispute blocks a session for ever.  Once the
    turn's or the hard deadline is reached, [TimeoutChallenge] succeeds for
    anyone who signs and names the right accounts, as long as the challenger's
    balance can take the bond; it leaves the session free for a new proposal when
    the respondent was late, and the checkpoint pending, not to be challenged
    again, when the challenger was. *)
Theorem expired_dispute_times_out cx caller rest w l p g s :
  represents P session w l → l_stage l = Contested p g → wf_world w → program_id cx = P → is_signer cx caller = true →
  load_session cx session w = Ok (s, w) → Z.min (g_turn_deadline g) (g_hard_deadline g) ≤ slot (clock cx) →
  lamports (acct w (g_challenger g)) + CHECKPOINT_PROPOSER_BOND_LAMPORTS ≤ umax 64 →
  let ck := slot_key (p_slot p) in
  let ch := challenge_key ck in
  ∃ w', process_timeout_challenge cx (caller :: session :: ck :: ch :: da_key ch :: g_challenger g :: cursor_key :: rest)
      (TimeoutChallenge.mk (p_slot p)) w = Ok (tt, w') ∧
    represents P session w' (enter l (if decide (g_turn g = ChallengeTurn.Respondent) then Idle else Waiting p true)).
Proof.
  intros Hl Hst Hw HP Hsig Hs Hdl Hr. assert (Hk : ∃ k, rep_cursor P session w k l).
  { destruct Hl as [[[_ ->]|?] _]; done. }
  destruct Hk as (k & [Hk _ _ Hrep]). rewrite Hst in Hrep.
  destruct (stage_contested _ _ _ _ Hrep) as (c & h & d & -> & -> & Ha & Hc & Hp & Hb & Hh).
  destruct (timeout_run cx caller rest w c h d k s) as [w' Hrun]; [done..|]. exists w'. split; [done|].
  apply (timeout_refines P session) with (l := l) in Hrun as (a & l' & Hok & Hstep & Hl'); [|done..].
  by rewrite <- (timeout_step _ _ _ _ _ _ Hstep Hok Hst).
Qed.

(** ** A checkpoint past its deadline *)

Lemma commit_run cx committer rest w c k s v2 :
  program_id cx = P → holds P session w c → Checkpoint.status c = CheckpointStatus.Pending → bonded P session w c →
  has_cursor P session w k → active_is P session k c → wf_world w → is_signer cx committer = true →
  starts_with (data (acct w session)) SessionV2.DISCRIMINATOR = v2 → load_session cx session w = Ok (s, w) →
  Checkpoint.challenge_deadline_l1_slot c ≤ slot (clock cx) → Session.last_settled_er_slot s < Checkpoint.er_slot c →
  CheckpointCursor.latest_finalized_er_slot k < Checkpoint.er_slot c →
  (CheckpointCursor.latest_finalized_checkpoint k = zero32 ∨
   Checkpoint.previous_state_root c = CheckpointCursor.latest_finalized_state_root k) →
  lamports (acct w (Checkpoint.proposer c)) + CHECKPOINT_PROPOSER_BOND_LAMPORTS ≤ umax 64 →
  ∃ w', process_commit_checkpoint_versioned cx
    (committer :: session :: slot_key (Checkpoint.er_slot c) :: cursor_key :: Checkpoint.proposer c :: rest)
    (CommitCheckpoint.mk (Checkpoint.er_slot c)) v2 w = Ok (tt, w').
Proof.
  intros HP Hc Hst Hb Hk Ha Hw Hsig Hv Hs Hdl Hset Hfin Hroot Hr. unfold process_commit_checkpoint_versioned.
  cbn [CommitCheckpoint.er_slot]. rewrite err_if_bind, Hsig. cbn [negb].
  assert (E1 : require_version session v2 w = Ok (tt, w)).
  { unfold require_version. fwd (eq_refl : get_acct session w = Ok (acct w session, w)). rewrite Hv. by destruct v2. }
  fwd E1. fwd Hs. fwd (load_checkpoint_run cx w c HP Hc). fwd (load_cursor_run cx w k HP Hk). cbv zeta. rewrite Hst.
  fwd (eq_refl : (mret tt : prog unit) w = Ok (tt, w)). rewrite err_if_bind.
  destruct (Z.ltb_spec (slot (clock cx)) (Checkpoint.challenge_deadline_l1_slot c)); [lia|].
  assert (E2 : require_advancing_checkpoint s k (Checkpoint.er_slot c) w = Ok (tt, w)).
  { apply err_if_Ok. split; [|done]. apply orb_false_iff. rewrite !Z.leb_gt. lia. }
  fwd E2. fwd (require_active_run k c w Ha).
  assert (E3 : require_previous_root k (Checkpoint.previous_state_root c) w = Ok (tt, w)).
  { apply err_if_Ok. split; [|done]. apply andb_false_iff. destruct Hroot as [->| ->]; rewrite neq_refl; auto. }
  fwd E3. set (c' := with_status CheckpointStatus.Committed c).
  assert (Wc : wf borsh c') by (eapply with_status_wf, decoded_wf, Hc). pose proof (decoded_wf _ _ (hk_data _ _ _ _ Hk)) as Wk.
  destruct (resolve_bond_run w w c' (Checkpoint.proposer c) CheckpointBondStatus.Released) as (w1 & Hrel & Hd1);
    [done|done|by destruct Hb|done|done|].
  assert (E4 : release_checkpoint_bond (slot_key (Checkpoint.er_slot c)) (Checkpoint.proposer c) c' w
    = Ok (with_bond_status CheckpointBondStatus.Released c', w1)).
  { unfold release_checkpoint_bond. rewrite err_if_bind. change (Checkpoint.proposer c') with (Checkpoint.proposer c).
    by rewrite neq_refl. }
  fwd E4. pose proof (sized (n:=380) _ _ (ho_data _ _ _ _ Hc)) as L1. pose proof (sized (n:=153) _ _ (hk_data _ _ _ _ Hk)) as L2.
  assert (slot_key (Checkpoint.er_slot c) ≠ cursor_key) by (intros E; rewrite E in L1; congruence).
  unfold store_checkpoint, store_cursor. rewrite <- (Hd1 (slot_key _)) in L1. rewrite <- (Hd1 cursor_key) in L2.
  fwd (store_run (n:=380) _ _ Panicked w1 L1 (with_bond_status_wf CheckpointBondStatus.Released _ Wc)).
  eexists. apply (store_run (n:=153)); [by acct_simpl|]. pose proof (decoded_wf _ _ (ho_data _ _ _ _ Hc)) as Hcw.
  destruct Hcw as (?&?&?&?&?&?&?&?&?&?&?&?&?&?&?&?&?&?&?&?&?). apply with_finalized_wf; try done. apply find_address_length.
Qed.

(** C19: no pending checkpoint waits for ever.  From its
    deadline on, [CommitCheckpoint] succeeds for anyone who signs and names the
    right accounts, as long as the session has not settled its slot and the
    proposer's balance can take the bond back; the checkpoint's slot and root are
    then final. *)
Theorem due_checkpoint_commits cx committer rest w l p r s v2 :
  represents P session w l → good l → l_stage l = Waiting p r → wf_world w → program_id cx = P →
  is_signer cx committer = true → starts_with (data (acct w session)) SessionV2.DISCRIMINATOR = v2 →
  load_session cx session w = Ok (s, w) → p_deadline p ≤ slot (clock cx) → Session.last_settled_er_slot s < p_slot p →
  lamports (acct w (p_proposer p)) + CHECKPOINT_PROPOSER_BOND_LAMPORTS ≤ umax 64 →
  ∃ w', process_commit_checkpoint_versioned cx
      (committer :: session :: slot_key (p_slot p) :: cursor_key :: p_proposer p :: rest)
      (CommitCheckpoint.mk (p_slot p)) v2 w = Ok (tt, w') ∧
    represents P session w' (finalize p).
Proof.
  intros Hl Hg Hst Hw HP Hsig Hv Hs Hdl Hset Hr. assert (Hk : ∃ k, rep_cursor P session w k l).
  { destruct Hl as [[[_ ->]|?] _]; done. }
  destruct Hk as (k & [Hk Hls Hlr Hrep]). unfold good in Hg. rewrite Hst in Hrep, Hg. destruct Hg as [_ [Hf1 Hf2]].
  destruct (stage_waiting _ _ _ _ Hrep) as (c & -> & Ha & Hc & Hp & Hb). rewrite Hls in Hf1. rewrite Hlr in Hf2.
  destruct (commit_run cx committer rest w c k s v2) as [w' Hrun]; try done.
  { unfold final_root in Hf2. case_decide; [by left|by right]. }
  exists w'. split; [done|].
  apply (commit_refines P session) with (l := l) in Hrun as (a & l' & Hok & Hstep & Hl'); [|done..].
  destruct Hstep; try done. rewrite Hst in *. simplify_eq. done.
Qed.

(** ** Terminal checkpoints *)

(** The ER slot an instruction names; a proposal may name any. *)
Definition named_slot (i : Instr) : option Z :=
  match i with
  | IPropose _ _ _ _ _ _ _ => None
  | ICommit _ _ _ _ _ args _ => Some (CommitCheckpoint.er_slot args)
  | ICancel _ _ _ _ args => Some (CancelCheckpoint.er_slot args)
  | IOpen _ _ _ _ _ _ args => Some (OpenChallenge.er_slot args)
  | IRespond _ _ _ _ _ args => Some (RespondChallenge.er_slot args)
  | IBisect _ _ _ _ args => Some (BisectChallenge.er_slot args)
  | ITimeout _ _ _ _ _ _ _ args => Some (TimeoutChallenge.er_slot args)
  | ICreate _ _ _ _ _ _ args => Some (CreateStepProof.er_slot args)
  | IWrite _ _ _ _ _ args => Some (WriteStepProof.er_slot args)
  | ISeal _ _ _ _ _ args => Some (SealStepProof.er_slot args)
  | IResolve _ _ _ _ _ _ _ _ args => Some (ResolveChallenge.er_slot args)
  | IFinish _ _ _ _ args => Some (FinishSettlement.er_slot args)
  end.

Lemma terminal_not_loaded cx er ck w c c' w' :
  program_id cx = P → holds P session w c → in_progress c = false → er = Checkpoint.er_slot c →
  load_checkpoint cx session er ck w = Ok (c', w') → in_progress c' = true → False.
Proof.
  intros HP Hc Ht -> Hl Hp. apply (load_checkpoint_holds P session) in Hl as (Hc' & He & _); [|done].
  pose proof (ho_data _ _ _ _ Hc) as D1. pose proof (ho_data _ _ _ _ Hc') as D2. rewrite <- He, D1 in D2. injection D2 as <-.
  by rewrite Ht in Hp.
Qed.

Lemma terminal_not_disputed cx er ck ch w c c' h :
  program_id cx = P → holds P session w c → in_progress c = false → er = Checkpoint.er_slot c →
  disputed cx w session er ck ch c' h → False.
Proof.
  intros HP Hc Ht He [Hl Hst _ _]. eapply terminal_not_loaded; try done. unfold in_progress. by rewrite Hst.
Qed.

Lemma terminal_not_at er ck w c c' :
  holds P session w c → in_progress c = false → er = Checkpoint.er_slot c → ck = slot_key er → checkpoint_at w ck c' →
  in_progress c' = true → False.
Proof. intros Hc Ht -> -> Hc'. rewrite (ho_data _ _ _ _ Hc) in Hc'. injection Hc' as <-. by rewrite Ht. Qed.

(** A settled, cancelled or invalid checkpoint is
    final.  Every instruction that names its slot, but a new proposal, fails
    (and so changes nothing): it cannot be committed, cancelled, challenged,
    answered, bisected, timed out, resolved or settled again, and its bond not
    be paid a second time. *)
Theorem terminal_checkpoint_rejects `{Groth16} ft cx i w c :
  program_id cx = P → is_u64 (slot (clock cx)) → admissible i → holds P session w c → in_progress c = false →
  named_slot i = Some (Checkpoint.er_slot c) → ∃ e, exec session ft cx i w = Err e.
Proof.
  intros HP Hnow Hi Hc Ht Hn. destruct (exec session ft cx i w) as [[u w']|e] eqn:Hr; [exfalso|by exists e].
  destruct i; cbn [named_slot exec admissible] in *; try discriminate; injection Hn as Hn.
  - apply process_commit_checkpoint_Ok in Hr as (s & c' & k & _ & _ & Hc' & _ & Hck & _ & _ & _ & Hst & _). rewrite HP in Hck.
    eapply terminal_not_at; try done. unfold in_progress. by rewrite Hst.
  - apply process_cancel_checkpoint_Ok in Hr as (s & c' & k & _ & _ & Hc' & _ & Hck & _ & _ & _ & Hst & _). rewrite HP in Hck.
    eapply terminal_not_at; try done. unfold in_progress. by rewrite Hst.
  - destruct Hi as [Hk Hp]. apply process_open_challenge_Ok in Hr as (s & c' & _ & Hl & Hst & _); [|done..].
    eapply terminal_not_loaded; try done. unfold in_progress. by rewrite Hst.
  - apply process_respond_challenge_Ok in Hr as (s & c' & h & d & m & r & t & _ & _ & _ & Hd & _); [|done..].
    by eapply terminal_not_disputed.
  - apply process_bisect_challenge_Ok in Hr as (c' & h & _ & Hd & _); [|done]. by eapply terminal_not_disputed.
  - apply process_timeout_challenge_Ok in Hr as (c' & h & k & d & [Hd _ _ _] & _). by eapply terminal_not_disputed.
  - destruct Hi as (Hk & Hwf & Hp). nodup. apply process_create_step_proof_Ok in Hr as ((c' & h & Hd) & _); [|done..].
    by eapply terminal_not_disputed.
  - apply process_write_step_proof_Ok in Hr as ((c' & h & Hd) & _). by eapply terminal_not_disputed.
  - apply process_seal_step_proof_Ok in Hr as ((c' & h & Hd) & _). by eapply terminal_not_disputed.
  - apply process_resolve_challenge_Ok in Hr as (c' & h & k & d & p & [Hd _ _ _] & _). by eapply terminal_not_disputed.
  - apply process_finish_settlement_Ok in Hr as (s & c' & k & _ & _ & Hl & _); [|done..].
    apply load_checkpoint_for_settlement_Ok in Hl as (Hck & _ & Hc' & _ & _ & _ & Hst). rewrite HP in Hck.
    eapply terminal_not_at; try done. unfold in_progress. by rewrite Hst.
Qed.
End outcomes.

(** ** Bonds *)

Section bonds.
Context `{HostLaws} (cx : Ctx).

(** A successful [ProposeCheckpoint] was signed by the
    session's validator while the session is open, covers 1 to 16 steps, gives
    challengers between 1 and 9000 slots, advances beyond the slots settled and
    finalized, starts from the finalized root, and found no checkpoint in
    progress and no live account at the slot.  It leaves the checkpoint pending,
    named by the cursor, with the protocol's bond locked on top of the account's
    rent, and changes no other account but the proposer's balance. *)
Theorem proposal_locks_bond proposer session checkpoint cursor sys rest args v2 w u w' :
  proposer ≠ checkpoint → proposer ≠ cursor → wf borsh args → is_u64 (slot (clock cx)) →
  process_propose_checkpoint_versioned cx (proposer :: session :: checkpoint :: cursor :: sys :: rest) args v2 w
    = Ok (u, w') →
  ∃ s k, propose_guards cx w proposer session checkpoint cursor args v2 s k ∧
    (data (acct w cursor) = [] ∧ k = new_cursor session (find_checkpoint_cursor_pda (program_id cx) session).2 ∨
     cursor_at w cursor k) ∧
    (data (acct w checkpoint) = [] ∨ ∃ c, checkpoint_at w checkpoint c ∧ reusable_terminal c k = true) ∧
    checkpoint_at w' checkpoint (proposal cx proposer session args) ∧
    cursor_at w' cursor (with_active checkpoint (ProposeCheckpoint.er_slot args) k) ∧
    (∃ rent, try_minimum_balance 380 = Ok rent ∧
       rent + CHECKPOINT_PROPOSER_BOND_LAMPORTS ≤ lamports (acct w' checkpoint)) ∧
    (∀ b, b ∉ [proposer; checkpoint; cursor] → acct w' b = acct w b).
Proof.
  intros N1 N2 Hargs Hnow Hr.
  apply process_propose_checkpoint_Ok in Hr as (s & k & Hg & _ & _ & Hk & Hc & Hc' & Hk' & _ & _ & Hrent & _ & Hf); [|done..].
  exists s, k. split; [done|]. split; [destruct Hk as [?|[? _]]; auto|]. by split_and!.
Qed.

Lemma short_proof_rejected `{Groth16} ft c h p :
  StepProofAccount.written_len p ≠ MAX_STEP_PROOF_BYTES → verify_step_proof_production ft c h p ≠ Valid.
Proof.
  intros Hl. unfold verify_step_proof_production. destruct (_ =? MAX_STEP_PROOF_BYTES) eqn:E; [bprop; congruence|].
  repeat case_match; done.
Qed.

(** C25: a successful [ResolveChallenge] finds the
    session's checkpoint in a live dispute whose interval has been narrowed to a
    single step, and a sealed proof account that the challenger wrote and that is
    bound to this dispute.  What the verifier answers decides: when it accepts,
    the checkpoint is pending again with its bond as it was, and every balance is
    kept; when it rejects, the checkpoint is invalid and the bond, which was
    locked, is the challenger's.  In a state the protocol reaches (one that
    represents a sound ledger) the interval is exactly one step of the trace, and
    after an acceptance the bond is locked and covered by the account's balance.
    In production every proof that is not of the full length counts as rejected,
    so it is the absence of a proof that the step is right, and not a proof that
    it is wrong, that invalidates the checkpoint. *)
Theorem resolution_follows_verifier `{Groth16} ft submitter session checkpoint challenge da_proof proof recipient cursor rest
    args w u w' :
  process_resolve_challenge ft cx
    (submitter :: session :: checkpoint :: challenge :: da_proof :: proof :: recipient :: cursor :: rest) args w = Ok (u, w') →
  ∃ c h k p, contest cx w session (ResolveChallenge.er_slot args) checkpoint challenge cursor c h k ∧ in_time cx h ∧
    Challenge.turn h = ChallengeTurn.Prove ∧ Challenge.end_step h = u64_saturating_add (Challenge.start_step h) 1 ∧
    sealed_proof cx w session checkpoint challenge proof c h p ∧
    (verify_step_proof ft (ResolveChallenge.verifier_mode args) c h p = Valid ∧
       respondent_won w w' checkpoint challenge c h ∧
       Checkpoint.bond_status (with_resolution CheckpointStatus.Pending c) = Checkpoint.bond_status c ∨
     verify_step_proof ft (ResolveChallenge.verifier_mode args) c h p = Invalid ∧
       challenger_won w w' checkpoint challenge cursor c h k) ∧
    (∀ l, represents (program_id cx) session w l → good l →
       Challenge.end_step h = Challenge.start_step h + 1 ∧
       (verify_step_proof ft (ResolveChallenge.verifier_mode args) c h p = Valid →
        bonded (program_id cx) session w' (with_resolution CheckpointStatus.Pending c))) ∧
    (ResolveChallenge.verifier_mode args = StepProofVerifierMode.Production →
     StepProofAccount.written_len p ≠ MAX_STEP_PROOF_BYTES → challenger_won w w' checkpoint challenge cursor c h k).
Proof.
  intros Hr. apply process_resolve_challenge_Ok in Hr as (c & h & k & d & p & Hct & Hin & Ht & He & _ & _ & _ & Hsp & Hout).
  exists c, h, k, p. do 5 (split; [done|]). split_and!.
  - destruct Hout as [(Hv & _ & Hw & _)|[Hv Hw]]; [by right|by left].
  - intros l Hl Hg. pose proof (ct_disputed _ _ _ _ _ _ _ _ _ _ Hct) as Hdis.
    destruct (represents_disputed _ _ _ _ _ _ _ _ _ _ eq_refl Hl Hdis) as (k' & d' & _ & _ & Hst & Hb & _).
    unfold good in Hg. rewrite Hst in Hg. destruct Hg as [[Hp _] Hg]. split.
    + rewrite He. unfold u64_saturating_add, umax. destruct Hg. cbn in *. lia.
    + intros Hv. destruct Hout as [(Hv' & _)|[_ Hw]]; [congruence|]. destruct Hb as [Hb1 Hb2 (r & Hr & Hle)].
      split; [done..|]. exists r. split; [done|]. cbn. by rewrite (proj1 (rw_kept _ _ _ _ _ _ Hw _)).
  - intros Hm Hl. destruct Hout as [(_ & _ & Hw & _)|[Hv _]]; [done|]. rewrite Hm in Hv. by apply short_proof_rejected in Hv.
Qed.
End bonds.

(** ** Example

    Besides the story of [DisputeExample], a proposal of one step for ER slot 41
    that is challenged; the challenger seals one byte as the proof. *)

Module OutcomeExample.
Import SessionExample.
Import DisputeExample.
Definition slot41 : Address := Eval vm_compute in (find_checkpoint_pda portal session 41).1.
Definition challenge41 : Address := Eval vm_compute in (find_challenge_pda portal slot41).1.
Definition da41 : Address := Eval vm_compute in (find_da_proof_pda portal challenge41).1.
Definition proof41 : Address := Eval vm_compute in (find_step_proof_pda portal slot41).1.
Definition at_slot41 (t : Z) : Ctx :=
  cx_of portal t [validator; challenger; session; slot41; cursor; challenge41; da41; proof41] [validator; challenger].
Definition effect_root : Hash32 := Eval vm_compute in root_hash TreeKind.TransactionEffect 1 (key 70).
Definition context41 : Hash32 := Eval vm_compute in
  match parse_session (data (acct w0 session)) with
  | Ok s => default zero32 (session_context_v1 portal session s)
  | Err _ => zero32
  end.
Definition propose41 : ProposeCheckpoint.t :=
  ProposeCheckpoint.mk 41 1 (key 61) (key 62) (key 24) effect_root (key 26) (key 27) (key 28) 800.
Definition upload : list (Z * Instr) :=
  [(200, IPropose validator slot41 cursor system_id [] propose41 false);
   (210, IOpen challenger slot41 challenge41 da41 system_id [] (OpenChallenge.mk 41));
   (220, IRespond validator slot41 challenge41 da41 []
           (RespondChallenge.mk 41 0 (key 62) 0 (replicate 5 zero32) (key 27) (key 29)));
   (230, ICreate challenger slot41 challenge41 proof41 system_id []
           (CreateStepProof.mk 41 1 1 0 context41 (key 70) 0 (replicate 4 zero32) (key 26) (key 28)));
   (231, IWrite challenger slot41 challenge41 proof41 [] (WriteStepProof.mk 41 0 1 (zeros 128)));
   (232, ISeal challenger slot41 challenge41 proof41 [] (SealStepProof.mk 41 1))].
Definition w6 : World := default w0 (play at_slot41 upload w0).
Abbreviation resolve :=
  (process_resolve_challenge VerifierExample.features (at_slot41 240)
     [challenger; session; slot41; challenge41; da41; proof41; challenger; cursor]
     (ResolveChallenge.mk 41 StepProofVerifierMode.Production)).
Lemma resolve_succeeds : err_of resolve w6 = None.
Proof. vm_compute. reflexivity. Qed.

(** The one byte is the proof. *)
Lemma sealed_short : match load_step_proof (at_slot41 240) slot41 proof41 w6 with
  | Ok (p, _) => StepProofAccount.written_len p =? 1 | Err _ => false end = true.
Proof. vm_compute. reflexivity. Qed.

Abbreviation propose_it :=
  (process_propose_checkpoint_versioned (at_slot41 200) [validator; session; slot41; cursor; system_id] propose41 false).
Lemma propose_succeeds : err_of propose_it w0 = None.
Proof. vm_compute. reflexivity. Qed.

(** The dispute of [DisputeExample] as a ledger. *)
Lemma dispute_ledger : ∃ l c h, represents portal session (end_of dispute) l ∧ good l ∧
  l_stage l = Contested (proposal_of c) (game_of h) ∧ Checkpoint.er_slot c = 40 ∧ Challenge.turn h = ChallengeTurn.Prove ∧
  Challenge.turn_deadline_l1_slot h = 990 ∧ Challenge.challenger h = challenger.
Proof.
  destruct (run_refines _ _ _ _ _ _ _ DisputeRuns.dispute_run DisputeRuns.fresh) as (tr & l & Hp & Hl & _).
  destruct DisputeRuns.dispute_open as (c & h & Hd & Hf). bprop.
  destruct (represents_disputed portal session (end_of dispute) l (at_slot 990) _ _ _ c h eq_refl Hl Hd)
    as (k & d & _ & _ & Hst & _ & _ & _ & He & _).
  exists l, c, h. split; [done|]. split; [by eapply path_good|]. by split_and!.
Qed.

Lemma dispute_world : wf_world (end_of dispute).
Proof. apply wf_worldb_wf. vm_compute. reflexivity. Qed.
Lemma dispute_rich : lamports (acct (end_of dispute) challenger) + CHECKPOINT_PROPOSER_BOND_LAMPORTS ≤ umax 64.
Proof. vm_compute. intros E. discriminate E. Qed.
Definition session_is (cx : Ctx) (w : World) (f : Session.t → bool) : bool :=
  match load_session cx session w with Ok (s, _) => f s | Err _ => false end.
Lemma session_is_loaded cx w f :
  session_is cx w f = true → ∃ s, load_session cx session w = Ok (s, w) ∧ f s = true.
Proof.
  unfold session_is. destruct (load_session cx session w) as [[s w']|] eqn:E; [|done]. intros Hf. exists s.
  by rewrite <- (read_only _ _ _ E).
Qed.
Definition slot_is (cx : Ctx) (er : Z) (a : Address) (w : World) (f : Checkpoint.t → bool) : bool :=
  match load_checkpoint cx session er a w with Ok (c, _) => f c | Err _ => false end.
Lemma slot_is_held cx er a w f :
  program_id cx = portal → slot_is cx er a w f = true → ∃ c, holds portal session w c ∧ Checkpoint.er_slot c = er ∧ f c = true.
Proof.
  intros HP. unfold slot_is. destruct (load_checkpoint _ _ _ _ _) as [[c w']|] eqn:E; [|done]. intros Hf. exists c.
  apply (load_checkpoint_holds portal session) in E as (Hc & He & _); [|done]. by split_and!.
Qed.
Lemma dispute_session : ∃ s, load_session (at_slot 990) session (end_of dispute) = Ok (s, end_of dispute) ∧ true = true.
Proof. apply (session_is_loaded _ _ (λ _, true)). vm_compute. reflexivity. Qed.

(** After the timeout: a checkpoint due at slot 1000. *)
Definition late : list (Z * Instr) := dispute ++ [(990, time_out)].
Lemma late_plays : match play at_slot late w0 with Some _ => true | None => false end = true.
Proof. vm_compute. reflexivity. Qed.
Lemma late_run : session_run portal session VerifierExample.features w0 (late.*2) (end_of late).
Proof.
  assert (Ha : Forall (λ p, is_u64 p.1 ∧ admissible p.2) late).
  { pose proof DisputeRuns.story_admissible as Hs. unfold story in Hs. change (dispute ++ [(990, time_out); (1000, commit)])
      with (dispute ++ [(990, time_out)] ++ [(1000, commit)]) in Hs. rewrite app_assoc in Hs. by apply Forall_app in Hs as [Hs _]. }
  apply (DisputeRuns.play_run at_slot); [done|exact Ha|]. unfold end_of. generalize late_plays.
  destruct (play at_slot late w0); [done|discriminate].
Qed.
Lemma late_pending : ∃ c, holds portal session (end_of late) c ∧ Checkpoint.er_slot c = 40 ∧
  (Checkpoint.status c == CheckpointStatus.Pending) && (Checkpoint.challenge_deadline_l1_slot c =? 1000)
  && (Checkpoint.proposer c == validator) = true.
Proof. apply (slot_is_held (at_slot 1000) _ checkpoint); [reflexivity|vm_compute; reflexivity]. Qed.
Lemma late_ledger : ∃ l c r, represents portal session (end_of late) l ∧ good l ∧ l_stage l = Waiting (proposal_of c) r ∧
  Checkpoint.er_slot c = 40 ∧ Checkpoint.challenge_deadline_l1_slot c = 1000 ∧ Checkpoint.proposer c = validator.
Proof.
  destruct (run_refines _ _ _ _ _ _ _ late_run DisputeRuns.fresh) as (tr & l & Hp & Hl & _).
  destruct late_pending as (c & Hc & He & Hb).
  rewrite !andb_true_iff, !bool_decide_eq_true, Z.eqb_eq in Hb. destruct Hb as [[Hb Hdl] Hpr].
  destruct (represents_progress portal session _ l c Hl Hc) as (k & _ & _ & Hst); [unfold in_progress; by rewrite Hb|].
  rewrite Hb in Hst. destruct Hst as [Hst _]. exists l, c, (Checkpoint.challenge_resolved c).
  split; [done|]. split; [by eapply path_good|]. by split_and!.
Qed.
Lemma late_world : wf_world (end_of late).
Proof. apply wf_worldb_wf. vm_compute. reflexivity. Qed.
Lemma late_rich : lamports (acct (end_of late) validator) + CHECKPOINT_PROPOSER_BOND_LAMPORTS ≤ umax 64.
Proof. vm_compute. intros E. discriminate E. Qed.
Lemma late_session : ∃ s, load_session (at_slot 1000) session (end_of late) = Ok (s, end_of late) ∧
  (Session.last_settled_er_slot s =? 0) = true.
Proof. apply (session_is_loaded _ _ (λ s, Session.last_settled_er_slot s =? 0)). vm_compute. reflexivity. Qed.
Lemma late_v1 : starts_with (data (acct (end_of late) session)) SessionV2.DISCRIMINATOR = false.
Proof. vm_compute. reflexivity. Qed.

(** The checkpoint of the resolved dispute is invalid. *)
Lemma resolved_invalid : ∃ c, holds portal session (run resolve w6) c ∧ Checkpoint.er_slot c = 41 ∧ negb (in_progress c) = true.
Proof. apply (slot_is_held (at_slot41 250) _ slot41); [reflexivity|vm_compute; reflexivity]. Qed.
End OutcomeExample.

Lemma expired_dispute_times_out_witness :
  ∃ l p w', represents SessionExample.portal SessionExample.session w' (enter l (Waiting p true)).
Proof.
  destruct OutcomeExample.dispute_ledger as (l & c & h & Hl & _ & Hst & He & Ht & Hdl & Hc).
  destruct OutcomeExample.dispute_session as (s & Hs & _).
  destruct (expired_dispute_times_out SessionExample.portal SessionExample.session (DisputeExample.at_slot 990)
    SessionExample.validator [] _ l (proposal_of c) (game_of h) s Hl Hst OutcomeExample.dispute_world eq_refl) as (w' & _ & Hw').
  - apply (bool_decide_unpack _). vm_compute. reflexivity.
  - exact Hs.
  - cbn. rewrite Hdl. lia.
  - cbn [g_challenger game_of]. rewrite Hc. exact OutcomeExample.dispute_rich.
  - exists l, (proposal_of c), w'. rewrite decide_False in Hw' by (cbn; by rewrite Ht). exact Hw'.
Defined.

Lemma due_checkpoint_commits_witness :
  ∃ p w', p_slot p = 40 ∧ represents SessionExample.portal SessionExample.session w' (finalize p).
Proof.
  destruct OutcomeExample.late_ledger as (l & c & r & Hl & Hg & Hst & He & Hdl & Hp).
  destruct OutcomeExample.late_session as (s & Hs & Hz). apply Z.eqb_eq in Hz.
  destruct (due_checkpoint_commits SessionExample.portal SessionExample.session (DisputeExample.at_slot 1000)
    DisputeExample.challenger [] _ l (proposal_of c) r s false Hl Hg Hst OutcomeExample.late_world eq_refl) as (w' & _ & Hw').
  - apply (bool_decide_unpack _). vm_compute. reflexivity.
  - exact OutcomeExample.late_v1.
  - exact Hs.
  - cbn. rewrite Hdl. lia.
  - cbn. rewrite Hz, He. lia.
  - cbn [p_proposer proposal_of]. rewrite Hp. exact OutcomeExample.late_rich.
  - exists (proposal_of c), w'. split; [exact He|exact Hw'].
Defined.

Lemma terminal_checkpoint_rejects_witness :
  ∃ e, exec SessionExample.session VerifierExample.features (OutcomeExample.at_slot41 2000)
    (ICommit SessionExample.validator OutcomeExample.slot41 SessionExample.cursor SessionExample.validator []
       (CommitCheckpoint.mk 41) false) (run OutcomeExample.resolve OutcomeExample.w6) = Err e.
Proof.
  destruct OutcomeExample.resolved_invalid as (c & Hc & He & Ht). apply negb_true_iff in Ht.
  apply (terminal_checkpoint_rejects SessionExample.portal SessionExample.session _ (OutcomeExample.at_slot41 2000) _ _ c).
  - reflexivity.
  - unfold in_width, umax; cbn; lia.
  - exact I.
  - exact Hc.
  - exact Ht.
  - cbn. by rewrite He.
Defined.

Lemma proposal_locks_bond_witness :
  ∃ w' rent, try_minimum_balance 380 = Ok rent ∧
    rent + CHECKPOINT_PROPOSER_BOND_LAMPORTS ≤ lamports (acct w' OutcomeExample.slot41).
Proof.
  destruct (run_Ok OutcomeExample.propose_it DisputeExample.w0 OutcomeExample.propose_succeeds) as [u Hr].
  destruct (λ N1 N2 Hw Hn, proposal_locks_bond _ _ _ _ _ _ _ _ _ _ _ _ N1 N2 Hw Hn Hr)
    as (s & k & _ & _ & _ & _ & _ & (rent & Hrent & Hle) & _).
  - apply (bool_decide_unpack _). vm_compute. reflexivity.
  - apply (bool_decide_unpack _). vm_compute. reflexivity.
  - concrete_wf.
  - unfold in_width, umax; cbn; lia.
  - exists (run OutcomeExample.propose_it DisputeExample.w0), rent. split; [exact Hrent|exact Hle].
Defined.

(** One byte written by the challenger takes the proposer's bond. *)
Lemma resolution_follows_verifier_witness :
  ∃ c h k w', challenger_won OutcomeExample.w6 w' OutcomeExample.slot41 OutcomeExample.challenge41 SessionExample.cursor c h k.
Proof.
  destruct (run_Ok OutcomeExample.resolve OutcomeExample.w6 OutcomeExample.resolve_succeeds) as [u Hr].
  destruct (resolution_follows_verifier _ _ _ _ _ _ _ _ _ _ _ _ _ _ _ Hr) as (c & h & k & p & _ & _ & _ & _ & Hp & _ & _ & Hw).
  exists c, h, k, (run OutcomeExample.resolve OutcomeExample.w6). apply Hw; [reflexivity|].
  pose proof OutcomeExample.sealed_short as Hl. rewrite (sp_proof _ _ _ _ _ _ _ _ _ Hp) in Hl.
  apply Z.eqb_eq in Hl. rewrite Hl. discriminate.
Defined.
