(* ===== verification/Deposits.v ===== *)
(** * SOL deposits and withdrawals
      (portal/src/instructions/deposit_fee.rs, start_withdrawal.rs,
       settle_deposit_receipt.rs)

    A depositor escrows lamports in the receipt of an ER account; on the ER a
    withdrawal moves lamports to the sink; settling the receipt pays the
    difference of the withdrawal counters out of the escrow.

    The receipt's escrow is the lamports above its rent-exempt minimum.
    [settle_receipt_pays_counter] shows that a settlement pays exactly the
    increase of the withdrawal counter out of the escrow and leaves the escrow
    covering the recorded balance; [receipts_stay_solvent] extends this to any
    sequence of deposits and settlements of any receipts. *)

From Stdlib Require Import ZArith Lia.
From Stdlib Require Import Strings.Byte.
From stdpp Require Import base gmap list numbers.
From S2P Require Import Prelude Borsh Events Runtime State Commitments Frames Toy Pda Instruction SessionOps Delegation Settlement.

Section handlers.
Context `{Host} (cx : Ctx).

(** ** DepositFee *)

Definition new_receipt (session recipient : Address) (bump : Z) : DepositReceipt.t :=
  DepositReceipt.mk DepositReceipt.DISCRIMINATOR session recipient 0 0 bump.

Definition process_deposit_fee (accounts : list Address) (n : Z) : prog unit :=
  match accounts with
  | depositor :: session :: deposit_receipt :: recipient :: _system_program :: _ =>
    bail_if (negb (is_signer cx depositor)) PortalError.Unauthorized ;;
    sx ← get_acct session;
    bail_if (negb (owned_by sx (program_id cx))) PortalError.SessionAccountOwnerMismatch ;;
    session_state ← load session (into PortalError.SessionDeserializeFailed);
    bail_if (negb (Session.is_valid session_state)) PortalError.SessionStateInvalid ;;
    bail_if (Session.is_expired session_state (slot (clock cx))) PortalError.SessionExpired ;;
    rx ← get_acct recipient;
    bail_if (negb (owned_by rx system_id) || negb (is_data_empty rx) || executable rx)
      PortalError.InvalidAccountData ;;
    if n =? 0 then mret tt
    else
      let '(expected_receipt_key, receipt_bump) := find_deposit_receipt_pda (program_id cx) session recipient in
      bail_if (deposit_receipt != expected_receipt_key) PortalError.InvalidPdaSeeds ;;
      let new_receipt_state := new_receipt session recipient receipt_bump in
      let receipt_size := account_size new_receipt_state in
      receipt_rent_exempt ← lift_err id (try_minimum_balance receipt_size);
      dx ← get_acct deposit_receipt;
      pre_escrow ← (if is_data_empty dx then mret 0
                    else ok_or (checked_sub (lamports dx) receipt_rent_exempt) (into PortalError.InsufficientFees));
      post_escrow ← ok_or (u64_checked_add pre_escrow n) ArithmeticOverflow;
      emit_transfer_event {|
        ev_version := NorthstarTransferEvent_VERSION; ev_kind := Events.Deposit;
        ev_from := depositor; ev_to := recipient; ev_lamports := n;
        ev_pre_balance := pre_escrow; ev_post_balance := post_escrow;
        ev_slot := slot (clock cx); ev_timestamp := unix_timestamp (clock cx) |} ;;
      (if is_data_empty dx then
         initialize_pda_account cx depositor deposit_receipt receipt_rent_exempt receipt_size (program_id cx)
           [DepositReceipt.SEED_PREFIX; session; recipient; le_bytes 1 receipt_bump] ;;
         store deposit_receipt new_receipt_state Panicked
       else
         receipt_state ← load deposit_receipt (into PortalError.DepositReceiptDeserializeFailed);
         bail_if (negb (DepositReceipt.is_valid receipt_state)) PortalError.DepositReceiptStateInvalid ;;
         bail_if ((DepositReceipt.session receipt_state != session)
                  || (DepositReceipt.recipient receipt_state != recipient)) PortalError.InvalidPdaSeeds) ;;
      Transfer cx depositor deposit_receipt n
  | _ => fail NotEnoughAccountKeys
  end.

(** ** StartWithdrawal *)

Definition process_start_withdrawal (accounts : list Address) (n : Z) : prog unit :=
  match accounts with
  | source :: l1_recipient :: withdrawal_sink :: _system_program :: clock_account :: _ =>
    cl ← get_acct clock_account;
    ck ← lift_err id (clock_from_account_view clock_account cl);
    bail_if (negb (is_signer cx source)) PortalError.Unauthorized ;;
    bail_if (withdrawal_sink != WITHDRAWAL_SINK) PortalError.WithdrawalSinkMismatch ;;
    if n =? 0 then mret tt
    else
      sx ← get_acct source;
      let pre_balance := lamports sx in
      post_balance ← ok_or (checked_sub pre_balance n) InsufficientFunds;
      emit_transfer_event {|
        ev_version := NorthstarTransferEvent_VERSION; ev_kind := Events.Withdrawal;
        ev_from := source; ev_to := l1_recipient; ev_lamports := n;
        ev_pre_balance := pre_balance; ev_post_balance := post_balance;
        ev_slot := slot ck; ev_timestamp := unix_timestamp ck |} ;;
      Transfer cx source withdrawal_sink n
  | _ => fail NotEnoughAccountKeys
  end.

(** ** SettleDepositReceipt *)

(** The context of a V2 session; [None] for a V1 session. *)
Definition session_context (session : Address) : prog (option Hash32) :=
  x ← get_acct session;
  if starts_with (data x) SessionV2.DISCRIMINATOR then
    frame ← load session (into PortalError.SessionDeserializeFailed);
    context ← lift_err (λ _, into PortalError.InvalidAccountData)
      (SessionIdentityV2.commitment (SessionV2.identity frame (program_id cx) session) hashv);
    mret (Some context)
  else mret None.

Definition with_balance (balance withdrawn : Z) (r : DepositReceipt.t) : DepositReceipt.t :=
  DepositReceipt.mk (DepositReceipt.discriminator r) (DepositReceipt.session r) (DepositReceipt.recipient r)
    balance withdrawn (DepositReceipt.bump r).

(** Pays [n] from the receipt; the recipient's balances before and after. *)
Definition pay_out (deposit_receipt l1_recipient : Address) (n : Z) : prog (Z * Z) :=
  if 0 <? n then
    l ← get_acct l1_recipient;
    recipient_post_balance ← ok_or (u64_checked_add (lamports l) n) (into PortalError.ArithmeticOverflow);
    set_lamports l1_recipient recipient_post_balance ;;
    d ← get_acct deposit_receipt;
    receipt_lamports ← ok_or (checked_sub (lamports d) n) (into PortalError.ArithmeticOverflow);
    set_lamports deposit_receipt receipt_lamports ;;
    mret (lamports l, recipient_post_balance)
  else mret (0, 0).

(** The receipt of [er_source], checked against the session. *)
Definition load_receipt (session deposit_receipt er_source : Address) : prog DepositReceipt.t :=
  context ← session_context session;
  let '(expected_receipt_key, receipt_bump) :=
    match context with
    | Some context => find_deposit_receipt_v2_pda (program_id cx) context er_source
    | None => find_deposit_receipt_pda (program_id cx) session er_source
    end in
  bail_if (deposit_receipt != expected_receipt_key) PortalError.InvalidPdaSeeds ;;
  dx ← get_acct deposit_receipt;
  bail_if (negb (owned_by dx (program_id cx))) PortalError.InvalidAccountData ;;
  bail_if (negb (Bool.eqb (bool_decide (is_Some context)) (starts_with (data dx) DepositReceiptV2.DISCRIMINATOR)))
    PortalError.DepositReceiptStateInvalid ;;
  match context with
  | Some context =>
      frame ← load deposit_receipt (into PortalError.DepositReceiptDeserializeFailed);
      bail_if (DepositReceiptV2.session_context frame != context) PortalError.InvalidAccountData
  | None => mret tt
  end ;;
  receipt_state ← lift_err into (parse_deposit_receipt (data dx));
  bail_if (negb (DepositReceipt.is_valid receipt_state)) PortalError.DepositReceiptStateInvalid ;;
  bail_if ((DepositReceipt.session receipt_state != session) || (DepositReceipt.recipient receipt_state != er_source)
           || (DepositReceipt.bump receipt_state != receipt_bump)) PortalError.InvalidPdaSeeds ;;
  mret receipt_state.

(** The checks on session, validator and open settlement are, in order and error,
    those of [load_session], [require_validator] and
    [require_active_settlement]. *)
Definition process_settle_deposit_receipt (accounts : list Address) (args : SettleDepositReceipt.t) : prog unit :=
  let '(SettleDepositReceipt.mk er_slot checksum balance withdrawn payout_lamports recipient_arg) := args in
  match accounts with
  | validator :: session :: deposit_receipt :: er_source :: l1_recipient :: _ =>
    session_state ← load_session cx session;
    require_validator cx validator session_state ;;
    require_active_settlement session_state er_slot checksum ;;
    bail_if (l1_recipient != recipient_arg) PortalError.InvalidAccountData ;;
    receipt_state ← load_receipt session deposit_receipt er_source;
    if (DepositReceipt.balance receipt_state =? balance) && (withdrawn <=? DepositReceipt.withdrawn receipt_state)
    then mret tt
    else
      bail_if (withdrawn <? DepositReceipt.withdrawn receipt_state) PortalError.InvalidAccountData ;;
      withdrawn_delta ← ok_or (checked_sub withdrawn (DepositReceipt.withdrawn receipt_state))
                          (into PortalError.ArithmeticOverflow);
      bail_if (payout_lamports != withdrawn_delta) PortalError.InvalidAccountData ;;
      dx ← get_acct deposit_receipt;
      rent_exempt ← lift_err id (try_minimum_balance (length (data dx)));
      escrow_lamports ← ok_or (checked_sub (lamports dx) rent_exempt) (into PortalError.InsufficientFees);
      escrow_after_payout ← ok_or (checked_sub escrow_lamports payout_lamports) (into PortalError.InsufficientFees);
      bail_if (escrow_after_payout <? balance) PortalError.InsufficientFees ;;
      '(recipient_pre_balance, recipient_post_balance) ← pay_out deposit_receipt l1_recipient payout_lamports;
      dx ← get_acct deposit_receipt;
      d ← lift_err into (write_deposit_receipt (data dx) (with_balance balance withdrawn receipt_state));
      set_data deposit_receipt d ;;
      store_session session
        (with_accumulator (accumulate_receipt_checksum (Session.settlement_accumulator session_state)
                             er_source l1_recipient balance withdrawn payout_lamports) session_state) ;;
      if 0 <? payout_lamports then
        emit_transfer_event {|
          ev_version := NorthstarTransferEvent_VERSION; ev_kind := Events.Withdrawal;
          ev_from := er_source; ev_to := l1_recipient; ev_lamports := payout_lamports;
          ev_pre_balance := recipient_pre_balance; ev_post_balance := recipient_post_balance;
          ev_slot := er_slot; ev_timestamp := unix_timestamp (clock cx) |}
      else mret tt
  | _ => fail NotEnoughAccountKeys
  end.
End handlers.

(** ** Specifications *)

Section specs.
Context `{HostLaws} (cx : Ctx).

(** The receipt account holds [r]. *)
Definition receipt_at (w : World) (a : Address) (r : DepositReceipt.t) : Prop :=
  parse_deposit_receipt (data (acct w a)) = Ok r.

(** The lamports above the rent-exempt minimum. *)
Definition escrow (w : World) (a : Address) (e : Z) : Prop :=
  ∃ m, try_minimum_balance (length (data (acct w a))) = Ok m ∧ e = lamports (acct w a) - m.

#[global] Instance session_context_read_only s : ReadOnly (session_context cx s).
Proof. unfold session_context. apply _. Qed.
#[global] Instance load_receipt_read_only s d e : ReadOnly (load_receipt cx s d e).
Proof.
  unfold load_receipt. intros w r w' Hr. mstep Hr as c w1 Hc. destruct (match c with Some _ => _ | None => _ end).
  revert Hr. apply read_only.
Qed.

Lemma load_receipt_Ok session d src w r w' :
  load_receipt cx session d src w = Ok (r, w') →
  owner (acct w d) = program_id cx ∧ receipt_at w d r ∧ DepositReceipt.is_valid r = true ∧
  DepositReceipt.session r = session ∧ DepositReceipt.recipient r = src.
Proof.
  unfold load_receipt, owned_by. intros Hr. mstep Hr as c w1 Hc. destruct (match c with Some _ => _ | None => _ end).
  minv; bprop; done.
Qed.

Lemma pay_out_Ok d l n w p w' :
  0 ≤ n → pay_out d l n w = Ok (p, w') →
  w' ≡ moved d l n w ∧ (0 < n → p = (lamports (acct w l), lamports (acct w l) + n)).
Proof.
  intros Hn Hr. unfold pay_out in Hr. destruct (Z.ltb_spec 0 n).
  - minv. bprop. split; [|done]. rewrite Hrun4, Hrun1. split; [|done]. intros b. unfold moved.
    rewrite !acct_put. repeat (case_decide; subst; rewrite ?acct_put in * ); try done; try congruence.
    destruct (acct w b). unfold with_lamports. cbn. f_equal. lia.
  - minv. split; [|lia]. assert (n = 0) as -> by lia. split; [|done]. intros b. unfold moved.
    rewrite !acct_put. repeat (case_decide; subst; rewrite ?acct_put in * ); try done; try congruence.
    all: rewrite ?Z.sub_0_r, ?Z.add_0_r, ?with_lamports_id; try done.
Qed.

Lemma receipt_at_wf w a r : receipt_at w a r → wf borsh r ∧ DepositReceipt.is_valid r = true.
Proof. intros Hr%parse_deposit_receipt_Ok. by eapply receipt_shape_wf. Qed.

Lemma session_not_receipt w a s r : session_at w a s → receipt_at w a r → False.
Proof.
  intros Hs%parse_session_Ok Hr%parse_deposit_receipt_Ok. destruct Hs as [? _ Hs|f ? _ Hs _], Hr as [? _ Hr|g ? Hr _ _ _ _ _];
    rewrite Hs in Hr; apply (f_equal length) in Hr; by rewrite !codec_size in Hr.
Qed.

Lemma with_balance_wf b wd r : wf borsh r → is_u64 b → is_u64 wd → wf borsh (with_balance b wd r).
Proof. intros (?&?&?&?&?&?) ??. wf_fields. Qed.

Definition payout_event (er_source l1_recipient : Address) (n pre er_slot : Z) : NorthstarTransferEvent := {|
  ev_version := NorthstarTransferEvent_VERSION; ev_kind := Events.Withdrawal;
  ev_from := er_source; ev_to := l1_recipient; ev_lamports := n;
  ev_pre_balance := pre; ev_post_balance := pre + n;
  ev_slot := er_slot; ev_timestamp := unix_timestamp (clock cx) |}.

Lemma receipt_written_Ok session s acc d l n r bal wd w w1 d' w2 w3 :
  w1 ≡ moved d l n w → session_at w session s → receipt_at w d r → is_u64 bal → is_u64 wd → is_key acc →
  write_deposit_receipt (data (acct w1 d)) (with_balance bal wd r) = Ok d' →
  w2 ≡ put d (with_data d' (acct w1 d)) w1 →
  store_session session (with_accumulator acc s) w2 = Ok (tt, w3) →
  receipt_at w3 d (with_balance bal wd r) ∧ session_at w3 session (with_accumulator acc s) ∧
  (∀ b, lamports (acct w3 b) = lamports (acct (moved d l n w) b) ∧ owner (acct w3 b) = owner (acct w b) ∧
        (b ≠ d → b ≠ session → data (acct w3 b) = data (acct w b))) ∧
  length (data (acct w3 d)) = length (data (acct w d)) ∧ events w3 = events w ∧ total_lamports w3 = total_lamports w.
Proof.
  intros Hmv Hs Hrd Hbal Hwd Hacc Hd' Hset Hse. pose proof (conserves _ _ _ Hse) as Htot.
  assert (Hne : session ≠ d) by (intros ->; by eapply session_not_receipt).
  destruct (receipt_at_wf _ _ _ Hrd) as [Hwf Hv]. pose proof (moved_fields d l n w) as Hmf.
  apply (store_accumulator_Ok _ _ _ w) in Hse as (Hs1 & Hf & [ds Hds] & Hev);
    [|done|rewrite Hset, acct_put_ne, Hmv by done; apply Hmf|done].
  rewrite Hmv in Hd'. rewrite (proj1 (Hmf d)) in Hd'.
  apply (write_deposit_receipt_Ok _ r) in Hd' as [Hd' Hlen]; [|done|by apply with_balance_wf|done].
  assert (Hd3 : acct w3 d = with_data d' (acct (moved d l n w) d)) by (by rewrite Hf, Hset, acct_put_eq, Hmv by done).
  split_and!; [unfold receipt_at; by rewrite Hd3|done| |by rewrite Hd3|by rewrite Hev, Hset, Hmv|].
  - intros b. destruct (Hmf b) as [Hmd Hmo]. destruct (decide (b = d)) as [->|Hbd]; [by rewrite Hd3|].
    destruct (decide (b = session)) as [->|Hbs].
    + rewrite Hds, Hset, acct_put_ne, Hmv by done. done.
    + rewrite Hf, Hset, acct_put_ne, Hmv by done. done.
  - rewrite Htot, Hset, Hmv, total_lamports_put, moved_total. cbn. lia.
Qed.

Lemma process_settle_deposit_receipt_Ok validator session d src l rest args w u w' :
  wf borsh args →
  process_settle_deposit_receipt cx (validator :: session :: d :: src :: l :: rest) args w = Ok (u, w') →
  let '(SettleDepositReceipt.mk er chk bal wd pay lr) := args in
  ∃ s r, settling cx w validator session er chk s ∧ load_receipt cx session d src w = Ok (r, w) ∧ lr = l ∧
    (w' = w ∧ DepositReceipt.balance r = bal ∧ wd ≤ DepositReceipt.withdrawn r ∨
     pay = wd - DepositReceipt.withdrawn r ∧ 0 ≤ pay ∧ (∃ e, escrow w d e ∧ bal + pay ≤ e) ∧
     receipt_at w' d (with_balance bal wd r) ∧
     session_at w' session
       (with_accumulator (accumulate (Session.settlement_accumulator s) (SettleReceipt src l bal wd pay)) s) ∧
     (∀ b, lamports (acct w' b) = lamports (acct (moved d l pay w) b) ∧ owner (acct w' b) = owner (acct w b) ∧
           (b ≠ d → b ≠ session → data (acct w' b) = data (acct w b))) ∧
     length (data (acct w' d)) = length (data (acct w d)) ∧
     events w' = events w ++ (if decide (0 < pay) then [payout_event src l pay (lamports (acct w l)) er] else []) ∧
     total_lamports w' = total_lamports w).
Proof.
  intros Hargs Hr. destruct args as [er chk bal wd pay lr]. unfold process_settle_deposit_receipt in Hr.
  destruct Hargs as (_ & _ & Hbal & Hwd & Hpay & _).
  mstep Hr as s w1 Hs. apply load_session_Ok in Hs as (_ & _ & Hs).
  mstep Hr as [] w1 Hv. apply require_validator_Ok in Hv as [Hsig Hv].
  mstep Hr as [] w1 Ha. apply require_active_settlement_Ok in Ha as (Hst & Her & Hck).
  mstep Hr as [] w1 Hl. mstep Hr as r w1 Hrec. pose proof (load_receipt_Ok _ _ _ _ _ _ Hrec) as (_ & Hrd & Hrv & _ & _).
  bprop. exists s, r. split; [done|]. split; [done|]. split; [done|].
  destruct (_ && _) eqn:Hdup; [left; minv; by bprop|right].
  mstep Hr as [] w1 Hreg. mstep Hr as dl w1 Hdl. mstep Hr as [] w1 Hp. mstep Hr as dx w1 Hdx.
  mstep Hr as m w1 Hm. mstep Hr as e1 w1 He1. mstep Hr as e2 w1 He2. mstep Hr as [] w1 Hcov. bprop.
  mstep Hr as [pre post] w1 Hpo. 
  mstep Hr as dy w2 Hdy. mstep Hr as d' w2 Hd'. mstep Hr as [] w2 Hset. mstep Hr as [] w3 Hse.
  apply pay_out_Ok in Hpo as [Hmv Hpp]; [|lia].
  eapply receipt_written_Ok in Hse as (Hr1 & Hs1 & Hb & Hl1 & Hev & Ht);
    [|exact Hmv|done|exact Hrd|exact Hbal|exact Hwd|apply sha_key|exact Hd'|exact Hset].
  pose proof (conserves _ _ _ Hr) as Ht'.
  assert (Hw' : (∀ b, acct w' b = acct w3 b) ∧ events w' = events w3 ++ (if decide (0 < wd - DepositReceipt.withdrawn r)
     then [payout_event src lr (wd - DepositReceipt.withdrawn r) (lamports (acct w lr)) (Session.settlement_er_slot s)] else [])).
  { case_decide as Hpos; [|rewrite (proj2 (Z.ltb_ge _ _)) in Hr by lia; minv; by rewrite app_nil_r].
    rewrite (proj2 (Z.ltb_lt _ _)) in Hr by done. specialize (Hpp Hpos) as [= -> ->].
    unfold emit_transfer_event in Hr. minv. done. }
  destruct Hw' as [Hw' Hev']. unfold receipt_at, session_at in *. rewrite !Hw', Hev', Hev.
  split_and!; try done; [lia|exists (lamports (acct w d) - m); split; [by exists m|lia]| |congruence].
  intros b. rewrite Hw'. apply Hb.
Qed.

(** *** Deposits *)

Definition deposit_event (depositor recipient : Address) (n pre : Z) : NorthstarTransferEvent := {|
  ev_version := NorthstarTransferEvent_VERSION; ev_kind := Events.Deposit;
  ev_from := depositor; ev_to := recipient; ev_lamports := n;
  ev_pre_balance := pre; ev_post_balance := pre + n;
  ev_slot := slot (clock cx); ev_timestamp := unix_timestamp (clock cx) |}.

(** A first deposit creates the receipt; a later one leaves its state alone;
    either way the lamports go from the depositor to the receipt. *)
Lemma process_deposit_fee_Ok depositor session d recipient sys rest n w u w' :
  depositor ≠ d → is_key session → is_key recipient → 0 ≤ n →
  process_deposit_fee cx (depositor :: session :: d :: recipient :: sys :: rest) n w = Ok (u, w') →
  is_signer cx depositor = true ∧ owner (acct w session) = program_id cx ∧
  (∃ s, try_from_slice (data (acct w session)) = Some s ∧ Session.is_valid s = true ∧
        Session.is_expired s (slot (clock cx)) = false) ∧
  (n = 0 ∧ w' = w ∨
   0 < n ∧ ∃ m pre paid, try_minimum_balance 89 = Ok m ∧
   d = (find_deposit_receipt_pda (program_id cx) session recipient).1 ∧
   acct w' depositor = with_lamports (lamports (acct w depositor) - paid - n) (acct w depositor) ∧
   (∀ b, b ≠ depositor → b ≠ d → acct w' b = acct w b) ∧
   events w' = events w ++ [deposit_event depositor recipient n pre] ∧
   (data (acct w d) = [] ∧ pre = 0 ∧ paid = Z.max 0 (m - lamports (acct w d)) ∧
    lamports (acct w' d) = Z.max (lamports (acct w d)) m + n ∧ owner (acct w' d) = program_id cx ∧
    receipt_at w' d (new_receipt session recipient (find_deposit_receipt_pda (program_id cx) session recipient).2) ∨
    data (acct w d) ≠ [] ∧ pre = lamports (acct w d) - m ∧ 0 ≤ pre ∧ paid = 0 ∧
    acct w' d = with_lamports (lamports (acct w d) + n) (acct w d) ∧
    ∃ r, receipt_at w d r ∧ DepositReceipt.session r = session ∧ DepositReceipt.recipient r = recipient)).
Proof.
  intros Hne Hks Hkr Hn Hr. unfold process_deposit_fee in Hr.
  mstep Hr as [] w1 Hsig. mstep Hr as sx w1 Hsx. mstep Hr as [] w1 Hown. mstep Hr as s w1 Hs.
  apply load_Ok in Hs as [Hs _]. mstep Hr as [] w1 Hv. mstep Hr as [] w1 Hexp.
  mstep Hr as rx w1 Hrx. mstep Hr as [] w1 Hro. bprop. unfold owned_by in Hown. bprop.
  split; [done|]. split; [done|]. split; [by eauto|].
  destruct (Z.eqb_spec n 0) as [->|Hn0]; [left; by minv|right]. split; [lia|].
  assert (Hwf : wf borsh (new_receipt session recipient (find_deposit_receipt_pda (program_id cx) session recipient).2)).
  { pose proof (find_bump_range [DepositReceipt.SEED_PREFIX; session; recipient] (program_id cx)).
    assert (is_u64 0) by (unfold in_width, umax; lia).
    assert (length DepositReceipt.DISCRIMINATOR = 8%nat) by done. wf_fields. }
  destruct (find_deposit_receipt_pda (program_id cx) session recipient) as [dk bump]. cbn [fst snd] in *.
  mstep Hr as [] w1 Hd. bprop. subst dk. cbv zeta in Hr. replace (object_length _) with 89%nat in Hr by (symmetry; by apply codec_size).
  mstep Hr as m w1 Hm. mstep Hr as dx w1 Hdx.
  mstep Hr as pre w0 Hpre. pose proof (read_only _ _ _ Hpre) as ->. mstep Hr as post w1 Hpost.
  mstep Hr as [] w1 Hev. mstep Hr as [] w2 Hcre. bprop. apply Transfer_Ok in Hr as (Hmv & _).
  assert (Hw1 : (∀ b, acct w1 b = acct w b) ∧ events w1 = events w ++ [deposit_event depositor recipient n pre])
    by (unfold emit_transfer_event in Hev; minv; done).
  destruct Hw1 as [Hw1 Hev1]. clear Hev.
  destruct (is_data_empty (acct w d)) eqn:He; unfold is_data_empty in He; bprop.
  - apply ret_Ok in Hpre as [<- _]. mstep Hcre as [] w3 Hi.
    apply initialize_created in Hi as (Hi & Hp & Hf & _ & _ & Hev3); [|done].
    apply store_exact_Ok in Hcre as ->; [|rewrite Hi; cbn [data]; rewrite length_zeros; symmetry; by apply codec_size].
    exists m, 0, (Z.max 0 (m - lamports (acct w d))). rewrite !Hw1 in *.
    split_and!; try done.
    + rewrite Hmv, acct_moved, decide_True, acct_put_ne, Hp by done. cbn. done.
    + intros b ??. by rewrite Hmv, acct_moved, !decide_False, acct_put_ne, Hf, Hw1 by done.
    + trans (events w3); [by rewrite Hmv|congruence].
    + left. rewrite Hi in *. unfold receipt_at.
      rewrite Hmv, acct_moved, decide_False, decide_True, acct_put_eq by done. cbn. split_and!; try done.
      apply parse_deposit_receipt_Ok. by apply ReceiptV1Shape.
  - pose proof (read_only _ _ _ Hcre) as ->. minv. bprop.
    match goal with X : load _ _ _ = Ok _ |- _ => apply load_Ok in X as [X _] end.
    exists m, (lamports (acct w d) - m), 0. rewrite !Hw1 in *. split_and!; try done.
    + rewrite Hmv, acct_moved, decide_True, Hw1, Z.sub_0_r by done. done.
    + intros b ??. by rewrite Hmv, acct_moved, !decide_False, Hw1 by done.
    + rewrite Hmv. exact Hev1.
    + right. split_and!; try done; [lia| |].
      * by rewrite Hmv, acct_moved, decide_False, decide_True, Hw1 by done.
      * eexists. split; [|done]. apply parse_deposit_receipt_Ok.
        apply try_from_slice_Some in Hrun as [? ->]. by apply ReceiptV1Shape.
Qed.

(** *** Withdrawals on the ER *)

Lemma process_start_withdrawal_Ok source l1_recipient sink sys ck rest n w u w' :
  process_start_withdrawal cx (source :: l1_recipient :: sink :: sys :: ck :: rest) n w = Ok (u, w') →
  ∃ c, clock_from_account_view ck (acct w ck) = Ok c ∧ is_signer cx source = true ∧ sink = WITHDRAWAL_SINK ∧
    (n = 0 ∧ w' = w ∨ n ≠ 0 ∧ n ≤ lamports (acct w source) ∧
     (∀ b, acct w' b = acct (moved source sink n w) b) ∧
     events w' = events w ++ [{|
       ev_version := NorthstarTransferEvent_VERSION; ev_kind := Events.Withdrawal;
       ev_from := source; ev_to := l1_recipient; ev_lamports := n;
       ev_pre_balance := lamports (acct w source); ev_post_balance := lamports (acct w source) - n;
       ev_slot := slot c; ev_timestamp := unix_timestamp c |}]).
Proof.
  intros Hr. unfold process_start_withdrawal in Hr.
  mstep Hr as cl w1 Hcl. mstep Hr as c w1 Hc. mstep Hr as [] w1 Hsig. mstep Hr as [] w1 Hsink. bprop.
  exists c. split; [done|]. split; [done|]. split; [done|].
  destruct (Z.eqb_spec n 0) as [->|Hn0]; [left; by minv|right].
  mstep Hr as sx w1 Hsx. mstep Hr as post w1 Hpost. mstep Hr as [] w1 Hev. bprop.
  apply Transfer_Ok in Hr as (Hmv & _ & _ & Hle). unfold emit_transfer_event in Hev. minv.
  split_and!; try done; [intros b|]; by rewrite Hmv.
Qed.
End specs.

(** ** Sequences of deposits and settlements *)

Section ledger.
Context `{HostLaws}.

Inductive ReceiptOp : Set :=
| RDeposit (accounts : list Address) (n : Z)
| RSettle (accounts : list Address) (args : SettleDepositReceipt.t).

Definition exec_receipt (cx : Ctx) (op : ReceiptOp) : prog unit :=
  match op with
  | RDeposit accounts n => process_deposit_fee cx accounts n
  | RSettle accounts args => process_settle_deposit_receipt cx accounts args
  end.

Inductive receipt_runs : World → list (Ctx * ReceiptOp) → World → Prop :=
| receipt_runs_nil w : receipt_runs w [] w
| receipt_runs_cons w cx op w1 l w2 :
    exec_receipt cx op w = Ok (tt, w1) → receipt_runs w1 l w2 → receipt_runs w ((cx, op) :: l) w2.

(** The receipt, a program address, does not sign; the arguments are what the
    instruction data can hold. *)
Definition receipt_op_safe (d : Address) (p : Ctx * ReceiptOp) : Prop :=
  is_signer p.1 d = false ∧
  match p.2 with
  | RDeposit accounts n => Forall is_key accounts ∧ 0 ≤ n
  | RSettle _ args => wf borsh args
  end.

(** The receipt holds [r] with [e] lamports of escrow. *)
Definition ledger (w : World) (d : Address) (r : DepositReceipt.t) (e : Z) : Prop :=
  receipt_at w d r ∧ escrow w d e.

(** One step: the counter does not go down, lamports leave only against it, and
    the escrow keeps covering the balance. *)
Definition ledger_step (r : DepositReceipt.t) (e : Z) (r' : DepositReceipt.t) (e' : Z) : Prop :=
  DepositReceipt.session r' = DepositReceipt.session r ∧ DepositReceipt.recipient r' = DepositReceipt.recipient r ∧
  DepositReceipt.withdrawn r ≤ DepositReceipt.withdrawn r' ∧
  e - e' ≤ DepositReceipt.withdrawn r' - DepositReceipt.withdrawn r ∧
  (DepositReceipt.balance r ≤ e → DepositReceipt.balance r' ≤ e').

Lemma ledger_step_refl r e : ledger_step r e r e.
Proof. unfold ledger_step. split_and!; try done; lia. Qed.
Lemma ledger_step_trans r1 e1 r2 e2 r3 e3 :
  ledger_step r1 e1 r2 e2 → ledger_step r2 e2 r3 e3 → ledger_step r1 e1 r3 e3.
Proof. unfold ledger_step. intros (?&?&?&?&?) (?&?&?&?&?). split_and!; try congruence; try lia; auto. Qed.

(** An account with the same data and no fewer lamports. *)
Lemma ledger_grows w w' d r e :
  ledger w d r e → data (acct w' d) = data (acct w d) → lamports (acct w d) ≤ lamports (acct w' d) →
  ∃ e', ledger w' d r e' ∧ ledger_step r e r e'.
Proof.
  intros [Hr (m & Hm & ->)] Hd Hl. exists (lamports (acct w' d) - m). unfold ledger, receipt_at, escrow, ledger_step.
  rewrite Hd. split_and!; try done; [by exists m|lia..].
Qed.

Lemma deposit_step cx accounts n d w w' r e :
  receipt_op_safe d (cx, RDeposit accounts n) → process_deposit_fee cx accounts n w = Ok (tt, w') → ledger w d r e →
  ∃ e', ledger w' d r e' ∧ ledger_step r e r e'.
Proof.
  intros [Hns [Hk Hn]] Hr Hl. cbn [fst snd] in *.
  destruct accounts as [|dep [|session [|d2 [|recipient [|sys rest]]]]]; try (unfold process_deposit_fee in Hr; minv; done).
  rewrite !list.Forall_cons in Hk. destruct Hk as (_ & Hks & _ & Hkr & _).
  assert (Hne : dep ≠ d) by (unfold process_deposit_fee in Hr; mstep Hr as [] w1 Hs; bprop; congruence).
  destruct (decide (d2 = d)) as [->|Hd].
  - apply process_deposit_fee_Ok in Hr as (_ & _ & _ & [[_ ->]|(Hpos & m & pre & paid & _ & _ & _ & _ & _ & Hcase)]);
      [exists e; split; [done|apply ledger_step_refl]| |done..].
    destruct Hcase as [(Hem & _)|(_ & _ & _ & _ & Hd & _)].
    + exfalso. destruct Hl as [Hl%parse_deposit_receipt_Ok _]. rewrite Hem in Hl.
      destruct Hl as [? _ Hl|f ? Hl _ _ _ _ _]; apply (f_equal length) in Hl; by rewrite codec_size in Hl.
    + apply (ledger_grows w); [done|by rewrite Hd|rewrite Hd; cbn; lia].
  - assert (Ha : acct w' d = acct w d).
    { revert Hr. apply frame_at. unfold process_deposit_fee.
      destruct (find_deposit_receipt_pda _ _ _). apply _. }
    apply (ledger_grows w); [done|by rewrite Ha|rewrite Ha; lia].
Qed.

Lemma settle_step cx accounts args d w w' r e :
  wf borsh args → process_settle_deposit_receipt cx accounts args w = Ok (tt, w') → ledger w d r e →
  ∃ r' e', ledger w' d r' e' ∧ ledger_step r e r' e'.
Proof.
  intros Hok Hr Hl. destruct accounts as [|v [|session [|d2 [|src [|l rest]]]]];
    try (unfold process_settle_deposit_receipt in Hr; destruct args; minv; done).
  destruct args as [er chk bal wd pay lr].
  apply process_settle_deposit_receipt_Ok in Hr as (s & r2 & Hset & Hlr & -> & [[-> _]|Hr]);
    [exists r, e; split; [done|apply ledger_step_refl]| |done].
  destruct Hr as (Hpay & Hp0 & (e2 & (m & Hm & ->) & Hcov) & Hr' & _ & Hb & Hlen & _ & _).
  destruct (Hb d) as (Hlam & _ & Hdata). pose proof Hl as [Hrec (m1 & Hm1 & ->)].
  destruct (decide (d2 = d)) as [->|Hd].
  - apply load_receipt_Ok in Hlr as (_ & Hr2 & _). unfold receipt_at in Hrec, Hr2. rewrite Hrec in Hr2.
    injection Hr2 as <-. assert (m1 = m) as -> by congruence.
    exists (with_balance bal wd r), (lamports (acct w' d) - m). split.
    + split; [done|]. exists m. by rewrite Hlen.
    + assert (lamports (acct w d) - pay ≤ lamports (acct w' d)).
      { rewrite Hlam. unfold moved. rewrite !acct_put. repeat case_decide; subst; cbn; lia. }
      unfold ledger_step. cbn. split_and!; try done; lia.
  - exists r. apply (ledger_grows w); [done|..].
    + apply Hdata; [done|]. intros ->. destruct Hset as [Hs _]. by eapply session_not_receipt.
    + rewrite Hlam. unfold moved. rewrite !acct_put. repeat case_decide; subst; cbn; try lia; congruence.
Qed.

Lemma receipt_runs_ledger d w l w' r e :
  receipt_runs w l w' → Forall (receipt_op_safe d) l → ledger w d r e →
  ∃ r' e', ledger w' d r' e' ∧ ledger_step r e r' e'.
Proof.
  intros Hruns. revert r e. induction Hruns as [w|w cx op w1 l w2 He Hruns IH]; intros r e Hsafe Hl.
  - exists r, e. split; [done|apply ledger_step_refl].
  - apply list.Forall_cons in Hsafe as [Hs Hsafe].
    assert (Hstep : ∃ r1 e1, ledger w1 d r1 e1 ∧ ledger_step r e r1 e1).
    { destruct op; cbn [exec_receipt] in He; [exists r; by eapply deposit_step|]. eapply settle_step; [apply Hs|done..]. }
    destruct Hstep as (r1 & e1 & Hl1 & Hs1). destruct (IH _ _ Hsafe Hl1) as (r2 & e2 & Hl2 & Hs2).
    exists r2, e2. split; [done|]. by eapply ledger_step_trans.
Qed.
End ledger.

(** ** Examples and properties *)

Module DepositExample.
Import SessionExample.
Import SettlementExample.
Definition recipient : Address := key 8.
Definition l1_recipient : Address := key 9.
Definition receipt : Address := Eval vm_compute in (find_deposit_receipt_pda portal session recipient).1.
Definition clock_account : Address := key 55.
Definition cx : Ctx :=
  cx_of portal 150 [validator; session; receipt; recipient; l1_recipient; checkpoint; WITHDRAWAL_SINK] [validator].
Abbreviation deposit := (process_deposit_fee cx [validator; session; receipt; recipient; system_id] 1000).
Definition w1 : World := run deposit w0.
Definition w2 : World :=
  run (process_begin_settlement cx [validator; session; checkpoint] (BeginSettlement.mk er_slot (key 31) effects)) w1.
Definition args : SettleDepositReceipt.t := SettleDepositReceipt.mk er_slot (key 31) 600 300 300 l1_recipient.
Abbreviation settle := (process_settle_deposit_receipt cx [validator; session; receipt; recipient; l1_recipient] args).
Abbreviation withdraw :=
  (process_start_withdrawal cx [validator; l1_recipient; WITHDRAWAL_SINK; system_id; clock_account] 250).
Definition w3 : World := run (exec_receipt cx (RSettle [validator; session; receipt; recipient; l1_recipient] args)) w2.
Definition ops : list (Ctx * ReceiptOp) :=
  [(cx, RSettle [validator; session; receipt; recipient; l1_recipient] args);
   (cx, RDeposit [validator; session; receipt; recipient; system_id] 50)].
End DepositExample.

(** A successful [DepositFee] of a positive amount is
    signed by the depositor, finds a live session, and moves exactly that amount
    into the escrow of the recipient's receipt (creating it, at the depositor's
    expense, the first time); it touches no other account, creates no lamports
    and announces the deposit in one event. *)
Theorem deposit_escrows_lamports `{HostLaws} cx depositor session d recipient sys rest n w u w' :
  depositor ≠ d → is_key session → is_key recipient → 0 < n →
  process_deposit_fee cx (depositor :: session :: d :: recipient :: sys :: rest) n w = Ok (u, w') →
  is_signer cx depositor = true ∧ owner (acct w session) = program_id cx ∧
  (∃ s, try_from_slice (data (acct w session)) = Some s ∧ Session.is_valid s = true ∧
        Session.is_expired s (slot (clock cx)) = false) ∧
  (∃ r', receipt_at w' d r' ∧ DepositReceipt.session r' = session ∧ DepositReceipt.recipient r' = recipient ∧
         (data (acct w d) ≠ [] → receipt_at w d r')) ∧
  (∃ m, try_minimum_balance 89 = Ok m ∧ lamports (acct w' d) = Z.max (lamports (acct w d)) m + n) ∧
  (∃ pre, events w' = events w ++ [deposit_event cx depositor recipient n pre]) ∧
  (∀ b, b ≠ depositor → b ≠ d → acct w' b = acct w b) ∧
  total_lamports w' = total_lamports w.
Proof.
  intros Hne Hks Hkr Hn Hr.
  assert (Ht : total_lamports w' = total_lamports w).
  { revert Hr. apply conserves. }
  apply process_deposit_fee_Ok in Hr as (? & ? & ? & [[-> _]|(_ & m & pre & paid & Hm & _ & _ & Hf & Hev & Hcase)]);
    [lia| |done|done|done|lia].
  split_and!; try done; [| |by eauto].
  - destruct Hcase as [(He & _ & _ & _ & _ & Hr')|(_ & _ & _ & _ & Hd & r & Hr' & ? & ?)].
    + eexists. split_and!; [exact Hr'|done|done|]. intros Hx. by destruct Hx.
    + exists r. unfold receipt_at in *. rewrite Hd. by split_and!.
  - exists m. split; [done|]. destruct Hcase as [(_ & _ & _ & -> & _)|(_ & Hp & Hp0 & _ & Hd & _)]; [done|].
    rewrite Hd. cbn. lia.
Qed.

Lemma deposit_escrows_lamports_witness :
  let w' := run DepositExample.deposit SettlementExample.w0 in
  total_lamports w' = total_lamports SettlementExample.w0 ∧
  ∃ r', receipt_at w' DepositExample.receipt r' ∧ DepositReceipt.recipient r' = DepositExample.recipient.
Proof.
  intros w'. destruct (run_Ok DepositExample.deposit SettlementExample.w0) as [[] Hr]; [vm_compute; reflexivity|].
  destruct (λ H1 H2 H3 H4, deposit_escrows_lamports _ _ _ _ _ _ _ _ _ _ _ H1 H2 H3 H4 Hr)
    as (_ & _ & _ & (r' & Hr' & _ & Hre & _) & _ & _ & _ & Ht).
  - apply (bool_decide_unpack _). vm_compute. reflexivity.
  - reflexivity.
  - reflexivity.
  - reflexivity.
  - split; [exact Ht|]. exists r'. split; [exact Hr'|exact Hre].
Defined.

(** A successful [StartWithdrawal] of a positive
    amount is signed by the source, which has the funds; it moves exactly that
    amount to the withdrawal sink and announces it in one event with the
    balances before and after and the time of the clock account. *)
Theorem start_withdrawal_moves_to_sink `{HostLaws} cx source l1_recipient sink sys ck rest n w u w' :
  0 < n → source ≠ sink →
  process_start_withdrawal cx (source :: l1_recipient :: sink :: sys :: ck :: rest) n w = Ok (u, w') →
  sink = WITHDRAWAL_SINK ∧ is_signer cx source = true ∧ n ≤ lamports (acct w source) ∧
  acct w' source = with_lamports (lamports (acct w source) - n) (acct w source) ∧
  acct w' sink = with_lamports (lamports (acct w sink) + n) (acct w sink) ∧
  (∀ b, b ≠ source → b ≠ sink → acct w' b = acct w b) ∧
  (∃ c, clock_from_account_view ck (acct w ck) = Ok c ∧ events w' = events w ++ [{|
     ev_version := NorthstarTransferEvent_VERSION; ev_kind := Events.Withdrawal;
     ev_from := source; ev_to := l1_recipient; ev_lamports := n;
     ev_pre_balance := lamports (acct w source); ev_post_balance := lamports (acct w' source);
     ev_slot := slot c; ev_timestamp := unix_timestamp c |}]).
Proof.
  intros Hn Hne Hr.
  apply process_start_withdrawal_Ok in Hr as (c & Hc & Hs & -> & [[-> _]|(_ & Hle & Ha & Hev)]); [lia|].
  assert (Hsrc : acct w' source = with_lamports (lamports (acct w source) - n) (acct w source))
    by (rewrite Ha, acct_moved, decide_True by done; done).
  split_and!; try done.
  - by rewrite Ha, acct_moved, decide_False, decide_True by done.
  - intros b ??. by rewrite Ha, acct_moved, !decide_False by done.
  - exists c. split; [done|]. by rewrite Hev, Hsrc.
Qed.

Lemma start_withdrawal_moves_to_sink_witness :
  let w' := run DepositExample.withdraw DepositExample.w2 in
  lamports (acct w' WITHDRAWAL_SINK) = 250.
Proof.
  intros w'. destruct (run_Ok DepositExample.withdraw DepositExample.w2) as [[] Hr]; [vm_compute; reflexivity|].
  destruct (λ H1 H2, start_withdrawal_moves_to_sink _ _ _ _ _ _ _ _ _ _ _ H1 H2 Hr) as (_ & _ & _ & _ & Hs & _).
  - reflexivity.
  - apply (bool_decide_unpack _). vm_compute. reflexivity.
  - unfold w'. rewrite Hs. vm_compute. reflexivity.
Defined.

(** A successful [SettleDepositReceipt] is signed by
    the validator of an open settlement.  Either the receipt already stands at
    the given state and nothing changes, or it takes the given balance and
    withdrawal counter, the counter does not go back, exactly its increase is
    paid from the receipt to the given recipient and announced in an event, and
    the escrow that remains covers the balance. *)
Theorem settle_receipt_pays_counter `{HostLaws} cx validator session d src l rest args w u w' :
  wf borsh args → l ≠ d →
  process_settle_deposit_receipt cx (validator :: session :: d :: src :: l :: rest) args w = Ok (u, w') →
  let '(SettleDepositReceipt.mk er chk bal wd pay lr) := args in
  ∃ s r, settling cx w validator session er chk s ∧ lr = l ∧ receipt_at w d r ∧
    DepositReceipt.session r = session ∧ DepositReceipt.recipient r = src ∧
    (w' = w ∨
     receipt_at w' d (with_balance bal wd r) ∧ DepositReceipt.withdrawn r ≤ wd ∧
     lamports (acct w' l) = lamports (acct w l) + (wd - DepositReceipt.withdrawn r) ∧
     lamports (acct w' d) = lamports (acct w d) - (wd - DepositReceipt.withdrawn r) ∧
     (∃ e, escrow w' d e ∧ bal ≤ e) ∧
     events w' = events w ++
       (if decide (0 < wd - DepositReceipt.withdrawn r)
        then [payout_event cx src l (wd - DepositReceipt.withdrawn r) (lamports (acct w l)) er] else []) ∧
     total_lamports w' = total_lamports w).
Proof.
  intros Hargs Hld Hr. apply process_settle_deposit_receipt_Ok in Hr; [|done].
  destruct args as [er chk bal wd pay lr]. destruct Hr as (s & r & Hset & Hlr & -> & Hr).
  apply load_receipt_Ok in Hlr as (_ & Hrec & _ & Hrs & Hrr). exists s, r. split_and!; try done.
  destruct Hr as [[-> _]|(-> & Hp & (e & (m & Hm & ->) & He) & Hr' & _ & Hb & Hlen & Hev & Ht)]; [by left|right].
  assert (Hd : lamports (acct w' d) = lamports (acct w d) - (wd - DepositReceipt.withdrawn r)).
  { by rewrite (proj1 (Hb d)), acct_moved, decide_True by congruence. }
  split_and!; try done; [lia| |].
  - by rewrite (proj1 (Hb l)), acct_moved, decide_False, decide_True by congruence.
  - exists (lamports (acct w' d) - m). split; [exists m; by rewrite Hlen|lia].
Qed.

Lemma settle_receipt_pays_counter_witness :
  let w' := run DepositExample.settle DepositExample.w2 in
  w' = DepositExample.w2 ∨
  lamports (acct w' DepositExample.l1_recipient) = 300 ∧ total_lamports w' = total_lamports DepositExample.w2.
Proof.
  intros w'. destruct (run_Ok DepositExample.settle DepositExample.w2) as [[] Hr]; [vm_compute; reflexivity|].
  destruct (λ H1 H2, settle_receipt_pays_counter _ _ _ _ _ _ _ _ _ _ _ H1 H2 Hr)
    as (s & r & _ & _ & Hrec & _ & _ & [Hw|(_ & _ & Hl & _ & _ & _ & Ht)]).
  - concrete_wf.
  - apply (bool_decide_unpack _). vm_compute. reflexivity.
  - left. exact Hw.
  - right. split; [|exact Ht]. unfold w'. etransitivity; [exact Hl|].
    assert (Hr0 : receipt_at DepositExample.w2 DepositExample.receipt
      (new_receipt SessionExample.session DepositExample.recipient 255)) by (vm_compute; reflexivity).
    unfold receipt_at in Hrec, Hr0. rewrite Hr0 in Hrec. injection Hrec as <-. vm_compute. reflexivity.
Defined.

(** C8: along any sequence of deposits and receipt
    settlements, of this or other receipts, a receipt stays the receipt of its
    session and recipient, its withdrawal counter never decreases, lamports leave
    its escrow only against an increase of the counter, and an escrow that covers
    the recorded balance keeps covering it. *)
Theorem receipts_stay_solvent `{HostLaws} d w l w' r e :
  receipt_runs w l w' → Forall (receipt_op_safe d) l → ledger w d r e →
  ∃ r' e', ledger w' d r' e' ∧
    DepositReceipt.session r' = DepositReceipt.session r ∧ DepositReceipt.recipient r' = DepositReceipt.recipient r ∧
    DepositReceipt.withdrawn r ≤ DepositReceipt.withdrawn r' ∧
    e - e' ≤ DepositReceipt.withdrawn r' - DepositReceipt.withdrawn r ∧
    (DepositReceipt.balance r ≤ e → DepositReceipt.balance r' ≤ e').
Proof. apply receipt_runs_ledger. Qed.

Lemma receipts_stay_solvent_witness :
  ∃ w' r' e', receipt_runs DepositExample.w2 DepositExample.ops w' ∧ ledger w' DepositExample.receipt r' e' ∧
    DepositReceipt.balance r' ≤ e'.
Proof.
  assert (Hruns : receipt_runs DepositExample.w2 DepositExample.ops
    (run (exec_receipt DepositExample.cx (RDeposit [SessionExample.validator; SessionExample.session;
       DepositExample.receipt; DepositExample.recipient; system_id] 50)) DepositExample.w3)).
  { unfold DepositExample.ops, DepositExample.w3.
    repeat (eapply receipt_runs_cons;
      [match goal with |- exec_receipt ?cx ?i ?w = _ =>
         destruct (run_Ok (exec_receipt cx i) w) as [[] Hx]; [vm_compute; reflexivity|exact Hx] end|]).
    apply receipt_runs_nil. }
  assert (Hl : ledger DepositExample.w2 DepositExample.receipt
    (new_receipt SessionExample.session DepositExample.recipient 255) 1000).
  { split; [vm_compute; reflexivity|]. exists 1510320. split; vm_compute; reflexivity. }
  destruct (λ H1, receipts_stay_solvent _ _ _ _ _ _ Hruns H1 Hl) as (r' & e' & Hl' & _ & _ & _ & _ & Hb).
  - unfold DepositExample.ops. apply Forall_cons; [|apply Forall_cons; [|apply Forall_nil]].
    + split; [vm_compute; reflexivity|concrete_wf].
    + split; [vm_compute; reflexivity|]. split; [apply (bool_decide_unpack _); vm_compute; reflexivity|cbn; lia].
  - eexists _, r', e'. split; [exact Hruns|]. split; [exact Hl'|]. apply Hb. cbn. lia.
Defined.
