(* ===== verification/Ingress.v ===== *)
(** * V2 sessions and their ingress (portal/src/instructions/continuity.rs)

    With the feature [checkpoint-continuity-v2] a session carries the head of a
    hash chain over everything that enters the rollup from L1.  Every handler
    that lets something in appends one record.

    [ingress_history_recorded] shows that the chain of records kept in the record
    accounts stays valid and that its root is the one in the session;
    [open_session_v2_takes_next_nonce] that no two V2 sessions of a Portal share a nonce,
    hence an identity. *)

From Stdlib Require Import ZArith Lia.
From Stdlib Require Import Strings.Byte.
From stdpp Require Import base gmap list numbers.
From S2P Require Import Prelude Borsh Events Runtime State Commitments Frames Toy Pda Instruction SessionOps Delegation Settlement Deposits.

(** ** Handlers *)

Section handlers.
Context `{Host} (cx : Ctx).

Definition hash_parts : CommitmentHasher := hashv.

(** [frame.identity(program_id, session).commitment(hash_parts)] *)
Definition frame_context (frame : SessionV2.t) (session : Address) : prog Hash32 :=
  lift_err (λ _, into PortalError.InvalidAccountData)
    (SessionIdentityV2.commitment (SessionV2.identity frame (program_id cx) session) hash_parts).

Definition load_session_v2 (session : Address) : prog SessionV2.t :=
  x ← get_acct session;
  bail_if ((session != (find_session_pda (program_id cx)).1) || negb (owned_by x (program_id cx)))
    PortalError.SessionAccountOwnerMismatch ;;
  frame ← load session (into PortalError.SessionDeserializeFailed);
  bail_if (negb (SessionV2.is_valid frame)) PortalError.SessionStateInvalid ;;
  mret frame.

(** *** OpenSessionV2 *)

(** [let mut counter = if .. { .. } else { .. }] *)
Definition load_epoch (epoch : Address) (bump : Z) : prog SessionEpochV2.t :=
  x ← get_acct epoch;
  if is_data_empty x && owned_by x system_id then mret (SessionEpochV2.mk SessionEpochV2.DISCRIMINATOR 0 bump)
  else
    bail_if (negb (owned_by x (program_id cx))) PortalError.InvalidAccountData ;;
    value ← load epoch (into PortalError.InvalidAccountData);
    bail_if ((SessionEpochV2.discriminator value != SessionEpochV2.DISCRIMINATOR)
             || (SessionEpochV2.bump value != bump)) PortalError.InvalidAccountData ;;
    mret value.

Definition process_open_session_v2 (accounts : list Address) (args : OpenSessionV2.t) : prog unit :=
  err_if (length accounts <? 5)%nat NotEnoughAccountKeys ;;
  err_if ((OpenSessionV2.l1_genesis args == zero32) || (OpenSessionV2.profile args == zero32))
    InvalidInstructionData ;;
  let '(expected_epoch, bump) := find_session_epoch_v2_pda (program_id cx) in
  match accounts with
  | payer :: _ :: _ :: _ :: epoch :: _ =>
    bail_if (negb (is_signer cx payer) || (epoch != expected_epoch) || negb (is_writable cx epoch))
      PortalError.Unauthorized ;;
    x ← get_acct epoch;
    counter ← load_epoch epoch bump;
    last_nonce ← ok_or (checked_add 128 (SessionEpochV2.last_nonce counter) 1) (into PortalError.ArithmeticOverflow);
    let counter := SessionEpochV2.mk (SessionEpochV2.discriminator counter) last_nonce
                     (SessionEpochV2.bump counter) in
    (if is_data_empty x then
       rent ← lift_err id (try_minimum_balance (account_size counter));
       initialize_pda_account cx payer epoch rent (account_size counter) (program_id cx)
         [SessionEpochV2.SEED_PREFIX; le_bytes 1 bump]
     else mret tt) ;;
    process_open_session_initialized cx (take 4 accounts) (OpenSessionV2.session args)
      (Some {| v2_nonce := last_nonce; v2_l1_genesis := OpenSessionV2.l1_genesis args;
               v2_profile := OpenSessionV2.profile args |}) ;;
    store epoch counter (into PortalError.InvalidAccountData)
  | _ => fail Panicked
  end.

(** *** Appending a record *)

Definition with_ingress (count : Z) (root : Hash32) (f : SessionV2.t) : SessionV2.t :=
  SessionV2.mk (SessionV2.discriminator f) (SessionV2.base f) (SessionV2.l1_genesis f) (SessionV2.profile f)
    count root (SessionV2.consumed_ingress_count f) (SessionV2.consumed_ingress_root f).

Definition append_ingress_v2 (payer session record_account : Address) (payload : IngressPayloadV2.t) : prog unit :=
  frame ← load_session_v2 session;
  bail_if (Session.is_expired (SessionV2.base frame) (slot (clock cx))) PortalError.SessionExpired ;;
  context ← frame_context frame session;
  sequence ← ok_or (u64_checked_add (SessionV2.ingress_count frame) 1) (into PortalError.ArithmeticOverflow);
  let '(expected, bump) := find_ingress_record_v2_pda (program_id cx) context sequence in
  bail_if ((record_account != expected) || negb (is_writable cx session) || negb (is_writable cx record_account))
    PortalError.InvalidPdaSeeds ;;
  record ← lift_err (λ _, into PortalError.InvalidAccountData)
    (IngressRecordV2.new context sequence (slot (clock cx)) (SessionV2.ingress_root frame) payload bump hash_parts);
  let size := account_size record in
  rent ← lift_err id (try_minimum_balance size);
  initialize_pda_account cx payer record_account rent size (program_id cx)
    [INGRESS_RECORD_SEED_V2; context; le_bytes 8 sequence; le_bytes 1 bump] ;;
  store record_account record (into PortalError.InvalidAccountData) ;;
  store session (with_ingress sequence (IngressRecordV2.root record) frame) (into PortalError.InvalidAccountData).

(** *** DelegateV2 *)

Definition process_delegate_v2 (accounts : list Address) (grid_id : Z) : prog unit :=
  match accounts with
  | [payer; system_program; session; account; owner_program; record; buffer; ingress] =>
    frame ← load_session_v2 session;
    ox ← get_acct owner_program;
    ax ← get_acct account;
    bail_if ((Session.grid_id (SessionV2.base frame) != grid_id) || negb (executable ox) || executable ax)
      PortalError.Unauthorized ;;
    bail_if (Session.settlement_status (SessionV2.base frame) != SettlementStatus.Idle)
      PortalError.SettlementInProgress ;;
    process_delegate_account cx payer account owner_program record buffer (SessionV2.base frame) ;;
    ax ← get_acct account;
    bail_if (umax 32 <? Z.of_nat (length (data ax))) PortalError.InvalidAccountData ;;
    append_ingress_v2 payer session ingress
      (IngressPayloadV2.Delegation account record owner_program (lamports ax) (Z.of_nat (length (data ax)))
         (hash_parts [data ax]) false 0)
  | _ => fail NotEnoughAccountKeys
  end.

(** *** DepositFeeV2 *)

Definition with_total_deposited (n : Z) (r : DepositReceiptV2.t) : DepositReceiptV2.t :=
  DepositReceiptV2.mk (DepositReceiptV2.discriminator r) (DepositReceiptV2.base r)
    (DepositReceiptV2.session_context r) n.

(** [let mut state = if fresh { .. } else { .. }] *)
Definition receipt_v2_state (session receipt recipient : Address) (context : Hash32) (bump : Z) (fresh : bool) :
    prog DepositReceiptV2.t :=
  if fresh then
    mret (DepositReceiptV2.mk DepositReceiptV2.DISCRIMINATOR (new_receipt session recipient bump) context 0)
  else
    dx ← get_acct receipt;
    bail_if (negb (owned_by dx (program_id cx))) PortalError.InvalidAccountData ;;
    state ← load receipt (into PortalError.DepositReceiptDeserializeFailed);
    let base := DepositReceiptV2.base state in
    bail_if ((DepositReceiptV2.discriminator state != DepositReceiptV2.DISCRIMINATOR)
             || negb (DepositReceipt.is_valid base)
             || (DepositReceiptV2.session_context state != context)
             || (DepositReceipt.session base != session) || (DepositReceipt.recipient base != recipient)
             || (DepositReceipt.bump base != bump)) PortalError.DepositReceiptStateInvalid ;;
    mret state.

Definition process_deposit_fee_v2 (accounts : list Address) (n : Z) : prog unit :=
  match accounts with
  | [depositor; session; receipt; recipient; _system_program; ingress] =>
    bail_if (negb (is_signer cx depositor)) PortalError.Unauthorized ;;
    rx ← get_acct recipient;
    err_if ((n =? 0) || (recipient == WITHDRAWAL_SINK) || negb (owned_by rx system_id)
            || negb (is_data_empty rx) || executable rx) InvalidInstructionData ;;
    frame ← load_session_v2 session;
    context ← frame_context frame session;
    let '(expected, bump) := find_deposit_receipt_v2_pda (program_id cx) context recipient in
    bail_if (receipt != expected) PortalError.InvalidPdaSeeds ;;
    dx ← get_acct receipt;
    let fresh := is_data_empty dx && owned_by dx system_id in
    state ← receipt_v2_state session receipt recipient context bump fresh;
    total_deposited ← ok_or (u64_checked_add (DepositReceiptV2.total_deposited state) n)
                        (into PortalError.ArithmeticOverflow);
    let state := with_total_deposited total_deposited state in
    (if fresh then
       rent ← lift_err id (try_minimum_balance (account_size state));
       initialize_pda_account cx depositor receipt rent (account_size state) (program_id cx)
         [DepositReceiptV2.SEED_PREFIX; context; recipient; le_bytes 1 bump]
     else mret tt) ;;
    Transfer cx depositor receipt n ;;
    store receipt state (into PortalError.InvalidAccountData) ;;
    append_ingress_v2 depositor session ingress
      (IngressPayloadV2.SolDeposit recipient receipt n total_deposited)
  | _ => fail NotEnoughAccountKeys
  end.
End handlers.

(** ** The log *)

Section log.
Context `{HostLaws} (cx : Ctx).

#[global] Instance frame_context_read_only f s : ReadOnly (frame_context cx f s).
Proof. unfold frame_context. apply _. Qed.
#[global] Instance load_session_v2_read_only s : ReadOnly (load_session_v2 cx s).
Proof. unfold load_session_v2. apply _. Qed.

(** The session account holds the frame [f], whose identity has the commitment
    [ctx]. *)
Definition frame_held (w : World) (session : Address) (f : SessionV2.t) (ctx : Hash32) : Prop :=
  try_from_slice (data (acct w session)) = Some f ∧
  SessionIdentityV2.commitment (SessionV2.identity f (program_id cx) session) hashv = Ok ctx.

(** The account of the record with sequence number [i + 1]. *)
Definition record_address (ctx : Hash32) (i : nat) : Address :=
  (find_ingress_record_v2_pda (program_id cx) ctx (Z.of_nat i + 1)).1.

(** [l] is what has entered: the record accounts hold it, it is a valid chain,
    and the session holds its length and its root. *)
Definition ingress_log (w : World) (session : Address) (f : SessionV2.t) (ctx : Hash32)
    (l : list IngressRecordV2.t) : Prop :=
  frame_held w session f ctx ∧ SessionV2.ingress_count f = Z.of_nat (length l) ∧
  SessionV2.ingress_root f = chain_root zero32 l ∧ valid_chain ctx 0 zero32 l = true ∧
  ∀ i x, l !! i = Some x → try_from_slice (data (acct w (record_address ctx i))) = Some x.

Lemma load_session_v2_Ok session w f w' :
  load_session_v2 cx session w = Ok (f, w') →
  session = (find_session_pda (program_id cx)).1 ∧ owner (acct w session) = program_id cx ∧
  try_from_slice (data (acct w session)) = Some f ∧ SessionV2.is_valid f = true.
Proof.
  unfold load_session_v2, owned_by. intros Hr. minv.
  match goal with X : load _ _ _ = Ok _ |- _ => apply load_Ok in X as [X _] end. by bprop.
Qed.

Lemma commitment_key {A} (c : codec A) label (v : A) r : commitment c label v hashv = Ok r → is_key r.
Proof. intros (_ & _ & ->)%commitment_Ok. unfold is_key. rewrite mask_root_length. apply sha256_length. Qed.

Lemma identity_key x r : SessionIdentityV2.commitment x hashv = Ok r → is_key r.
Proof. unfold SessionIdentityV2.commitment. repeat case_match; try done. apply commitment_key. Qed.

(** A new record is the next one of the chain it was made for. *)
Lemma new_record_next ctx seq sl prev payload bump x consumed :
  IngressRecordV2.new ctx seq sl prev payload bump hashv = Ok x → u64_checked_add consumed 1 = Some seq →
  is_ok (IngressRecordV2.validate_next x ctx consumed prev hashv) = true ∧
  x = IngressRecordV2.mk INGRESS_RECORD_DISCRIMINATOR_V2 CHECKPOINT_FORMAT_VERSION_V2 ctx seq sl prev payload
        (IngressRecordV2.root x) bump ∧ is_key (IngressRecordV2.root x).
Proof.
  unfold IngressRecordV2.new. intros Hn Hs.
  destruct (IngressPayloadV2.validate payload) as [[]|] eqn:Hv; [|done]. case_match; [done|].
  destruct (IngressRecordV2.computed_root _ _) as [r|] eqn:Hr; [|done]. injection Hn as <-.
  split_and!; [|done|by eapply commitment_key].
  unfold IngressRecordV2.validate_next.
  cbn [IngressRecordV2.discriminator IngressRecordV2.version IngressRecordV2.session_context
    IngressRecordV2.sequence IngressRecordV2.payload IngressRecordV2.previous_root IngressRecordV2.root].
  rewrite !bool_decide_eq_true_2, Hv by done. cbn [negb orb].
  change (IngressRecordV2.computed_root _ hashv) with (IngressRecordV2.computed_root
    (IngressRecordV2.mk INGRESS_RECORD_DISCRIMINATOR_V2 CHECKPOINT_FORMAT_VERSION_V2 ctx seq sl prev payload zero32 bump)
    hashv).
  rewrite Hr. by rewrite bool_decide_eq_true_2.
Qed.

Lemma valid_chain_app_snoc ctx consumed prev l x :
  valid_chain ctx consumed prev l = true →
  is_ok (IngressRecordV2.validate_next x ctx (consumed + Z.of_nat (length l)) (chain_root prev l) hashv) = true →
  valid_chain ctx consumed prev (l ++ [x]) = true.
Proof.
  revert consumed prev. induction l as [|y l IH]; intros consumed prev; cbn [app valid_chain].
  - rewrite Z.add_0_r. intros _ Hv. cbn in Hv. unfold chain_root in Hv. cbn in Hv. by rewrite Hv.
  - intros Hv Hx. bprop. apply andb_true_iff. split; [done|]. apply IH; [done|].
    replace (chain_root prev (y :: l)) with (chain_root (IngressRecordV2.root y) l) in Hx
      by (unfold chain_root; rewrite last_cons; by destruct (list.last l)).
    rewrite <- Hx. f_equal. f_equal. cbn [length]. lia.
Qed.

Lemma with_ingress_wf n r f : wf borsh f → is_u64 n → is_key r → wf borsh (with_ingress n r f).
Proof. intros (?&?&?&?&?&?&?&?) ??. wf_fields. Qed.

Lemma record_wf ctx seq sl prev payload root bump :
  is_key ctx → is_u64 seq → is_u64 sl → is_key prev → wf borsh payload → is_key root → is_u8 bump →
  wf borsh (IngressRecordV2.mk INGRESS_RECORD_DISCRIMINATOR_V2 CHECKPOINT_FORMAT_VERSION_V2 ctx seq sl prev payload
              root bump).
Proof.
  intros. assert (length INGRESS_RECORD_DISCRIMINATOR_V2 = 8%nat) by done.
  assert (in_width 8 CHECKPOINT_FORMAT_VERSION_V2) by (unfold in_width, umax, CHECKPOINT_FORMAT_VERSION_V2; lia). wf_fields.
Qed.

(** One record is appended: its account held nothing, now holds the record; the
    session counts it; only the payer's lamports change besides. *)
Lemma append_ingress_v2_Ok payer session ra payload w u w' :
  payer ≠ ra → is_u64 (slot (clock cx)) → wf borsh payload →
  append_ingress_v2 cx payer session ra payload w = Ok (u, w') →
  ∃ f ctx x, frame_held w session f ctx ∧ SessionV2.is_valid f = true ∧
    Session.is_expired (SessionV2.base f) (slot (clock cx)) = false ∧
    ra = record_address ctx (Z.to_nat (SessionV2.ingress_count f)) ∧ data (acct w ra) = [] ∧ wf borsh x ∧
    IngressRecordV2.payload x = payload ∧ IngressRecordV2.l1_slot x = slot (clock cx) ∧
    is_ok (IngressRecordV2.validate_next x ctx (SessionV2.ingress_count f) (SessionV2.ingress_root f) hashv) = true ∧
    try_from_slice (data (acct w' ra)) = Some x ∧ owner (acct w' ra) = program_id cx ∧
    try_from_slice (data (acct w' session)) =
      Some (with_ingress (SessionV2.ingress_count f + 1) (IngressRecordV2.root x) f) ∧
    (∀ b, b ≠ session → b ≠ ra → data (acct w' b) = data (acct w b) ∧ owner (acct w' b) = owner (acct w b) ∧
          (b ≠ payer → acct w' b = acct w b)) ∧
    total_lamports w' = total_lamports w.
Proof.
  intros Hne Hsl Hpl Hr.
  assert (Htot : total_lamports w' = total_lamports w).
  { revert Hr. apply conserves. }
  unfold append_ingress_v2 in Hr. mstep Hr as f w1 Hf. apply load_session_v2_Ok in Hf as (_ & _ & Hf & Hval).
  mstep Hr as [] w1 Hexp. mstep Hr as ctx w1 Hctx. unfold frame_context in Hctx. apply lift_err_Ok in Hctx as [Hctx _].
  mstep Hr as seq w1 Hseq.
  pose proof (find_bump_range [INGRESS_RECORD_SEED_V2; ctx; le_bytes 8 seq] (program_id cx)) as Hbump.
  assert (Hra : (find_ingress_record_v2_pda (program_id cx) ctx seq).1 =
    record_address ctx (Z.to_nat (SessionV2.ingress_count f))).
  { apply try_from_slice_Some in Hf as [(_&_&_&_&[Hc _]&_) _]. cbn in Hc. unfold record_address.
    bprop. by rewrite Z2Nat.id. }
  unfold find_ingress_record_v2_pda in Hr, Hra.
  destruct (find_program_address [INGRESS_RECORD_SEED_V2; ctx; le_bytes 8 seq] (program_id cx)) as [rk bump].
  cbn [fst snd] in *. mstep Hr as [] w1 Hk. mstep Hr as x w1 Hx. mstep Hr as rent w1 Hrent.
  mstep Hr as [] w1 Hi. mstep Hr as [] w2 Hst.
  destruct (new_record_next _ _ _ _ _ _ _ _ Hx Hseq) as (Hnext & Hxe & Hxr).
  assert (Hfw : wf borsh f) by (by apply try_from_slice_Some in Hf as [? _]).
  assert (Hwx : wf borsh x).
  { rewrite Hxe. destruct Hfw as (_&_&_&_&[Hc _]&?&_). cbn in Hc. bprop.
    apply record_wf; try done; [by eapply identity_key|by split; lia]. }
  bprop. apply initialize_created in Hi as (Hi & Hp & Hff & He & _ & _); [|done].
  apply store_exact_Ok in Hst as ->; [|rewrite Hi; apply length_zeros].
  assert (Hsr : session ≠ ra). { intros ->. rewrite He in Hf. by vm_compute in Hf. }
  assert (Hd1 : ∀ b, b ≠ ra → data (acct w1 b) = data (acct w b) ∧ owner (acct w1 b) = owner (acct w b)).
  { intros b Hb. destruct (decide (b = payer)) as [->|]; [by rewrite Hp|by rewrite Hff]. }
  apply (store_loaded_Ok (n:=378) _ f) in Hr as ->;
    [|rewrite acct_put_ne by done; by rewrite (proj1 (Hd1 _ Hsr))|apply with_ingress_wf; try done; destruct Hfw as (_&_&_&_&[Hc _]&_); cbn in Hc; by split; lia].
  exists f, ctx, x. split; [by split|]. split_and!; try done.
  - by rewrite Hxe.
  - by rewrite Hxe.
  - rewrite acct_put_ne, acct_put_eq by done. cbn [data with_data]. by apply try_from_slice_enc.
  - rewrite acct_put_ne, acct_put_eq by done. cbn [owner with_data]. by rewrite Hi.
  - rewrite acct_put_eq. cbn [data with_data]. apply try_from_slice_enc, with_ingress_wf; try done.
    destruct Hfw as (_&_&_&_&[Hc _]&_). cbn in Hc. split; lia.
  - intros b ??. rewrite !acct_put_ne by done. destruct (Hd1 b); [done|]. split_and!; try done. intros. by apply Hff.
Qed.

(** Accounts of records and the session are told apart by their first bytes. *)
Lemma record_head x : wf borsh x → take 8 (enc borsh x) = IngressRecordV2.discriminator x.
Proof.
  intros [Hd _]. unfold borsh, IngressRecordV2.codec. cbn [enc struct pair_c IngressRecordV2.to_tuple fst snd bytes].
  rewrite take_app_le by (cbn in Hd; lia). apply take_ge. cbn in Hd. lia.
Qed.
Lemma frame_head f : wf borsh f → take 8 (enc borsh f) = SessionV2.discriminator f.
Proof.
  intros [Hd _]. unfold borsh, SessionV2.codec. cbn [enc struct pair_c SessionV2.to_tuple fst snd bytes].
  rewrite take_app_le by (cbn in Hd; lia). apply take_ge. cbn in Hd. lia.
Qed.

Lemma valid_chain_discriminator ctx consumed prev l i x :
  valid_chain ctx consumed prev l = true → l !! i = Some x →
  IngressRecordV2.discriminator x = INGRESS_RECORD_DISCRIMINATOR_V2.
Proof.
  revert consumed prev i. induction l as [|y l IH]; intros consumed prev i Hv Hi; [done|].
  cbn [valid_chain] in Hv. bprop. destruct i as [|i]; [|by eapply IH]. injection Hi as ->.
  match goal with X : is_ok _ = true |- _ => revert X end.
  unfold IngressRecordV2.validate_next. case_match eqn:Hc; [done|]. intros _. by bprop.
Qed.

(** Appending extends the log by one record with the payload. *)
Lemma append_ingress_log payer session ra payload w u w' f ctx l :
  payer ≠ ra → is_u64 (slot (clock cx)) → wf borsh payload → ingress_log w session f ctx l →
  append_ingress_v2 cx payer session ra payload w = Ok (u, w') →
  ∃ x, ingress_log w' session (with_ingress (SessionV2.ingress_count f + 1) (IngressRecordV2.root x) f) ctx (l ++ [x]) ∧
    ra = record_address ctx (length l) ∧ IngressRecordV2.payload x = payload ∧
    IngressRecordV2.l1_slot x = slot (clock cx).
Proof.
  intros Hne Hsl Hpl ([Hf Hctx] & Hlen & Hroot & Hch & Hrec) Hr.
  apply append_ingress_v2_Ok in Hr
    as (f2 & ctx2 & x & [Hf2 Hctx2] & Hval & _ & Hra & He & _ & Hxp & Hxs & Hnext & Hx & _ & Hf' & Hfr & _); [|done..].
  assert (f2 = f) as -> by congruence. assert (ctx2 = ctx) as -> by congruence.
  rewrite Hlen, Nat2Z.id in Hra. rewrite Hlen, Hroot in Hnext.
  exists x. split_and!; try done. split; [by split|]. split_and!.
  - cbn. rewrite Hlen, length_app. cbn. lia.
  - by rewrite chain_root_snoc.
  - apply valid_chain_app_snoc; [done|]. by rewrite Z.add_0_l.
  - intros i y Hi. apply lookup_snoc_Some in Hi as [[_ Hi]|[-> <-]]; [|by rewrite <- Hra].
    specialize (Hrec _ _ Hi).
    assert (record_address ctx i ≠ ra).
    { intros Ha. rewrite Ha, He in Hrec. apply try_from_slice_Some in Hrec as [Hw Hrec].
      apply record_head in Hw. rewrite <- Hrec in Hw. by rewrite (valid_chain_discriminator _ _ _ _ _ _ Hch Hi) in Hw. }
    assert (record_address ctx i ≠ session).
    { intros Ha. rewrite Ha in Hrec. apply try_from_slice_Some in Hrec as [Hw Hrec], Hf as [Hw2 Hf].
      apply record_head in Hw. apply frame_head in Hw2. rewrite <- Hf in Hw2. rewrite <- Hrec in Hw.
      rewrite Hw, (valid_chain_discriminator _ _ _ _ _ _ Hch Hi) in Hw2.
      unfold SessionV2.is_valid in Hval. bprop.
      match goal with X : SessionV2.discriminator f = _ |- _ => by rewrite X in Hw2 end. }
    rewrite (proj1 (Hfr _ ltac:(done) ltac:(done))). done.
Qed.

(** *** What comes before the append *)

Definition log_account (session : Address) (ctx : Hash32) (l : list IngressRecordV2.t) (a : Address) : Prop :=
  a = session ∨ ∃ i, (i < length l)%nat ∧ a = record_address ctx i.

Lemma ingress_log_data w w' session f ctx l :
  ingress_log w session f ctx l →
  (∀ a, log_account session ctx l a → data (acct w' a) = data (acct w a)) → ingress_log w' session f ctx l.
Proof.
  intros ([Hf Hctx] & Hlen & Hroot & Hch & Hrec) Hd. split_and!; try done.
  - split; [|done]. rewrite Hd; [done|by left].
  - intros i x Hi. rewrite Hd; [by apply Hrec|]. right. exists i. split; [by eapply lookup_lt_Some|done].
Qed.

Lemma log_account_head w session f ctx l a :
  ingress_log w session f ctx l → SessionV2.is_valid f = true → log_account session ctx l a →
  take 8 (data (acct w a)) = SessionV2.DISCRIMINATOR ∨ take 8 (data (acct w a)) = INGRESS_RECORD_DISCRIMINATOR_V2.
Proof.
  intros ([Hf _] & _ & _ & Hch & Hrec) Hv [->|(i & Hi & ->)].
  - left. apply try_from_slice_Some in Hf as [Hw ->]. rewrite frame_head by done.
    unfold SessionV2.is_valid in Hv. by bprop.
  - right. destruct (lookup_lt_is_Some_2 l i Hi) as [x Hx]. pose proof (Hrec _ _ Hx) as Hr.
    apply try_from_slice_Some in Hr as [Hw ->]. rewrite record_head by done. by eapply valid_chain_discriminator.
Qed.

Lemma empty_not_log w session f ctx l a :
  ingress_log w session f ctx l → SessionV2.is_valid f = true → data (acct w a) = [] → ¬ log_account session ctx l a.
Proof. intros Hl Hv He Ha. destruct (log_account_head _ _ _ _ _ _ Hl Hv Ha) as [Hh|Hh]; by rewrite He in Hh. Qed.

(** *** DelegateV2 *)

Lemma process_delegate_v2_log payer sys session account o record buffer ingress g w u w' f ctx l :
  NoDup [payer; account; record] → payer ≠ ingress → record ≠ buffer → buffer ≠ payer →
  Forall is_key [account; record; o] → is_u64 g → is_u64 (slot (clock cx)) → wf_world w →
  (∀ a, log_account session ctx l a → is_signer cx a = false) →
  ingress_log w session f ctx l →
  process_delegate_v2 cx [payer; sys; session; account; o; record; buffer; ingress] g w = Ok (u, w') →
  ∃ x, ingress_log w' session (with_ingress (SessionV2.ingress_count f + 1) (IngressRecordV2.root x) f) ctx (l ++ [x]) ∧
    IngressRecordV2.payload x = IngressPayloadV2.Delegation account record o (lamports (acct w account))
      (Z.of_nat (length (data (acct w buffer)))) (hashv [data (acct w buffer)]) false 0 ∧
    wf borsh (IngressRecordV2.payload x) ∧
    ∃ w1, (∀ b, b ∉ [payer; account; record] → acct w1 b = acct w b) ∧ length (data (acct w1 record)) = 49%nat ∧
      is_signer cx payer = true ∧ is_signer cx account = true ∧
      append_ingress_v2 cx payer session ingress (IngressRecordV2.payload x) w1 = Ok (u, w').
Proof.
  intros Hnd Hpi Hrb Hbp Hk Hg Hsl Hwf Hns Hl Hr. unfold process_delegate_v2 in Hr.
  mstep Hr as f2 w1 Hf. apply load_session_v2_Ok in Hf as (_ & _ & Hf & Hv).
  assert (f2 = f) as -> by (destruct Hl as [[Hf2 _] _]; congruence).
  mstep Hr as ox w1 Hox. mstep Hr as ax w1 Hax. mstep Hr as [] w1 Hc. mstep Hr as [] w1 Hst. mstep Hr as [] w1 Hd.
  bprop. subst g. rewrite !list.Forall_cons in Hk. destruct Hk as (Hka & Hkr & Hko & _).
  apply process_delegate_account_Ok in Hd as (Hsp & Hsa & _ & _ & He & _ & _ & Hrd & _ & Hdata & Hfr); [|done..].
  specialize (Hdata Hbp).
  assert (Hrl : length (data (acct w1 record)) = 49%nat).
  { apply try_from_slice_Some in Hrd as [Hrw ->]. by apply codec_size. }
  assert (Hl1 : ingress_log w1 session f ctx l).
  { eapply ingress_log_data; [done|]. intros a Ha. rewrite Hfr; [done|]. pose proof (Hns _ Ha).
    rewrite !not_elem_of_cons. split_and!; [congruence| | |apply not_elem_of_nil].
    - intros ->. congruence.
    - intros ->. by eapply empty_not_log in Hl. }
  mstep Hr as bx w2 Hbx. mstep Hr as [] w2 Hbig. bprop.
  rewrite Hdata in *. cbn [data lamports with_data] in *.
  assert (Hwp : wf borsh (IngressPayloadV2.Delegation account record o (lamports (acct w account))
    (Z.of_nat (length (data (acct w buffer)))) (hash_parts [data (acct w buffer)]) false 0)).
  { pose proof (Hwf account). assert (is_u64 0) by (unfold in_width, umax; lia).
    assert (in_width 32 (Z.of_nat (length (data (acct w buffer))))) by (unfold in_width; lia).
    assert (is_key (hash_parts [data (acct w buffer)])) by apply sha_key. wf_fields. }
  pose proof Hr as Hap. eapply append_ingress_log in Hr as (x & Hl' & _ & Hx & _); [|done..].
  exists x. rewrite Hx. split_and!; try done. exists w1. by split_and!.
Qed.


(** *** DepositFeeV2 *)

(** The receipt is created when it is fresh, receives the lamports and the state. *)
Lemma receipt_v2_written fresh depositor receipt seeds (state : DepositReceiptV2.t) n w w1 w2 w' e :
  depositor ≠ receipt → wf borsh state →
  (if fresh : bool then data (acct w receipt) = []
   else ∃ r : DepositReceiptV2.t, try_from_slice (data (acct w receipt)) = Some r) →
  (if fresh then
     rent ← lift_err id (try_minimum_balance (account_size state));
     initialize_pda_account cx depositor receipt rent (account_size state) (program_id cx) seeds
   else mret tt) w = Ok (tt, w1) →
  Transfer cx depositor receipt n w1 = Ok (tt, w2) → store receipt state e w2 = Ok (tt, w') →
  try_from_slice (data (acct w' receipt)) = Some state ∧
  lamports (acct w receipt) + n ≤ lamports (acct w' receipt) ∧
  (∀ b, b ≠ receipt → data (acct w' b) = data (acct w b)).
Proof.
  intros Hne Hwf Hst H1 H2 Hr. apply Transfer_Ok in H2 as (Hmv & _ & _).
  assert (H1' : (length (data (acct w1 receipt)) = 137%nat ∧ lamports (acct w receipt) ≤ lamports (acct w1 receipt) ∧
    ∀ b, b ≠ receipt → data (acct w1 b) = data (acct w b))).
  { destruct fresh.
    - mstep H1 as rent w3 H3. apply initialize_created in H1 as (Hi & Hp & Hf & _); [|done]. split_and!.
      + rewrite Hi. cbn [data]. rewrite length_zeros. by apply codec_size.
      + rewrite Hi. cbn. lia.
      + intros b Hb. destruct (decide (b = depositor)) as [->|]; [by rewrite Hp|by rewrite Hf].
    - minv. destruct Hst as [r Hst]. apply try_from_slice_Some in Hst as [Hw ->]. rewrite codec_size by done.
      split_and!; done. }
  destruct H1' as (Hlen & Hlam & Hd). pose proof (moved_fields depositor receipt n w1) as Hmf.
  assert (Hd2 : data (acct w2 receipt) = data (acct w1 receipt)) by (rewrite Hmv; apply Hmf).
  apply store_exact_Ok in Hr as ->; [|rewrite Hd2, Hlen; symmetry; by apply codec_size].
  split_and!.
  - rewrite acct_put_eq. cbn [data with_data]. by apply try_from_slice_enc.
  - rewrite acct_put_eq, Hmv, acct_moved, decide_False, decide_True by congruence. cbn. lia.
  - intros b Hb. rewrite acct_put_ne, Hmv by done. rewrite (proj1 (Hmf b)). by apply Hd.
Qed.

Lemma receipt_v2_head r : wf borsh r → take 8 (enc borsh r) = DepositReceiptV2.discriminator r.
Proof.
  intros [Hd _]. unfold borsh, DepositReceiptV2.codec. cbn [enc struct pair_c DepositReceiptV2.to_tuple fst snd bytes].
  rewrite take_app_le by (cbn in Hd; lia). apply take_ge. cbn in Hd. lia.
Qed.

(** What the receipt recorded as deposited: nothing when it does not exist. *)
Definition deposited (w : World) (receipt : Address) : Z :=
  match try_from_slice (data (acct w receipt)) with
  | Some r => DepositReceiptV2.total_deposited r
  | None => 0
  end.

Lemma new_receipt_v2_wf session recipient bump ctx :
  is_key session → is_key recipient → is_u8 bump → is_key ctx →
  wf borsh (DepositReceiptV2.mk DepositReceiptV2.DISCRIMINATOR (new_receipt session recipient bump) ctx 0).
Proof.
  intros. assert (is_u64 0) by (unfold in_width, umax; lia).
  assert (length DepositReceipt.DISCRIMINATOR = 8%nat) by done.
  assert (length DepositReceiptV2.DISCRIMINATOR = 8%nat) by done.
  assert (wf borsh (new_receipt session recipient bump)) by wf_fields. wf_fields.
Qed.

Lemma with_total_deposited_wf n r : wf borsh r → is_u64 n → wf borsh (with_total_deposited n r).
Proof. intros (?&?&?&?) ?. wf_fields. Qed.

#[global] Instance receipt_v2_state_read_only s r rc c b fr : ReadOnly (receipt_v2_state cx s r rc c b fr).
Proof. unfold receipt_v2_state. apply _. Qed.

Lemma receipt_v2_state_Ok session receipt recipient ctx bump (fresh : bool) w st w' f l :
  ingress_log w session f ctx l → SessionV2.is_valid f = true →
  is_key session → is_key recipient → is_u8 bump → is_key ctx → (fresh = true → data (acct w receipt) = []) →
  receipt_v2_state cx session receipt recipient ctx bump fresh w = Ok (st, w') →
  wf borsh st ∧ DepositReceiptV2.total_deposited st = deposited w receipt ∧ ¬ log_account session ctx l receipt ∧
  if fresh then data (acct w receipt) = []
  else ∃ r : DepositReceiptV2.t, try_from_slice (data (acct w receipt)) = Some r.
Proof.
  intros Hl Hv ???? Hem Hst. unfold receipt_v2_state, deposited in *. destruct fresh.
  - apply ret_Ok in Hst as [<- _]. specialize (Hem eq_refl).
    split_and!; [by apply new_receipt_v2_wf|by rewrite Hem|by eapply empty_not_log|done].
  - mstep Hst as dx wa Hdx. mstep Hst as [] wa Ho. mstep Hst as r wa Hld. mstep Hst as [] wa Hb.
    apply ret_Ok in Hst as [-> _].
    apply load_Ok in Hld as [Hld _]. pose proof (proj1 (try_from_slice_Some _ _) Hld) as [Hw Hen]. rewrite Hld.
    split_and!; [done..| |by eauto]. bprop.
    intros Ha. destruct (log_account_head _ _ _ _ _ _ Hl Hv Ha) as [Hh|Hh]; rewrite Hen, receipt_v2_head in Hh by done;
      match goal with X : DepositReceiptV2.discriminator st = _ |- _ => by rewrite X in Hh end.
Qed.

Lemma process_deposit_fee_v2_log depositor session receipt recipient sys ingress n w u w' f ctx l :
  depositor ≠ receipt → depositor ≠ ingress → Forall is_key [session; recipient; receipt] →
  is_u64 n → is_u64 (slot (clock cx)) → ingress_log w session f ctx l →
  process_deposit_fee_v2 cx [depositor; session; receipt; recipient; sys; ingress] n w = Ok (u, w') →
  ∃ x, ingress_log w' session (with_ingress (SessionV2.ingress_count f + 1) (IngressRecordV2.root x) f) ctx (l ++ [x]) ∧
    is_signer cx depositor = true ∧ 0 < n ∧
    deposited w' receipt = deposited w receipt + n ∧
    IngressRecordV2.payload x = IngressPayloadV2.SolDeposit recipient receipt n (deposited w' receipt) ∧
    lamports (acct w receipt) + n ≤ lamports (acct w' receipt) ∧
    receipt = (find_deposit_receipt_v2_pda (program_id cx) ctx recipient).1 ∧
    wf borsh (IngressRecordV2.payload x) ∧
    ∃ w1, (∀ b, b ≠ receipt → data (acct w1 b) = data (acct w b)) ∧ length (data (acct w1 receipt)) = 137%nat ∧
      append_ingress_v2 cx depositor session ingress (IngressRecordV2.payload x) w1 = Ok (u, w').
Proof.
  intros Hdr Hdi Hk Hn Hsl Hl Hr. rewrite !list.Forall_cons in Hk. destruct Hk as (Hks & Hkr & Hkd & _).
  unfold process_deposit_fee_v2 in Hr. mstep Hr as [] w1 Hsig. mstep Hr as rx w1 Hrx. mstep Hr as [] w1 Hc.
  mstep Hr as f2 w1 Hf. apply load_session_v2_Ok in Hf as (_ & _ & Hf & Hv).
  pose proof Hl as [[Hf2 Hctx2] _]. assert (f2 = f) as -> by congruence.
  mstep Hr as ctx1 w1 Hctx. unfold frame_context in Hctx. apply lift_err_Ok in Hctx as [Hctx _].
  assert (ctx1 = ctx) as -> by (unfold hash_parts in Hctx; congruence).
  pose proof (find_bump_range [DepositReceiptV2.SEED_PREFIX; ctx; recipient] (program_id cx)) as Hbump.
  unfold find_deposit_receipt_v2_pda in *. destruct (find_program_address _ _) as [rk bump]. cbn [fst snd] in *.
  mstep Hr as [] w1 Hrk. mstep Hr as dx w1 Hdx.
  set (fresh := is_data_empty (acct w receipt) && owned_by (acct w receipt) system_id) in *.
  mstep Hr as st w1 Hst. mstep Hr as tot w1 Htot.
  eapply receipt_v2_state_Ok in Hst as (Hwst & Htd & Hnl & Hcase);
    [|done|exact Hv|done|done|done|by eapply identity_key|intros Hfr; subst fresh; unfold is_data_empty in Hfr; by bprop].
  cbv zeta in Hr. mstep Hr as [] w1 H1. mstep Hr as [] w2 H2. mstep Hr as [] w3 H3.
  assert (Htu : is_u64 tot ∧ tot = deposited w receipt + n).
  { apply checked_add_Some in Htot as [-> Htot]. destruct Hwst as (_&_&_&[? _]). cbn in *. unfold in_width in *. lia. }
  destruct Htu as [Htu Hte].
  eapply receipt_v2_written in H3 as (H3 & Hlam & Hdata); [|done|by apply with_total_deposited_wf|exact Hcase|exact H1|exact H2].
  assert (Hl3 : ingress_log w3 session f ctx l).
  { eapply ingress_log_data; [done|]. intros a Ha. apply Hdata. by intros ->. }
  assert (Hwp : wf borsh (IngressPayloadV2.SolDeposit recipient receipt n tot)) by wf_fields.
  assert (Hrl : length (data (acct w3 receipt)) = 137%nat).
  { apply try_from_slice_Some in H3 as [Hrw ->]. by apply codec_size. }
  pose proof Hr as Hap. pose proof Hr as Hr2. apply append_ingress_v2_Ok in Hr2 as (_&_&_&_&_&_&_& Hempty &_&_&_&_&_&_&_& Hfr &_); [|done..].
  eapply append_ingress_log in Hr as (x & Hl' & _ & Hx & _); [|done..].
  assert (Hrec : acct w' receipt = acct w3 receipt).
  { apply Hfr; [intros ->; apply Hnl; by left| |done].
    intros ->. rewrite Hempty in H3. apply try_from_slice_Some in H3 as [Hw3 H3]. apply (f_equal length) in H3.
    by rewrite codec_size in H3. }
  exists x.
  assert (Hdep : deposited w' receipt = tot) by (unfold deposited; by rewrite Hrec, H3).
  rewrite Hdep, Hrec, Hx. bprop. unfold in_width in Hn. split_and!; try done; [lia|]. by exists w3.
Qed.


End log.

(** ** Sequences *)

Section ingress_runs.
Context `{HostLaws}.

Inductive IngressOp : Set :=
| IDelegate (payer sys session account o record buffer ingress : Address) (grid_id : Z)
| IDeposit (depositor session receipt recipient sys ingress : Address) (n : Z).

Definition exec_ingress (cx : Ctx) (op : IngressOp) : prog unit :=
  match op with
  | IDelegate payer sys session account o record buffer ingress g =>
      process_delegate_v2 cx [payer; sys; session; account; o; record; buffer; ingress] g
  | IDeposit depositor session receipt recipient sys ingress n =>
      process_deposit_fee_v2 cx [depositor; session; receipt; recipient; sys; ingress] n
  end.

Inductive ingress_runs : World → list (Ctx * IngressOp) → World → Prop :=
| ingress_runs_nil w : ingress_runs w [] w
| ingress_runs_cons w cx op w1 l w2 :
    wf_world w → exec_ingress cx op w = Ok (tt, w1) → ingress_runs w1 l w2 → ingress_runs w ((cx, op) :: l) w2.

(** The arguments are what instruction data and account keys can be; accounts at
    program addresses, the session and the first [bound] records, do not sign. *)
Definition ingress_op_safe (portal session : Address) (ctx : Hash32) (bound : nat) (p : Ctx * IngressOp) : Prop :=
  program_id p.1 = portal ∧ is_u64 (slot (clock p.1)) ∧
  is_signer p.1 session = false ∧ Forall (λ i, is_signer p.1 (record_address p.1 ctx i) = false) (seq 0 bound) ∧
  match p.2 with
  | IDelegate payer _ se account o record buffer ingress g =>
      se = session ∧ NoDup [payer; account; record] ∧ record ≠ buffer ∧ buffer ≠ payer ∧ payer ≠ ingress ∧
      Forall is_key [account; record; o] ∧ is_u64 g
  | IDeposit depositor se receipt recipient _ ingress n =>
      se = session ∧ depositor ≠ receipt ∧ depositor ≠ ingress ∧ Forall is_key [session; recipient; receipt] ∧ is_u64 n
  end.

(** The record an instruction leaves. *)
Definition op_entry (p : Ctx * IngressOp) (x : IngressRecordV2.t) : Prop :=
  match p.2 with
  | IDelegate _ _ _ account o record _ _ _ =>
      ∃ n len h, IngressRecordV2.payload x = IngressPayloadV2.Delegation account record o n len h false 0
  | IDeposit _ _ receipt recipient _ _ n =>
      ∃ total, IngressRecordV2.payload x = IngressPayloadV2.SolDeposit recipient receipt n total
  end.

Lemma ingress_log_portal cx cx' w session f ctx l :
  program_id cx = program_id cx' → ingress_log cx w session f ctx l → ingress_log cx' w session f ctx l.
Proof. unfold ingress_log, frame_held, record_address. by intros ->. Qed.

Lemma exec_ingress_log portal session ctx bound cx op w w1 f l :
  (length l ≤ bound)%nat → ingress_op_safe portal session ctx bound (cx, op) → wf_world w → exec_ingress cx op w = Ok (tt, w1) →
  ingress_log cx w session f ctx l →
  ∃ x, ingress_log cx w1 session (with_ingress (SessionV2.ingress_count f + 1) (IngressRecordV2.root x) f) ctx (l ++ [x]) ∧
    op_entry (cx, op) x.
Proof.
  intros Hbound (_ & Hsl & Hss & Hns & Hop) Hwf Hr Hl. cbn [fst snd] in *.
  assert (Hns' : ∀ a, log_account cx session ctx l a → is_signer cx a = false).
  { intros a [->|(i & Hi & ->)]; [done|]. rewrite list.Forall_forall in Hns. apply Hns.
    apply elem_of_seq. lia. }
  destruct op; cbn [exec_ingress fst snd] in *.
  - destruct Hop as (-> & ? & ? & ? & ? & ? & ?).
    eapply process_delegate_v2_log in Hr as (x & Hl' & Hx & _); [|done..]. exists x. split; [done|]. cbn. eauto.
  - destruct Hop as (-> & ? & ? & ? & ?).
    eapply process_deposit_fee_v2_log in Hr as (x & Hl' & _ & _ & _ & Hx & _); [|done..].
    exists x. split; [done|]. cbn. eauto.
Qed.

Lemma ingress_runs_log cx portal session ctx bound w ops w' f l :
  program_id cx = portal → ingress_runs w ops w' → Forall (ingress_op_safe portal session ctx bound) ops →
  (length l + length ops ≤ bound)%nat →
  ingress_log cx w session f ctx l →
  ∃ xs f', ingress_log cx w' session f' ctx (l ++ xs) ∧ Forall2 op_entry ops xs.
Proof.
  intros Hp Hruns. revert f l. induction Hruns as [w|w cx1 op w1 ops w2 Hwf He Hruns IH]; intros f l Hs Hbd Hl.
  - exists [], f. by rewrite app_nil_r.
  - apply list.Forall_cons in Hs as [Ho Hs]. pose proof Ho as [Hp1 _]. cbn in Hp1.
    apply (ingress_log_portal _ cx1) in Hl; [|congruence].
    cbn [length] in Hbd. assert (Hb : (length l ≤ bound)%nat) by lia.
    destruct (exec_ingress_log _ _ _ bound _ _ _ _ _ _ Hb Ho Hwf He Hl) as (x & Hl1 & Hx).
    apply (ingress_log_portal _ cx) in Hl1; [|congruence].
    destruct (λ Hb1, IH _ _ Hs Hb1 Hl1) as (xs & f2 & Hl2 & Hxs);
      [rewrite length_app; cbn; lia|]. exists (x :: xs), f2.
    split; [|by constructor]. by rewrite <- app_assoc in Hl2.
Qed.
End ingress_runs.

(** ** Opening a V2 session *)

Section open_v2.
Context `{HostLaws} (cx : Ctx).

(** The last nonce given out. *)
Definition last_nonce (w : World) (epoch : Address) : Z :=
  match try_from_slice (data (acct w epoch)) with
  | Some e => SessionEpochV2.last_nonce e
  | None => 0
  end.

Definition v2_initial (args : OpenSessionV2.t) (n : Z) : V2SessionInitialization := {|
  v2_nonce := n; v2_l1_genesis := OpenSessionV2.l1_genesis args; v2_profile := OpenSessionV2.profile args |}.

(** The frame of a session opened with nonce [n]. *)
Definition opened_frame_v2 (args : OpenSessionV2.t) (payer : Address) (n : Z) : SessionV2.t :=
  opened_frame (opened_session (OpenSessionV2.session args) (Some (v2_initial args n)) payer (slot (clock cx))
                  (find_session_pda (program_id cx)).2) (v2_initial args n).

Lemma opened_frame_v2_wf args payer n :
  wf borsh args → is_key payer → is_u64 (slot (clock cx)) → in_width 128 n →
  wf borsh (opened_frame_v2 args payer n).
Proof.
  intros (Hs & Hg & Hp) Hk Hsl Hn. destruct Hs as (?&?&?&?&?).
  pose proof (find_bump_range [Session.SEED_PREFIX] (program_id cx)) as Hb.
  assert (is_u64 0) by (unfold in_width, umax; lia).
  assert (length zero32 = 32%nat) by done. assert (length Session.DISCRIMINATOR = 8%nat) by done.
  assert (length SessionV2.DISCRIMINATOR = 8%nat) by done.
  assert (wf borsh (SessionV2.base (opened_frame_v2 args payer n))) by wf_fields. wf_fields.
Qed.

Lemma opened_frame_v2_valid args payer n :
  0 < n → OpenSessionV2.l1_genesis args ≠ zero32 → OpenSessionV2.profile args ≠ zero32 →
  SessionV2.is_valid (opened_frame_v2 args payer n) = true.
Proof.
  intros Hn Hg Hp. unfold SessionV2.is_valid, opened_frame_v2.
  cbn [opened_frame SessionV2.discriminator SessionV2.base SessionV2.l1_genesis SessionV2.profile
    SessionV2.ingress_count SessionV2.ingress_root SessionV2.consumed_ingress_count SessionV2.consumed_ingress_root
    opened_session Session.nonce v2_initial v2_nonce v2_l1_genesis v2_profile].
  rewrite (bool_decide_eq_false_2 _ Hg), (bool_decide_eq_false_2 _ Hp), (proj2 (Z.ltb_lt _ _) Hn). by vm_compute.
Qed.

#[global] Instance load_epoch_read_only e b : ReadOnly (load_epoch cx e b).
Proof. unfold load_epoch. apply _. Qed.

Lemma load_epoch_Ok epoch bump w c w' :
  is_u8 bump → load_epoch cx epoch bump w = Ok (c, w') →
  wf borsh c ∧ SessionEpochV2.last_nonce c = last_nonce w epoch ∧
  (data (acct w epoch) = [] ∨ length (data (acct w epoch)) = 25%nat).
Proof.
  intros Hb Hr. unfold load_epoch in Hr. mstep Hr as x w1 Hx. unfold last_nonce. destruct (_ && _) eqn:He.
  - apply ret_Ok in Hr as [<- _]. unfold is_data_empty in He. bprop.
    match goal with X : data (acct w epoch) = [] |- _ => rewrite X end. split_and!; [|done|by left].
    assert (in_width 128 0) by (unfold in_width, umax; lia).
    assert (length SessionEpochV2.DISCRIMINATOR = 8%nat) by done. wf_fields.
  - mstep Hr as [] w1 G1. mstep Hr as v w1 G2. mstep Hr as [] w1 G3. apply ret_Ok in Hr as [-> _].
    apply load_Ok in G2 as [G2 _]. rewrite G2. apply try_from_slice_Some in G2 as [Hw ->].
    split_and!; [done|done|]. right. by apply codec_size.
Qed.

Lemma process_open_session_v2_Ok payer session fee_vault sys epoch rest args w u w' :
  NoDup [payer; session; fee_vault; epoch] → wf borsh args → is_key payer → is_u64 (slot (clock cx)) →
  process_open_session_v2 cx (payer :: session :: fee_vault :: sys :: epoch :: rest) args w = Ok (u, w') →
  let n := last_nonce w epoch + 1 in
  is_signer cx payer = true ∧ epoch = (find_session_epoch_v2_pda (program_id cx)).1 ∧
  OpenSessionV2.l1_genesis args ≠ zero32 ∧ OpenSessionV2.profile args ≠ zero32 ∧
  data (acct w session) = [] ∧ owner (acct w' session) = program_id cx ∧
  last_nonce w' epoch = n ∧ in_width 128 n ∧
  try_from_slice (data (acct w' session)) = Some (opened_frame_v2 args payer n) ∧
  SessionV2.is_valid (opened_frame_v2 args payer n) = true.
Proof.
  intros Hnd Hargs Hk Hsl Hr. nodup. unfold process_open_session_v2 in Hr.
  pose proof (find_bump_range [SessionEpochV2.SEED_PREFIX] (program_id cx)) as Hb.
  unfold find_session_epoch_v2_pda in *. destruct (find_program_address _ _) as [ek bump]. cbn [fst snd] in *.
  mstep Hr as [] w1 G1. mstep Hr as [] w1 G2. mstep Hr as [] w1 G3. mstep Hr as x w1 G4.
  mstep Hr as c w1 G5. apply load_epoch_Ok in G5 as (Hwc & Hcn & Hem); [|done].
  mstep Hr as n w1 G6. bprop. rewrite Hcn in *. set (c' := SessionEpochV2.mk _ _ _) in Hr.
  assert (Hn : in_width 128 (last_nonce w epoch + 1)).
  { destruct Hwc as (_&[? _]&_). cbn in *. unfold in_width. lia. }
  assert (Hwc' : wf borsh c') by (destruct Hwc as (?&_&?); wf_fields).
  cbv zeta in Hr. mstep Hr as [] w1 G7. mstep Hr as [] w2 G8.
  assert (Hfr : length (data (acct w1 epoch)) = 25%nat ∧ ∀ b, b ≠ payer → b ≠ epoch → acct w1 b = acct w b).
  { destruct (is_data_empty (acct w epoch)) eqn:He.
    - mstep G7 as rent w3 G9. apply initialize_created in G7 as (Hi & _ & Hf & _); [|done]. split; [|done].
      rewrite Hi. cbn [data]. rewrite length_zeros. by apply codec_size.
    - unfold is_data_empty in He. bprop. apply ret_Ok in G7 as [_ ->]. split; [by destruct Hem|done]. }
  destruct Hfr as [Hlen Hfr].
  apply process_open_session_initialized_Ok in G8 as (_ & _ & _ & _ & Hse & _ & Hsd & _ & Hso & _ & Hf2);
    [|split; [by apply NoDup_3|split; [apply Hargs|done]]].
  apply store_exact_Ok in Hr as ->; [|rewrite Hf2 by set_solver; rewrite Hlen; symmetry; by apply codec_size].
  rewrite Hfr in Hse by done. rewrite acct_put_ne by done.
  split_and!; try done.
  - unfold last_nonce at 1. rewrite acct_put_eq. cbn [data with_data]. by rewrite try_from_slice_enc.
  - rewrite Hsd. apply try_from_slice_enc. by apply opened_frame_v2_wf.
  - apply opened_frame_v2_valid; [|done..]. destruct Hwc as (_&[Hc _]&_). cbn in Hc. lia.
Qed.

(** A new session's log is empty. *)
Lemma opened_ingress_log w session args payer n ctx :
  try_from_slice (data (acct w session)) = Some (opened_frame_v2 args payer n) →
  SessionIdentityV2.commitment (SessionV2.identity (opened_frame_v2 args payer n) (program_id cx) session) hashv = Ok ctx →
  ingress_log cx w session (opened_frame_v2 args payer n) ctx [].
Proof. intros Hf Hc. split; [by split|]. split_and!; try done. Qed.
End open_v2.

(** ** Examples and properties *)

Module IngressExample.
Import SessionExample.
Definition epoch : Address := Eval vm_compute in (find_session_epoch_v2_pda portal).1.
Definition args : OpenSessionV2.t := OpenSessionV2.mk SessionExample.args (key 11) (key 12).
Definition cx0 : Ctx := cx_of portal 100 [payer; session; fee_vault; epoch] [payer].
Abbreviation open_v2 := (process_open_session_v2 cx0 [payer; session; fee_vault; system_id; epoch] args).
Definition w1 : World := run open_v2 w0.
Definition frame : SessionV2.t := opened_frame_v2 cx0 args payer 1.
Definition ctx : Hash32 := Eval vm_compute in
  match SessionIdentityV2.commitment (SessionV2.identity frame portal session) hashv with Ok c => c | Err _ => [] end.
Definition record (i : nat) : Address := record_address cx0 ctx i.
Definition recipient : Address := key 8.
Definition receipt : Address := Eval vm_compute in (find_deposit_receipt_v2_pda portal ctx recipient).1.
Definition delegated : Address := key 5.
Definition buffer : Address := key 6.
Definition owner_program : Address := key 77.
Definition drecord : Address := Eval vm_compute in (find_delegation_record_pda portal delegated).1.
Definition cx : Ctx :=
  cx_of portal 120 [payer; session; receipt; record 0; record 1; record 2; delegated; owner_program; drecord; buffer]
    [payer; delegated].
(** An account assigned to the Portal, with a buffer of its program. *)
Definition w2 : World :=
  put owner_program (mkAccount 1 [] system_id true)
    (put delegated (mkAccount 2000000 [x01; x02; x03] portal false)
       (put buffer (mkAccount 1000000 [x0a; x0b; x0c] owner_program false) w1)).
Definition ops : list (Ctx * IngressOp) :=
  [(cx, IDeposit payer session receipt recipient system_id (record 0) 700);
   (cx, IDelegate payer system_id session delegated owner_program drecord buffer (record 1) 7);
   (cx, IDeposit payer session receipt recipient system_id (record 2) 300)].
Fixpoint run_all (l : list (Ctx * IngressOp)) (w : World) : World :=
  match l with [] => w | (cx, op) :: l' => run_all l' (run (exec_ingress cx op) w) end.
Definition w3 : World := run_all ops w2.
End IngressExample.

(** A successful [OpenSessionV2] finds no
    session, takes the nonce after the last one given out and records it in the
    epoch account, so that no two sessions of a Portal share a nonce, and leaves
    a valid, Portal-owned frame with that nonce whose ingress log is empty. *)
Theorem open_session_v2_takes_next_nonce `{HostLaws} cx payer session fee_vault sys epoch rest args w u w' ctx :
  NoDup [payer; session; fee_vault; epoch] → wf borsh args → is_key payer → is_u64 (slot (clock cx)) →
  process_open_session_v2 cx (payer :: session :: fee_vault :: sys :: epoch :: rest) args w = Ok (u, w') →
  let n := last_nonce w epoch + 1 in
  let f := opened_frame_v2 cx args payer n in
  SessionIdentityV2.commitment (SessionV2.identity f (program_id cx) session) hashv = Ok ctx →
  is_signer cx payer = true ∧ data (acct w session) = [] ∧ owner (acct w' session) = program_id cx ∧
  last_nonce w' epoch = n ∧ n ≤ umax 128 ∧ SessionV2.is_valid f = true ∧
  Session.nonce (SessionV2.base f) = n ∧ ingress_log cx w' session f ctx [].
Proof.
  intros Hnd Hargs Hk Hsl Hr n f Hctx.
  apply process_open_session_v2_Ok in Hr as (? & _ & _ & _ & ? & ? & ? & [_ ?] & Hf & ?); [|done..].
  do 7 (split; [done|]). by apply opened_ingress_log.
Qed.

Lemma open_session_v2_takes_next_nonce_witness :
  let w' := run IngressExample.open_v2 SessionExample.w0 in
  last_nonce w' IngressExample.epoch = 1 ∧
  ingress_log IngressExample.cx0 w' SessionExample.session IngressExample.frame IngressExample.ctx [].
Proof.
  intros w'. destruct (run_Ok IngressExample.open_v2 SessionExample.w0) as [[] Hr]; [vm_compute; reflexivity|].
  destruct (λ H1 H2 H3 H4, open_session_v2_takes_next_nonce _ _ _ _ _ _ _ _ _ _ _ IngressExample.ctx H1 H2 H3 H4 Hr)
    as (_ & _ & _ & Hn & _ & _ & _ & Hl).
  - apply (bool_decide_unpack _). vm_compute. reflexivity.
  - unfold wf; cbn; unfold in_width, umax; cbn; repeat split; lia.
  - reflexivity.
  - unfold in_width, umax; cbn; lia.
  - vm_compute. reflexivity.
  - split; [|exact Hl]. unfold w'. rewrite Hn. vm_compute. reflexivity.
Defined.

(** C27: along any sequence of V2 delegations and deposits
    the session's ingress log only grows, by exactly one record for each
    instruction, in order, describing it; the records stay in their accounts,
    form a valid hash chain, and the session holds its length and root. *)
Theorem ingress_history_recorded `{HostLaws} cx portal session ctx bound w ops w' f l :
  program_id cx = portal → ingress_runs w ops w' → Forall (ingress_op_safe portal session ctx bound) ops →
  (length l + length ops ≤ bound)%nat → ingress_log cx w session f ctx l →
  ∃ xs f', ingress_log cx w' session f' ctx (l ++ xs) ∧ Forall2 op_entry ops xs.
Proof. apply ingress_runs_log. Qed.

Lemma ingress_history_recorded_witness :
  ∃ xs f', ingress_log IngressExample.cx IngressExample.w3 SessionExample.session f' IngressExample.ctx xs ∧
    Forall2 op_entry IngressExample.ops xs.
Proof.
  assert (Hruns : ingress_runs IngressExample.w2 IngressExample.ops IngressExample.w3).
  { unfold IngressExample.w3, IngressExample.ops. cbn [IngressExample.run_all].
    repeat (eapply ingress_runs_cons; [apply wf_worldb_wf; vm_compute; reflexivity
    |match goal with |- exec_ingress ?cx ?op ?w = _ =>
       destruct (run_Ok (exec_ingress cx op) w) as [[] Hx]; [vm_compute; reflexivity|exact Hx] end|]).
    apply ingress_runs_nil. }
  assert (Hl : ingress_log IngressExample.cx IngressExample.w2 SessionExample.session IngressExample.frame
    IngressExample.ctx []).
  { split; [split; vm_compute; reflexivity|]. split_and!; [vm_compute; reflexivity..|]. intros i x Hi. discriminate Hi. }
  destruct (λ H1 H2, ingress_history_recorded IngressExample.cx SessionExample.portal SessionExample.session
    IngressExample.ctx 3 _ _ _ _ [] eq_refl Hruns H1 H2 Hl) as (xs & f' & Hl' & Hxs).
  - unfold IngressExample.ops.
    repeat (apply Forall_cons; [split; [reflexivity|split; [unfold in_width, umax; cbn; lia|
      split; [vm_compute; reflexivity|split; [apply (bool_decide_unpack _); vm_compute; reflexivity|]]]]|]);
      [..|apply Forall_nil]; cbn [fst snd]; split_and!; try exact eq_refl;
      apply (bool_decide_unpack _); vm_compute; reflexivity.
  - apply Nat.le_refl.
  - exists xs, f'. split; [exact Hl'|exact Hxs].
Defined.

(** A successful [DepositFeeV2] is signed by the
    depositor and deposits a positive amount: the receipt's cumulative total
    grows by exactly that amount, its account by at least as many lamports (the
    first deposit also pays the rent), and the log records the amount with the
    new total. *)
Theorem deposit_v2_counted_once `{HostLaws} cx depositor session receipt recipient sys ingress n w u w' f ctx l :
  depositor ≠ receipt → depositor ≠ ingress → Forall is_key [session; recipient; receipt] →
  is_u64 n → is_u64 (slot (clock cx)) → ingress_log cx w session f ctx l →
  process_deposit_fee_v2 cx [depositor; session; receipt; recipient; sys; ingress] n w = Ok (u, w') →
  ∃ x f', ingress_log cx w' session f' ctx (l ++ [x]) ∧ is_signer cx depositor = true ∧ 0 < n ∧
    deposited w' receipt = deposited w receipt + n ∧
    IngressRecordV2.payload x = IngressPayloadV2.SolDeposit recipient receipt n (deposited w' receipt) ∧
    lamports (acct w receipt) + n ≤ lamports (acct w' receipt) ∧
    receipt = (find_deposit_receipt_v2_pda (program_id cx) ctx recipient).1.
Proof.
  intros ?????? Hr. eapply process_deposit_fee_v2_log in Hr as (x & ? & ? & ? & ? & ? & ? & ? & _); [|done..].
  eexists x, _. by split_and!.
Qed.

Lemma deposit_v2_counted_once_witness :
  let w' := run (exec_ingress IngressExample.cx (IDeposit SessionExample.payer SessionExample.session
    IngressExample.receipt IngressExample.recipient system_id (IngressExample.record 0) 700)) IngressExample.w2 in
  deposited w' IngressExample.receipt = 700.
Proof.
  destruct (run_Ok (process_deposit_fee_v2 IngressExample.cx [SessionExample.payer; SessionExample.session;
    IngressExample.receipt; IngressExample.recipient; system_id; IngressExample.record 0] 700) IngressExample.w2)
    as [[] Hr]; [vm_compute; reflexivity|].
  assert (Hl : ingress_log IngressExample.cx IngressExample.w2 SessionExample.session IngressExample.frame
    IngressExample.ctx []).
  { split; [split; vm_compute; reflexivity|]. split_and!; [vm_compute; reflexivity..|]. intros i x Hi. discriminate Hi. }
  destruct (λ H1 H2 H3 H4 H5, deposit_v2_counted_once _ _ _ _ _ _ _ _ _ _ _ _ _ _ H1 H2 H3 H4 H5 Hl Hr)
    as (_ & _ & _ & _ & _ & Hd & _).
  - apply (bool_decide_unpack _). vm_compute. reflexivity.
  - apply (bool_decide_unpack _). vm_compute. reflexivity.
  - apply (bool_decide_unpack _). vm_compute. reflexivity.
  - unfold in_width, umax; cbn; lia.
  - unfold in_width, umax; cbn; lia.
  - etransitivity; [exact Hd|]. vm_compute. reflexivity.
Defined.
