(* ===== verification/TokenWithdrawal.v ===== *)
(** * Token withdrawals
      (portal/src/instructions/register_session_bridge.rs,
       accumulate_token_withdrawal.rs)

    The session's bridge for a mint is registered once.  During a settlement the
    validator accumulates each token withdrawal and creates its authorization;
    when the checkpoint is settled, the bridge's vault consumes it.

    [token_withdrawal_consumed_once] shows that a withdrawal is paid out at most
    once and only as it was accumulated. *)

From Stdlib Require Import ZArith Lia.
From Stdlib Require Import Strings.Byte.
From stdpp Require Import base gmap list numbers.
From S2P Require Import Prelude Borsh Events Runtime State Commitments Frames Toy Pda Instruction SessionOps Delegation Settlement Deposits Ingress.

Definition TOKEN_VAULT_SEED_PREFIX : list byte := str "token_vault".

#[global] Instance session_bridge_eq_dec : EqDecision SessionBridge.t.
Proof. solve_decision. Defined.
#[global] Instance token_withdrawal_authorization_eq_dec : EqDecision TokenWithdrawalAuthorization.t.
Proof. solve_decision. Defined.

(** ** Registering a bridge *)

Section register.
Context `{Host} (cx : Ctx).

Definition process_register_session_bridge (accounts : list Address) (args : RegisterSessionBridge.t) : prog unit :=
  let '(RegisterSessionBridge.mk mint bridge_program vault token_program) := args in
  match accounts with
  | payer :: session :: session_bridge :: mint_account :: bridge_program_account :: token_program_account
      :: system_program :: _ =>
    bail_if (negb (is_signer cx payer)) PortalError.Unauthorized ;;
    err_if (system_program != system_id) IncorrectProgramId ;;
    let '(expected_session, _) := find_session_pda (program_id cx) in
    bail_if (session != expected_session) PortalError.InvalidPdaSeeds ;;
    sx ← get_acct session;
    bail_if (negb (owned_by sx (program_id cx))) PortalError.SessionAccountOwnerMismatch ;;
    session_state ← load session (into PortalError.SessionDeserializeFailed);
    bail_if (negb (Session.is_valid session_state)) PortalError.SessionStateInvalid ;;
    let '(expected_bridge, bridge_bump) := find_session_bridge_pda (program_id cx) session mint in
    bail_if (session_bridge != expected_bridge) PortalError.InvalidPdaSeeds ;;
    bail_if ((mint_account != mint) || (bridge_program_account != bridge_program)
             || (token_program_account != token_program)) PortalError.InvalidAccountData ;;
    tx ← get_acct token_program_account;
    bx ← get_acct bridge_program_account;
    err_if ((token_program != token_program_id) || negb (executable tx) || negb (executable bx))
      IncorrectProgramId ;;
    mx ← get_acct mint_account;
    is_initialized ← lift_err id (mint_is_initialized mx);
    bail_if (negb is_initialized) PortalError.InvalidAccountData ;;
    let '(expected_vault, _) := find_program_address [TOKEN_VAULT_SEED_PREFIX; session_bridge] bridge_program in
    bail_if (vault != expected_vault) PortalError.InvalidPdaSeeds ;;
    let bridge_state := SessionBridge.mk SessionBridge.DISCRIMINATOR session mint bridge_program vault token_program
                          bridge_bump in
    rx ← get_acct session_bridge;
    if is_data_empty rx then
      let bridge_size := account_size bridge_state in
      n ← lift_err id (try_minimum_balance bridge_size);
      initialize_pda_account cx payer session_bridge n bridge_size (program_id cx)
        [SessionBridge.SEED_PREFIX; session; mint; le_bytes 1 bridge_bump] ;;
      store session_bridge bridge_state Panicked
    else
      bail_if (negb (owned_by rx (program_id cx))) PortalError.InvalidAccountData ;;
      existing ← load session_bridge (into PortalError.InvalidAccountData);
      if SessionBridge.is_valid existing && (existing == bridge_state) then mret tt
      else
        bail_if (SessionBridge.is_valid existing) PortalError.InvalidAccountData ;;
        store session_bridge bridge_state Panicked
  | _ => fail NotEnoughAccountKeys
  end.
End register.

(** ** Accumulating and consuming

    [continuity_v2] is the feature [checkpoint-continuity-v2]. *)

Section withdrawal.
Context `{Host} (continuity_v2 : bool) (cx : Ctx).

Definition load_settlement_session (session : Address) : prog Session.t :=
  if continuity_v2 then frame ← load_session_v2 cx session; mret (SessionV2.base frame)
  else load session (into PortalError.SessionDeserializeFailed).

Definition token_withdrawal_tuple_hash (x : TokenWithdrawalChecksum) : Hash32 :=
  hashv [str "northstar-token-withdrawal-authorization-v0"; tw_bridge_program x; tw_session_bridge x;
         tw_er_token_account x; tw_vault x; tw_vault_token_account x; tw_destination_token_account x; tw_mint x;
         tw_token_program x; le_bytes 8 (tw_amount x); le_bytes 8 (tw_withdrawn x); le_bytes 1 (tw_decimals x)].

(** The registration and its expected address. *)
Definition bridge_registration (session session_bridge : Address) : prog (SessionBridge.t * Address) :=
  if continuity_v2 then
    registry ← load session_bridge (into PortalError.InvalidAccountData);
    frame ← load_session_v2 cx session;
    context ← frame_context cx frame session;
    let base := SessionBridgeV2.base registry in
    let '(expected, bump) := find_session_bridge_v2_pda (program_id cx) context (SessionBridge.mint base) in
    let vault := (find_program_address [TOKEN_VAULT_SEED_PREFIX; session_bridge] (SessionBridge.bridge_program base)).1 in
    bail_if (negb (SessionBridgeV2.is_valid registry) || (SessionBridgeV2.session_context registry != context)
             || (SessionBridge.bump base != bump) || (SessionBridge.vault base != vault))
      PortalError.InvalidAccountData ;;
    mret (base, expected)
  else
    bridge ← load session_bridge (into PortalError.InvalidAccountData);
    mret (bridge, (find_session_bridge_pda (program_id cx) session (SessionBridge.mint bridge)).1).

Definition load_bridge (session session_bridge vault mint token_program : Address) : prog SessionBridge.t :=
  rx ← get_acct session_bridge;
  bail_if (negb (owned_by rx (program_id cx))) PortalError.InvalidAccountData ;;
  '(bridge, expected_bridge) ← bridge_registration session session_bridge;
  vx ← get_acct vault;
  bail_if (negb (SessionBridge.is_valid bridge) || (SessionBridge.session bridge != session)
           || (session_bridge != expected_bridge) || (SessionBridge.bridge_program bridge != owner vx)
           || (SessionBridge.vault bridge != vault) || (SessionBridge.mint bridge != mint)
           || (SessionBridge.token_program bridge != token_program)) PortalError.InvalidAccountData ;;
  mret bridge.

(** The withdrawal the accounts and arguments describe. *)
Definition withdrawal_of (bridge : SessionBridge.t) (session_bridge er_token_account vault vault_token_account
    destination_token_account mint token_program : Address) (amount withdrawn decimals : Z) : TokenWithdrawalChecksum := {|
  tw_bridge_program := SessionBridge.bridge_program bridge;
  tw_session_bridge := session_bridge;
  tw_er_token_account := er_token_account;
  tw_vault := vault;
  tw_vault_token_account := vault_token_account;
  tw_destination_token_account := destination_token_account;
  tw_mint := mint;
  tw_token_program := token_program;
  tw_amount := amount;
  tw_withdrawn := withdrawn;
  tw_decimals := decimals
|}.

(** [BorshSerialize::serialize(..).unwrap()] without the feature, [write_session]
    with it. *)
Definition store_settlement_session (session : Address) (session_state : Session.t) : prog unit :=
  if continuity_v2 then store_session session session_state else store session session_state Panicked.

Definition process_accumulate_token_withdrawal (accounts : list Address) (args : AccumulateTokenWithdrawal.t) :
    prog unit :=
  let '(AccumulateTokenWithdrawal.mk er_slot checksum amount withdrawn decimals) := args in
  match accounts with
  | validator :: session :: session_bridge :: vault :: er_token_account :: vault_token_account
      :: destination_token_account :: mint :: token_program :: authorization :: _system_program :: _ =>
    bail_if (session != (find_session_pda (program_id cx)).1) PortalError.InvalidPdaSeeds ;;
    session_state ← load_settlement_session session;
    sx ← get_acct session;
    bail_if (negb (Session.is_valid session_state) || negb (owned_by sx (program_id cx)))
      PortalError.SessionStateInvalid ;;
    require_validator cx validator session_state ;;
    require_active_settlement session_state er_slot checksum ;;
    bridge ← load_bridge session session_bridge vault mint token_program;
    let checkpoint := (find_checkpoint_pda (program_id cx) session er_slot).1 in
    let '(expected_authorization, authorization_bump) :=
      find_token_withdrawal_authorization_pda (program_id cx) checkpoint vault withdrawn in
    bail_if (authorization != expected_authorization) PortalError.InvalidPdaSeeds ;;
    let withdrawal := withdrawal_of bridge session_bridge er_token_account vault vault_token_account
                        destination_token_account mint token_program amount withdrawn decimals in
    let authorization_state := TokenWithdrawalAuthorization.mk TokenWithdrawalAuthorization.DISCRIMINATOR checkpoint
                                 (token_withdrawal_tuple_hash withdrawal) false authorization_bump in
    ax ← get_acct authorization;
    if is_data_empty ax then
      let authorization_size := account_size authorization_state in
      n ← lift_err id (try_minimum_balance authorization_size);
      initialize_pda_account cx validator authorization n authorization_size (program_id cx)
        [TokenWithdrawalAuthorization.SEED_PREFIX; checkpoint; vault; le_bytes 8 withdrawn; le_bytes 1 authorization_bump] ;;
      store authorization authorization_state Panicked ;;
      store_settlement_session session
        (with_accumulator (accumulate_token_withdrawal_checksum (Session.settlement_accumulator session_state)
                             withdrawal) session_state)
    else
      bail_if (negb (owned_by ax (program_id cx))) PortalError.InvalidAccountData ;;
      existing ← load authorization (into PortalError.InvalidAccountData);
      bail_if (existing != authorization_state) PortalError.InvalidAccountData
  | _ => fail NotEnoughAccountKeys
  end.

Definition with_consumed (a : TokenWithdrawalAuthorization.t) : TokenWithdrawalAuthorization.t :=
  TokenWithdrawalAuthorization.mk (TokenWithdrawalAuthorization.discriminator a)
    (TokenWithdrawalAuthorization.checkpoint a) (TokenWithdrawalAuthorization.tuple_hash a) true
    (TokenWithdrawalAuthorization.bump a).

Definition process_consume_token_withdrawal (accounts : list Address) (args : ConsumeTokenWithdrawal.t) : prog unit :=
  let '(ConsumeTokenWithdrawal.mk er_slot checksum amount withdrawn decimals) := args in
  match accounts with
  | validator :: session :: checkpoint :: authorization :: session_bridge :: vault :: er_token_account
      :: vault_token_account :: destination_token_account :: mint :: token_program :: _ =>
    sx ← get_acct session;
    bail_if ((session != (find_session_pda (program_id cx)).1) || negb (owned_by sx (program_id cx)))
      PortalError.InvalidPdaSeeds ;;
    session_state ← load_settlement_session session;
    bail_if (negb (Session.is_valid session_state) || negb (is_signer cx validator)
             || (validator != Session.validator session_state)) PortalError.Unauthorized ;;
    let expected_checkpoint := (find_checkpoint_pda (program_id cx) session er_slot).1 in
    kx ← get_acct checkpoint;
    bail_if ((checkpoint != expected_checkpoint) || negb (owned_by kx (program_id cx))) PortalError.InvalidPdaSeeds ;;
    checkpoint_state ← load checkpoint (into PortalError.InvalidAccountData);
    bail_if (negb (Checkpoint.is_valid checkpoint_state) || (Checkpoint.session checkpoint_state != session)
             || (Checkpoint.er_slot checkpoint_state != er_slot)
             || (Checkpoint.effect_commitment checkpoint_state != checksum)
             || (Checkpoint.status checkpoint_state != CheckpointStatus.Settled)) PortalError.InvalidAccountData ;;
    bridge ← load_bridge session session_bridge vault mint token_program;
    bail_if (negb (is_signer cx vault)) PortalError.Unauthorized ;;
    let '(expected_authorization, authorization_bump) :=
      find_token_withdrawal_authorization_pda (program_id cx) checkpoint vault withdrawn in
    ax ← get_acct authorization;
    bail_if ((authorization != expected_authorization) || negb (owned_by ax (program_id cx)))
      PortalError.InvalidPdaSeeds ;;
    let withdrawal := withdrawal_of bridge session_bridge er_token_account vault vault_token_account
                        destination_token_account mint token_program amount withdrawn decimals in
    authorization_state ← load authorization (into PortalError.InvalidAccountData);
    bail_if (negb (TokenWithdrawalAuthorization.is_valid authorization_state)
             || (TokenWithdrawalAuthorization.checkpoint authorization_state != checkpoint)
             || (TokenWithdrawalAuthorization.tuple_hash authorization_state != token_withdrawal_tuple_hash withdrawal)
             || (TokenWithdrawalAuthorization.bump authorization_state != authorization_bump)
             || TokenWithdrawalAuthorization.consumed authorization_state) PortalError.InvalidAccountData ;;
    store authorization (with_consumed authorization_state) Panicked
  | _ => fail NotEnoughAccountKeys
  end.
End withdrawal.

(** ** Specifications *)

Section specs.
Context `{HostLaws} (v2 : bool) (cx : Ctx).

#[global] Instance load_settlement_session_read_only s : ReadOnly (load_settlement_session v2 cx s).
Proof. unfold load_settlement_session. apply _. Qed.
#[global] Instance bridge_registration_read_only s b : ReadOnly (bridge_registration v2 cx s b).
Proof.
  unfold bridge_registration. destruct v2; [|apply _]. intros w x w' Hr.
  mstep Hr as r w1 H1. mstep Hr as f w1 H2. mstep Hr as c w1 H3. destruct (find_session_bridge_v2_pda _ _ _).
  revert Hr. apply read_only.
Qed.
#[global] Instance load_bridge_read_only s b v m t : ReadOnly (load_bridge v2 cx s b v m t).
Proof. unfold load_bridge. apply _. Qed.

Lemma load_settlement_session_Ok session w s w' :
  load_settlement_session v2 cx session w = Ok (s, w') → Session.is_valid s = true → session_at w session s.
Proof.
  unfold load_settlement_session. intros Hr Hv. apply parse_session_Ok. destruct v2.
  - mstep Hr as f w1 Hf. apply load_session_v2_Ok in Hf as (_ & _ & Hf & Hfv). apply ret_Ok in Hr as [<- _].
    apply try_from_slice_Some in Hf as [Hw ->]. by eapply SessionV2Shape.
  - apply load_Ok in Hr as [Hr _]. apply try_from_slice_Some in Hr as [Hw ->]. by apply SessionV1Shape.
Qed.

(** Storing the accumulator, in either build. *)
Lemma store_settlement_session_Ok session s acc w0 w1 w u w' :
  load_settlement_session v2 cx session w0 = Ok (s, w1) → Session.is_valid s = true →
  data (acct w session) = data (acct w0 session) → is_key acc →
  store_settlement_session v2 session (with_accumulator acc s) w = Ok (u, w') →
  session_at w' session (with_accumulator acc s) ∧ (∀ b, b ≠ session → acct w' b = acct w b) ∧
  (∃ d, acct w' session = with_data d (acct w session)).
Proof.
  intros Hld Hv Hd Hacc Hr. pose proof (load_settlement_session_Ok _ _ _ _ Hld Hv) as Hs.
  unfold store_settlement_session in Hr. unfold load_settlement_session in Hld. destruct v2.
  - apply (store_accumulator_Ok _ _ _ w0) in Hr as (? & ? & ? & _); done.
  - apply load_Ok in Hld as [Hld _]. pose proof (proj1 (try_from_slice_Some _ _) Hld) as [Hw _].
    assert (Hw' : wf borsh (with_accumulator acc s)).
    { destruct Hw as (?&?&?&?&?&?&?&?&?&?&?&?&?&?&?&?&?). wf_fields. }
    apply (store_loaded_Ok (n:=226) _ s) in Hr as ->; [|by rewrite Hd|done].
    split_and!; [|intros b Hb; by rewrite acct_put_ne|eexists; by rewrite acct_put_eq].
    unfold session_at. rewrite acct_put_eq. cbn [data with_data]. apply parse_session_Ok. by apply SessionV1Shape.
Qed.

(** The authorization account holds [x]. *)
Definition auth_at (w : World) (a : Address) (x : TokenWithdrawalAuthorization.t) : Prop :=
  try_from_slice (data (acct w a)) = Some x.

(** The authorization of [x], unconsumed. *)
Definition new_authorization (checkpoint : Address) (x : TokenWithdrawalChecksum) (bump : Z) :
    TokenWithdrawalAuthorization.t :=
  TokenWithdrawalAuthorization.mk TokenWithdrawalAuthorization.DISCRIMINATOR checkpoint
    (token_withdrawal_tuple_hash x) false bump.

Lemma new_authorization_wf session er_slot x bump :
  is_u8 bump → wf borsh (new_authorization (find_checkpoint_pda (program_id cx) session er_slot).1 x bump).
Proof.
  intros Hb. assert (length (find_checkpoint_pda (program_id cx) session er_slot).1 = 32%nat) by apply find_address_length.
  assert (length TokenWithdrawalAuthorization.DISCRIMINATOR = 8%nat) by done.
  assert (is_key (token_withdrawal_tuple_hash x)) by apply sha_key. wf_fields.
Qed.

Lemma accumulate_signed validator session sb vault er vta dst mint tp a sys rest args w u w' :
  process_accumulate_token_withdrawal v2 cx
    (validator :: session :: sb :: vault :: er :: vta :: dst :: mint :: tp :: a :: sys :: rest) args w = Ok (u, w') →
  is_signer cx validator = true.
Proof.
  unfold process_accumulate_token_withdrawal. destruct args. intros Hr.
  mstep Hr as [] w1 G1. mstep Hr as s w1 G2. mstep Hr as sx w1 G3. mstep Hr as [] w1 G4.
  mstep Hr as [] w1 Hv. by apply require_validator_Ok in Hv as [Hv _].
Qed.

(** The registered bridge program is an address. *)
Lemma load_bridge_key session sb vault mint tp w b w' :
  load_bridge v2 cx session sb vault mint tp w = Ok (b, w') → is_key (SessionBridge.bridge_program b).
Proof.
  unfold load_bridge. intros Hr. mstep Hr as rx w1 G1. mstep Hr as [] w1 G2. mstep Hr as [b' e] w1 G3.
  mstep Hr as vx w1 G4. mstep Hr as [] w1 G5. apply ret_Ok in Hr as [-> _]. clear G5.
  unfold bridge_registration in G3. destruct v2.
  - mstep G3 as r w2 G6. apply load_Ok in G6 as [G6 _]. apply try_from_slice_Some in G6 as [(_ & Hb & _) _].
    mstep G3 as f w2 G7. mstep G3 as c w2 G8. cbv zeta in G3. destruct (find_session_bridge_v2_pda _ _ _).
    mstep G3 as [] w2 G9. apply ret_Ok in G3 as [[= <- _] _]. by destruct Hb as (?&?&?&Hb&?).
  - mstep G3 as r w2 G6. apply load_Ok in G6 as [G6 _]. apply try_from_slice_Some in G6 as [Hb _].
    apply ret_Ok in G3 as [[= <- _] _]. by destruct Hb as (?&?&?&Hb&?).
Qed.

(** Accumulating either finds the authorization already there, and changes
    nothing, or creates it and folds the withdrawal into the accumulator. *)
Lemma process_accumulate_token_withdrawal_Ok validator session sb vault er vta dst mint tp a sys rest args w u w' :
  validator ≠ a →
  process_accumulate_token_withdrawal v2 cx
    (validator :: session :: sb :: vault :: er :: vta :: dst :: mint :: tp :: a :: sys :: rest) args w = Ok (u, w') →
  let '(AccumulateTokenWithdrawal.mk er_slot checksum amount withdrawn decimals) := args in
  let checkpoint := (find_checkpoint_pda (program_id cx) session er_slot).1 in
  let k := find_token_withdrawal_authorization_pda (program_id cx) checkpoint vault withdrawn in
  ∃ s b, settling cx w validator session er_slot checksum s ∧ a = k.1 ∧
    load_bridge v2 cx session sb vault mint tp w = Ok (b, w) ∧
    let x := withdrawal_of b sb er vault vta dst mint tp amount withdrawn decimals in
    (w' = w ∧ auth_at w a (new_authorization checkpoint x k.2) ∨
     data (acct w a) = [] ∧ auth_at w' a (new_authorization checkpoint x k.2) ∧ owner (acct w' a) = program_id cx ∧
     session_at w' session (with_accumulator (accumulate (Session.settlement_accumulator s) (SettleToken x)) s) ∧
     (∀ c, c ≠ session → c ≠ a → data (acct w' c) = data (acct w c) ∧ (c ≠ validator → acct w' c = acct w c))).
Proof.
  intros Hne Hr. destruct args as [er_slot checksum amount withdrawn decimals]. cbv zeta.
  unfold process_accumulate_token_withdrawal in Hr.
  mstep Hr as [] w1 G1. clear G1. mstep Hr as s w1 G2. mstep Hr as sx w1 G3. mstep Hr as [] w1 G4.
  mstep Hr as [] w1 Hv. apply require_validator_Ok in Hv as [Hsig Hv].
  mstep Hr as [] w1 Ha. apply require_active_settlement_Ok in Ha as (Hst & Her & Hck).
  mstep Hr as b w1 G5. bprop. match goal with X : Session.is_valid s = true |- _ => rename X into Hsv end.
  pose proof (load_settlement_session_Ok _ _ _ _ G2 Hsv) as Hs.
  set (x := withdrawal_of b sb er vault vta dst mint tp amount withdrawn decimals) in *.
  assert (Hwf : wf borsh (new_authorization (find_checkpoint_pda (program_id cx) session (Session.settlement_er_slot s)).1 x
    (find_token_withdrawal_authorization_pda (program_id cx)
       (find_checkpoint_pda (program_id cx) session (Session.settlement_er_slot s)).1 vault withdrawn).2)).
  { apply new_authorization_wf. apply find_bump_range. }
  set (ck := (find_checkpoint_pda (program_id cx) session (Session.settlement_er_slot s)).1) in *.
  destruct (find_token_withdrawal_authorization_pda (program_id cx) ck vault withdrawn) as [ak bump].
  cbn [fst snd] in *. change (TokenWithdrawalAuthorization.mk _ _ _ _ _) with (new_authorization ck x bump) in Hr.
  mstep Hr as [] w1 G6. bprop. subst ak. mstep Hr as ax w1 G7. exists s, b. split; [done|]. split; [done|]. split; [done|].
  destruct (is_data_empty (acct w a)) eqn:He; unfold is_data_empty in He; bprop; [right|left].
  - mstep Hr as n w1 G8. mstep Hr as [] w1 Hi. mstep Hr as [] w2 Hsto.
    assert (Hsa : session ≠ a).
    { intros ->. apply parse_session_Ok in Hs as [Hw _ Hs|f Hw _ Hs _]; rewrite He in Hs; apply (f_equal length) in Hs;
        by rewrite codec_size in Hs. }
    apply initialize_created in Hi as (Hi & Hp & Hf & _); [|done].
    assert (Hd1 : ∀ c, c ≠ a → data (acct w1 c) = data (acct w c)).
    { intros c Hc. destruct (decide (c = Session.validator s)) as [->|]; [by rewrite Hp|by rewrite Hf]. }
    apply store_exact_Ok in Hsto as ->; [|rewrite Hi; apply length_zeros].
    eapply store_settlement_session_Ok in Hr as (Hs' & Hf' & _);
      [|exact G2|done|by rewrite acct_put_ne, Hd1 by done|apply sha_key].
    unfold auth_at. rewrite Hf', acct_put_eq by done. cbn [data with_data owner].
    split_and!; [done|by apply try_from_slice_enc|by rewrite Hi|done|].
    intros c Hcs Hca. rewrite Hf', acct_put_ne by done. split; [by apply Hd1|]. intros. by apply Hf.
  - mstep Hr as [] w1 G8. mstep Hr as e w1 G9. apply load_Ok in G9 as [G9 _].
    apply err_if_Ok in Hr as [Hr ->]. bprop. by subst e.
Qed.


(** Consuming requires a settled checkpoint, the vault's signature and the
    unconsumed authorization of exactly this withdrawal. *)
Lemma process_consume_token_withdrawal_Ok validator session ck a sb vault er vta dst mint tp rest args w u w' :
  process_consume_token_withdrawal v2 cx
    (validator :: session :: ck :: a :: sb :: vault :: er :: vta :: dst :: mint :: tp :: rest) args w = Ok (u, w') →
  let '(ConsumeTokenWithdrawal.mk er_slot checksum amount withdrawn decimals) := args in
  ∃ b x c, load_bridge v2 cx session sb vault mint tp w = Ok (b, w) ∧ is_signer cx vault = true ∧
    a = (find_token_withdrawal_authorization_pda (program_id cx) ck vault withdrawn).1 ∧
    try_from_slice (data (acct w ck)) = Some c ∧ Checkpoint.status c = CheckpointStatus.Settled ∧
    Checkpoint.er_slot c = er_slot ∧ Checkpoint.effect_commitment c = checksum ∧
    auth_at w a x ∧ TokenWithdrawalAuthorization.consumed x = false ∧
    TokenWithdrawalAuthorization.checkpoint x = ck ∧
    TokenWithdrawalAuthorization.tuple_hash x =
      token_withdrawal_tuple_hash (withdrawal_of b sb er vault vta dst mint tp amount withdrawn decimals) ∧
    auth_at w' a (with_consumed x) ∧ (∀ b, b ≠ a → acct w' b = acct w b).
Proof.
  intros Hr. destruct args as [er_slot checksum amount withdrawn decimals]. unfold process_consume_token_withdrawal in Hr.
  mstep Hr as sx w1 G1. mstep Hr as [] w1 G2. clear G2. mstep Hr as s w1 G3. mstep Hr as [] w1 G4. clear G4.
  cbv zeta in Hr. mstep Hr as kx w1 G5. mstep Hr as [] w1 G6. clear G6.
  mstep Hr as c w1 G7. apply load_Ok in G7 as [G7 _]. mstep Hr as [] w1 G8. mstep Hr as b w1 G9. mstep Hr as [] w1 G10.
  destruct (find_token_withdrawal_authorization_pda _ _ _ _) as [ak bump].
  mstep Hr as ax w1 G11. mstep Hr as [] w1 G12. mstep Hr as x w1 G13. apply load_Ok in G13 as [G13 _].
  mstep Hr as [] w1 G14. bprop.
  assert (Hw : wf borsh (with_consumed x)).
  { apply try_from_slice_Some in G13 as [(?&?&?&?&?) _]. wf_fields. }
  apply (store_loaded_Ok (n:=74) _ x) in Hr as ->; [|done|done].
  exists b, x, c. unfold auth_at. split_and!; try done.
  - rewrite acct_put_eq. cbn [data with_data]. by apply try_from_slice_enc.
  - intros d Hd. by rewrite acct_put_ne.
Qed.
End specs.

(** ** Sequences *)

Section token_runs.
Context `{HostLaws} (v2 : bool).

Inductive TokenOp : Set :=
| TAccumulate (accounts : list Address) (args : AccumulateTokenWithdrawal.t)
| TConsume (accounts : list Address) (args : ConsumeTokenWithdrawal.t).

Definition exec_token (cx : Ctx) (op : TokenOp) : prog unit :=
  match op with
  | TAccumulate accounts args => process_accumulate_token_withdrawal v2 cx accounts args
  | TConsume accounts args => process_consume_token_withdrawal v2 cx accounts args
  end.

(** The account of the authorization. *)
Definition op_authorization (op : TokenOp) : option Address :=
  match op with TAccumulate accounts _ => accounts !! 9%nat | TConsume accounts _ => accounts !! 3%nat end.
Definition is_consume (op : TokenOp) : bool := match op with TConsume _ _ => true | _ => false end.
Definition consumes (a : Address) (p : Ctx * TokenOp) : Prop :=
  is_consume p.2 = true ∧ op_authorization p.2 = Some a.

(** Accumulations and consumptions one after the other; in between, anything that
    leaves the account [a] as it is. *)
Inductive token_runs (a : Address) : World → list (Ctx * TokenOp) → World → Prop :=
| token_runs_nil w : token_runs a w [] w
| token_runs_cons w cx op w1 l w2 :
    exec_token cx op w = Ok (tt, w1) → token_runs a w1 l w2 → token_runs a w ((cx, op) :: l) w2
| token_runs_other w w1 l w2 :
    data (acct w1 a) = data (acct w a) → token_runs a w1 l w2 → token_runs a w l w2.

(** The same, with the world each instruction found. *)
Inductive token_trace (a : Address) : World → list (Ctx * TokenOp * World) → World → Prop :=
| token_trace_nil w : token_trace a w [] w
| token_trace_cons w cx op w1 l w2 :
    exec_token cx op w = Ok (tt, w1) → token_trace a w1 l w2 → token_trace a w ((cx, op, w) :: l) w2
| token_trace_other w w1 l w2 :
    data (acct w1 a) = data (acct w a) → token_trace a w1 l w2 → token_trace a w l w2.

Lemma token_trace_runs a w l w' : token_trace a w l w' → token_runs a w (l.*1) w'.
Proof. induction 1; [constructor|by econstructor|by eapply token_runs_other]. Qed.

(** A program address does not sign. *)
Definition token_op_safe (p : Ctx * TokenOp) : Prop :=
  match op_authorization p.2 with Some a => is_signer p.1 a = false | None => True end.

(** The withdrawal an instruction describes, with the bridge found at [w]. *)
Definition op_withdrawal (b : SessionBridge.t) (op : TokenOp) : option TokenWithdrawalChecksum :=
  match op with
  | TAccumulate (_ :: _ :: sb :: vault :: er :: vta :: dst :: mint :: tp :: _) (AccumulateTokenWithdrawal.mk _ _ n wd d) =>
      Some (withdrawal_of b sb er vault vta dst mint tp n wd d)
  | TConsume (_ :: _ :: _ :: _ :: sb :: vault :: er :: vta :: dst :: mint :: tp :: _) (ConsumeTokenWithdrawal.mk _ _ n wd d) =>
      Some (withdrawal_of b sb er vault vta dst mint tp n wd d)
  | _ => None
  end.

(** The bridge that the accounts of an instruction lead to at [w]. *)
Definition op_bridge (cx : Ctx) (op : TokenOp) (w : World) (b : SessionBridge.t) : Prop :=
  match op with
  | TAccumulate (_ :: session :: sb :: vault :: _ :: _ :: _ :: mint :: tp :: _) _
  | TConsume (_ :: session :: _ :: _ :: sb :: vault :: _ :: _ :: _ :: mint :: tp :: _) _ =>
      load_bridge v2 cx session sb vault mint tp w = Ok (b, w)
  | _ => False
  end.

(** Accounts are passed by their keys, and the arguments are what instruction
    data can hold. *)
Definition op_wf (op : TokenOp) : Prop :=
  match op with
  | TAccumulate accounts args => Forall is_key accounts ∧ wf borsh args
  | TConsume accounts args => Forall is_key accounts ∧ wf borsh args
  end.

Lemma op_withdrawal_wf cx op w b x :
  op_wf op → op_bridge cx op w b → op_withdrawal b op = Some x → wf_op (SettleToken x).
Proof.
  destruct op as [l args|l args]; intros [Hk Ha] Hb Hx.
  - do 9 (destruct l as [|? l]; [done|]). destruct args as [es chk n wd d]. injection Hx as <-.
    apply load_bridge_key in Hb. rewrite !list.Forall_cons in Hk. destruct_and!. destruct Ha as (_ & _ & ? & ? & ?).
    split; [|done]. by repeat (apply list.Forall_cons; split; [done|]).
  - do 11 (destruct l as [|? l]; [done|]). destruct args as [es chk n wd d]. injection Hx as <-.
    apply load_bridge_key in Hb. rewrite !list.Forall_cons in Hk. destruct_and!. destruct Ha as (_ & _ & ? & ? & ?).
    split; [|done]. by repeat (apply list.Forall_cons; split; [done|]).
Qed.

(** An authorization account: not yet created, or holding an authorization. *)
Definition auth_slot (w : World) (a : Address) : Prop := data (acct w a) = [] ∨ ∃ x, auth_at w a x.

Lemma session_not_slot w a s : session_at w a s → ¬ auth_slot w a.
Proof.
  intros Hs [He|[x Hx]].
  - apply parse_session_Ok in Hs as [Hw _ Hs|f Hw _ Hs _]; rewrite He in Hs; apply (f_equal length) in Hs;
      by rewrite codec_size in Hs.
  - eapply (session_not_sized x 74); [apply _|apply _|lia|lia|done|done].
Qed.

(** What a step does to the authorization account [a]. *)
Inductive auth_step (a : Address) (cx : Ctx) (op : TokenOp) (w w' : World) : Prop :=
| AuthKept : ¬ consumes a (cx, op) → data (acct w' a) = data (acct w a) → auth_step a cx op w w'
| AuthCreated b x ck bump : ¬ consumes a (cx, op) → op_authorization op = Some a → data (acct w a) = [] →
    op_bridge cx op w b → op_withdrawal b op = Some x → auth_at w' a (new_authorization ck x bump) → auth_step a cx op w w'
| AuthConsumed b x y : consumes a (cx, op) → auth_at w a x → TokenWithdrawalAuthorization.consumed x = false →
    op_withdrawal b op = Some y → TokenWithdrawalAuthorization.tuple_hash x = token_withdrawal_tuple_hash y →
    auth_at w' a (with_consumed x) → auth_step a cx op w w'.

Lemma exec_token_step cx op a w w' :
  auth_slot w a → token_op_safe (cx, op) → exec_token cx op w = Ok (tt, w') → auth_step a cx op w w'.
Proof.
  unfold token_op_safe. cbn [fst snd]. intros Hsl Hns Hr.
  destruct op as [accounts args|accounts args]; cbn [exec_token op_authorization] in *.
  - destruct accounts as [|v [|session [|sb [|vault [|er [|vta [|dst [|mint [|tp [|a2 [|sys rest]]]]]]]]]]];
      try (unfold process_accumulate_token_withdrawal in Hr; destruct args; minv; done).
    cbn in Hns. assert (Hne : v ≠ a2) by (apply accumulate_signed in Hr; congruence).
    apply process_accumulate_token_withdrawal_Ok in Hr; [|done].
    destruct args as [er_slot checksum amount withdrawn decimals].
    destruct Hr as (s & b & Hset & _ & Hb & [[-> _]|(He & Hau & _ & _ & Hf)]).
    + apply AuthKept; [|done]. by intros [? _].
    + assert (a ≠ session). { intros ->. destruct Hset as [Hs _]. by eapply session_not_slot. }
      destruct (decide (a = a2)) as [->|Hd].
      * eapply AuthCreated; [by intros [? _]|done|done|exact Hb|done|done].
      * apply AuthKept; [by intros [? _]|]. by apply Hf.
  - destruct accounts as [|v [|session [|ck [|a2 [|sb [|vault [|er [|vta [|dst [|mint [|tp rest]]]]]]]]]]];
      try (unfold process_consume_token_withdrawal in Hr; destruct args; minv; done).
    apply process_consume_token_withdrawal_Ok in Hr. destruct args as [er_slot checksum amount withdrawn decimals].
    destruct Hr as (b & x & c & _ & _ & _ & _ & _ & _ & _ & Hx & Hcons & _ & Hh & Hx' & Hf).
    destruct (decide (a = a2)) as [->|Hd]; [by eapply AuthConsumed|].
    apply AuthKept; [|by rewrite Hf]. intros [_ Ha]. cbn in Ha. congruence.
Qed.

#[global] Instance consumes_dec a p : Decision (consumes a p).
Proof. unfold consumes. apply _. Defined.

Lemma auth_step_slot a cx op w w' : auth_step a cx op w w' → auth_slot w a → auth_slot w' a.
Proof.
  intros [_ Hd|b x ck bump _ _ _ _ _ Ha|b x y _ _ _ _ _ Ha] Hs; [|right; by eauto..].
  destruct Hs as [He|[x Hx]]; [left; by rewrite Hd|right]. exists x. unfold auth_at. by rewrite Hd.
Qed.

Lemma consumed_stays a w l w' x :
  token_runs a w l w' → Forall token_op_safe l → auth_at w a x → TokenWithdrawalAuthorization.consumed x = true →
  filter (consumes a) l = [].
Proof.
  induction 1 as [w|w cx op w1 l w2 He Hruns IH|w w1 l w2 Hd _ IH]; intros Hs Ha Hc; [done| |].
  2:{ apply IH; [done| |done]. unfold auth_at. by rewrite Hd. }
  apply list.Forall_cons in Hs as [Ho Hs]. apply (exec_token_step _ _ a) in He; [|right; by eauto|done].
  destruct He as [Hn Hd|b y ck bump Hn _ Hem _ _ _|b y z _ Hy Hyc _ _ _].
  - rewrite filter_cons_False by done. apply IH; [done| |done]. unfold auth_at. by rewrite Hd.
  - exfalso. unfold auth_at in Ha. rewrite Hem in Ha. by vm_compute in Ha.
  - exfalso. unfold auth_at in *. congruence.
Qed.

Lemma consumed_at_most_once a w l w' :
  token_runs a w l w' → Forall token_op_safe l → auth_slot w a → (length (filter (consumes a) l) ≤ 1)%nat.
Proof.
  induction 1 as [w|w cx op w1 l w2 He Hruns IH|w w1 l w2 Hd _ IH]; intros Hs Ha; [cbn; lia| |].
  2:{ apply IH; [done|]. destruct Ha as [Ha|[x Ha]]; [left; congruence|right; exists x]. unfold auth_at. by rewrite Hd. }
  apply list.Forall_cons in Hs as [Ho Hs]. apply (exec_token_step _ _ a) in He; [|done|done].
  pose proof (auth_step_slot _ _ _ _ _ He Ha) as Ha1.
  destruct He as [Hn _|b y ck bump Hn _ _ _ _ _|b y z Hc _ _ _ _ Hy].
  - rewrite filter_cons_False by done. by apply IH.
  - rewrite filter_cons_False by done. by apply IH.
  - rewrite filter_cons_True by done. erewrite consumed_stays; [|done..]. cbn. lia.
Qed.

(** The message whose hash an authorization holds. *)
Definition tuple_message (x : TokenWithdrawalChecksum) : list byte :=
  concat (str "northstar-token-withdrawal-authorization-v0" :: tail (op_parts (SettleToken x))).

Lemma tuple_hash_binding x y :
  wf_op (SettleToken x) → wf_op (SettleToken y) → token_withdrawal_tuple_hash x = token_withdrawal_tuple_hash y →
  x = y ∨ sha_collision [tuple_message x] [tuple_message y].
Proof.
  intros Hx Hy He. destruct (decide (tuple_message x = tuple_message y)) as [Hm|Hm].
  - left. unfold tuple_message in Hm. cbn [concat op_parts tail] in Hm. apply app_inv_head in Hm.
    assert (Hp : SettleToken x = SettleToken y).
    { apply op_parts_inj; [done..|]. cbn [op_parts concat]. by f_equal. }
    by injection Hp.
  - right. exists (tuple_message x), (tuple_message y). split_and!; [set_solver..|done|exact He].
Qed.

(** An authorization keeps its withdrawal. *)
Lemma authorization_kept a w l w' z0 z :
  token_runs a w l w' → Forall token_op_safe l → auth_at w a z0 → auth_at w' a z →
  TokenWithdrawalAuthorization.tuple_hash z = TokenWithdrawalAuthorization.tuple_hash z0.
Proof.
  intros Hruns. revert z0. induction Hruns as [w|w cx op w1 l w2 He Hruns IH|w w1 l w2 Hd _ IH]; intros z0 Hs Ha Hz.
  3:{ apply IH; [done| |done]. unfold auth_at. by rewrite Hd. }
  - unfold auth_at in *. congruence.
  - apply list.Forall_cons in Hs as [Ho Hs]. apply (exec_token_step _ _ a) in He; [|right; by eauto|done].
    destruct He as [_ Hd|b y ck bump _ _ Hem _ _ _|b y x _ Hy _ _ _ Hy'].
    + apply IH; [done| |done]. unfold auth_at. by rewrite Hd.
    + exfalso. unfold auth_at in Ha. rewrite Hem in Ha. by vm_compute in Ha.
    + rewrite (IH _ Hs Hy' Hz). unfold auth_at in *. by simplify_eq.
Qed.

(** An authorization that appeared on the way was accumulated on the way. *)
Lemma authorization_accumulated a w l w' z :
  token_trace a w l w' → Forall token_op_safe l.*1 → data (acct w a) = [] → auth_at w' a z →
  ∃ l1 cx op wa l2 b x, l = l1 ++ (cx, op, wa) :: l2 ∧ is_consume op = false ∧
    op_authorization op = Some a ∧ op_bridge cx op wa b ∧ op_withdrawal b op = Some x ∧
    TokenWithdrawalAuthorization.tuple_hash z = token_withdrawal_tuple_hash x.
Proof.
  intros Hruns. induction Hruns as [w|w cx op w1 l w2 He Hruns IH|w w1 l w2 Hd _ IH]; intros Hs Hem Hz.
  - unfold auth_at in Hz. rewrite Hem in Hz. by vm_compute in Hz.
  - apply list.Forall_cons in Hs as [Ho Hs]. pose proof He as Hx. apply (exec_token_step _ _ a) in Hx; [|by left|done].
    destruct Hx as [_ Hd|b x ck bump Hn Ha _ Hb Hx Hau|b y x _ Hy _ _ _ _].
    + destruct IH as (l1 & cx' & op' & wa & l2 & b & x & -> & ?); [done|congruence|done|].
      by exists ((cx, op, w) :: l1), cx', op', wa, l2, b, x.
    + exists [], cx, op, w, l, b, x. split_and!; try done; [destruct op; [done|exfalso; by apply Hn]|].
      by rewrite (authorization_kept _ _ _ _ _ _ (token_trace_runs _ _ _ _ Hruns) Hs Hau Hz).
    + exfalso. unfold auth_at in Hy. rewrite Hem in Hy. by vm_compute in Hy.
  - apply IH; [done|congruence|done].
Qed.
End token_runs.

(** ** Example *)

Module TokenExample.
Import SessionExample.
Import SettlementExample.
Definition mint : Address := key 41.
Definition bridge_program : Address := key 42.
Definition token_program : Address := Eval vm_compute in token_program_id.
Definition sb : Address := Eval vm_compute in (find_session_bridge_pda portal session mint).1.
Definition vault : Address := Eval vm_compute in (find_program_address [TOKEN_VAULT_SEED_PREFIX; sb] bridge_program).1.
Definition er_account : Address := key 43.
Definition vault_tokens : Address := key 44.
Definition destination : Address := key 45.
Definition authorization : Address := Eval vm_compute in
  (find_token_withdrawal_authorization_pda portal checkpoint vault 500).1.
Definition cx : Ctx :=
  cx_of portal 150 [validator; session; checkpoint; sb; vault; authorization; mint; token_program; bridge_program]
    [validator; vault].
(** A registered bridge and its vault, and a settlement that has been opened. *)
Definition w1 : World :=
  put token_program (mkAccount 1 [] system_id true)
    (put bridge_program (mkAccount 1 [] system_id true)
       (put mint (mkAccount 1 (zeros 82) token_program false)
          (put vault (mkAccount 1 [] bridge_program false) w0))).
Abbreviation register := (process_register_session_bridge cx
  [validator; session; sb; mint; bridge_program; token_program; system_id]
  (RegisterSessionBridge.mk mint bridge_program vault token_program)).
Definition w2 : World :=
  run (process_begin_settlement cx [validator; session; checkpoint] (BeginSettlement.mk er_slot (key 31) effects))
    (run register w1).
Definition accumulate_op : TokenOp := TAccumulate
  [validator; session; sb; vault; er_account; vault_tokens; destination; mint; token_program; authorization; system_id]
  (AccumulateTokenWithdrawal.mk er_slot (key 31) 500 500 6).
(** The checkpoint is settled. *)
Definition w3 : World := run (exec_token false cx accumulate_op) w2.
Definition w4 : World :=
  put checkpoint (with_data (enc borsh (with_status CheckpointStatus.Settled checkpoint_state)) (acct w3 checkpoint)) w3.
Definition consume_accounts : list Address :=
  [validator; session; checkpoint; authorization; sb; vault; er_account; vault_tokens; destination; mint; token_program].
Definition consume_args : ConsumeTokenWithdrawal.t := ConsumeTokenWithdrawal.mk er_slot effects 500 500 6.
Definition consume_op : TokenOp := TConsume consume_accounts consume_args.
Definition w5 : World := run (exec_token false cx consume_op) w4.
Lemma accumulated : token_trace false authorization w2 [(cx, accumulate_op, w2)] w4.
Proof.
  destruct (run_Ok (exec_token false cx accumulate_op) w2) as [[] Hx]; [vm_compute; reflexivity|].
  eapply token_trace_cons; [exact Hx|]. apply (token_trace_other _ _ _ w4); [vm_compute; reflexivity|].
  apply token_trace_nil.
Qed.
Lemma ops_safe : Forall token_op_safe [(cx, accumulate_op); (cx, consume_op)].
Proof. apply Forall_cons; [|apply Forall_cons; [|apply Forall_nil]]; vm_compute; reflexivity. Qed.
End TokenExample.

(** ** Properties *)

(** C23: when, after any sequence of
    accumulations and consumptions that started without the authorization [a],
    a consumption with [a] succeeds, then the vault signed it, the checkpoint is
    settled, and some earlier instruction accumulated a withdrawal under [a].
    Take the withdrawal that instruction describes, with the bridge program its
    accounts were registered with at that moment, and the one consumed now, with
    the bridge program registered now: they are the same in every field (bridge
    program, registration, accounts, mint, amount, running total and decimals),
    unless the two are different messages with one SHA-256 hash. *)
Theorem token_withdrawal_paid_as_accumulated `{HostLaws} v2 a w l w1 cx validator session ck sb vault er vta dst mint
    tp rest args u w2 :
  token_trace v2 a w l w1 → Forall token_op_safe l.*1 → Forall op_wf l.*1.*2 → data (acct w a) = [] →
  let accounts := validator :: session :: ck :: a :: sb :: vault :: er :: vta :: dst :: mint :: tp :: rest in
  op_wf (TConsume accounts args) →
  process_consume_token_withdrawal v2 cx accounts args w1 = Ok (u, w2) →
  is_signer cx vault = true ∧
  (∃ c, try_from_slice (data (acct w1 ck)) = Some c ∧ Checkpoint.status c = CheckpointStatus.Settled) ∧
  ∃ l1 cx' op wa l2 b x b' y, l = l1 ++ (cx', op, wa) :: l2 ∧ is_consume op = false ∧
    op_authorization op = Some a ∧
    op_bridge v2 cx' op wa b ∧ op_withdrawal b op = Some x ∧
    load_bridge v2 cx session sb vault mint tp w1 = Ok (b', w1) ∧
    y = withdrawal_of b' sb er vault vta dst mint tp (ConsumeTokenWithdrawal.amount args)
          (ConsumeTokenWithdrawal.withdrawn args) (ConsumeTokenWithdrawal.decimals args) ∧
    (x = y ∨ sha_collision [tuple_message x] [tuple_message y]).
Proof.
  intros Hruns Hs Hwf He accounts Hwc Hr. apply process_consume_token_withdrawal_Ok in Hr.
  destruct args as [er_slot checksum amount withdrawn decimals].
  destruct Hr as (b' & z & c & Hb & Hv & _ & Hc & Hcs & _ & _ & Hz & _ & _ & Hh & _).
  split; [done|]. split; [by eauto|].
  destruct (authorization_accumulated _ _ _ _ _ _ Hruns Hs He Hz) as (l1 & cx' & op & wa & l2 & b & x & -> & ? & ? & Hob & Hox & Hx).
  eexists l1, cx', op, wa, l2, b, x, b', _. split_and!; try done. rewrite !fmap_app in Hwf. apply Forall_app in Hwf as [_ Hwf].
  apply list.Forall_cons in Hwf as [Hwo _]. apply tuple_hash_binding.
  - eapply op_withdrawal_wf; [exact Hwo|exact Hob|exact Hox].
  - eapply (op_withdrawal_wf v2 cx (TConsume accounts _)); [exact Hwc|exact Hb|done].
  - by rewrite <- Hx, Hh.
Qed.

Lemma token_withdrawal_paid_as_accumulated_witness :
  is_signer TokenExample.cx TokenExample.vault = true ∧
  ∃ l1 cx' op wa l2 b x, [(TokenExample.cx, TokenExample.accumulate_op, TokenExample.w2)] = l1 ++ (cx', op, wa) :: l2 ∧
    op_authorization op = Some TokenExample.authorization ∧ op_bridge false cx' op wa b ∧ op_withdrawal b op = Some x.
Proof.
  destruct (run_Ok (process_consume_token_withdrawal false TokenExample.cx TokenExample.consume_accounts
    TokenExample.consume_args) TokenExample.w4) as [[] Hr]; [vm_compute; reflexivity|].
  destruct (λ H1 H2 H3 H4, token_withdrawal_paid_as_accumulated _ TokenExample.authorization _ _ _ _ _ _ _ _ _ _ _ _ _ _ _ _ _ _
    TokenExample.accumulated H1 H2 H3 H4 Hr) as (Hv & _ & l1 & cx' & op & wa & l2 & b & x & b' & y & Hl & _ & Ha & Hb & Hx & _).
  - exact (Forall_take _ 1 _ TokenExample.ops_safe).
  - apply Forall_cons; [|apply Forall_nil]. split; [apply (bool_decide_unpack _); vm_compute; reflexivity|concrete_wf].
  - vm_compute. reflexivity.
  - split; [apply (bool_decide_unpack _); vm_compute; reflexivity|concrete_wf].
  - split; [exact Hv|]. exists l1, cx', op, wa, l2, b, x. split; [exact Hl|]. split; [exact Ha|]. split; [exact Hb|exact Hx].
Defined.

(** C22: along any sequence of accumulations and
    consumptions, whatever their order and arguments and whatever else happens to
    other accounts in between, at most one consumption succeeds for each
    authorization account. *)
Theorem token_withdrawal_consumed_once `{HostLaws} v2 a w l w' :
  token_runs v2 a w l w' → Forall token_op_safe l → auth_slot w a → (length (filter (consumes a) l) ≤ 1)%nat.
Proof. apply consumed_at_most_once. Qed.

Lemma token_withdrawal_consumed_once_witness :
  (length (filter (consumes TokenExample.authorization)
     [(TokenExample.cx, TokenExample.accumulate_op); (TokenExample.cx, TokenExample.consume_op)]) ≤ 1)%nat.
Proof.
  destruct (run_Ok (exec_token false TokenExample.cx TokenExample.accumulate_op) TokenExample.w2) as [[] H1];
    [vm_compute; reflexivity|].
  destruct (run_Ok (exec_token false TokenExample.cx TokenExample.consume_op) TokenExample.w4) as [[] H2];
    [vm_compute; reflexivity|].
  eapply (token_withdrawal_consumed_once false TokenExample.authorization TokenExample.w2 _ TokenExample.w5).
  - eapply token_runs_cons; [exact H1|]. apply (token_runs_other _ _ _ TokenExample.w4); [vm_compute; reflexivity|].
    eapply token_runs_cons; [exact H2|]. apply token_runs_nil.
  - exact TokenExample.ops_safe.
  - left. vm_compute. reflexivity.
Defined.
