(* ===== verification/BridgeState.v ===== *)
(** * The token bridge's accounts
      (zk-types/src/token_bridge.rs, token-bridge/src/state.rs)

    The accounts the bridge keeps: the vault of a session's mint, the token
    accounts of the rollup, the receipts that count deposits and the two progress
    counters of the deposits into a delegated account. *)

From Stdlib Require Import ZArith Lia.
From Stdlib Require Import Strings.Byte.
From stdpp Require Import base gmap list numbers.
From S2P Require Import Prelude Borsh Events Runtime State.

Module ErTokenAccount.
Record t : Set := mk {
  discriminator : Z;
  session_bridge : Hash32;
  owner : Hash32;
  mint : Hash32;
  amount : Z;
  bump : Z
}.
Definition to_tuple (x : t) :=
  (discriminator x, (session_bridge x, (owner x, (mint x, (amount x, bump x))))).
Definition of_tuple p : t :=
  let '(f0, (f1, (f2, (f3, (f4, f5))))) := p in mk f0 f1 f2 f3 f4 f5.
#[global] Instance tuple : Fields to_tuple of_tuple.
Proof. solve_fields. Qed.
#[global] Instance codec : Borsh t := struct to_tuple of_tuple
  (u8c *c bytes 32 *c bytes 32 *c bytes 32 *c u64c *c u8c).
#[global] Instance codec_ok : CodecOk (borsh (A:=t)).
Proof. solve_codec. Qed.
#[global] Instance codec_size : CodecSize (borsh (A:=t)) 106.
Proof. solve_size. Qed.
Definition SERIALIZED_LEN : nat := 106.
Definition DISCRIMINATOR : Z := 2.
Definition SEED_PREFIX : list byte := str "er_token".
Definition is_valid (x : t) : bool := discriminator x == DISCRIMINATOR.
End ErTokenAccount.

Module TokenDepositReceipt.
Record t : Set := mk {
  discriminator : Z;
  session_bridge : Hash32;
  er_token_account : Hash32;
  balance : Z;
  withdrawn : Z;
  bump : Z
}.
Definition to_tuple (x : t) :=
  (discriminator x, (session_bridge x, (er_token_account x, (balance x, (withdrawn x, bump x))))).
Definition of_tuple p : t :=
  let '(f0, (f1, (f2, (f3, (f4, f5))))) := p in mk f0 f1 f2 f3 f4 f5.
#[global] Instance tuple : Fields to_tuple of_tuple.
Proof. solve_fields. Qed.
#[global] Instance codec : Borsh t := struct to_tuple of_tuple
  (u8c *c bytes 32 *c bytes 32 *c u64c *c u64c *c u8c).
#[global] Instance codec_ok : CodecOk (borsh (A:=t)).
Proof. solve_codec. Qed.
#[global] Instance codec_size : CodecSize (borsh (A:=t)) 82.
Proof. solve_size. Qed.
Definition SERIALIZED_LEN : nat := 82.
Definition DISCRIMINATOR : Z := 3.
Definition SEED_PREFIX : list byte := str "token_deposit".
Definition is_valid (x : t) : bool := discriminator x == DISCRIMINATOR.
End TokenDepositReceipt.

Module TokenDepositProgress.
Record t : Set := mk {
  discriminator : Z;
  balance : Z;
  bump : Z
}.
Definition to_tuple (x : t) :=
  (discriminator x, (balance x, bump x)).
Definition of_tuple p : t :=
  let '(f0, (f1, f2)) := p in mk f0 f1 f2.
#[global] Instance tuple : Fields to_tuple of_tuple.
Proof. solve_fields. Qed.
#[global] Instance codec : Borsh t := struct to_tuple of_tuple
  (u8c *c u64c *c u8c).
#[global] Instance codec_ok : CodecOk (borsh (A:=t)).
Proof. solve_codec. Qed.
#[global] Instance codec_size : CodecSize (borsh (A:=t)) 10.
Proof. solve_size. Qed.
Definition SERIALIZED_LEN : nat := 10.
Definition ORIGIN_DISCRIMINATOR : Z := 4.
Definition CURSOR_DISCRIMINATOR : Z := 5.
Definition ORIGIN_SEED : list byte := str "token_deposit_origin".
Definition CURSOR_SEED : list byte := str "token_deposit_cursor".
End TokenDepositProgress.

Module TokenVault.
Record t : Set := mk {
  discriminator : Z;
  session_bridge : Hash32;
  mint : Hash32;
  vault_token_account : Hash32;
  token_program : Hash32;
  deposited : Z;
  withdrawn : Z;
  bump : Z
}.
Definition to_tuple (x : t) :=
  (discriminator x, (session_bridge x, (mint x, (vault_token_account x, (token_program x, (deposited x, (withdrawn x, bump x))))))).
Definition of_tuple p : t :=
  let '(f0, (f1, (f2, (f3, (f4, (f5, (f6, f7))))))) := p in mk f0 f1 f2 f3 f4 f5 f6 f7.
#[global] Instance tuple : Fields to_tuple of_tuple.
Proof. solve_fields. Qed.
#[global] Instance codec : Borsh t := struct to_tuple of_tuple
  (u8c *c bytes 32 *c bytes 32 *c bytes 32 *c bytes 32 *c u64c *c u64c *c u8c).
#[global] Instance codec_ok : CodecOk (borsh (A:=t)).
Proof. solve_codec. Qed.
#[global] Instance codec_size : CodecSize (borsh (A:=t)) 146.
Proof. solve_size. Qed.
Definition DISCRIMINATOR : Z := 1.
Definition SEED_PREFIX : list byte := str "token_vault".
Definition is_valid (x : t) : bool := discriminator x == DISCRIMINATOR.
End TokenVault.

Module BridgeBuffer.
Definition SEED_PREFIX : list byte := str "northstar-token-buffer".
End BridgeBuffer.
