(* ===== verification/Continuity.v ===== *)
(** * V2 checkpoints, bridges and token deposits
      (portal/src/instructions/continuity.rs, continuity/bridge.rs,
       continuity/token_credit.rs)

    A V2 checkpoint opens its two state roots: each names the prefix of the
    ingress log the rollup has processed.  The proposal is bound to the record at
    the end of that prefix; the commit makes the prefix the consumed one.

    [checkpoints_consume_ingress_in_order] shows that what the session counts as
    consumed is always a prefix of what has entered, and that committed
    checkpoints take consecutive pieces of it. *)

From Stdlib Require Import ZArith Lia.
From Stdlib Require Import Strings.Byte.
From stdpp Require Import base gmap list numbers.
From S2P Require Import Prelude Borsh Events Runtime State Commitments Frames Toy Pda Instruction SessionOps Delegation Settlement Deposits Ingress TokenWithdrawal Checkpoint BridgeState.

#[global] Instance state_root_opening_eq_dec : EqDecision StateRootOpeningV2.t.
Proof. solve_decision. Defined.
#[global] Instance session_bridge_v2_eq_dec : EqDecision SessionBridgeV2.t.
Proof. solve_decision. Defined.

Section handlers.
Context `{Host} (cx : Ctx).

Definition invalid_data {A} (r : result ContinuityError.t A) : prog A :=
  lift_err (λ _, into PortalError.InvalidAccountData) r.

(** ** ProposeCheckpointV2 *)

(** The openings continue the session's consumed prefix and open the two roots. *)
Definition check_openings (frame : SessionV2.t) (context : Hash32) (args : ProposeCheckpointV2.t) : prog unit :=
  let pre := ProposeCheckpointV2.pre args in
  let post := ProposeCheckpointV2.post args in
  let proposal := ProposeCheckpointV2.proposal args in
  bail_if ((StateRootOpeningV2.session_context pre != context)
           || (StateRootOpeningV2.session_context post != context)
           || (StateRootOpeningV2.ingress_count pre != SessionV2.consumed_ingress_count frame)
           || (StateRootOpeningV2.ingress_root pre != SessionV2.consumed_ingress_root frame)
           || (SessionV2.ingress_count frame <? StateRootOpeningV2.ingress_count post)
           || match checked_sub (StateRootOpeningV2.ingress_count post) (StateRootOpeningV2.ingress_count pre) with
              | Some count => ProposeCheckpoint.step_count proposal <? count
              | None => true
              end) PortalError.CheckpointPreviousRootMismatch ;;
  pre_root ← invalid_data (StateRootOpeningV2.commitment pre hash_parts);
  bail_if (ProposeCheckpoint.previous_state_root proposal != pre_root) PortalError.CheckpointPreviousRootMismatch ;;
  post_root ← invalid_data (StateRootOpeningV2.commitment post hash_parts);
  bail_if (ProposeCheckpoint.new_state_root proposal != post_root) PortalError.CheckpointPreviousRootMismatch.

(** [let first = if cursor.is_data_empty() { true } else { .. }] *)
Definition first_checkpoint (cursor : Address) : prog bool :=
  kx ← get_acct cursor;
  if is_data_empty kx then mret true
  else
    bail_if (negb (owned_by kx (program_id cx))) PortalError.InvalidAccountData ;;
    cursor_state ← load cursor (into PortalError.InvalidAccountData);
    mret (CheckpointCursor.latest_finalized_checkpoint cursor_state == zero32).

(** A first checkpoint starts from the empty state. *)
Definition check_first (cursor : Address) (context : Hash32) (pre : StateRootOpeningV2.t) : prog unit :=
  first ← first_checkpoint cursor;
  if first : bool then
    opening ← invalid_data (empty_state_opening_v2 context hash_parts);
    bail_if (pre != opening) PortalError.CheckpointPreviousRootMismatch
  else mret tt.

(** The record at the end of the prefix, or the System program for none. *)
Definition check_prefix (prefix : Address) (context : Hash32) (post : StateRootOpeningV2.t) : prog unit :=
  if 0 <? StateRootOpeningV2.ingress_count post then
    let '(expected, bump) := find_ingress_record_v2_pda (program_id cx) context
                               (StateRootOpeningV2.ingress_count post) in
    px ← get_acct prefix;
    bail_if ((prefix != expected) || negb (owned_by px (program_id cx))) PortalError.InvalidPdaSeeds ;;
    record ← load prefix (into PortalError.InvalidAccountData);
    invalid_data (IngressRecordV2.validate_next record context (StateRootOpeningV2.ingress_count post - 1)
                    (IngressRecordV2.previous_root record) hash_parts) ;;
    bail_if ((IngressRecordV2.bump record != bump)
             || (IngressRecordV2.root record != StateRootOpeningV2.ingress_root post)
             || (slot (clock cx) <? IngressRecordV2.l1_slot record)) PortalError.InvalidAccountData
  else bail_if (prefix != system_id) PortalError.InvalidPdaSeeds.

Definition input_context (context : Hash32) (args : ProposeCheckpointV2.t) : InputContextV2.t :=
  let pre := ProposeCheckpointV2.pre args in
  let post := ProposeCheckpointV2.post args in
  InputContextV2.mk context (ProposeCheckpointV2.readonly_l1_root args)
    (StateRootOpeningV2.ingress_count pre) (StateRootOpeningV2.ingress_root pre)
    (StateRootOpeningV2.ingress_count post) (StateRootOpeningV2.ingress_root post).

Definition binding_of (args : ProposeCheckpointV2.t) (checkpoint prefix : Address) (input : Hash32) (bump : Z) :
    CheckpointBindingV2.t :=
  CheckpointBindingV2.mk CheckpointBindingV2.DISCRIMINATOR checkpoint (ProposeCheckpointV2.pre args)
    (ProposeCheckpointV2.post args) prefix input bump.

(** The block that checks the proposal and creates the binding account. *)
Definition prepare_binding (proposer session checkpoint cursor binding prefix : Address)
    (args : ProposeCheckpointV2.t) : prog CheckpointBindingV2.t :=
  frame ← load_session_v2 cx session;
  context ← frame_context cx frame session;
  check_openings frame context args ;;
  check_first cursor context (ProposeCheckpointV2.pre args) ;;
  check_prefix prefix context (ProposeCheckpointV2.post args) ;;
  input ← invalid_data (InputContextV2.commitment (input_context context args) hash_parts);
  bail_if (input != ProposeCheckpoint.readonly_l1_root (ProposeCheckpointV2.proposal args))
    PortalError.InvalidAccountData ;;
  let '(expected, bump) := find_checkpoint_binding_v2_pda (program_id cx) checkpoint in
  bail_if (binding != expected) PortalError.InvalidPdaSeeds ;;
  let state := binding_of args checkpoint prefix input bump in
  rent ← lift_err id (try_minimum_balance (account_size state));
  initialize_pda_account cx proposer binding rent (account_size state) (program_id cx)
    [CheckpointBindingV2.SEED_PREFIX; checkpoint; le_bytes 1 bump] ;;
  mret state.

Definition process_propose_checkpoint_v2 (accounts : list Address) (args : ProposeCheckpointV2.t) : prog unit :=
  match accounts with
  | [proposer; session; checkpoint; cursor; _system; binding; prefix] =>
    binding_state ← prepare_binding proposer session checkpoint cursor binding prefix args;
    process_propose_checkpoint_versioned cx (take 5 accounts) (ProposeCheckpointV2.proposal args) true ;;
    store binding binding_state (into PortalError.InvalidAccountData)
  | _ => fail NotEnoughAccountKeys
  end.

(** ** CommitCheckpointV2 *)

(** The block that loads the frame and the binding and compares them. *)
Definition load_binding (session checkpoint binding : Address) : prog (SessionV2.t * CheckpointBindingV2.t) :=
  frame ← load_session_v2 cx session;
  let '(expected, bump) := find_checkpoint_binding_v2_pda (program_id cx) checkpoint in
  bx ← get_acct binding;
  bail_if ((binding != expected) || negb (owned_by bx (program_id cx))) PortalError.InvalidPdaSeeds ;;
  state ← load binding (into PortalError.InvalidAccountData);
  context ← frame_context cx frame session;
  checkpoint_state ← load checkpoint (into PortalError.InvalidAccountData);
  let pre := CheckpointBindingV2.pre state in
  let post := CheckpointBindingV2.post state in
  bail_if ((CheckpointBindingV2.discriminator state != CheckpointBindingV2.DISCRIMINATOR)
           || (CheckpointBindingV2.bump state != bump)
           || (CheckpointBindingV2.checkpoint state != checkpoint)
           || (StateRootOpeningV2.session_context pre != context)
           || (StateRootOpeningV2.session_context post != context)
           || (StateRootOpeningV2.ingress_count pre != SessionV2.consumed_ingress_count frame)
           || (StateRootOpeningV2.ingress_root pre != SessionV2.consumed_ingress_root frame)
           || (SessionV2.ingress_count frame <? StateRootOpeningV2.ingress_count post))
    PortalError.CheckpointPreviousRootMismatch ;;
  pre_root ← invalid_data (StateRootOpeningV2.commitment pre hash_parts);
  bail_if (Checkpoint.previous_state_root checkpoint_state != pre_root) PortalError.CheckpointPreviousRootMismatch ;;
  post_root ← invalid_data (StateRootOpeningV2.commitment post hash_parts);
  bail_if ((Checkpoint.new_state_root checkpoint_state != post_root)
           || (Checkpoint.readonly_l1_root checkpoint_state != CheckpointBindingV2.input_context_root state))
    PortalError.CheckpointPreviousRootMismatch ;;
  mret (frame, state).

Definition with_consumed_ingress (post : StateRootOpeningV2.t) (f : SessionV2.t) : SessionV2.t :=
  SessionV2.mk (SessionV2.discriminator f) (SessionV2.base f) (SessionV2.l1_genesis f) (SessionV2.profile f)
    (SessionV2.ingress_count f) (SessionV2.ingress_root f) (StateRootOpeningV2.ingress_count post)
    (StateRootOpeningV2.ingress_root post).

Definition process_commit_checkpoint_v2 (accounts : list Address) (args : CommitCheckpoint.t) : prog unit :=
  match accounts with
  | [_committer; session; checkpoint; _cursor; _proposer; binding] =>
    '(frame, binding_state) ← load_binding session checkpoint binding;
    process_commit_checkpoint_versioned cx (take 5 accounts) args true ;;
    store session (with_consumed_ingress (CheckpointBindingV2.post binding_state) frame)
      (into PortalError.InvalidAccountData)
  | _ => fail NotEnoughAccountKeys
  end.

(** ** RegisterSessionBridgeV2 *)

Definition process_register_session_bridge_v2 (accounts : list Address) (args : RegisterSessionBridge.t) : prog unit :=
  let '(RegisterSessionBridge.mk mint bridge_program vault token_program) := args in
  match accounts with
  | [payer; session; registration; mint_account; bridge_account; token_account; system] =>
    frame ← load_session_v2 cx session;
    bail_if (negb (is_signer cx payer) || (payer != Session.authority (SessionV2.base frame)))
      PortalError.Unauthorized ;;
    bail_if (negb (is_writable cx payer) || negb (is_writable cx registration) || (system != system_id))
      PortalError.InvalidAccountData ;;
    bail_if (Session.is_expired (SessionV2.base frame) (slot (clock cx))) PortalError.SessionExpired ;;
    bx ← get_acct bridge_account;
    tx ← get_acct token_account;
    err_if ((mint_account != mint) || (bridge_account != bridge_program) || (token_account != token_program)
            || (token_program != token_program_id) || negb (executable bx) || negb (executable tx))
      IncorrectProgramId ;;
    mx ← get_acct mint_account;
    is_initialized ← lift_err id (mint_is_initialized mx);
    bail_if (negb is_initialized) PortalError.InvalidAccountData ;;
    context ← frame_context cx frame session;
    let '(expected, bump) := find_session_bridge_v2_pda (program_id cx) context mint in
    let expected_vault := (find_program_address [TOKEN_VAULT_SEED_PREFIX; expected] bridge_program).1 in
    bail_if ((registration != expected) || (vault != expected_vault)) PortalError.InvalidPdaSeeds ;;
    let state := SessionBridgeV2.mk SessionBridgeV2.DISCRIMINATOR
                   (SessionBridge.mk SessionBridge.DISCRIMINATOR session mint bridge_program vault token_program bump)
                   context in
    rx ← get_acct registration;
    if negb (is_data_empty rx) then
      bail_if (negb (owned_by rx (program_id cx))) PortalError.InvalidAccountData ;;
      existing ← load registration (into PortalError.InvalidAccountData);
      bail_if (negb (SessionBridgeV2.is_valid existing && (existing == state))) PortalError.InvalidAccountData
    else
      rent ← lift_err id (try_minimum_balance (account_size state));
      initialize_pda_account cx payer registration rent (account_size state) (program_id cx)
        [SessionBridgeV2.SEED_PREFIX; context; mint; le_bytes 1 bump] ;;
      store registration state InvalidAccountData
  | _ => fail NotEnoughAccountKeys
  end.

(** ** RecordTokenDepositV2 *)

Definition fixed_state {A} `{Borsh A} (account : Address) (n : nat) : prog A :=
  x ← get_acct account;
  bail_if (bool_decide (length (data x) ≠ n)) PortalError.InvalidAccountData ;;
  load account (into PortalError.InvalidAccountData).

(** The registration of the session's bridge, checked against the session. *)
Definition load_registry (session registration : Address) (context : Hash32) : prog SessionBridgeV2.t :=
  rx ← get_acct registration;
  bail_if (negb (owned_by rx (program_id cx)) || executable rx) PortalError.InvalidAccountData ;;
  registry ← load registration (into PortalError.InvalidAccountData);
  let base := SessionBridgeV2.base registry in
  let '(expected, bump) := find_session_bridge_v2_pda (program_id cx) context (SessionBridge.mint base) in
  bail_if (negb (SessionBridgeV2.is_valid registry) || (SessionBridgeV2.session_context registry != context)
           || (SessionBridge.session base != session) || (registration != expected)
           || (SessionBridge.bump base != bump) || (SessionBridge.token_program base != token_program_id))
    PortalError.InvalidAccountData ;;
  mret registry.

(** The bridge's vault, whose signature authenticates the call. *)
Definition check_vault (registration vault : Address) (base : SessionBridge.t) : prog unit :=
  let bridge := SessionBridge.bridge_program base in
  let vault_key := (find_program_address [TOKEN_VAULT_SEED_PREFIX; registration] bridge).1 in
  vx ← get_acct vault;
  bail_if ((vault != vault_key) || (SessionBridge.vault base != vault_key) || negb (owned_by vx bridge)
           || executable vx) PortalError.Unauthorized.

(** The rollup's token account is delegated to this session by the bridge. *)
Definition check_delegation (account delegation bridge : Address) (grid_id : Z) : prog unit :=
  let '(expected, bump) := find_delegation_record_pda (program_id cx) account in
  dx ← get_acct delegation;
  ax ← get_acct account;
  bail_if ((delegation != expected) || negb (owned_by dx (program_id cx)) || negb (owned_by ax (program_id cx))
           || executable ax) PortalError.InvalidAccountData ;;
  binding ← load delegation (into PortalError.InvalidAccountData);
  bail_if (negb (DelegationRecord.is_valid binding) || (DelegationRecord.bump binding != bump)
           || (DelegationRecord.owner_program binding != bridge) || (DelegationRecord.grid_id binding != grid_id))
    PortalError.InvalidAccountData.

Definition check_er_account (account registration bridge mint : Address) : prog unit :=
  er ← fixed_state account ErTokenAccount.SERIALIZED_LEN;
  let '(expected, bump) := find_program_address [ErTokenAccount.SEED_PREFIX; registration; ErTokenAccount.owner er] bridge in
  bail_if (negb (ErTokenAccount.is_valid er) || (ErTokenAccount.session_bridge er != registration)
           || (ErTokenAccount.mint er != mint) || (account != expected) || (ErTokenAccount.bump er != bump))
    PortalError.InvalidAccountData.

Definition load_deposited (registration account receipt bridge : Address) : prog TokenDepositReceipt.t :=
  let '(expected, bump) := find_program_address [TokenDepositReceipt.SEED_PREFIX; registration; account] bridge in
  rx ← get_acct receipt;
  bail_if ((receipt != expected) || negb (owned_by rx bridge) || executable rx) PortalError.InvalidAccountData ;;
  deposited ← fixed_state receipt TokenDepositReceipt.SERIALIZED_LEN;
  bail_if (negb (TokenDepositReceipt.is_valid deposited) || (TokenDepositReceipt.bump deposited != bump)
           || (TokenDepositReceipt.session_bridge deposited != registration)
           || (TokenDepositReceipt.er_token_account deposited != account)
           || (TokenDepositReceipt.balance deposited <? TokenDepositReceipt.withdrawn deposited))
    PortalError.InvalidAccountData ;;
  mret deposited.

(** The balance at the time of delegation; the deposit lies above it. *)
Definition load_baseline (account origin bridge : Address) (balance amount : Z) : prog TokenDepositProgress.t :=
  let '(expected, bump) := find_program_address [TokenDepositProgress.ORIGIN_SEED; account] bridge in
  ox ← get_acct origin;
  bail_if ((origin != expected) || negb (owned_by ox bridge) || executable ox) PortalError.InvalidAccountData ;;
  baseline ← fixed_state origin TokenDepositProgress.SERIALIZED_LEN;
  bail_if ((TokenDepositProgress.discriminator baseline != TokenDepositProgress.ORIGIN_DISCRIMINATOR)
           || (TokenDepositProgress.bump baseline != bump)
           || match checked_sub balance (TokenDepositProgress.balance baseline) with
              | Some delta => delta <? amount
              | None => true
              end) PortalError.InvalidAccountData ;;
  mret baseline.

Definition process_record_token_deposit_v2 (accounts : list Address) (args : RecordTokenDepositV2.t) : prog unit :=
  let amount := RecordTokenDepositV2.amount args in
  match accounts with
  | [payer; system; session; registration; vault; account; delegation; receipt; origin; ingress] =>
    bail_if (negb (is_signer cx payer) || negb (is_signer cx vault)) PortalError.Unauthorized ;;
    err_if ((system != system_id) || (amount =? 0)) InvalidInstructionData ;;
    frame ← load_session_v2 cx session;
    context ← frame_context cx frame session;
    registry ← load_registry session registration context;
    let base := SessionBridgeV2.base registry in
    let bridge := SessionBridge.bridge_program base in
    check_vault registration vault base ;;
    check_delegation account delegation bridge (Session.grid_id (SessionV2.base frame)) ;;
    check_er_account account registration bridge (SessionBridge.mint base) ;;
    deposited ← load_deposited registration account receipt bridge;
    baseline ← load_baseline account origin bridge (TokenDepositReceipt.balance deposited) amount;
    append_ingress_v2 cx payer session ingress
      (IngressPayloadV2.TokenDeposit bridge registration account receipt (SessionBridge.mint base)
         (SessionBridge.token_program base) (TokenDepositProgress.balance baseline) amount
         (TokenDepositReceipt.balance deposited))
  | _ => fail NotEnoughAccountKeys
  end.
End handlers.

(** ** What the handlers do *)

Ltac distinct :=
  repeat (apply list.NoDup_cons; split; [rewrite ?not_elem_of_cons; split_and!; first [assumption|apply not_eq_sym; assumption|apply not_elem_of_nil]|]);
  first [apply list.NoDup_singleton|apply base.NoDup_nil_2].

Section specs.
Context `{HostLaws} (cx : Ctx).

#[global] Instance check_openings_read_only f c a : ReadOnly (check_openings f c a).
Proof. unfold check_openings, invalid_data. apply _. Qed.
#[global] Instance first_checkpoint_read_only k : ReadOnly (first_checkpoint cx k).
Proof. unfold first_checkpoint. apply _. Qed.
#[global] Instance check_first_read_only k c o : ReadOnly (check_first cx k c o).
Proof. unfold check_first, invalid_data. apply _. Qed.
#[global] Instance check_prefix_read_only p c o : ReadOnly (check_prefix cx p c o).
Proof. unfold check_prefix, invalid_data. apply _. Qed.
#[global] Instance load_binding_read_only s c b : ReadOnly (load_binding cx s c b).
Proof. unfold load_binding, invalid_data. apply _. Qed.
#[global] Instance fixed_state_read_only {A} `{Borsh A} a n : ReadOnly (fixed_state (A:=A) a n).
Proof. unfold fixed_state, load. apply _. Qed.
#[global] Instance load_registry_read_only s r c : ReadOnly (load_registry cx s r c).
Proof. unfold load_registry, load. apply _. Qed.
#[global] Instance check_vault_read_only r v b : ReadOnly (check_vault r v b).
Proof. unfold check_vault. apply _. Qed.
#[global] Instance check_delegation_read_only a d b g : ReadOnly (check_delegation cx a d b g).
Proof. unfold check_delegation, load. apply _. Qed.
#[global] Instance check_er_account_read_only a r b m : ReadOnly (check_er_account a r b m).
Proof. unfold check_er_account. apply _. Qed.
#[global] Instance load_deposited_read_only r a rc b : ReadOnly (load_deposited r a rc b).
Proof. unfold load_deposited. apply _. Qed.
#[global] Instance load_baseline_read_only a o b n m : ReadOnly (load_baseline a o b n m).
Proof. unfold load_baseline. apply _. Qed.

Definition binding_address (checkpoint : Address) : Address :=
  (find_checkpoint_binding_v2_pda (program_id cx) checkpoint).1.

(** An opening of the prefix [l] of a session's log. *)
Definition opens_prefix (o : StateRootOpeningV2.t) (ctx : Hash32) (l : list IngressRecordV2.t) : Prop :=
  StateRootOpeningV2.session_context o = ctx ∧ StateRootOpeningV2.ingress_count o = Z.of_nat (length l) ∧
  StateRootOpeningV2.ingress_root o = chain_root zero32 l.

Lemma opening_commitment_Ok o r :
  StateRootOpeningV2.commitment o hash_parts = Ok r →
  (StateRootOpeningV2.ingress_count o = 0 ↔ StateRootOpeningV2.ingress_root o = zero32).
Proof.
  unfold StateRootOpeningV2.commitment. repeat case_match; try done. intros _. bprop.
  match goal with X : Bool.eqb _ _ = true |- _ => apply eqb_prop in X; rename X into E end.
  rewrite <- Z.eqb_eq, E. apply bool_decide_eq_true.
Qed.

Lemma check_openings_Ok f ctx args w u w' :
  check_openings f ctx args w = Ok (u, w') →
  let pre := ProposeCheckpointV2.pre args in
  let post := ProposeCheckpointV2.post args in
  let p := ProposeCheckpointV2.proposal args in
  StateRootOpeningV2.session_context pre = ctx ∧ StateRootOpeningV2.session_context post = ctx ∧
  StateRootOpeningV2.ingress_count pre = SessionV2.consumed_ingress_count f ∧
  StateRootOpeningV2.ingress_root pre = SessionV2.consumed_ingress_root f ∧
  StateRootOpeningV2.ingress_count pre ≤ StateRootOpeningV2.ingress_count post ≤ SessionV2.ingress_count f ∧
  StateRootOpeningV2.ingress_count post ≤ StateRootOpeningV2.ingress_count pre + ProposeCheckpoint.step_count p ∧
  StateRootOpeningV2.commitment pre hash_parts = Ok (ProposeCheckpoint.previous_state_root p) ∧
  StateRootOpeningV2.commitment post hash_parts = Ok (ProposeCheckpoint.new_state_root p).
Proof.
  unfold check_openings, invalid_data. intros Hr. cbv zeta in *.
  mstep Hr as [] w1 G1. mstep Hr as r1 w1 G2. mstep Hr as [] w1 G3. mstep Hr as r2 w1 G4.
  apply err_if_Ok in Hr as [Hr _]. bprop. case_match eqn:Hc; bprop; [|done]. subst. split_and!; try done; try lia; congruence.
Qed.

Lemma chain_root_take l i x : l !! i = Some x → chain_root zero32 (take (S i) l) = IngressRecordV2.root x.
Proof. intros Hx. by rewrite (take_S_r _ _ _ Hx), chain_root_snoc. Qed.

(** The end of the prefix is the root of the log's own record there. *)
Lemma check_prefix_Ok prefix session f ctx l post r w u w' :
  ingress_log cx w session f ctx l → StateRootOpeningV2.session_context post = ctx →
  0 ≤ StateRootOpeningV2.ingress_count post ≤ SessionV2.ingress_count f →
  StateRootOpeningV2.commitment post hash_parts = Ok r →
  check_prefix cx prefix ctx post w = Ok (u, w') →
  opens_prefix post ctx (take (Z.to_nat (StateRootOpeningV2.ingress_count post)) l).
Proof.
  intros (_ & Hlen & _ & _ & Hrec) Hpc Hn Hcm Hr. pose proof (opening_commitment_Ok _ _ Hcm) as Hz.
  set (n := StateRootOpeningV2.ingress_count post) in *. unfold opens_prefix. fold n.
  rewrite length_take, Nat2Z.inj_min, Z2Nat.id, <- Hlen, Z.min_l by lia. split_and!; [done..|].
  unfold check_prefix in Hr. fold n in Hr. destruct (Z.ltb_spec 0 n).
  - assert (∃ i, n = Z.of_nat i + 1) as [i Hi] by (exists (Z.to_nat (n - 1)); lia).
    destruct (lookup_lt_is_Some_2 l i) as [x Hx]; [lia|]. specialize (Hrec _ _ Hx).
    unfold record_address in Hrec. rewrite <- Hi in Hrec.
    destruct (find_ingress_record_v2_pda _ _ _) as [k b]. cbn [fst] in Hrec.
    mstep Hr as px w1 G1. mstep Hr as [] w1 G2. bprop. subst k.
    mstep Hr as y w1 G3. apply load_Ok in G3 as [G3 _]. assert (y = x) as -> by congruence.
    mstep Hr as [] w1 G4. apply err_if_Ok in Hr as [Hr _]. bprop.
    replace (Z.to_nat n) with (S i) by lia. rewrite (chain_root_take _ _ _ Hx). congruence.
  - replace n with 0 by lia. rewrite take_0. apply Hz. lia.
Qed.

Lemma prepare_binding_Ok proposer session checkpoint cursor binding prefix args w b w' f ctx l :
  proposer ≠ binding → ingress_log cx w session f ctx l →
  0 ≤ StateRootOpeningV2.ingress_count (ProposeCheckpointV2.post args) →
  prepare_binding cx proposer session checkpoint cursor binding prefix args w = Ok (b, w') →
  let pre := ProposeCheckpointV2.pre args in
  let post := ProposeCheckpointV2.post args in
  let p := ProposeCheckpointV2.proposal args in
  SessionV2.is_valid f = true ∧ owner (acct w session) = program_id cx ∧
  binding = binding_address checkpoint ∧ data (acct w binding) = [] ∧
  acct w' binding = mkAccount (lamports (acct w' binding)) (zeros (account_size b)) (program_id cx) (executable (acct w binding)) ∧
  b = binding_of args checkpoint prefix (ProposeCheckpoint.readonly_l1_root p)
        (find_checkpoint_binding_v2_pda (program_id cx) checkpoint).2 ∧
  StateRootOpeningV2.session_context pre = ctx ∧
  StateRootOpeningV2.ingress_count pre = SessionV2.consumed_ingress_count f ∧
  StateRootOpeningV2.ingress_root pre = SessionV2.consumed_ingress_root f ∧
  StateRootOpeningV2.ingress_count pre ≤ StateRootOpeningV2.ingress_count post ≤ SessionV2.ingress_count f ∧
  StateRootOpeningV2.ingress_count post ≤ StateRootOpeningV2.ingress_count pre + ProposeCheckpoint.step_count p ∧
  StateRootOpeningV2.commitment pre hash_parts = Ok (ProposeCheckpoint.previous_state_root p) ∧
  StateRootOpeningV2.commitment post hash_parts = Ok (ProposeCheckpoint.new_state_root p) ∧
  opens_prefix post ctx (take (Z.to_nat (StateRootOpeningV2.ingress_count post)) l) ∧
  (∀ a, a ≠ binding → data (acct w' a) = data (acct w a) ∧ owner (acct w' a) = owner (acct w a)) ∧
  (∀ a, a ≠ proposer → a ≠ binding → acct w' a = acct w a).
Proof.
  intros Hpb Hl Hn0 Hr. cbv zeta. unfold prepare_binding in Hr.
  mstep Hr as f2 w1 Hf. apply load_session_v2_Ok in Hf as (_ & Ho & Hf & Hv).
  pose proof Hl as [[Hf2 Hctx2] _]. assert (f2 = f) as -> by congruence.
  mstep Hr as ctx1 w1 Hctx. unfold frame_context in Hctx. apply lift_err_Ok in Hctx as [Hctx _].
  assert (ctx1 = ctx) as -> by (unfold hash_parts in Hctx; congruence).
  mstep Hr as [] w1 G1. apply check_openings_Ok in G1 as (?&?&?&?&?&?&?&?).
  mstep Hr as [] w1 G2. mstep Hr as [] w1 G3. eapply check_prefix_Ok in G3; [|done|done|lia|done].
  mstep Hr as i w1 G4. mstep Hr as [] w1 G5. unfold binding_address.
  destruct (find_checkpoint_binding_v2_pda _ _) as [k bump]. cbn [fst snd].
  mstep Hr as [] w1 G6. bprop. mstep Hr as rent w1 G7. mstep Hr as [] w1 G8. apply ret_Ok in Hr as [<- ->].
  apply initialize_created in G8 as (Hi & Hp & Hfr & Hd & _); [|done].
  split_and!; try done; try lia; try congruence.
  - by rewrite Hi.
  - intros a Ha. destruct (decide (a = proposer)) as [->|]; [by rewrite Hp|by rewrite Hfr].
Qed.

Lemma binding_of_wf args checkpoint prefix :
  wf borsh args → is_key checkpoint → is_key prefix →
  wf borsh (binding_of args checkpoint prefix (ProposeCheckpoint.readonly_l1_root (ProposeCheckpointV2.proposal args))
    (find_checkpoint_binding_v2_pda (program_id cx) checkpoint).2).
Proof.
  intros (Hp & Hpre & Hpost & _) ??. assert (length CheckpointBindingV2.DISCRIMINATOR = 8%nat) by done.
  assert (is_u8 (find_checkpoint_binding_v2_pda (program_id cx) checkpoint).2) by apply find_bump_range.
  destruct Hp as (?&?&?&?&?&?&?&?&?&?). wf_fields.
Qed.

(** A V2 proposal leaves the proposed checkpoint, the cursor pointing to it and a
    new binding account that keeps the two openings. *)
Lemma process_propose_checkpoint_v2_Ok proposer session checkpoint cursor sys binding prefix args w u w' f ctx l :
  proposer ∉ [checkpoint; cursor; binding] → wf borsh args → is_key prefix → is_u64 (slot (clock cx)) →
  ingress_log cx w session f ctx l →
  process_propose_checkpoint_v2 cx [proposer; session; checkpoint; cursor; sys; binding; prefix] args w = Ok (u, w') →
  let pre := ProposeCheckpointV2.pre args in
  let post := ProposeCheckpointV2.post args in
  let p := ProposeCheckpointV2.proposal args in
  let b := binding_of args checkpoint prefix (ProposeCheckpoint.readonly_l1_root p)
             (find_checkpoint_binding_v2_pda (program_id cx) checkpoint).2 in
  ∃ s k, propose_guards cx w proposer session checkpoint cursor p true s k ∧
    SessionV2.is_valid f = true ∧ binding = binding_address checkpoint ∧ data (acct w binding) = [] ∧
    cursor = (find_checkpoint_cursor_pda (program_id cx) session).1 ∧ NoDup [session; checkpoint; cursor; binding] ∧
    StateRootOpeningV2.session_context pre = ctx ∧
    StateRootOpeningV2.ingress_count pre = SessionV2.consumed_ingress_count f ∧
    StateRootOpeningV2.ingress_root pre = SessionV2.consumed_ingress_root f ∧
    StateRootOpeningV2.ingress_count pre ≤ StateRootOpeningV2.ingress_count post ≤ SessionV2.ingress_count f ∧
    StateRootOpeningV2.ingress_count post ≤ StateRootOpeningV2.ingress_count pre + ProposeCheckpoint.step_count p ∧
    opens_prefix post ctx (take (Z.to_nat (StateRootOpeningV2.ingress_count post)) l) ∧
    (data (acct w cursor) = [] ∧ CheckpointCursor.latest_finalized_checkpoint k = zero32 ∨ cursor_at w cursor k) ∧
    (length (data (acct w checkpoint)) ∈ [0; 380]%nat) ∧
    try_from_slice (data (acct w' binding)) = Some b ∧
    checkpoint_at w' checkpoint (proposal cx proposer session p) ∧
    cursor_at w' cursor (with_active checkpoint (ProposeCheckpoint.er_slot p) k) ∧
    (∀ a, a ∉ [checkpoint; cursor; binding] → data (acct w' a) = data (acct w a)).
Proof.
  intros Hne Hargs Hpk Hsl Hl Hr. nodup. cbv zeta. unfold process_propose_checkpoint_v2 in Hr.
  apply bind_Ok in Hr as (b & w1 & G1 & Hr).
  eapply prepare_binding_Ok in G1
    as (Hv & _ & Hb & Hbe & Hba & Hbs & ? & ? & ? & ? & ? & _ & _ & Hop & Hdo & _); [|done|done|].
  2: { destruct Hargs as (_ & _ & (?&?&?&[? _]&?) & _). done. }
  pose proof (proj1 (proj1 Hl)) as Hf.
  assert (Hsb : session ≠ binding). { intros ->. rewrite Hbe in Hf. by vm_compute in Hf. }
  mstep Hr as [] w2 G2. cbn [take] in G2. pose proof Hargs as [Hp _].
  apply process_propose_checkpoint_Ok in G2
    as (s & k & Hg & Hck & Hcc & Hk & Hc & Hc' & Hk' & _ & _ & _ & Hda & _); [|done..].
  assert (Hckk : is_key checkpoint) by (rewrite (pg_checkpoint _ _ _ _ _ _ _ _ _ _ Hg); apply find_address_length).
  assert (Hbl : length (data (acct w1 binding)) = 377%nat).
  { rewrite Hba. cbn [data]. rewrite length_zeros, Hbs. by apply codec_size, binding_of_wf. }
  assert (Hbc : binding ≠ checkpoint).
  { intros E. rewrite E in Hbl. destruct Hc as [Hc|(c & Hc & _)]; [by rewrite Hc in Hbl|].
    by rewrite (sized (n:=380) _ _ Hc) in Hbl. }
  assert (Hbk : binding ≠ cursor).
  { intros E. rewrite E in Hbl. destruct Hk as [[Hk _]|[Hk _]]; [by rewrite Hk in Hbl|].
    by rewrite (sized (n:=153) _ _ Hk) in Hbl. }
  assert (Hfl : length (data (acct w1 session)) = 378%nat).
  { rewrite (proj1 (Hdo _ Hsb)). by apply (sized (n:=378)) in Hf. }
  apply (store_sized_Ok (n:=377)) in Hr as ->; [|by rewrite (proj1 (Hda _ Hbc Hbk))|subst b; by apply binding_of_wf].
  rewrite (acct_put_ne _ _ _ checkpoint), (acct_put_ne _ _ _ cursor) by done.
  assert (Hsc : session ≠ checkpoint).
  { intros E. rewrite E in Hfl. destruct Hc as [Hc|(c & Hc & _)]; [by rewrite Hc in Hfl|].
    by rewrite (sized (n:=380) _ _ Hc) in Hfl. }
  assert (Hsk : session ≠ cursor).
  { intros E. rewrite E in Hfl. destruct Hk as [[Hk _]|[Hk _]]; [by rewrite Hk in Hfl|].
    by rewrite (sized (n:=153) _ _ Hk) in Hfl. }
  exists s, k. split_and!; try done; try lia.
  - destruct Hg. split; try done.
    + unfold session_at in *. by rewrite <- (proj1 (Hdo _ Hsb)).
    + by rewrite <- (proj1 (Hdo _ Hsb)).
  - distinct.
  - rewrite (proj1 (Hdo cursor ltac:(done))) in Hk. destruct Hk as [[Hk ->]|[Hk _]]; [by left|by right].
  - rewrite (proj1 (Hdo checkpoint ltac:(done))) in Hc.
    destruct Hc as [->|(c & Hc & _)]; [by left|rewrite (sized (n:=380) _ _ Hc); right; by left].
  - rewrite acct_put_eq. cbn [data with_data]. subst b. by apply try_from_slice_enc, binding_of_wf.
  - intros a Ha. nodup. rewrite acct_put_ne by done. rewrite (proj1 (Hda a ltac:(done) ltac:(done))). by apply Hdo.
Qed.

(** A V2 commit takes the binding's prefix as the consumed one. *)
Lemma process_commit_checkpoint_v2_Ok committer session checkpoint cursor proposer binding args w u w' f ctx l :
  ingress_log cx w session f ctx l →
  process_commit_checkpoint_v2 cx [committer; session; checkpoint; cursor; proposer; binding] args w = Ok (u, w') →
  let er := CommitCheckpoint.er_slot args in
  ∃ c k b, SessionV2.is_valid f = true ∧ binding = binding_address checkpoint ∧
    try_from_slice (data (acct w binding)) = Some b ∧ checkpoint_at w checkpoint c ∧ cursor_at w cursor k ∧
    cursor = (find_checkpoint_cursor_pda (program_id cx) session).1 ∧ NoDup [session; checkpoint; cursor] ∧
    Checkpoint.status c = CheckpointStatus.Pending ∧ Checkpoint.challenge_deadline_l1_slot c ≤ slot (clock cx) ∧
    StateRootOpeningV2.session_context (CheckpointBindingV2.pre b) = ctx ∧
    StateRootOpeningV2.session_context (CheckpointBindingV2.post b) = ctx ∧
    StateRootOpeningV2.ingress_count (CheckpointBindingV2.pre b) = SessionV2.consumed_ingress_count f ∧
    StateRootOpeningV2.ingress_root (CheckpointBindingV2.pre b) = SessionV2.consumed_ingress_root f ∧
    StateRootOpeningV2.ingress_count (CheckpointBindingV2.post b) ≤ SessionV2.ingress_count f ∧
    StateRootOpeningV2.commitment (CheckpointBindingV2.pre b) hash_parts = Ok (Checkpoint.previous_state_root c) ∧
    StateRootOpeningV2.commitment (CheckpointBindingV2.post b) hash_parts = Ok (Checkpoint.new_state_root c) ∧
    try_from_slice (data (acct w' session)) = Some (with_consumed_ingress (CheckpointBindingV2.post b) f) ∧
    cursor_at w' cursor (with_finalized checkpoint er (Checkpoint.new_state_root c) k) ∧
    length (data (acct w' checkpoint)) = 380%nat ∧
    (∀ a, a ∉ [session; checkpoint; cursor] → data (acct w' a) = data (acct w a)).
Proof.
  intros Hl Hr. cbv zeta. unfold process_commit_checkpoint_v2 in Hr.
  apply bind_Ok in Hr as ([f2 b] & w1 & G & Hr). pose proof (read_only _ _ _ G). subst w1.
  unfold load_binding, invalid_data in G. mstep G as f3 w1 G1. apply load_session_v2_Ok in G1 as (_ & _ & Hf & Hv).
  unfold binding_address. destruct (find_checkpoint_binding_v2_pda _ _) as [kb bump]. cbn [fst].
  mstep G as bx w1 G2. mstep G as [] w1 G3. mstep G as st w1 G4. mstep G as c1 w1 G5. unfold frame_context in G5.
  mstep G as c w1 G6. cbv zeta in G. mstep G as [] w1 G7. mstep G as r1 w1 G8. mstep G as [] w1 G9.
  mstep G as r2 w1 G10. mstep G as [] w1 G11. apply ret_Ok in G as [E _]. injection E as -> ->.
  apply load_Ok in G4 as [G4 _], G6 as [G6 _]. apply lift_err_Ok in G5 as [G5 _].
  pose proof Hl as [[Hf2 Hctx2] _]. assert (f2 = f) as -> by congruence.
  assert (c1 = ctx) as -> by (unfold hash_parts in G5; congruence). clear Hf2 Hctx2.
  mstep Hr as [] w2 G12. cbn [take] in G12.
  apply process_commit_checkpoint_Ok in G12
    as (s & c2 & k & _ & _ & Hc & Hk & _ & Hkp & _ & _ & Hst & _ & Hdl & _ & _ & _ & _ & _ & Hc' & Hk' & _ & Hda & _).
  assert (c2 = c) as -> by congruence. bprop. subst kb r1 r2.
  pose proof (sized (n:=378) _ _ Hf) as Hfl. pose proof (sized (n:=380) _ _ Hc) as Hcl.
  pose proof (sized (n:=153) _ _ Hk) as Hkl.
  assert (Hsc : session ≠ checkpoint) by (intros E; rewrite E, Hcl in Hfl; done).
  assert (Hsk : session ≠ cursor) by (intros E; rewrite E, Hkl in Hfl; done).
  assert (Hck : checkpoint ≠ cursor) by (intros E; rewrite E, Hkl in Hcl; done).
  assert (Hwf : wf borsh (with_consumed_ingress (CheckpointBindingV2.post b) f)).
  { apply decoded_wf in Hf as (?&?&?&?&?&?&?&?). apply decoded_wf in G4 as (_&_&_&(?&?&?&?&?)&_). wf_fields. }
  apply (store_sized_Ok (n:=378)) in Hr as ->; [|by rewrite Hda|done].
  exists c, k, b. rewrite acct_put_eq, !acct_put_ne by done. split_and!; try done.
  - distinct.
  - cbn [data with_data]. by apply try_from_slice_enc.
  - by apply (sized (n:=380)) in Hc'.
  - intros a Ha. nodup. rewrite acct_put_ne by done. by apply Hda.
Qed.

(** *** Recording a token deposit *)

Lemma load_registry_Ok session registration ctx w g w' :
  load_registry cx session registration ctx w = Ok (g, w') →
  try_from_slice (data (acct w registration)) = Some g ∧ SessionBridgeV2.is_valid g = true ∧
  owner (acct w registration) = program_id cx ∧ is_key registration ∧
  SessionBridge.token_program (SessionBridgeV2.base g) = token_program_id.
Proof.
  intros Hr. unfold load_registry, owned_by in Hr. mstep Hr as x w1 K1. mstep Hr as [] w1 K2. mstep Hr as g' w1 K3.
  cbv zeta in Hr. unfold find_session_bridge_v2_pda in Hr.
  match type of Hr with context [find_program_address ?s ?p] => pose proof (find_address_length s p) as Hk end.
  destruct (find_program_address _ _) as [k b]. cbn [fst] in Hk.
  mstep Hr as [] w1 K4. apply ret_Ok in Hr as [-> _]. apply load_Ok in K3 as [K3 _]. bprop. by subst k.
Qed.

Lemma fixed_state_Ok {A} `{!Borsh A} a n w (x : A) w' :
  fixed_state a n w = Ok (x, w') → try_from_slice (data (acct w a)) = Some x.
Proof.
  unfold fixed_state. intros Hr. mstep Hr as y w1 K1. mstep Hr as [] w1 K2. by apply load_Ok in Hr as [Hr _].
Qed.

Lemma check_er_account_Ok account registration bridge mint w u w' :
  check_er_account account registration bridge mint w = Ok (u, w') →
  is_key account ∧ ∃ t, try_from_slice (data (acct w account)) = Some t ∧ ErTokenAccount.mint t = mint.
Proof.
  intros Hr. unfold check_er_account in Hr. mstep Hr as t w1 K1. apply fixed_state_Ok in K1.
  match type of Hr with context [find_program_address ?s ?p] => pose proof (find_address_length s p) as Hk end.
  destruct (find_program_address _ _) as [k b]. cbn [fst] in Hk. apply err_if_Ok in Hr as [Hr _]. bprop. subst k. eauto.
Qed.

Lemma load_deposited_Ok registration account receipt bridge w r w' :
  load_deposited registration account receipt bridge w = Ok (r, w') →
  is_key receipt ∧ try_from_slice (data (acct w receipt)) = Some r ∧ owner (acct w receipt) = bridge.
Proof.
  intros Hr. unfold load_deposited, owned_by in Hr.
  match type of Hr with context [find_program_address ?s ?p] => pose proof (find_address_length s p) as Hk end.
  destruct (find_program_address _ _) as [k b]. cbn [fst] in Hk.
  mstep Hr as x w1 K1. mstep Hr as [] w1 K2. mstep Hr as r' w1 K3. apply fixed_state_Ok in K3.
  mstep Hr as [] w1 K4. apply ret_Ok in Hr as [-> _]. bprop. by subst k.
Qed.

Lemma load_baseline_Ok account origin bridge balance n w o w' :
  load_baseline account origin bridge balance n w = Ok (o, w') →
  try_from_slice (data (acct w origin)) = Some o ∧ owner (acct w origin) = bridge ∧
  TokenDepositProgress.balance o + n ≤ balance.
Proof.
  intros Hr. unfold load_baseline, owned_by in Hr. destruct (find_program_address _ _) as [k b].
  mstep Hr as x w1 K1. mstep Hr as [] w1 K2. mstep Hr as o' w1 K3. apply fixed_state_Ok in K3.
  mstep Hr as [] w1 K4. apply ret_Ok in Hr as [-> _]. bprop. case_match eqn:E; [|done]. bprop. split_and!; try done. lia.
Qed.

(** The deposit lies between the balance at delegation and the receipt's; the
    bridge's vault has signed for it. *)
Lemma process_record_token_deposit_v2_Ok payer sys session registration vault account delegation receipt origin ingress
    args w u w' f ctx :
  is_u64 (RecordTokenDepositV2.amount args) → frame_held cx w session f ctx →
  process_record_token_deposit_v2 cx
    [payer; sys; session; registration; vault; account; delegation; receipt; origin; ingress] args w = Ok (u, w') →
  let n := RecordTokenDepositV2.amount args in
  ∃ g r t o, is_signer cx payer = true ∧ is_signer cx vault = true ∧ 0 < n ∧
    try_from_slice (data (acct w registration)) = Some g ∧ SessionBridgeV2.is_valid g = true ∧
    owner (acct w registration) = program_id cx ∧
    let bridge := SessionBridge.bridge_program (SessionBridgeV2.base g) in
    let mint := SessionBridge.mint (SessionBridgeV2.base g) in
    vault = (find_program_address [TOKEN_VAULT_SEED_PREFIX; registration] bridge).1 ∧
    try_from_slice (data (acct w receipt)) = Some r ∧ owner (acct w receipt) = bridge ∧
    try_from_slice (data (acct w account)) = Some t ∧ ErTokenAccount.mint t = mint ∧
    try_from_slice (data (acct w origin)) = Some o ∧ owner (acct w origin) = bridge ∧
    TokenDepositProgress.balance o + n ≤ TokenDepositReceipt.balance r ∧
    let payload := IngressPayloadV2.TokenDeposit bridge registration account receipt mint
        (SessionBridge.token_program (SessionBridgeV2.base g)) (TokenDepositProgress.balance o) n
        (TokenDepositReceipt.balance r) in
    wf borsh payload ∧ append_ingress_v2 cx payer session ingress payload w = Ok (u, w').
Proof.
  intros Hn [Hf Hctx] Hr. unfold process_record_token_deposit_v2 in Hr. cbv zeta in *.
  mstep Hr as [] w1 G1. mstep Hr as [] w1 G2. mstep Hr as f2 w1 G3. apply load_session_v2_Ok in G3 as (_ & _ & G3 & _).
  assert (f2 = f) as -> by congruence. mstep Hr as c w1 G4. unfold frame_context, hash_parts in G4.
  apply lift_err_Ok in G4 as [G4 _]. assert (c = ctx) as -> by congruence.
  mstep Hr as g w1 G5. apply load_registry_Ok in G5 as (Hg & Hgv & Hgo & Hgk & Hgt).
  mstep Hr as [] w1 G6. mstep Hr as [] w1 G7. mstep Hr as [] w1 G8. apply check_er_account_Ok in G8 as (Hak & t & Ht & Htm).
  mstep Hr as r w1 G9. apply load_deposited_Ok in G9 as (Hrk & Hrd & Hro).
  mstep Hr as o w1 G10. apply load_baseline_Ok in G10 as (Hod & Hoo & Hle).
  unfold check_vault, owned_by in G6. mstep G6 as x w1 K1. apply err_if_Ok in G6 as [G6 _]. bprop.
  apply decoded_wf in Hg as Hgw. apply decoded_wf in Hrd as Hrw. apply decoded_wf in Hod as How.
  destruct Hgw as (_ & (_&?&?&?&?&?&?) & _), Hrw as (_&_&_&?&_), How as (_&?&_).
  pose proof Hn as [? ?]. exists g, r, t, o. split_and!; try done; lia.
Qed.

(** *** What appending leaves alone *)

(** Accounts that do not sign keep their data, or hold neither a binding nor a
    cursor afterwards. *)
Definition tame (w w' : World) : Prop :=
  ∀ a, is_signer cx a = false → data (acct w' a) = data (acct w a) ∨
    (length (data (acct w' a)) ≠ 377%nat ∧ length (data (acct w' a)) ≠ 153%nat).

Lemma record_length (x : IngressRecordV2.t) :
  wf borsh x → length (enc borsh x) ∉ [0; 153; 377; 378; 380]%nat.
Proof.
  destruct x as [d v c n sl p pl r b]. intros (H1 & H2 & H3 & H4 & H5 & H6 & H7 & H8 & H9).
  destruct pl; cbn in *; destruct_and? H7; repeat (rewrite length_app; cbn [length]);
    rewrite !not_elem_of_cons; split_and!; try apply not_elem_of_nil; lia.
Qed.

(** The accounts of the log are none of those a checkpoint writes. *)
Lemma log_record_length w session f ctx l i :
  ingress_log cx w session f ctx l → (i < length l)%nat →
  length (data (acct w (record_address cx ctx i))) ∉ [0; 153; 377; 378; 380]%nat.
Proof.
  intros (_ & _ & _ & _ & Hrec) Hi. destruct (lookup_lt_is_Some_2 l i Hi) as [x Hx].
  apply Hrec, try_from_slice_Some in Hx as [Hw ->]. by apply record_length.
Qed.

Lemma append_tame payer session ra payload w u w' :
  payer ≠ ra → is_u64 (slot (clock cx)) → wf borsh payload →
  append_ingress_v2 cx payer session ra payload w = Ok (u, w') → tame w w'.
Proof.
  intros Hne Hsl Hpl Hr.
  apply append_ingress_v2_Ok in Hr as (f & ctx & x & _ & _ & _ & _ & _ & Hx & _ & _ & _ & Hxd & _ & Hfd & Hfr & _); [|done..].
  intros a _. destruct (decide (a = session)) as [->|].
  { right. by rewrite (sized (n:=378) _ _ Hfd). }
  destruct (decide (a = ra)) as [->|]; [right|left; by apply Hfr].
  apply try_from_slice_Some in Hxd as [_ ->]. apply record_length in Hx. by nodup.
Qed.

Lemma tame_trans w1 w2 w3 : tame w1 w2 → tame w2 w3 → tame w1 w3.
Proof.
  intros H1 H2 a Ha. destruct (H2 a Ha) as [E|]; [|by right]. rewrite E. by apply H1.
Qed.
End specs.

(** ** The consumed prefix *)

Section lineage.
Context `{HostLaws}.

Abbreviation cursor_of cx session := ((find_checkpoint_cursor_pda (program_id cx) session).1).

(** [l] has entered, the first [n] records of it are consumed: by the session's
    frame and by the finalized state root.  The bindings of the checkpoints [cs]
    open prefixes of [l], each at most a checkpoint's steps beyond its start. *)
Record lineage (cx : Ctx) (cs : list Address) (w : World) (session : Address) (f : SessionV2.t) (ctx : Hash32)
    (l : list IngressRecordV2.t) (n : nat) : Prop := {
  ln_log : ingress_log cx w session f ctx l;
  ln_count : SessionV2.consumed_ingress_count f = Z.of_nat n;
  ln_le : (n ≤ length l)%nat;
  ln_root : SessionV2.consumed_ingress_root f = chain_root zero32 (take n l);
  ln_bindings c b : c ∈ cs → try_from_slice (data (acct w (binding_address cx c))) = Some b →
    StateRootOpeningV2.session_context (CheckpointBindingV2.post b) = ctx →
    let pre := StateRootOpeningV2.ingress_count (CheckpointBindingV2.pre b) in
    let post := StateRootOpeningV2.ingress_count (CheckpointBindingV2.post b) in
    opens_prefix (CheckpointBindingV2.post b) ctx (take (Z.to_nat post) l) ∧
    pre ≤ post ≤ pre + CANONICAL_CHECKPOINT_STEPS;
  ln_final k : cursor_at w (cursor_of cx session) k → CheckpointCursor.latest_finalized_checkpoint k ≠ zero32 →
    ∃ o, StateRootOpeningV2.commitment o hashv = Ok (CheckpointCursor.latest_finalized_state_root k) ∧
      opens_prefix o ctx (take n l)
}.

Lemma take_prefix {A} (l l' : list A) n : (n ≤ length l)%nat → l `prefix_of` l' → take n l' = take n l.
Proof. intros Hn [k ->]. by rewrite take_app_le. Qed.

Lemma opens_prefix_le o ctx (l : list IngressRecordV2.t) :
  opens_prefix o ctx (take (Z.to_nat (StateRootOpeningV2.ingress_count o)) l) →
  (Z.to_nat (StateRootOpeningV2.ingress_count o) ≤ length l)%nat.
Proof. intros (_ & Hn & _). rewrite length_take in Hn. lia. Qed.

(** The finalized parts of two cursors agree. *)
Definition same_final (k k' : CheckpointCursor.t) : Prop :=
  CheckpointCursor.latest_finalized_checkpoint k' = CheckpointCursor.latest_finalized_checkpoint k ∧
  CheckpointCursor.latest_finalized_state_root k' = CheckpointCursor.latest_finalized_state_root k.

(** The log may grow as long as bindings and cursor are not made up. *)
Lemma lineage_keep cx cs w w' session f f' ctx l l' n :
  lineage cx cs w session f ctx l n → ingress_log cx w' session f' ctx l' → l `prefix_of` l' →
  SessionV2.consumed_ingress_count f' = SessionV2.consumed_ingress_count f →
  SessionV2.consumed_ingress_root f' = SessionV2.consumed_ingress_root f →
  (∀ c b, c ∈ cs → try_from_slice (data (acct w' (binding_address cx c))) = Some b →
     try_from_slice (data (acct w (binding_address cx c))) = Some (b : CheckpointBindingV2.t)) →
  (∀ k', cursor_at w' (cursor_of cx session) k' → CheckpointCursor.latest_finalized_checkpoint k' ≠ zero32 →
     ∃ k, cursor_at w (cursor_of cx session) k ∧ same_final k k') →
  lineage cx cs w' session f' ctx l' n.
Proof.
  intros Hl Hlog Hp Hc Hr Hb Hk. pose proof (ln_le _ _ _ _ _ _ _ _ Hl) as Hle.
  pose proof (prefix_length _ _ Hp) as Hlen. split; try done.
  - rewrite Hc. apply Hl.
  - lia.
  - rewrite Hr, (take_prefix l) by done. apply Hl.
  - intros c b Hin Hd Hctx. cbv zeta. apply Hb in Hd; [|done].
    destruct (ln_bindings _ _ _ _ _ _ _ _ Hl c b Hin Hd Hctx) as [Ho Hle2]. split; [|done].
    rewrite (take_prefix l); [done| |done]. by eapply opens_prefix_le.
  - intros k' Hk' Hne. rewrite (take_prefix l) by done. destruct (Hk k' Hk' Hne) as (k & Hck & Hs1 & Hs2).
    rewrite Hs2. eapply Hl; [done|]. by rewrite <- Hs1.
Qed.

(** Nothing the session's lineage rests on signs. *)
Definition quiet (cx : Ctx) (cs : list Address) (session : Address) : Prop :=
  is_signer cx (cursor_of cx session) = false ∧ Forall (λ c, is_signer cx (binding_address cx c) = false) cs.

Lemma lineage_tame cx cs w w' session f ctx l n x :
  quiet cx cs session → tame cx w w' → lineage cx cs w session f ctx l n →
  ingress_log cx w' session (with_ingress (SessionV2.ingress_count f + 1) (IngressRecordV2.root x) f) ctx (l ++ [x]) →
  lineage cx cs w' session (with_ingress (SessionV2.ingress_count f + 1) (IngressRecordV2.root x) f) ctx (l ++ [x]) n.
Proof.
  intros [Hq1 Hq2] Ht Hl Hlog. rewrite list.Forall_forall in Hq2.
  eapply lineage_keep; [done|done|by apply prefix_app_r|done|done| |].
  - intros c b Hin Hd. destruct (Ht _ (Hq2 _ Hin)) as [E|[E _]]; [by rewrite <- E|].
    by rewrite (sized (n:=377) _ _ Hd) in E.
  - intros k Hk _. destruct (Ht _ Hq1) as [E|[_ E]]; [rewrite E in Hk; by exists k|].
    by rewrite (sized (n:=153) _ _ Hk) in E.
Qed.

Lemma lineage_propose cx cs proposer session checkpoint cursor sys binding prefix args w w' f ctx l n :
  proposer ∉ [checkpoint; cursor; binding] → wf borsh args → is_key prefix → is_u64 (slot (clock cx)) →
  lineage cx cs w session f ctx l n →
  process_propose_checkpoint_v2 cx [proposer; session; checkpoint; cursor; sys; binding; prefix] args w = Ok (tt, w') →
  lineage cx cs w' session f ctx l n.
Proof.
  intros Hne Hargs Hpk Hsl Hl Hr. pose proof (ln_log _ _ _ _ _ _ _ _ Hl) as Hlog.
  eapply process_propose_checkpoint_v2_Ok in Hr
    as (s & k & Hg & Hv & Hb & Hbe & Hcur & Hnd & _ & _ & _ & Hcnt & Hst & Hop & Hk & Hcl & Hb' & Hc' & Hk' & Hda); [|done..].
  nodup.
  split; [|apply Hl|apply Hl|apply Hl| |].
  - eapply ingress_log_data; [done|]. intros a [->|(i & Hi & ->)]; apply Hda.
    + rewrite !not_elem_of_cons. split_and!; try done. apply not_elem_of_nil.
    + pose proof (log_record_length _ _ _ _ _ _ _ Hlog Hi) as Hrl. intros Ha.
      apply elem_of_cons in Ha as [E|[E|[E|Ha%elem_of_nil]%elem_of_cons]%elem_of_cons]; [..|done]; rewrite E in Hrl.
      * apply elem_of_cons in Hcl as [Hcl|Hcl%list_elem_of_singleton]; rewrite Hcl in Hrl; by nodup.
      * destruct Hk as [[Hk _]|Hk]; [rewrite Hk in Hrl|rewrite (sized (n:=153) _ _ Hk) in Hrl]; by nodup.
      * rewrite Hbe in Hrl. by nodup.
  - intros c b Hin Hd Hctx. cbv zeta. destruct (decide (binding_address cx c = binding)) as [E|].
    + rewrite E, Hb' in Hd. injection Hd as <-. cbn. split; [done|]. destruct Hg. lia.
    + eapply Hl; [done| |done]. rewrite <- Hda; [done|]. rewrite !not_elem_of_cons. split_and!; try done.
      * intros E. rewrite E in Hd. apply (sized (n:=377)) in Hd. by rewrite (sized (n:=380) _ _ Hc') in Hd.
      * intros E. rewrite E in Hd. apply (sized (n:=377)) in Hd. by rewrite (sized (n:=153) _ _ Hk') in Hd.
      * apply not_elem_of_nil.
  - intros k2 Hk2 Hnz. rewrite <- Hcur, Hk' in Hk2. injection Hk2 as <-. cbn in *.
    destruct Hk as [[_ Hz]|Hk]; [done|]. rewrite Hcur in Hk. by eapply Hl in Hk.
Qed.

Lemma with_consumed_log cx w w' session f ctx l o :
  ingress_log cx w session f ctx l →
  try_from_slice (data (acct w' session)) = Some (with_consumed_ingress o f) →
  (∀ i, (i < length l)%nat → data (acct w' (record_address cx ctx i)) = data (acct w (record_address cx ctx i))) →
  ingress_log cx w' session (with_consumed_ingress o f) ctx l.
Proof.
  intros ([_ Hc] & Hn & Hr & Hv & Hrec) Hf Hd. split; [by split|]. split_and!; try done.
  intros i x Hx. rewrite Hd; [by apply Hrec|by eapply lookup_lt_Some].
Qed.

Lemma lineage_commit cx cs committer session checkpoint cursor proposer binding args w w' f ctx l n :
  checkpoint ∈ cs → lineage cx cs w session f ctx l n →
  process_commit_checkpoint_v2 cx [committer; session; checkpoint; cursor; proposer; binding] args w = Ok (tt, w') →
  ∃ f' p, lineage cx cs w' session f' ctx l (n + length p) ∧ take (n + length p) l = take n l ++ p ∧
    Z.of_nat (length p) ≤ CANONICAL_CHECKPOINT_STEPS.
Proof.
  intros Hin Hl Hr. pose proof (ln_log _ _ _ _ _ _ _ _ Hl) as Hlog.
  eapply process_commit_checkpoint_v2_Ok in Hr
    as (c & k & b & Hv & Hb & Hbd & Hc & Hk & Hcur & Hnd & _ & _ & _ & Hctx & Hpn & _ & _ & _ & Hcm & Hf' & Hk' & Hcl & Hda);
    [|done].
  destruct (ln_bindings _ _ _ _ _ _ _ _ Hl checkpoint b Hin) as [Hop Hst]; [by rewrite <- Hb|done|]. cbv zeta in *.
  pose proof (opens_prefix_le _ _ _ Hop) as Hle. rewrite Hpn, (ln_count _ _ _ _ _ _ _ _ Hl) in Hst.
  set (m := StateRootOpeningV2.ingress_count (CheckpointBindingV2.post b)) in *.
  exists (with_consumed_ingress (CheckpointBindingV2.post b) f), (take (Z.to_nat m - n) (drop n l)).
  assert (Hlp : length (take (Z.to_nat m - n) (drop n l)) = (Z.to_nat m - n)%nat) by (rewrite length_take, length_drop; lia).
  rewrite Hlp. replace (n + (Z.to_nat m - n))%nat with (Z.to_nat m) by lia.
  split_and!; [|rewrite take_take_drop; f_equal; lia|lia].
  assert (Hlog' : ingress_log cx w' session (with_consumed_ingress (CheckpointBindingV2.post b) f) ctx l).
  { apply (with_consumed_log cx w); [done|done|]. intros i Hi. apply Hda.
    pose proof (log_record_length _ _ _ _ _ _ _ Hlog Hi) as Hrl. intros Ha. destruct Hlog as [[Hf _] _].
    apply elem_of_cons in Ha as [E|[E|[E|Ha%elem_of_nil]%elem_of_cons]%elem_of_cons]; [..|done]; rewrite E in Hrl.
    - rewrite (sized (n:=378) _ _ Hf) in Hrl. by nodup.
    - rewrite (sized (n:=380) _ _ Hc) in Hrl. by nodup.
    - rewrite (sized (n:=153) _ _ Hk) in Hrl. by nodup. }
  destruct Hop as (_ & Hop1 & Hop2). split; [done|cbn; fold m; lia|done|done| |].
  - intros c2 b2 Hin2 Hd2 Hctx2. eapply Hl; [done| |done]. rewrite <- Hda; [done|].
    apply (sized (n:=377)) in Hd2. rewrite !not_elem_of_cons. split_and!; try apply not_elem_of_nil; intros E; rewrite E in Hd2.
    + by rewrite (sized (n:=378) _ _ Hf') in Hd2.
    + by rewrite Hcl in Hd2.
    + by rewrite (sized (n:=153) _ _ Hk') in Hd2.
  - intros k2 Hk2 _. rewrite <- Hcur, Hk' in Hk2. injection Hk2 as <-. by exists (CheckpointBindingV2.post b).
Qed.

(** *** Sequences of V2 instructions *)

Inductive LineageOp : Set :=
| LIngress (op : IngressOp)
| LToken (payer sys session registration vault account delegation receipt origin ingress : Address)
    (args : RecordTokenDepositV2.t)
| LPropose (proposer session checkpoint cursor sys binding prefix : Address) (args : ProposeCheckpointV2.t)
| LCommit (committer session checkpoint cursor proposer binding : Address) (args : CommitCheckpoint.t).

Definition exec_lineage (cx : Ctx) (op : LineageOp) : prog unit :=
  match op with
  | LIngress op => exec_ingress cx op
  | LToken payer sys session registration vault account delegation receipt origin ingress args =>
      process_record_token_deposit_v2 cx
        [payer; sys; session; registration; vault; account; delegation; receipt; origin; ingress] args
  | LPropose proposer session checkpoint cursor sys binding prefix args =>
      process_propose_checkpoint_v2 cx [proposer; session; checkpoint; cursor; sys; binding; prefix] args
  | LCommit committer session checkpoint cursor proposer binding args =>
      process_commit_checkpoint_v2 cx [committer; session; checkpoint; cursor; proposer; binding] args
  end.

Definition is_commit (op : LineageOp) : bool := match op with LCommit _ _ _ _ _ _ _ => true | _ => false end.

(** The instruction is for this session, its arguments are what instruction data
    and account keys can be, and program addresses do not sign. *)
Definition lineage_op_safe (portal session : Address) (ctx : Hash32) (cs : list Address) (bound : nat)
    (p : Ctx * LineageOp) : Prop :=
  program_id p.1 = portal ∧ is_u64 (slot (clock p.1)) ∧ quiet p.1 cs session ∧
  match p.2 with
  | LIngress op => ingress_op_safe portal session ctx bound (p.1, op)
  | LToken payer _ se _ _ _ _ _ _ ingress args =>
      se = session ∧ payer ≠ ingress ∧ is_u64 (RecordTokenDepositV2.amount args)
  | LPropose proposer se checkpoint cursor _ binding prefix args =>
      se = session ∧ (proposer ∉ [checkpoint; cursor; binding]) ∧ wf borsh args ∧ is_key prefix
  | LCommit _ se checkpoint _ _ _ _ => se = session ∧ checkpoint ∈ cs
  end.

(** A step of anyone else: the session's identity and ingress fields, its
    records, the bindings and what is finalized stay. *)
Definition undisturbed (cx : Ctx) (cs : list Address) (session : Address) (ctx : Hash32) (w w' : World) : Prop :=
  (∀ f, frame_held cx w session f ctx → ∃ b, frame_held cx w' session (SessionV2.with_base b f) ctx) ∧
  (∀ i x, try_from_slice (data (acct w (record_address cx ctx i))) = Some x →
     try_from_slice (data (acct w' (record_address cx ctx i))) = Some (x : IngressRecordV2.t)) ∧
  (∀ c b, c ∈ cs → try_from_slice (data (acct w' (binding_address cx c))) = Some b →
     try_from_slice (data (acct w (binding_address cx c))) = Some (b : CheckpointBindingV2.t)) ∧
  (∀ k', cursor_at w' (cursor_of cx session) k' → CheckpointCursor.latest_finalized_checkpoint k' ≠ zero32 →
     ∃ k, cursor_at w (cursor_of cx session) k ∧ same_final k k').

Inductive lineage_runs (cx : Ctx) (cs : list Address) (session : Address) (ctx : Hash32) :
    World → list (Ctx * LineageOp) → World → Prop :=
| lineage_nil w : lineage_runs cx cs session ctx w [] w
| lineage_op w cx1 op w1 ops w2 :
    wf_world w → exec_lineage cx1 op w = Ok (tt, w1) → lineage_runs cx cs session ctx w1 ops w2 →
    lineage_runs cx cs session ctx w ((cx1, op) :: ops) w2
| lineage_other w w1 ops w2 :
    undisturbed cx cs session ctx w w1 → lineage_runs cx cs session ctx w1 ops w2 →
    lineage_runs cx cs session ctx w ops w2.

Lemma lineage_portal cx cx' cs w session f ctx l n :
  program_id cx = program_id cx' → lineage cx cs w session f ctx l n → lineage cx' cs w session f ctx l n.
Proof.
  intros E Hl. split; try apply Hl.
  - by apply (ingress_log_portal cx), Hl.
  - unfold binding_address. rewrite <- E. apply Hl.
  - rewrite <- E. apply Hl.
Qed.

Lemma lineage_other_step cx cs w w' session f ctx l n :
  undisturbed cx cs session ctx w w' → lineage cx cs w session f ctx l n →
  ∃ f', lineage cx cs w' session f' ctx l n.
Proof.
  intros (Hf & Hr & Hb & Hk) Hl. pose proof (ln_log _ _ _ _ _ _ _ _ Hl) as (Hfh & Hlen & Hroot & Hch & Hrec).
  destruct (Hf _ Hfh) as [b Hf']. exists (SessionV2.with_base b f).
  eapply lineage_keep; try done. split; [done|]. split_and!; try done. intros i x Hx. by apply Hr, Hrec.
Qed.

Lemma ingress_lineage portal session ctx cs bound cx op w w' f l n :
  (length l ≤ bound)%nat → ingress_op_safe portal session ctx bound (cx, op) → quiet cx cs session → wf_world w →
  exec_ingress cx op w = Ok (tt, w') → lineage cx cs w session f ctx l n →
  ∃ f' x, lineage cx cs w' session f' ctx (l ++ [x]) n.
Proof.
  intros Hbound (_ & Hsl & Hss & Hns & Hop) Hq Hwf Hr Hl. cbn [fst snd] in *.
  pose proof (ln_log _ _ _ _ _ _ _ _ Hl) as Hlog.
  assert (Hns' : ∀ a, log_account cx session ctx l a → is_signer cx a = false).
  { intros a [->|(i & Hi & ->)]; [done|]. rewrite list.Forall_forall in Hns. apply Hns, elem_of_seq. lia. }
  destruct op; cbn [exec_ingress] in Hr.
  - destruct Hop as (-> & ? & ? & ? & ? & ? & ?).
    eapply process_delegate_v2_log in Hr as (x & Hl' & _ & Hwp & w1 & Hfr & Hrl & Hs1 & Hs2 & Hap); [|done..].
    eexists _, x. eapply lineage_tame; [done| |done|done].
    eapply tame_trans; [|by eapply append_tame in Hap]. intros a Ha.
    destruct (decide (a = record)) as [->|]; [right; by rewrite Hrl|left]. rewrite Hfr; [done|].
    rewrite !not_elem_of_cons. split_and!; [congruence|congruence|done|apply not_elem_of_nil].
  - destruct Hop as (-> & ? & ? & ? & ?).
    eapply process_deposit_fee_v2_log in Hr as (x & Hl' & _ & _ & _ & _ & _ & _ & Hwp & w1 & Hfr & Hrl & Hap); [|done..].
    eexists _, x. eapply lineage_tame; [done| |done|done].
    eapply tame_trans; [|by eapply append_tame in Hap]. intros a Ha.
    destruct (decide (a = receipt)) as [->|]; [right; by rewrite Hrl|left]. by apply Hfr.
Qed.

Lemma exec_lineage_step portal session ctx cs bound cx op w w' f l n :
  (length l ≤ bound)%nat → lineage_op_safe portal session ctx cs bound (cx, op) → wf_world w →
  exec_lineage cx op w = Ok (tt, w') → lineage cx cs w session f ctx l n →
  ∃ f' xs p, lineage cx cs w' session f' ctx (l ++ xs) (n + length p) ∧ (length xs ≤ 1)%nat ∧
    take (n + length p) (l ++ xs) = take n l ++ p ∧ Z.of_nat (length p) ≤ CANONICAL_CHECKPOINT_STEPS ∧
    (is_commit op = false → p = []).
Proof.
  intros Hb (Hp & Hsl & Hq & Hop) Hwf Hr Hl. cbn [fst snd] in *. pose proof (ln_le _ _ _ _ _ _ _ _ Hl) as Hle.
  destruct op; cbn [exec_lineage is_commit] in *.
  - eapply ingress_lineage in Hr as (f' & x & Hl'); [|done..]. exists f', [x], []. rewrite Nat.add_0_r, app_nil_r.
    split_and!; try done. by apply take_app_le.
  - destruct Hop as (-> & Hne & Hn). pose proof (ln_log _ _ _ _ _ _ _ _ Hl) as Hlog.
    eapply process_record_token_deposit_v2_Ok in Hr as (g & r & t & o & Hr); [|done|by destruct Hlog].
    destruct Hr as (_&_&_&_&_&_&_&_&_&_&_&_&_&_& Hwp & Hr). pose proof Hr as Ht.
    apply append_tame in Ht; [|done..]. eapply append_ingress_log in Hr as (x & Hl' & _); [|done..].
    eexists _, [x], []. rewrite Nat.add_0_r, app_nil_r. split_and!; [by eapply lineage_tame|done|by apply take_app_le|done|done].
  - destruct Hop as (-> & ? & ? & ?). eapply lineage_propose in Hr; [|done..]. exists f, [], [].
    rewrite Nat.add_0_r, !app_nil_r. by split_and!; try done; cbn; lia.
  - destruct Hop as [-> ?]. eapply lineage_commit in Hr as (f' & p & Hl' & Hp' & Hlen); [|done..].
    exists f', [], p. rewrite app_nil_r. by split_and!; try done; cbn; lia.
Qed.

Lemma lineage_runs_Ok portal session ctx cs bound cx w ops w' f l n :
  program_id cx = portal → lineage_runs cx cs session ctx w ops w' →
  Forall (lineage_op_safe portal session ctx cs bound) ops → (length l + length ops ≤ bound)%nat →
  lineage cx cs w session f ctx l n →
  ∃ f' xs pieces, lineage cx cs w' session f' ctx (l ++ xs) (n + length (concat pieces)) ∧
    take (n + length (concat pieces)) (l ++ xs) = take n l ++ concat pieces ∧
    length pieces = length (List.filter (λ p, is_commit p.2) ops) ∧
    Forall (λ p, Z.of_nat (length p) ≤ CANONICAL_CHECKPOINT_STEPS) pieces.
Proof.
  intros Hp Hruns. revert f l n.
  induction Hruns as [w|w cx1 op w1 ops w2 Hwf He Hruns IH|w w1 ops w2 Hu Hruns IH]; intros f l n Hs Hbd Hl.
  - exists f, [], []. rewrite app_nil_r, Nat.add_0_r. cbn. by rewrite app_nil_r.
  - apply list.Forall_cons in Hs as [Ho Hs]. pose proof Ho as [Hp1 _]. cbn in Hp1. cbn [length] in Hbd.
    apply (lineage_portal _ cx1) in Hl; [|congruence].
    assert (Hb : (length l ≤ bound)%nat) by lia.
    destruct (exec_lineage_step _ _ _ _ _ _ _ _ _ _ _ _ Hb Ho Hwf He Hl) as (f1 & xs & p & Hl1 & Hxs & Htk & Hlp & Hnc).
    apply (lineage_portal _ cx) in Hl1; [|congruence].
    destruct (λ H, IH _ _ _ Hs H Hl1) as (f2 & ys & ps & Hl2 & Htk2 & Hn & Hf); [rewrite length_app; lia|].
    rewrite Htk, <- !app_assoc in Htk2. rewrite <- app_assoc in Hl2.
    destruct (is_commit op) eqn:Hc.
    + exists f2, (xs ++ ys), (p :: ps). cbn [concat]. rewrite length_app, Nat.add_assoc. split_and!; try done.
      * cbn. rewrite Hc. cbn. by rewrite Hn.
      * by constructor.
    + rewrite (Hnc eq_refl) in *. exists f2, (xs ++ ys), ps. cbn in *. rewrite Nat.add_0_r in *. rewrite Hc. by split_and!.
  - destruct (lineage_other_step _ _ _ _ _ _ _ _ _ Hu Hl) as [f1 Hl1]. by eapply IH.
Qed.
End lineage.

(** ** Example and property *)

Module ContinuityExample.
Import SessionExample.
Definition ctx : Hash32 := IngressExample.ctx.
Definition record (i : nat) : Address := IngressExample.record i.
Definition w0 : World := put validator (wallet 10000000000) IngressExample.w2.
(** What has entered: two deposits and a delegation. *)
Definition w3 : World := IngressExample.run_all IngressExample.ops w0.
Definition checkpoint : Address := Eval vm_compute in (find_checkpoint_pda portal session 40).1.
Definition binding : Address := Eval vm_compute in (find_checkpoint_binding_v2_pda portal checkpoint).1.
Definition ok {A} (d : A) (r : result ContinuityError.t A) : A := match r with Ok x => x | Err _ => d end.
Definition pre : StateRootOpeningV2.t := Eval vm_compute in
  ok (StateRootOpeningV2.mk [] [] [] 0 []) (empty_state_opening_v2 ctx hashv).
(** The rollup has processed the first two. *)
Definition post : StateRootOpeningV2.t := Eval vm_compute in
  StateRootOpeningV2.mk ctx (key 61) (key 62) 2
    match try_from_slice (data (acct w3 (record 1))) with Some x => IngressRecordV2.root x | None => [] end.
Definition input : Hash32 := Eval vm_compute in
  ok [] (InputContextV2.commitment (InputContextV2.mk ctx (key 63) 0 (StateRootOpeningV2.ingress_root pre) 2
                                      (StateRootOpeningV2.ingress_root post)) hashv).
Definition proposal : ProposeCheckpoint.t := Eval vm_compute in
  ProposeCheckpoint.mk 40 4 (ok [] (StateRootOpeningV2.commitment pre hashv))
    (ok [] (StateRootOpeningV2.commitment post hashv)) (key 71) (key 72) input (key 73) (key 74) 10.
Definition args : ProposeCheckpointV2.t := ProposeCheckpointV2.mk proposal pre post (key 63).
Definition cx1 : Ctx := cx_of portal 130 [validator; session; checkpoint; cursor; binding; record 1] [validator].
Definition cx2 : Ctx := cx_of portal 140 [validator; session; checkpoint; cursor; binding] [validator].
Definition ops : list (Ctx * LineageOp) :=
  ((λ p, (p.1, LIngress p.2)) <$> IngressExample.ops) ++
  [(cx1, LPropose validator session checkpoint cursor system_id binding (record 1) args);
   (cx2, LCommit validator session checkpoint cursor validator binding (CommitCheckpoint.mk 40))].
Fixpoint play (l : list (Ctx * LineageOp)) (w : World) : option World :=
  match l with
  | [] => Some w
  | (cx, op) :: l' =>
      if wf_worldb w then match exec_lineage cx op w with Ok (_, w') => play l' w' | Err _ => None end else None
  end.
Definition w5 : World := default w0 (play ops w0).

Lemma lineage_play_run cx0 l w w' : play l w = Some w' → lineage_runs cx0 [checkpoint] session ctx w l w'.
Proof.
  revert w. induction l as [|[cx op] l IH]; intros w; cbn [play]; [intros [= ->]; apply lineage_nil|].
  destruct (wf_worldb w) eqn:Hw; [|done]. destruct (exec_lineage cx op w) as [[[] w1]|] eqn:He; [|done].
  intros Hp. eapply lineage_op; [by apply wf_worldb_wf|exact He|by apply IH].
Qed.

Lemma plays : match play ops w0 with Some _ => true | None => false end = true.
Proof. vm_compute. reflexivity. Qed.

Lemma ops_run : lineage_runs cx1 [checkpoint] session ctx w0 ops w5.
Proof. apply lineage_play_run. pose proof plays as Hp. unfold w5. destruct (play ops w0); [reflexivity|discriminate Hp]. Qed.

Lemma consumed f : frame_held cx1 w5 session f ctx → SessionV2.consumed_ingress_count f = 2.
Proof.
  intros [Hf _]. assert (He : (SessionV2.consumed_ingress_count <$> try_from_slice (data (acct w5 session))) = Some 2)
    by (vm_compute; reflexivity).
  rewrite Hf in He. by injection He.
Qed.

Lemma args_wf : wf borsh args.
Proof. unfold wf; cbn; unfold in_width, umax; cbn; repeat split; lia. Qed.

Lemma lineage_ops_safe : Forall (lineage_op_safe portal session ctx [checkpoint] 5) ops.
Proof.
  unfold ops, IngressExample.ops. cbn [fmap list_fmap app fst snd].
  repeat (apply Forall_cons; [split; [reflexivity|split; [unfold in_width, umax; cbn; lia|
    split; [split; [vm_compute; reflexivity|apply (bool_decide_unpack _); vm_compute; reflexivity]|]]]|]);
    [..|apply Forall_nil]; cbn [fst snd].
  1-3: split; [reflexivity|split; [unfold in_width, umax; cbn; lia|
      split; [vm_compute; reflexivity|split; [apply (bool_decide_unpack _); vm_compute; reflexivity|]]]];
      cbn [fst snd]; split_and!; try exact eq_refl; apply (bool_decide_unpack _); vm_compute; reflexivity.
  - split; [reflexivity|]. split; [apply (bool_decide_unpack _); vm_compute; reflexivity|].
    split; [exact args_wf|vm_compute; reflexivity].
  - split; [reflexivity|]. apply (bool_decide_unpack _). vm_compute. reflexivity.
Qed.

Lemma lineage_fresh : lineage cx1 [checkpoint] w0 session IngressExample.frame ctx [] 0.
Proof.
  split.
  - split; [split; vm_compute; reflexivity|]. split_and!; [vm_compute; reflexivity..|]. intros i x Hi. discriminate Hi.
  - vm_compute. reflexivity.
  - apply Nat.le_refl.
  - vm_compute. reflexivity.
  - intros c b Hc Hd. apply list_elem_of_singleton in Hc as ->. exfalso.
    assert (He : data (acct w0 (binding_address cx1 checkpoint)) = []) by (vm_compute; reflexivity).
    rewrite He in Hd. discriminate Hd.
  - intros k Hk. exfalso.
    assert (He : data (acct w0 (find_checkpoint_cursor_pda (program_id cx1) session).1) = []) by (vm_compute; reflexivity).
    rewrite He in Hk. discriminate Hk.
Qed.
End ContinuityExample.

(** C9: along any sequence of V2 deposits,
    delegations, token deposits, proposals and commits, with steps of others in
    between that leave the session's log, bindings and finalized root alone, the
    session's consumed prefix is always a prefix of what has entered and the
    finalized state root opens exactly that prefix.  Each committed checkpoint
    extends it by one piece of at most a checkpoint's steps; the pieces follow one
    another without gap or overlap, so no entry is skipped or consumed twice. *)
Theorem checkpoints_consume_ingress_in_order `{HostLaws} portal session ctx cs bound cx w ops w' f l n :
  program_id cx = portal → lineage_runs cx cs session ctx w ops w' →
  Forall (lineage_op_safe portal session ctx cs bound) ops → (length l + length ops ≤ bound)%nat →
  lineage cx cs w session f ctx l n →
  ∃ f' xs pieces, lineage cx cs w' session f' ctx (l ++ xs) (n + length (concat pieces)) ∧
    take (n + length (concat pieces)) (l ++ xs) = take n l ++ concat pieces ∧
    length pieces = length (List.filter (λ p, is_commit p.2) ops) ∧
    Forall (λ p, Z.of_nat (length p) ≤ CANONICAL_CHECKPOINT_STEPS) pieces.
Proof. apply lineage_runs_Ok. Qed.

Lemma checkpoints_consume_ingress_in_order_witness :
  ∃ f' xs (pieces : list (list IngressRecordV2.t)), lineage ContinuityExample.cx1 [ContinuityExample.checkpoint] ContinuityExample.w5 SessionExample.session f'
      ContinuityExample.ctx xs (length (concat pieces)) ∧ length pieces = 1%nat ∧
    SessionV2.consumed_ingress_count f' = 2.
Proof.
  destruct (checkpoints_consume_ingress_in_order SessionExample.portal SessionExample.session ContinuityExample.ctx
    [ContinuityExample.checkpoint] 5 ContinuityExample.cx1 _ _ _ _ [] 0 eq_refl ContinuityExample.ops_run
    ContinuityExample.lineage_ops_safe (Nat.le_refl 5) ContinuityExample.lineage_fresh) as (f' & xs & ps & Hl & _ & Hn & _).
  exists f', xs, ps. split; [exact Hl|]. split; [exact Hn|].
  apply (ContinuityExample.consumed f'). apply Hl.
Defined.

(** A V2 proposal fails when the binding account of its checkpoint has data. *)
Lemma binding_blocks_proposal `{HostLaws} cx proposer session checkpoint cursor sys binding prefix args w :
  data (acct w (binding_address cx checkpoint)) ≠ [] →
  ∃ e, process_propose_checkpoint_v2 cx [proposer; session; checkpoint; cursor; sys; binding; prefix] args w = Err e.
Proof.
  intros Hd. destruct (process_propose_checkpoint_v2 _ _ _ _) as [[u w']|e] eqn:Hr; [exfalso|by exists e].
  unfold process_propose_checkpoint_v2 in Hr. apply bind_Ok in Hr as (b & w1 & Hr & _). unfold prepare_binding in Hr.
  do 5 (apply bind_Ok in Hr as (? & w2 & G & Hr); pose proof (read_only _ _ _ G); subst w2; clear G).
  mstep Hr as i w2 G1. mstep Hr as [] w2 G2. unfold binding_address in Hd.
  destruct (find_checkpoint_binding_v2_pda _ _) as [k bump]. cbn [fst] in Hd.
  mstep Hr as [] w2 G3. bprop. mstep Hr as rent w2 G4. mstep Hr as [] w2 G5.
  by apply initialize_pda_account_Ok in G5 as (_ & G5 & _).
Qed.
