(* ===== verification/Dispatch.v ===== *)
(** * Instruction dispatch (portal/src/lib.rs, portal/src/instruction.rs)

    The Portal as one function of the bytes of an instruction.  Borsh's one-byte
    enum tag selects the handler, the payload is decoded for it alone.

    [instruction_bytes_reach_handler] shows that the bytes of every instruction
    of [PortalInstruction] run its handler; [portal_conserves_lamports] is what
    holds of every instruction. *)

From Stdlib Require Import ZArith Lia.
From Stdlib Require Import Strings.Byte.
From stdpp Require Import base gmap list numbers.
From S2P Require Import Prelude Borsh Events Runtime State Commitments Frames Toy Pda Instruction Verifier StepProof SessionOps Delegation Settlement Checkpoint Challenge Deposits Ingress TokenWithdrawal BridgeState Continuity.

(** ** The instructions *)

Module PortalInstruction.
Inductive t : Set :=
| OpenSession (args : OpenSession.t)
| CloseSession
| DepositFee (lamports : Z)
| Delegate (grid_id : Z)
| Undelegate
| BeginSettlement (args : BeginSettlement.t)
| WriteSettlementChunk (args : WriteSettlementChunk.t)
| FinishSettlement (args : FinishSettlement.t)
| AbortSettlement
| SettleDepositReceipt (args : SettleDepositReceipt.t)
| UndelegateHandoff
| SettleAccountOwner (args : SettleAccountOwner.t)
| SettleAccountLamports (args : SettleAccountLamports.t)
| StartWithdrawal (lamports : Z)
| ProposeCheckpoint (args : ProposeCheckpoint.t)
| CommitCheckpoint (args : CommitCheckpoint.t)
| CancelCheckpoint (args : CancelCheckpoint.t)
| OpenChallenge (args : OpenChallenge.t)
| CreateStepProof (args : CreateStepProof.t)
| WriteStepProof (args : WriteStepProof.t)
| SealStepProof (args : SealStepProof.t)
| ResolveChallenge (args : ResolveChallenge.t)
| RegisterSessionBridge (args : RegisterSessionBridge.t)
| RespondChallenge (args : RespondChallenge.t)
| BisectChallenge (args : BisectChallenge.t)
| TimeoutChallenge (args : TimeoutChallenge.t)
| AccumulateTokenWithdrawal (args : AccumulateTokenWithdrawal.t)
| ConsumeTokenWithdrawal (args : ConsumeTokenWithdrawal.t)
| RequestUndelegation
| ApproveUndelegation
| VerifyErStepProofV1 (args : VerifyErStepProofV1.t)
| OpenSessionV2 (args : OpenSessionV2.t)
| DelegateV2 (grid_id : Z)
| DepositFeeV2 (lamports : Z)
| ProposeCheckpointV2 (args : ProposeCheckpointV2.t)
| CommitCheckpointV2 (args : CommitCheckpoint.t)
| RegisterSessionBridgeV2 (args : RegisterSessionBridge.t)
| RecordTokenDepositV2 (args : RecordTokenDepositV2.t).

(** The derived encoding: the variant's index, then its fields. *)
Definition serialize (x : t) : list byte :=
  match x with
  | OpenSession args => x00 :: enc borsh args
  | CloseSession => [x01]
  | DepositFee n => x02 :: enc u64c n
  | Delegate n => x03 :: enc u64c n
  | Undelegate => [x04]
  | BeginSettlement args => x05 :: enc borsh args
  | WriteSettlementChunk args => x06 :: enc borsh args
  | FinishSettlement args => x07 :: enc borsh args
  | AbortSettlement => [x08]
  | SettleDepositReceipt args => x09 :: enc borsh args
  | UndelegateHandoff => [x0a]
  | SettleAccountOwner args => x0b :: enc borsh args
  | SettleAccountLamports args => x0c :: enc borsh args
  | StartWithdrawal n => x0d :: enc u64c n
  | ProposeCheckpoint args => x0e :: enc borsh args
  | CommitCheckpoint args => x0f :: enc borsh args
  | CancelCheckpoint args => x10 :: enc borsh args
  | OpenChallenge args => x11 :: enc borsh args
  | CreateStepProof args => x12 :: enc borsh args
  | WriteStepProof args => x13 :: enc borsh args
  | SealStepProof args => x14 :: enc borsh args
  | ResolveChallenge args => x15 :: enc borsh args
  | RegisterSessionBridge args => x16 :: enc borsh args
  | RespondChallenge args => x17 :: enc borsh args
  | BisectChallenge args => x18 :: enc borsh args
  | TimeoutChallenge args => x19 :: enc borsh args
  | AccumulateTokenWithdrawal args => x1a :: enc borsh args
  | ConsumeTokenWithdrawal args => x1b :: enc borsh args
  | RequestUndelegation => [x1c]
  | ApproveUndelegation => [x1d]
  | VerifyErStepProofV1 args => x1e :: enc borsh args
  | OpenSessionV2 args => x1f :: enc borsh args
  | DelegateV2 n => x20 :: enc u64c n
  | DepositFeeV2 n => x21 :: enc u64c n
  | ProposeCheckpointV2 args => x22 :: enc borsh args
  | CommitCheckpointV2 args => x23 :: enc borsh args
  | RegisterSessionBridgeV2 args => x24 :: enc borsh args
  | RecordTokenDepositV2 args => x25 :: enc borsh args
  end.

(** The values the Rust type can hold. *)
Definition in_range (x : t) : Prop :=
  match x with
  | OpenSession args => wf borsh args
  | DepositFee n | Delegate n | StartWithdrawal n | DelegateV2 n | DepositFeeV2 n => is_u64 n
  | BeginSettlement args => wf borsh args
  | WriteSettlementChunk args => wf borsh args
  | FinishSettlement args => wf borsh args
  | SettleDepositReceipt args => wf borsh args
  | SettleAccountOwner args => wf borsh args
  | SettleAccountLamports args => wf borsh args
  | ProposeCheckpoint args => wf borsh args
  | CommitCheckpoint args | CommitCheckpointV2 args => wf borsh args
  | CancelCheckpoint args => wf borsh args
  | OpenChallenge args => wf borsh args
  | CreateStepProof args => wf borsh args
  | WriteStepProof args => wf borsh args
  | SealStepProof args => wf borsh args
  | ResolveChallenge args => wf borsh args
  | RegisterSessionBridge args | RegisterSessionBridgeV2 args => wf borsh args
  | RespondChallenge args => wf borsh args
  | BisectChallenge args => wf borsh args
  | TimeoutChallenge args => wf borsh args
  | AccumulateTokenWithdrawal args => wf borsh args
  | ConsumeTokenWithdrawal args => wf borsh args
  | VerifyErStepProofV1 args => wf borsh args
  | OpenSessionV2 args => wf borsh args
  | ProposeCheckpointV2 args => wf borsh args
  | RecordTokenDepositV2 args => wf borsh args
  | _ => True
  end.
End PortalInstruction.

(** ** Dispatch

    [continuity_v2] is the feature [checkpoint-continuity-v2]. *)

Section dispatch.
Context `{Host, Groth16} (features : Features) (continuity_v2 : bool) (cx : Ctx).

Definition deserialize_args {A} (c : codec A) (data : list byte) : prog A :=
  ok_or (fst <$> dec c data) InvalidInstructionData.

Definition deserialize_args_exact {A} (c : codec A) (data : list byte) : prog A :=
  '(args, remaining) ← ok_or (dec c data) InvalidInstructionData;
  err_if (remaining != []) InvalidInstructionData ;;
  mret args.

Definition split_instruction (data : list byte) : option (Z * list byte) :=
  match data with
  | [] => None
  | tag :: payload => Some (byte_val tag, payload)
  end.

(** The arm of [SettleAccountLamports], whose payload may carry a guard. *)
Definition dispatch_lamports (accounts : list Address) (payload : list byte) : prog unit :=
  args ← deserialize_args borsh payload;
  let guard := drop SettleAccountLamports.SERIALIZED_LEN payload in
  match guard with
  | [] => process_settle_account_lamports cx accounts args
  | _ =>
      if bool_decide (length guard = 32%nat) then process_settle_account_lamports_with_surplus cx accounts args guard
      else fail InvalidInstructionData
  end.

Definition process_instruction (accounts : list Address) (instruction_data : list byte) : prog unit :=
  match split_instruction instruction_data with
  | None => fail InvalidInstructionData
  | Some (tag, payload) =>
    match tag with
    | 0 => args ← deserialize_args borsh payload; process_open_session cx accounts args
    | 1 => process_close_session cx accounts
    | 2 => n ← deserialize_args u64c payload; process_deposit_fee cx accounts n
    | 3 => grid_id ← deserialize_args u64c payload; process_delegate cx accounts grid_id
    | 4 => process_undelegate cx accounts
    | 5 => args ← deserialize_args borsh payload; process_begin_settlement cx accounts args
    | 6 => args ← deserialize_args borsh payload; process_write_settlement_chunk cx accounts args
    | 7 => args ← deserialize_args borsh payload; process_finish_settlement cx accounts args
    | 8 => process_abort_settlement cx accounts
    | 9 => args ← deserialize_args borsh payload; process_settle_deposit_receipt cx accounts args
    | 10 => process_undelegate_handoff cx accounts
    | 11 => args ← deserialize_args borsh payload; process_settle_account_owner cx accounts args
    | 12 => dispatch_lamports accounts payload
    | 13 => n ← deserialize_args u64c payload; process_start_withdrawal cx accounts n
    | 14 => args ← deserialize_args borsh payload; process_propose_checkpoint cx accounts args
    | 15 => args ← deserialize_args borsh payload; process_commit_checkpoint cx accounts args
    | 16 => args ← deserialize_args borsh payload; process_cancel_checkpoint cx accounts args
    | 17 => args ← deserialize_args borsh payload; process_open_challenge cx accounts args
    | 18 => args ← deserialize_args borsh payload; process_create_step_proof features cx accounts args
    | 19 => args ← deserialize_args borsh payload; process_write_step_proof cx accounts args
    | 20 => args ← deserialize_args borsh payload; process_seal_step_proof cx accounts args
    | 21 => args ← deserialize_args borsh payload; process_resolve_challenge features cx accounts args
    | 22 => args ← deserialize_args borsh payload; process_register_session_bridge cx accounts args
    | 23 => args ← deserialize_args borsh payload; process_respond_challenge cx accounts args
    | 24 => args ← deserialize_args borsh payload; process_bisect_challenge cx accounts args
    | 25 => args ← deserialize_args borsh payload; process_timeout_challenge cx accounts args
    | 26 => args ← deserialize_args borsh payload; process_accumulate_token_withdrawal continuity_v2 cx accounts args
    | 27 => args ← deserialize_args borsh payload; process_consume_token_withdrawal continuity_v2 cx accounts args
    | 28 => process_request_undelegation cx accounts
    | 29 => process_approve_undelegation cx accounts
    | 30 =>
        if zk_verifier_prototype features then
          args ← deserialize_args borsh payload; process_verify_er_step_proof_v1 features args
        else fail InvalidInstructionData
    | _ =>
      if continuity_v2 then
        match tag with
        | 31 => args ← deserialize_args_exact borsh payload; process_open_session_v2 cx accounts args
        | 32 => grid ← deserialize_args_exact u64c payload; process_delegate_v2 cx accounts grid
        | 33 => n ← deserialize_args_exact u64c payload; process_deposit_fee_v2 cx accounts n
        | 34 => args ← deserialize_args_exact borsh payload; process_propose_checkpoint_v2 cx accounts args
        | 35 => args ← deserialize_args_exact borsh payload; process_commit_checkpoint_v2 cx accounts args
        | 36 => args ← deserialize_args_exact borsh payload; process_register_session_bridge_v2 cx accounts args
        | 37 => args ← deserialize_args_exact borsh payload; process_record_token_deposit_v2 cx accounts args
        | _ => fail InvalidInstructionData
        end
      else fail InvalidInstructionData
    end
  end.

(** ** What an instruction means *)

Definition handle (accounts : list Address) (x : PortalInstruction.t) : prog unit :=
  match x with
  | PortalInstruction.CloseSession => process_close_session cx accounts
  | PortalInstruction.Undelegate => process_undelegate cx accounts
  | PortalInstruction.AbortSettlement => process_abort_settlement cx accounts
  | PortalInstruction.UndelegateHandoff => process_undelegate_handoff cx accounts
  | PortalInstruction.RequestUndelegation => process_request_undelegation cx accounts
  | PortalInstruction.ApproveUndelegation => process_approve_undelegation cx accounts
  | PortalInstruction.DepositFee n => process_deposit_fee cx accounts n
  | PortalInstruction.Delegate n => process_delegate cx accounts n
  | PortalInstruction.StartWithdrawal n => process_start_withdrawal cx accounts n
  | PortalInstruction.DelegateV2 n => process_delegate_v2 cx accounts n
  | PortalInstruction.DepositFeeV2 n => process_deposit_fee_v2 cx accounts n
  | PortalInstruction.OpenSession args => process_open_session cx accounts args
  | PortalInstruction.BeginSettlement args => process_begin_settlement cx accounts args
  | PortalInstruction.WriteSettlementChunk args => process_write_settlement_chunk cx accounts args
  | PortalInstruction.FinishSettlement args => process_finish_settlement cx accounts args
  | PortalInstruction.SettleDepositReceipt args => process_settle_deposit_receipt cx accounts args
  | PortalInstruction.SettleAccountOwner args => process_settle_account_owner cx accounts args
  | PortalInstruction.SettleAccountLamports args => process_settle_account_lamports cx accounts args
  | PortalInstruction.ProposeCheckpoint args => process_propose_checkpoint cx accounts args
  | PortalInstruction.CommitCheckpoint args => process_commit_checkpoint cx accounts args
  | PortalInstruction.CancelCheckpoint args => process_cancel_checkpoint cx accounts args
  | PortalInstruction.OpenChallenge args => process_open_challenge cx accounts args
  | PortalInstruction.WriteStepProof args => process_write_step_proof cx accounts args
  | PortalInstruction.SealStepProof args => process_seal_step_proof cx accounts args
  | PortalInstruction.RegisterSessionBridge args => process_register_session_bridge cx accounts args
  | PortalInstruction.RespondChallenge args => process_respond_challenge cx accounts args
  | PortalInstruction.BisectChallenge args => process_bisect_challenge cx accounts args
  | PortalInstruction.TimeoutChallenge args => process_timeout_challenge cx accounts args
  | PortalInstruction.OpenSessionV2 args => process_open_session_v2 cx accounts args
  | PortalInstruction.ProposeCheckpointV2 args => process_propose_checkpoint_v2 cx accounts args
  | PortalInstruction.CommitCheckpointV2 args => process_commit_checkpoint_v2 cx accounts args
  | PortalInstruction.RegisterSessionBridgeV2 args => process_register_session_bridge_v2 cx accounts args
  | PortalInstruction.RecordTokenDepositV2 args => process_record_token_deposit_v2 cx accounts args
  | PortalInstruction.CreateStepProof args => process_create_step_proof features cx accounts args
  | PortalInstruction.ResolveChallenge args => process_resolve_challenge features cx accounts args
  | PortalInstruction.AccumulateTokenWithdrawal args => process_accumulate_token_withdrawal continuity_v2 cx accounts args
  | PortalInstruction.ConsumeTokenWithdrawal args => process_consume_token_withdrawal continuity_v2 cx accounts args
  | PortalInstruction.VerifyErStepProofV1 args => process_verify_er_step_proof_v1 features args
  end.

(** The build has the instruction. *)
Definition enabled (x : PortalInstruction.t) : bool :=
  match x with
  | PortalInstruction.VerifyErStepProofV1 _ => zk_verifier_prototype features
  | PortalInstruction.OpenSessionV2 _ | PortalInstruction.DelegateV2 _ | PortalInstruction.DepositFeeV2 _
  | PortalInstruction.ProposeCheckpointV2 _ | PortalInstruction.CommitCheckpointV2 _
  | PortalInstruction.RegisterSessionBridgeV2 _ | PortalInstruction.RecordTokenDepositV2 _ => continuity_v2
  | _ => true
  end.

Lemma deserialize_args_enc {A} (c : codec A) `{!CodecOk c} (x : A) w :
  wf c x → deserialize_args c (enc c x) w = Ok (x, w).
Proof. intros Hx. unfold deserialize_args. pose proof (dec_enc x [] Hx) as E. rewrite app_nil_r in E. by rewrite E. Qed.

Lemma deserialize_args_exact_enc {A} (c : codec A) `{!CodecOk c} (x : A) w :
  wf c x → deserialize_args_exact c (enc c x) w = Ok (x, w).
Proof.
  intros Hx. unfold deserialize_args_exact. pose proof (dec_enc x [] Hx) as E. rewrite app_nil_r in E. by rewrite E.
Qed.

(** The arm of a concrete tag. *)
Ltac arm :=
  unfold process_instruction, PortalInstruction.serialize, split_instruction, handle;
  match goal with |- context [byte_val ?b] => let v := eval vm_compute in (byte_val b) in change (byte_val b) with v end;
  cbv beta iota.

Lemma process_instruction_serialize accounts x w :
  PortalInstruction.in_range x → enabled x = true →
  process_instruction accounts (PortalInstruction.serialize x) w = handle accounts x w.
Proof.
  intros Hx He.
  destruct x; cbn [PortalInstruction.in_range enabled] in Hx, He; arm; try rewrite He; try reflexivity;
    try (by apply bind_run; first [apply (deserialize_args_enc borsh)|apply (deserialize_args_enc u64c)
           |apply (deserialize_args_exact_enc borsh)|apply (deserialize_args_exact_enc u64c)]).
  unfold dispatch_lamports. rewrite (bind_run _ _ _ _ _ (deserialize_args_enc borsh args w Hx)).
  cbv zeta. by rewrite drop_ge by (rewrite codec_size by done; reflexivity).
Qed.

(** Any other bytes fail before a handler runs. *)
Lemma process_instruction_unknown accounts data w :
  match data with [] => True | tag :: _ => 37 < byte_val tag end →
  process_instruction accounts data w = Err InvalidInstructionData.
Proof.
  destruct data as [|tag payload]; [done|]. intros Ht. unfold process_instruction, split_instruction.
  generalize dependent (byte_val tag). intros z Hz. destruct z as [|p|p]; [lia| |lia].
  destruct continuity_v2; do 6 (try (destruct p as [p|p|]; [| |try (exfalso; lia)])); reflexivity || (exfalso; lia).
Qed.
End dispatch.
