(* ===== verification/Bridge.v ===== *)
(** * The token bridge program
      (token-bridge/src/processor.rs, processor/token_deposit.rs,
       processor/token_ingress_v2.rs, portal_abi.rs, instruction.rs)

    Every instruction of the bridge: the vault of a session's mint, the token
    accounts of the rollup, deposits, withdrawals, and the delegation of token
    accounts to the Portal, with the calls into the SPL Token program and into
    the Portal.

    The SPL Token program is not part of the repository: [Spl] is its interface
    and [SplLaws] what its documentation promises of [TransferChecked].  A call
    into another program runs what [Programs] deploys at its address, so that the
    Portal's own dispatcher can be put there. *)

From Stdlib Require Import ZArith Lia.
From Stdlib Require Import Strings.Byte.
From stdpp Require Import base gmap list numbers.
From S2P Require Import Prelude Borsh Events Runtime State Commitments Frames Toy Pda Instruction SessionOps Delegation Ingress TokenWithdrawal BridgeState.

(** ** Instructions *)

Definition unitc : codec unit := {| enc _ := []; dec bs := Some (tt, bs); wf _ := True |}.
#[global] Instance unitc_ok : CodecOk unitc.
Proof. split; [by intros []|]. by intros bs [] r [= ->]. Qed.

Module TokenBridgeInstruction.
Inductive t : Set :=
| InitializeVault
| InitializeErTokenAccount (owner : Hash32)
| Deposit (amount decimals : Z)
| Transfer (amount : Z)
| Withdraw (amount decimals : Z)
| DelegateErTokenAccount (grid_id : Z)
| UndelegateErTokenAccount
| StartWithdrawal (amount decimals : Z)
| SettleWithdrawal (er_slot : Z) (checksum : Hash32) (amount withdrawn decimals : Z)
| RequestUndelegation
| ApplyTokenDeposit (balance : Z).

Definition to_sum (x : t) : unit + (Hash32 + (Z * Z + (Z + (Z * Z + (Z + (unit + (Z * Z
    + ((Z * (Hash32 * (Z * (Z * Z)))) + (unit + Z))))))))) :=
  match x with
  | InitializeVault => inl tt
  | InitializeErTokenAccount o => inr (inl o)
  | Deposit n d => inr (inr (inl (n, d)))
  | Transfer n => inr (inr (inr (inl n)))
  | Withdraw n d => inr (inr (inr (inr (inl (n, d)))))
  | DelegateErTokenAccount g => inr (inr (inr (inr (inr (inl g)))))
  | UndelegateErTokenAccount => inr (inr (inr (inr (inr (inr (inl tt))))))
  | StartWithdrawal n d => inr (inr (inr (inr (inr (inr (inr (inl (n, d))))))))
  | SettleWithdrawal s c n k d => inr (inr (inr (inr (inr (inr (inr (inr (inl (s, (c, (n, (k, d))))))))))))
  | RequestUndelegation => inr (inr (inr (inr (inr (inr (inr (inr (inr (inl tt)))))))))
  | ApplyTokenDeposit b => inr (inr (inr (inr (inr (inr (inr (inr (inr (inr b)))))))))
  end.
Definition of_sum (s : unit + (Hash32 + (Z * Z + (Z + (Z * Z + (Z + (unit + (Z * Z
    + ((Z * (Hash32 * (Z * (Z * Z)))) + (unit + Z)))))))))) : t :=
  match s with
  | inl _ => InitializeVault
  | inr (inl o) => InitializeErTokenAccount o
  | inr (inr (inl (n, d))) => Deposit n d
  | inr (inr (inr (inl n))) => Transfer n
  | inr (inr (inr (inr (inl (n, d))))) => Withdraw n d
  | inr (inr (inr (inr (inr (inl g))))) => DelegateErTokenAccount g
  | inr (inr (inr (inr (inr (inr (inl _)))))) => UndelegateErTokenAccount
  | inr (inr (inr (inr (inr (inr (inr (inl (n, d)))))))) => StartWithdrawal n d
  | inr (inr (inr (inr (inr (inr (inr (inr (inl (s, (c, (n, (k, d)))))))))))) => SettleWithdrawal s c n k d
  | inr (inr (inr (inr (inr (inr (inr (inr (inr (inl _))))))))) => RequestUndelegation
  | inr (inr (inr (inr (inr (inr (inr (inr (inr (inr b))))))))) => ApplyTokenDeposit b
  end.
#[global] Instance sum_fields : Fields to_sum of_sum.
Proof. split; [by intros []|]. intros s. repeat destruct s as [s|s]; by repeat match goal with p : (_ * _)%type |- _ => destruct p | u : unit |- _ => destruct u end. Qed.
#[global] Instance codec : Borsh t := struct to_sum of_sum (union
  (case 0 unitc ⊎c case 1 (bytes 32) ⊎c case 2 (u64c *c u8c) ⊎c case 3 u64c ⊎c case 4 (u64c *c u8c) ⊎c
   case 5 u64c ⊎c case 6 unitc ⊎c case 7 (u64c *c u8c) ⊎c
   case 8 (u64c *c bytes 32 *c u64c *c u64c *c u8c) ⊎c case 9 unitc ⊎c case 10 u64c)).
#[global] Instance codec_ok : CodecOk (borsh (A:=t)).
Proof.
  apply struct_ok; [apply _|]. apply (union_ok _ 11); [|lia].
  apply (case_or_ok _ _ _ 1); [lia|apply case_ok, _|].
  apply (case_or_ok _ _ _ 2); [lia|apply case_ok, _|].
  apply (case_or_ok _ _ _ 3); [lia|apply case_ok, _|].
  apply (case_or_ok _ _ _ 4); [lia|apply case_ok, _|].
  apply (case_or_ok _ _ _ 5); [lia|apply case_ok, _|].
  apply (case_or_ok _ _ _ 6); [lia|apply case_ok, _|].
  apply (case_or_ok _ _ _ 7); [lia|apply case_ok, _|].
  apply (case_or_ok _ _ _ 8); [lia|apply case_ok, _|].
  apply (case_or_ok _ _ _ 9); [lia|apply case_ok, _|].
  apply (case_or_ok _ _ _ 10); [lia|apply case_ok, _|apply case_ok, _].
Qed.
End TokenBridgeInstruction.

(** ** The programs the bridge calls *)

(** An SPL token account, as far as the bridge and the laws below read it. *)
Record SplAccount : Set := mkSplAccount {
  spl_mint : Address;
  spl_owner : Address;
  spl_amount : Z;
  spl_delegate : option Address
}.
Record SplMint : Set := mkSplMint {
  spl_initialized : bool;
  spl_decimals : Z
}.

(** [spl_token_interface]'s [unpack] functions and the Token program's
    [TransferChecked], which runs in the context of the call. *)
Class Spl : Type := {
  spl_unpack_account : list byte → option SplAccount;
  spl_unpack_mint : list byte → option SplMint;
  transfer_checked : Ctx → (* source, mint, destination, authority *)
    Address → Address → Address → Address → (* amount, decimals *) Z → Z → prog unit
}.

(** A token account has 165 bytes.  What a successful [TransferChecked] has
    checked and done: both accounts
    belong to the Token program and hold the mint; the authority is the source's
    owner or delegate and signs; the amount moves, unless source and destination
    are one account; no other account changes, and the two keep their mint,
    their owner, and lack of a delegate. *)
Class SplLaws `{Host, Spl} : Prop := {
  spl_unpack_length d a : spl_unpack_account d = Some a → length d = 165%nat;
  spl_amount_range d a : spl_unpack_account d = Some a → is_u64 (spl_amount a);
  transfer_checked_Ok c source mint destination authority n d w u w' :
    transfer_checked c source mint destination authority n d w = Ok (u, w') →
    ∃ a b a' b',
      owner (acct w source) = token_program_id ∧ owner (acct w destination) = token_program_id ∧
      spl_unpack_account (data (acct w source)) = Some a ∧
      spl_unpack_account (data (acct w destination)) = Some b ∧
      spl_mint a = mint ∧ spl_mint b = mint ∧
      (authority = spl_owner a ∨ spl_delegate a = Some authority) ∧ is_signer c authority = true ∧
      n ≤ spl_amount a ∧
      owner (acct w' source) = token_program_id ∧ owner (acct w' destination) = token_program_id ∧
      spl_unpack_account (data (acct w' source)) = Some a' ∧
      spl_unpack_account (data (acct w' destination)) = Some b' ∧
      spl_mint a' = mint ∧ spl_mint b' = mint ∧ spl_owner a' = spl_owner a ∧ spl_owner b' = spl_owner b ∧
      (spl_delegate a = None → spl_delegate a' = None) ∧ spl_delegate b' = spl_delegate b ∧
      (if decide (source = destination) then spl_amount a' = spl_amount a
       else spl_amount a' = spl_amount a - n ∧ spl_amount b' = spl_amount b + n) ∧
      (∀ x, x ≠ source → x ≠ destination → acct w' x = acct w x)
}.

(** What runs at a program address. *)
Class Programs : Type := run_program : Address → Ctx → list Address → list byte → prog unit.

Section invoke.
Context `{Host, Spl, Programs} (cx : Ctx).
Implicit Types metas : list (Address * bool * bool).

(** The context of the callee: the privileges are those of the metas. *)
Definition callee_ctx (p : Address) metas : Ctx :=
  mkCtx p (clock cx) (list_to_set ((λ m, m.1.1) <$> metas))
    (list_to_set ((λ m, m.1.1) <$> filter (λ m, m.1.2 = true) metas))
    (list_to_set ((λ m, m.1.1) <$> filter (λ m, m.2 = true) metas)).

(** [invoke_signed(&instruction, infos, &[Signer::from(&seeds)])] *)
Definition invoke_signed (p : Address) metas (instruction_data : list byte) (seeds : list (list byte)) : prog unit :=
  extra ← seed_signers cx seeds;
  verify_instruction_accounts cx extra p metas ;;
  run_program p (callee_ctx p metas) ((λ m, m.1.1) <$> metas) instruction_data.

(** [TransferChecked::new(..).invoke()] without seeds, [invoke_signed] with. *)
Definition TransferChecked (signer : option (list (list byte))) (source mint destination authority : Address)
    (amount decimals : Z) : prog unit :=
  let metas := [(source, false, true); (mint, false, false); (destination, false, true); (authority, true, false)] in
  extra ← match signer with Some seeds => seed_signers cx seeds | None => mret ∅ end;
  verify_instruction_accounts cx extra token_program_id metas ;;
  transfer_checked (callee_ctx token_program_id metas) source mint destination authority amount decimals.
End invoke.

(** ** The program

    [continuity_v2] is the feature [checkpoint-continuity-v2]. *)
Module TokenBridge.

Section program.
Context `{Host, Spl, Programs} (continuity_v2 : bool) (cx : Ctx).

(** *** Addresses *)

Definition find_token_vault_pda (program_id session_bridge : Address) : Address * Z :=
  find_program_address [TokenVault.SEED_PREFIX; session_bridge] program_id.

Definition find_er_token_account_pda (program_id session_bridge owner : Address) : Address * Z :=
  find_program_address [ErTokenAccount.SEED_PREFIX; session_bridge; owner] program_id.

Definition find_token_deposit_receipt_pda (program_id session_bridge er_token_account : Address) : Address * Z :=
  find_program_address [TokenDepositReceipt.SEED_PREFIX; session_bridge; er_token_account] program_id.

Definition find_buffer_pda (program_id er_token_account : Address) : Address * Z :=
  find_program_address [BridgeBuffer.SEED_PREFIX; er_token_account] program_id.

(** *** Guards and account access *)

Definition require_signer (account : Address) : prog unit :=
  err_if (negb (is_signer cx account)) MissingRequiredSignature.

Definition require_self_program (account : Address) : prog unit :=
  err_if (account != program_id cx) IncorrectProgramId.

Definition require_system_program (account : Address) : prog unit :=
  err_if (account != system_id) IncorrectProgramId.

(** [store]: the state fills the account exactly. *)
Definition store {A} `{Borsh A} (account : Address) (state : A) : prog unit :=
  x ← get_acct account;
  err_if (negb (bool_decide (length (data x) = object_length state))) InvalidAccountData ;;
  set_data account (enc borsh state).

Definition create_pda (payer pda : Address) (space : nat) (owner : Address) (seeds : list (list byte))
    (system_program_info : Address) : prog unit :=
  require_system_program system_program_info ;;
  n ← lift_err id (try_minimum_balance space);
  x ← get_acct pda;
  if lamports x =? 0 then CreateAccount cx payer pda n space owner seeds
  else
    err_if (negb (is_data_empty x) || negb (owned_by x system_id)) InvalidAccountData ;;
    (if lamports x <? n then
       amount ← ok_or (checked_sub n (lamports x)) ArithmeticOverflow;
       Transfer cx payer pda amount
     else mret tt) ;;
    Allocate cx pda space seeds ;;
    Assign cx pda owner seeds.

(** Borrowing both accounts at once fails when they are one. *)
Definition copy_data (from to : Address) : prog unit :=
  err_if (from == to) AccountBorrowFailed ;;
  source ← get_acct from;
  destination ← get_acct to;
  err_if (negb (bool_decide (length (data source) = length (data destination)))) InvalidAccountData ;;
  set_data to (data source).

Definition close_buffer (buffer recipient : Address) : prog unit :=
  b ← get_acct buffer;
  r ← get_acct recipient;
  recipient_lamports ← ok_or (u64_checked_add (lamports r) (lamports b)) ArithmeticOverflow;
  set_lamports recipient recipient_lamports ;;
  set_lamports buffer 0 ;;
  close buffer.

Definition create_buffer (payer buffer er_token_account system_program_info : Address) : prog unit :=
  let '(expected, bump) := find_buffer_pda (program_id cx) er_token_account in
  err_if (expected != buffer) InvalidSeeds ;;
  b ← get_acct buffer;
  e ← get_acct er_token_account;
  (if owned_by b (program_id cx) then mret tt
   else create_pda payer buffer (length (data e)) (program_id cx)
          [BridgeBuffer.SEED_PREFIX; er_token_account; le_bytes 1 bump] system_program_info) ;;
  b ← get_acct buffer;
  e ← get_acct er_token_account;
  err_if (negb (owned_by b (program_id cx)) || negb (bool_decide (length (data b) = length (data e))))
    InvalidAccountData.

Definition er_signer_seeds (state : ErTokenAccount.t) : list (list byte) :=
  [ErTokenAccount.SEED_PREFIX; ErTokenAccount.session_bridge state; ErTokenAccount.owner state;
   le_bytes 1 (ErTokenAccount.bump state)].

Definition vault_seeds (session_bridge : Address) (bump : Z) : list (list byte) :=
  [TokenVault.SEED_PREFIX; session_bridge; le_bytes 1 bump].

(** *** The Portal's accounts (portal_abi.rs) *)

Definition registration_v2 (bridge_program portal address : Address) (d : list byte) : prog SessionBridgeV2.t :=
  frame ← ok_or (try_from_slice d) InvalidAccountData;
  let base := SessionBridgeV2.base frame in
  let '(expected, bump) := find_session_bridge_v2_pda portal (SessionBridgeV2.session_context frame)
                             (SessionBridge.mint base) in
  let vault := (find_program_address [str "token_vault"; address] bridge_program).1 in
  err_if (negb (SessionBridgeV2.is_valid frame)
          || (SessionBridge.bridge_program base != bridge_program)
          || (SessionBridge.token_program base != token_program_id)
          || (SessionBridge.session base != (find_session_pda portal).1)
          || (address != expected)
          || (SessionBridge.bump base != bump)
          || (SessionBridge.vault base != vault)) InvalidAccountData ;;
  mret frame.

Definition session_v2 (registration : SessionBridgeV2.t) (portal address : Address) (d : list byte) : prog SessionV2.t :=
  frame ← ok_or (try_from_slice d) InvalidAccountData;
  let '(expected, bump) := find_session_pda portal in
  context ← lift_err (λ _, InvalidAccountData)
    (SessionIdentityV2.commitment (SessionV2.identity frame portal address) hash_parts);
  err_if (negb (SessionV2.is_valid frame)
          || (address != expected)
          || (address != SessionBridge.session (SessionBridgeV2.base registration))
          || (Session.bump (SessionV2.base frame) != bump)
          || (context != SessionBridgeV2.session_context registration)) InvalidAccountData ;;
  mret frame.

Definition is_valid_settlement_session (session : Session.t) (validator : Address) : bool :=
  Session.is_valid session && (Session.validator session == validator).

Definition is_valid_settlement_checkpoint (checkpoint : Checkpoint.t) (session : Address) (er_slot : Z)
    (checksum : Hash32) : bool :=
  Checkpoint.is_valid checkpoint && (Checkpoint.session checkpoint == session)
  && (Checkpoint.er_slot checkpoint == er_slot) && (Checkpoint.effect_commitment checkpoint == checksum)
  && (Checkpoint.status checkpoint == CheckpointStatus.Settled).

(** *** Loading and checking state *)

Definition load_session_bridge (session_bridge portal_program : Address) : prog SessionBridge.t :=
  x ← get_acct session_bridge;
  err_if (negb (owned_by x portal_program)) InvalidAccountOwner ;;
  bridge ← (if continuity_v2 then
              frame ← registration_v2 (program_id cx) portal_program session_bridge (data x);
              mret (SessionBridgeV2.base frame)
            else load session_bridge InvalidAccountData);
  err_if (negb (SessionBridge.is_valid bridge) || (SessionBridge.bridge_program bridge != program_id cx))
    InvalidAccountData ;;
  mret bridge.

Definition load_vault (vault session_bridge : Address) : prog TokenVault.t :=
  x ← get_acct vault;
  err_if (negb (owned_by x (program_id cx))) InvalidAccountOwner ;;
  state ← load vault InvalidAccountData;
  err_if (negb (TokenVault.is_valid state) || (TokenVault.session_bridge state != session_bridge))
    InvalidAccountData ;;
  (if continuity_v2 then
     let '(expected, bump) := find_token_vault_pda (program_id cx) session_bridge in
     err_if ((vault != expected) || (TokenVault.bump state != bump)) InvalidSeeds
   else mret tt) ;;
  mret state.

Definition require_er_token_account_pda (account : Address) (state : ErTokenAccount.t) : prog unit :=
  let '(expected, bump) := find_er_token_account_pda (program_id cx) (ErTokenAccount.session_bridge state)
                             (ErTokenAccount.owner state) in
  err_if ((account != expected) || (ErTokenAccount.bump state != bump)) InvalidSeeds.

Definition load_er_token_account_data (account : Address) : prog ErTokenAccount.t :=
  state ← load account InvalidAccountData;
  err_if (negb (ErTokenAccount.is_valid state)) InvalidAccountData ;;
  mret state.

Definition load_er_token_account (account : Address) : prog ErTokenAccount.t :=
  x ← get_acct account;
  err_if (negb (owned_by x (program_id cx))) InvalidAccountOwner ;;
  state ← load account InvalidAccountData;
  err_if (negb (ErTokenAccount.is_valid state)) InvalidAccountData ;;
  require_er_token_account_pda account state ;;
  mret state.

Definition require_bridge_delegation (er_token_account delegation_record portal_program : Address) : prog unit :=
  let '(expected, _) := find_program_address [str "delegation"; er_token_account] portal_program in
  x ← get_acct delegation_record;
  err_if ((expected != delegation_record) || negb (owned_by x portal_program)) InvalidSeeds ;;
  record ← load delegation_record InvalidAccountData;
  err_if (negb (DelegationRecord.is_valid record) || (DelegationRecord.owner_program record != program_id cx))
    InvalidAccountData.

Definition require_er_account (state : ErTokenAccount.t) (session_bridge owner mint : Address) : prog unit :=
  err_if ((ErTokenAccount.session_bridge state != session_bridge) || (ErTokenAccount.owner state != owner)
          || (ErTokenAccount.mint state != mint)) InvalidAccountData.

Definition require_bridge_token_accounts (bridge : SessionBridge.t) (vault : TokenVault.t)
    (vault_token_account mint token_program : Address) : prog unit :=
  err_if ((SessionBridge.mint bridge != mint) || (SessionBridge.token_program bridge != token_program)
          || (TokenVault.mint vault != SessionBridge.mint bridge)
          || (TokenVault.token_program vault != SessionBridge.token_program bridge)
          || (TokenVault.vault_token_account vault != vault_token_account)) InvalidAccountData.

Definition unpack_token_account (account : Address) : prog SplAccount :=
  x ← get_acct account;
  ok_or (spl_unpack_account (data x)) InvalidAccountData.

(** *** Creating the accounts *)

Definition new_vault (bridge : SessionBridge.t) (session_bridge vault_token_account : Address) (bump : Z) : TokenVault.t :=
  TokenVault.mk TokenVault.DISCRIMINATOR session_bridge (SessionBridge.mint bridge) vault_token_account
    (SessionBridge.token_program bridge) 0 0 bump.

Definition process_initialize_vault (accounts : list Address) : prog unit :=
  match accounts with
  | payer :: vault :: session_bridge :: portal_program :: vault_token_account :: system_program_info :: _ =>
    require_signer payer ;;
    require_system_program system_program_info ;;
    bridge ← load_session_bridge session_bridge portal_program;
    err_if (SessionBridge.vault bridge != vault) InvalidSeeds ;;
    let '(expected_vault, bump) := find_token_vault_pda (program_id cx) session_bridge in
    err_if (expected_vault != vault) InvalidSeeds ;;
    vault_token ← unpack_token_account vault_token_account;
    err_if ((spl_owner vault_token != vault) || (spl_mint vault_token != SessionBridge.mint bridge))
      InvalidAccountData ;;
    let state := new_vault bridge session_bridge vault_token_account bump in
    x ← get_acct vault;
    (if lamports x =? 0 then
       create_pda payer vault (account_size state) (program_id cx) (vault_seeds session_bridge bump) system_program_info
     else fail AccountAlreadyInitialized) ;;
    store vault state
  | _ => fail NotEnoughAccountKeys
  end.

Definition process_initialize_er_token_account (accounts : list Address) (owner : Hash32) : prog unit :=
  match accounts with
  | payer :: er_token_account :: session_bridge :: portal_program :: system_program_info :: _ =>
    require_signer payer ;;
    require_system_program system_program_info ;;
    bridge ← load_session_bridge session_bridge portal_program;
    let '(expected, bump) := find_er_token_account_pda (program_id cx) session_bridge owner in
    err_if (expected != er_token_account) InvalidSeeds ;;
    let state := ErTokenAccount.mk ErTokenAccount.DISCRIMINATOR session_bridge owner (SessionBridge.mint bridge) 0 bump in
    x ← get_acct er_token_account;
    (if lamports x =? 0 then
       create_pda payer er_token_account (account_size state) (program_id cx) (er_signer_seeds state)
         system_program_info
     else fail AccountAlreadyInitialized) ;;
    store er_token_account state
  | _ => fail NotEnoughAccountKeys
  end.

(** *** Deposits *)

(** [token_ingress_v2::validate_context] *)
Definition validate_context (portal session registry vault : Address) : prog unit :=
  px ← get_acct portal;
  sx ← get_acct session;
  err_if (negb (executable px) || negb (owned_by sx portal) || executable sx) InvalidAccountOwner ;;
  rx ← get_acct registry;
  registration ← registration_v2 (program_id cx) portal registry (data rx);
  frame ← session_v2 registration portal session (data sx);
  err_if (Session.is_expired (SessionV2.base frame) (slot (clock cx))
          || (vault != SessionBridge.vault (SessionBridgeV2.base registration))) InvalidAccountData.

Record DepositIngressV2 : Set := mkDepositIngressV2 {
  di_payer : Address; di_system : Address; di_session : Address; di_registry : Address; di_vault : Address;
  di_er : Address; di_delegation : Address; di_receipt : Address; di_origin : Address; di_ingress : Address;
  di_portal : Address
}.

(** [DepositIngressV2::append] *)
Definition append (x : DepositIngressV2) (vault_bump amount : Z) : prog unit :=
  invoke_signed cx (di_portal x)
    [(di_payer x, true, true); (di_system x, false, false); (di_session x, false, true);
     (di_registry x, false, false); (di_vault x, true, false); (di_er x, false, false);
     (di_delegation x, false, false); (di_receipt x, false, false); (di_origin x, false, false);
     (di_ingress x, false, true)]
    (byte_of_Z 37 :: le_bytes 8 amount) (vault_seeds (di_registry x) vault_bump).

(** The four further accounts of a deposit in the V2 build. *)
Definition deposit_inputs (rest : list Address) : prog (option (Address * Address * Address * Address)) :=
  if continuity_v2 then
    match rest with
    | request :: session :: origin :: ingress :: _ => mret (Some (request, session, origin, ingress))
    | _ => fail NotEnoughAccountKeys
    end
  else mret None.

(** The request account, which the V1 build takes only for a delegated account. *)
Definition request_account (inputs : option (Address * Address * Address * Address)) (rest : list Address) :
    prog Address :=
  match inputs with
  | Some (request, _, _, _) => mret request
  | None => match rest with request :: _ => mret request | [] => fail NotEnoughAccountKeys end
  end.

(** Deposits into an account whose undelegation is requested are frozen. *)
Definition require_not_frozen (er_token_account portal_program request : Address) : prog unit :=
  let expected := (find_program_address [str "undelegation_request"; er_token_account] portal_program).1 in
  err_if (request != expected) InvalidSeeds ;;
  q ← get_acct request;
  err_if (negb (owned_by q system_id) || negb (is_data_empty q)) InvalidAccountData.

(** The receipt, created on the first deposit. *)
Definition open_receipt (payer session_bridge er_token_account deposit_receipt : Address) (receipt_bump : Z)
    (system_program_info : Address) : prog TokenDepositReceipt.t :=
  let initial_receipt := TokenDepositReceipt.mk TokenDepositReceipt.DISCRIMINATOR session_bridge er_token_account
                           0 0 receipt_bump in
  x ← get_acct deposit_receipt;
  (if lamports x =? 0 then
     create_pda payer deposit_receipt (account_size initial_receipt) (program_id cx)
       [TokenDepositReceipt.SEED_PREFIX; session_bridge; er_token_account; le_bytes 1 receipt_bump] system_program_info
   else err_if (negb (owned_by x (program_id cx))) InvalidAccountOwner) ;;
  x ← get_acct deposit_receipt;
  receipt ← match data x with
            | [] => fail Panicked
            | b :: _ => if byte_val b =? 0 then mret initial_receipt else load deposit_receipt InvalidAccountData
            end;
  err_if (negb (TokenDepositReceipt.is_valid receipt)
          || (TokenDepositReceipt.session_bridge receipt != session_bridge)
          || (TokenDepositReceipt.er_token_account receipt != er_token_account)
          || (TokenDepositReceipt.bump receipt != receipt_bump)) InvalidAccountData ;;
  mret receipt.

Definition with_receipt_balance (n : Z) (r : TokenDepositReceipt.t) : TokenDepositReceipt.t :=
  TokenDepositReceipt.mk (TokenDepositReceipt.discriminator r) (TokenDepositReceipt.session_bridge r)
    (TokenDepositReceipt.er_token_account r) n (TokenDepositReceipt.withdrawn r) (TokenDepositReceipt.bump r).
Definition with_deposited (n : Z) (v : TokenVault.t) : TokenVault.t :=
  TokenVault.mk (TokenVault.discriminator v) (TokenVault.session_bridge v) (TokenVault.mint v)
    (TokenVault.vault_token_account v) (TokenVault.token_program v) n (TokenVault.withdrawn v) (TokenVault.bump v).
Definition with_withdrawn (n : Z) (v : TokenVault.t) : TokenVault.t :=
  TokenVault.mk (TokenVault.discriminator v) (TokenVault.session_bridge v) (TokenVault.mint v)
    (TokenVault.vault_token_account v) (TokenVault.token_program v) (TokenVault.deposited v) n (TokenVault.bump v).
Definition with_amount (n : Z) (e : ErTokenAccount.t) : ErTokenAccount.t :=
  ErTokenAccount.mk (ErTokenAccount.discriminator e) (ErTokenAccount.session_bridge e) (ErTokenAccount.owner e)
    (ErTokenAccount.mint e) n (ErTokenAccount.bump e).

Definition process_deposit (accounts : list Address) (amount decimals : Z) : prog unit :=
  match accounts with
  | payer :: owner :: vault :: er_token_account :: session_bridge :: portal_program :: source_token_account
      :: vault_token_account :: mint :: token_program :: deposit_receipt :: delegation_record
      :: system_program_info :: rest =>
    inputs ← deposit_inputs rest;
    require_signer payer ;;
    require_signer owner ;;
    require_system_program system_program_info ;;
    bridge ← load_session_bridge session_bridge portal_program;
    vault_state ← load_vault vault session_bridge;
    require_bridge_token_accounts bridge vault_state vault_token_account mint token_program ;;
    er_state ← load_er_token_account_data er_token_account;
    require_er_account er_state session_bridge owner (SessionBridge.mint bridge) ;;
    match inputs with
    | Some (_, session, _, _) =>
        err_if ((amount =? 0) || (source_token_account == vault_token_account)) InvalidInstructionData ;;
        require_er_token_account_pda er_token_account er_state ;;
        validate_context portal_program session session_bridge vault
    | None => mret tt
    end ;;
    ex ← get_acct er_token_account;
    let is_delegated := owned_by ex portal_program in
    err_if (negb is_delegated && negb (owned_by ex (program_id cx))) InvalidAccountOwner ;;
    (if is_delegated then
       require_bridge_delegation er_token_account delegation_record portal_program ;;
       request ← request_account inputs rest;
       require_not_frozen er_token_account portal_program request
     else mret tt) ;;
    let '(expected_receipt, receipt_bump) :=
      find_token_deposit_receipt_pda (program_id cx) session_bridge er_token_account in
    err_if (expected_receipt != deposit_receipt) InvalidSeeds ;;
    err_if (token_program != token_program_id) IncorrectProgramId ;;
    TransferChecked cx None source_token_account mint vault_token_account owner amount decimals ;;
    receipt ← open_receipt payer session_bridge er_token_account deposit_receipt receipt_bump system_program_info;
    balance ← ok_or (u64_checked_add (TokenDepositReceipt.balance receipt) amount) ArithmeticOverflow;
    store deposit_receipt (with_receipt_balance balance receipt) ;;
    deposited ← ok_or (u64_checked_add (TokenVault.deposited vault_state) amount) ArithmeticOverflow;
    store vault (with_deposited deposited vault_state) ;;
    if is_delegated then
      match inputs with
      | Some (_, session, origin, ingress) =>
          append (mkDepositIngressV2 payer system_program_info session session_bridge vault er_token_account
                    delegation_record deposit_receipt origin ingress portal_program)
            (TokenVault.bump vault_state) amount
      | None => mret tt
      end
    else
      n ← ok_or (u64_checked_add (ErTokenAccount.amount er_state) amount) ArithmeticOverflow;
      store er_token_account (with_amount n er_state)
  | _ => fail NotEnoughAccountKeys
  end.

(** *** Transfers and withdrawals *)

Definition process_transfer (accounts : list Address) (amount : Z) : prog unit :=
  match accounts with
  | authority :: source :: destination :: _ =>
    require_signer authority ;;
    err_if (source == destination) InvalidAccountData ;;
    source_state ← load_er_token_account source;
    destination_state ← load_er_token_account destination;
    err_if ((ErTokenAccount.owner source_state != authority)
            || (ErTokenAccount.session_bridge source_state != ErTokenAccount.session_bridge destination_state)
            || (ErTokenAccount.mint source_state != ErTokenAccount.mint destination_state)) InvalidAccountData ;;
    n ← ok_or (checked_sub (ErTokenAccount.amount source_state) amount) InsufficientFunds;
    m ← ok_or (u64_checked_add (ErTokenAccount.amount destination_state) amount) ArithmeticOverflow;
    store source (with_amount n source_state) ;;
    store destination (with_amount m destination_state)
  | _ => fail NotEnoughAccountKeys
  end.

Definition process_withdraw (accounts : list Address) (amount decimals : Z) : prog unit :=
  match accounts with
  | owner :: vault :: er_token_account :: session_bridge :: portal_program :: vault_token_account
      :: destination_token_account :: mint :: token_program :: _ =>
    require_signer owner ;;
    bridge ← load_session_bridge session_bridge portal_program;
    vault_state ← load_vault vault session_bridge;
    require_bridge_token_accounts bridge vault_state vault_token_account mint token_program ;;
    er_state ← load_er_token_account er_token_account;
    require_er_account er_state session_bridge owner (SessionBridge.mint bridge) ;;
    n ← ok_or (checked_sub (ErTokenAccount.amount er_state) amount) InsufficientFunds;
    withdrawn ← ok_or (u64_checked_add (TokenVault.withdrawn vault_state) amount) InsufficientFunds;
    err_if (negb (withdrawn <=? TokenVault.deposited vault_state)) InsufficientFunds ;;
    err_if (token_program != token_program_id) IncorrectProgramId ;;
    TransferChecked cx (Some (vault_seeds session_bridge (TokenVault.bump vault_state)))
      vault_token_account mint destination_token_account vault amount decimals ;;
    store vault (with_withdrawn withdrawn vault_state) ;;
    store er_token_account (with_amount n er_state)
  | _ => fail NotEnoughAccountKeys
  end.

(** The mint check of the V2 build. *)
Definition require_mint (bridge : SessionBridge.t) (mint token_program : Address) (amount decimals : Z) : prog unit :=
  mx ← get_acct mint;
  err_if ((amount =? 0) || (mint != SessionBridge.mint bridge) || negb (owned_by mx token_program) || executable mx)
    InvalidAccountData ;;
  state ← ok_or (spl_unpack_mint (data mx)) InvalidAccountData;
  err_if (negb (spl_initialized state) || (spl_decimals state != decimals)) InvalidInstructionData.

Definition process_start_withdrawal (accounts : list Address) (amount decimals : Z) : prog unit :=
  match accounts with
  | owner :: er_token_account :: session_bridge :: portal_program :: destination_token_account :: token_program
      :: rest =>
    mint ← (if continuity_v2 then
              match rest with mint :: _ => mret (Some mint) | [] => fail NotEnoughAccountKeys end
            else mret None);
    require_signer owner ;;
    bridge ← load_session_bridge session_bridge portal_program;
    err_if (SessionBridge.token_program bridge != token_program) InvalidAccountData ;;
    match mint with Some mint => require_mint bridge mint token_program amount decimals | None => mret tt end ;;
    destination ← unpack_token_account destination_token_account;
    err_if (spl_mint destination != SessionBridge.mint bridge) InvalidAccountData ;;
    er_state ← load_er_token_account er_token_account;
    require_er_account er_state session_bridge owner (SessionBridge.mint bridge) ;;
    n ← ok_or (checked_sub (ErTokenAccount.amount er_state) amount) InsufficientFunds;
    store er_token_account (with_amount n er_state)
  | _ => fail NotEnoughAccountKeys
  end.

Definition encode_portal_consume_token_withdrawal (er_slot : Z) (checksum : Hash32) (amount withdrawn decimals : Z) :
    list byte :=
  byte_of_Z 27 :: le_bytes 8 er_slot ++ checksum ++ le_bytes 8 amount ++ le_bytes 8 withdrawn ++ [byte_of_Z decimals].

(** The session, the checkpoint and the registration of a settled withdrawal. *)
Definition load_settlement (validator session checkpoint session_bridge portal_program : Address) (er_slot : Z)
    (checksum : Hash32) : prog SessionBridge.t :=
  sx ← get_acct session;
  kx ← get_acct checkpoint;
  bx ← get_acct session_bridge;
  err_if ((owner sx != owner kx) || (owner bx != owner sx) || (portal_program != owner sx)) InvalidAccountOwner ;;
  let expected_checkpoint := (find_program_address [str "checkpoint"; session; le_bytes 8 er_slot] (owner sx)).1 in
  err_if (expected_checkpoint != checkpoint) InvalidSeeds ;;
  versioned ← (if continuity_v2 then
                 registration ← registration_v2 (program_id cx) portal_program session_bridge (data bx);
                 frame ← session_v2 registration portal_program session (data sx);
                 mret (Some (registration, SessionV2.base frame))
               else mret None);
  session_state ← match versioned with
                  | Some (_, base) => mret base
                  | None => load session InvalidAccountData
                  end;
  checkpoint_state ← load checkpoint InvalidAccountData;
  err_if (negb (is_valid_settlement_session session_state validator)
          || negb (is_valid_settlement_checkpoint checkpoint_state session er_slot checksum)) InvalidAccountData ;;
  bridge ← match versioned with
           | Some (registration, _) => mret (SessionBridgeV2.base registration)
           | None => load session_bridge InvalidAccountData
           end;
  let expected_session_bridge :=
    match versioned with
    | Some (registration, _) =>
        (find_session_bridge_v2_pda portal_program (SessionBridgeV2.session_context registration)
           (SessionBridge.mint bridge)).1
    | None => (find_program_address [str "session_bridge"; session; SessionBridge.mint bridge] (owner sx)).1
    end in
  err_if (negb (SessionBridge.is_valid bridge) || (SessionBridge.bridge_program bridge != program_id cx)
          || (SessionBridge.session bridge != session) || (expected_session_bridge != session_bridge))
    InvalidAccountData ;;
  mret bridge.

(** Consume the authorization at the Portal, pay, and count. *)
Definition pay_withdrawal (validator session checkpoint authorization session_bridge vault
    er_token_account vault_token_account destination_token_account mint token_program : Address)
    (vault_state : TokenVault.t) (er_slot : Z) (checksum : Hash32) (amount withdrawn decimals : Z) : prog unit :=
  let seeds := vault_seeds session_bridge (TokenVault.bump vault_state) in
  sx ← get_acct session;
  invoke_signed cx (owner sx)
    [(validator, true, false); (session, false, false); (checkpoint, false, false); (authorization, false, true);
     (session_bridge, false, false); (vault, true, false); (er_token_account, false, false);
     (vault_token_account, false, false); (destination_token_account, false, false); (mint, false, false);
     (token_program, false, false)]
    (encode_portal_consume_token_withdrawal er_slot checksum amount withdrawn decimals) seeds ;;
  TransferChecked cx (Some seeds) vault_token_account mint destination_token_account vault amount decimals ;;
  store vault vault_state.

Definition process_settle_withdrawal (accounts : list Address) (er_slot : Z) (checksum : Hash32)
    (amount withdrawn decimals : Z) : prog unit :=
  match accounts with
  | validator :: session :: checkpoint :: authorization :: session_bridge :: portal_program :: vault
      :: er_token_account :: vault_token_account :: destination_token_account :: mint :: token_program :: _ =>
    require_signer validator ;;
    bridge ← load_settlement validator session checkpoint session_bridge portal_program er_slot checksum;
    vault_state ← load_vault vault session_bridge;
    require_bridge_token_accounts bridge vault_state vault_token_account mint token_program ;;
    destination ← unpack_token_account destination_token_account;
    err_if (spl_mint destination != SessionBridge.mint bridge) InvalidAccountData ;;
    if withdrawn <=? TokenVault.withdrawn vault_state then mret tt
    else
      expected_withdrawn ← ok_or (u64_checked_add (TokenVault.withdrawn vault_state) amount) ArithmeticOverflow;
      err_if ((withdrawn != expected_withdrawn) || (TokenVault.deposited vault_state <? withdrawn)) InvalidArgument ;;
      err_if (token_program != token_program_id) IncorrectProgramId ;;
      pay_withdrawal validator session checkpoint authorization session_bridge vault er_token_account
        vault_token_account destination_token_account mint token_program (with_withdrawn withdrawn vault_state)
        er_slot checksum amount withdrawn decimals
  | _ => fail NotEnoughAccountKeys
  end.

(** *** Deposit progress (token_deposit.rs) *)

Definition receipt_balance (bridge account receipt : Address) : prog Z :=
  let '(expected, bump) := find_program_address [TokenDepositReceipt.SEED_PREFIX; bridge; account] (program_id cx) in
  err_if (receipt != expected) InvalidSeeds ;;
  x ← get_acct receipt;
  if lamports x =? 0 then mret 0
  else
    err_if (negb (owned_by x (program_id cx))) InvalidAccountOwner ;;
    state ← load receipt InvalidAccountData;
    err_if (negb (TokenDepositReceipt.is_valid state) || (TokenDepositReceipt.bump state != bump)
            || (TokenDepositReceipt.session_bridge state != bridge)
            || (TokenDepositReceipt.er_token_account state != account)) InvalidAccountData ;;
    mret (TokenDepositReceipt.balance state).

(** The receipt's balance when the account is delegated. *)
Definition initialize_origin (payer bridge account receipt origin system : Address) : prog unit :=
  balance ← receipt_balance bridge account receipt;
  let '(expected, bump) := find_program_address [TokenDepositProgress.ORIGIN_SEED; account] (program_id cx) in
  err_if (origin != expected) InvalidSeeds ;;
  let state := TokenDepositProgress.mk TokenDepositProgress.ORIGIN_DISCRIMINATOR balance bump in
  x ← get_acct origin;
  (if negb (owned_by x (program_id cx)) then
     create_pda payer origin (account_size state) (program_id cx)
       [TokenDepositProgress.ORIGIN_SEED; account; le_bytes 1 bump] system
   else
     previous ← load origin InvalidAccountData;
     err_if ((TokenDepositProgress.discriminator previous != TokenDepositProgress.discriminator state)
             || (TokenDepositProgress.bump previous != bump)
             || (balance <? TokenDepositProgress.balance previous)) InvalidAccountData) ;;
  store origin state.

(** The session's base state, from the registered session. *)
Definition apply_session (bridge portal session : Address) (bridge_state : SessionBridge.t) :
    prog (Session.t * option SessionBridgeV2.t) :=
  sx ← get_acct session;
  err_if ((session != SessionBridge.session bridge_state)
          || (session != (find_program_address [str "session"] portal).1)
          || negb (owned_by sx portal)) InvalidAccountData ;;
  if continuity_v2 then
    bx ← get_acct bridge;
    registration ← registration_v2 (program_id cx) portal bridge (data bx);
    frame ← session_v2 registration portal session (data sx);
    mret (SessionV2.base frame, Some registration)
  else
    session_state ← load session InvalidAccountData;
    mret (session_state, None).

(** The cursor of the deposits applied since the baseline. *)
Definition load_progress (cursor : Address) (baseline bump : Z) : prog TokenDepositProgress.t :=
  x ← get_acct cursor;
  if owned_by x (program_id cx) then
    progress ← load cursor InvalidAccountData;
    err_if ((TokenDepositProgress.discriminator progress != TokenDepositProgress.CURSOR_DISCRIMINATOR)
            || (TokenDepositProgress.bump progress != bump)
            || (TokenDepositProgress.balance progress <? baseline)) InvalidAccountData ;;
    mret progress
  else mret (TokenDepositProgress.mk TokenDepositProgress.CURSOR_DISCRIMINATOR baseline bump).

(** In the V2 build the deposit is an ingress record of the session. *)
Definition require_ingress (rest : list Address) (bridge portal account receipt : Address) (context : Hash32)
    (state : ErTokenAccount.t) (bridge_state : SessionBridge.t) (baseline progress balance : Z) : prog unit :=
  match rest with
  | [] => fail NotEnoughAccountKeys
  | input_account :: _ =>
    x ← get_acct input_account;
    err_if (negb (owned_by x portal) || executable x) InvalidAccountOwner ;;
    input ← load input_account InvalidAccountData;
    let '(expected, bump) := find_ingress_record_v2_pda portal context (IngressRecordV2.sequence input) in
    err_if ((input_account != expected) || (IngressRecordV2.bump input != bump)) InvalidSeeds ;;
    previous ← ok_or (checked_sub (IngressRecordV2.sequence input) 1) InvalidAccountData;
    lift_err (λ _, InvalidAccountData)
      (IngressRecordV2.validate_next input context previous (IngressRecordV2.previous_root input) hash_parts) ;;
    err_if (negb match IngressRecordV2.payload input with
                 | IngressPayloadV2.TokenDeposit source session_bridge target source_receipt mint token_program
                     origin_deposited amount cumulative_deposited =>
                     (source == program_id cx) && (session_bridge == bridge) && (target == account)
                     && (source_receipt == receipt) && (mint == ErTokenAccount.mint state)
                     && (token_program == SessionBridge.token_program bridge_state)
                     && (origin_deposited == baseline) && (cumulative_deposited == balance)
                     && (checked_sub balance progress == Some amount)
                 | _ => false
                 end) InvalidAccountData
  end.

Definition with_progress (n : Z) (p : TokenDepositProgress.t) : TokenDepositProgress.t :=
  TokenDepositProgress.mk (TokenDepositProgress.discriminator p) n (TokenDepositProgress.bump p).

Definition apply (accounts : list Address) (balance : Z) : prog unit :=
  match accounts with
  | payer :: account :: bridge :: portal :: session :: delegation :: receipt :: origin :: cursor :: system :: rest =>
    require_signer payer ;;
    require_system_program system ;;
    bridge_state ← load_session_bridge bridge portal;
    '(session_state, registration) ← apply_session bridge portal session bridge_state;
    err_if (negb (Session.is_valid session_state) || (Session.validator session_state != payer))
      MissingRequiredSignature ;;
    state ← load_er_token_account account;
    require_bridge_delegation account delegation portal ;;
    record ← load delegation InvalidAccountData;
    err_if (DelegationRecord.grid_id record != Session.grid_id session_state) InvalidAccountData ;;
    err_if ((ErTokenAccount.session_bridge state != bridge)
            || (ErTokenAccount.mint state != SessionBridge.mint bridge_state)) InvalidAccountData ;;
    available ← receipt_balance bridge account receipt;
    let '(expected_origin, origin_bump) :=
      find_program_address [TokenDepositProgress.ORIGIN_SEED; account] (program_id cx) in
    ox ← get_acct origin;
    err_if ((origin != expected_origin) || negb (owned_by ox (program_id cx))) InvalidSeeds ;;
    baseline ← load origin InvalidAccountData;
    err_if ((TokenDepositProgress.discriminator baseline != TokenDepositProgress.ORIGIN_DISCRIMINATOR)
            || (TokenDepositProgress.bump baseline != origin_bump)) InvalidAccountData ;;
    let baseline_bytes := le_bytes 8 (TokenDepositProgress.balance baseline) in
    let '(expected_cursor, bump) :=
      find_program_address [TokenDepositProgress.CURSOR_SEED; account; baseline_bytes] (program_id cx) in
    err_if (cursor != expected_cursor) InvalidSeeds ;;
    progress ← load_progress cursor (TokenDepositProgress.balance baseline) bump;
    err_if ((available <? balance) || (balance <=? TokenDepositProgress.balance progress)) InvalidArgument ;;
    match registration with
    | Some r =>
        require_ingress rest bridge portal account receipt (SessionBridgeV2.session_context r) state bridge_state
          (TokenDepositProgress.balance baseline) (TokenDepositProgress.balance progress) balance
    | None => mret tt
    end ;;
    n ← ok_or (u64_checked_add (ErTokenAccount.amount state) (balance - TokenDepositProgress.balance progress))
          ArithmeticOverflow;
    cx0 ← get_acct cursor;
    (if negb (owned_by cx0 (program_id cx)) then
       create_pda payer cursor (account_size (with_progress balance progress)) (program_id cx)
         [TokenDepositProgress.CURSOR_SEED; account; baseline_bytes; le_bytes 1 bump] system
     else mret tt) ;;
    store cursor (with_progress balance progress) ;;
    store account (with_amount n state)
  | _ => fail NotEnoughAccountKeys
  end.

(** *** Delegating token accounts *)

Definition encode_portal_delegate (grid_id : Z) : list byte :=
  byte_of_Z (if continuity_v2 then 32 else 3) :: le_bytes 8 grid_id.

(** The session check of the V2 build. *)
Definition require_open_session (session_bridge portal_program session : Address) (grid_id : Z) : prog unit :=
  sx ← get_acct session;
  err_if (negb (owned_by sx portal_program) || executable sx) InvalidAccountOwner ;;
  bx ← get_acct session_bridge;
  registration ← registration_v2 (program_id cx) portal_program session_bridge (data bx);
  frame ← session_v2 registration portal_program session (data sx);
  err_if ((Session.grid_id (SessionV2.base frame) != grid_id)
          || Session.is_expired (SessionV2.base frame) (slot (clock cx))) InvalidAccountData.

(** Move the account's bytes to the buffer and hand the address to the Portal. *)
Definition hand_over (payer er_token_account portal_program buffer system_program_info : Address)
    (er_state : ErTokenAccount.t) : prog unit :=
  create_buffer payer buffer er_token_account system_program_info ;;
  e ← get_acct er_token_account;
  let er_account_space := length (data e) in
  copy_data er_token_account buffer ;;
  close_buffer er_token_account payer ;;
  create_pda payer er_token_account er_account_space portal_program (er_signer_seeds er_state) system_program_info.

Definition process_delegate_er_token_account (accounts : list Address) (grid_id : Z) : prog unit :=
  match accounts with
  | payer :: owner :: er_token_account :: bridge_program :: session_bridge :: portal_program :: session
      :: delegation_record :: buffer :: system_program_info :: more =>
    require_signer payer ;;
    require_signer owner ;;
    require_self_program bridge_program ;;
    require_system_program system_program_info ;;
    load_session_bridge session_bridge portal_program ;;
    er_state ← load_er_token_account er_token_account;
    err_if ((ErTokenAccount.session_bridge er_state != session_bridge) || (ErTokenAccount.owner er_state != owner))
      InvalidAccountData ;;
    let '(expected_record, _) := find_program_address [str "delegation"; er_token_account] portal_program in
    err_if (expected_record != delegation_record) InvalidSeeds ;;
    match more with
    | receipt :: origin :: rest =>
      ingress ← (if continuity_v2 then
                   match rest with ingress :: _ => mret (Some ingress) | [] => fail NotEnoughAccountKeys end
                 else mret None);
      match ingress with
      | Some _ => require_open_session session_bridge portal_program session grid_id
      | None => mret tt
      end ;;
      initialize_origin payer session_bridge er_token_account receipt origin system_program_info ;;
      hand_over payer er_token_account portal_program buffer system_program_info er_state ;;
      invoke_signed cx portal_program
        ([(payer, true, true); (system_id, false, false);
          (session, false, match ingress with Some _ => true | None => false end); (er_token_account, true, true);
          (program_id cx, false, false); (delegation_record, false, true); (buffer, false, false)]
         ++ match ingress with Some ingress => [(ingress, false, true)] | None => [] end)
        (encode_portal_delegate grid_id) (er_signer_seeds er_state) ;;
      close_buffer buffer payer
    | _ => fail NotEnoughAccountKeys
    end
  | _ => fail NotEnoughAccountKeys
  end.

Definition process_request_undelegation (accounts : list Address) : prog unit :=
  match accounts with
  | payer :: authority :: er_token_account :: bridge_program :: portal_program :: session :: delegation_record
      :: request :: system_program_info :: _ =>
    require_signer payer ;;
    require_signer authority ;;
    require_self_program bridge_program ;;
    require_system_program system_program_info ;;
    ex ← get_acct er_token_account;
    err_if (negb (owned_by ex portal_program)) InvalidAccountOwner ;;
    er_state ← load_er_token_account_data er_token_account;
    require_er_token_account_pda er_token_account er_state ;;
    err_if (ErTokenAccount.owner er_state != authority) InvalidAccountData ;;
    invoke_signed cx portal_program
      [(payer, true, true); (authority, true, false); (er_token_account, true, false); (program_id cx, false, false);
       (delegation_record, false, false); (session, false, false); (request, false, true); (system_id, false, false)]
      [byte_of_Z 28] (er_signer_seeds er_state)
  | _ => fail NotEnoughAccountKeys
  end.

Definition process_undelegate_er_token_account (accounts : list Address) : prog unit :=
  match accounts with
  | authority :: er_token_account :: bridge_program :: portal_program :: session :: delegation_record :: buffer
      :: system_program_info :: request :: _ =>
    require_signer authority ;;
    require_self_program bridge_program ;;
    require_system_program system_program_info ;;
    ex ← get_acct er_token_account;
    err_if (negb (owned_by ex portal_program)) InvalidAccountOwner ;;
    create_buffer authority buffer er_token_account system_program_info ;;
    copy_data er_token_account buffer ;;
    er_state ← load_er_token_account_data buffer;
    require_er_token_account_pda er_token_account er_state ;;
    err_if (ErTokenAccount.owner er_state != authority) InvalidAccountData ;;
    invoke_signed cx portal_program
      [(authority, true, true); (er_token_account, true, true); (program_id cx, false, false);
       (delegation_record, false, true); (system_id, false, false); (session, false, false); (request, false, true)]
      [byte_of_Z 10] (er_signer_seeds er_state) ;;
    ex ← get_acct er_token_account;
    err_if (negb (owned_by ex (program_id cx))) InvalidAccountOwner ;;
    copy_data buffer er_token_account ;;
    close_buffer buffer authority
  | _ => fail NotEnoughAccountKeys
  end.

(** *** Dispatch *)

(** The instructions of the V2 build. *)
Definition supported (x : TokenBridgeInstruction.t) : bool :=
  match x with
  | TokenBridgeInstruction.Withdraw _ _ | TokenBridgeInstruction.UndelegateErTokenAccount
  | TokenBridgeInstruction.RequestUndelegation => negb continuity_v2
  | _ => true
  end.

Definition process_instruction (accounts : list Address) (instruction_data : list byte) : prog unit :=
  instruction ← ok_or (try_from_slice instruction_data) InvalidInstructionData;
  err_if (negb (supported instruction)) InvalidInstructionData ;;
  match instruction with
  | TokenBridgeInstruction.InitializeVault => process_initialize_vault accounts
  | TokenBridgeInstruction.InitializeErTokenAccount owner => process_initialize_er_token_account accounts owner
  | TokenBridgeInstruction.Deposit amount decimals => process_deposit accounts amount decimals
  | TokenBridgeInstruction.Transfer amount => process_transfer accounts amount
  | TokenBridgeInstruction.Withdraw amount decimals => process_withdraw accounts amount decimals
  | TokenBridgeInstruction.DelegateErTokenAccount grid_id => process_delegate_er_token_account accounts grid_id
  | TokenBridgeInstruction.UndelegateErTokenAccount => process_undelegate_er_token_account accounts
  | TokenBridgeInstruction.StartWithdrawal amount decimals => process_start_withdrawal accounts amount decimals
  | TokenBridgeInstruction.SettleWithdrawal er_slot checksum amount withdrawn decimals =>
      process_settle_withdrawal accounts er_slot checksum amount withdrawn decimals
  | TokenBridgeInstruction.RequestUndelegation => process_request_undelegation accounts
  | TokenBridgeInstruction.ApplyTokenDeposit balance => apply accounts balance
  end.

End program.
End TokenBridge.
