(* ===== verification/Integrity.v ===== *)
(** * Settlement integrity

    The abstract machine of a settlement remembers the operations applied since
    it was opened.  [settlement_refines] shows that the handlers of
    settlement.rs, settle_deposit_receipt.rs and accumulate_token_withdrawal.rs,
    which only keep a running hash in the session account, implement it; from
    this [settlement_applies_exactly_the_plan] and
    [settlement_aborts_only_untouched]. *)

From Stdlib Require Import ZArith Lia.
From Stdlib Require Import Strings.Byte.
From stdpp Require Import base gmap list numbers.
From S2P Require Import Prelude Borsh Events Runtime State Commitments Frames Toy Pda Instruction SessionOps Delegation Settlement Deposits Ingress TokenWithdrawal.

(** ** The abstract machine *)

Inductive SettleState : Set :=
| Idle
| Active (er_slot : Z) (checksum : Hash32) (applied : list SettleOp).

Inductive SettleLabel : Set :=
| LBegin (er_slot : Z) (checksum : Hash32)
| LApply (ops : list SettleOp)
| LFinish (er_slot : Z) (checksum : Hash32)
| LAbort.

Section machine.
Context `{HostLaws}.

Inductive settle_step : SettleState → SettleLabel → SettleState → Prop :=
| StepBegin er chk : settle_step Idle (LBegin er chk) (Active er chk [])
| StepApply er chk applied ops :
    settle_step (Active er chk applied) (LApply ops) (Active er chk (applied ++ ops))
| StepFinish er chk applied :
    settle_fold er applied = chk → settle_step (Active er chk applied) (LFinish er chk) Idle
| StepAbort er chk applied :
    settle_fold er applied = settle_fold er [] → settle_step (Active er chk applied) LAbort Idle.

(** The session implements the state. *)
Definition represents (w : World) (session : Address) (st : SettleState) : Prop :=
  ∃ s, session_at w session s ∧
    match st with
    | Idle => Session.settlement_status s = SettlementStatus.Idle
    | Active er chk applied =>
        Session.settlement_status s = SettlementStatus.InProgress ∧ Session.settlement_er_slot s = er ∧
        Session.settlement_checksum s = chk ∧ Session.settlement_accumulator s = settle_fold er applied ∧
        is_u64 er ∧ Forall wf_op applied
    end.

(** What applying an operation between [w] and [w'] means on the accounts. *)
Definition op_effect (portal : Address) (w w' : World) (op : SettleOp) : Prop :=
  match op with
  | SetData a off d =>
      data (acct w' a) = splice (data (acct w a)) (Z.to_nat off) d ∧
      off + Z.of_nat (length d) ≤ Z.of_nat (length (data (acct w a)))
  | SetOwner a o =>
      ∃ x, try_from_slice (data (acct w' (find_delegation_record_pda portal a).1)) = Some x ∧
           DelegationRecord.owner_program x = o
  | SetLamports a n => lamports (acct w' a) = n
  | SettleReceipt src l bal wd pay =>
      ∃ d r, receipt_at w d r ∧ DepositReceipt.recipient r = src ∧ receipt_at w' d (with_balance bal wd r) ∧
             pay = wd - DepositReceipt.withdrawn r ∧ (l ≠ d → lamports (acct w' l) = lamports (acct w l) + pay)
  | SettleToken x => ∃ a ck bump, data (acct w a) = [] ∧ auth_at w' a (new_authorization ck x bump)
  end.

(** ** Instructions *)

Inductive SettlementInstr : Set :=
| SBegin (accounts : list Address) (args : BeginSettlement.t)
| SChunk (accounts : list Address) (args : WriteSettlementChunk.t)
| SOwner (accounts : list Address) (args : SettleAccountOwner.t)
| SLamports (accounts : list Address) (args : SettleAccountLamports.t) (previous_accumulator : option Hash32)
| SReceipt (accounts : list Address) (args : SettleDepositReceipt.t)
| SToken (accounts : list Address) (args : AccumulateTokenWithdrawal.t)
| SFinish (accounts : list Address) (args : FinishSettlement.t)
| SAbort (accounts : list Address).

Definition exec_settlement (v2 : bool) (cx : Ctx) (i : SettlementInstr) : prog unit :=
  match i with
  | SBegin accounts args => process_begin_settlement cx accounts args
  | SChunk accounts args => process_write_settlement_chunk cx accounts args
  | SOwner accounts args => process_settle_account_owner cx accounts args
  | SLamports accounts args None => process_settle_account_lamports cx accounts args
  | SLamports accounts args (Some p) => process_settle_account_lamports_with_surplus cx accounts args p
  | SReceipt accounts args => process_settle_deposit_receipt cx accounts args
  | SToken accounts args => process_accumulate_token_withdrawal v2 cx accounts args
  | SFinish accounts args => process_finish_settlement cx accounts args
  | SAbort accounts => process_abort_settlement cx accounts
  end.

Definition instr_accounts (i : SettlementInstr) : list Address :=
  match i with
  | SBegin l _ | SChunk l _ | SOwner l _ | SLamports l _ _ | SReceipt l _ | SToken l _ | SFinish l _ | SAbort l => l
  end.

Definition wf_args (i : SettlementInstr) : Prop :=
  match i with
  | SBegin _ args => wf borsh args
  | SChunk _ args => wf borsh args
  | SOwner _ args => wf borsh args
  | SLamports _ args _ => wf borsh args
  | SReceipt _ args => wf borsh args
  | SToken _ args => wf borsh args
  | SFinish _ args => wf borsh args
  | SAbort _ => True
  end.

(** The arguments are what instruction data can hold and keys have 32 bytes; the
    session account is passed once, as the session; the authorization, a program
    address, does not sign. *)
Definition instr_safe (session : Address) (p : Ctx * SettlementInstr) : Prop :=
  is_u64 (slot (clock p.1)) ∧ Forall is_key (instr_accounts p.2) ∧ wf_args p.2 ∧
  instr_accounts p.2 !! 1%nat = Some session ∧ (session ∉ drop 2 (instr_accounts p.2)) ∧
  (find_fee_vault_pda (program_id p.1)).1 ≠ session ∧
  match p.2 with SToken accounts _ => ∀ a, accounts !! 9%nat = Some a → is_signer p.1 a = false | _ => True end.

(** The operations the accounts and arguments of an instruction name; those of a
    token withdrawal include the bridge program of the registration. *)
Definition asked (v2 : bool) (cx : Ctx) (i : SettlementInstr) (w : World) (ops : list SettleOp) : Prop :=
  match i with
  | SChunk (_ :: _ :: a :: _) args =>
      ops = [SetData a (WriteSettlementChunk.account_data_offset args)
               (take (Z.to_nat (WriteSettlementChunk.chunk_len args)) (WriteSettlementChunk.chunk args))]
  | SOwner (_ :: _ :: a :: _) args => ops = [SetOwner a (SettleAccountOwner.owner args)]
  | SLamports accounts args _ => ops = (λ p, SetLamports p.1 p.2) <$> lamport_targets accounts args
  | SReceipt (_ :: _ :: _ :: src :: l :: _) args =>
      ops = [SettleReceipt src l (SettleDepositReceipt.balance args) (SettleDepositReceipt.withdrawn args)
               (SettleDepositReceipt.payout_lamports args)]
  | SToken (_ :: session :: sb :: vault :: er :: vta :: dst :: mint :: tp :: _) args =>
      ∃ b, load_bridge v2 cx session sb vault mint tp w = Ok (b, w) ∧
        ops = [SettleToken (withdrawal_of b sb er vault vta dst mint tp (AccumulateTokenWithdrawal.amount args)
                 (AccumulateTokenWithdrawal.withdrawn args) (AccumulateTokenWithdrawal.decimals args))]
  | _ => False
  end.

(** The label of an instruction that took [w] to [w'].  An applying instruction
    either changes nothing at all, or applies exactly the operations it names, of
    which there is at least one. *)
Definition instr_label (v2 : bool) (cx : Ctx) (i : SettlementInstr) (w w' : World) (lab : SettleLabel) : Prop :=
  match i with
  | SBegin _ args => lab = LBegin (BeginSettlement.er_slot args) (BeginSettlement.checksum args)
  | SFinish _ args => lab = LFinish (FinishSettlement.er_slot args) (FinishSettlement.checksum args)
  | SAbort _ => lab = LAbort
  | _ =>
      (lab = LApply [] ∧ w' = w) ∨
      ∃ ops, lab = LApply ops ∧ ops ≠ [] ∧ asked v2 cx i w ops ∧ Forall wf_op ops ∧
        Forall (op_effect (program_id cx) w w') ops
  end.
End machine.

(** ** Simulation *)

Section simulation.
Context `{HostLaws} (v2 : bool).

(** [sim cx i]: from a represented state, a successful run makes a step of the
    abstract machine with the instruction's label. *)
Definition sim (session : Address) (cx : Ctx) (i : SettlementInstr) (w w' : World) : Prop :=
  ∀ st, represents w session st →
  ∃ lab st', settle_step st lab st' ∧ represents w' session st' ∧ instr_label v2 cx i w w' lab.

Lemma settling_active cx w v session er chk s st :
  settling cx w v session er chk s → represents w session st →
  ∃ applied, st = Active er chk applied ∧ Session.settlement_accumulator s = settle_fold er applied ∧
    is_u64 er ∧ Forall wf_op applied.
Proof.
  intros (Hs & _ & _ & Hst & -> & ->) (s' & Hs' & Hr). unfold session_at in *. rewrite Hs in Hs'. injection Hs' as <-.
  destruct st as [|er' chk' applied]; [congruence|]. destruct Hr as (_ & <- & <- & ? & ? & ?). by exists applied.
Qed.

(** The instructions that apply operations. *)
Definition applies (i : SettlementInstr) : Prop :=
  match i with SBegin _ _ | SFinish _ _ | SAbort _ => False | _ => True end.

(** Nothing happened. *)
Lemma sim_skip cx v session er chk s i w :
  applies i → settling cx w v session er chk s → sim session cx i w w.
Proof.
  intros Hi Hset st Hst. destruct (settling_active _ _ _ _ _ _ _ _ Hset Hst) as (applied & -> & _).
  exists (LApply []), (Active er chk (applied ++ [])). split; [constructor|]. rewrite app_nil_r. split; [done|].
  destruct i; try done; by left.
Qed.

(** [ops] were applied and their hashes accumulated. *)
Lemma sim_apply cx v session er chk s ops i w w' :
  settling cx w v session er chk s → applies i → ops ≠ [] → asked v2 cx i w ops →
  Forall wf_op ops → Forall (op_effect (program_id cx) w w') ops →
  session_at w' session (with_accumulator (fold_left accumulate ops (Session.settlement_accumulator s)) s) →
  sim session cx i w w'.
Proof.
  intros Hset Hi Hne Hask Hwf Heff Hs' st Hst.
  destruct (settling_active _ _ _ _ _ _ _ _ Hset Hst) as (applied & -> & Hacc & Her & Hwa).
  exists (LApply ops), (Active er chk (applied ++ ops)). split; [constructor|].
  split; [|destruct i; try done; right; by exists ops].
  destruct Hset as (_ & _ & _ & Hp & -> & ->). eexists. split; [exact Hs'|]. split_and!; try done.
  - cbn. rewrite Hacc. unfold settle_fold. by rewrite fold_left_app.
  - by apply Forall_app.
Qed.

Lemma chunk_sim session cx accounts args w w' :
  instr_safe session (cx, SChunk accounts args) → exec_settlement v2 cx (SChunk accounts args) w = Ok (tt, w') →
  sim session cx (SChunk accounts args) w w'.
Proof.
  intros (_ & Hk & Hargs & Hse & Hns & _ & _) Hr. cbn [fst snd instr_accounts wf_args exec_settlement] in *.
  destruct accounts as [|v [|se [|d [|r rest]]]]; try (unfold process_write_settlement_chunk in Hr; destruct args; minv; done).
  cbn in Hse, Hns. injection Hse as ->. rewrite not_elem_of_cons in Hns. destruct Hns as [Hne _].
  rewrite !list.Forall_cons in Hk. destruct Hk as (_ & _ & Hkd & _).
  apply process_write_settlement_chunk_Ok in Hr as (s & x & Hset & _ & Hlen & Hoff & Hend & Hcl & Hr); [|done|done].
  destruct Hargs as (_ & _ & Ho & _). cbn in Ho.
  destruct Hr as [[-> _]|(_ & Hd & Hs' & _)].
  - by eapply sim_skip.
  - eapply (sim_apply _ _ _ _ _ _ [SetData d (WriteSettlementChunk.account_data_offset args)
      (take (Z.to_nat (WriteSettlementChunk.chunk_len args)) (WriteSettlementChunk.chunk args))]); [done..| | |done].
    + apply Forall_singleton. split; [done|]. split; [done|]. rewrite Hcl. unfold in_width, umax. lia.
    + apply Forall_singleton. split; [by rewrite Hd|]. lia.
Qed.

Lemma owner_sim session cx accounts args w w' :
  instr_safe session (cx, SOwner accounts args) → exec_settlement v2 cx (SOwner accounts args) w = Ok (tt, w') →
  sim session cx (SOwner accounts args) w w'.
Proof.
  intros (_ & Hk & Hargs & Hse & Hns & _ & _) Hr. cbn [fst snd instr_accounts wf_args exec_settlement] in *.
  destruct accounts as [|v [|se [|d [|r rest]]]]; try (unfold process_settle_account_owner in Hr; destruct args; minv; done).
  cbn in Hse, Hns. injection Hse as ->. rewrite !not_elem_of_cons in Hns. destruct Hns as (_ & Hne & _).
  rewrite !list.Forall_cons in Hk. destruct Hk as (_ & _ & Hkd & _).
  apply process_settle_account_owner_Ok in Hr as (s & x & Hset & Hld & Hr); [|done|done].
  apply load_delegation_record_Ok in Hld as (_ & -> & _).
  destruct Hr as [[-> _]|(_ & Hd & Hs' & _)].
  - by eapply sim_skip.
  - eapply (sim_apply _ _ _ _ _ _ [SetOwner d (SettleAccountOwner.owner args)]); [done..| | |done].
    + apply Forall_singleton. split; [done|]. by destruct Hargs as (_ & _ & Ho).
    + apply Forall_singleton. by eexists.
Qed.

Lemma as_chunks2_elem {A} (l : list A) p : p ∈ as_chunks2 l → p.1 ∈ l ∧ p.2 ∈ l.
Proof.
  revert p. induction l as [l IH] using (Wf_nat.induction_ltof1 _ length). intros p Hp.
  destruct l as [|a [|b l]]; [by apply not_elem_of_nil in Hp..|]. cbn [as_chunks2] in Hp.
  apply elem_of_cons in Hp as [->|Hp]; [set_solver|]. apply IH in Hp; [set_solver|]. unfold Wf_nat.ltof. cbn. lia.
Qed.

Lemma lamport_targets_elem v session rest args a n :
  wf borsh args → (a, n) ∈ lamport_targets (v :: session :: rest) args → a ∈ rest ∧ is_u64 n.
Proof.
  intros (_ & _ & _ & _ & Hn) He. unfold lamport_targets in He. cbn [drop] in He.
  apply elem_of_zip_l in He as He1. apply elem_of_zip_r in He as He2. split.
  - apply list_elem_of_fmap in He1 as (p & -> & Hp). apply as_chunks2_elem in Hp as [Hp _].
    apply elem_of_take in Hp as (i & Hi & _). by eapply list_elem_of_lookup_2.
  - rewrite list.Forall_forall in Hn. by apply Hn.
Qed.

Lemma lamport_targets_nonempty cx accounts args prev w u w' :
  wf borsh args → process_settle_account_lamports_inner cx accounts args prev w = Ok (u, w') →
  lamport_targets accounts args ≠ [].
Proof.
  intros Hargs Hr. destruct args as [er chk count lams]. unfold process_settle_account_lamports_inner in Hr.
  mstep Hr as [] w1 G1. mstep Hr as [] w1 G2. bprop. destruct Hargs as (_ & _ & _ & Hl & _). cbn in Hl.
  clear Hr. apply Nat.ltb_ge in G2.
  match goal with X : (_ =? 0)%nat = false |- _ => apply Nat.eqb_neq in X end.
  unfold lamport_targets. destruct accounts as [|v [|se [|a [|b rest]]]]; cbn in *; try lia.
  destruct (Z.to_nat count) as [|n]; [done|]. cbn. by destruct lams.
Qed.

Lemma lamports_sim session cx accounts args prev w w' :
  instr_safe session (cx, SLamports accounts args prev) →
  exec_settlement v2 cx (SLamports accounts args prev) w = Ok (tt, w') →
  sim session cx (SLamports accounts args prev) w w'.
Proof.
  intros (_ & Hk & Hargs & Hse & Hns & Hv & _) Hr. cbn [fst snd instr_accounts wf_args exec_settlement] in *.
  assert (Hr' : process_settle_account_lamports_inner cx accounts args prev w = Ok (tt, w')) by (by destruct prev).
  clear Hr. rename Hr' into Hr. destruct accounts as [|v [|se rest]]; [done..|].
  cbn in Hse, Hns. injection Hse as ->. rewrite !list.Forall_cons in Hk. destruct Hk as (_ & _ & Hk).
  assert (Hsn : session ∉ (lamport_targets (v :: session :: rest) args).*1).
  { intros Hin. apply list_elem_of_fmap in Hin as ([a n] & -> & Hin). by apply lamport_targets_elem in Hin as [? _]. }
  pose proof (lamport_targets_nonempty _ _ _ _ _ _ _ Hargs Hr) as Htn.
  apply process_settle_account_lamports_inner_Ok in Hr as (s & Hset & Hnd & Hr); [|done|done].
  destruct Hr as [->|(Hs' & _ & Hin & _)].
  - by eapply sim_skip.
  - rewrite accumulate_targets_fold in Hs'. eapply sim_apply; [done|done| |done| | |exact Hs'].
    + intros E%fmap_nil_inv. by apply Htn in E.
    + apply Forall_fmap, list.Forall_forall. intros [a n] Ht. apply lamport_targets_elem in Ht as [Ha Hn]; [|done].
      split; [|done]. rewrite list.Forall_forall in Hk. by apply Hk.
    + apply Forall_fmap, list.Forall_forall. intros [a n] Ht. cbn. by rewrite (Hin _ _ Ht).
Qed.

Lemma receipt_sim session cx accounts args w w' :
  instr_safe session (cx, SReceipt accounts args) → exec_settlement v2 cx (SReceipt accounts args) w = Ok (tt, w') →
  sim session cx (SReceipt accounts args) w w'.
Proof.
  intros (_ & Hk & Hargs & Hse & Hns & _ & _) Hr. cbn [fst snd instr_accounts wf_args exec_settlement] in *.
  destruct accounts as [|v [|se [|d [|src [|l rest]]]]];
    try (unfold process_settle_deposit_receipt in Hr; destruct args; minv; done).
  cbn in Hse. injection Hse as ->. rewrite !list.Forall_cons in Hk. destruct Hk as (_ & _ & _ & Hks & Hkl & _).
  apply process_settle_deposit_receipt_Ok in Hr; [|done]. destruct args as [er chk bal wd pay lr].
  destruct Hr as (s & r & Hset & Hld & _ & Hr). destruct Hargs as (_ & _ & ? & ? & ? & _).
  destruct Hr as [[-> _]|(Hp & _ & _ & Hr' & Hs' & Hb & _)].
  - by eapply sim_skip.
  - eapply (sim_apply _ _ _ _ _ _ [SettleReceipt src l bal wd pay]); [done..| | |done].
    + apply Forall_singleton. by split_and!.
    + apply Forall_singleton. apply load_receipt_Ok in Hld as (_ & Hrec & _ & _ & Hsrc). exists d, r.
      split_and!; try done. intros Hld. rewrite (proj1 (Hb l)), acct_moved, decide_False, decide_True by congruence. done.
Qed.

Lemma token_sim session cx accounts args w w' :
  instr_safe session (cx, SToken accounts args) → exec_settlement v2 cx (SToken accounts args) w = Ok (tt, w') →
  sim session cx (SToken accounts args) w w'.
Proof.
  intros (_ & Hk & Hargs & Hse & Hns & _ & Hsig) Hr. cbn [fst snd instr_accounts wf_args exec_settlement] in *.
  destruct accounts as [|v [|se [|sb [|vault [|er [|vta [|dst [|mint [|tp [|a [|sys rest]]]]]]]]]]];
    try (unfold process_accumulate_token_withdrawal in Hr; destruct args; minv; done).
  cbn in Hse. injection Hse as ->. specialize (Hsig a eq_refl). rewrite !list.Forall_cons in Hk. destruct_and!.
  assert (Hne : v ≠ a) by (apply accumulate_signed in Hr; congruence).
  apply process_accumulate_token_withdrawal_Ok in Hr; [|done]. destruct args as [es chk n wd dec].
  destruct Hr as (s & b & Hset & _ & Hb & Hr). cbv zeta in Hr. pose proof (load_bridge_key _ _ _ _ _ _ _ _ _ _ Hb).
  destruct Hargs as (_ & _ & ? & ? & ?).
  destruct Hr as [[-> _]|(He & Hau & _ & Hs' & _)].
  - by eapply sim_skip.
  - eapply (sim_apply _ _ _ _ _ _ [SettleToken _]); [done..|by eexists| | |exact Hs'].
    + apply Forall_singleton. split; [|done]. by repeat (apply list.Forall_cons; split; [done|]).
    + apply Forall_singleton. by eexists _, _, _.
Qed.

Lemma begin_sim session cx accounts args w w' :
  instr_safe session (cx, SBegin accounts args) → exec_settlement v2 cx (SBegin accounts args) w = Ok (tt, w') →
  sim session cx (SBegin accounts args) w w'.
Proof.
  intros (Hsl & _ & Hargs & Hse & _) Hr st (s0 & Hs0 & Hst). cbn [fst snd instr_accounts wf_args exec_settlement] in *.
  destruct accounts as [|v [|se [|ck rest]]]; try (unfold process_begin_settlement in Hr; destruct args; minv; done).
  cbn in Hse. injection Hse as ->.
  apply process_begin_settlement_Ok in Hr as (s & c & Hs & _ & _ & Hi & _ & _ & _ & _ & Hs' & _); [|done|done].
  unfold session_at in Hs0, Hs. rewrite Hs in Hs0. injection Hs0 as <-.
  destruct st as [|er chk applied]; [|destruct Hst as [? _]; congruence].
  eexists (LBegin _ _), (Active _ _ []). split; [constructor|]. split; [|done].
  eexists. split; [exact Hs'|]. destruct Hargs as [He _]. by split_and!.
Qed.

Lemma finish_sim session cx accounts args w w' :
  instr_safe session (cx, SFinish accounts args) → exec_settlement v2 cx (SFinish accounts args) w = Ok (tt, w') →
  sim session cx (SFinish accounts args) w w'.
Proof.
  intros (Hsl & _ & Hargs & Hse & _) Hr st Hst. cbn [fst snd instr_accounts wf_args exec_settlement] in *.
  destruct accounts as [|v [|se [|ck [|cu rest]]]]; try (unfold process_finish_settlement in Hr; destruct args; minv; done).
  cbn in Hse. injection Hse as ->.
  apply process_finish_settlement_Ok in Hr as (s & c & k & Hset & Hacc & _ & _ & _ & _ & _ & _ & Hs' & _); [|done|done].
  destruct (settling_active _ _ _ _ _ _ _ _ Hset Hst) as (applied & -> & Ha & _ & _).
  eexists (LFinish _ _), Idle. split; [|split; [by eexists|done]].
  constructor. destruct Hset as (_ & _ & _ & _ & _ & ->). by rewrite <- Ha, Hacc.
Qed.

Lemma abort_sim session cx accounts w w' :
  instr_safe session (cx, SAbort accounts) → exec_settlement v2 cx (SAbort accounts) w = Ok (tt, w') →
  sim session cx (SAbort accounts) w w'.
Proof.
  intros (_ & _ & _ & Hse & _) Hr st (s0 & Hs0 & Hst). cbn [fst snd instr_accounts wf_args exec_settlement] in *.
  destruct accounts as [|v [|se rest]]; try (unfold process_abort_settlement in Hr; minv; done).
  cbn in Hse. injection Hse as ->.
  apply process_abort_settlement_Ok in Hr as (s & Hs & _ & Hp & _ & Hacc & Hs' & _).
  unfold session_at in Hs0, Hs. rewrite Hs in Hs0. injection Hs0 as <-.
  destruct st as [|er chk applied]; [congruence|]. destruct Hst as (_ & <- & <- & Ha & _).
  exists LAbort, Idle. split; [|split; [by eexists|done]]. constructor. by rewrite <- Ha, Hacc.
Qed.

(** Every settlement instruction implements a step of the abstract machine. *)
Lemma exec_settlement_sim session cx i w w' :
  instr_safe session (cx, i) → exec_settlement v2 cx i w = Ok (tt, w') → sim session cx i w w'.
Proof.
  destruct i; [apply begin_sim|apply chunk_sim|apply owner_sim|apply lamports_sim|apply receipt_sim|apply token_sim
    |apply finish_sim|apply abort_sim].
Qed.
End simulation.

(** ** Runs *)

Section settlement_runs.
Context `{HostLaws} (v2 : bool) (session : Address).

(** A settlement instruction that was executed, with the world it found and the
    one it left. *)
Record Executed := mkExecuted { e_cx : Ctx; e_instr : SettlementInstr; e_before : World; e_after : World }.
Definition called (x : Executed) : Ctx * SettlementInstr := (e_cx x, e_instr x).

(** Settlement instructions one after the other; in between, anything that
    leaves the session's fields as they are. *)
Inductive settlement_runs : World → list Executed → World → Prop :=
| settlement_runs_nil w : settlement_runs w [] w
| settlement_runs_cons w cx i w1 l w2 :
    exec_settlement v2 cx i w = Ok (tt, w1) → settlement_runs w1 l w2 → settlement_runs w (mkExecuted cx i w w1 :: l) w2
| settlement_runs_other w w1 l w2 :
    (∀ s, session_at w session s → session_at w1 session s) → settlement_runs w1 l w2 → settlement_runs w l w2.

(** The label of an executed instruction. *)
Definition labelled (x : Executed) (lab : SettleLabel) : Prop :=
  instr_label v2 (e_cx x) (e_instr x) (e_before x) (e_after x) lab.

Inductive settle_steps : SettleState → list SettleLabel → SettleState → Prop :=
| settle_steps_nil st : settle_steps st [] st
| settle_steps_cons st lab st1 labs st2 :
    settle_step st lab st1 → settle_steps st1 labs st2 → settle_steps st (lab :: labs) st2.

Lemma represents_other w w' st :
  (∀ s, session_at w session s → session_at w' session s) → represents w session st → represents w' session st.
Proof. intros Hs (s & ? & ?). exists s. auto. Qed.

Lemma settlement_runs_simulate w l w' st :
  settlement_runs w l w' → Forall (instr_safe session) (called <$> l) → represents w session st →
  ∃ labs st', Forall2 labelled l labs ∧ settle_steps st labs st' ∧ represents w' session st'.
Proof.
  intros Hruns. revert st.
  induction Hruns as [w|w cx i w1 l w2 He Hruns IH|w w1 l w2 Hse Hruns IH]; intros st Hs Hst.
  - exists [], st. split_and!; [constructor..|done].
  - apply list.Forall_cons in Hs as [Hi Hs].
    destruct (exec_settlement_sim _ _ _ _ _ _ Hi He _ Hst) as (lab & st1 & Hstep & Hst1 & Hlab).
    destruct (IH _ Hs Hst1) as (labs & st2 & Hl & Hsteps & Hst2).
    exists (lab :: labs), st2. split_and!; [by constructor|by econstructor|done].
  - apply (IH st Hs). by eapply represents_other.
Qed.

(** The operations applied since a settlement was opened. *)
Definition ops_of (labs : list SettleLabel) : list SettleOp :=
  concat ((λ lab, match lab with LApply ops => ops | _ => [] end) <$> labs).
Definition is_apply (lab : SettleLabel) : Prop := match lab with LApply _ => True | _ => False end.

Lemma steps_active st labs er chk applied :
  settle_steps st labs (Active er chk applied) →
  (∃ labs0 labs1, labs = labs0 ++ LBegin er chk :: labs1 ∧ Forall is_apply labs1 ∧ applied = ops_of labs1) ∨
  (∃ applied0, st = Active er chk applied0 ∧ Forall is_apply labs ∧ applied = applied0 ++ ops_of labs).
Proof.
  remember (Active er chk applied) as st' eqn:He. intros Hsteps. revert applied He.
  induction Hsteps as [st|st lab st1 labs st2 Hstep Hsteps IH]; intros applied ->.
  - right. exists applied. by rewrite app_nil_r.
  - destruct (IH _ eq_refl) as [(labs0 & labs1 & -> & Ha & Hop)|(applied0 & -> & Ha & ->)].
    + left. by exists (lab :: labs0), labs1.
    + inversion Hstep; subst.
      * left. by exists [], labs.
      * right. eexists. split; [done|]. split; [by constructor|]. unfold ops_of. cbn. by rewrite app_assoc.
Qed.

(** From an idle session, an open settlement has applied what came after its
    beginning. *)
Lemma runs_active w l w' :
  represents w session Idle → settlement_runs w l w' → Forall (instr_safe session) (called <$> l) →
  ∃ labs st', Forall2 labelled l labs ∧ represents w' session st' ∧
    ∀ er chk applied, st' = Active er chk applied →
    ∃ labs0 labs1, labs = labs0 ++ LBegin er chk :: labs1 ∧ Forall is_apply labs1 ∧ applied = ops_of labs1.
Proof.
  intros Hst Hruns Hs. destruct (settlement_runs_simulate _ _ _ _ Hruns Hs Hst) as (labs & st' & Hl & Hsteps & Hst').
  exists labs, st'. split_and!; [done..|]. intros er chk applied ->.
  apply steps_active in Hsteps as [?|(? & ? & _)]; done.
Qed.

(** An executed instruction that applies operations and left everything as it was. *)
Definition untouched (x : Executed) : Prop := applies (e_instr x) ∧ e_after x = e_before x.

Lemma labelled_untouched l labs : Forall2 labelled l labs → Forall is_apply labs → ops_of labs = [] → Forall untouched l.
Proof.
  induction 1 as [|[cx i w w'] lab l labs Hi Hl IH]; intros Ha Ho; [constructor|].
  apply list.Forall_cons in Ha as [Hap Ha]. destruct lab as [|ops| |]; try done. unfold ops_of in Ho. cbn in Ho.
  apply app_nil in Ho as [-> Ho]. constructor; [|by apply IH]. unfold labelled in Hi. cbn in Hi.
  destruct i; try done; destruct Hi as [[_ Hw]|(ops & [= <-] & Hne & _)]; done.
Qed.

Lemma labelled_begin x er chk :
  labelled x (LBegin er chk) →
  ∃ accounts args, e_instr x = SBegin accounts args ∧ er = BeginSettlement.er_slot args ∧ chk = BeginSettlement.checksum args.
Proof.
  destruct x as [cx i w w']; unfold labelled; destruct i; cbn; intros Hi; try done; [injection Hi as -> ->; eauto|..];
    destruct Hi as [[? _]|(? & ? & _)]; done.
Qed.
End settlement_runs.

(** ** Example *)

Module IntegrityExample.
Import SessionExample.
Import DelegationExample.
Import SettlementExample.
Definition plan : list SettleOp :=
  [SetData delegated 1 [xff; xfe]; SetOwner delegated (key 78); SetLamports delegated 1500000].
Definition checksum : Hash32 := Eval vm_compute in settle_fold er_slot plan.
Definition before_lamports : Hash32 := Eval vm_compute in settle_fold er_slot (take 2 plan).
Definition begin : SettlementInstr :=
  SBegin [validator; session; checkpoint] (BeginSettlement.mk er_slot checksum effects).
Definition steps : list (Ctx * SettlementInstr) :=
  [(cx, begin);
   (cx, SChunk [validator; session; delegated; record]
      (WriteSettlementChunk.mk er_slot checksum 1 2 ([xff; xfe] ++ zeros 698)));
   (cx, SOwner [validator; session; delegated; record] (SettleAccountOwner.mk er_slot checksum (key 78)));
   (cx, SLamports [validator; session; delegated; record; fee_vault]
      (SettleAccountLamports.mk er_slot checksum 1 [1500000; 0; 0; 0; 0; 0; 0]) (Some before_lamports))].
Definition finish : SettlementInstr :=
  SFinish [validator; session; checkpoint; cursor] (FinishSettlement.mk er_slot checksum).
Definition abort : SettlementInstr := SAbort [validator; session].
Fixpoint run_all (l : list (Ctx * SettlementInstr)) (w : World) : World :=
  match l with [] => w | (cx, i) :: l' => run_all l' (run (exec_settlement false cx i) w) end.
(** The calls [l] as they run from [w]. *)
Fixpoint executed (l : list (Ctx * SettlementInstr)) (w : World) : list Executed :=
  match l with
  | [] => []
  | (cx, i) :: l' => mkExecuted cx i w (run (exec_settlement false cx i) w) :: executed l' (run (exec_settlement false cx i) w)
  end.
Definition w1 : World := run_all steps w0.
Definition w2 : World := run (exec_settlement false cx finish) w1.
Definition w3 : World := run_all [(cx, begin)] w0.
Definition w4 : World := run (exec_settlement false cx abort) w3.

Lemma idle : represents w0 session Idle.
Proof.
  eexists. split; [unfold session_at; vm_compute; reflexivity|reflexivity].
Qed.
Ltac safe :=
  split; [unfold in_width, umax; cbn; lia|]; split; [apply (bool_decide_unpack _); vm_compute; reflexivity|];
  split; [concrete_wf|]; split; [reflexivity|]; split; [apply (bool_decide_unpack _); vm_compute; reflexivity|];
  split; [apply (bool_decide_unpack _); vm_compute; reflexivity|exact I].
Lemma steps_safe : Forall (instr_safe session) steps.
Proof. unfold steps. repeat (apply Forall_cons; [safe|]). apply Forall_nil. Qed.
Lemma finish_safe : instr_safe session (cx, finish).
Proof. safe. Qed.
Lemma abort_safe : instr_safe session (cx, abort).
Proof. safe. Qed.
Lemma called_executed l w : called <$> executed l w = l.
Proof. revert w. induction l as [|[c i] l IH]; intros w; [done|]. cbn. by rewrite IH. Qed.
Lemma steps_run : settlement_runs false session w0 (executed steps w0) w1.
Proof.
  unfold w1, steps. cbn [run_all executed].
  repeat (eapply settlement_runs_cons;
    [match goal with |- exec_settlement ?v ?cx ?i ?w = _ =>
       destruct (run_Ok (exec_settlement v cx i) w) as [[] Hx]; [vm_compute; reflexivity|exact Hx] end|]).
  apply settlement_runs_nil.
Qed.
Lemma plan_wf : Forall wf_op plan.
Proof. unfold plan. repeat (apply Forall_cons; [concrete_wf|]). apply Forall_nil. Qed.
End IntegrityExample.

(** ** Properties *)

(** C1: the settlement handlers refine the abstract machine:
    along any sequence of begin, chunk, owner, lamports, receipt, token, finish
    and abort instructions, interleaved with anything that does not touch the
    session's fields, each successful instruction makes one step of the machine;
    the operations it appends to the machine's history have taken effect on the
    accounts between the world it found and the one it left, and the session's
    accumulator is the hash of the whole history. *)
Theorem settlement_refines `{HostLaws} v2 session w l w' st :
  settlement_runs v2 session w l w' → Forall (instr_safe session) (called <$> l) → represents w session st →
  ∃ labs st', Forall2 (labelled v2) l labs ∧ settle_steps st labs st' ∧ represents w' session st'.
Proof. apply settlement_runs_simulate. Qed.

Lemma settlement_refines_witness :
  ∃ labs st', Forall2 (labelled false) (IntegrityExample.executed IntegrityExample.steps SettlementExample.w0) labs ∧
    settle_steps Idle labs st' ∧ represents IntegrityExample.w1 SessionExample.session st'.
Proof.
  refine (settlement_refines false SessionExample.session _ _ _ Idle IntegrityExample.steps_run _ IntegrityExample.idle).
  rewrite IntegrityExample.called_executed. exact IntegrityExample.steps_safe.
Defined.

(** C4: if a run that starts with an idle
    session ends with a successful [FinishSettlement] for checksum [chk], and
    [plan] is a list of operations with that checksum, then the operations
    applied since the settlement was opened are exactly [plan], in that order,
    unless two different messages with one SHA-256 hash are at hand.  Each
    instruction since the opening either left every account as it was and counts
    for no operation, or counts for exactly the operations its accounts and
    arguments name, which have then taken effect. *)
Theorem settlement_applies_exactly_the_plan `{HostLaws} v2 session w l w1 cx accounts args w2 plan :
  represents w session Idle → settlement_runs v2 session w l w1 →
  Forall (instr_safe session) ((called <$> l) ++ [(cx, SFinish accounts args)]) →
  exec_settlement v2 cx (SFinish accounts args) w1 = Ok (tt, w2) →
  let er := FinishSettlement.er_slot args in
  Forall wf_op plan → settle_fold er plan = FinishSettlement.checksum args →
  represents w2 session Idle ∧
  ∃ labs0 labs1, Forall2 (labelled v2) l (labs0 ++ LBegin er (FinishSettlement.checksum args) :: labs1) ∧
    Forall is_apply labs1 ∧
    (ops_of labs1 = plan ∨ sha_collision (messages er (ops_of labs1)) (messages er plan)).
Proof.
  intros Hst Hruns Hs Hr er Hplan Hf. apply Forall_app in Hs as [Hs Hfs]. rewrite Forall_singleton in Hfs.
  destruct (runs_active _ _ _ _ _ Hst Hruns Hs) as (labs & st1 & Hl & Hst1 & Hact).
  destruct (exec_settlement_sim _ _ _ _ _ _ Hfs Hr _ Hst1) as (lab & st2 & Hstep & Hst2 & ->).
  inversion Hstep as [| |er' chk' applied Hfold|]; subst. split; [done|].
  destruct (Hact _ _ _ eq_refl) as (labs0 & labs1 & -> & Ha & ->). exists labs0, labs1. split_and!; [done..|].
  destruct Hst1 as (s & _ & _ & _ & _ & _ & Her & Hwf). fold er in Her, Hfold.
  rewrite <- Hf in Hfold. destruct (settle_fold_binding _ _ _ _ Her Her Hwf Hplan Hfold) as [[_ ?]|?]; auto.
Qed.

Lemma settlement_applies_exactly_the_plan_witness :
  represents IntegrityExample.w2 SessionExample.session Idle ∧
  ∃ labs, ops_of labs = IntegrityExample.plan ∨
    sha_collision (messages 40 (ops_of labs)) (messages 40 IntegrityExample.plan).
Proof.
  destruct (run_Ok (exec_settlement false SettlementExample.cx IntegrityExample.finish) IntegrityExample.w1) as [[] Hr];
    [vm_compute; reflexivity|].
  destruct (λ H1 H2, settlement_applies_exactly_the_plan false SessionExample.session _ _ _ _ _ _ _ IntegrityExample.plan
    IntegrityExample.idle IntegrityExample.steps_run H1 Hr IntegrityExample.plan_wf H2) as (Hi & labs0 & labs1 & _ & _ & Hp).
  - rewrite IntegrityExample.called_executed. apply Forall_app; split; [exact IntegrityExample.steps_safe|].
    apply Forall_cons; [exact IntegrityExample.finish_safe|apply Forall_nil].
  - vm_compute. reflexivity.
  - split; [exact Hi|]. exists labs1. exact Hp.
Defined.

(** C20: if a run that starts with an idle session
    ends with a successful [AbortSettlement], then some instruction of it opened
    the settlement, and each settlement instruction since then applies operations
    but left every account exactly as it found it, unless two different messages
    with one SHA-256 hash are at hand: the messages of the operations that were
    applied and those of none. *)
Theorem settlement_aborts_only_untouched `{HostLaws} v2 session w l w1 cx accounts w2 :
  represents w session Idle → settlement_runs v2 session w l w1 →
  Forall (instr_safe session) ((called <$> l) ++ [(cx, SAbort accounts)]) →
  exec_settlement v2 cx (SAbort accounts) w1 = Ok (tt, w2) →
  represents w2 session Idle ∧
  ∃ l0 x opened b l1, l = l0 ++ x :: l1 ∧ e_instr x = SBegin opened b ∧
    (Forall untouched l1 ∨
     ∃ labs, Forall2 (labelled v2) l1 labs ∧
       sha_collision (messages (BeginSettlement.er_slot b) (ops_of labs)) (messages (BeginSettlement.er_slot b) [])).
Proof.
  intros Hst Hruns Hs Hr. apply Forall_app in Hs as [Hs Hfs]. rewrite Forall_singleton in Hfs.
  destruct (runs_active _ _ _ _ _ Hst Hruns Hs) as (labs & st1 & Hl & Hst1 & Hact).
  destruct (exec_settlement_sim _ _ _ _ _ _ Hfs Hr _ Hst1) as (lab & st2 & Hstep & Hst2 & ->).
  inversion Hstep as [| | |er chk applied Hfold]; subst. split; [done|].
  destruct (Hact _ _ _ eq_refl) as (labs0 & labs1 & -> & Ha & ->).
  apply Forall2_app_inv_r in Hl as (l0 & l' & Hl0 & Hl & ->).
  apply Forall2_cons_inv_r in Hl as (x & l1 & Hx & Hl1 & ->).
  destruct (labelled_begin _ _ _ _ Hx) as (opened & b & Hi & -> & ->).
  exists l0, x, opened, b, l1. split_and!; [done..|].
  destruct Hst1 as (s & _ & _ & _ & _ & _ & Her & Hwf).
  destruct (settle_fold_binding _ _ _ _ Her Her Hwf (Forall_nil_2 _) Hfold) as [[_ ?]|?]; [left|right; eauto].
  by eapply labelled_untouched.
Qed.

Lemma settlement_aborts_only_untouched_witness :
  represents IntegrityExample.w4 SessionExample.session Idle ∧
  ∃ l0 x l1, IntegrityExample.executed [(SettlementExample.cx, IntegrityExample.begin)] SettlementExample.w0 = l0 ++ x :: l1 ∧
    (Forall untouched l1 ∨ ∃ er labs, sha_collision (messages er (ops_of labs)) (messages er [])).
Proof.
  destruct (run_Ok (exec_settlement false SettlementExample.cx IntegrityExample.begin) SettlementExample.w0) as [[] Hb];
    [vm_compute; reflexivity|].
  destruct (run_Ok (exec_settlement false SettlementExample.cx IntegrityExample.abort) IntegrityExample.w3) as [[] Hr];
    [vm_compute; reflexivity|].
  assert (Hruns : settlement_runs false SessionExample.session SettlementExample.w0
    (IntegrityExample.executed [(SettlementExample.cx, IntegrityExample.begin)] SettlementExample.w0) IntegrityExample.w3).
  { eapply settlement_runs_cons; [exact Hb|]. apply settlement_runs_nil. }
  destruct (λ H1, settlement_aborts_only_untouched false SessionExample.session _ _ _ _ _ _
    IntegrityExample.idle Hruns H1 Hr) as (Hi & l0 & x & o & b & l1 & Hl & _ & Hp).
  - rewrite IntegrityExample.called_executed. apply Forall_app; split; [exact (Forall_take _ 1 _ IntegrityExample.steps_safe)|].
    apply Forall_cons; [exact IntegrityExample.abort_safe|apply Forall_nil].
  - split; [exact Hi|]. exists l0, x, l1. split; [exact Hl|]. destruct Hp as [Hp|(labs & _ & Hp)]; [by left|right].
    exists (BeginSettlement.er_slot b), labs. exact Hp.
Defined.
