(* ===== verification/Portal.v ===== *)
(** * What holds of every Portal instruction

    The handlers of the other files, seen through [process_instruction]: no
    instruction creates or destroys lamports, and the bytes of an instruction reach
    the handler of its kind. *)

From Stdlib Require Import ZArith Lia.
From Stdlib Require Import Strings.Byte.
From stdpp Require Import base gmap list numbers.
From S2P Require Import Prelude Borsh Events Runtime State Commitments Frames Toy Pda Instruction Verifier StepProof SessionOps Delegation Settlement Checkpoint Challenge Deposits Ingress TokenWithdrawal BridgeState Continuity Dispatch Integrity.

Section conserves.
Context `{HostLaws, Groth16} (features : Features) (continuity_v2 : bool) (cx : Ctx).

#[global] Instance deposit_fee_conserves accounts n : Conserves (process_deposit_fee cx accounts n).
Proof. unfold process_deposit_fee. apply _. Qed.
#[global] Instance begin_settlement_conserves accounts args : Conserves (process_begin_settlement cx accounts args).
Proof. unfold process_begin_settlement. apply _. Qed.
#[global] Instance write_chunk_conserves accounts args : Conserves (process_write_settlement_chunk cx accounts args).
Proof. unfold process_write_settlement_chunk. apply _. Qed.
#[global] Instance finish_settlement_conserves accounts args : Conserves (process_finish_settlement cx accounts args).
Proof. unfold process_finish_settlement. apply _. Qed.
#[global] Instance abort_settlement_conserves accounts : Conserves (process_abort_settlement cx accounts).
Proof. unfold process_abort_settlement. apply _. Qed.
#[global] Instance settle_owner_conserves accounts args : Conserves (process_settle_account_owner cx accounts args).
Proof. unfold process_settle_account_owner. apply _. Qed.
#[global] Instance start_withdrawal_conserves accounts n : Conserves (process_start_withdrawal cx accounts n).
Proof. unfold process_start_withdrawal. apply _. Qed.
#[global] Instance load_or_create_cursor_conserves p s k : Conserves (load_or_create_cursor cx p s k).
Proof. unfold load_or_create_cursor, create_cursor, store_cursor. apply _. Qed.
#[global] Instance fund_checkpoint_conserves p s c er b k n : Conserves (fund_checkpoint cx p s c er b k n).
Proof. unfold fund_checkpoint. apply _. Qed.
#[global] Instance propose_conserves accounts args v : Conserves (process_propose_checkpoint_versioned cx accounts args v).
Proof. unfold process_propose_checkpoint_versioned. apply _. Qed.
#[global] Instance commit_conserves accounts args v : Conserves (process_commit_checkpoint_versioned cx accounts args v).
Proof. unfold process_commit_checkpoint_versioned. apply _. Qed.
#[global] Instance propose_v1_conserves accounts args : Conserves (process_propose_checkpoint cx accounts args).
Proof. unfold process_propose_checkpoint. apply _. Qed.
#[global] Instance commit_v1_conserves accounts args : Conserves (process_commit_checkpoint cx accounts args).
Proof. unfold process_commit_checkpoint. apply _. Qed.
#[global] Instance verify_proof_conserves args : Conserves (process_verify_er_step_proof_v1 features args).
Proof. unfold process_verify_er_step_proof_v1. apply _. Qed.
#[global] Instance cancel_conserves accounts args : Conserves (process_cancel_checkpoint cx accounts args).
Proof. unfold process_cancel_checkpoint. apply _. Qed.
#[global] Instance open_challenge_conserves accounts args : Conserves (process_open_challenge cx accounts args).
Proof. unfold process_open_challenge. apply _. Qed.
#[global] Instance create_step_proof_conserves accounts args : Conserves (process_create_step_proof features cx accounts args).
Proof. unfold process_create_step_proof. apply _. Qed.
#[global] Instance write_step_proof_conserves accounts args : Conserves (process_write_step_proof cx accounts args).
Proof. unfold process_write_step_proof. apply _. Qed.
#[global] Instance seal_step_proof_conserves accounts args : Conserves (process_seal_step_proof cx accounts args).
Proof. unfold process_seal_step_proof. apply _. Qed.
#[global] Instance resolve_conserves accounts args : Conserves (process_resolve_challenge features cx accounts args).
Proof. unfold process_resolve_challenge. apply _. Qed.
#[global] Instance register_bridge_conserves accounts args : Conserves (process_register_session_bridge cx accounts args).
Proof. unfold process_register_session_bridge. apply _. Qed.
#[global] Instance respond_conserves accounts args : Conserves (process_respond_challenge cx accounts args).
Proof. unfold process_respond_challenge. apply _. Qed.
#[global] Instance bisect_conserves accounts args : Conserves (process_bisect_challenge cx accounts args).
Proof. unfold process_bisect_challenge. apply _. Qed.
#[global] Instance timeout_conserves accounts args : Conserves (process_timeout_challenge cx accounts args).
Proof. unfold process_timeout_challenge. apply _. Qed.
#[global] Instance accumulate_token_conserves accounts args :
  Conserves (process_accumulate_token_withdrawal continuity_v2 cx accounts args).
Proof. unfold process_accumulate_token_withdrawal. apply _. Qed.
#[global] Instance consume_token_conserves accounts args :
  Conserves (process_consume_token_withdrawal continuity_v2 cx accounts args).
Proof. unfold process_consume_token_withdrawal. apply _. Qed.
#[global] Instance request_undelegation_conserves accounts : Conserves (process_request_undelegation cx accounts).
Proof. unfold process_request_undelegation. apply _. Qed.
#[global] Instance approve_undelegation_conserves accounts : Conserves (process_approve_undelegation cx accounts).
Proof. unfold process_approve_undelegation. apply _. Qed.
#[global] Instance open_initialized_conserves accounts args o : Conserves (process_open_session_initialized cx accounts args o).
Proof.
  unfold process_open_session_initialized. destruct o as [o|]; cbn [fmap option_fmap option_map];
    destruct (find_session_pda _), (find_fee_vault_pda _); apply _.
Qed.
#[global] Instance open_session_v2_conserves accounts args : Conserves (process_open_session_v2 cx accounts args).
Proof. unfold process_open_session_v2. apply _. Qed.
#[global] Instance append_ingress_conserves p s r pl : Conserves (append_ingress_v2 cx p s r pl).
Proof. unfold append_ingress_v2. apply _. Qed.
#[global] Instance delegate_v2_conserves accounts n : Conserves (process_delegate_v2 cx accounts n).
Proof. unfold process_delegate_v2. apply _. Qed.
#[global] Instance deposit_fee_v2_conserves accounts n : Conserves (process_deposit_fee_v2 cx accounts n).
Proof. unfold process_deposit_fee_v2. apply _. Qed.
#[global] Instance prepare_binding_conserves p s c k b x a : Conserves (prepare_binding cx p s c k b x a).
Proof. unfold prepare_binding. apply _. Qed.
#[global] Instance propose_v2_conserves accounts args : Conserves (process_propose_checkpoint_v2 cx accounts args).
Proof. unfold process_propose_checkpoint_v2. apply _. Qed.
#[global] Instance commit_v2_conserves accounts args : Conserves (process_commit_checkpoint_v2 cx accounts args).
Proof. unfold process_commit_checkpoint_v2. apply _. Qed.
#[global] Instance register_bridge_v2_conserves accounts args : Conserves (process_register_session_bridge_v2 cx accounts args).
Proof. unfold process_register_session_bridge_v2. apply _. Qed.
#[global] Instance record_token_conserves accounts args : Conserves (process_record_token_deposit_v2 cx accounts args).
Proof. unfold process_record_token_deposit_v2. apply _. Qed.

(** *** The handlers that move lamports themselves *)

Lemma close_session_conserves accounts w u w' :
  NoDup accounts → wf_world w → process_close_session cx accounts w = Ok (u, w') → total_lamports w' = total_lamports w.
Proof.
  intros Hnd Hwf Hr. destruct accounts as [|closer [|session [|fee_vault [|sys [|cursor rest]]]]];
    try (by unfold process_close_session in Hr; apply fail_Ok in Hr).
  assert (Hnd' : NoDup [closer; session; fee_vault; cursor]) by (nodup; distinct).
  apply process_close_session_Ok in Hr as [Hw _]; [|done..]. rewrite Hw. by apply closed_world_total.
Qed.

Lemma undelegate_conserves accounts handoff w u w' :
  NoDup accounts → wf_world w → process_undelegate_inner cx accounts handoff w = Ok (u, w') →
  total_lamports w' = total_lamports w.
Proof.
  intros Hnd Hwf Hr. destruct accounts as [|au [|d [|o [|r [|sys [|s [|q rest]]]]]]];
    try (by unfold process_undelegate_inner in Hr; apply fail_Ok in Hr).
  assert (Hp : undelegate_pre au d r q).
  { nodup. unfold undelegate_pre. rewrite !not_elem_of_cons. split_and!; try assumption; apply not_elem_of_nil. }
  apply process_undelegate_inner_Ok in Hr as [Hw _]; [|done..]. rewrite Hw. by apply undelegated_world_total.
Qed.

Lemma settle_lamports_conserves accounts args prev w u w' :
  wf borsh args → NoDup accounts → (find_fee_vault_pda (program_id cx)).1 ≠ (find_session_pda (program_id cx)).1 →
  process_settle_account_lamports_inner cx accounts args prev w = Ok (u, w') → total_lamports w' = total_lamports w.
Proof.
  intros Hargs Hnd Hv Hr. destruct accounts as [|va [|session rest]].
  1-2: destruct args; unfold process_settle_account_lamports_inner in Hr; mstep Hr as [] w1 G1; mstep Hr as [] w1 G2;
    by apply fail_Ok in Hr.
  assert (Hs : session = (find_session_pda (program_id cx)).1).
  { destruct args. unfold process_settle_account_lamports_inner in Hr. mstep Hr as [] w1 G1. mstep Hr as [] w1 G2.
    cbv zeta in Hr. mstep Hr as s w1 G3. by apply load_session_Ok in G3 as [-> _]. }
  assert (Hn : session ∉ (lamport_targets (va :: session :: rest) args).*1).
  { intros Hin. apply list_elem_of_fmap in Hin as ([a n] & -> & Hin). apply lamport_targets_elem in Hin as [Hin _]; [|done].
    by nodup. }
  apply process_settle_account_lamports_inner_Ok in Hr as (s & _ & _ & Hr); [|done|congruence].
  destruct Hr as [->|Hr]; [done|apply Hr].
Qed.

Lemma settle_receipt_conserves accounts args w u w' :
  wf borsh args → process_settle_deposit_receipt cx accounts args w = Ok (u, w') → total_lamports w' = total_lamports w.
Proof.
  intros Hargs Hr. destruct accounts as [|va [|s [|d [|src [|l rest]]]]];
    try (by destruct args; unfold process_settle_deposit_receipt in Hr; apply fail_Ok in Hr).
  eapply process_settle_deposit_receipt_Ok in Hr; [|done]. destruct args.
  destruct Hr as (se & r & _ & _ & _ & [[-> _]|Hr]); [done|apply Hr].
Qed.

(** *** All of them *)

Lemma deserialize_args_Ok {A} (c : codec A) `{!CodecOk c} data w x w' :
  deserialize_args c data w = Ok (x, w') → wf c x ∧ w' = w.
Proof.
  unfold deserialize_args. intros Hr. apply ok_or_Ok in Hr as [Hr ->].
  destruct (dec c data) as [[y r]|] eqn:Hd; [|done]. injection Hr as ->. by apply dec_sound in Hd as [? _].
Qed.

#[global] Instance deserialize_read_only {A} (c : codec A) d : ReadOnly (deserialize_args c d).
Proof. unfold deserialize_args. apply _. Qed.
#[global] Instance deserialize_exact_read_only {A} (c : codec A) d : ReadOnly (deserialize_args_exact c d).
Proof. unfold deserialize_args_exact. apply _. Qed.

(** The instructions that pay several accounts by hand: CloseSession, the two
    Undelegates and SettleAccountLamports. *)
Definition pays_by_hand (data : list byte) : Prop :=
  match data with [] => False | tag :: _ => byte_val tag ∈ [1; 4; 10; 12] end.

Lemma process_instruction_conserves accounts data w u w' :
  wf_world w → (find_fee_vault_pda (program_id cx)).1 ≠ (find_session_pda (program_id cx)).1 →
  (pays_by_hand data → NoDup accounts) →
  process_instruction features continuity_v2 cx accounts data w = Ok (u, w') → total_lamports w' = total_lamports w.
Proof.
  intros Hwf Hv Hnd Hr. destruct data as [|tag payload]; [by apply fail_Ok in Hr|].
  unfold process_instruction, split_instruction in Hr. cbn [pays_by_hand] in Hnd.
  generalize dependent (byte_val tag). intros z Hnd Hr. 
  assert (Hin : z ∈ [1; 4; 10; 12] ∨ z = 9 ∨ z ∉ [1; 4; 9; 10; 12]) by (destruct (decide (z ∈ [1; 4; 10; 12])); [tauto|];
    destruct (decide (z = 9)); [tauto|]; right; right; set_solver).
  destruct Hin as [Hin|[->|Hin]].
  - pose proof (Hnd Hin) as Hd. rewrite !elem_of_cons, elem_of_nil in Hin. destruct Hin as [->|[->|[->|[->|[]]]]].
    + by eapply close_session_conserves.
    + by eapply undelegate_conserves.
    + by eapply undelegate_conserves.
    + apply bind_Ok in Hr as (args & w1 & G & Hr). apply deserialize_args_Ok in G as [Hargs ->]; [|apply _]. cbv zeta in Hr.
      destruct (drop _ payload); [by eapply settle_lamports_conserves|].
      case_match; [by eapply settle_lamports_conserves|by apply fail_Ok in Hr].
  - apply bind_Ok in Hr as (args & w1 & G & Hr). apply deserialize_args_Ok in G as [Hargs ->]; [|apply _].
    by eapply settle_receipt_conserves.
  - rewrite !not_elem_of_cons in Hin. destruct Hin as (?&?&?&?&?&_).
    destruct z as [|p|p]; [revert Hr; apply conserves| |revert Hr; apply conserves].
    do 6 (try (destruct p as [p|p|])); try done; revert Hr; apply conserves.
Qed.
End conserves.

(** ** Properties *)

Module PortalExample.
Import SessionExample.
Definition features : Features := mkFeatures true true false.
(** The bytes that open the session of the examples and those that close it. *)
Definition open_bytes : list byte := PortalInstruction.serialize (PortalInstruction.OpenSession args).
Definition close_bytes : list byte := PortalInstruction.serialize PortalInstruction.CloseSession.
Abbreviation open_ix := (process_instruction features true cx [payer; session; fee_vault; system_id] open_bytes).
Abbreviation close_ix := (process_instruction features true cx [payer; session; fee_vault; system_id; cursor] close_bytes).
End PortalExample.

(** C32: the Borsh bytes of every instruction the
    build has run exactly that instruction's handler with exactly its arguments;
    empty data and tags beyond the last instruction are rejected. *)
Theorem instruction_bytes_reach_handler `{Host, Groth16} features continuity_v2 cx accounts x data w :
  PortalInstruction.in_range x → enabled features continuity_v2 x = true →
  match data with [] => True | tag :: _ => 37 < byte_val tag end →
  process_instruction features continuity_v2 cx accounts (PortalInstruction.serialize x) w =
    handle features continuity_v2 cx accounts x w ∧
  process_instruction features continuity_v2 cx accounts data w = Err InvalidInstructionData.
Proof. intros ???. split; [by apply process_instruction_serialize|by apply process_instruction_unknown]. Qed.

Lemma instruction_bytes_reach_handler_witness :
  process_instruction PortalExample.features true SessionExample.cx [SessionExample.payer; SessionExample.session;
      SessionExample.fee_vault; system_id] PortalExample.open_bytes SessionExample.w0 = SessionExample.open SessionExample.w0.
Proof.
  refine (proj1 (instruction_bytes_reach_handler PortalExample.features true SessionExample.cx [SessionExample.payer;
    SessionExample.session; SessionExample.fee_vault; system_id] (PortalInstruction.OpenSession SessionExample.args) []
    SessionExample.w0 _ _ _)).
  - unfold PortalInstruction.in_range, wf; cbn; unfold in_width, umax; cbn; repeat split; lia.
  - reflexivity.
  - exact I.
Defined.

(** C12: no Portal instruction creates or destroys
    lamports.  CloseSession, the two Undelegates and SettleAccountLamports pay
    several accounts by hand and rely on being passed distinct accounts; for every
    other instruction an account may be passed more than once. *)
Theorem portal_conserves_lamports `{HostLaws, Groth16} features continuity_v2 cx accounts data w u w' :
  wf_world w → (find_fee_vault_pda (program_id cx)).1 ≠ (find_session_pda (program_id cx)).1 →
  (pays_by_hand data → NoDup accounts) →
  process_instruction features continuity_v2 cx accounts data w = Ok (u, w') → total_lamports w' = total_lamports w.
Proof. apply process_instruction_conserves. Qed.

Lemma portal_conserves_lamports_witness :
  let w1 := run PortalExample.open_ix SessionExample.w0 in
  let w2 := run PortalExample.close_ix w1 in
  total_lamports w2 = total_lamports w1.
Proof.
  intros w1 w2. destruct (run_Ok PortalExample.close_ix w1) as [[] Hr]; [vm_compute; reflexivity|].
  apply (portal_conserves_lamports PortalExample.features true SessionExample.cx [SessionExample.payer;
    SessionExample.session; SessionExample.fee_vault; system_id; SessionExample.cursor] PortalExample.close_bytes w1 tt).
  - apply wf_worldb_wf. vm_compute. reflexivity.
  - apply (bool_decide_unpack _). vm_compute. reflexivity.
  - intros _. apply (bool_decide_unpack _). vm_compute. reflexivity.
  - exact Hr.
Defined.
