(* ===== verification/Sizes.v ===== *)
(** * Account sizes under the Portal

    No handler changes the size of an account that has data, but CloseSession,
    which empties the session, its fee vault and its checkpoint cursor.  So the
    account that binds a V2 proposal to its inputs stays for good, and
    [v2_replacement_refused] follows: the slot of a V2 proposal takes no other,
    whatever becomes of the first. *)

From Stdlib Require Import ZArith Lia.
From Stdlib Require Import Strings.Byte.
From stdpp Require Import base gmap list numbers.
From S2P Require Import Prelude Borsh Events Runtime State Commitments Frames Toy Pda Instruction Verifier StepProof SessionOps Delegation Settlement Checkpoint Challenge Deposits Ingress TokenWithdrawal BridgeState Continuity Dispatch Integrity Portal.

(** ** Steps *)

(** [Sized a m]: when [a] has data, a successful run of [m] leaves it as much. *)
Class Sized {A} (a : Address) (m : prog A) : Prop :=
  sized_data w x w' : m w = Ok (x, w') → data (acct w a) ≠ [] → length (data (acct w' a)) = length (data (acct w a)).

Section sized_instances.
Context {A B : Type} (a : Address).
Implicit Types (m : prog A) (f : A → prog B).

#[global] Instance read_only_sized m : ReadOnly m → Sized a m | 10.
Proof. intros Hm w x w' Hr _. by rewrite (Hm _ _ _ Hr). Qed.
#[global] Instance bind_sized m f : Sized a m → (∀ x, Sized a (f x)) → Sized a (m ≫= f).
Proof.
  intros Hm Hf w x w' Hr Hd. apply bind_Ok in Hr as (y & w1 & Hy & Hr).
  pose proof (Hm _ _ _ Hy Hd) as Hl. rewrite <- Hl. eapply Hf; [exact Hr|]. intros E. rewrite E in Hl. by destruct (data (acct w a)).
Qed.
#[global] Instance if_sized (c : bool) m m' : Sized a m → Sized a m' → Sized a (if c then m else m').
Proof. by destruct c. Qed.
End sized_instances.

#[global] Hint Extern 5 (Sized _ (match ?x with _ => _ end)) => destruct x : typeclass_instances.

Section sized_writes.
Context (a : Address).

(** Writing as many bytes as there are. *)
Lemma put_sized b x w : length (data x) = length (data (acct w b)) → length (data (acct (put b x w) a)) = length (data (acct w a)).
Proof. intros Hl. rewrite acct_put. case_decide; [by subst|done]. Qed.
Lemma set_data_sized b d w u w' :
  set_data b d w = Ok (u, w') → length d = length (data (acct w b)) → length (data (acct w' a)) = length (data (acct w a)).
Proof. intros Hr Hl. apply update_Ok in Hr. rewrite (proj1 Hr). by apply put_sized. Qed.

Lemma update_sized b f : (∀ x, length (data (f x)) = length (data x)) → Sized a (update b f).
Proof. intros Hf w u w' Hr _. apply update_Ok in Hr. rewrite (proj1 Hr). by apply put_sized. Qed.
#[global] Instance set_lamports_sized b n : Sized a (set_lamports b n).
Proof. by apply update_sized. Qed.
#[global] Instance set_owner_sized b o : Sized a (update b (with_owner o)).
Proof. by apply update_sized. Qed.
#[global] Instance fill_zero_sized b : Sized a (fill_zero b).
Proof. apply update_sized. intros x. cbn. by rewrite length_zeros. Qed.
#[global] Instance emit_sized e : Sized a (emit_transfer_event e).
Proof. intros w u w' Hr _. unfold emit_transfer_event in Hr. by minv. Qed.
#[global] Instance for_each_sized {A} (f : A → prog unit) xs : (∀ x, Sized a (f x)) → Sized a (for_each f xs).
Proof. intros Hf. induction xs; simpl; apply _. Qed.

Lemma serialize_into_length {A} `{Borsh A} (x : A) d d' : serialize_into x d = Some d' → length d' = length d.
Proof.
  unfold serialize_into, object_length. destruct (Nat.leb_spec (length (enc borsh x)) (length d)); [|done]. intros [= <-].
  rewrite length_app, length_drop. lia.
Qed.
#[global] Instance store_sized {A} `{Borsh A} b (x : A) e : Sized a (store b x e).
Proof.
  intros w u w' Hr _. unfold store in Hr. mstep Hr as y w1 G. mstep Hr as d w1 G1.
  eapply set_data_sized; [exact Hr|]. by eapply serialize_into_length.
Qed.

Context `{HostLaws}.

#[global] Instance Transfer_sized cx from to n : Sized a (Transfer cx from to n).
Proof.
  unfold Transfer, SystemProgram.transfer, SystemProgram.transfer_verified, Borrowed.checked_sub_lamports,
    Borrowed.checked_add_lamports, Borrowed.set_lamports. apply _.
Qed.
(** The System program allocates only what is empty. *)
#[global] Instance Allocate_sized cx b n seeds : Sized a (Allocate cx b n seeds).
Proof.
  intros w u w' Hr Hd. apply Allocate_Ok in Hr as (Hw & He & _). rewrite (proj1 Hw), acct_put_ne; [done|]. by intros ->.
Qed.
#[global] Instance Assign_sized cx b o seeds : Sized a (Assign cx b o seeds).
Proof. unfold Assign, SystemProgram.assign, Borrowed.set_owner. apply _. Qed.
#[global] Instance initialize_pda_account_sized cx payer b n space o seeds :
  Sized a (initialize_pda_account cx payer b n space o seeds).
Proof. unfold initialize_pda_account. apply _. Qed.

Lemma write_session_length d s d' : write_session d s = Ok d' → length d' = length d.
Proof.
  unfold write_session. intros Hr.
  repeat (case_match; try discriminate); injection Hr as <-;
    match goal with X : serialize_into _ _ = Some _ |- _ => exact (serialize_into_length _ _ _ X) end.
Qed.
Lemma write_deposit_receipt_length d r d' : write_deposit_receipt d r = Ok d' → length d' = length d.
Proof.
  unfold write_deposit_receipt. intros Hr.
  repeat (case_match; try discriminate); injection Hr as <-;
    match goal with X : serialize_into _ _ = Some _ |- _ => exact (serialize_into_length _ _ _ X) end.
Qed.
#[global] Instance store_session_sized b s : Sized a (store_session b s).
Proof.
  intros w u w' Hr _. unfold store_session in Hr. mstep Hr as y w1 G. mstep Hr as d w1 G1.
  eapply set_data_sized; [exact Hr|]. by eapply write_session_length.
Qed.
End sized_writes.

(** ** Handlers *)

Section sized_handlers.
Context `{HostLaws, Groth16} (features : Features) (continuity_v2 : bool) (cx : Ctx) (a : Address).

#[global] Instance deposit_fee_sized accounts n : Sized a (process_deposit_fee cx accounts n).
Proof. unfold process_deposit_fee. apply _. Qed.
#[global] Instance begin_settlement_sized accounts args : Sized a (process_begin_settlement cx accounts args).
Proof. unfold process_begin_settlement. apply _. Qed.
#[global] Instance finish_settlement_sized accounts args : Sized a (process_finish_settlement cx accounts args).
Proof. unfold process_finish_settlement. apply _. Qed.
#[global] Instance abort_settlement_sized accounts : Sized a (process_abort_settlement cx accounts).
Proof. unfold process_abort_settlement. apply _. Qed.
#[global] Instance settle_owner_sized accounts args : Sized a (process_settle_account_owner cx accounts args).
Proof. unfold process_settle_account_owner. apply _. Qed.
#[global] Instance settle_lamports_sized accounts args prev :
  Sized a (process_settle_account_lamports_inner cx accounts args prev).
Proof. unfold process_settle_account_lamports_inner. apply _. Qed.
#[global] Instance dispatch_lamports_sized accounts payload : Sized a (dispatch_lamports cx accounts payload).
Proof. unfold dispatch_lamports, process_settle_account_lamports, process_settle_account_lamports_with_surplus. apply _. Qed.
#[global] Instance start_withdrawal_sized accounts n : Sized a (process_start_withdrawal cx accounts n).
Proof. unfold process_start_withdrawal. apply _. Qed.
#[global] Instance undelegate_inner_sized accounts b : Sized a (process_undelegate_inner cx accounts b).
Proof. unfold process_undelegate_inner, assign_owner. apply _. Qed.
#[global] Instance undelegate_sized accounts : Sized a (process_undelegate cx accounts).
Proof. unfold process_undelegate. apply _. Qed.
#[global] Instance undelegate_handoff_sized accounts : Sized a (process_undelegate_handoff cx accounts).
Proof. unfold process_undelegate_handoff. apply _. Qed.
#[global] Instance request_undelegation_sized accounts : Sized a (process_request_undelegation cx accounts).
Proof. unfold process_request_undelegation. apply _. Qed.
#[global] Instance approve_undelegation_sized accounts : Sized a (process_approve_undelegation cx accounts).
Proof. unfold process_approve_undelegation. apply _. Qed.
#[global] Instance load_or_create_cursor_sized p s k : Sized a (load_or_create_cursor cx p s k).
Proof. unfold load_or_create_cursor, create_cursor, store_cursor. apply _. Qed.
#[global] Instance fund_checkpoint_sized p s c er b k n : Sized a (fund_checkpoint cx p s c er b k n).
Proof. unfold fund_checkpoint. apply _. Qed.
#[global] Instance propose_sized accounts args v : Sized a (process_propose_checkpoint_versioned cx accounts args v).
Proof. unfold process_propose_checkpoint_versioned. apply _. Qed.
#[global] Instance commit_sized accounts args v : Sized a (process_commit_checkpoint_versioned cx accounts args v).
Proof. unfold process_commit_checkpoint_versioned. apply _. Qed.
#[global] Instance propose_v1_sized accounts args : Sized a (process_propose_checkpoint cx accounts args).
Proof. unfold process_propose_checkpoint. apply _. Qed.
#[global] Instance commit_v1_sized accounts args : Sized a (process_commit_checkpoint cx accounts args).
Proof. unfold process_commit_checkpoint. apply _. Qed.
#[global] Instance cancel_sized accounts args : Sized a (process_cancel_checkpoint cx accounts args).
Proof. unfold process_cancel_checkpoint. apply _. Qed.
#[global] Instance open_challenge_sized accounts args : Sized a (process_open_challenge cx accounts args).
Proof. unfold process_open_challenge. apply _. Qed.
#[global] Instance create_step_proof_sized accounts args : Sized a (process_create_step_proof features cx accounts args).
Proof. unfold process_create_step_proof. apply _. Qed.
#[global] Instance write_step_proof_sized accounts args : Sized a (process_write_step_proof cx accounts args).
Proof. unfold process_write_step_proof. apply _. Qed.
#[global] Instance seal_step_proof_sized accounts args : Sized a (process_seal_step_proof cx accounts args).
Proof. unfold process_seal_step_proof. apply _. Qed.
#[global] Instance resolve_sized accounts args : Sized a (process_resolve_challenge features cx accounts args).
Proof. unfold process_resolve_challenge. apply _. Qed.
#[global] Instance respond_sized accounts args : Sized a (process_respond_challenge cx accounts args).
Proof. unfold process_respond_challenge. apply _. Qed.
#[global] Instance bisect_sized accounts args : Sized a (process_bisect_challenge cx accounts args).
Proof. unfold process_bisect_challenge. apply _. Qed.
#[global] Instance timeout_sized accounts args : Sized a (process_timeout_challenge cx accounts args).
Proof. unfold process_timeout_challenge. apply _. Qed.
#[global] Instance register_bridge_sized accounts args : Sized a (process_register_session_bridge cx accounts args).
Proof. unfold process_register_session_bridge. apply _. Qed.
#[global] Instance accumulate_token_sized accounts args :
  Sized a (process_accumulate_token_withdrawal continuity_v2 cx accounts args).
Proof. unfold process_accumulate_token_withdrawal. apply _. Qed.
#[global] Instance consume_token_sized accounts args : Sized a (process_consume_token_withdrawal continuity_v2 cx accounts args).
Proof. unfold process_consume_token_withdrawal. apply _. Qed.
#[global] Instance verify_proof_sized args : Sized a (process_verify_er_step_proof_v1 features args).
Proof. unfold process_verify_er_step_proof_v1. apply _. Qed.
#[global] Instance open_initialized_sized accounts args o : Sized a (process_open_session_initialized cx accounts args o).
Proof.
  unfold process_open_session_initialized. destruct o as [o|]; cbn [fmap option_fmap option_map];
    destruct (find_session_pda _), (find_fee_vault_pda _); apply _.
Qed.
#[global] Instance open_session_sized accounts args : Sized a (process_open_session cx accounts args).
Proof. unfold process_open_session. apply _. Qed.
#[global] Instance open_session_v2_sized accounts args : Sized a (process_open_session_v2 cx accounts args).
Proof.
  unfold process_open_session_v2. pose proof open_initialized_sized as Hi. revert Hi.
  generalize (process_open_session_initialized cx). intros m Hi. apply _.
Qed.
#[global] Instance append_ingress_sized p s r pl : Sized a (append_ingress_v2 cx p s r pl).
Proof. unfold append_ingress_v2. apply _. Qed.
#[global] Instance deposit_fee_v2_sized accounts n : Sized a (process_deposit_fee_v2 cx accounts n).
Proof. unfold process_deposit_fee_v2. apply _. Qed.
#[global] Instance prepare_binding_sized p s c k b x y : Sized a (prepare_binding cx p s c k b x y).
Proof. unfold prepare_binding. apply _. Qed.
#[global] Instance propose_v2_sized accounts args : Sized a (process_propose_checkpoint_v2 cx accounts args).
Proof. unfold process_propose_checkpoint_v2. apply _. Qed.
#[global] Instance commit_v2_sized accounts args : Sized a (process_commit_checkpoint_v2 cx accounts args).
Proof. unfold process_commit_checkpoint_v2. apply _. Qed.
#[global] Instance register_bridge_v2_sized accounts args : Sized a (process_register_session_bridge_v2 cx accounts args).
Proof. unfold process_register_session_bridge_v2. apply _. Qed.
#[global] Instance record_token_sized accounts args : Sized a (process_record_token_deposit_v2 cx accounts args).
Proof. unfold process_record_token_deposit_v2. apply _. Qed.

(** The handlers that write bytes themselves. *)
Lemma write_chunk_sized accounts args : wf borsh args → Sized a (process_write_settlement_chunk cx accounts args).
Proof.
  intros Hwf w u w' Hr Hd. destruct args as [er chk off len chunk]. destruct Hwf as (_ & _ & [Ho _] & [Hn _] & _).
  cbn in Ho, Hn.
  unfold process_write_settlement_chunk in Hr. destruct accounts as [|v [|se [|d [|r rest]]]]; try (by apply fail_Ok in Hr).
  mstep Hr as s w1 G1. mstep Hr as [] w1 G2. mstep Hr as [] w1 G3. mstep Hr as x w1 G4. mstep Hr as [] w1 G5.
  mstep Hr as e w1 G6. mstep Hr as y w1 G7. mstep Hr as [] w1 G8. cbv zeta in Hr. bprop.
  destruct (_ == _); [by apply ret_Ok in Hr as [_ ->]|]. apply bind_Ok in Hr as ([] & w1 & Hs & Hr).
  eapply (set_data_sized a) in Hs; [|].
  - rewrite <- Hs. apply (sized_data _ _ _ Hr). intros E. rewrite E in Hs. by destruct (data (acct w a)).
  - apply length_splice. rewrite length_take. lia.
Qed.

#[global] Instance settle_receipt_sized accounts args : Sized a (process_settle_deposit_receipt cx accounts args).
Proof.
  intros w u w' Hr Hd. destruct args as [er chk bal wd pay lr]. unfold process_settle_deposit_receipt in Hr.
  destruct accounts as [|v [|se [|d [|src [|l rest]]]]]; try (by apply fail_Ok in Hr).
  mstep Hr as s w1 G1. mstep Hr as [] w1 G2. mstep Hr as [] w1 G3. mstep Hr as [] w1 G4. mstep Hr as r w1 G5.
  destruct (_ && _); [by apply ret_Ok in Hr as [_ ->]|].
  mstep Hr as [] w1 G6. mstep Hr as wdd w1 G7. mstep Hr as [] w1 G8. mstep Hr as dx w1 G9. mstep Hr as rent w1 G10.
  mstep Hr as esc w1 G11. mstep Hr as esc' w1 G12. mstep Hr as [] w1 G13.
  apply bind_Ok in Hr as ([pre post] & w2 & Hp & Hr).
  assert (Hpo : Sized a (pay_out d l pay)) by (unfold pay_out; apply _).
  pose proof (Hpo _ _ _ Hp Hd) as Hl. clear Hp. rename Hl into Hp. mstep Hr as dy w3 G14. mstep Hr as d' w3 G15.
  apply bind_Ok in Hr as ([] & w3 & Hs & Hr).
  eapply (set_data_sized a) in Hs; [|by eapply write_deposit_receipt_length].
  rewrite <- Hp, <- Hs. apply (sized_data _ _ _ Hr). intros E. rewrite E, Hp in Hs. by destruct (data (acct w a)).
Qed.

(** The buffer a delegation installs is as long as the account. *)
#[global] Instance delegate_account_sized p d o r b s : Sized a (process_delegate_account cx p d o r b s).
Proof.
  intros w u w' Hr Hd. unfold process_delegate_account in Hr.
  mstep Hr as [] w1 G1. mstep Hr as [] w1 G2. mstep Hr as dx w1 G3. mstep Hr as [] w1 G4.
  destruct (find_delegation_record_pda _ _) as [k bump]. mstep Hr as [] w1 G5. mstep Hr as rx w1 G6. mstep Hr as [] w1 G7.
  mstep Hr as bx w1 G8. mstep Hr as [] w1 G9. mstep Hr as [] w1 G10. cbv zeta in Hr. mstep Hr as rent w1 G11.
  apply bind_Ok in Hr as ([] & w2 & Hi & Hr). apply bind_Ok in Hr as ([] & w3 & Hst & Hr).
  pose proof (sized_data (a:=a) _ _ _ Hi Hd) as H2.
  assert (Hd2 : data (acct w2 a) ≠ []) by (intros E; rewrite E in H2; by destruct (data (acct w a))).
  pose proof (sized_data (a:=a) _ _ _ Hst Hd2) as H3. mstep Hr as [] w4 G12. mstep Hr as by' w4 G13. mstep Hr as dy w4 G14.
  mstep Hr as [] w4 G15. apply negb_false_iff, bool_decide_eq_true in G15.
  eapply (set_data_sized a) in Hr; [|by rewrite G15]. by rewrite Hr, H3, H2.
Qed.
#[global] Instance delegate_groups_sized p s l : Sized a (delegate_groups cx p s l).
Proof. induction l as [|? |? ? |? ? ? |d o r b l IH] using list_ind4; simpl; apply _. Qed.
#[global] Instance delegate_sized accounts g : Sized a (process_delegate cx accounts g).
Proof. unfold process_delegate. apply _. Qed.
#[global] Instance delegate_v2_sized accounts g : Sized a (process_delegate_v2 cx accounts g).
Proof. unfold process_delegate_v2. apply _. Qed.

(** The accounts a session is closed with. *)
Definition session_accounts (portal : Address) : list Address :=
  let session := (find_session_pda portal).1 in
  [session; (find_fee_vault_pda portal).1; (find_checkpoint_cursor_pda portal session).1].

Lemma close_sized b : b ≠ a → Sized a (close b).
Proof. intros Hne w u w' Hr _. apply update_Ok in Hr. by rewrite (proj1 Hr), acct_put_ne. Qed.

Lemma close_session_sized accounts :
  a ∉ session_accounts (program_id cx) → Sized a (process_close_session cx accounts).
Proof.
  intros Ha w u w' Hr. unfold process_close_session in Hr. unfold session_accounts in Ha. rewrite !not_elem_of_cons in Ha.
  destruct Ha as (Hs & Hf & Hc & _). destruct accounts as [|cl [|se [|fv [|sys [|cu rest]]]]]; try (by apply fail_Ok in Hr).
  destruct (find_session_pda _) as [sk ?] eqn:Es, (find_fee_vault_pda _) as [fk ?], (find_checkpoint_cursor_pda _ se) as [ck ?] eqn:Ec.
  mstep Hr as [] w1 G1. mstep Hr as [] w1 G2. mstep Hr as [] w1 G3. mstep Hr as [] w1 G4. bprop. cbn [fst] in *. subst sk fk ck.
  rewrite Ec in Hc. cbn [fst] in Hc.
  assert (Sized a (close_accounts cl se fv cu)).
  { unfold close_accounts, refund. pose proof (close_sized se) as H1'. pose proof (close_sized fv) as H2'.
    pose proof (close_sized cu) as H3'. specialize (H1' (not_eq_sym Hs)). specialize (H2' (not_eq_sym Hf)).
    specialize (H3' (not_eq_sym Hc)). apply _. }
  revert Hr. apply sized_data.
Qed.

#[global] Instance decoded_chunk_sized accounts payload :
  Sized a (args ← deserialize_args borsh payload; process_write_settlement_chunk cx accounts args) | 0.
Proof.
  intros w u w' Hr. apply bind_Ok in Hr as (args & w1 & G & Hr). apply deserialize_args_Ok in G as [Hargs ->]; [|apply _].
  by apply write_chunk_sized in Hr.
Qed.

(** Every instruction keeps the sizes of the other accounts that have data. *)
Lemma process_instruction_sized accounts data :
  a ∉ session_accounts (program_id cx) → Sized a (process_instruction features continuity_v2 cx accounts data).
Proof.
  intros Ha. pose proof (λ l, close_session_sized l Ha) as Hc.
  unfold process_instruction. destruct (split_instruction data) as [[z payload]|]; [|apply _].
  destruct z as [|p|p]; [apply _| |apply _]. do 6 (try (destruct p as [p|p|])); apply _.
Qed.
End sized_handlers.

(** ** Bindings *)

Section bindings.
Context `{HostLaws, Groth16} (features : Features) (continuity_v2 : bool).

(** Portal instructions from their bytes, one after the other; in between,
    anything that leaves the account [a], which is the Portal's, its size. *)
Inductive portal_runs (portal a : Address) : World → list (Ctx * list Address * list byte) → World → Prop :=
| portal_runs_nil w : portal_runs portal a w [] w
| portal_runs_cons w cx accounts bytes w1 l w2 :
    program_id cx = portal → process_instruction features continuity_v2 cx accounts bytes w = Ok (tt, w1) →
    portal_runs portal a w1 l w2 → portal_runs portal a w ((cx, accounts, bytes) :: l) w2
| portal_runs_other w w1 l w2 :
    length (data (acct w1 a)) = length (data (acct w a)) → portal_runs portal a w1 l w2 → portal_runs portal a w l w2.

Lemma portal_runs_sized portal a w l w' :
  a ∉ session_accounts portal → portal_runs portal a w l w' → data (acct w a) ≠ [] →
  length (data (acct w' a)) = length (data (acct w a)).
Proof.
  intros Ha. induction 1 as [w|w cx accounts bytes w1 l w2 HP Hx _ IH|w w1 l w2 Hl _ IH]; intros Hd; [done|..].
  - rewrite <- HP in Ha. pose proof (process_instruction_sized features continuity_v2 cx a accounts bytes Ha _ _ _ Hx Hd) as Hl.
    rewrite <- Hl. apply IH. intros E. rewrite E in Hl. by destruct (data (acct w a)).
  - rewrite <- Hl. apply IH. intros E. rewrite E in Hl. by destruct (data (acct w a)).
Qed.

(** A V2 proposal creates its binding account. *)
Lemma proposal_binds cx proposer session checkpoint cursor sys binding prefix args w u w' :
  process_propose_checkpoint_v2 cx [proposer; session; checkpoint; cursor; sys; binding; prefix] args w = Ok (u, w') →
  binding = binding_address cx checkpoint ∧ data (acct w binding) = [] ∧ data (acct w' binding) ≠ [].
Proof.
  unfold process_propose_checkpoint_v2. intros Hr. apply bind_Ok in Hr as (b & w1 & Hp & Hr).
  assert (Hb : binding = binding_address cx checkpoint ∧ data (acct w binding) = [] ∧ data (acct w1 binding) ≠ []).
  { unfold prepare_binding in Hp.
    do 5 (apply bind_Ok in Hp as (? & w2 & G & Hp); pose proof (read_only _ _ _ G); subst w2; clear G).
    mstep Hp as i w2 G1. mstep Hp as [] w2 G2. unfold binding_address.
    destruct (find_checkpoint_binding_v2_pda _ _) as [k bump]. mstep Hp as [] w2 G3. cbv zeta in Hp. bprop.
    mstep Hp as rent w2 G4. apply bind_Ok in Hp as ([] & w2 & G5 & Hp). apply ret_Ok in Hp as [_ ->].
    apply initialize_pda_account_Ok in G5 as (Hw & He & _). split_and!; [done|done|]. rewrite (proj1 Hw), acct_put_eq.
    cbn [data]. intros E%(f_equal length). revert E. rewrite length_zeros. unfold account_size. cbn. discriminate. }
  destruct Hb as (-> & He & Hd). split_and!; [done..|].
  match type of Hr with ?m w1 = _ => assert (Hs : Sized (binding_address cx checkpoint) m) by apply _ end.
  pose proof (Hs _ _ _ Hr Hd) as Hl. intros E. rewrite E in Hl. by destruct (data (acct w1 _)).
Qed.
End bindings.

(** ** Properties *)

Module SizesExample.
Import SessionExample.
Import ContinuityExample.
Abbreviation propose := (process_propose_checkpoint_v2 cx1 [validator; session; checkpoint; cursor; system_id; binding; record 1] args).
Definition proposed : World := run propose w3.
Definition cancel_bytes : list byte := PortalInstruction.serialize (PortalInstruction.CancelCheckpoint (CancelCheckpoint.mk 40)).
Definition cx_cancel : Ctx := cx_of portal 135 [validator; session; checkpoint; cursor] [validator].
Abbreviation cancel := (process_instruction PortalExample.features true cx_cancel [validator; session; checkpoint; cursor] cancel_bytes).
Definition cancelled : World := run cancel proposed.

Lemma proposed_Ok : ∃ u, propose w3 = Ok (u, proposed).
Proof. destruct (run_Ok propose w3) as [u Hr]; [vm_compute; reflexivity|]. exists u. exact Hr. Qed.
Lemma cancelled_run :
  portal_runs PortalExample.features true portal binding proposed
    [(cx_cancel, [validator; session; checkpoint; cursor], cancel_bytes)] cancelled.
Proof.
  destruct (run_Ok cancel proposed) as [[] Hr]; [vm_compute; reflexivity|].
  eapply portal_runs_cons; [reflexivity|exact Hr|]. apply portal_runs_nil.
Qed.
End SizesExample.

(** C33: a V2 proposal that succeeds creates the binding account of its
    checkpoint, and no Portal instruction ever removes it: after any sequence of
    instructions of the Portal, whatever they do to the checkpoint (cancel it,
    challenge it, find it invalid, settle it) and to the session, every other V2
    proposal for that checkpoint address fails, whoever makes it and with
    whatever session, accounts and arguments.  A checkpoint that was cancelled or
    found invalid is thus not replaced under V2. *)
Theorem v2_replacement_refused `{HostLaws, Groth16} features continuity_v2 cx proposer session checkpoint cursor sys
    binding prefix args w u w1 l w2 :
  process_propose_checkpoint_v2 cx [proposer; session; checkpoint; cursor; sys; binding; prefix] args w = Ok (u, w1) →
  binding ∉ session_accounts (program_id cx) →
  portal_runs features continuity_v2 (program_id cx) binding w1 l w2 →
  data (acct w binding) = [] ∧ data (acct w1 binding) ≠ [] ∧
  length (data (acct w2 binding)) = length (data (acct w1 binding)) ∧
  ∀ cx' proposer' session' cursor' sys' binding' prefix' args', program_id cx' = program_id cx →
    ∃ e, process_propose_checkpoint_v2 cx' [proposer'; session'; checkpoint; cursor'; sys'; binding'; prefix'] args' w2 = Err e.
Proof.
  intros Hr Ha Hl. apply proposal_binds in Hr as (Hb & He & Hd).
  pose proof (portal_runs_sized _ _ _ _ _ _ _ Ha Hl Hd) as Hlen. split_and!; [done..|].
  intros cx' proposer' session' cursor' sys' binding' prefix' args' HP. apply binding_blocks_proposal.
  unfold binding_address in *. rewrite HP, <- Hb. intros E. rewrite E in Hlen. by destruct (data (acct w1 binding)).
Qed.

(** The checkpoint is cancelled, and the same proposal is made again. *)
Lemma v2_replacement_refused_witness :
  ∃ e, SizesExample.propose SizesExample.cancelled = Err e.
Proof.
  destruct SizesExample.proposed_Ok as [u Hr].
  destruct (λ H1, v2_replacement_refused PortalExample.features true _ _ _ _ _ _ _ _ _ _ _ _ _ _ Hr H1 SizesExample.cancelled_run)
    as (_ & _ & _ & Hn).
  - apply (bool_decide_unpack _). vm_compute. reflexivity.
  - exact (Hn ContinuityExample.cx1 SessionExample.validator SessionExample.session SessionExample.cursor system_id
      ContinuityExample.binding (ContinuityExample.record 1) ContinuityExample.args eq_refl).
Defined.
