(* ===== verification/ToySpl.v ===== *)
(** * A concrete Token program

    An instance of [Spl] that satisfies [SplLaws], on which the bridge's handlers
    are evaluated: token accounts with the mint, the owner and the amount where
    the SPL layout has them and no delegates.  Nothing is proved about the bridge
    here. *)

From Stdlib Require Import ZArith Lia.
From Stdlib Require Import Strings.Byte.
From stdpp Require Import base gmap list numbers.
From S2P Require Import Prelude Borsh Events Runtime Toy Bridge.

Definition toy_unpack (d : list byte) : option SplAccount :=
  if bool_decide (length d = 165%nat)
  then Some (mkSplAccount (take 32 d) (take 32 (drop 32 d)) (le_val (take 8 (drop 64 d))) None) else None.

Definition toy_pack (a : SplAccount) (d : list byte) : list byte :=
  take 64 d ++ le_bytes 8 (spl_amount a) ++ drop 72 d.

Definition with_spl_amount (n : Z) (a : SplAccount) : SplAccount :=
  mkSplAccount (spl_mint a) (spl_owner a) n (spl_delegate a).

(** A fresh token account. *)
Definition toy_token (mint owner : Address) (n : Z) : list byte := mint ++ owner ++ le_bytes 8 n ++ zeros 93.

Definition toy_transfer (c : Ctx) (source mint destination authority : Address) (n d : Z) : prog unit :=
  x ← get_acct source;
  y ← get_acct destination;
  a ← ok_or (toy_unpack (data x)) InvalidAccountData;
  b ← ok_or (toy_unpack (data y)) InvalidAccountData;
  err_if ((owner x != token_program_id) || (owner y != token_program_id) || (spl_mint a != mint) || (spl_mint b != mint)
          || (authority != spl_owner a) || negb (is_signer c authority)) InvalidAccountData ;;
  err_if ((spl_amount a <? n) || (n <? 0)) InsufficientFunds ;;
  if bool_decide (source = destination) then mret tt
  else
    m ← ok_or (u64_checked_add (spl_amount b) n) ArithmeticOverflow;
    set_data source (toy_pack (with_spl_amount (spl_amount a - n) a) (data x)) ;;
    set_data destination (toy_pack (with_spl_amount m b) (data y)).

#[global] Instance toy_spl : Spl := {|
  spl_unpack_account := toy_unpack;
  spl_unpack_mint d := if bool_decide (length d = 82%nat) then Some (mkSplMint true 6) else None;
  transfer_checked := toy_transfer
|}.

Lemma toy_unpack_Some d a :
  toy_unpack d = Some a →
  length d = 165%nat ∧ spl_mint a = take 32 d ∧ spl_owner a = take 32 (drop 32 d) ∧
  spl_amount a = le_val (take 8 (drop 64 d)) ∧ spl_delegate a = None.
Proof. unfold toy_unpack. destruct (bool_decide _) eqn:E; [|done]. intros [= <-]. by bprop. Qed.

Lemma toy_unpack_pack d a n :
  toy_unpack d = Some a → is_u64 n → toy_unpack (toy_pack (with_spl_amount n a) d) = Some (with_spl_amount n a).
Proof.
  intros (Hl & Hm & Ho & Hn & Hd)%toy_unpack_Some Hr. unfold toy_unpack, toy_pack. cbn [spl_amount with_spl_amount].
  rewrite bool_decide_eq_true_2 by (rewrite !length_app, length_take, length_drop, length_le_bytes; lia).
  f_equal. unfold with_spl_amount. destruct a as [m o k del]. cbn [spl_mint spl_owner spl_amount spl_delegate] in *. subst. f_equal.
  - by rewrite take_app_le, take_take by (rewrite length_take; lia).
  - rewrite drop_app_le, take_app_le by (rewrite ?length_drop, length_take; lia).
    rewrite <- (take_drop_commute _ 32 32), take_take. done.
  - rewrite drop_app_length' by (rewrite length_take; lia). rewrite take_app_length' by (by rewrite length_le_bytes).
    apply le_val_bytes. unfold in_width, umax in Hr. change (256 ^ Z.of_nat 8) with (2 ^ 64). lia.
Qed.

#[global] Instance toy_spl_laws : SplLaws.
Proof.
  split.
  - intros d a Ha. by apply toy_unpack_Some in Ha as [? _].
  - intros d a (_ & _ & _ & -> & _)%toy_unpack_Some. pose proof (le_val_range (take 8 (drop 64 d))) as Hr.
    assert (256 ^ Z.of_nat (length (take 8 (drop 64 d))) ≤ 256 ^ 8) by (apply Z.pow_le_mono_r; rewrite ?length_take; lia).
    change (256 ^ 8) with (2 ^ 64) in *. unfold in_width, umax. lia.
  - intros c source mint dest auth n d w u w' Hr. cbn [transfer_checked toy_spl] in Hr. unfold toy_transfer in Hr.
    mstep Hr as x w1 G1. mstep Hr as y w1 G2. mstep Hr as a w1 G3. mstep Hr as b w1 G4. mstep Hr as [] w1 G5.
    mstep Hr as [] w1 G6. bprop. cbn [spl_unpack_account toy_spl].
    destruct (toy_unpack_Some _ _ G3) as (_ & _ & _ & Ha & Hda), (toy_unpack_Some _ _ G4) as (_ & _ & _ & Hb & Hdb).
    destruct (bool_decide (source = dest)) eqn:E; bprop.
    + apply ret_Ok in Hr as [_ ->]. subst dest. assert (b = a) as -> by congruence.
      exists a, a, a, a. rewrite decide_True by done. split_and!; try done. by left.
    + mstep Hr as m w1 G7. mstep Hr as [] w1 G8. apply update_Ok in Hr. bprop.
      assert (Hra : is_u64 (spl_amount a - n)).
      { split; [lia|]. rewrite Ha in *. pose proof (le_val_range (take 8 (drop 64 (data (acct w source))))) as Hr2.
        assert (256 ^ Z.of_nat (length (take 8 (drop 64 (data (acct w source))))) ≤ 256 ^ 8) by (apply Z.pow_le_mono_r; rewrite ?length_take; lia).
        change (256 ^ 8) with (2 ^ 64) in *. unfold umax. lia. }
      assert (Hrb : is_u64 (spl_amount b + n)).
      { split; [|done]. rewrite Hb. pose proof (le_val_range (take 8 (drop 64 (data (acct w dest))))). lia. }
      exists a, b, (with_spl_amount (spl_amount a - n) a), (with_spl_amount (spl_amount b + n) b).
      rewrite decide_False by done.
      assert (Es : acct w' source = with_data (toy_pack (with_spl_amount (spl_amount a - n) a) (data (acct w source))) (acct w source)).
      { by rewrite Hr, acct_put_ne, G8, acct_put_eq by done. }
      assert (Ed : acct w' dest = with_data (toy_pack (with_spl_amount (spl_amount b + n) b) (data (acct w dest))) (acct w dest)).
      { by rewrite Hr, acct_put_eq, G8, acct_put_ne by done. }
      rewrite Es, Ed. cbn [owner data with_data]. rewrite !toy_unpack_pack by done.
      split_and!; try done; [by left|]. intros z ??. by rewrite Hr, acct_put_ne, G8, acct_put_ne by done.
Qed.
