(* ===== verification/BridgeSpec.v ===== *)
(** * What the token bridge's steps do

    Specifications of the steps the bridge's handlers are made of: creating an
    account, reading and writing state, moving data, and calling the Token
    program and the Portal. *)

From Stdlib Require Import ZArith Lia.
From Stdlib Require Import Strings.Byte.
From stdpp Require Import base gmap list numbers.
From S2P Require Import Prelude Borsh Events Runtime State Commitments Frames Toy Pda Instruction SessionOps Delegation Ingress TokenWithdrawal BridgeState Bridge.
Import TokenBridge.

(** ** Creating accounts *)

Section create.
Context `{HostLaws, Spl, Programs} (cx : Ctx).

Lemma CreateAccount_Ok from to n space o seeds w u w' :
  CreateAccount cx from to n space o seeds w = Ok (u, w') →
  let w1 := put to (with_owner o (with_data (zeros space) (acct w to))) w in
  w' ≡ moved from to n w1 ∧ data (acct w to) = [] ∧ owner (acct w to) = system_id ∧ lamports (acct w to) ≤ 0 ∧
  data (acct w1 from) = [].
Proof.
  unfold CreateAccount, SystemProgram.create_account. intros Hr. cbv zeta.
  apply bind_Ok in Hr as (extra & w0 & G & Hr). pose proof (read_only _ _ _ G). subst w0.
  apply bind_Ok in Hr as ([] & w0 & G0 & Hr). pose proof (read_only _ _ _ G0). subst w0.
  mstep Hr as x w1 G1. mstep Hr as [] w1 G2. bprop.
  apply bind_Ok in Hr as ([] & w1 & G3 & Hr). apply bind_Ok in Hr as ([] & w2 & G4 & Hr).
  apply allocate_Ok in G3 as (E1 & Hd & Ho). apply assign_Ok in G4 as E2. apply transfer_Ok in Hr as (E3 & _ & Hf & _).
  assert (E : w2 ≡ put to (with_owner o (with_data (zeros space) (acct w to))) w).
  { rewrite E2, E1, acct_put_eq. split; [|done]. intros b. rewrite !acct_put. by case_decide. }
  rewrite E3, E. split_and!; try done. by rewrite <- E.
Qed.

(** Only accounts without data change. *)
Lemma create_pda_spares payer pda space o seeds sys w u w' c :
  create_pda cx payer pda space o seeds sys w = Ok (u, w') → data (acct w c) ≠ [] → acct w' c = acct w c.
Proof.
  unfold create_pda, require_system_program. intros Hr Hc.
  mstep Hr as [] w1 G1. mstep Hr as n w1 G2. mstep Hr as x w1 G3. destruct (lamports (acct w pda) =? 0).
  - apply CreateAccount_Ok in Hr as (E & Hd & _ & _ & Hf). rewrite E.
    assert (pda ≠ c) by congruence.
    assert (payer ≠ c). { intros ->. rewrite acct_put_ne in Hf by done. done. }
    unfold moved. by rewrite !acct_put_ne.
  - mstep Hr as [] w1 G4. bprop. unfold is_data_empty in *. bprop. assert (pda ≠ c) by congruence.
    apply bind_Ok in Hr as ([] & w1 & G5 & Hr). apply bind_Ok in Hr as ([] & w2 & G6 & Hr).
    apply Allocate_Ok in G6 as (E1 & _). apply Assign_Ok in Hr. rewrite Hr, acct_put_ne, E1, acct_put_ne by done.
    destruct (lamports (acct w pda) <? n); [|by apply ret_Ok in G5 as [_ ->]].
    mstep G5 as k w3 G7. apply Transfer_Ok in G5 as (E2 & _ & Hf & _). assert (payer ≠ c) by congruence.
    rewrite E2. unfold moved. by rewrite !acct_put_ne.
Qed.

Lemma create_pda_empty payer pda space o seeds sys w u w' :
  create_pda cx payer pda space o seeds sys w = Ok (u, w') → data (acct w pda) = [].
Proof.
  unfold create_pda, require_system_program. intros Hr.
  mstep Hr as [] w1 G1. mstep Hr as n w1 G2. mstep Hr as x w1 G3. destruct (lamports (acct w pda) =? 0).
  - by apply CreateAccount_Ok in Hr as (_ & ? & _).
  - mstep Hr as [] w1 G4. unfold is_data_empty in *. by bprop.
Qed.

(** The created account; the payer may have paid for it. *)
Lemma create_pda_Ok payer pda space o seeds sys w u w' :
  payer ≠ pda → create_pda cx payer pda space o seeds sys w = Ok (u, w') →
  (∃ n, acct w' pda = mkAccount n (zeros space) o (executable (acct w pda))) ∧
  data (acct w pda) = [] ∧ owner (acct w pda) = system_id ∧ sys = system_id ∧
  (∃ n, acct w' payer = with_lamports n (acct w payer)) ∧
  (∀ c, c ≠ payer → c ≠ pda → acct w' c = acct w c).
Proof.
  unfold create_pda, require_system_program. intros Hne Hr.
  mstep Hr as [] w1 G1. mstep Hr as n w1 G2. mstep Hr as x w1 G3. bprop. destruct (lamports (acct w pda) =? 0).
  - apply CreateAccount_Ok in Hr as (E & Hd & Ho & _ & Hf). split_and!; try done.
    + eexists. rewrite E, acct_moved, decide_False, decide_True, acct_put_eq by congruence. done.
    + eexists. rewrite E, acct_moved, decide_True, acct_put_ne by congruence. done.
    + intros c ??. by rewrite E, acct_moved, !decide_False, acct_put_ne by congruence.
  - mstep Hr as [] w1 G4. bprop. unfold is_data_empty, owned_by in *. bprop.
    apply bind_Ok in Hr as ([] & w1 & G5 & Hr). apply bind_Ok in Hr as ([] & w2 & G6 & Hr).
    apply Allocate_Ok in G6 as (E1 & _). apply Assign_Ok in Hr as E2.
    assert ((∃ k, w1 ≡ moved payer pda k w) ∨ w1 ≡ w) as [[k Hk]|Hk].
    { destruct (lamports (acct w pda) <? n); [left|right; by apply ret_Ok in G5 as [_ ->]].
      mstep G5 as k w3 G7. apply Transfer_Ok in G5 as (? & _). eauto. }
    + split_and!; try done.
      * eexists. rewrite E2, acct_put_eq, E1, acct_put_eq, Hk, acct_moved, decide_False, decide_True by congruence. done.
      * eexists. rewrite E2, acct_put_ne, E1, acct_put_ne, Hk, acct_moved, decide_True by congruence. done.
      * intros c ??. by rewrite E2, acct_put_ne, E1, acct_put_ne, Hk, acct_moved, !decide_False by congruence.
    + split_and!; try done.
      * eexists. rewrite E2, acct_put_eq, E1, acct_put_eq, Hk. done.
      * eexists. rewrite E2, acct_put_ne, E1, acct_put_ne, Hk by congruence. symmetry. apply with_lamports_id.
      * intros c ??. by rewrite E2, acct_put_ne, E1, acct_put_ne, Hk by congruence.
Qed.
End create.

(** ** Reading and writing state *)

Section state.
Context `{HostLaws, Spl, Programs} (v2 : bool) (cx : Ctx).

#[global] Instance require_signer_read_only a : ReadOnly (require_signer cx a).
Proof. unfold require_signer. apply _. Qed.
#[global] Instance require_self_program_read_only a : ReadOnly (require_self_program cx a).
Proof. unfold require_self_program. apply _. Qed.
#[global] Instance require_system_program_read_only a : ReadOnly (require_system_program a).
Proof. unfold require_system_program. apply _. Qed.
#[global] Instance registration_v2_read_only b p a d : ReadOnly (registration_v2 b p a d).
Proof. unfold registration_v2. apply bind_read_only; [apply _|]. intros f. destruct (find_session_bridge_v2_pda _ _ _). apply _. Qed.
#[global] Instance session_v2_read_only r p a d : ReadOnly (session_v2 r p a d).
Proof. unfold session_v2. apply bind_read_only; [apply _|]. intros f. destruct (find_session_pda _). apply _. Qed.
#[global] Instance load_session_bridge_read_only b p : ReadOnly (load_session_bridge v2 cx b p).
Proof. unfold load_session_bridge. apply _. Qed.
#[global] Instance load_vault_read_only a b : ReadOnly (load_vault v2 cx a b).
Proof. unfold load_vault. destruct (find_token_vault_pda _ _). apply _. Qed.
#[global] Instance require_er_token_account_pda_read_only a s : ReadOnly (require_er_token_account_pda cx a s).
Proof. unfold require_er_token_account_pda. destruct (find_er_token_account_pda _ _ _). apply _. Qed.
#[global] Instance load_er_token_account_data_read_only a : ReadOnly (load_er_token_account_data a).
Proof. unfold load_er_token_account_data. apply _. Qed.
#[global] Instance load_er_token_account_read_only a : ReadOnly (load_er_token_account cx a).
Proof. unfold load_er_token_account. apply _. Qed.
#[global] Instance require_bridge_delegation_read_only a r p : ReadOnly (require_bridge_delegation cx a r p).
Proof. unfold require_bridge_delegation. destruct (find_program_address _ _). apply _. Qed.
#[global] Instance require_er_account_read_only s b o m : ReadOnly (require_er_account s b o m).
Proof. unfold require_er_account. apply _. Qed.
#[global] Instance require_bridge_token_accounts_read_only b v a m t : ReadOnly (require_bridge_token_accounts b v a m t).
Proof. unfold require_bridge_token_accounts. apply _. Qed.
#[global] Instance unpack_token_account_read_only a : ReadOnly (unpack_token_account a).
Proof. unfold unpack_token_account. apply _. Qed.
#[global] Instance validate_context_read_only p s r v : ReadOnly (validate_context cx p s r v).
Proof. unfold validate_context. apply _. Qed.
#[global] Instance deposit_inputs_read_only l : ReadOnly (deposit_inputs v2 l).
Proof. unfold deposit_inputs. apply _. Qed.
#[global] Instance request_account_read_only i l : ReadOnly (request_account i l).
Proof. unfold request_account. apply _. Qed.
#[global] Instance require_not_frozen_read_only a p r : ReadOnly (require_not_frozen a p r).
Proof. unfold require_not_frozen. apply _. Qed.
#[global] Instance require_mint_read_only b m t n d : ReadOnly (require_mint b m t n d).
Proof. unfold require_mint. apply _. Qed.
#[global] Instance load_settlement_read_only va s c b p er k : ReadOnly (load_settlement v2 cx va s c b p er k).
Proof. unfold load_settlement. apply _. Qed.
#[global] Instance receipt_balance_read_only b a r : ReadOnly (receipt_balance cx b a r).
Proof. unfold receipt_balance. destruct (find_program_address _ _). apply _. Qed.
#[global] Instance apply_session_read_only b p s g : ReadOnly (apply_session v2 cx b p s g).
Proof. unfold apply_session. apply _. Qed.
#[global] Instance load_progress_read_only c b n : ReadOnly (load_progress cx c b n).
Proof. unfold load_progress. apply _. Qed.
#[global] Instance require_ingress_read_only l b p a r c s g k m n : ReadOnly (require_ingress cx l b p a r c s g k m n).
Proof.
  unfold require_ingress. destruct l; [apply _|]. apply bind_read_only; [apply _|]. intros x.
  apply bind_read_only; [apply _|]. intros _. apply bind_read_only; [apply _|]. intros i.
  destruct (find_ingress_record_v2_pda _ _ _). apply _.
Qed.
#[global] Instance require_open_session_read_only b p s g : ReadOnly (require_open_session cx b p s g).
Proof. unfold require_open_session. apply _. Qed.

(** [store] succeeds exactly on an account of the state's size. *)
Lemma store_full_Ok {A} `{Borsh A} a (x : A) w u w' :
  TokenBridge.store a x w = Ok (u, w') ↔
  length (data (acct w a)) = object_length x ∧ w' = put a (with_data (enc borsh x) (acct w a)) w.
Proof.
  unfold TokenBridge.store, get_acct, set_data, update. split.
  - intros Hr. minv. by bprop.
  - intros [Hl ->]. unfold mbind, M_bind, gets, err_if, modify. rewrite bool_decide_eq_true_2 by done. by destruct u.
Qed.

Lemma load_vault_Ok vault sb w s w' :
  load_vault v2 cx vault sb w = Ok (s, w') →
  owner (acct w vault) = program_id cx ∧ try_from_slice (data (acct w vault)) = Some s ∧
  TokenVault.is_valid s = true ∧ TokenVault.session_bridge s = sb ∧
  (v2 = true → find_token_vault_pda (program_id cx) sb = (vault, TokenVault.bump s)).
Proof.
  unfold load_vault, owned_by. intros Hr. destruct (find_token_vault_pda _ _) as [k b].
  mstep Hr as x w1 G1. mstep Hr as [] w1 G2. mstep Hr as s' w1 G3. apply load_Ok in G3 as [G3 _].
  mstep Hr as [] w1 G4. mstep Hr as [] w1 G5. apply ret_Ok in Hr as [-> _]. bprop. split_and!; try done.
  intros ->. apply err_if_Ok in G5 as [G5 _]. bprop. congruence.
Qed.

Lemma load_er_token_account_data_Ok a w s w' :
  load_er_token_account_data a w = Ok (s, w') →
  try_from_slice (data (acct w a)) = Some s ∧ ErTokenAccount.is_valid s = true.
Proof.
  unfold load_er_token_account_data. intros Hr. mstep Hr as s' w1 G3. apply load_Ok in G3 as [G3 _].
  mstep Hr as [] w1 G4. apply ret_Ok in Hr as [-> _]. by bprop.
Qed.

Lemma require_er_pda_Ok a s w u w' :
  require_er_token_account_pda cx a s w = Ok (u, w') →
  find_er_token_account_pda (program_id cx) (ErTokenAccount.session_bridge s) (ErTokenAccount.owner s)
    = (a, ErTokenAccount.bump s).
Proof.
  unfold require_er_token_account_pda. destruct (find_er_token_account_pda _ _ _). intros Hr.
  apply err_if_Ok in Hr as [Hr _]. bprop. congruence.
Qed.

Lemma load_er_token_account_Ok a w s w' :
  load_er_token_account cx a w = Ok (s, w') →
  owner (acct w a) = program_id cx ∧ try_from_slice (data (acct w a)) = Some s ∧ ErTokenAccount.is_valid s = true ∧
  find_er_token_account_pda (program_id cx) (ErTokenAccount.session_bridge s) (ErTokenAccount.owner s)
    = (a, ErTokenAccount.bump s).
Proof.
  unfold load_er_token_account, owned_by. intros Hr. mstep Hr as x w1 G1. mstep Hr as [] w1 G2. mstep Hr as s' w1 G3.
  apply load_Ok in G3 as [G3 _]. mstep Hr as [] w1 G4. mstep Hr as [] w1 G5. apply ret_Ok in Hr as [-> _].
  apply require_er_pda_Ok in G5. bprop. by split_and!.
Qed.

Lemma load_session_bridge_Ok sb portal w b w' :
  load_session_bridge v2 cx sb portal w = Ok (b, w') → owner (acct w sb) = portal.
Proof. unfold load_session_bridge, owned_by. intros Hr. mstep Hr as x w1 G1. mstep Hr as [] w1 G2. by bprop. Qed.

Lemma load_settlement_owner va s c sb portal er k w b w' :
  load_settlement v2 cx va s c sb portal er k w = Ok (b, w') →
  owner (acct w sb) = portal ∧ owner (acct w s) = portal.
Proof.
  unfold load_settlement. intros Hr. mstep Hr as sx w1 G1. mstep Hr as kx w1 G2. mstep Hr as bx w1 G3.
  mstep Hr as [] w1 G4. bprop. split; congruence.
Qed.

(** ** Calling other programs *)

Lemma for_each_Ok {A} (f : A → prog unit) l w u w' :
  (∀ x, ReadOnly (f x)) → for_each f l w = Ok (u, w') → ∀ x, x ∈ l → f x w = Ok (tt, w).
Proof.
  intros Hf. induction l as [|y l IH]; simpl; intros Hr x Hx; [by apply elem_of_nil in Hx|].
  apply bind_Ok in Hr as ([] & w1 & Hy & Hr). pose proof (read_only _ _ _ Hy). subst w1.
  apply elem_of_cons in Hx as [->|Hx]; eauto.
Qed.

(** A signer of the callee signs for the caller or is derived from the seeds. *)
Lemma verify_signers extra callee metas w u w' a wr :
  verify_instruction_accounts cx extra callee metas w = Ok (u, w') → (a, true, wr) ∈ metas →
  is_signer cx a = true ∨ a ∈ extra.
Proof.
  unfold verify_instruction_accounts. intros Hr Ha. apply bind_Ok in Hr as ([] & w1 & Hf & _).
  apply for_each_Ok with (x := (a, true, wr)) in Hf; [|intros [[? ?] ?]; unfold verify_instruction_account; apply _|done].
  unfold verify_instruction_account in Hf. mstep Hf as [] w2 G1. mstep Hf as [] w2 G2. apply err_if_Ok in Hf as [Hf _].
  bprop. destruct Hf as [Hf|Hf]; [done|]. bprop. unfold SystemProgram.signed, is_signer in *. bprop.
  apply elem_of_union in Hf as [?|?]; [left; by apply bool_decide_eq_true|by right].
Qed.

Lemma callee_signer p metas a :
  is_signer (callee_ctx cx p metas) a = true ↔ ∃ wr, (a, true, wr) ∈ metas.
Proof.
  unfold is_signer, callee_ctx. cbn [signers]. rewrite bool_decide_eq_true, elem_of_list_to_set, list_elem_of_fmap. split.
  - intros ([[b s] wr] & -> & Hm). apply list_elem_of_filter in Hm as [Hs Hm]. simpl in *. subst s. eauto.
  - intros (wr & Hm). exists (a, true, wr). split; [done|]. by apply list_elem_of_filter.
Qed.

Lemma invoke_signed_Ok p metas d seeds w u w' :
  invoke_signed cx p metas d seeds w = Ok (u, w') →
  run_program p (callee_ctx cx p metas) ((λ m, m.1.1) <$> metas) d w = Ok (u, w') ∧
  ∃ k, create_program_address seeds (program_id cx) = Some k ∧
    ∀ a wr, (a, true, wr) ∈ metas → is_signer cx a = true ∨ a = k.
Proof.
  unfold invoke_signed, seed_signers. intros Hr. apply bind_Ok in Hr as (extra & w1 & G1 & Hr).
  mstep G1 as k w2 G2. apply ret_Ok in G1 as [<- ->].
  apply bind_Ok in Hr as ([] & w1 & G3 & Hr). pose proof (read_only _ _ _ G3). subst w1. split; [done|].
  exists k. split; [done|]. intros a wr Ha. destruct (verify_signers _ _ _ _ _ _ _ _ G3 Ha); [by left|right; set_solver].
Qed.

Lemma TransferChecked_Ok signer source mint dest auth n d w u w' :
  TransferChecked cx signer source mint dest auth n d w = Ok (u, w') →
  transfer_checked (callee_ctx cx token_program_id
    [(source, false, true); (mint, false, false); (dest, false, true); (auth, true, false)])
    source mint dest auth n d w = Ok (u, w') ∧
  (is_signer cx auth = true ∨ ∃ seeds, signer = Some seeds ∧ create_program_address seeds (program_id cx) = Some auth).
Proof.
  unfold TransferChecked, seed_signers. intros Hr. apply bind_Ok in Hr as (extra & w1 & G1 & Hr).
  assert (w1 = w ∧ (∀ a, a ∈ extra → ∃ seeds, signer = Some seeds ∧
    create_program_address seeds (program_id cx) = Some a)) as [-> Hx].
  { destruct signer as [seeds|]; [|apply ret_Ok in G1 as [<- ->]; split; [done|set_solver]].
    mstep G1 as k w2 G2. apply ret_Ok in G1 as [<- ->]. split; [done|]. intros a ->%elem_of_singleton. eauto. }
  apply bind_Ok in Hr as ([] & w1 & G3 & Hr). pose proof (read_only _ _ _ G3). subst w1. split; [done|].
  destruct (verify_signers _ _ _ _ _ _ auth false G3) as [?|Ha]; [set_solver|by left|right; by apply Hx].
Qed.
End state.

(** ** Buffers and baselines *)

(** An account of another size is not the one that was decoded. *)
Lemma size_ne {A} `{!Borsh A, !CodecOk (borsh (A:=A))} {n} `{!CodecSize (borsh (A:=A)) n} a c w (x : A) :
  try_from_slice (data (acct w a)) = Some x → length (data (acct w c)) ≠ n → a ≠ c.
Proof. intros [Hx Hd]%try_from_slice_Some Hn ->. apply Hn. rewrite Hd. by rewrite codec_size. Qed.

Section buffers.
Context `{HostLaws, Spl, Programs} (cx : Ctx).

Lemma create_buffer_Ok payer buffer er sys w u w' :
  TokenBridge.create_buffer cx payer buffer er sys w = Ok (u, w') →
  length (data (acct w' buffer)) = length (data (acct w' er)) ∧ owner (acct w' buffer) = program_id cx ∧
  ∀ c, data (acct w c) ≠ [] → acct w' c = acct w c.
Proof.
  unfold TokenBridge.create_buffer. intros Hr. destruct (TokenBridge.find_buffer_pda _ _) as [k b].
  mstep Hr as [] w1 G1. mstep Hr as y w1 G2. mstep Hr as z w1 G3. apply bind_Ok in Hr as ([] & w1 & G4 & Hr).
  mstep Hr as y w2 G5. mstep Hr as z w2 G6. apply err_if_Ok in Hr as [Hr ->]. unfold owned_by in *. bprop.
  split_and!; [done..|]. intros c Hc. destruct (_ == _); [by apply ret_Ok in G4 as [_ ->]|].
  by apply (create_pda_spares _ _ _ _ _ _ _ _ _ _ _ G4).
Qed.

Lemma create_buffer_keeps payer buffer er sys w u w' c :
  TokenBridge.create_buffer cx payer buffer er sys w = Ok (u, w') → payer ≠ buffer → c ≠ buffer →
  data (acct w' c) = data (acct w c) ∧ owner (acct w' c) = owner (acct w c).
Proof.
  unfold TokenBridge.create_buffer. intros Hr Hp Hc. destruct (TokenBridge.find_buffer_pda _ _) as [k b].
  mstep Hr as [] w1 G1. mstep Hr as y w1 G2. mstep Hr as z w1 G3. apply bind_Ok in Hr as ([] & w1 & G4 & Hr).
  mstep Hr as y w2 G5. mstep Hr as z w2 G6. apply err_if_Ok in Hr as [_ ->].
  destruct (owned_by _ _); [by apply ret_Ok in G4 as [_ ->]|].
  apply create_pda_Ok in G4 as (_ & _ & _ & _ & [n En] & F); [|done].
  destruct (decide (c = payer)) as [->|]; [by rewrite En|]. by rewrite F.
Qed.

Lemma create_buffer_size payer buffer er sys w u w' :
  TokenBridge.create_buffer cx payer buffer er sys w = Ok (u, w') →
  length (data (acct w' buffer)) = length (data (acct w' er)).
Proof. intros Hr. by apply create_buffer_Ok in Hr as [? _]. Qed.

Lemma copy_data_Ok from to w x w' :
  TokenBridge.copy_data from to w = Ok (x, w') →
  from ≠ to ∧ length (data (acct w from)) = length (data (acct w to)) ∧
  w' ≡ put to (with_data (data (acct w from)) (acct w to)) w.
Proof.
  unfold TokenBridge.copy_data. intros Hr. mstep Hr as [] w1 G1. mstep Hr as y w1 G2. mstep Hr as z w1 G3.
  mstep Hr as [] w1 G4. apply update_Ok in Hr. by bprop.
Qed.

(** Closing empties the account; the recipient only gains lamports. *)
Lemma close_buffer_Ok buffer recipient w x w' :
  TokenBridge.close_buffer buffer recipient w = Ok (x, w') →
  data (acct w' buffer) = [] ∧
  ∀ c, c ≠ buffer → data (acct w' c) = data (acct w c) ∧ owner (acct w' c) = owner (acct w c).
Proof.
  unfold TokenBridge.close_buffer, close, set_lamports. intros Hr. mstep Hr as b w1 G1. mstep Hr as r w1 G2. mstep Hr as n w1 G3.
  apply bind_Ok in Hr as ([] & w1 & G4 & Hr). apply bind_Ok in Hr as ([] & w2 & G5 & Hr).
  apply update_Ok in G4, G5, Hr. split; [by rewrite Hr, acct_put_eq, close_empty|]. intros c Hc.
  rewrite Hr, acct_put_ne, G5, acct_put_ne, G4 by done. rewrite acct_put. by case_decide; subst.
Qed.

Lemma initialize_origin_spares payer b acc r o sys w x w' c :
  TokenBridge.initialize_origin cx payer b acc r o sys w = Ok (x, w') →
  data (acct w c) ≠ [] → length (data (acct w c)) ≠ 10%nat → acct w' c = acct w c.
Proof.
  unfold TokenBridge.initialize_origin. intros Hr Hc Hn. mstep Hr as n w1 G1.
  destruct (find_program_address _ _) as [k bump] in Hr. mstep Hr as [] w1 G2. mstep Hr as y w1 G3.
  apply bind_Ok in Hr as ([] & w1 & G4 & Hr). apply store_full_Ok in Hr as [_ ->].
  destruct (owned_by _ _); cbn [negb] in G4.
  - mstep G4 as p w2 G5. apply load_Ok in G5 as [G5 _]. apply err_if_Ok in G4 as [_ ->].
    rewrite acct_put_ne; [done|]. by eapply (size_ne (n:=10)).
  - rewrite acct_put_ne; [by apply (create_pda_spares _ _ _ _ _ _ _ _ _ _ _ G4)|].
    intros ->. by apply create_pda_empty in G4.
Qed.
End buffers.
