(* ===== verification/Vault.v ===== *)
(** * The vault stays solvent

    The bridge, the Portal and any other programs are deployed together
    ([deployed]).  Whatever instructions the bridge executes, on whatever
    accounts, a vault never owes more than its token account holds
    ([BridgeProps] states this from the vault's creation). *)

From Stdlib Require Import ZArith Lia.
From Stdlib Require Import Strings.Byte.
From stdpp Require Import base gmap list numbers.
From S2P Require Import Prelude Borsh Events Runtime State Commitments Frames Toy Pda Instruction Verifier StepProof SessionOps Delegation Settlement Checkpoint Ingress TokenWithdrawal BridgeState Continuity Dispatch Bridge Portal BridgeSpec.

(** ** What the Portal leaves alone when the bridge calls it

    Accounts that do not sign and whose data has a size no handler expects. *)

Section portal_spares.
Context `{HostLaws} (cx : Ctx).

Lemma initialize_spares payer pda n space o seeds w u w' c :
  initialize_pda_account cx payer pda n space o seeds w = Ok (u, w') → data (acct w c) ≠ [] → acct w' c = acct w c.
Proof.
  unfold initialize_pda_account. intros Hr Hc. mstep Hr as x w1 G1. mstep Hr as [] w1 G2. unfold is_data_empty in *. bprop.
  assert (pda ≠ c) by congruence. apply bind_Ok in Hr as ([] & w1 & G3 & Hr). apply bind_Ok in Hr as ([] & w2 & G4 & Hr).
  apply Allocate_Ok in G4 as (E1 & _). apply Assign_Ok in Hr. rewrite Hr, acct_put_ne, E1, acct_put_ne by done.
  destruct (lamports (acct w pda) <? n); [|by apply ret_Ok in G3 as [_ ->]].
  mstep G3 as k w3 G7. apply Transfer_Ok in G3 as (E2 & _ & Hf & _). assert (payer ≠ c) by congruence.
  rewrite E2. unfold moved. by rewrite !acct_put_ne.
Qed.

Lemma store_spares {A} `{Borsh A} a (x : A) e w u w' c : store a x e w = Ok (u, w') → a ≠ c → acct w' c = acct w c.
Proof. intros (d & _ & ->)%store_Ok Hne. by rewrite acct_put_ne. Qed.

Lemma append_spares payer session ra payload w u w' c :
  append_ingress_v2 cx payer session ra payload w = Ok (u, w') →
  data (acct w c) ≠ [] → length (data (acct w c)) ≠ 378%nat → acct w' c = acct w c.
Proof.
  unfold append_ingress_v2. intros Hr Hc Hn. mstep Hr as f w1 G1. apply load_session_v2_Ok in G1 as (_ & _ & G1 & _).
  mstep Hr as [] w1 G2. mstep Hr as ctx w1 G3. mstep Hr as q w1 G4. destruct (find_ingress_record_v2_pda _ _ _) as [k b].
  mstep Hr as [] w1 G5. mstep Hr as r w1 G6. mstep Hr as n w1 G7.
  apply bind_Ok in Hr as ([] & w1 & G8 & Hr). apply bind_Ok in Hr as ([] & w2 & G9 & Hr).
  assert (ra ≠ c). { apply initialize_pda_account_Ok in G8 as (_ & Hd & _). congruence. }
  assert (session ≠ c) by (by eapply (size_ne (n:=378))).
  by rewrite (store_spares _ _ _ _ _ _ _ Hr), (store_spares _ _ _ _ _ _ _ G9), (initialize_spares _ _ _ _ _ _ _ _ _ _ G8).
Qed.

Lemma delegate_account_spares payer d o r b s w u w' c :
  process_delegate_account cx payer d o r b s w = Ok (u, w') →
  is_signer cx c = false → data (acct w c) ≠ [] → acct w' c = acct w c.
Proof.
  unfold process_delegate_account. intros Hr Hs Hc. destruct (find_delegation_record_pda _ _) as [k kb].
  mstep Hr as [] w1 G1. mstep Hr as [] w1 G2. mstep Hr as x w1 G3. mstep Hr as [] w1 G4. mstep Hr as [] w1 G5.
  mstep Hr as y w1 G6. mstep Hr as [] w1 G7. mstep Hr as z w1 G8. mstep Hr as [] w1 G9. mstep Hr as [] w1 G10.
  mstep Hr as n w1 G11. apply bind_Ok in Hr as ([] & w1 & G12 & Hr). apply bind_Ok in Hr as ([] & w2 & G13 & Hr).
  mstep Hr as [] w3 G14. mstep Hr as z w3 G15. mstep Hr as z w3 G16. mstep Hr as [] w3 G17. apply update_Ok in Hr.
  unfold is_data_empty in *. bprop. assert (d ≠ c) by congruence. assert (r ≠ c) by congruence.
  rewrite Hr, acct_put_ne by done. by rewrite (store_spares _ _ _ _ _ _ _ G13), (initialize_spares _ _ _ _ _ _ _ _ _ _ G12).
Qed.

Lemma delegate_spares payer sys session d o r b g w u w' c :
  process_delegate cx [payer; sys; session; d; o; r; b] g w = Ok (u, w') →
  is_signer cx c = false → data (acct w c) ≠ [] → acct w' c = acct w c.
Proof.
  unfold process_delegate. intros Hr Hs Hc. mstep Hr as [] w1 G1. mstep Hr as [] w1 G2. mstep Hr as s w1 G3.
  cbn [delegate_groups] in Hr. apply bind_Ok in Hr as ([] & w1 & G4 & Hr). apply ret_Ok in Hr as [_ ->].
  by apply (delegate_account_spares _ _ _ _ _ _ _ _ _ _ G4).
Qed.

Lemma delegate_v2_spares accounts g w u w' c :
  process_delegate_v2 cx accounts g w = Ok (u, w') →
  is_signer cx c = false → data (acct w c) ≠ [] → length (data (acct w c)) ≠ 378%nat → acct w' c = acct w c.
Proof.
  unfold process_delegate_v2. intros Hr Hs Hc Hn. repeat (case_match; try by apply fail_Ok in Hr).
  mstep Hr as f w1 G1. mstep Hr as x w1 G2. mstep Hr as y w1 G3. mstep Hr as [] w1 G4. mstep Hr as [] w1 G5.
  apply bind_Ok in Hr as ([] & w1 & G6 & Hr). mstep Hr as z w2 G7. mstep Hr as [] w2 G8.
  pose proof (delegate_account_spares _ _ _ _ _ _ _ _ _ _ G6 Hs Hc) as E.
  rewrite <- E in Hc, Hn |- *. by apply (append_spares _ _ _ _ _ _ _ _ Hr).
Qed.

Lemma request_spares accounts w u w' c :
  process_request_undelegation cx accounts w = Ok (u, w') → data (acct w c) ≠ [] → acct w' c = acct w c.
Proof.
  unfold process_request_undelegation. intros Hr Hc. repeat (case_match; try by apply fail_Ok in Hr).
  mstep Hr as [] w1 G1. mstep Hr as x w1 G2. mstep Hr as [] w1 G3. mstep Hr as s w1 G4. mstep Hr as [] w1 G5.
  mstep Hr as [] w1 G6. mstep Hr as y w1 G7. mstep Hr as [] w1 G8. mstep Hr as rx w1 G9. mstep Hr as [] w1 G10.
  mstep Hr as rec w1 G11. mstep Hr as [] w1 G12. mstep Hr as [] w1 G13. mstep Hr as qx w1 G14.
  mstep Hr as [] w1 G15. mstep Hr as n w1 G16. apply bind_Ok in Hr as ([] & w1 & G17 & Hr).
  unfold is_data_empty in *. bprop.
  rewrite (store_spares _ _ _ _ _ _ _ Hr) by congruence. by apply (initialize_spares _ _ _ _ _ _ _ _ _ _ G17).
Qed.

Lemma undelegate_spares accounts handoff w u w' c :
  process_undelegate_inner cx accounts handoff w = Ok (u, w') →
  is_signer cx c = false → length (data (acct w c)) ≠ 49%nat →
  (length (data (acct w c)) = 146%nat → owner (acct w c) ≠ program_id cx) → acct w' c = acct w c.
Proof.
  intros Hr Hs Hn Ho. pose proof Hr as Hr0. unfold process_undelegate_inner in Hr.
  repeat (case_match; try by apply fail_Ok in Hr).
  match type of Hr with context [undelegate_checks cx ?a ?d ?o ?r ?s ?q] =>
    assert (a ≠ c ∧ d ≠ c ∧ r ≠ c ∧ q ≠ c) as (? & ? & ? & ?) end.
  { mstep Hr as [] w1 G1. unfold undelegate_checks in G1.
    mstep G1 as [] w2 K1. mstep G1 as [] w2 K2. repeat case_match. mstep G1 as [] w2 K3. mstep G1 as x w2 K4.
    mstep G1 as [] w2 K5. mstep G1 as s w2 K6. mstep G1 as [] w2 K7. mstep G1 as [] w2 K8.
    mstep G1 as [] w2 K9. mstep G1 as rec w2 K10. apply load_Ok in K10 as [K10 _]. mstep G1 as [] w2 K11.
    mstep G1 as [] w2 K12. mstep G1 as y w2 K13. mstep G1 as [] w2 K14. mstep G1 as qx w2 K15.
    mstep G1 as [] w2 K16. mstep G1 as qs w2 K17. apply load_Ok in K17 as [K17 _]. unfold owned_by in *. bprop.
    split_and!; try congruence; [by eapply (size_ne (n:=49))|]. intros ->.
    apply try_from_slice_Some in K17 as [Hq Hd]. apply Ho; [|done]. rewrite Hd. by rewrite codec_size. }
  subst. match type of Hr0 with process_undelegate_inner cx ?l _ _ = _ =>
    assert (F : Frame (λ b, b ≠ c) (process_undelegate_inner cx l handoff)) end.
  { unfold process_undelegate_inner. apply _. }
  exact (F _ _ _ Hr0 c (λ X, X eq_refl)).
Qed.

Lemma record_spares `{Groth16} features portal_v2 accounts d w u w' c :
  process_instruction features portal_v2 cx accounts (byte_of_Z 37 :: d) w = Ok (u, w') →
  data (acct w c) ≠ [] → length (data (acct w c)) ≠ 378%nat → acct w' c = acct w c.
Proof.
  intros Hr Hc Hn. change (process_instruction features portal_v2 cx accounts (byte_of_Z 37 :: d) w) with
    ((if portal_v2 then args ← deserialize_args_exact borsh d; process_record_token_deposit_v2 cx accounts args
      else fail InvalidInstructionData) w) in Hr.
  destruct portal_v2; [|by apply fail_Ok in Hr]. apply bind_Ok in Hr as (args & w1 & G & Hr).
  assert (w1 = w) as ->. { unfold deserialize_args_exact in G. mstep G as y w2 G1. destruct y. mstep G as [] w2 G2. by apply ret_Ok in G as [_ ->]. }
  unfold process_record_token_deposit_v2 in Hr. cbv zeta in Hr. repeat (case_match; try by apply fail_Ok in Hr).
  mstep Hr as [] w1 G1. mstep Hr as [] w1 G2. mstep Hr as f w1 G3. mstep Hr as ctx w1 G4. mstep Hr as g w1 G5.
  mstep Hr as [] w1 G6. mstep Hr as [] w1 G7. mstep Hr as [] w1 G8. mstep Hr as dep w1 G9. mstep Hr as ba w1 G10.
  by apply (append_spares _ _ _ _ _ _ _ _ Hr).
Qed.
End portal_spares.

(** ** Deployment

    The bridge runs at [program] and the Portal at [portal]; [others] runs
    everywhere else.  [depth] bounds the calls that may still be nested. *)

Section deployment.
Context `{Host, Groth16, Spl} (features : Features) (portal_v2 bridge_v2 : bool) (portal program : Address)
  (others : Programs).

Fixpoint deployed (depth : nat) : Programs := λ p c accounts d,
  match depth with
  | O => fail (Cpi IE_CallDepth)
  | S n =>
      if p == program then let _ : Programs := deployed n in TokenBridge.process_instruction bridge_v2 c accounts d
      else if p == portal then process_instruction features portal_v2 c accounts d
      else others p c accounts d
  end.
End deployment.

(** ** The invariant

    The vault [v] of the registration [sb], its token account [tok]. *)

Section invariant.
Context `{HostLaws, Spl, !SplLaws} (portal program v tok sb : Address).
Context (portal_not_token : portal ≠ token_program_id) (portal_not_bridge : portal ≠ program)
  (bridge_not_token : program ≠ token_program_id).

Record vault_ok (w : World) (s : TokenVault.t) (a : SplAccount) : Prop := {
  vo_owner : owner (acct w v) = program;
  vo_state : try_from_slice (data (acct w v)) = Some s;
  vo_valid : TokenVault.is_valid s = true;
  vo_bridge : TokenVault.session_bridge s = sb;
  vo_token : TokenVault.vault_token_account s = tok;
  vo_registered : owner (acct w sb) = portal;
  vo_registration : length (data (acct w sb)) ∈ [169%nat; 209%nat];
  vo_tok_owner : owner (acct w tok) = token_program_id;
  vo_tok : spl_unpack_account (data (acct w tok)) = Some a;
  vo_authority : spl_owner a = v;
  vo_delegate : spl_delegate a = None;
  vo_counted : TokenVault.withdrawn s ≤ TokenVault.deposited s;
  vo_solvent : TokenVault.deposited s - TokenVault.withdrawn s ≤ spl_amount a
}.

(** The vault and its registration are as they were, the token account is not
    debited and still belongs to the vault. *)
Record left_alone (w w' : World) : Prop := {
  la_vault : data (acct w' v) = data (acct w v) ∧ owner (acct w' v) = owner (acct w v);
  la_bridge : data (acct w' sb) = data (acct w sb) ∧ owner (acct w' sb) = owner (acct w sb);
  la_tok_owner : owner (acct w' tok) = owner (acct w tok);
  la_tok a : spl_unpack_account (data (acct w tok)) = Some a →
    ∃ a', spl_unpack_account (data (acct w' tok)) = Some a' ∧ spl_owner a' = spl_owner a ∧ spl_mint a' = spl_mint a ∧
      (spl_delegate a = None → spl_delegate a' = None) ∧ spl_amount a ≤ spl_amount a'
}.

Lemma left_alone_refl w : left_alone w w.
Proof. split; try done. intros a Ha. exists a. done. Qed.

Lemma left_alone_trans w1 w2 w3 : left_alone w1 w2 → left_alone w2 w3 → left_alone w1 w3.
Proof.
  intros [[] [] ? T1] [[] [] ? T2]. split; [split; congruence..|congruence|].
  intros a (b & Hb & ? & ? & ? & ?)%T1. apply T2 in Hb as (c & ? & ? & ? & ? & ?).
  exists c. split_and!; try done; try congruence; [naive_solver|lia].
Qed.

Lemma same_left_alone w w' :
  acct w' v = acct w v → acct w' tok = acct w tok → acct w' sb = acct w sb → left_alone w w'.
Proof. intros Hv Ht Hs. split; rewrite ?Hv, ?Ht, ?Hs; try done. intros a Ha. exists a. done. Qed.

Lemma left_alone_ok w w' s a :
  vault_ok w s a → left_alone w w' → ∃ a', vault_ok w' s a' ∧ spl_amount a ≤ spl_amount a'.
Proof.
  intros [] [[] [] ? T]. apply T in vo_tok0 as (a' & ? & ? & ? & ? & ?). exists a'. split; [|done].
  split; try congruence; try lia. by auto.
Qed.

(** None of the three accounts has one of the other sizes. *)
Definition watched : list Address := [v; tok; sb].

Lemma watched_members : v ∈ watched ∧ tok ∈ watched ∧ sb ∈ watched.
Proof. unfold watched. set_solver. Qed.

Lemma watched_size w s a c :
  vault_ok w s a → c ∈ watched → length (data (acct w c)) ∈ [146%nat; 165%nat; 169%nat; 209%nat].
Proof.
  intros [] Hc. unfold watched in Hc. rewrite !elem_of_cons in Hc. destruct Hc as [->|[->|[->|Hc%elem_of_nil]]]; [| | |done].
  - apply try_from_slice_Some in vo_state0 as [Hs ->]. rewrite codec_size by done. set_solver.
  - erewrite spl_unpack_length by done. set_solver.
  - set_solver.
Qed.

Lemma watched_nonempty w s a c : vault_ok w s a → c ∈ watched → data (acct w c) ≠ [].
Proof. intros Hok Hc He. pose proof (watched_size _ _ _ _ Hok Hc) as Hl. rewrite He in Hl. simpl in Hl. set_solver. Qed.

Lemma watched_same w w' : (∀ c, c ∈ watched → acct w' c = acct w c) → left_alone w w'.
Proof. intros Hc. apply same_left_alone; apply Hc; unfold watched; set_solver. Qed.

(** An account that was empty, or that was decoded, is none of the three. *)
Lemma empty_unwatched w s a b : vault_ok w s a → data (acct w b) = [] → b ∉ watched.
Proof. intros Hok Hb Hc. by apply (watched_nonempty _ _ _ _ Hok Hc). Qed.

Lemma decoded_unwatched {A} `{!Borsh A, !CodecOk (borsh (A:=A))} {n} `{!CodecSize (borsh (A:=A)) n} w s a b (x : A) :
  n ∉ [146%nat; 165%nat; 169%nat; 209%nat] → vault_ok w s a → try_from_slice (data (acct w b)) = Some x → b ∉ watched.
Proof.
  intros Hn Hok [Hx Hd]%try_from_slice_Some Hc. apply Hn. pose proof (watched_size _ _ _ _ Hok Hc) as Hl.
  rewrite Hd in Hl. by rewrite codec_size in Hl.
Qed.

(** Steps that leave the vault alone, and steps that keep it solvent. *)
Class Leaves {A} (m : prog A) : Prop :=
  leaves w x w' s a : vault_ok w s a → m w = Ok (x, w') → left_alone w w'.

Definition vault_grows (s s' : TokenVault.t) : Prop :=
  TokenVault.mint s' = TokenVault.mint s ∧ TokenVault.bump s' = TokenVault.bump s ∧
  TokenVault.deposited s ≤ TokenVault.deposited s' ∧ TokenVault.withdrawn s ≤ TokenVault.withdrawn s'.

Lemma vault_grows_trans s1 s2 s3 : vault_grows s1 s2 → vault_grows s2 s3 → vault_grows s1 s3.
Proof. intros (?&?&?&?) (?&?&?&?). split_and!; try congruence; lia. Qed.

Class Keeps {A} (m : prog A) : Prop :=
  keeps w x w' s a : vault_ok w s a → m w = Ok (x, w') → ∃ s' a', vault_ok w' s' a' ∧ vault_grows s s'.

#[export] Instance read_only_leaves {A} (m : prog A) : ReadOnly m → Leaves m | 10.
Proof. intros Hm w x w' s a _ Hr. rewrite (Hm _ _ _ Hr). apply left_alone_refl. Qed.
#[export] Instance bind_leaves {A B} (m : prog A) (f : A → prog B) : Leaves m → (∀ x, Leaves (f x)) → Leaves (m ≫= f).
Proof.
  intros Hm Hf w y w' s a Hok Hr. apply bind_Ok in Hr as (x & w1 & Hx & Hr). pose proof (Hm _ _ _ _ _ Hok Hx) as Hla.
  destruct (left_alone_ok _ _ _ _ Hok Hla) as (a1 & Hok1 & _). eapply left_alone_trans; [done|]. by eapply Hf.
Qed.
#[export] Instance leaves_keeps {A} (m : prog A) : Leaves m → Keeps m | 10.
Proof.
  intros Hm w x w' s a Hok Hr. destruct (left_alone_ok _ _ _ _ Hok (Hm _ _ _ _ _ Hok Hr)) as (a' & Hok' & _).
  exists s, a'. done.
Qed.
#[export] Instance bind_keeps {A B} (m : prog A) (f : A → prog B) : Keeps m → (∀ x, Keeps (f x)) → Keeps (m ≫= f) | 5.
Proof.
  intros Hm Hf w y w' s a Hok Hr. apply bind_Ok in Hr as (x & w1 & Hx & Hr).
  destruct (Hm _ _ _ _ _ Hok Hx) as (s1 & a1 & Hok1 & Hg1).
  destruct (Hf _ _ _ _ _ _ Hok1 Hr) as (s2 & a2 & Hok2 & Hg2). exists s2, a2. split; [done|].
  by eapply vault_grows_trans.
Qed.

Lemma keeps_run {A} (m : prog A) w x w' s a :
  Keeps m → vault_ok w s a → m w = Ok (x, w') → ∃ s' a', vault_ok w' s' a' ∧ vault_grows s s'.
Proof. intros Hm. apply Hm. Qed.

Lemma create_pda_leaves `{Programs} cx payer pda space o seeds sys : Leaves (TokenBridge.create_pda cx payer pda space o seeds sys).
Proof.
  intros w x w' s a Hok Hr. apply watched_same. intros c Hc.
  apply (create_pda_spares _ _ _ _ _ _ _ _ _ _ _ Hr). by apply (watched_nonempty _ _ _ _ Hok).
Qed.

Lemma store_unwatched {A} `{Borsh A} b (x : A) : b ∉ watched → Leaves (TokenBridge.store b x).
Proof.
  intros Hb w u w' s a _ [_ ->]%store_full_Ok. apply watched_same. intros c Hc. rewrite acct_put_ne; [done|]. congruence.
Qed.

Lemma store_two_leaves {A B} `{Borsh A, Borsh B} b (x : A) c (y : B) :
  b ∉ watched → c ∉ watched → Leaves (TokenBridge.store b x ;; TokenBridge.store c y).
Proof. intros Hb Hc. apply bind_leaves; [by apply store_unwatched|]. intros _. by apply store_unwatched. Qed.

(** ** Calls into the Portal *)

Section messages.
Context `{Groth16} (features : Features) (portal_v2 : bool).
Abbreviation portal_run := (process_instruction features portal_v2).

Lemma spared (m : prog unit) :
  (∀ w u w' c, m w = Ok (u, w') → c ∈ watched → data (acct w c) ≠ [] →
     length (data (acct w c)) ∈ [146%nat; 165%nat; 169%nat; 209%nat] →
     (length (data (acct w c)) = 146%nat → owner (acct w c) ≠ portal) → acct w' c = acct w c) →
  Leaves m.
Proof.
  intros Hm w u w' s a Hok Hr. apply watched_same. intros c Hc.
  apply (Hm _ _ _ _ Hr Hc); [by apply (watched_nonempty _ _ _ _ Hok)|by apply (watched_size _ _ _ _ Hok)|].
  pose proof (watched_size _ _ _ _ Hok Hc) as Hl. destruct Hok. unfold watched in Hc. rewrite !elem_of_cons in Hc.
  destruct Hc as [->|[->|[->|Hc%elem_of_nil]]]; [congruence|congruence| |done].
  intros He. rewrite He in vo_registration0. set_solver.
Qed.

Lemma portal_request_leaves c accounts : Leaves (portal_run c accounts [byte_of_Z 28]).
Proof. apply spared. intros w u w' b Hr _ Hb _ _. by apply (request_spares _ _ _ _ _ _ Hr). Qed.

Lemma portal_undelegate_leaves c accounts :
  program_id c = portal → (∀ b, b ∈ watched → is_signer c b = false) → Leaves (portal_run c accounts [byte_of_Z 10]).
Proof.
  intros Hp Hs. apply spared. intros w u w' b Hr Hw Hb Hl Ho. apply (undelegate_spares _ _ _ _ _ _ _ Hr); [by apply Hs| |by rewrite Hp].
  intros He. rewrite He in Hl. set_solver.
Qed.

Lemma portal_delegate_leaves c payer sys session d o r b rest g (v2 : bool) :
  (∀ b, b ∈ watched → is_signer c b = false) → (if v2 then ∃ i, rest = [i] else rest = []) →
  Leaves (portal_run c ([payer; sys; session; d; o; r; b] ++ rest) (TokenBridge.encode_portal_delegate v2 g)).
Proof.
  intros Hs Hrest. apply spared. intros w u w' x Hr Hw Hx Hl _. destruct v2.
  - destruct Hrest as [i ->]. change (portal_run c ([payer; sys; session; d; o; r; b] ++ [i]) _ w) with
      ((if portal_v2 then grid ← deserialize_args_exact u64c (le_bytes 8 g);
          process_delegate_v2 c [payer; sys; session; d; o; r; b; i] grid else fail InvalidInstructionData) w) in Hr.
    destruct portal_v2; [|by apply fail_Ok in Hr]. apply bind_Ok in Hr as (grid & w1 & G & Hr).
    assert (w1 = w) as ->. { unfold deserialize_args_exact in G. mstep G as y w2 G1. destruct y. mstep G as [] w2 G2. by apply ret_Ok in G as [_ ->]. }
    apply (delegate_v2_spares _ _ _ _ _ _ _ Hr); [by apply Hs|done|]. intros He. rewrite He in Hl. set_solver.
  - subst rest. change (portal_run c ([payer; sys; session; d; o; r; b] ++ []) _ w) with
      ((grid ← deserialize_args u64c (le_bytes 8 g); process_delegate c [payer; sys; session; d; o; r; b] grid) w) in Hr.
    mstep Hr as grid w1 G. apply (delegate_spares _ _ _ _ _ _ _ _ _ _ _ _ _ Hr); [by apply Hs|done].
Qed.

Lemma portal_consume_leaves c accounts d : Leaves (portal_run c accounts (byte_of_Z 27 :: d)).
Proof.
  apply spared. intros w u w' x Hr _ _ Hl _. change (portal_run c accounts (byte_of_Z 27 :: d) w) with
    ((args ← deserialize_args borsh d; process_consume_token_withdrawal portal_v2 c accounts args) w) in Hr.
  mstep Hr as args w1 G.
  destruct accounts as [|a0 [|a1 [|a2 [|a3 [|a4 [|a5 [|a6 [|a7 [|a8 [|a9 [|a10 rest]]]]]]]]]]];
    try (destruct args; by apply fail_Ok in Hr).
  apply process_consume_token_withdrawal_Ok in Hr. destruct args.
  destruct Hr as (b & y & k & _ & _ & _ & _ & _ & _ & _ & Hy & _ & _ & _ & _ & Hf). apply Hf.
  intros ->. apply try_from_slice_Some in Hy as [Hy Hd]. rewrite Hd, codec_size in Hl by done. set_solver.
Qed.

Lemma portal_record_leaves c accounts d : Leaves (portal_run c accounts (byte_of_Z 37 :: d)).
Proof.
  apply spared. intros w u w' x Hr _ Hx Hl _. apply (record_spares _ _ _ _ _ _ _ _ _ Hr); [done|].
  intros He. rewrite He in Hl. set_solver.
Qed.
End messages.

(** ** The bridge's instructions *)

Section handlers.
Context `{Programs, Groth16} (features : Features) (portal_v2 v2 : bool) (cx : Ctx).
Context (is_bridge : program_id cx = program) (unsigned : ∀ c, c ∈ watched → is_signer cx c = false).

(** What runs at the other addresses. *)
Context (portal_runs : ∀ c accounts d w r, run_program portal c accounts d w = Ok r →
  process_instruction features portal_v2 c accounts d w = Ok r).
Context (others_keep : ∀ p c accounts d, p ≠ portal → program_id c = p →
  (∀ b, b ∈ watched → is_signer c b = false) → Keeps (run_program p c accounts d)).

Lemma signer_unwatched c : is_signer cx c = true → c ∉ watched.
Proof. intros Hc Hw. rewrite unsigned in Hc by done. done. Qed.

Lemma create_store_leaves {A} `{Borsh A} payer pda space o seeds sys (x : A) :
  Leaves (TokenBridge.create_pda cx payer pda space o seeds sys ;; TokenBridge.store pda x).
Proof.
  intros w u w' s a Hok Hr. apply bind_Ok in Hr as ([] & w1 & Hc & Hr).
  pose proof (create_pda_leaves _ _ _ _ _ _ _ _ _ _ _ _ Hok Hc) as Hl.
  apply (left_alone_trans _ w1); [done|]. destruct (left_alone_ok _ _ _ _ Hok Hl) as (a1 & Hok1 & _).
  eapply store_unwatched; [|done..]. apply (empty_unwatched _ _ _ _ Hok). by eapply create_pda_empty.
Qed.

Lemma initialize_vault_leaves accounts : Leaves (TokenBridge.process_initialize_vault v2 cx accounts).
Proof.
  intros w x w' s a Hok Hr. unfold TokenBridge.process_initialize_vault in Hr.
  repeat (case_match; try by apply fail_Ok in Hr).
  mstep Hr as [] w1 G1. mstep Hr as [] w1 G2. mstep Hr as b w1 G3. mstep Hr as [] w1 G4.
  mstep Hr as [] w1 G5. mstep Hr as t w1 G6. mstep Hr as [] w1 G7. mstep Hr as y w1 G8.
  destruct (lamports _ =? 0); [|apply bind_Ok in Hr as (? & ? & Hf & _); by apply fail_Ok in Hf].
  exact (create_store_leaves _ _ _ _ _ _ _ _ _ _ _ _ Hok Hr).
Qed.

Lemma initialize_er_leaves accounts o : Leaves (TokenBridge.process_initialize_er_token_account v2 cx accounts o).
Proof.
  intros w x w' s a Hok Hr. unfold TokenBridge.process_initialize_er_token_account in Hr.
  repeat (case_match; try by apply fail_Ok in Hr).
  mstep Hr as [] w1 G1. mstep Hr as [] w1 G2. mstep Hr as b w1 G3.
  mstep Hr as [] w1 G5. mstep Hr as y w1 G8.
  destruct (lamports _ =? 0); [|apply bind_Ok in Hr as (? & ? & Hf & _); by apply fail_Ok in Hf].
  exact (create_store_leaves _ _ _ _ _ _ _ _ _ _ _ _ Hok Hr).
Qed.

Lemma er_unwatched w s a b e : vault_ok w s a → try_from_slice (data (acct w b)) = Some (e : ErTokenAccount.t) → b ∉ watched.
Proof. apply (decoded_unwatched (n:=106)). set_solver. Qed.
Lemma progress_unwatched w s a b e :
  vault_ok w s a → try_from_slice (data (acct w b)) = Some (e : TokenDepositProgress.t) → b ∉ watched.
Proof. apply (decoded_unwatched (n:=10)). set_solver. Qed.
Lemma receipt_unwatched w s a b e :
  vault_ok w s a → try_from_slice (data (acct w b)) = Some (e : TokenDepositReceipt.t) → b ∉ watched.
Proof. apply (decoded_unwatched (n:=82)). set_solver. Qed.

Lemma transfer_leaves accounts n : Leaves (TokenBridge.process_transfer cx accounts n).
Proof.
  intros w x w' s a Hok Hr. unfold TokenBridge.process_transfer in Hr. repeat (case_match; try by apply fail_Ok in Hr).
  mstep Hr as [] w1 G1. mstep Hr as [] w1 G2.
  mstep Hr as e w1 G3. apply load_er_token_account_Ok in G3 as (_ & G3 & _).
  mstep Hr as e' w1 G4. apply load_er_token_account_Ok in G4 as (_ & G4 & _).
  mstep Hr as [] w1 G5. mstep Hr as n1 w1 G6. mstep Hr as n2 w1 G7.
  apply er_unwatched with (1 := Hok) in G3, G4. exact (store_two_leaves _ _ _ _ G3 G4 _ _ _ _ _ Hok Hr).
Qed.

Lemma start_withdrawal_leaves accounts n d : Leaves (TokenBridge.process_start_withdrawal v2 cx accounts n d).
Proof.
  intros w x w' s a Hok Hr. unfold TokenBridge.process_start_withdrawal in Hr.
  repeat (case_match; try by apply fail_Ok in Hr).
  all: apply bind_Ok in Hr as (m & w1 & G0 & Hr); assert (w1 = w) as -> by (exact (read_only _ _ _ G0)).
  all: mstep Hr as [] w1 G1; mstep Hr as b w1 G2; mstep Hr as [] w1 G3.
  all: apply bind_Ok in Hr as ([] & w1 & G4 & Hr); assert (w1 = w) as -> by (destruct m; exact (read_only _ _ _ G4)).
  all: mstep Hr as t w1 G5; mstep Hr as [] w1 G6; mstep Hr as e w1 G7; apply load_er_token_account_Ok in G7 as (_ & G7 & _).
  all: mstep Hr as [] w1 G8; mstep Hr as k w1 G9.
  all: apply er_unwatched with (1 := Hok) in G7; exact (store_unwatched _ _ G7 _ _ _ _ _ Hok Hr).
Qed.

Lemma apply_leaves accounts n : Leaves (TokenBridge.apply v2 cx accounts n).
Proof.
  intros w x w' s a Hok Hr. unfold TokenBridge.apply in Hr.
  repeat (case_match; try by apply fail_Ok in Hr).
  mstep Hr as [] w1 G1. mstep Hr as [] w1 G2. mstep Hr as b w1 G3. mstep Hr as y w1 G4. destruct y as [ss r].
  mstep Hr as [] w1 G5. mstep Hr as e w1 G6. apply load_er_token_account_Ok in G6 as (_ & G6 & _).
  mstep Hr as [] w1 G7. mstep Hr as rec w1 G8. mstep Hr as [] w1 G9. mstep Hr as [] w1 G10.
  mstep Hr as av w1 G11. mstep Hr as ox w1 G12. mstep Hr as [] w1 G13. mstep Hr as ba w1 G14. mstep Hr as [] w1 G15.
  destruct (find_program_address _ _) as [ck bump] in Hr. mstep Hr as [] w1 G16. mstep Hr as pr w1 G17.
  mstep Hr as [] w1 G18. apply bind_Ok in Hr as ([] & w1 & G19 & Hr).
  assert (w1 = w) as -> by (destruct r; exact (read_only _ _ _ G19)).
  mstep Hr as k w1 G20. mstep Hr as cx0 w1 G21. apply er_unwatched with (1 := Hok) in G6.
  unfold TokenBridge.load_progress in G17. mstep G17 as cx1 w1 K1.
  match type of Hr with context [owned_by ?z (program_id cx)] => destruct (owned_by z (program_id cx)) eqn:Ho end;
    cbn [negb] in Hr.
  - mstep G17 as pp w1 K2. apply load_Ok in K2 as [K2 _]. apply progress_unwatched with (1 := Hok) in K2.
    mstep Hr as [] w1 K3. exact (store_two_leaves _ _ _ _ K2 G6 _ _ _ _ _ Hok Hr).
  - apply bind_Ok in Hr as ([] & w1 & Hc & Hr). pose proof (create_pda_empty _ _ _ _ _ _ _ _ _ _ Hc) as K2.
    apply empty_unwatched with (1 := Hok) in K2.
    exact (bind_leaves _ _ (create_pda_leaves _ _ _ _ _ _ _) (λ _, store_two_leaves _ _ _ _ K2 G6) _ _ _ _ _ Hok
      (proj2 (bind_Ok _ _ _ _ _) (ex_intro _ tt (ex_intro _ w1 (conj Hc Hr))))).
Qed.

(** *** Calls *)

Lemma invoke_keeps p metas d seeds :
  (∀ c wr, (c, true, wr) ∈ metas → c ∉ watched) →
  (p = portal → (∀ b, b ∈ watched → is_signer (callee_ctx cx p metas) b = false) →
     Leaves (process_instruction features portal_v2 (callee_ctx cx p metas) ((λ m, m.1.1) <$> metas) d)) →
  Keeps (invoke_signed cx p metas d seeds).
Proof.
  intros Hm Hp w x w' s a Hok Hr. apply invoke_signed_Ok in Hr as [Hr _].
  assert (Hs : ∀ b, b ∈ watched → is_signer (callee_ctx cx p metas) b = false).
  { intros b Hb. apply not_true_iff_false. intros [wr Hwr]%callee_signer. by apply (Hm b wr). }
  destruct (decide (p = portal)) as [->|Hne].
  - apply portal_runs in Hr. exact (leaves_keeps _ (Hp eq_refl Hs) _ _ _ _ _ Hok Hr).
  - exact (others_keep p (callee_ctx cx p metas) _ _ Hne eq_refl Hs _ _ _ _ _ Hok Hr).
Qed.

Ltac signing :=
  intros c wr Hc;
  repeat (apply elem_of_cons in Hc as [Hc|Hc]; [first [discriminate Hc|injection Hc as -> _; assumption]|]);
  by apply elem_of_nil in Hc.
Ltac invoked Hr Hok :=
  match type of Hr with invoke_signed _ ?p ?m ?d ?sd _ = _ => apply (keeps_run (invoke_signed cx p m d sd)) with (2 := Hok) (3 := Hr); apply invoke_keeps end.

Lemma copy_data_leaves from to : to ∉ watched → Leaves (TokenBridge.copy_data from to).
Proof.
  intros Ht w x w' s a Hok Hr. unfold TokenBridge.copy_data in Hr.
  mstep Hr as [] w1 G1. mstep Hr as y w1 G2. mstep Hr as z w1 G3. mstep Hr as [] w1 G4. apply update_Ok in Hr.
  apply watched_same. intros c Hc. rewrite Hr, acct_put_ne; congruence.
Qed.

Lemma close_buffer_leaves buffer recipient :
  buffer ∉ watched → recipient ∉ watched → Leaves (TokenBridge.close_buffer buffer recipient).
Proof.
  intros Hb Ht w x w' s a Hok Hr. unfold TokenBridge.close_buffer, close in Hr.
  mstep Hr as y w1 G1. mstep Hr as z w1 G2. mstep Hr as n w1 G3. mstep Hr as [] w1 G4. mstep Hr as [] w2 G5.
  apply update_Ok in Hr. apply watched_same. intros c Hc.
  rewrite Hr, acct_put_ne, G5, acct_put_ne, G4, acct_put_ne; congruence.
Qed.

Lemma create_buffer_leaves payer buffer er sys : Leaves (TokenBridge.create_buffer cx payer buffer er sys).
Proof.
  intros w x w' s a Hok Hr. unfold TokenBridge.create_buffer in Hr. destruct (TokenBridge.find_buffer_pda _ _) as [k b].
  mstep Hr as [] w1 G1. mstep Hr as y w1 G2. mstep Hr as z w1 G3. apply bind_Ok in Hr as ([] & w1 & G4 & Hr).
  mstep Hr as y w2 G5. mstep Hr as z w2 G6. apply err_if_Ok in Hr as [_ ->].
  destruct (owned_by _ _); [apply ret_Ok in G4 as [_ ->]; apply left_alone_refl|].
  exact (create_pda_leaves _ _ _ _ _ _ _ _ _ _ _ _ Hok G4).
Qed.

Lemma er_size_unwatched w s a b :
  vault_ok w s a → length (data (acct w b)) = 106%nat → b ∉ watched.
Proof. intros Hok Hb Hc. pose proof (watched_size _ _ _ _ Hok Hc) as Hl. rewrite Hb in Hl. set_solver. Qed.

Lemma request_keeps_vault accounts : Keeps (TokenBridge.process_request_undelegation cx accounts).
Proof.
  intros w x w' s a Hok Hr. unfold TokenBridge.process_request_undelegation in Hr.
  repeat (case_match; try by apply fail_Ok in Hr).
  mstep Hr as [] w1 G1. mstep Hr as [] w1 G2. mstep Hr as [] w1 G3. mstep Hr as [] w1 G4. mstep Hr as ex w1 G5.
  mstep Hr as [] w1 G6. mstep Hr as e w1 G7. apply load_er_token_account_data_Ok in G7 as [G7 _].
  mstep Hr as [] w1 G8. mstep Hr as [] w1 G9. apply er_unwatched with (1 := Hok) in G7.
  apply err_if_Ok in G1 as [G1 _], G2 as [G2 _]. bprop. apply signer_unwatched in G1, G2.
  invoked Hr Hok; [signing|intros _ _; apply portal_request_leaves].
Qed.

(** *** Delegation *)

Lemma initialize_origin_leaves payer b acc r o sys : Leaves (TokenBridge.initialize_origin cx payer b acc r o sys).
Proof.
  intros w x w' s a Hok Hr. apply watched_same. intros c Hc.
  apply (initialize_origin_spares _ _ _ _ _ _ _ _ _ _ _ Hr); [by apply (watched_nonempty _ _ _ _ Hok)|].
  intros Hl. pose proof (watched_size _ _ _ _ Hok Hc) as Hs. rewrite Hl in Hs. set_solver.
Qed.

(** Creating the buffer and copying the account into it; the buffer is none of
    the three accounts. *)
Lemma fill_buffer_leaves payer buffer er sys w w1 w2 s a (e : ErTokenAccount.t) u1 u2 :
  vault_ok w s a → try_from_slice (data (acct w er)) = Some e →
  TokenBridge.create_buffer cx payer buffer er sys w = Ok (u1, w1) →
  TokenBridge.copy_data er buffer w1 = Ok (u2, w2) → left_alone w w2 ∧ (buffer ∉ watched) ∧ er ∉ watched.
Proof.
  intros Hok He Hc Hd. pose proof (er_unwatched _ _ _ _ _ Hok He) as Her.
  pose proof (create_buffer_leaves _ _ _ _ _ _ _ _ _ Hok Hc) as L1.
  destruct (left_alone_ok _ _ _ _ Hok L1) as (a1 & Hok1 & _).
  assert (Hb : buffer ∉ watched).
  { pose proof (create_buffer_size _ _ _ _ _ _ _ _ Hc) as Hl. eapply er_size_unwatched; [exact Hok1|].
    rewrite Hl. clear Hd. unfold TokenBridge.create_buffer in Hc. destruct (TokenBridge.find_buffer_pda _ _) as [k b].
    mstep Hc as [] w3 G1. mstep Hc as y w3 G2. mstep Hc as z w3 G3. apply bind_Ok in Hc as ([] & w3 & G4 & Hc).
    mstep Hc as y w4 G5. mstep Hc as z w4 G6. apply err_if_Ok in Hc as [_ ->].
    apply try_from_slice_Some in He as [Hw Hd].
    assert (acct w3 er = acct w er) as ->; [|rewrite Hd; by rewrite codec_size].
    destruct (owned_by _ _); [by apply ret_Ok in G4 as [_ ->]|].
    apply (create_pda_spares _ _ _ _ _ _ _ _ _ _ _ G4). intros Hn. apply (f_equal length) in Hd.
    rewrite Hn, codec_size in Hd by done. done. }
  split_and!; [|done|done]. apply (left_alone_trans _ w1); [done|]. exact (copy_data_leaves _ _ Hb _ _ _ _ _ Hok1 Hd).
Qed.

Lemma hand_over_leaves payer er pp buffer sys e w x w' s a :
  vault_ok w s a → is_signer cx payer = true → try_from_slice (data (acct w er)) = Some (e : ErTokenAccount.t) →
  TokenBridge.hand_over cx payer er pp buffer sys e w = Ok (x, w') → left_alone w w' ∧ buffer ∉ watched.
Proof.
  intros Hok Hp He Hr. unfold TokenBridge.hand_over in Hr. apply signer_unwatched in Hp.
  apply bind_Ok in Hr as ([] & w1 & G1 & Hr). mstep Hr as y w2 G2. apply bind_Ok in Hr as ([] & w2 & G3 & Hr).
  destruct (fill_buffer_leaves _ _ _ _ _ _ _ _ _ _ _ _ Hok He G1 G3) as (L2 & Hb & Her). split; [|done].
  destruct (left_alone_ok _ _ _ _ Hok L2) as (a2 & Hok2 & _). apply (left_alone_trans _ w2); [done|].
  apply bind_leaves with (2 := λ _, create_pda_leaves _ _ _ _ _ _ _) (3 := Hok2) (4 := Hr).
  by apply close_buffer_leaves.
Qed.

Lemma delegate_keeps_vault accounts g : Keeps (TokenBridge.process_delegate_er_token_account v2 cx accounts g).
Proof.
  intros w x w' s a Hok Hr. unfold TokenBridge.process_delegate_er_token_account in Hr.
  repeat (case_match; try by apply fail_Ok in Hr).
  all: mstep Hr as [] w1 G1; mstep Hr as [] w1 G2; mstep Hr as [] w1 G3; mstep Hr as [] w1 G4; mstep Hr as bb w1 G5;
    mstep Hr as e w1 G6; apply load_er_token_account_Ok in G6 as (_ & G6 & _); mstep Hr as [] w1 G7; mstep Hr as [] w1 G8;
    try (by apply fail_Ok in Hr).
  all: apply bind_Ok in Hr as (i & w1 & G9 & Hr); assert (w1 = w) as -> by (exact (read_only _ _ _ G9)).
  all: apply ret_Ok in G9 as [<- _]; apply bind_Ok in Hr as ([] & w1 & G10 & Hr);
    assert (w1 = w) as -> by (exact (read_only _ _ _ G10)).
  all: apply err_if_Ok in G1 as [G1 _]; bprop; pose proof (signer_unwatched _ G1) as Hpay.
  all: pose proof (er_unwatched _ _ _ _ _ Hok G6) as Her.
  all: apply bind_Ok in Hr as ([] & w1 & G11 & Hr); pose proof (initialize_origin_leaves _ _ _ _ _ _ _ _ _ _ _ Hok G11) as L1;
    destruct (left_alone_ok _ _ _ _ Hok L1) as (a1 & Hok1 & _).
  all: pose proof (sized (n:=106) _ _ G6) as Hl;
    rewrite <- (initialize_origin_spares _ _ _ _ _ _ _ _ _ _ _ G11) in G6 by (first [by rewrite Hl|by intros Hn; rewrite Hn in Hl]).
  all: apply bind_Ok in Hr as ([] & w2 & G12 & Hr); destruct (hand_over_leaves _ _ _ _ _ _ _ _ _ _ _ Hok1 G1 G6 G12) as [L2 Hb];
    destruct (left_alone_ok _ _ _ _ Hok1 L2) as (a2 & Hok2 & _).
  all: refine (bind_keeps _ _ _ (λ _, leaves_keeps _ (close_buffer_leaves _ _ Hb Hpay)) _ _ _ _ _ Hok2 Hr);
    apply invoke_keeps; [signing|].
  all: intros -> Hs.
  - exact (portal_delegate_leaves features portal_v2 _ _ _ _ _ _ _ _ [_] g true Hs (ex_intro _ _ eq_refl)).
  - exact (portal_delegate_leaves features portal_v2 _ _ _ _ _ _ _ _ [] g false Hs eq_refl).
Qed.

Lemma undelegate_keeps_vault accounts : Keeps (TokenBridge.process_undelegate_er_token_account cx accounts).
Proof.
  intros w x w' s a Hok Hr. unfold TokenBridge.process_undelegate_er_token_account in Hr.
  repeat (case_match; try by apply fail_Ok in Hr).
  mstep Hr as [] w1 G1. mstep Hr as [] w1 G2. mstep Hr as [] w1 G3. mstep Hr as ex w1 G4. mstep Hr as [] w1 G5.
  apply bind_Ok in Hr as ([] & w1 & G6 & Hr). apply bind_Ok in Hr as ([] & w2 & G7 & Hr).
  pose proof (create_buffer_leaves _ _ _ _ _ _ _ _ _ Hok G6) as L1.
  destruct (left_alone_ok _ _ _ _ Hok L1) as (a1 & Hok1 & _).
  mstep Hr as e w3 G8. apply load_er_token_account_data_Ok in G8 as [G8 _].
  pose proof G7 as Hcopy. apply copy_data_Ok in Hcopy as (_ & Hlen & Hcopy).
  rewrite Hcopy, acct_put_eq in G8. cbn [data with_data] in G8. apply (sized (n:=106)) in G8.
  pose proof (er_size_unwatched _ _ _ _ Hok1 G8) as Her. rewrite Hlen in G8.
  pose proof (er_size_unwatched _ _ _ _ Hok1 G8) as Hb.
  pose proof (copy_data_leaves _ _ Hb _ _ _ _ _ Hok1 G7) as L2.
  destruct (left_alone_ok _ _ _ _ Hok1 L2) as (a2 & Hok2 & _).
  mstep Hr as [] w3 G9. mstep Hr as [] w3 G10. apply err_if_Ok in G1 as [G1 _]. bprop.
  pose proof (signer_unwatched _ G1) as Hau.
  refine (bind_keeps _ _ _ (λ _, _) _ _ _ _ _ Hok2 Hr).
  - apply invoke_keeps; [signing|]. intros -> Hs. by apply portal_undelegate_leaves.
  - apply bind_keeps; [apply leaves_keeps, read_only_leaves, _|]. intros ex.
    apply bind_keeps; [apply leaves_keeps, read_only_leaves, _|]. intros _.
    apply leaves_keeps, bind_leaves; [by apply copy_data_leaves|]. intros _. by apply close_buffer_leaves.
Qed.

(** *** Token transfers *)

(** A transfer the vault does not authorize can only credit it. *)
Lemma transfer_checked_credit signer source mint dest auth n d w x w' s a :
  auth ≠ v → 0 ≤ n → vault_ok w s a → TransferChecked cx signer source mint dest auth n d w = Ok (x, w') →
  left_alone w w' ∧ ∃ a', vault_ok w' s a' ∧ spl_amount a' = spl_amount a + (if decide (dest = tok) then n else 0).
Proof.
  intros Ha Hn Hok Hr. apply TransferChecked_Ok in Hr as [Hr _].
  apply transfer_checked_Ok in Hr as (p & q & p' & q' & Hso & Hdo & Hp & Hq & Hpm & Hqm & Hau & _ & Hle & Hso' & Hdo' & Hp' & Hq'
    & Hpm' & Hqm' & Hpo & Hqo & Hpd & Hqd & Hamt & Hf).
  pose proof Hok as [Ho Hst Hv Hb Ht Hr Hrl Hto Htok Hauth Hdel Hc Hsol].
  assert (Hst' : source ≠ tok).
  { intros ->. assert (p = a) as -> by congruence. destruct Hau; congruence. }
  assert (source ≠ v ∧ dest ≠ v ∧ source ≠ sb ∧ dest ≠ sb) as (? & ? & ? & ?).
  { split_and!; intros ->; congruence. }
  assert (Hla : left_alone w w').
  { destruct (decide (dest = tok)) as [->|Hd]; [|by apply same_left_alone; apply Hf].
    rewrite decide_False in Hamt by done. destruct Hamt as [_ Hamt].
    split; try (by rewrite !Hf). { congruence. }
    intros a0 Ha0. assert (a0 = q) as -> by congruence. exists q'. split_and!; try congruence. lia. }
  split; [done|]. destruct (decide (dest = tok)) as [->|Hd].
  - rewrite decide_False in Hamt by done. destruct Hamt as [_ Hamt]. assert (q = a) as -> by congruence.
    exists q'. split; [|lia]. split; rewrite ?Hf by done; try done; try congruence; lia.
  - exists a. split; [|lia]. split; by rewrite ?Hf.
Qed.

Lemma transfer_checked_leaves signer source mint dest auth n d :
  auth ≠ v → 0 ≤ n → Leaves (TransferChecked cx signer source mint dest auth n d).
Proof. intros Ha Hn w x w' s a Hok Hr. by destruct (transfer_checked_credit _ _ _ _ _ _ _ _ _ _ _ _ Ha Hn Hok Hr). Qed.

(** A transfer out of the vault's account. *)
Lemma transfer_checked_debit signer mint dest n d w x w' s a :
  0 ≤ n → vault_ok w s a → TransferChecked cx signer tok mint dest v n d w = Ok (x, w') →
  ∃ a', spl_unpack_account (data (acct w' tok)) = Some a' ∧ owner (acct w' tok) = token_program_id ∧
    spl_owner a' = v ∧ spl_delegate a' = None ∧ spl_amount a - n ≤ spl_amount a' ∧ n ≤ spl_amount a ∧
    acct w' v = acct w v ∧ acct w' sb = acct w sb.
Proof.
  intros Hn Hok Hr. apply TransferChecked_Ok in Hr as [Hr _].
  apply transfer_checked_Ok in Hr as (p & q & p' & q' & Hso & Hdo & Hp & Hq & Hpm & Hqm & Hau & _ & Hle & Hso' & Hdo' & Hp' & Hq'
    & Hpm' & Hqm' & Hpo & Hqo & Hpd & Hqd & Hamt & Hf).
  pose proof Hok as [Ho Hst Hv Hb Ht Hr Hrl Hto Htok Hauth Hdel Hc Hsol]. assert (p = a) as -> by congruence.
  exists p'. split_and!; try done; try congruence; [by auto| | |].
  - destruct (decide (tok = dest)); lia.
  - apply Hf; congruence.
  - apply Hf; congruence.
Qed.

(** *** Writing the vault *)

Lemma vault_wf w s a : vault_ok w s a → wf borsh s.
Proof. intros [_ Hs _ _ _ _ _ _ _ _ _ _ _]. by apply decoded_wf in Hs. Qed.

Lemma store_vault_ok w s a a' s' x w' w1 :
  vault_ok w s a → acct w1 v = acct w v → acct w1 sb = acct w sb →
  spl_unpack_account (data (acct w1 tok)) = Some a' → owner (acct w1 tok) = token_program_id →
  spl_owner a' = v → spl_delegate a' = None → wf borsh s' → TokenVault.is_valid s' = true →
  TokenVault.session_bridge s' = sb → TokenVault.vault_token_account s' = tok →
  TokenVault.withdrawn s' ≤ TokenVault.deposited s' →
  TokenVault.deposited s' - TokenVault.withdrawn s' ≤ spl_amount a' →
  TokenBridge.store v s' w1 = Ok (x, w') → vault_ok w' s' a'.
Proof.
  intros [Ho Hst Hv Hb Ht Hr Hrl Hto Htok Hauth Hdel Hc Hsol] Ev Es Ea Eo Hoa Hda Hwf Hv' Hb' Ht' Hc' Hs' [_ ->]%store_full_Ok.
  assert (Hvt : v ≠ tok) by (intros <-; congruence). assert (Hvs : v ≠ sb) by (intros <-; congruence).
  split; rewrite ?acct_put_eq, ?acct_put_ne by done; cbn [owner data with_data]; rewrite ?Ev, ?Es; try done.
  by apply try_from_slice_enc.
Qed.

(** Another vault is none of the three accounts. *)
Lemma other_vault_unwatched w s a b (t : TokenVault.t) :
  vault_ok w s a → b ≠ v → try_from_slice (data (acct w b)) = Some t → b ∉ watched.
Proof.
  intros Hok Hb Ht Hc. apply (sized (n:=146)) in Ht. destruct Hok. unfold watched in Hc. rewrite !elem_of_cons in Hc.
  destruct Hc as [->|[->|[->|Hc%elem_of_nil]]]; [done| | |done].
  - apply spl_unpack_length in vo_tok0. congruence.
  - rewrite Ht in vo_registration0. set_solver.
Qed.

(** Paying out of the vault and counting it. *)
Lemma pay_keeps signer mint dest n d w w1 w2 s a x y :
  0 ≤ n → vault_ok w s a → TokenVault.withdrawn s + n ≤ TokenVault.deposited s →
  TransferChecked cx signer tok mint dest v n d w = Ok (x, w1) →
  TokenBridge.store v (TokenBridge.with_withdrawn (TokenVault.withdrawn s + n) s) w1 = Ok (y, w2) →
  ∃ s' a', vault_ok w2 s' a' ∧ vault_grows s s'.
Proof.
  intros Hn Hok Hle Ht Hs. pose proof (vault_wf _ _ _ Hok) as Hwf.
  destruct (transfer_checked_debit _ _ _ _ _ _ _ _ _ _ Hn Hok Ht) as (a' & Ha & Ho & Hao & Hd & Hamt & _ & Ev & Es).
  assert (Hwf' : wf borsh (TokenBridge.with_withdrawn (TokenVault.withdrawn s + n) s)).
  { destruct Hwf as (?&?&?&?&?&Hwd&Hww&?). 
    change (is_u64 (TokenVault.deposited s)) in Hwd. change (is_u64 (TokenVault.withdrawn s)) in Hww.
    assert (is_u64 (TokenVault.withdrawn s + n)) by (unfold in_width in *; lia).
    wf_fields. }
  exists (TokenBridge.with_withdrawn (TokenVault.withdrawn s + n) s), a'. pose proof Hok as [].
  split; [|unfold vault_grows; split_and!; simpl; first [done|lia]].
  eapply (store_vault_ok w s a a'); try done. simpl. lia.
Qed.

Lemma withdraw_keeps_vault accounts n d : 0 ≤ n → Keeps (TokenBridge.process_withdraw v2 cx accounts n d).
Proof.
  intros Hn w x w' s a Hok Hr. unfold TokenBridge.process_withdraw in Hr. repeat (case_match; try by apply fail_Ok in Hr).
  mstep Hr as [] w1 G1. mstep Hr as b w1 G2. mstep Hr as t w1 G3. apply load_vault_Ok in G3 as (Hto & Hts & Htv & Htb & _).
  mstep Hr as [] w1 G4. apply err_if_Ok in G4 as [G4 _]. mstep Hr as e w1 G5. apply load_er_token_account_Ok in G5 as (_ & G5 & _).
  mstep Hr as [] w1 G6. mstep Hr as k w1 G7. mstep Hr as m w1 G8. mstep Hr as [] w1 G9. mstep Hr as [] w1 G10.
  apply bind_Ok in Hr as ([] & w1 & G11 & Hr). apply er_unwatched with (1 := Hok) in G5. bprop.
  match type of Hts with try_from_slice (data (acct w ?x)) = _ => destruct (decide (x = v)) as [->|Hne] end.
  - assert (t = s) as -> by (destruct Hok; congruence).
    assert (TokenVault.vault_token_account s = tok) as Htok by (by destruct Hok).
    match goal with X : TokenVault.vault_token_account s = ?l |- _ => assert (l = tok) as -> by congruence end.
    apply bind_Ok in Hr as ([] & w2 & G12 & Hr).
    destruct (pay_keeps _ _ _ _ _ _ _ _ _ _ _ _ Hn Hok G9 G11 G12) as (s' & a' & Hok' & Hg).
    destruct (leaves_keeps _ (store_unwatched _ _ G5) _ _ _ _ _ Hok' Hr) as (s2 & a2 & Hok2 & Hg2).
    exists s2, a2. split; [done|]. by eapply vault_grows_trans.
  - apply other_vault_unwatched with (1 := Hok) in Hts; [|done].
    pose proof (transfer_checked_leaves _ _ _ _ _ _ _ Hne Hn _ _ _ _ _ Hok G11) as L1.
    destruct (left_alone_ok _ _ _ _ Hok L1) as (a1 & Hok1 & _).
    exact (leaves_keeps _ (store_two_leaves _ _ _ _ Hts G5) _ _ _ _ _ Hok1 Hr).
Qed.

Lemma settle_keeps_vault accounts er ck n k d :
  0 ≤ n → Keeps (TokenBridge.process_settle_withdrawal v2 cx accounts er ck n k d).
Proof.
  intros Hn w x w' s a Hok Hr. unfold TokenBridge.process_settle_withdrawal in Hr.
  repeat (case_match; try by apply fail_Ok in Hr).
  mstep Hr as [] w1 G1. mstep Hr as b w1 G2. apply load_settlement_owner in G2 as [Hbo Hso].
  mstep Hr as t w1 G3. apply load_vault_Ok in G3 as (Hto & Hts & Htv & Htb & _).
  mstep Hr as [] w1 G4. apply err_if_Ok in G4 as [G4 _]. mstep Hr as sp w1 G5. mstep Hr as [] w1 G6.
  destruct (_ <=? _); [apply ret_Ok in Hr as [_ ->]; by exists s, a|].
  mstep Hr as m w1 G7. mstep Hr as [] w1 G8. mstep Hr as [] w1 G9. unfold TokenBridge.pay_withdrawal in Hr. cbv zeta in Hr.
  mstep Hr as sx w1 G10. rewrite Hso in Hr. bprop. apply err_if_Ok in G1 as [G1 _]. bprop.
  pose proof (signer_unwatched _ G1) as Hva.
  match type of Hts with try_from_slice (data (acct w ?y)) = _ => destruct (decide (y = v)) as [->|Hne] end.
  - assert (t = s) as -> by (destruct Hok; congruence).
    match goal with X : TokenVault.vault_token_account s = ?l |- _ =>
      assert (l = tok) as -> by (destruct Hok; congruence) end.
    apply bind_Ok in Hr as ([] & w1 & G11 & Hr). apply invoke_signed_Ok in G11 as [G11 _].
    match type of G11 with run_program ?p _ _ _ _ = _ =>
      assert (Hpp : p = portal) by (destruct Hok; congruence); rewrite Hpp in G11 end.
    apply portal_runs in G11. pose proof (portal_consume_leaves _ _ _ _ _ _ _ _ _ _ Hok G11) as L1.
    destruct (left_alone_ok _ _ _ _ Hok L1) as (a1 & Hok1 & _).
    apply bind_Ok in Hr as ([] & w2 & G12 & Hr). subst k.
    destruct (pay_keeps _ _ _ _ _ _ _ _ _ _ _ _ Hn Hok1 ltac:(lia) G12 Hr) as (s' & a' & Hok' & Hg). by exists s', a'.
  - apply other_vault_unwatched with (1 := Hok) in Hts; [|done].
    refine (bind_keeps _ _ _ (λ _, _) _ _ _ _ _ Hok Hr).
    + apply invoke_keeps; [signing|]. intros -> _. apply portal_consume_leaves.
    + apply leaves_keeps, bind_leaves; [by apply transfer_checked_leaves|]. intros _. by apply store_unwatched.
Qed.

(** *** Deposits *)

Lemma vault_head w s a : vault_ok w s a → ∃ r, data (acct w v) = byte_of_Z 1 :: r.
Proof.
  intros [_ Hs Hv _ _ _ _ _ _ _ _ _ _]. apply try_from_slice_Some in Hs as [_ ->].
  unfold TokenVault.is_valid, TokenVault.DISCRIMINATOR in Hv. bprop. destruct s. simpl in Hv. subst. by eexists.
Qed.

Lemma open_receipt_Ok payer b er r bump sys w x w' s a :
  vault_ok w s a → TokenBridge.open_receipt cx payer b er r bump sys w = Ok (x, w') →
  left_alone w w' ∧ r ∉ watched.
Proof.
  intros Hok Hr. unfold TokenBridge.open_receipt in Hr. mstep Hr as y w1 G1. apply bind_Ok in Hr as ([] & w1 & G2 & Hr).
  mstep Hr as z w2 G3. apply bind_Ok in Hr as (q & w2 & G4 & Hr).
  assert (w2 = w1) as ->.
  { destruct (data (acct w1 r)) as [|h ?]; [by apply fail_Ok in G4|]. destruct (byte_val h =? 0); [by apply ret_Ok in G4 as [_ ->]|].
    by apply load_Ok in G4 as [_ ->]. }
  mstep Hr as [] w2 G5. apply ret_Ok in Hr as [_ ->]. destruct (lamports (acct w r) =? 0).
  { split; [exact (create_pda_leaves _ _ _ _ _ _ _ _ _ _ _ _ Hok G2)|].
    apply (empty_unwatched _ _ _ _ Hok). by eapply create_pda_empty. }
  apply err_if_Ok in G2 as [G2 ->]. unfold owned_by in G2. bprop. split; [apply left_alone_refl|]. intros Hc.
  unfold watched in Hc. rewrite !elem_of_cons in Hc. pose proof Hok as Hok0. destruct Hok0.
  destruct Hc as [->|[->|[->|Hc%elem_of_nil]]]; [|congruence|congruence|done].
  destruct (vault_head _ _ _ Hok) as [rest Hh]. rewrite Hh in G4. change (byte_val (byte_of_Z 1) =? 0) with false in G4. cbv iota in G4.
  apply load_Ok in G4 as [G4 _]. apply (sized (n:=82)) in G4. apply (sized (n:=146)) in vo_state0. congruence.
Qed.

Lemma append_keeps y bump n :
  TokenBridge.di_payer y ∉ watched → (TokenBridge.di_portal y = portal ∨ TokenBridge.di_vault y ∉ watched) →
  Keeps (TokenBridge.append cx y bump n).
Proof.
  intros Hp Hv. unfold TokenBridge.append. destruct Hv as [Hv|Hv].
  - intros w x w' s a Hok Hr. rewrite Hv in Hr. apply invoke_signed_Ok in Hr as [Hr _]. apply portal_runs in Hr.
    exact (leaves_keeps _ (portal_record_leaves _ _ _ _ _) _ _ _ _ _ Hok Hr).
  - apply invoke_keeps; [signing|]. intros _ _. apply portal_record_leaves.
Qed.

(** Counting a deposit that has arrived. *)
Lemma count_keeps w w1 s a a1 n y :
  0 ≤ n → vault_ok w s a → left_alone w w1 → vault_ok w1 s a1 → spl_amount a + n ≤ spl_amount a1 →
  ∀ w2, TokenBridge.store v (TokenBridge.with_deposited (TokenVault.deposited s + n) s) w1 = Ok (y, w2) →
  TokenVault.deposited s + n ≤ umax 64 → ∃ s' a', vault_ok w2 s' a' ∧ vault_grows s s'.
Proof.
  intros Hn Hok L1 Hok1 Hle w2 Hs Hmax. pose proof (vault_wf _ _ _ Hok) as Hwf.
  assert (Hwf' : wf borsh (TokenBridge.with_deposited (TokenVault.deposited s + n) s)).
  { destruct Hwf as (?&?&?&?&?&Hwd&Hww&?). change (is_u64 (TokenVault.deposited s)) in Hwd.
    assert (is_u64 (TokenVault.deposited s + n)) by (unfold in_width in *; lia). wf_fields. }
  exists (TokenBridge.with_deposited (TokenVault.deposited s + n) s), a1. pose proof Hok as []. pose proof Hok1 as [].
  split; [|unfold vault_grows; split_and!; simpl; first [done|lia]].
  eapply (store_vault_ok w1 s a1 a1); try done; simpl; lia.
Qed.

Lemma deposit_keeps_vault accounts n d : 0 ≤ n → Keeps (TokenBridge.process_deposit v2 cx accounts n d).
Proof.
  intros Hn w x w' s a Hok Hr. unfold TokenBridge.process_deposit in Hr.
  repeat (case_match; try by apply fail_Ok in Hr).
  apply bind_Ok in Hr as (ii & w1 & G0 & Hr). assert (w1 = w) as -> by (exact (read_only _ _ _ G0)).
  mstep Hr as [] w1 G1. mstep Hr as [] w1 G2. mstep Hr as [] w1 G3. mstep Hr as b w1 G4. apply load_session_bridge_Ok in G4.
  mstep Hr as t w1 G5. apply load_vault_Ok in G5 as (Hto & Hts & Htv & Htb & _).
  mstep Hr as [] w1 G6. apply err_if_Ok in G6 as [G6 _]. mstep Hr as e w1 G7. apply load_er_token_account_data_Ok in G7 as [G7 _].
  mstep Hr as [] w1 G8. apply bind_Ok in Hr as ([] & w1 & G9 & Hr).
  assert (w1 = w) as -> by (destruct ii as [[[[??]?]?]|]; exact (read_only _ _ _ G9)).
  mstep Hr as ex w1 G10. mstep Hr as [] w1 G11. apply bind_Ok in Hr as ([] & w1 & G12 & Hr).
  assert (w1 = w) as -> by (exact (read_only _ _ _ G12)).
  mstep Hr as [] w1 G13. mstep Hr as [] w1 G14. apply bind_Ok in Hr as ([] & w1 & G15 & Hr).
  apply bind_Ok in Hr as (r & w2 & G16 & Hr). mstep Hr as bal w3 G17. apply bind_Ok in Hr as ([] & w3 & G18 & Hr).
  mstep Hr as dep w4 G19. apply bind_Ok in Hr as ([] & w4 & G20 & Hr). bprop.
  apply err_if_Ok in G1 as [G1 _], G2 as [G2 _]. bprop. apply er_unwatched with (1 := Hok) in G7.
  match type of G15 with TransferChecked _ _ _ _ _ ?o _ _ _ = _ => assert (Hov : o ≠ v) end.
  { apply signer_unwatched in G2. intros ->. by destruct watched_members. }
  destruct (transfer_checked_credit _ _ _ _ _ _ _ _ _ _ _ _ Hov Hn Hok G15) as (L1 & a1 & Hok1 & Ha1).
  destruct (open_receipt_Ok _ _ _ _ _ _ _ _ _ _ _ Hok1 G16) as [L2 Hru].
  destruct (left_alone_ok _ _ _ _ Hok1 L2) as (a2 & Hok2 & Ha2).
  pose proof (store_unwatched _ _ Hru _ _ _ _ _ Hok2 G18) as L3.
  destruct (left_alone_ok _ _ _ _ Hok2 L3) as (a3 & Hok3 & Ha3). apply signer_unwatched in G1.
  match type of Hr with ?m w4 = _ => match m with context [TokenBridge.mkDepositIngressV2 _ _ _ _ ?va _ _ _ _ _ ?pp] =>
    assert (tail : pp = portal ∨ va ∉ watched → Keeps m) end end.
  { intros Hc. destruct (owned_by _ _).
    - destruct ii as [[[[??]?]?]|]; [by apply append_keeps|apply leaves_keeps, read_only_leaves, _].
    - apply leaves_keeps, bind_leaves; [apply read_only_leaves, _|]. intros m. by apply store_unwatched. }
  match type of Hts with try_from_slice (data (acct w ?y)) = _ => set (vault := y) in *; destruct (decide (vault = v)) as [Hv|Hne] end.
  - assert (t = s) as -> by (destruct Hok; congruence).
    match goal with X : TokenVault.vault_token_account s = ?l |- _ =>
      assert (Hl : l = tok) by (destruct Hok; congruence); rewrite Hl in Ha1 end.
    rewrite decide_True in Ha1 by done. rewrite Hv in G20.
    assert (L : left_alone w w3) by (eapply left_alone_trans; [eapply left_alone_trans|]; done).
    destruct (count_keeps w w3 s a a3 n _ Hn Hok L Hok3 ltac:(lia) _ G20 ltac:(lia)) as (s4 & a4 & Hok4 & Hg4).
    assert (Hpp : owner (acct w (TokenVault.session_bridge s)) = portal).
    { destruct Hok as [_ _ _ Hb _ Hreg _ _ _ _ _ _ _]. by rewrite Hb. }
    destruct (tail (or_introl Hpp) _ _ _ _ _ Hok4 Hr) as (s5 & a5 & Hok5 & Hg5).
    exists s5, a5. split; [done|]. by eapply vault_grows_trans.
  - apply other_vault_unwatched with (1 := Hok) in Hts; [|done].
    pose proof (store_unwatched _ _ Hts _ _ _ _ _ Hok3 G20) as L4.
    destruct (left_alone_ok _ _ _ _ Hok3 L4) as (a4 & Hok4 & Ha4).
    exact (tail (or_intror Hts) _ _ _ _ _ Hok4 Hr).
Qed.

(** *** Every instruction *)

Lemma instruction_keeps accounts d : Keeps (TokenBridge.process_instruction v2 cx accounts d).
Proof.
  intros w x w' s a Hok Hr. unfold TokenBridge.process_instruction in Hr. mstep Hr as i w1 G1. mstep Hr as [] w1 G2.
  apply decoded_wf in G1. revert Hr. destruct i as [|o|n dd|n|n dd|g| |n dd|er ck n k dd| |b]; intros Hr.
  - exact (leaves_keeps _ (initialize_vault_leaves _) _ _ _ _ _ Hok Hr).
  - exact (leaves_keeps _ (initialize_er_leaves _ _) _ _ _ _ _ Hok Hr).
  - destruct G1 as [[Hn _] _]. exact (deposit_keeps_vault _ _ _ Hn _ _ _ _ _ Hok Hr).
  - exact (leaves_keeps _ (transfer_leaves _ _) _ _ _ _ _ Hok Hr).
  - destruct G1 as [[Hn _] _]. exact (withdraw_keeps_vault _ _ _ Hn _ _ _ _ _ Hok Hr).
  - exact (delegate_keeps_vault _ _ _ _ _ _ _ Hok Hr).
  - exact (undelegate_keeps_vault _ _ _ _ _ _ Hok Hr).
  - exact (leaves_keeps _ (start_withdrawal_leaves _ _ _) _ _ _ _ _ Hok Hr).
  - destruct G1 as (_ & _ & [Hn _] & _). exact (settle_keeps_vault _ _ _ _ _ _ Hn _ _ _ _ _ Hok Hr).
  - exact (request_keeps_vault _ _ _ _ _ _ Hok Hr).
  - exact (leaves_keeps _ (apply_leaves _ _) _ _ _ _ _ Hok Hr).
Qed.
End handlers.

(** ** The deployed programs *)

Section runs.
Context `{Groth16} (features : Features) (portal_v2 bridge_v2 : bool) (others : Programs).
Context (others_leave : ∀ p c accounts d, p ≠ portal → p ≠ program → is_signer c v = false →
  Leaves (others p c accounts d)).
Abbreviation programs := (deployed features portal_v2 bridge_v2 portal program others).

(** An instruction to the bridge, with [depth] nested calls allowed. *)
Definition bridge_call (depth : nat) (c : Ctx) (accounts : list Address) (d : list byte) : prog unit :=
  let _ : Programs := programs depth in TokenBridge.process_instruction bridge_v2 c accounts d.

Lemma bridge_call_keeps depth c accounts d :
  program_id c = program → (∀ b, b ∈ watched → is_signer c b = false) → Keeps (bridge_call depth c accounts d).
Proof.
  revert c accounts d. induction depth as [|n IH]; intros c accounts d Hp Hs;
    unfold bridge_call; apply (@instruction_keeps (programs _) _ features portal_v2); try done.
  - intros c' accounts' d' w r Hr. unfold run_program in Hr. cbn [deployed] in Hr.
    rewrite bool_decide_eq_false_2, bool_decide_eq_true_2 in Hr by done. done.
  - intros p c' accounts' d' Hne Hc Hs' w x w' s a Hok Hr. unfold run_program in Hr. cbn [deployed] in Hr.
    destruct (decide (p = program)) as [->|Hnp].
    + rewrite bool_decide_eq_true_2 in Hr by done. exact (IH c' accounts' d' Hc Hs' _ _ _ _ _ Hok Hr).
    + rewrite !bool_decide_eq_false_2 in Hr by done.
      exact (leaves_keeps _ (others_leave _ _ _ _ Hne Hnp (Hs' v (proj1 watched_members))) _ _ _ _ _ Hok Hr).
Qed.

(** Instructions to the bridge, with transactions of others before and between. *)
Inductive bridge_runs (depth : nat) : World → list (Ctx * list Address * list byte) → World → Prop :=
| bridge_idle w w' : left_alone w w' → bridge_runs depth w [] w'
| bridge_step w w1 x u w2 l w' :
    left_alone w w1 → bridge_call depth x.1.1 x.1.2 x.2 w1 = Ok (u, w2) → bridge_runs depth w2 l w' →
    bridge_runs depth w (x :: l) w'.

Definition bridge_call_safe (x : Ctx * list Address * list byte) : Prop :=
  program_id x.1.1 = program ∧ ∀ b, b ∈ watched → is_signer x.1.1 b = false.

Lemma bridge_call_safe_test x :
  program_id x.1.1 = program → is_signer x.1.1 v = false → is_signer x.1.1 tok = false → is_signer x.1.1 sb = false →
  bridge_call_safe x.
Proof. intros Hp Hv Ht Hs. split; [done|]. intros b Hb. unfold watched in Hb. rewrite !elem_of_cons in Hb.
  destruct Hb as [->|[->|[->|Hb%elem_of_nil]]]; assumption || by destruct Hb.
Qed.

Lemma bridge_runs_ok depth w l w' s a :
  bridge_runs depth w l w' → Forall bridge_call_safe l → vault_ok w s a →
  ∃ s' a', vault_ok w' s' a' ∧ vault_grows s s'.
Proof.
  intros Hr. revert s a. induction Hr as [w w' Hl|w w1 x u w2 l w' Hl Hc Hr IH]; intros s a Hs Hok.
  - destruct (left_alone_ok _ _ _ _ Hok Hl) as (a' & Hok' & _). exists s, a'. done.
  - apply Forall_cons_1 in Hs as [[Hp Hw] Hs]. destruct (left_alone_ok _ _ _ _ Hok Hl) as (a1 & Hok1 & _).
    destruct (bridge_call_keeps _ _ _ _ Hp Hw _ _ _ _ _ Hok1 Hc) as (s2 & a2 & Hok2 & Hg2).
    destruct (IH _ _ Hs Hok2) as (s3 & a3 & Hok3 & Hg3). exists s3, a3. split; [done|]. by eapply vault_grows_trans.
Qed.
End runs.

(** ** A new vault *)

Lemma initialize_vault_ok `{Programs} v2 cx payer sys rest w u w' a :
  program_id cx = program → payer ≠ v → length sb = 32%nat → length tok = 32%nat →
  owner (acct w tok) = token_program_id → spl_unpack_account (data (acct w tok)) = Some a → spl_delegate a = None →
  TokenBridge.process_initialize_vault v2 cx (payer :: v :: sb :: portal :: tok :: sys :: rest) w = Ok (u, w') →
  ∃ s, vault_ok w' s a ∧ TokenVault.deposited s = 0 ∧ TokenVault.withdrawn s = 0.
Proof.
  intros Hp Hpv Hls Hlt Hto Ha Hd Hr. unfold TokenBridge.process_initialize_vault in Hr.
  pose proof (find_bump_range [TokenVault.SEED_PREFIX; sb] (program_id cx)) as Hbr.
  unfold TokenBridge.find_token_vault_pda in Hr. destruct (find_program_address _ _) as [k bump].
  mstep Hr as [] w1 G1. mstep Hr as [] w1 G2. mstep Hr as b w1 G3. mstep Hr as [] w1 G4. mstep Hr as [] w1 G5.
  mstep Hr as t w1 G6. mstep Hr as [] w1 G7. mstep Hr as x w1 G8.
  destruct (lamports _ =? 0); [|apply bind_Ok in Hr as (? & ? & Hf & _); by apply fail_Ok in Hf].
  apply bind_Ok in Hr as ([] & w1 & G9 & Hr). bprop.
  unfold TokenBridge.unpack_token_account in G6. mstep G6 as y w2 G10. apply ok_or_Ok in G6 as [G6 _].
  assert (t = a) as -> by congruence.
  assert (Hreg : owner (acct w sb) = portal ∧ length (data (acct w sb)) ∈ [169%nat; 209%nat] ∧ wf borsh b).
  { clear Hr G9. unfold TokenBridge.load_session_bridge, owned_by in G3. mstep G3 as z w3 K1. mstep G3 as [] w3 K2. bprop.
    split; [done|]. apply bind_Ok in G3 as (b' & w3 & K3 & G3). mstep G3 as [] w4 K4. apply ret_Ok in G3 as [<- _].
    destruct v2.
    - mstep K3 as f w5 K5. apply ret_Ok in K3 as [<- _]. unfold TokenBridge.registration_v2 in K5. mstep K5 as f' w6 K6.
      destruct (find_session_bridge_v2_pda _ _ _). mstep K5 as [] w6 K7. apply ret_Ok in K5 as [<- _].
      pose proof (sized (n:=209) _ _ K6) as Hl. apply decoded_wf in K6 as (_ & ? & _). rewrite Hl. split; [set_solver|done].
    - apply load_Ok in K3 as [K3 _]. pose proof (sized (n:=169) _ _ K3) as Hl. apply decoded_wf in K3. rewrite Hl.
      split; [set_solver|done]. }
  destruct Hreg as (Hsb & Hsl & Hbw).
  set (s := TokenBridge.new_vault b sb tok bump) in *. apply store_full_Ok in Hr as [_ ->].
  assert (Hw : wf borsh s).
  { destruct Hbw as (_ & _ & ? & _ & _ & ? & _). assert (is_u64 0) by (unfold in_width, umax; lia).
    assert (is_u8 TokenVault.DISCRIMINATOR) by (unfold in_width, umax, TokenVault.DISCRIMINATOR; lia). wf_fields. }
  pose proof (create_pda_empty _ _ _ _ _ _ _ _ _ _ G9) as Hve.
  assert (v ≠ tok). { intros <-. apply spl_unpack_length in Ha. by rewrite Hve in Ha. }
  assert (v ≠ sb). { intros <-. rewrite Hve in Hsl. simpl in Hsl. set_solver. }
  assert (Et : acct w1 tok = acct w tok).
  { apply (create_pda_spares _ _ _ _ _ _ _ _ _ _ _ G9). intros E. apply spl_unpack_length in Ha. by rewrite E in Ha. }
  assert (Es : acct w1 sb = acct w sb).
  { apply (create_pda_spares _ _ _ _ _ _ _ _ _ _ _ G9). intros E. rewrite E in Hsl. simpl in Hsl. set_solver. }
  apply create_pda_Ok in G9 as ([m Ev] & _); [|done].
  exists s. split; [|done]. split; rewrite ?acct_put_eq, ?acct_put_ne by done; cbn [owner data with_data]; rewrite ?Et, ?Es, ?Ev;
    try done; [by apply try_from_slice_enc|]. simpl. apply spl_amount_range in Ha as [? _]. lia.
Qed.
End invariant.
