(* ===== verification/Flows.v ===== *)
(** * Token flows

    What the token bridge's instructions do to balances and counters: deposits,
    the crediting of deposits inside the rollup, transfers between users,
    settled withdrawals, and delegation together with the Portal. *)

From Stdlib Require Import ZArith Lia.
From Stdlib Require Import Strings.Byte.
From stdpp Require Import base gmap list numbers.
From S2P Require Import Prelude Borsh Events Runtime State Commitments Frames Toy Pda Instruction Verifier SessionOps Delegation Settlement Checkpoint Ingress TokenWithdrawal BridgeState Continuity Dispatch Bridge ToySpl BridgeSpec Vault.

(** ** State in accounts *)

Section accounts.
Context `{HostLaws, Spl, !SplLaws}.

Definition vault_at (w : World) (a : Address) (s : TokenVault.t) : Prop := try_from_slice (data (acct w a)) = Some s.
Definition er_at (w : World) (a : Address) (s : ErTokenAccount.t) : Prop := try_from_slice (data (acct w a)) = Some s.
Definition receipt_at (w : World) (a : Address) (s : TokenDepositReceipt.t) : Prop := try_from_slice (data (acct w a)) = Some s.
Definition tokens_at (w : World) (a : Address) (s : SplAccount) : Prop := spl_unpack_account (data (acct w a)) = Some s.

(** Accounts of different sizes are different accounts. *)
Lemma sizes_differ w a b : length (data (acct w a)) ≠ length (data (acct w b)) → a ≠ b.
Proof. congruence. Qed.
Lemma vault_size w a s : vault_at w a s → length (data (acct w a)) = 146%nat.
Proof. apply sized. Qed.
Lemma er_size w a s : er_at w a s → length (data (acct w a)) = 106%nat.
Proof. apply sized. Qed.
Lemma tokens_size w a s : tokens_at w a s → length (data (acct w a)) = 165%nat.
Proof. apply spl_unpack_length. Qed.
Lemma auth_size w a s : auth_at w a s → length (data (acct w a)) = 74%nat.
Proof. apply sized. Qed.

(** Storing a state and reading it back. *)
Lemma store_at {A} `{!Borsh A, !CodecOk (borsh (A:=A))} a (x : A) w u w' :
  wf borsh x → TokenBridge.store a x w = Ok (u, w') →
  try_from_slice (data (acct w' a)) = Some x ∧ owner (acct w' a) = owner (acct w a) ∧ ∀ b, b ≠ a → acct w' b = acct w b.
Proof.
  intros Hw [_ ->]%store_full_Ok. rewrite acct_put_eq. split_and!; [by apply try_from_slice_enc|done|].
  intros b Hb. by rewrite acct_put_ne.
Qed.

Lemma with_amount_wf n s : is_u64 n → wf borsh s → wf borsh (TokenBridge.with_amount n s).
Proof. intros Hn (?&?&?&?&?&?). wf_fields. Qed.
Lemma with_withdrawn_wf n s : is_u64 n → wf borsh s → wf borsh (TokenBridge.with_withdrawn n s).
Proof. intros Hn (?&?&?&?&?&?&?&?). wf_fields. Qed.
Lemma with_deposited_wf n s : is_u64 n → wf borsh s → wf borsh (TokenBridge.with_deposited n s).
Proof. intros Hn (?&?&?&?&?&?&?&?). wf_fields. Qed.
Lemma with_receipt_balance_wf n s : is_u64 n → wf borsh s → wf borsh (TokenBridge.with_receipt_balance n s).
Proof. intros Hn (?&?&?&?&?&?). wf_fields. Qed.

Lemma er_amount_range w a s : er_at w a s → is_u64 (ErTokenAccount.amount s).
Proof. intros Hs. apply decoded_wf in Hs as (_ & _ & _ & _ & Hn & _). exact Hn. Qed.
Lemma vault_counters_range w a s : vault_at w a s → is_u64 (TokenVault.deposited s) ∧ is_u64 (TokenVault.withdrawn s).
Proof. intros Hs. apply decoded_wf in Hs as (_ & _ & _ & _ & _ & Hd & Hw & _). by split. Qed.

Lemma receipt_balance_range (r : TokenDepositReceipt.t) : wf borsh r → is_u64 (TokenDepositReceipt.balance r).
Proof. intros (_ & _ & _ & Hb & _). exact Hb. Qed.

(** A transfer of the Token program between two of its accounts. *)
Definition tokens_move (w w' : World) (source destination : Address) (n : Z) : Prop :=
  owner (acct w source) = token_program_id ∧ owner (acct w destination) = token_program_id ∧
  ∃ a b a' b', tokens_at w source a ∧ tokens_at w destination b ∧ tokens_at w' source a' ∧ tokens_at w' destination b' ∧
    n ≤ spl_amount a ∧
    if decide (source = destination) then spl_amount a' = spl_amount a
    else spl_amount a' = spl_amount a - n ∧ spl_amount b' = spl_amount b + n.

Lemma TransferChecked_moves cx signer source mint dest auth n d w u w' :
  TransferChecked cx signer source mint dest auth n d w = Ok (u, w') →
  tokens_move w w' source dest n ∧
  (∀ x, length (data (acct w x)) ≠ 165%nat → acct w' x = acct w x) ∧ ∀ x, length (data (acct w x)) = 165%nat → length (data (acct w' x)) = 165%nat.
Proof.
  intros [Hr _]%TransferChecked_Ok.
  apply transfer_checked_Ok in Hr as (a & b & a' & b' & ? & ? & Ha & Hb & _ & _ & _ & _ & Hn & _ & _ & Ha' & Hb' & _ & _ & _ & _ & _ & _ & Hm & Hf).
  pose proof (tokens_size _ _ _ Ha). pose proof (tokens_size _ _ _ Hb).
  split_and!; [split_and!; [done..|by exists a, b, a', b']|intros x Hx; apply Hf; congruence|].
  intros x Hx. destruct (decide (x = source)) as [->|]; [by eapply tokens_size|].
  destruct (decide (x = dest)) as [->|]; [by eapply tokens_size|]. by rewrite Hf.
Qed.
Lemma tokens_move_same w0 w w' w1 source destination n :
  tokens_move w w' source destination n → acct w0 source = acct w source → acct w0 destination = acct w destination →
  acct w1 source = acct w' source → acct w1 destination = acct w' destination → tokens_move w0 w1 source destination n.
Proof.
  intros (? & ? & a & b & a' & b' & Ha & Hb & Ha' & Hb' & Hn) E1 E2 E3 E4.
  split_and!; [congruence..|]. exists a, b, a', b'. unfold tokens_at in *. rewrite E1, E2, E3, E4. done.
Qed.
End accounts.

(** ** Transfers between users *)

Section transfer.
Context `{HostLaws, Spl, !SplLaws, Programs} (v2 : bool) (cx : Ctx).

Lemma process_transfer_Ok authority source destination rest n w u w' :
  0 ≤ n → TokenBridge.process_transfer cx (authority :: source :: destination :: rest) n w = Ok (u, w') →
  ∃ s d, is_signer cx authority = true ∧ ErTokenAccount.owner s = authority ∧ source ≠ destination ∧
    ErTokenAccount.session_bridge s = ErTokenAccount.session_bridge d ∧ ErTokenAccount.mint s = ErTokenAccount.mint d ∧
    er_at w source s ∧ er_at w destination d ∧ n ≤ ErTokenAccount.amount s ∧
    er_at w' source (TokenBridge.with_amount (ErTokenAccount.amount s - n) s) ∧
    er_at w' destination (TokenBridge.with_amount (ErTokenAccount.amount d + n) d) ∧
    ∀ b, b ≠ source → b ≠ destination → acct w' b = acct w b.
Proof.
  intros Hn Hr. unfold TokenBridge.process_transfer in Hr. mstep Hr as [] w1 G1. mstep Hr as [] w1 G2.
  mstep Hr as s w1 G3. apply load_er_token_account_Ok in G3 as (_ & G3 & _). mstep Hr as d w1 G4.
  apply load_er_token_account_Ok in G4 as (_ & G4 & _). mstep Hr as [] w1 G5. mstep Hr as k w1 G6. mstep Hr as m w1 G7.
  apply checked_sub_Some in G6 as [-> G6]. apply checked_add_Some in G7 as [-> G7].
  apply err_if_Ok in G1 as [G1 _]. bprop.
  pose proof (er_amount_range _ _ _ G3) as Hsr. pose proof (er_amount_range _ _ _ G4) as Hdr.
  assert (is_u64 (ErTokenAccount.amount s - n)) by (unfold in_width in *; lia).
  assert (is_u64 (ErTokenAccount.amount d + n)) by (unfold in_width in *; lia).
  apply bind_Ok in Hr as ([] & w1 & G8 & Hr).
  apply store_at in G8 as (E1 & _ & F1); [|by eapply with_amount_wf, decoded_wf].
  apply store_at in Hr as (E2 & _ & F2); [|by eapply with_amount_wf, decoded_wf].
  exists s, d. split_and!; try done.
  - unfold er_at. by rewrite F2.
  - intros b ??. by rewrite F2, F1.
Qed.
End transfer.

(** ** Settled withdrawals *)

Section settle.
Context `{HostLaws, Groth16, Spl, !SplLaws, Programs} (features : Features) (portal_v2 v2 : bool) (cx : Ctx) (portal : Address).
Context (portal_runs : ∀ c accounts d w r, run_program portal c accounts d w = Ok r →
  process_instruction features portal_v2 c accounts d w = Ok r).

Lemma consume_bytes er_slot checksum amount withdrawn decimals :
  TokenBridge.encode_portal_consume_token_withdrawal er_slot checksum amount withdrawn decimals =
  PortalInstruction.serialize (PortalInstruction.ConsumeTokenWithdrawal
    (ConsumeTokenWithdrawal.mk er_slot checksum amount withdrawn decimals)).
Proof. reflexivity. Qed.

(** The Portal's part of the payment. *)
Definition authorization_used (w w' : World) (session sb vault er vta dst mint tp checkpoint authorization : Address)
    (er_slot : Z) (checksum : Hash32) (amount withdrawn decimals : Z) : Prop :=
  ∃ x c b, auth_at w authorization x ∧ TokenWithdrawalAuthorization.consumed x = false ∧
    TokenWithdrawalAuthorization.checkpoint x = checkpoint ∧
    TokenWithdrawalAuthorization.tuple_hash x =
      token_withdrawal_tuple_hash (withdrawal_of b sb er vault vta dst mint tp amount withdrawn decimals) ∧
    try_from_slice (data (acct w checkpoint)) = Some c ∧ Checkpoint.status c = CheckpointStatus.Settled ∧
    Checkpoint.er_slot c = er_slot ∧ Checkpoint.effect_commitment c = checksum ∧
    auth_at w' authorization (with_consumed x).

Lemma consume_call validator session ck a sb vault er vta dst mint tp er_slot checksum n k d seeds w u w' :
  wf borsh (ConsumeTokenWithdrawal.mk er_slot checksum n k d) →
  invoke_signed cx portal
    [(validator, true, false); (session, false, false); (ck, false, false); (a, false, true); (sb, false, false);
     (vault, true, false); (er, false, false); (vta, false, false); (dst, false, false); (mint, false, false);
     (tp, false, false)] (TokenBridge.encode_portal_consume_token_withdrawal er_slot checksum n k d) seeds w = Ok (u, w') →
  authorization_used w w' session sb vault er vta dst mint tp ck a er_slot checksum n k d ∧
  ∀ b, b ≠ a → acct w' b = acct w b.
Proof.
  intros Hwf [Hr _]%invoke_signed_Ok. apply portal_runs in Hr. rewrite consume_bytes in Hr.
  rewrite process_instruction_serialize in Hr by done. cbn [handle fmap list_fmap fst] in Hr.
  apply process_consume_token_withdrawal_Ok in Hr as (b & x & c & _ & _ & _ & Hc & Hcs & Hce & Hcc & Hx & Hxc & Hxk & Hxt & Hx' & Hf).
  split; [|done]. by exists x, c, b.
Qed.

Lemma process_settle_withdrawal_Ok validator session ck a sb vault er vta dst mint tp rest er_slot checksum n k d w u w' :
  wf borsh (ConsumeTokenWithdrawal.mk er_slot checksum n k d) →
  TokenBridge.process_settle_withdrawal v2 cx
    (validator :: session :: ck :: a :: sb :: portal :: vault :: er :: vta :: dst :: mint :: tp :: rest)
    er_slot checksum n k d w = Ok (u, w') →
  ∃ s, vault_at w vault s ∧
  (k ≤ TokenVault.withdrawn s ∧ w' = w ∨
   k = TokenVault.withdrawn s + n ∧ k ≤ TokenVault.deposited s ∧ TokenVault.withdrawn s < k ∧
   authorization_used w w' session sb vault er vta dst mint tp ck a er_slot checksum n k d ∧
   tokens_move w w' vta dst n ∧ vault_at w' vault (TokenBridge.with_withdrawn k s)).
Proof.
  intros Hwf Hr. unfold TokenBridge.process_settle_withdrawal in Hr. mstep Hr as [] w1 G1. mstep Hr as b w1 G2.
  mstep Hr as s w1 G3. apply load_vault_Ok in G3 as (_ & Hs & _).
  exists s. split; [done|]. mstep Hr as [] w1 G4. mstep Hr as sp w1 G5. mstep Hr as [] w1 G6.
  destruct (_ <=? _) eqn:Hle; [left; apply ret_Ok in Hr as [_ ->]; split; [lia|done]|right]. apply Z.leb_gt in Hle.
  mstep Hr as m w1 G7. apply checked_add_Some in G7 as [-> G7]. mstep Hr as [] w1 G8. mstep Hr as [] w1 G9.
  unfold TokenBridge.pay_withdrawal in Hr. cbv zeta in Hr. mstep Hr as sx w1 G10.
  apply load_settlement_owner in G2 as [_ Hso]. rewrite Hso in Hr. clear Hso G4 G6 G9.
  apply bind_Ok in Hr as ([] & w1 & G11 & Hr). apply bind_Ok in Hr as ([] & w2 & G12 & Hr). bprop.
  apply consume_call in G11 as [(x & c & b' & Hx & Hau) F1]; [|done].
  pose proof (vault_size _ _ _ Hs) as Lv. pose proof (auth_size _ _ _ Hx) as La.
  destruct Hau as (Hxc & Hxk & Hxt & Hc & Hcs & Hce & Hcc & Hx').
  assert (Lx : length (data (acct w1 a)) = 74%nat) by (by eapply auth_size).
  assert (Ev : acct w1 vault = acct w vault) by (apply F1; intros ->; congruence).
  apply TransferChecked_moves in G12 as (Hm & F2 & L2).
  assert (Ev2 : acct w2 vault = acct w vault) by (rewrite F2; congruence).
  apply store_at in Hr as (Ek & _ & F3).
  2: { apply with_withdrawn_wf; [|by eapply decoded_wf]. destruct Hwf as (_ & _ & _ & Hk & _). exact Hk. }
  assert (Hd : ∀ y, length (data (acct w1 y)) = 165%nat → acct w1 y = acct w y ∧ acct w' y = acct w2 y).
  { intros y Hy. split; [apply F1; congruence|]. apply F3. intros ->. rewrite Ev in Hy. congruence. }
  assert (Hva : a ≠ vault) by congruence.
  split_and!; [done|lia|lia| | |done].
  - exists x, c, b'. split_and!; try done. unfold auth_at. rewrite F3, F2 by congruence. done.
  - pose proof Hm as (_ & _ & p & q & p' & q' & Hp & Hq & Hp' & Hq' & _).
    destruct (Hd vta (tokens_size _ _ _ Hp)), (Hd dst (tokens_size _ _ _ Hq)).
    by apply (tokens_move_same w w1 w2 w').
Qed.
End settle.

(** ** Deposits *)

(** What a deposit receipt counts; an account that is not yet a receipt counts
    nothing. *)
Definition receipt_value (w : World) (a : Address) : Z :=
  match data (acct w a) with
  | [] => 0
  | b :: _ => if byte_val b =? 0 then 0
              else default 0 (TokenDepositReceipt.balance <$> (try_from_slice (data (acct w a)) : option TokenDepositReceipt.t))
  end.

Section deposit.
Context `{HostLaws, Groth16, Spl, !SplLaws, Programs} (features : Features) (portal_v2 v2 : bool) (cx : Ctx) (portal : Address).
Context (portal_runs : ∀ c accounts d w r, run_program portal c accounts d w = Ok r →
  process_instruction features portal_v2 c accounts d w = Ok r).

Lemma receipt_at_value w a r : receipt_at w a r → TokenDepositReceipt.is_valid r = true → receipt_value w a = TokenDepositReceipt.balance r.
Proof.
  unfold receipt_at, receipt_value. intros Hr Hv. rewrite Hr. apply try_from_slice_Some in Hr as [Hw Hd]. rewrite Hd.
  unfold TokenDepositReceipt.is_valid, TokenDepositReceipt.DISCRIMINATOR in Hv. bprop. destruct r. simpl in Hv. by subst.
Qed.

Lemma open_receipt_spec payer sb er r bump sys w x w' :
  payer ≠ r → is_u8 bump → is_key sb → is_key er → TokenBridge.open_receipt cx payer sb er r bump sys w = Ok (x, w') →
  TokenDepositReceipt.is_valid x = true ∧ wf borsh x ∧ TokenDepositReceipt.balance x = receipt_value w r ∧
  (∀ b, data (acct w b) ≠ [] → acct w' b = acct w b).
Proof.
  intros Hp Hbu Hsb Her Hr. unfold TokenBridge.open_receipt in Hr. mstep Hr as y w1 G1. apply bind_Ok in Hr as ([] & w1 & G2 & Hr).
  mstep Hr as z w2 G3. apply bind_Ok in Hr as (q & w2 & G4 & Hr). mstep Hr as [] w3 G5. apply ret_Ok in Hr as [-> ->].
  split; [by bprop|clear G5]. assert (F : ∀ b, data (acct w b) ≠ [] → acct w1 b = acct w b).
  { intros b Hb. destruct (_ =? 0); [by apply (create_pda_spares _ _ _ _ _ _ _ _ _ _ _ G2)|by apply err_if_Ok in G2 as [_ ->]]. }
  assert (E : data (acct w1 r) = data (acct w r) ∨ data (acct w r) = [] ∧ ∃ l, data (acct w1 r) = x00 :: l).
  { destruct (_ =? 0); [|apply err_if_Ok in G2 as [_ ->]; by left]. right. apply create_pda_Ok in G2 as ([n ->] & ? & _); [|done].
    split; [done|]. cbn. eauto. }
  unfold receipt_value.
  assert (Hi : wf borsh (TokenDepositReceipt.mk TokenDepositReceipt.DISCRIMINATOR sb er 0 0 bump)).
  { assert (is_u64 0) by (unfold in_width, umax; lia).
    assert (is_u8 TokenDepositReceipt.DISCRIMINATOR) by (unfold in_width, umax, TokenDepositReceipt.DISCRIMINATOR; lia). wf_fields. }
  destruct E as [E|[E [l E']]].
  - rewrite <- E. destruct (data (acct w1 r)) as [|h l] eqn:Eh; [by apply fail_Ok in G4|]. destruct (byte_val h =? 0).
    + apply ret_Ok in G4 as [<- ->]. done.
    + apply load_Ok in G4 as [G4 ->]. rewrite Eh in G4. rewrite G4. split; [by eapply decoded_wf|done].
  - rewrite E' in G4. rewrite E. apply ret_Ok in G4 as [<- ->]. done.
Qed.

Lemma open_receipt_funded payer sb er r bump sys w x w' :
  TokenBridge.open_receipt cx payer sb er r bump sys w = Ok (x, w') → lamports (acct w r) = 0 ∨ owner (acct w r) = program_id cx.
Proof.
  intros Hr. unfold TokenBridge.open_receipt in Hr. mstep Hr as y w1 G1. apply bind_Ok in Hr as ([] & w1 & G2 & Hr).
  destruct (_ =? 0) eqn:E; [left; by apply Z.eqb_eq|right]. apply err_if_Ok in G2 as [G2 _]. unfold owned_by in G2. by bprop.
Qed.

Lemma record_call y bump n w u w' c :
  TokenBridge.di_portal y = portal → TokenBridge.append cx y bump n w = Ok (u, w') →
  length (data (acct w c)) ∈ [82%nat; 106%nat; 146%nat; 165%nat] → acct w' c = acct w c.
Proof.
  unfold TokenBridge.append. intros -> [Hr _]%invoke_signed_Ok Hl. apply portal_runs in Hr.
  apply (record_spares _ _ _ _ _ _ _ _ _ Hr); [intros E|intros E]; rewrite E in Hl; simpl in Hl; set_solver.
Qed.

(** The part of a deposit that moves the tokens and counts them. *)
Lemma counted_deposit payer sb er receipt bump sys vault signer src mint vta o n d s w w1 w2 w3 w4 x u1 u3 u4 :
  0 ≤ n → payer ≠ receipt → is_u8 bump → is_key sb → is_key er → vault_at w vault s →
  TransferChecked cx signer src mint vta o n d w = Ok (u1, w1) →
  TokenBridge.open_receipt cx payer sb er receipt bump sys w1 = Ok (x, w2) →
  TokenDepositReceipt.balance x + n ≤ umax 64 → TokenVault.deposited s + n ≤ umax 64 →
  TokenBridge.store receipt (TokenBridge.with_receipt_balance (TokenDepositReceipt.balance x + n) x) w2 = Ok (u3, w3) →
  TokenBridge.store vault (TokenBridge.with_deposited (TokenVault.deposited s + n) s) w3 = Ok (u4, w4) →
  tokens_move w w4 src vta n ∧ vault_at w4 vault (TokenBridge.with_deposited (TokenVault.deposited s + n) s) ∧
  (∃ y, receipt_at w4 receipt y ∧ TokenDepositReceipt.is_valid y = true ∧
     TokenDepositReceipt.balance y = receipt_value w receipt + n) ∧
  (lamports (acct w receipt) = 0 ∨ owner (acct w receipt) = program_id cx) ∧
  ∀ b, length (data (acct w b)) = 106%nat → acct w4 b = acct w b.
Proof.
  intros Hn Hp Hbu Hsb Her Hs G1 G2 Hrm Hsm G3 G4. apply TransferChecked_moves in G1 as (Hm & F1 & L1).
  pose proof (open_receipt_funded _ _ _ _ _ _ _ _ _ G2) as Hfund.
  apply open_receipt_spec in G2 as (Hv & Hw & Hb & F2); [|done..].
  pose proof (vault_size _ _ _ Hs) as Lv.
  pose proof (receipt_balance_range _ Hw) as Hxr. pose proof (vault_counters_range _ _ _ Hs) as [Hdr _].
  assert (Hw' : wf borsh (TokenBridge.with_receipt_balance (TokenDepositReceipt.balance x + n) x))
    by (apply with_receipt_balance_wf; [unfold in_width in *; lia|done]).
  assert (Lr : length (data (acct w2 receipt)) = 82%nat).
  { apply store_full_Ok in G3 as [G3 _]. rewrite G3. by apply (codec_size (n:=82)). }
  assert (Lr1 : length (data (acct w1 receipt)) ≠ 165%nat).
  { intros E. rewrite F2 in Lr; [congruence|]. intros E'. by rewrite E' in E. }
  assert (Er : acct w1 receipt = acct w receipt) by (apply F1; auto).
  apply store_at in G3 as (E3 & _ & F3); [|done].
  apply store_at in G4 as (E4 & _ & F4); [|apply with_deposited_wf; [unfold in_width in *; lia|by eapply decoded_wf]].
  assert (K : ∀ b, length (data (acct w1 b)) ∈ [106%nat; 146%nat; 165%nat] → acct w3 b = acct w1 b).
  { intros b Hl. assert (E : acct w2 b = acct w1 b) by (apply F2; intros E; rewrite E in Hl; simpl in Hl; set_solver).
    rewrite F3; [done|]. intros ->. rewrite <- E, Lr in Hl. set_solver. }
  assert (Ev : acct w3 vault = acct w vault).
  { rewrite K; [apply F1; lia|]. rewrite F1 by lia. rewrite Lv. set_solver. }
  assert (K4 : ∀ b, length (data (acct w1 b)) ∈ [106%nat; 165%nat] → acct w4 b = acct w1 b).
  { intros b Hl. rewrite F4; [apply K; set_solver|]. intros ->. rewrite F1, Lv in Hl by lia. set_solver. }
  split_and!; [|done| |by rewrite <- Er|].
  - pose proof Hm as (_ & _ & p & q & p' & q' & Hq1 & Hq2 & Hp' & Hq' & _). apply (tokens_move_same w w w1 w4); try done; apply K4.
    + rewrite (L1 src) by (by eapply tokens_size). set_solver.
    + rewrite (L1 vta) by (by eapply tokens_size). set_solver.
  - eexists. unfold receipt_at. rewrite F4; [|intros ->; rewrite Ev in E3; apply (sized (n:=82)) in E3; congruence].
    split; [exact E3|]. split; [done|]. unfold receipt_value in *. rewrite <- Er. by rewrite <- Hb.
  - intros b Hl. rewrite K4; [apply F1; lia|]. rewrite F1 by lia. rewrite Hl. set_solver.
Qed.

Lemma process_deposit_Ok payer o vault er sb src vta mint tp receipt record sys rest n d w u w' :
  0 ≤ n → payer ≠ receipt → is_key er →
  TokenBridge.process_deposit v2 cx
    (payer :: o :: vault :: er :: sb :: portal :: src :: vta :: mint :: tp :: receipt :: record :: sys :: rest) n d w = Ok (u, w') →
  ∃ s e, vault_at w vault s ∧ er_at w er e ∧ is_signer cx o = true ∧ ErTokenAccount.owner e = o ∧
    TokenVault.vault_token_account s = vta ∧ tokens_move w w' src vta n ∧
    vault_at w' vault (TokenBridge.with_deposited (TokenVault.deposited s + n) s) ∧
    receipt_value w' receipt = receipt_value w receipt + n ∧
    (lamports (acct w receipt) = 0 ∨ owner (acct w receipt) = program_id cx) ∧
    er_at w' er (if owned_by (acct w er) portal then e else TokenBridge.with_amount (ErTokenAccount.amount e + n) e).
Proof.
  intros Hn Hp Her Hr. unfold TokenBridge.process_deposit in Hr.
  pose proof (find_bump_range [TokenDepositReceipt.SEED_PREFIX; sb; er] (program_id cx)) as Hbr.
  unfold TokenBridge.find_token_deposit_receipt_pda in Hr. destruct (find_program_address _ _) as [k bump].
  apply bind_Ok in Hr as (ii & w1 & G0 & Hr). assert (w1 = w) as -> by (exact (read_only _ _ _ G0)).
  mstep Hr as [] w1 G1. mstep Hr as [] w1 G2. mstep Hr as [] w1 G3. mstep Hr as b w1 G4.
  mstep Hr as s w1 G5.
  mstep Hr as [] w1 G6. apply err_if_Ok in G6 as [G6 _]. mstep Hr as e w1 G7. apply load_er_token_account_data_Ok in G7 as [He _].
  mstep Hr as [] w1 G8. apply err_if_Ok in G8 as [G8 _]. apply bind_Ok in Hr as ([] & w1 & G9 & Hr).
  assert (w1 = w) as -> by (destruct ii as [[[[??]?]?]|]; exact (read_only _ _ _ G9)).
  mstep Hr as ex w1 G10. mstep Hr as [] w1 G11. apply bind_Ok in Hr as ([] & w1 & G12 & Hr).
  assert (w1 = w) as -> by (exact (read_only _ _ _ G12)). clear G3 G4 G9 G11 G12.
  mstep Hr as [] w1 G13. mstep Hr as [] w1 G14. apply bind_Ok in Hr as ([] & w1 & G15 & Hr).
  apply bind_Ok in Hr as (r & w2 & G16 & Hr). mstep Hr as bal w3 G17. apply bind_Ok in Hr as ([] & w3 & G18 & Hr).
  mstep Hr as dep w4 G19. apply bind_Ok in Hr as ([] & w4 & G20 & Hr).
  apply load_vault_Ok in G5 as (_ & Hs & _ & Hsb & _).
  apply checked_add_Some in G17 as [-> Hrm], G19 as [-> Hsm].
  assert (Hks : is_key sb). { pose proof (decoded_wf _ _ Hs) as (_ & Hk & _). rewrite <- Hsb. exact Hk. }
  destruct (counted_deposit _ _ _ _ _ _ _ _ _ _ _ _ _ _ _ _ _ _ _ _ _ _ _ _ Hn Hp Hbr Hks Her Hs G15 G16 Hrm Hsm G18 G20)
    as (Hm & Hv & (y & Hy & Hyv & Hyb) & Hfund & F).
  pose proof (er_size _ _ _ He) as Le. pose proof (F er Le) as Ee. pose proof (vault_size _ _ _ Hv) as Lv.
  assert (Ly : length (data (acct w4 receipt)) = 82%nat) by (by eapply (sized (n:=82))).
  assert (T : er_at w' er (if owned_by (acct w er) portal then e else TokenBridge.with_amount (ErTokenAccount.amount e + n) e) ∧
    ∀ c, length (data (acct w4 c)) ∈ [82%nat; 146%nat; 165%nat] → acct w' c = acct w4 c).
  { unfold er_at in *. destruct (owned_by _ _).
    - destruct ii as [[[[??]?]?]|].
      + pose proof (λ c E, record_call _ _ _ _ _ _ c E Hr) as R. cbn [TokenBridge.di_portal] in R.
        split; [|intros c Hc; apply R; [done|set_solver]]. rewrite R; rewrite ?Ee; [done..|]. rewrite Le. set_solver.
      + apply ret_Ok in Hr as [_ ->]. by rewrite Ee.
    - mstep Hr as m w5 G21. apply checked_add_Some in G21 as [-> Hem].
      pose proof (er_amount_range _ _ _ He). apply store_at in Hr as (E5 & _ & F5).
      2: { apply with_amount_wf; [unfold in_width in *; lia|by eapply decoded_wf]. }
      split; [done|]. intros c Hc. apply F5. intros ->. rewrite Ee, Le in Hc. set_solver. }
  destruct T as [Te F4]. apply err_if_Ok in G2 as [G2 _]. clear Hr G0 G15 G16 G18 G20 Hbr. bprop.
  exists s, e. split_and!; try done.
  - pose proof Hm as (_ & _ & p & q & p' & q' & _ & _ & Hp' & Hq' & _). apply (tokens_move_same w w w4 w'); try done; apply F4.
    + erewrite tokens_size by done. set_solver.
    + erewrite tokens_size by done. set_solver.
  - unfold vault_at. rewrite F4; [done|]. rewrite Lv. set_solver.
  - rewrite <- Hyb. apply receipt_at_value; [|done]. unfold receipt_at. rewrite F4; [done|]. rewrite Ly. set_solver.
Qed.
End deposit.

(** ** Crediting deposits *)

Section credit.
Context `{HostLaws, Spl, !SplLaws, Programs} (v2 : bool) (cx : Ctx).

Definition progress_at (w : World) (a : Address) (p : TokenDepositProgress.t) : Prop := try_from_slice (data (acct w a)) = Some p.

(** What has been applied under a cursor; a cursor that does not exist stands at
    the baseline. *)
Definition cursor_value (program : Address) (baseline : Z) (w : World) (cursor : Address) : Z :=
  if owner (acct w cursor) == program
  then default 0 (TokenDepositProgress.balance <$> (try_from_slice (data (acct w cursor)) : option TokenDepositProgress.t))
  else baseline.

Lemma load_progress_Ok cursor baseline bump w p w' :
  is_u64 baseline → is_u8 bump → TokenBridge.load_progress cx cursor baseline bump w = Ok (p, w') →
  wf borsh p ∧ TokenDepositProgress.balance p = cursor_value (program_id cx) baseline w cursor ∧
  (owner (acct w cursor) = program_id cx → length (data (acct w cursor)) = 10%nat).
Proof.
  intros Hb Hbu Hr. unfold TokenBridge.load_progress, owned_by in Hr. unfold cursor_value. mstep Hr as x w1 G1.
  destruct (_ == _) eqn:E.
  - mstep Hr as q w1 G2. apply load_Ok in G2 as [G2 _]. mstep Hr as [] w1 G3. apply ret_Ok in Hr as [<- _]. rewrite G2.
    split_and!; [by eapply decoded_wf|done|intros _; by eapply (sized (n:=10))].
  - apply ret_Ok in Hr as [<- _]. bprop. split_and!; [|done|done].
    assert (is_u8 TokenDepositProgress.CURSOR_DISCRIMINATOR) by (unfold in_width, umax, TokenDepositProgress.CURSOR_DISCRIMINATOR; lia).
    wf_fields.
Qed.

Lemma receipt_value_range w a : is_u64 (receipt_value w a).
Proof.
  assert (is_u64 0) by (unfold in_width, umax; lia). unfold receipt_value. destruct (data _) as [|h l]; [done|].
  destruct (_ =? 0); [done|]. destruct (try_from_slice _) as [r|] eqn:E; [|done]. by eapply receipt_balance_range, decoded_wf.
Qed.

Lemma receipt_balance_Ok bridge account receipt w n w' :
  TokenBridge.receipt_balance cx bridge account receipt w = Ok (n, w') → n = 0 ∨ n = receipt_value w receipt.
Proof.
  intros Hr. unfold TokenBridge.receipt_balance in Hr. destruct (find_program_address _ _).
  mstep Hr as [] w1 G1. mstep Hr as x w1 G2. destruct (_ =? 0); [apply ret_Ok in Hr as [<- _]; by left|right].
  mstep Hr as [] w1 G3. mstep Hr as r w1 G4. apply load_Ok in G4 as [G4 _]. mstep Hr as [] w1 G5. apply ret_Ok in Hr as [<- _].
  bprop. symmetry. by apply receipt_at_value.
Qed.

Lemma apply_Ok payer account bridge portal session delegation receipt origin cursor system rest b w u w' :
  payer ≠ cursor →
  TokenBridge.apply v2 cx
    (payer :: account :: bridge :: portal :: session :: delegation :: receipt :: origin :: cursor :: system :: rest) b w = Ok (u, w') →
  ∃ s base, er_at w account s ∧ progress_at w origin base ∧
    let p := cursor_value (program_id cx) (TokenDepositProgress.balance base) w cursor in
    p < b ∧ b ≤ receipt_value w receipt ∧
    er_at w' account (TokenBridge.with_amount (ErTokenAccount.amount s + (b - p)) s) ∧
    cursor_value (program_id cx) (TokenDepositProgress.balance base) w' cursor = b ∧ owner (acct w' cursor) = program_id cx.
Proof.
  intros Hpc Hr. unfold TokenBridge.apply in Hr.
  mstep Hr as [] w1 G1. mstep Hr as [] w1 G2. mstep Hr as bs w1 G3. mstep Hr as x w1 G4. destruct x as [ss reg].
  mstep Hr as [] w1 G5. mstep Hr as s w1 G6. mstep Hr as [] w1 G7. mstep Hr as rec w1 G8. mstep Hr as [] w1 G9.
  mstep Hr as [] w1 G10. mstep Hr as av w1 G11. destruct (find_program_address _ _) as [eo ob].
  mstep Hr as ox w1 G12. mstep Hr as [] w1 G13. mstep Hr as base w1 G14. apply load_Ok in G14 as [G14 _].
  mstep Hr as [] w1 G15. cbv zeta in Hr. destruct (find_program_address _ _) as [ec bump] eqn:Ef.
  assert (Hbu : is_u8 bump).
  { match type of Ef with ?f = _ => change bump with (ec, bump).2; rewrite <- Ef; apply find_bump_range end. }
  mstep Hr as [] w1 G16. mstep Hr as p w1 G17. mstep Hr as [] w1 G18. apply bind_Ok in Hr as ([] & w1 & G19 & Hr).
  assert (w1 = w) as -> by (destruct reg; exact (read_only _ _ _ G19)). clear G19.
  mstep Hr as m w1 G20. apply checked_add_Some in G20 as [-> Hm]. mstep Hr as c0 w1 G21.
  apply load_er_token_account_Ok in G6 as (_ & Hs & _). apply receipt_balance_Ok in G11.
  pose proof (decoded_wf _ _ G14) as (_ & Hbase & _). change (is_u64 (TokenDepositProgress.balance base)) in Hbase.
  apply load_progress_Ok in G17 as (Hpw & Hpv & Hpl); [|done..]. apply orb_false_iff in G18 as [G18 G18'].
  apply Z.ltb_ge in G18. apply Z.leb_gt in G18'. pose proof Hpw as (_ & Hpr & _). change (is_u64 (TokenDepositProgress.balance p)) in Hpr.
  pose proof (receipt_value_range w receipt) as Hrv. set (base_n := TokenDepositProgress.balance base) in *.
  apply bind_Ok in Hr as ([] & w1 & G22 & Hr). apply bind_Ok in Hr as ([] & w2 & G23 & Hr).
  assert (Hle : b ≤ receipt_value w receipt) by (unfold in_width in *; destruct G11; lia).
  pose proof (er_amount_range _ _ _ Hs) as Hsr. pose proof (er_size _ _ _ Hs) as Ls.
  assert (Ea : acct w1 account = acct w account ∧ owner (acct w1 cursor) = program_id cx ∧ length (data (acct w1 cursor)) = 10%nat).
  { unfold owned_by in G22. destruct (owner (acct w cursor) == program_id cx) eqn:Eo; bprop; cbn [negb] in G22.
    - apply ret_Ok in G22 as [_ ->]. auto.
    - split; [apply (create_pda_spares _ _ _ _ _ _ _ _ _ _ _ G22); intros E; by rewrite E in Ls|].
      apply create_pda_Ok in G22 as ([k Ek] & _); [|done]. rewrite Ek. done. }
  destruct Ea as (Ea & Eo & Lc). clear G22.
  apply store_at in G23 as (E2 & O2 & F2).
  2: { assert (is_u64 b) by (unfold in_width in *; lia). destruct Hpw as (?&?&?). wf_fields. }
  apply store_at in Hr as (E3 & _ & F3).
  2: { apply with_amount_wf; [unfold in_width in *; lia|by eapply decoded_wf]. }
  assert (Hca : cursor ≠ account) by congruence.
  exists s, base. cbv zeta. fold base_n. rewrite <- Hpv. split_and!; try done.
  - unfold cursor_value. rewrite F3, O2, Eo, E2 by done. by rewrite bool_decide_eq_true_2.
  - by rewrite F3, O2 by done.
Qed.

End credit.

Section credits.
Context `{HostLaws, Spl, !SplLaws, Programs} (v2 : bool).

(** Applications of deposits to [account] under [cursor], with what each credited
    and what the receipt counted then.  Between them anything may happen to other
    accounts, and to [account] itself. *)
Inductive credits (program account cursor : Address) (baseline : Z) : World → list (Z * Z) → World → Prop :=
| credits_idle w w' : acct w' cursor = acct w cursor → credits program account cursor baseline w [] w'
| credits_step w w1 c payer bridge portal session delegation receipt origin system rest b u w2 base s s' l w' :
    acct w1 cursor = acct w cursor → program_id c = program → payer ≠ cursor →
    progress_at w1 origin base → TokenDepositProgress.balance base = baseline →
    TokenBridge.apply v2 c
      (payer :: account :: bridge :: portal :: session :: delegation :: receipt :: origin :: cursor :: system :: rest) b w1 = Ok (u, w2) →
    er_at w1 account s → er_at w2 account s' → credits program account cursor baseline w2 l w' →
    credits program account cursor baseline w
      ((ErTokenAccount.amount s' - ErTokenAccount.amount s, receipt_value w1 receipt) :: l) w'.

Definition total (l : list (Z * Z)) : Z := foldr (λ x n, x.1 + n) 0 l.

Lemma cursor_value_same program baseline w w1 cursor :
  acct w1 cursor = acct w cursor → cursor_value program baseline w1 cursor = cursor_value program baseline w cursor.
Proof. unfold cursor_value. by intros ->. Qed.

Lemma credits_total program account cursor baseline w l w' :
  credits program account cursor baseline w l w' →
  cursor_value program baseline w' cursor = cursor_value program baseline w cursor + total l ∧
  Forall (λ x, 0 < x.1) l ∧
  ∀ l1 n r l2, l = l1 ++ (n, r) :: l2 → cursor_value program baseline w cursor + total l1 + n ≤ r.
Proof.
  induction 1 as [w w' Hc|w w1 c payer bridge portal session delegation receipt origin system rest b u w2 base s s' l w'
    Hc <- Hp Hb <- Hr Hs Hs' Hl (IH1 & IH2 & IH3)].
  - rewrite (cursor_value_same _ _ _ _ _ Hc). split_and!; [simpl; lia|constructor|]. intros [|] ????; discriminate.
  - apply apply_Ok in Hr as (t & base' & Ht & Hb' & Hlt & Hle & Ht' & Hv & _); [|done].
    unfold er_at, progress_at in *. assert (t = s) as -> by congruence. assert (base' = base) as -> by congruence.
    rewrite (cursor_value_same _ _ _ _ _ Hc) in *.
    assert (Hn : ErTokenAccount.amount s' - ErTokenAccount.amount s =
      b - cursor_value (program_id c) (TokenDepositProgress.balance base) w cursor).
    { rewrite Hs' in Ht'. injection Ht' as ->. simpl. lia. }
    rewrite Hv in *. split_and!; [rewrite IH1; simpl; lia|constructor; [simpl; lia|done]|].
    intros [|x l1] n r l2 [= Hx El].
    + subst. simpl. lia.
    + subst x. specialize (IH3 _ _ _ _ El). simpl. lia.
Qed.
End credits.

(** ** Delegating a token account *)

Section delegation.
Context `{HostLaws, Groth16, Spl, !SplLaws, Programs} (features : Features) (portal_v2 : bool) (cx : Ctx) (portal : Address).
Context (portal_runs : ∀ c accounts d w r, run_program portal c accounts d w = Ok r →
  process_instruction features portal_v2 c accounts d w = Ok r).

Lemma callee_unsigned p metas a : a ∉ (λ m, m.1.1) <$> filter (λ m, m.1.2 = true) metas → is_signer (callee_ctx cx p metas) a = false.
Proof.
  intros Ha. apply not_true_iff_false. intros (wr & Hm)%callee_signer. apply Ha. apply list_elem_of_fmap.
  exists (a, true, wr). split; [done|]. by apply list_elem_of_filter.
Qed.

(** The bytes wait in the buffer while the address changes hands. *)
Lemma hand_over_Ok payer er buffer sys e w u w' :
  payer ≠ er → data (acct w er) ≠ [] → TokenBridge.hand_over cx payer er portal buffer sys e w = Ok (u, w') →
  data (acct w' buffer) = data (acct w er) ∧ owner (acct w' buffer) = program_id cx ∧ owner (acct w' er) = portal ∧ er ≠ buffer.
Proof.
  intros Hpe Hne Hr. unfold TokenBridge.hand_over in Hr. apply bind_Ok in Hr as ([] & w1 & G1 & Hr).
  apply create_buffer_Ok in G1 as (Hl & Ho & F1). mstep Hr as y w2 G2. apply bind_Ok in Hr as ([] & w2 & G3 & Hr).
  apply copy_data_Ok in G3 as (Heb & _ & E2). apply bind_Ok in Hr as ([] & w3 & G4 & Hr).
  apply close_buffer_Ok in G4 as (_ & F3). destruct (F3 buffer ltac:(done)) as [D3 O3].
  rewrite E2, acct_put_eq in D3, O3. cbn [data owner with_data] in D3, O3. rewrite F1 in D3 by done.
  rewrite (create_pda_spares _ _ _ _ _ _ _ _ _ _ _ Hr) by congruence.
  apply create_pda_Ok in Hr as ([n ->] & _); [|done]. split_and!; first [done|congruence].
Qed.

(** What both forms of the Portal's delegation do to the account. *)
Lemma delegated_Ok c payer er record buffer session ingress g w u w' (v2 : bool) :
  NoDup [payer; er; record] → record ≠ buffer → buffer ≠ payer → is_key (program_id cx) → is_u64 g →
  length (data (acct w buffer)) = 106%nat →
  process_instruction features portal_v2 c
    ([payer; system_id; session; er; program_id cx; record; buffer] ++ if v2 then [ingress] else [])
    (TokenBridge.encode_portal_delegate v2 g) w = Ok (u, w') →
  data (acct w' er) = data (acct w buffer) ∧ owner (acct w' er) = owner (acct w er) ∧
  recorded_owner w' record (program_id cx).
Proof.
  intros Hnd Hrb Hbp Hk Hg Hb Hr. destruct v2.
  - change (TokenBridge.encode_portal_delegate true g) with (PortalInstruction.serialize (PortalInstruction.DelegateV2 g)) in Hr.
    destruct portal_v2 eqn:E; [|by apply fail_Ok in Hr]. rewrite process_instruction_serialize in Hr by done.
    cbn [handle app] in Hr. unfold process_delegate_v2 in Hr.
    mstep Hr as f w1 G1. mstep Hr as ox w1 G2. mstep Hr as ax w1 G3. mstep Hr as [] w1 G4. mstep Hr as [] w1 G5.
    apply bind_Ok in Hr as ([] & w1 & G6 & Hr). bprop.
    apply process_delegate_account_Ok in G6 as (_ & _ & _ & _ & _ & _ & _ & Hrec & _ & He & _); [|done..|congruence].
    specialize (He Hbp). mstep Hr as ay w2 G7. mstep Hr as [] w2 G8. pose proof (sized (n:=49) _ _ Hrec) as Lr.
    assert (D1 : acct w' er = acct w1 er).
    { apply (append_spares _ _ _ _ _ _ _ _ _ Hr); rewrite He; cbn [data with_data]; [intros E; by rewrite E in Hb|lia]. }
    assert (D2 : acct w' record = acct w1 record).
    { apply (append_spares _ _ _ _ _ _ _ _ _ Hr); [intros E; by rewrite E in Lr|lia]. }
    rewrite D1, He. split_and!; [done..|]. eexists. rewrite D2. split; [exact Hrec|]. split; [by vm_compute|done].
  - change (TokenBridge.encode_portal_delegate false g) with (PortalInstruction.serialize (PortalInstruction.Delegate g)) in Hr.
    rewrite process_instruction_serialize in Hr by done. cbn [handle app] in Hr.
    apply delegate_installs_buffer in Hr as (_ & Hrec & _ & E & _); [|done..]. by rewrite E.
Qed.

Lemma delegate_er_Ok v2 payer o er self sb session record buffer sys receipt origin rest g w u w' :
  NoDup [payer; er; record; buffer] → is_key (program_id cx) → is_u64 g →
  TokenBridge.process_delegate_er_token_account v2 cx
    (payer :: o :: er :: self :: sb :: portal :: session :: record :: buffer :: sys :: receipt :: origin :: rest) g w = Ok (u, w') →
  ∃ e, er_at w er e ∧ ErTokenAccount.owner e = o ∧ is_signer cx o = true ∧ owner (acct w er) = program_id cx ∧
    er_at w' er e ∧ owner (acct w' er) = portal ∧ recorded_owner w' record (program_id cx).
Proof.
  intros Hnd Hk Hg Hr. nodup. unfold TokenBridge.process_delegate_er_token_account in Hr. destruct (find_program_address _ _) as [rk rb].
  mstep Hr as [] w1 G1. mstep Hr as [] w1 G2. mstep Hr as [] w1 G3. mstep Hr as [] w1 G4. mstep Hr as b w1 G5.
  mstep Hr as e w1 G6. apply load_er_token_account_Ok in G6 as (Ho & He & _). mstep Hr as [] w1 G7. mstep Hr as [] w1 G8.
  apply bind_Ok in Hr as (i & w1 & G9 & Hr).
  assert (w1 = w ∧ ∃ ingress, i = if v2 then Some ingress else None) as [-> [ingress ->]].
  { destruct v2; [destruct rest as [|ingress rest]; [by apply fail_Ok in G9|]|]; apply ret_Ok in G9 as [<- ->].
    - split; [done|]. by exists ingress.
    - split; [done|]. by exists er. }
  clear G9. apply bind_Ok in Hr as ([] & w1 & G10 & Hr).
  assert (w1 = w) as -> by (destruct v2; exact (read_only _ _ _ G10)). clear G10.
  apply bind_Ok in Hr as ([] & w1 & G11 & Hr). apply bind_Ok in Hr as ([] & w2 & G12 & Hr).
  apply bind_Ok in Hr as ([] & w3 & G13 & Hr). pose proof (er_size _ _ _ He) as Le.
  assert (Ee : acct w1 er = acct w er).
  { apply (initialize_origin_spares _ _ _ _ _ _ _ _ _ _ _ G11); [intros E; by rewrite E in Le|lia]. }
  apply hand_over_Ok in G12 as (D2 & O2 & P2 & _); [|done|rewrite Ee; intros E; by rewrite E in Le].
  apply invoke_signed_Ok in G13 as [G13 _]. apply portal_runs in G13.
  assert (E3 : data (acct w3 er) = data (acct w2 buffer) ∧ owner (acct w3 er) = owner (acct w2 er) ∧
    recorded_owner w3 record (program_id cx)).
  { assert (Lb : length (data (acct w2 buffer)) = 106%nat) by (by rewrite D2, Ee). clear G5.
    assert (Hn : NoDup [payer; er; record]) by (apply NoDup_3; done).
    destruct v2; [eapply (delegated_Ok _ _ _ _ _ session ingress g _ _ _ true)|
                  eapply (delegated_Ok _ _ _ _ _ session ingress g _ _ _ false)]; try exact G13; done. }
  destruct E3 as (D3 & O3 & Hrec). apply close_buffer_Ok in Hr as (_ & F). destruct (F er ltac:(done)) as [D4 O4].
  destruct (F record ltac:(done)) as [D5 _]. apply err_if_Ok in G2 as [G2 _]. clear G11. bprop.
  exists e. split_and!; try done.
  - unfold er_at. by rewrite D4, D3, D2, Ee.
  - by rewrite O4, O3.
  - destruct Hrec as (d & Hd & ?). exists d. by rewrite D5.
Qed.

Lemma undelegate_er_Ok authority er self session record buffer sys request rest w u w' :
  authority ≠ buffer →
  TokenBridge.process_undelegate_er_token_account cx
    (authority :: er :: self :: portal :: session :: record :: buffer :: sys :: request :: rest) w = Ok (u, w') →
  ∃ e, er_at w er e ∧ ErTokenAccount.owner e = authority ∧ is_signer cx authority = true ∧ owner (acct w er) = portal ∧
    approved_request w request er ∧ er_at w' er e ∧ owner (acct w' er) = program_id cx.
Proof.
  intros Hab Hr. unfold TokenBridge.process_undelegate_er_token_account in Hr.
  mstep Hr as [] w1 G1. mstep Hr as [] w1 G2. mstep Hr as [] w1 G3. mstep Hr as ex w1 G4. mstep Hr as [] w1 G5.
  apply bind_Ok in Hr as ([] & w1 & G6 & Hr). apply bind_Ok in Hr as ([] & w2 & G7 & Hr).
  pose proof (λ c, create_buffer_keeps _ _ _ _ _ _ _ _ c G6 Hab) as F1. apply copy_data_Ok in G7 as (Heb & _ & E2).
  mstep Hr as e w3 G8. apply load_er_token_account_data_Ok in G8 as [He _]. mstep Hr as [] w3 G9. mstep Hr as [] w3 G10.
  apply bind_Ok in Hr as ([] & w3 & G11 & Hr). mstep Hr as ex w4 G12. mstep Hr as [] w4 G13.
  apply bind_Ok in Hr as ([] & w4 & G14 & Hr). apply copy_data_Ok in G14 as (_ & _ & E4).
  apply close_buffer_Ok in Hr as (_ & F5). destruct (F5 er Heb) as [D5 O5]. rewrite E4, acct_put_eq in D5, O5.
  cbn [data owner with_data] in D5, O5. pose proof (er_size _ _ _ He) as Le.
  assert (Db : data (acct w2 buffer) = data (acct w1 er)) by (rewrite E2, acct_put_eq; done).
  apply invoke_signed_Ok in G11 as [G11 _]. apply portal_runs in G11. cbn [fmap list_fmap fst] in G11.
  change [byte_of_Z 10] with (PortalInstruction.serialize PortalInstruction.UndelegateHandoff) in G11.
  rewrite process_instruction_serialize in G11 by done. cbn [handle] in G11. unfold process_undelegate_handoff in G11.
  assert (E3 : acct w3 buffer = acct w2 buffer).
  { apply (undelegate_spares _ _ _ _ _ _ _ G11); [|rewrite Le; lia..]. apply callee_unsigned. cbn.
    intros [->|[->|[]%elem_of_nil]%elem_of_cons]%elem_of_cons; by destruct Hab || by destruct Heb. }
  unfold process_undelegate_inner in G11. mstep G11 as [] w6 K. clear G11.
  apply undelegate_checks_Ok in K as (_ & _ & _ & _ & _ & _ & _ & r & Hq & Hqv).
  apply err_if_Ok in G1 as [G1 _]. unfold owned_by in *. bprop.
  assert (Hqb : request ≠ buffer).
  { intros ->. apply (sized (n:=146)) in Hq. congruence. }
  destruct (F1 er Heb) as [D1 _]. destruct (F1 request Hqb) as [D1' _].
  rewrite E2, acct_put_ne, D1' in Hq by done. rewrite Db, D1 in He.
  exists e. unfold er_at. rewrite D5, O5, E3, Db, D1. split_and!; try done. by exists r.
Qed.
End delegation.
