(* ===== verification/BridgeProps.v ===== *)
(** * Properties of the token bridge

    The bridge deployed beside the Portal: its vault stays solvent from its
    creation on, deposits and settled withdrawals are accounted for exactly, a
    deposit is credited once, and a token account survives delegation.  An
    example bridge on the concrete host runs the instructions. *)

From Stdlib Require Import ZArith Lia.
From Stdlib Require Import Strings.Byte.
From stdpp Require Import base gmap list numbers.
From S2P Require Import Prelude Borsh Events Runtime State Commitments Frames Toy Pda Instruction Verifier SessionOps Delegation Settlement Checkpoint TokenWithdrawal BridgeState Dispatch Bridge ToySpl BridgeSpec Vault Flows.

(** ** A bridge, its users and their tokens *)

Module BridgeExample.
Definition portal : Address := key 40.
Definition program : Address := key 41.
Definition payer : Address := key 42.
Definition user : Address := key 43.
Definition mint : Address := key 44.
Definition registry : Address := key 45.
Definition vault_token : Address := key 46.
Definition user_token : Address := key 47.
Definition vault : Address := Eval vm_compute in (TokenBridge.find_token_vault_pda program registry).1.
Definition er : Address := Eval vm_compute in (TokenBridge.find_er_token_account_pda program registry user).1.
Definition receipt : Address := Eval vm_compute in (TokenBridge.find_token_deposit_receipt_pda program registry er).1.
Definition record : Address := key 48.

Definition registration : SessionBridge.t :=
  SessionBridge.mk SessionBridge.DISCRIMINATOR (key 49) mint program vault token_program_id 255.
Definition w0 : World := world_of
  [(payer, wallet 100000000); (user, wallet 5000);
   (registry, mkAccount 2000000 (enc borsh registration) portal false);
   (vault_token, mkAccount 2039280 (toy_token mint vault 0) token_program_id false);
   (user_token, mkAccount 2039280 (toy_token mint user 1000) token_program_id false)].

Definition cx : Ctx := cx_of program 100
  [payer; user; mint; registry; vault_token; user_token; vault; er; receipt; record; portal; token_program_id] [payer; user].
(** Nothing but the bridge, the Portal and the Token program is deployed. *)
Definition others : Programs := λ _ _ _ _, fail IncorrectProgramId.
Abbreviation call := (bridge_call portal program (mkFeatures true true false) false false others 4 cx).
Definition bytes_of (i : TokenBridgeInstruction.t) : list byte := enc borsh i.

(** The vault is created, the user's account is created, 700 units are deposited
    and 300 withdrawn. *)
Abbreviation init := (call [payer; vault; registry; portal; vault_token; system_id] (bytes_of TokenBridgeInstruction.InitializeVault)).
Definition open_args : Ctx * list Address * list byte := (cx, [payer; er; registry; portal; system_id], bytes_of (TokenBridgeInstruction.InitializeErTokenAccount user)).
Definition deposit_args : Ctx * list Address * list byte :=
  (cx, [payer; user; vault; er; registry; portal; user_token; vault_token; mint; token_program_id; receipt; record; system_id],
   bytes_of (TokenBridgeInstruction.Deposit 700 6)).
Definition withdraw_args : Ctx * list Address * list byte :=
  (cx, [user; vault; er; registry; portal; vault_token; user_token; mint; token_program_id],
   bytes_of (TokenBridgeInstruction.Withdraw 300 6)).
Abbreviation call_of x := (bridge_call portal program (mkFeatures true true false) false false others 4 x.1.1 x.1.2 x.2).
Definition w1 : World := run init w0.
Definition w2 : World := run (call_of open_args) w1.
Definition w3 : World := run (call_of deposit_args) w2.
Definition w4 : World := run (call_of withdraw_args) w3.

(** A second account, which receives 150 units. *)
Definition other : Address := key 50.
Definition er2 : Address := Eval vm_compute in (TokenBridge.find_er_token_account_pda program registry other).1.
Definition cx2 : Ctx := cx_of program 100 [payer; user; registry; er; er2; portal] [payer; user].
Definition open2_args : Ctx * list Address * list byte :=
  (cx2, [payer; er2; registry; portal; system_id], bytes_of (TokenBridgeInstruction.InitializeErTokenAccount other)).
Definition transfer_args : Ctx * list Address * list byte :=
  (cx2, [user; er; er2], bytes_of (TokenBridgeInstruction.Transfer 150)).
Definition w5 : World := run (call_of open2_args) w4.
Definition w6 : World := run (call_of transfer_args) w5.
End BridgeExample.

(** The bridge beside the Portal of [TokenExample], whose checkpoint is settled
    with a withdrawal of 500 units authorized. *)
Module SettledExample.
Import SessionExample SettlementExample TokenExample.
Definition vault_state : TokenVault.t :=
  TokenVault.mk TokenVault.DISCRIMINATOR sb mint vault_tokens token_program 800 0 255.
Definition w0 : World :=
  put vault (mkAccount 1 (enc borsh vault_state) bridge_program false)
    (put vault_tokens (mkAccount 1 (toy_token mint vault 900) token_program false)
       (put destination (mkAccount 1 (toy_token mint (key 51) 0) token_program false) TokenExample.w4)).
Definition cx : Ctx := cx_of bridge_program 150
  [validator; session; checkpoint; authorization; sb; portal; vault; er_account; vault_tokens; destination; mint; token_program]
  [validator].
Definition settle_args : Ctx * list Address * list byte :=
  (cx, [validator; session; checkpoint; authorization; sb; portal; vault; er_account; vault_tokens; destination; mint; token_program],
   BridgeExample.bytes_of (TokenBridgeInstruction.SettleWithdrawal er_slot effects 500 500 6)).
Abbreviation call_of x :=
  (bridge_call portal bridge_program (mkFeatures true true false) false false BridgeExample.others 4 x.1.1 x.1.2 x.2).
Definition w1 : World := run (call_of settle_args) w0.
End SettledExample.

(** ** Instructions by their bytes *)

Section calls.
Context `{HostLaws, Groth16, Spl, !SplLaws} (features : Features) (portal_v2 bridge_v2 : bool) (portal program : Address)
  (others : Programs).
Abbreviation call := (bridge_call portal program features portal_v2 bridge_v2 others).

(** What runs at the Portal's address is the Portal. *)
Lemma deployed_portal depth c accounts d w r :
  portal ≠ program → deployed features portal_v2 bridge_v2 portal program others depth portal c accounts d w = Ok r →
  process_instruction features portal_v2 c accounts d w = Ok r.
Proof.
  intros Hne. destruct depth as [|n]; cbn [deployed]; [done|].
  by rewrite bool_decide_eq_false_2, bool_decide_eq_true_2.
Qed.
End calls.

(** From the call of the program to the call of the handler. *)
Ltac called Hr Hd :=
  unfold bridge_call, TokenBridge.process_instruction in Hr;
  let i := fresh in let G := fresh in let w1 := fresh in
  apply bind_Ok in Hr as (i & w1 & G & Hr); apply ok_or_Ok in G as [G ->]; rewrite Hd in G; injection G as <-;
  apply bind_Ok in Hr as ([] & w1 & G & Hr); apply err_if_Ok in G as [_ ->]; apply decoded_wf in Hd.

(** ** From creation on *)

(** C7: InitializeVault creates a vault; afterwards the bridge
    executes any instructions, with any accounts and arguments, calling the Portal
    and being called back, while other programs and transactions run in between,
    which may credit the vault's token account but hold no authority over it.  The
    vault's counters then satisfy withdrawn <= deposited, the token account still
    belongs to the vault, and it holds at least deposited - withdrawn, so every
    unit deposited and not yet withdrawn is there to be paid. *)
Theorem vault_stays_solvent `{HostLaws, Groth16, Spl, !SplLaws} features portal_v2 bridge_v2 (portal program : Address)
    (others : Programs) depth v tok sb c payer sys rest d w0 u w l w' a :
  portal ≠ token_program_id → portal ≠ program → program ≠ token_program_id →
  (∀ p c accounts d, p ≠ portal → p ≠ program → is_signer c v = false →
     Leaves portal program v tok sb (others p c accounts d)) →
  length sb = 32%nat → length tok = 32%nat →
  owner (acct w0 tok) = token_program_id → spl_unpack_account (data (acct w0 tok)) = Some a → spl_delegate a = None →
  program_id c = program → payer ≠ v → try_from_slice d = Some TokenBridgeInstruction.InitializeVault →
  bridge_call portal program features portal_v2 bridge_v2 others depth c
    (payer :: v :: sb :: portal :: tok :: sys :: rest) d w0 = Ok (u, w) →
  Forall (bridge_call_safe program v tok sb) l →
  bridge_runs portal program v tok sb features portal_v2 bridge_v2 others depth w l w' →
  ∃ s a', owner (acct w' v) = program ∧ try_from_slice (data (acct w' v)) = Some s ∧
    TokenVault.vault_token_account s = tok ∧ spl_unpack_account (data (acct w' tok)) = Some a' ∧ spl_owner a' = v ∧
    0 ≤ TokenVault.withdrawn s ≤ TokenVault.deposited s ∧
    TokenVault.deposited s - TokenVault.withdrawn s ≤ spl_amount a'.
Proof.
  intros Hpt Hpp Hbt Ho Hls Hlt Hto Ha Hd Hc Hpv Hi Hr Hs Hl. called Hr Hi.
  eapply initialize_vault_ok in Hr as (s & Hok & Hd0 & Hw0); [|done..].
  destruct (bridge_runs_ok _ _ _ _ _ Hpt Hpp Hbt _ _ _ _ Ho _ _ _ _ _ _ Hl Hs Hok) as (s' & a' & [] & (_ & _ & Hdg & Hwg)).
  exists s', a'. split_and!; try done. lia.
Qed.


Lemma ran {A} (m : prog A) w w' : err_of m w = None → run m w = w' → ∃ u, m w = Ok (u, w').
Proof. intros He <-. by apply run_Ok. Qed.

Lemma example_init : ∃ u, BridgeExample.init BridgeExample.w0 = Ok (u, BridgeExample.w1).
Proof. apply ran; [vm_compute; reflexivity|reflexivity]. Qed.
Lemma example_open : ∃ u, BridgeExample.call_of BridgeExample.open_args BridgeExample.w1 = Ok (u, BridgeExample.w2).
Proof. apply ran; [vm_compute; reflexivity|reflexivity]. Qed.
Lemma example_deposit : ∃ u, BridgeExample.call_of BridgeExample.deposit_args BridgeExample.w2 = Ok (u, BridgeExample.w3).
Proof. apply ran; [vm_compute; reflexivity|reflexivity]. Qed.
Lemma example_withdraw : ∃ u, BridgeExample.call_of BridgeExample.withdraw_args BridgeExample.w3 = Ok (u, BridgeExample.w4).
Proof. apply ran; [vm_compute; reflexivity|reflexivity]. Qed.

Lemma example_runs :
  bridge_runs BridgeExample.portal BridgeExample.program BridgeExample.vault BridgeExample.vault_token
    BridgeExample.registry (mkFeatures true true false) false false BridgeExample.others 4
    BridgeExample.w1 [BridgeExample.open_args; BridgeExample.deposit_args; BridgeExample.withdraw_args] BridgeExample.w4.
Proof.
  destruct example_open as [u1 H1], example_deposit as [u2 H2], example_withdraw as [u3 H3].
  eapply (bridge_step _ _ _ _ _ _ _ _ _ _ _ _ _ _ _ _ _ (left_alone_refl _ _ _ _) H1).
  eapply (bridge_step _ _ _ _ _ _ _ _ _ _ _ _ _ _ _ _ _ (left_alone_refl _ _ _ _) H2).
  eapply (bridge_step _ _ _ _ _ _ _ _ _ _ _ _ _ _ _ _ _ (left_alone_refl _ _ _ _) H3).
  apply bridge_idle, left_alone_refl.
Qed.

Lemma vault_stays_solvent_witness :
  ∃ s a', owner (acct BridgeExample.w4 BridgeExample.vault) = BridgeExample.program ∧
    try_from_slice (data (acct BridgeExample.w4 BridgeExample.vault)) = Some s ∧
    TokenVault.vault_token_account s = BridgeExample.vault_token ∧
    spl_unpack_account (data (acct BridgeExample.w4 BridgeExample.vault_token)) = Some a' ∧
    spl_owner a' = BridgeExample.vault ∧
    0 ≤ TokenVault.withdrawn s ≤ TokenVault.deposited s ∧
    TokenVault.deposited s - TokenVault.withdrawn s ≤ spl_amount a'.
Proof.
  destruct example_init as [u Hi].
  refine (vault_stays_solvent (mkFeatures true true false) false false BridgeExample.portal BridgeExample.program
    BridgeExample.others 4 BridgeExample.vault BridgeExample.vault_token BridgeExample.registry BridgeExample.cx
    BridgeExample.payer system_id [] (BridgeExample.bytes_of TokenBridgeInstruction.InitializeVault) BridgeExample.w0 u
    BridgeExample.w1 _ BridgeExample.w4 (mkSplAccount BridgeExample.mint BridgeExample.vault 0 None)
    _ _ _ _ _ _ _ _ _ _ _ _ Hi _ example_runs).
  1-3, 10: vm_compute; discriminate.
  1-7: vm_compute; reflexivity.
  - repeat apply Forall_cons_2; [apply bridge_call_safe_test; vm_compute; reflexivity..|apply Forall_nil_2].
Defined.

(** ** Deposits *)



(** ** Settled withdrawals *)

(** C10: a SettleWithdrawal of n units that brings the total
    withdrawn to k either finds the vault's counter at k or beyond and changes
    nothing, or it is the next withdrawal (k is the counter plus n, at most what
    was deposited).  Then the Portal holds an authorization of exactly this
    withdrawal (its accounts, amount, counter and decimals) under a settled
    checkpoint with the given slot and commitment, which was not yet consumed and
    is consumed now; n units leave the vault's token account for the destination
    and the vault's counter is k. *)
Theorem withdrawal_settled_once `{HostLaws, Groth16, Spl, !SplLaws} features portal_v2 bridge_v2 (portal program : Address)
    (others : Programs) depth c validator session ck a sb vault er vta dst mint tp rest bytes er_slot checksum n k d w u w' :
  portal ≠ program →
  try_from_slice bytes = Some (TokenBridgeInstruction.SettleWithdrawal er_slot checksum n k d) →
  bridge_call portal program features portal_v2 bridge_v2 others depth c
    (validator :: session :: ck :: a :: sb :: portal :: vault :: er :: vta :: dst :: mint :: tp :: rest) bytes w
    = Ok (u, w') →
  ∃ s, vault_at w vault s ∧
  (k ≤ TokenVault.withdrawn s ∧ w' = w ∨
   k = TokenVault.withdrawn s + n ∧ k ≤ TokenVault.deposited s ∧ TokenVault.withdrawn s < k ∧
   authorization_used w w' session sb vault er vta dst mint tp ck a er_slot checksum n k d ∧
   tokens_move w w' vta dst n ∧ vault_at w' vault (TokenBridge.with_withdrawn k s)).
Proof.
  intros Hpp Hd Hr. called Hr Hd.
  eapply (process_settle_withdrawal_Ok features portal_v2) in Hr; [exact Hr| |].
  - intros ?????. by apply deployed_portal.
  - destruct Hd as (?&?&?&?&?). wf_fields.
Qed.

Lemma example_settle : ∃ u, SettledExample.call_of SettledExample.settle_args SettledExample.w0 = Ok (u, SettledExample.w1).
Proof. apply ran; [vm_compute; reflexivity|reflexivity]. Qed.
Lemma example_vault : vault_at SettledExample.w0 TokenExample.vault SettledExample.vault_state.
Proof. vm_compute; reflexivity. Qed.

Lemma withdrawal_settled_once_witness :
  tokens_move SettledExample.w0 SettledExample.w1 TokenExample.vault_tokens TokenExample.destination 500 ∧
  vault_at SettledExample.w1 TokenExample.vault (TokenBridge.with_withdrawn 500 SettledExample.vault_state).
Proof.
  destruct example_settle as [u Hr].
  destruct (λ H1 H2, withdrawal_settled_once (mkFeatures true true false) false false SessionExample.portal
    TokenExample.bridge_program BridgeExample.others 4 SettledExample.cx _ _ _ TokenExample.authorization TokenExample.sb
    TokenExample.vault TokenExample.er_account TokenExample.vault_tokens TokenExample.destination TokenExample.mint
    TokenExample.token_program [] _ SettlementExample.er_slot SettlementExample.effects 500 500 6 _ _ _ H1 H2 Hr)
    as (s & Hs & Hc).
  - vm_compute; discriminate.
  - vm_compute; reflexivity.
  - unfold vault_at in Hs. rewrite example_vault in Hs. injection Hs as <-.
    destruct Hc as [[Hle _]|(_ & _ & _ & _ & Hm & Hv)]; [exfalso; cbv in Hle; by destruct Hle|].
    split; [exact Hm|exact Hv].
Defined.

(** ** Transfers *)

(** A Transfer of n units between two token accounts of
    one bridge, signed by the owner of the source, takes n from the one and adds n
    to the other, so that their sum is unchanged; the source held at least n, the
    two accounts are different, and no other account changes. *)
Theorem user_transfer_conserves `{HostLaws, Groth16, Spl, !SplLaws} features portal_v2 bridge_v2 (portal program : Address)
    (others : Programs) depth c authority source destination rest bytes n w u w' :
  try_from_slice bytes = Some (TokenBridgeInstruction.Transfer n) →
  bridge_call portal program features portal_v2 bridge_v2 others depth c
    (authority :: source :: destination :: rest) bytes w = Ok (u, w') →
  ∃ s d, is_signer c authority = true ∧ ErTokenAccount.owner s = authority ∧ source ≠ destination ∧
    ErTokenAccount.session_bridge s = ErTokenAccount.session_bridge d ∧ ErTokenAccount.mint s = ErTokenAccount.mint d ∧
    er_at w source s ∧ er_at w destination d ∧ n ≤ ErTokenAccount.amount s ∧
    er_at w' source (TokenBridge.with_amount (ErTokenAccount.amount s - n) s) ∧
    er_at w' destination (TokenBridge.with_amount (ErTokenAccount.amount d + n) d) ∧
    ∀ b, b ≠ source → b ≠ destination → acct w' b = acct w b.
Proof. intros Hd Hr. called Hr Hd. destruct Hd as [Hn _]. by apply process_transfer_Ok in Hr. Qed.

Lemma example_transfer : ∃ u, BridgeExample.call_of BridgeExample.transfer_args BridgeExample.w5 = Ok (u, BridgeExample.w6).
Proof. apply ran; [vm_compute; reflexivity|reflexivity]. Qed.

Lemma user_transfer_conserves_witness :
  ∃ s d, er_at BridgeExample.w5 BridgeExample.er s ∧ er_at BridgeExample.w5 BridgeExample.er2 d ∧
    er_at BridgeExample.w6 BridgeExample.er (TokenBridge.with_amount (ErTokenAccount.amount s - 150) s) ∧
    er_at BridgeExample.w6 BridgeExample.er2 (TokenBridge.with_amount (ErTokenAccount.amount d + 150) d).
Proof.
  destruct example_transfer as [u Hr].
  destruct (λ H1, user_transfer_conserves (mkFeatures true true false) false false BridgeExample.portal
    BridgeExample.program BridgeExample.others 4 BridgeExample.cx2 BridgeExample.user BridgeExample.er BridgeExample.er2 []
    _ 150 _ _ _ H1 Hr) as (s & d & _ & _ & _ & _ & _ & Hs & Hd & _ & Hs' & Hd' & _).
  - vm_compute; reflexivity.
  - exists s, d. split; [exact Hs|]. split; [exact Hd|]. split; [exact Hs'|exact Hd'].
Defined.

(** ** The life of a delegated token account

    Deposit, delegation, a deposit that is credited in the rollup in two parts,
    and the way back. *)

Module LifeExample.
Import SessionExample TokenExample.
Abbreviation bytes_of := BridgeExample.bytes_of.
Abbreviation pda seeds := ((find_program_address seeds bridge_program).1).
Definition user : Address := key 52.
Definition er : Address := Eval vm_compute in (TokenBridge.find_er_token_account_pda bridge_program sb user).1.
Definition receipt : Address := Eval vm_compute in (TokenBridge.find_token_deposit_receipt_pda bridge_program sb er).1.
Definition buffer : Address := Eval vm_compute in (TokenBridge.find_buffer_pda bridge_program er).1.
Definition origin : Address := Eval vm_compute in pda [TokenDepositProgress.ORIGIN_SEED; er].
Definition cursor : Address := Eval vm_compute in pda [TokenDepositProgress.CURSOR_SEED; er; le_bytes 8 300].
Definition record : Address := Eval vm_compute in (find_delegation_record_pda portal er).1.
Definition request : Address := Eval vm_compute in (find_undelegation_request_pda portal er).1.
Definition user_tokens : Address := key 53.
Definition all : list Address :=
  [validator; user; session; sb; vault; er; receipt; buffer; origin; cursor; record; request; user_tokens; vault_tokens;
   mint; token_program; bridge_program; portal; system_id].
Definition cx : Ctx := cx_of bridge_program 150 all [validator; user].
Definition portal_cx : Ctx := cx_of portal 150 all [validator].
Abbreviation call x :=
  (bridge_call portal bridge_program (mkFeatures true true false) false false BridgeExample.others 4 x.1.1 x.1.2 x.2).

Definition w0 : World :=
  put vault (mkAccount 1 (enc borsh SettledExample.vault_state) bridge_program false)
    (put vault_tokens (mkAccount 1 (toy_token mint vault 900) token_program false)
       (put user_tokens (mkAccount 1 (toy_token mint user 1000) token_program false)
          (put user (wallet 100000000) (run register TokenExample.w1)))).
Definition open_er : Ctx * list Address * list byte :=
  (cx, [user; er; sb; portal; system_id], bytes_of (TokenBridgeInstruction.InitializeErTokenAccount user)).
Definition deposit (n : Z) : Ctx * list Address * list byte :=
  (cx, [user; user; vault; er; sb; portal; user_tokens; vault_tokens; mint; token_program; receipt; record; system_id; request],
   bytes_of (TokenBridgeInstruction.Deposit n 6)).
Definition delegate_er : Ctx * list Address * list byte :=
  (cx, [user; user; er; bridge_program; sb; portal; session; record; buffer; system_id; receipt; origin],
   bytes_of (TokenBridgeInstruction.DelegateErTokenAccount 7)).
Definition w1 : World := run (call open_er) w0.
Definition w2 : World := run (call (deposit 300)) w1.
Definition w3 : World := run (call delegate_er) w2.
Definition w4 : World := run (call (deposit 200)) w3.
(** Inside the rollup the account belongs to the bridge. *)
Definition r0 : World := put er (with_owner bridge_program (acct w4 er)) w4.
Definition apply_accounts : list Address :=
  [validator; er; sb; portal; session; record; receipt; origin; cursor; system_id].
Abbreviation credit b := (TokenBridge.apply false cx apply_accounts b).
Definition base : TokenDepositProgress.t := TokenDepositProgress.mk TokenDepositProgress.ORIGIN_DISCRIMINATOR 300 255.
Definition account (n : Z) : ErTokenAccount.t := ErTokenAccount.mk ErTokenAccount.DISCRIMINATOR sb user mint n 255.
Definition r1 : World := run (credit 400) r0.
Definition r2 : World := run (credit 500) r1.
(** The way back. *)
Definition ask : Ctx * list Address * list byte :=
  (cx, [user; user; er; bridge_program; portal; session; record; request; system_id],
   bytes_of TokenBridgeInstruction.RequestUndelegation).
Definition w5 : World := run (call ask) w4.
Abbreviation approve := (process_approve_undelegation portal_cx [validator; session; request]).
Definition w6 : World := run approve w5.
End LifeExample.

(** C11: inside the rollup, whatever balances are
    applied to an account under one cursor, in whatever order and with anything
    else in between: what is credited adds up exactly to how far the cursor moved;
    each application credits something; at each application the baseline (or the
    cursor) plus everything credited so far is at most what the receipt counts as
    deposited; and a balance at or below the cursor is never applied again. *)
Theorem token_deposits_credited_once `{HostLaws} v2 program account cursor baseline w l w' :
  credits v2 program account cursor baseline w l w' →
  cursor_value program baseline w' cursor = cursor_value program baseline w cursor + total l ∧
  Forall (λ x, 0 < x.1) l ∧
  (∀ l1 n r l2, l = l1 ++ (n, r) :: l2 → cursor_value program baseline w cursor + total l1 + n ≤ r) ∧
  ∀ c payer bridge portal session delegation receipt origin system rest base b u w'',
    program_id c = program → payer ≠ cursor → progress_at w' origin base → TokenDepositProgress.balance base = baseline →
    b ≤ cursor_value program baseline w' cursor →
    TokenBridge.apply v2 c
      (payer :: account :: bridge :: portal :: session :: delegation :: receipt :: origin :: cursor :: system :: rest) b w'
      ≠ Ok (u, w'').
Proof.
  intros Hc. apply credits_total in Hc as (Ht & Hp & Hb). split_and!; [done..|].
  intros c payer bridge portal session delegation receipt origin system rest base b u w'' <- Hpc Hb0 <- Hle Hr.
  apply apply_Ok in Hr as (s & base' & _ & Hb' & Hlt & _); [|done]. unfold progress_at in *.
  assert (base' = base) as -> by congruence. lia.
Qed.

Lemma example_credits :
  credits false TokenExample.bridge_program LifeExample.er LifeExample.cursor 300 LifeExample.r0 [(100, 500); (100, 500)]
    LifeExample.r2.
Proof.
  destruct (ran (LifeExample.credit 400) LifeExample.r0 LifeExample.r1) as [u1 H1]; [vm_compute; reflexivity|reflexivity|].
  destruct (ran (LifeExample.credit 500) LifeExample.r1 LifeExample.r2) as [u2 H2]; [vm_compute; reflexivity|reflexivity|].
  enough (credits false TokenExample.bridge_program LifeExample.er LifeExample.cursor 300 LifeExample.r0
    [(ErTokenAccount.amount (LifeExample.account 400) - ErTokenAccount.amount (LifeExample.account 300),
      receipt_value LifeExample.r0 LifeExample.receipt);
     (ErTokenAccount.amount (LifeExample.account 500) - ErTokenAccount.amount (LifeExample.account 400),
      receipt_value LifeExample.r1 LifeExample.receipt)] LifeExample.r2) as Hc.
  { replace (receipt_value LifeExample.r0 LifeExample.receipt) with 500 in Hc by (vm_compute; reflexivity).
    replace (receipt_value LifeExample.r1 LifeExample.receipt) with 500 in Hc by (vm_compute; reflexivity). exact Hc. }
  refine (credits_step _ _ _ _ _ _ _ _ _ _ _ _ _ _ _ _ _ _ _ _ LifeExample.base _ _ _ _ _ _ _ _ _ H1 _ _ _);
    [reflexivity|reflexivity|vm_compute; discriminate|vm_compute; reflexivity|reflexivity|vm_compute; reflexivity|vm_compute; reflexivity|].
  refine (credits_step _ _ _ _ _ _ _ _ _ _ _ _ _ _ _ _ _ _ _ _ LifeExample.base _ _ _ _ _ _ _ _ _ H2 _ _ _);
    [reflexivity|reflexivity|vm_compute; discriminate|vm_compute; reflexivity|reflexivity|vm_compute; reflexivity|vm_compute; reflexivity|].
  apply credits_idle. reflexivity.
Qed.

Lemma token_deposits_credited_once_witness :
  cursor_value TokenExample.bridge_program 300 LifeExample.r2 LifeExample.cursor =
    cursor_value TokenExample.bridge_program 300 LifeExample.r0 LifeExample.cursor + total [(100, 500); (100, 500)] ∧
  TokenBridge.apply false LifeExample.cx LifeExample.apply_accounts 500 LifeExample.r2 ≠ Ok (tt, LifeExample.r2).
Proof.
  destruct (token_deposits_credited_once _ _ _ _ _ _ _ _ example_credits) as (Ht & _ & _ & Hn). split.
  - exact Ht.
  - refine (Hn _ _ _ _ _ _ _ _ _ _ LifeExample.base _ _ _ _ _ _ _ _).
    + reflexivity.
    + vm_compute; discriminate.
    + vm_compute; reflexivity.
    + reflexivity.
    + vm_compute; discriminate.
Defined.




(** ** Addresses that hold lamports *)

(** C31: the vault and the users' token accounts can be
    created only at addresses that hold no lamports at all: InitializeVault and
    InitializeErTokenAccount fail otherwise, whatever the arguments and whoever
    calls.  Likewise a Deposit fails when the address of the receipt holds lamports
    but is not yet the bridge's.  (Anyone can send lamports to these addresses.) *)
Theorem prefunded_accounts_refused `{HostLaws, Groth16, Spl, !SplLaws} features portal_v2 bridge_v2 (portal program : Address)
    (others : Programs) depth c accounts bytes i w u w' :
  portal ≠ program → program_id c = program → try_from_slice bytes = Some i →
  bridge_call portal program features portal_v2 bridge_v2 others depth c accounts bytes w = Ok (u, w') →
  match i, accounts with
  | TokenBridgeInstruction.InitializeVault, _ :: vault :: _ => lamports (acct w vault) = 0
  | TokenBridgeInstruction.InitializeErTokenAccount _, _ :: er :: _ => lamports (acct w er) = 0
  | TokenBridgeInstruction.Deposit _ _, payer :: _ :: _ :: er :: _ :: p :: _ :: _ :: _ :: _ :: receipt :: _ =>
      p = portal → payer ≠ receipt → length er = 32%nat →
      lamports (acct w receipt) = 0 ∨ owner (acct w receipt) = program
  | _, _ => True
  end.
Proof.
  intros Hpp <- Hd Hr. called Hr Hd. destruct i as [|o|n d|n|n dd|g| |n dd|er ck n k dd| |b]; try done.
  - unfold TokenBridge.process_initialize_vault in Hr. repeat (case_match; try done).
    mstep Hr as [] w1 G1. mstep Hr as [] w1 G2. mstep Hr as b w1 G3. mstep Hr as [] w1 G4. mstep Hr as [] w1 G5.
    mstep Hr as t w1 G6. mstep Hr as [] w1 G7. mstep Hr as x w1 G8. destruct (_ =? 0) eqn:E; [by apply Z.eqb_eq|].
    apply bind_Ok in Hr as (? & ? & Hf & _). by apply fail_Ok in Hf.
  - unfold TokenBridge.process_initialize_er_token_account in Hr. repeat (case_match; try done).
    mstep Hr as [] w1 G1. mstep Hr as [] w1 G2. mstep Hr as b w1 G3. mstep Hr as [] w1 G4.
    mstep Hr as x w1 G8. destruct (_ =? 0) eqn:E; [by apply Z.eqb_eq|].
    apply bind_Ok in Hr as (? & ? & Hf & _). by apply fail_Ok in Hf.
  - repeat (case_match; try done). intros -> Hp Hl. subst accounts. destruct Hd as [[Hn _] _].
    match type of Hr with TokenBridge.process_deposit _ _ (_ :: _ :: _ :: _ :: _ :: _ :: _ :: _ :: _ :: _ :: _ :: ?l) _ _ _ = _ =>
      destruct l as [|? [|? ?]]; [by apply fail_Ok in Hr..|] end.
    eapply (process_deposit_Ok features portal_v2) in Hr as (s & e & _ & _ & _ & _ & _ & _ & _ & _ & Hf & _); [exact Hf| |done..].
    intros ?????. by apply deployed_portal.
Qed.

Lemma prefunded_accounts_refused_witness :
  lamports (acct BridgeExample.w0 BridgeExample.vault) = 0.
Proof.
  destruct example_init as [u Hr].
  refine ((λ H1 H2 H3, prefunded_accounts_refused (mkFeatures true true false) false false BridgeExample.portal
    BridgeExample.program BridgeExample.others 4 BridgeExample.cx _ _ TokenBridgeInstruction.InitializeVault _ _ _
    H1 H2 H3 Hr) _ _ _).
  - vm_compute; discriminate.
  - reflexivity.
  - vm_compute; reflexivity.
Defined.

(** ** A vault over an account that is not the Token program's *)

(** A vault opened over an account of another program. *)
Module ForeignExample.
Import BridgeExample.
Definition w0 : World := put vault_token (mkAccount 2039280 (toy_token mint vault 0) (key 60) false) BridgeExample.w0.
Definition w1 : World := run init w0.
Definition w2 : World := run (call_of open_args) w1.
Definition state : TokenVault.t :=
  TokenVault.mk TokenVault.DISCRIMINATOR registry mint vault_token token_program_id 0 0 255.
Lemma accepted : ∃ u, init w0 = Ok (u, w1).
Proof. apply ran; [vm_compute; reflexivity|reflexivity]. Qed.
End ForeignExample.

(** C30: InitializeVault reads the token account it is given but does not check
    that the Token program owns it: in the example world, where another program
    owns the account, it succeeds and leaves a vault whose token account is that
    one.  And whenever a vault's token account is not the Token program's, no
    Deposit into the vault succeeds, in any build, whoever calls and whatever the
    amount and the remaining accounts, as long as the call names the deployed
    Portal and the payer is not the receipt's own address. *)
Theorem foreign_token_account_blocks_deposits :
  (∃ u, BridgeExample.init ForeignExample.w0 = Ok (u, ForeignExample.w1) ∧
     vault_at ForeignExample.w1 BridgeExample.vault ForeignExample.state ∧
     owner (acct ForeignExample.w0 (TokenVault.vault_token_account ForeignExample.state)) ≠ token_program_id ∧
     owner (acct ForeignExample.w1 (TokenVault.vault_token_account ForeignExample.state)) ≠ token_program_id) ∧
  ∀ `{HostLaws, Groth16, Spl, !SplLaws} features portal_v2 bridge_v2
    (portal program : Address) (others : Programs) depth c payer o vault er sb src vta mint tp receipt record sys rest
    bytes n d s w u w',
  portal ≠ program → payer ≠ receipt → length er = 32%nat →
  vault_at w vault s → owner (acct w (TokenVault.vault_token_account s)) ≠ token_program_id →
  try_from_slice bytes = Some (TokenBridgeInstruction.Deposit n d) →
  bridge_call portal program features portal_v2 bridge_v2 others depth c
    (payer :: o :: vault :: er :: sb :: portal :: src :: vta :: mint :: tp :: receipt :: record :: sys :: rest) bytes w
    ≠ Ok (u, w').
Proof.
  split.
  { destruct ForeignExample.accepted as [u Hr]. exists u. split; [exact Hr|].
    split; [vm_compute; reflexivity|split; vm_compute; discriminate]. }
  intros Hh Hhl Hg Hsp Hsl * Hpp Hpr Her Hs Ho Hd Hr. called Hr Hd. destruct Hd as [[Hn _] _].
  eapply (process_deposit_Ok features portal_v2) in Hr as (s' & e & Hs' & _ & _ & _ & Hv & (_ & Hm & _) & _); [| |done..].
  - unfold vault_at in *. assert (s' = s) as -> by congruence. congruence.
  - intros ?????. by apply deployed_portal.
Qed.

(** The deposit of [BridgeExample] into that vault. *)
Lemma foreign_token_account_blocks_deposits_witness :
  BridgeExample.call_of BridgeExample.deposit_args ForeignExample.w2 ≠ Ok (tt, ForeignExample.w2).
Proof.
  refine (proj2 foreign_token_account_blocks_deposits _ _ _ _ _ _ _ _ _ _ _ _ _ BridgeExample.payer _ _ _ _ _ _ _ _ BridgeExample.receipt _ _ _
    _ 700 6 ForeignExample.state _ _ _ _ _ _ _ _ _).
  - vm_compute; discriminate.
  - vm_compute; discriminate.
  - reflexivity.
  - vm_compute; reflexivity.
  - vm_compute; discriminate.
  - vm_compute; reflexivity.
Defined.
