(* ===== verification/Planner.v ===== *)
(** * Planning a settlement (northstar/src/settlement.rs)

    What the validator computes off chain to settle a rollup slot: the chunks of
    account data that differ from L1, the owner and lamport changes, the checksum
    over them, and the Portal instructions that carry them out, batched into
    transactions.

    A Rust panic (an index out of bounds) is [None].  Signing and serializing a
    transaction is third-party code; its size is a parameter ([tx_size]). *)

From Stdlib Require Import ZArith Lia.
From Stdlib Require Import Strings.Byte.
From stdpp Require Import base gmap list numbers.
From S2P Require Import Prelude Borsh Events Runtime State Commitments Frames Toy Pda Instruction Verifier Merkle StepProof Artifact SessionOps Delegation Settlement Checkpoint Challenge Deposits Ingress TokenWithdrawal BridgeState Continuity Dispatch Bridge.

Module Planner.

(** ** Data *)

(** [AccountSharedData], as far as it is read here. *)
Record SharedAccount : Set := mkSharedAccount {
  sa_lamports : Z; sa_data : list byte; sa_owner : Address; sa_executable : bool; sa_rent_epoch : Z
}.

(** The lattice hashes of the two sides are not read here. *)
Record ErStateDiffAccount : Set := mkErStateDiffAccount {
  pubkey : Address; l1_account : option SharedAccount; er_account : SharedAccount
}.

Record SettlementChunk : Set := mkSettlementChunk {
  sc_account : Address; sc_account_data_offset : Z; sc_data : list byte
}.

Record ReceiptBalanceSettlement : Set := mkReceiptBalanceSettlement {
  rb_receipt : Address; rb_er_source : Address; rb_l1_recipient : Address;
  rb_balance : Z; rb_withdrawn : Z; rb_payout_lamports : Z
}.

Record TokenWithdrawalSettlement : Set := mkTokenWithdrawalSettlement {
  ts_bridge_program : Address; ts_session_bridge : Address; ts_er_token_account : Address; ts_vault : Address;
  ts_vault_token_account : Address; ts_l1_destination_token_account : Address; ts_mint : Address;
  ts_token_program : Address; ts_amount : Z; ts_withdrawn : Z; ts_decimals : Z
}.

Record AccountOwnerSettlement : Set := mkAccountOwnerSettlement { os_account : Address; os_owner : Address }.
Record AccountLamportsSettlement : Set := mkAccountLamportsSettlement { ls_account : Address; ls_lamports : Z }.

Inductive SettlementUnsupportedChange : Set :=
| MissingL1Account (account : Address)
| DataLengthChanged (account : Address) (l1_len er_len : nat)
| LamportsChanged (account : Address) (l1_lamports er_lamports : Z)
| OwnerChanged (account l1_owner er_owner : Address)
| ExecutableChanged (account : Address) (l1_executable er_executable : bool)
| RentEpochChanged (account : Address) (l1_rent_epoch er_rent_epoch : Z)
| TooManyLamportChanges (count max : nat).

Definition account (c : SettlementUnsupportedChange) : option Address :=
  match c with
  | MissingL1Account a | DataLengthChanged a _ _ | OwnerChanged a _ _ | ExecutableChanged a _ _
  | RentEpochChanged a _ _ | LamportsChanged a _ _ => Some a
  | TooManyLamportChanges _ _ => None
  end.

Record SettlementPlan : Set := mkSettlementPlan {
  sp_er_slot : Z;
  sp_checksum : Hash32;
  sp_chunks : list SettlementChunk;
  sp_owner_changes : list AccountOwnerSettlement;
  sp_lamport_changes : list AccountLamportsSettlement;
  sp_receipt_balances : list ReceiptBalanceSettlement;
  sp_token_withdrawals : list TokenWithdrawalSettlement;
  sp_unsupported_changes : list SettlementUnsupportedChange
}.

Definition no_items {A} (l : list A) : bool := match l with [] => true | _ => false end.

Definition is_empty (p : SettlementPlan) : bool :=
  no_items (sp_chunks p) && no_items (sp_owner_changes p) && no_items (sp_lamport_changes p)
  && no_items (sp_receipt_balances p) && no_items (sp_token_withdrawals p).

Definition has_unsupported_changes (p : SettlementPlan) : bool := negb (no_items (sp_unsupported_changes p)).

(** ** The checksum *)

Section checksum.
Context `{Host}.

Definition SETTLEMENT_CHECKSUM_DOMAIN : list byte := str "northstar-settlement-v0".

Definition initial_settlement_checksum (er_slot : Z) : Hash32 :=
  hashv [SETTLEMENT_CHECKSUM_DOMAIN; le_bytes 8 er_slot].

Definition accumulate_data_chunk_checksum (accumulator : Hash32) (account : Address) (account_data_offset : Z)
    (d : list byte) : Hash32 :=
  hashv [accumulator; str "data"; account; le_bytes 4 account_data_offset; le_bytes 4 (Z.of_nat (length d)); d].

Definition accumulate_owner_checksum (accumulator : Hash32) (account owner : Address) : Hash32 :=
  hashv [accumulator; str "owner"; account; owner].

Definition accumulate_lamports_checksum (accumulator : Hash32) (account : Address) (n : Z) : Hash32 :=
  hashv [accumulator; str "lamports"; account; le_bytes 8 n].

Definition accumulate_receipt_checksum (accumulator : Hash32) (er_source l1_recipient : Address)
    (balance withdrawn payout_lamports : Z) : Hash32 :=
  hashv [accumulator; str "receipt"; er_source; l1_recipient; le_bytes 8 balance; le_bytes 8 withdrawn;
         le_bytes 8 payout_lamports].

Definition accumulate_token_withdrawal_checksum (accumulator : Hash32) (x : TokenWithdrawalSettlement) : Hash32 :=
  hashv [accumulator; str "token_withdrawal"; ts_bridge_program x; ts_session_bridge x; ts_er_token_account x;
         ts_vault x; ts_vault_token_account x; ts_l1_destination_token_account x; ts_mint x; ts_token_program x;
         le_bytes 8 (ts_amount x); le_bytes 8 (ts_withdrawn x); le_bytes 1 (ts_decimals x)].

Definition checksum_settlement (er_slot : Z) (chunks : list SettlementChunk)
    (owner_changes : list AccountOwnerSettlement) (lamport_changes : list AccountLamportsSettlement)
    (receipt_balances : list ReceiptBalanceSettlement) (token_withdrawals : list TokenWithdrawalSettlement) : Hash32 :=
  let checksum := initial_settlement_checksum er_slot in
  let checksum := fold_left (λ c x, accumulate_data_chunk_checksum c (sc_account x) (sc_account_data_offset x) (sc_data x))
                    chunks checksum in
  let checksum := fold_left (λ c x, accumulate_owner_checksum c (os_account x) (os_owner x)) owner_changes checksum in
  let checksum := fold_left (λ c x, accumulate_lamports_checksum c (ls_account x) (ls_lamports x)) lamport_changes checksum in
  let checksum := fold_left (λ c x, accumulate_receipt_checksum c (rb_er_source x) (rb_l1_recipient x) (rb_balance x)
                                      (rb_withdrawn x) (rb_payout_lamports x)) receipt_balances checksum in
  fold_left accumulate_token_withdrawal_checksum token_withdrawals checksum.

Definition recomputed_checksum (p : SettlementPlan) : Hash32 :=
  checksum_settlement (sp_er_slot p) (sp_chunks p) (sp_owner_changes p) (sp_lamport_changes p) (sp_receipt_balances p)
    (sp_token_withdrawals p).

Definition lamport_accumulator_before (p : SettlementPlan) : Hash32 :=
  checksum_settlement (sp_er_slot p) (sp_chunks p) (sp_owner_changes p) [] [] [].

(** The loops of [lamports_already_applied]: does folding [step] over [l] from
    [checksum] pass through [accumulator]?  The final checksum comes with it. *)
Fixpoint reaches {A} (step : Hash32 → A → Hash32) (accumulator : Hash32) (l : list A) (checksum : Hash32) :
    bool * Hash32 :=
  match l with
  | [] => (false, checksum)
  | x :: l' =>
      let checksum := step checksum x in
      if checksum == accumulator then (true, checksum) else reaches step accumulator l' checksum
  end.

Definition accumulate_receipt (c : Hash32) (x : ReceiptBalanceSettlement) : Hash32 :=
  accumulate_receipt_checksum c (rb_er_source x) (rb_l1_recipient x) (rb_balance x) (rb_withdrawn x)
    (rb_payout_lamports x).

Definition lamports_already_applied (p : SettlementPlan) (accumulator : Hash32) : bool :=
  if no_items (sp_lamport_changes p) then false
  else
    let checksum := fold_left (λ c x, accumulate_lamports_checksum c (ls_account x) (ls_lamports x))
                      (sp_lamport_changes p) (lamport_accumulator_before p) in
    if checksum == accumulator then true
    else
      let '(found, checksum) := reaches accumulate_receipt accumulator (sp_receipt_balances p) checksum in
      if found then true
      else fst (reaches accumulate_token_withdrawal_checksum accumulator (sp_token_withdrawals p) checksum).
End checksum.

(** ** Chunks of account data *)

(** [index < er_data.len() && l1_data[index] != er_data[index]], moving on *)
Fixpoint differing_end (fuel : nat) (l1_data er_data : list byte) (index : nat) : option nat :=
  match fuel with
  | O => None
  | S fuel =>
      match er_data !! index with
      | None => Some index
      | Some e =>
          b ← l1_data !! index;
          if b == e then Some index else differing_end fuel l1_data er_data (S index)
      end
  end.

(** [l.chunks(n)] *)
Fixpoint slice_chunks (fuel n : nat) (l : list byte) : list (list byte) :=
  match fuel, l with
  | S fuel, _ :: _ => take n l :: slice_chunks fuel n (drop n l)
  | _, _ => []
  end.

Definition range_chunks (pubkey : Address) (er_data : list byte) (range_start index : nat) : list SettlementChunk :=
  imap (λ chunk_index d,
          mkSettlementChunk pubkey
            (Z.of_nat (range_start + chunk_index * Z.to_nat MAX_SETTLEMENT_CHUNK) `mod` 2 ^ 32) d)
    (slice_chunks (length er_data) (Z.to_nat MAX_SETTLEMENT_CHUNK) (slice er_data range_start (index - range_start))).

Fixpoint data_chunks_loop (fuel : nat) (pubkey : Address) (l1_data er_data : list byte) (index : nat) :
    option (list SettlementChunk) :=
  match fuel with
  | O => None
  | S fuel =>
      match er_data !! index with
      | None => Some []
      | Some e =>
          b ← l1_data !! index;
          if b == e then data_chunks_loop fuel pubkey l1_data er_data (S index)
          else
            let range_start := index in
            index ← differing_end (S (length er_data)) l1_data er_data (S index);
            chunks ← data_chunks_loop fuel pubkey l1_data er_data index;
            Some (range_chunks pubkey er_data range_start index ++ chunks)
      end
  end.

Definition data_chunks_for_account (pubkey : Address) (l1_data er_data : list byte) : option (list SettlementChunk) :=
  data_chunks_loop (S (length er_data)) pubkey l1_data er_data 0.

(** ** The plan *)

Definition unsupported_changes_for_account (d : ErStateDiffAccount) : list SettlementUnsupportedChange :=
  match l1_account d with
  | None => [MissingL1Account (pubkey d)]
  | Some l1 =>
      let er := er_account d in
      (if length (sa_data l1) != length (sa_data er)
       then [DataLengthChanged (pubkey d) (length (sa_data l1)) (length (sa_data er))] else []) ++
      (if sa_executable l1 != sa_executable er
       then [ExecutableChanged (pubkey d) (sa_executable l1) (sa_executable er)] else []) ++
      (if sa_rent_epoch l1 != sa_rent_epoch er
       then [RentEpochChanged (pubkey d) (sa_rent_epoch l1) (sa_rent_epoch er)] else [])
  end.

(** [(account, l1_lamports, er_lamports, target_before_payout)] *)
Record LamportCandidate : Set := mkLamportCandidate {
  lc_account : Address; lc_l1_lamports : Z; lc_er_lamports : Z; lc_target : Z
}.

(** The vectors the loop over the diff fills. *)
Record Collected : Set := mkCollected {
  co_chunks : list SettlementChunk;
  co_owner_changes : list AccountOwnerSettlement;
  co_lamport_candidates : list LamportCandidate;
  co_unsupported_changes : list SettlementUnsupportedChange;
  co_unsupported_accounts : gset Address
}.

Definition receipt_payouts (receipt_balances : list ReceiptBalanceSettlement) : gmap Address Z :=
  fold_left (λ m r,
      <[rb_l1_recipient r := (default 0 (m !! rb_l1_recipient r) + rb_payout_lamports r) `mod` 2 ^ 128]> m)
    receipt_balances ∅.

Definition collect_lamports (d : ErStateDiffAccount) (l1_lamports receipt_payout : Z) (c : Collected) : Collected :=
  let er_lamports := sa_lamports (er_account d) in
  let post_receipt_l1_lamports := saturating_add 128 l1_lamports receipt_payout in
  if post_receipt_l1_lamports == er_lamports then c
  else
    match checked_sub er_lamports receipt_payout ≫= (λ target, guard (target ≤ umax 64) ;; Some target) with
    | Some target =>
        mkCollected (co_chunks c) (co_owner_changes c)
          (co_lamport_candidates c ++ [mkLamportCandidate (pubkey d) l1_lamports er_lamports target])
          (co_unsupported_changes c) (co_unsupported_accounts c)
    | None =>
        mkCollected (co_chunks c) (co_owner_changes c) (co_lamport_candidates c)
          (co_unsupported_changes c ++ [LamportsChanged (pubkey d) l1_lamports er_lamports])
          ({[pubkey d]} ∪ co_unsupported_accounts c)
    end.

Definition collect_account (payouts : gmap Address Z) (delegated_accounts : gset Address) (d : ErStateDiffAccount)
    (c : Collected) : option Collected :=
  if negb (bool_decide (pubkey d ∈ delegated_accounts)) then Some c
  else
    match unsupported_changes_for_account d, l1_account d with
    | (_ :: _) as changes, _ =>
        Some (mkCollected (co_chunks c) (co_owner_changes c) (co_lamport_candidates c)
                (co_unsupported_changes c ++ changes)
                (list_to_set (omap account changes) ∪ co_unsupported_accounts c))
    | [], None => Some c
    | [], Some l1 =>
        let er := er_account d in
        let c :=
          if sa_owner l1 != sa_owner er then
            mkCollected (co_chunks c) (co_owner_changes c ++ [mkAccountOwnerSettlement (pubkey d) (sa_owner er)])
              (co_lamport_candidates c) (co_unsupported_changes c) (co_unsupported_accounts c)
          else c in
        let c := collect_lamports d (sa_lamports l1) (default 0 (payouts !! pubkey d)) c in
        chunks ← data_chunks_for_account (pubkey d) (sa_data l1) (sa_data er);
        Some (mkCollected (co_chunks c ++ chunks) (co_owner_changes c) (co_lamport_candidates c)
                (co_unsupported_changes c) (co_unsupported_accounts c))
    end.

Fixpoint collect (payouts : gmap Address Z) (delegated_accounts : gset Address) (diff : list ErStateDiffAccount)
    (c : Collected) : option Collected :=
  match diff with
  | [] => Some c
  | d :: diff' => c ← collect_account payouts delegated_accounts d c; collect payouts delegated_accounts diff' c
  end.

(** The part after the loop: more candidates than one instruction holds, or a
    total above the current one, drop them all. *)
Definition choose_lamports (c : Collected) : list AccountLamportsSettlement * Collected :=
  let candidates := co_lamport_candidates c in
  let without changes :=
    mkCollected (co_chunks c) (co_owner_changes c) candidates (co_unsupported_changes c ++ changes)
      (list_to_set (lc_account <$> candidates) ∪ co_unsupported_accounts c) in
  if (MAX_SETTLEMENT_LAMPORT_ACCOUNTS <? length candidates)%nat then
    ([], without [TooManyLamportChanges (length candidates) MAX_SETTLEMENT_LAMPORT_ACCOUNTS])
  else if foldr Z.add 0 (lc_l1_lamports <$> candidates) <? foldr Z.add 0 (lc_target <$> candidates) then
    ([], without ((λ x, LamportsChanged (lc_account x) (lc_l1_lamports x) (lc_er_lamports x)) <$> candidates))
  else ((λ x, mkAccountLamportsSettlement (lc_account x) (lc_target x)) <$> candidates, c).

Definition build_settlement_plan `{Host} (diff : list ErStateDiffAccount) (delegated_accounts : gset Address)
    (er_slot : Z) (receipt_balances : list ReceiptBalanceSettlement) : option (option SettlementPlan) :=
  c ← collect (receipt_payouts receipt_balances) delegated_accounts diff (mkCollected [] [] [] [] ∅);
  let '(lamport_changes, c) := choose_lamports c in
  let kept a := bool_decide (a ∉ co_unsupported_accounts c) in
  let retain {A} (f : A → Address) (l : list A) :=
    if no_items (co_unsupported_changes c) then l else filter (λ x, kept (f x) = true) l in
  let chunks := retain sc_account (co_chunks c) in
  let owner_changes := retain os_account (co_owner_changes c) in
  let lamport_changes := retain ls_account lamport_changes in
  if no_items chunks && no_items owner_changes && no_items lamport_changes && no_items receipt_balances
     && no_items (co_unsupported_changes c)
  then Some None
  else Some (Some (mkSettlementPlan er_slot
         (checksum_settlement er_slot chunks owner_changes lamport_changes receipt_balances [])
         chunks owner_changes lamport_changes receipt_balances [] (co_unsupported_changes c))).

(** ** Instructions *)

Record AccountMeta : Set := mkAccountMeta { am_pubkey : Address; am_is_signer : bool; am_is_writable : bool }.
Definition new (a : Address) (is_signer : bool) : AccountMeta := mkAccountMeta a is_signer true.
Definition new_readonly (a : Address) (is_signer : bool) : AccountMeta := mkAccountMeta a is_signer false.

Record Instruction : Set := mkInstruction {
  in_program_id : Address; in_accounts : list AccountMeta; in_data : list byte
}.

Section instructions.
Context `{Host} (portal_program_id session_pda validator : Address).

Abbreviation instr := (mkInstruction portal_program_id).

Definition checkpoint_proposal_instruction (p : SettlementPlan) (challenge_window_slots : Z)
    (commitment : CheckpointCommitmentV1.t) : Instruction :=
  let checkpoint := (find_checkpoint_pda portal_program_id session_pda (sp_er_slot p)).1 in
  let cursor := (find_checkpoint_cursor_pda portal_program_id session_pda).1 in
  instr [new validator true; new_readonly session_pda false; new checkpoint false; new cursor false;
         new_readonly system_id false]
    (PortalInstruction.serialize (PortalInstruction.ProposeCheckpoint (ProposeCheckpoint.mk
       (sp_er_slot p) (CheckpointCommitmentV1.step_count commitment)
       (CheckpointCommitmentV1.previous_state_root commitment) (CheckpointCommitmentV1.new_state_root commitment)
       (CheckpointCommitmentV1.trace_root commitment) (CheckpointCommitmentV1.transaction_effect_root commitment)
       (CheckpointCommitmentV1.readonly_l1_root commitment) (CheckpointCommitmentV1.da_commitment commitment)
       (CheckpointCommitmentV1.effect_commitment commitment) challenge_window_slots))).

Definition checkpoint_commit_instruction (p : SettlementPlan) : Instruction :=
  let checkpoint := (find_checkpoint_pda portal_program_id session_pda (sp_er_slot p)).1 in
  let cursor := (find_checkpoint_cursor_pda portal_program_id session_pda).1 in
  instr [new_readonly validator true; new_readonly session_pda false; new checkpoint false; new cursor false;
         new validator false]
    (PortalInstruction.serialize (PortalInstruction.CommitCheckpoint (CommitCheckpoint.mk (sp_er_slot p)))).

Definition begin_instruction (p : SettlementPlan) (effect_commitment : Hash32) : Instruction :=
  let checkpoint := (find_checkpoint_pda portal_program_id session_pda (sp_er_slot p)).1 in
  instr [new_readonly validator true; new session_pda false; new_readonly checkpoint false]
    (PortalInstruction.serialize (PortalInstruction.BeginSettlement
       (BeginSettlement.mk (sp_er_slot p) (sp_checksum p) effect_commitment))).

(** [chunk_data[..chunk.data.len()].copy_from_slice(&chunk.data)] panics when
    the chunk is too long. *)
Definition chunk_instruction (p : SettlementPlan) (chunk : SettlementChunk) : option Instruction :=
  let len := length (sc_data chunk) in
  if (Z.to_nat MAX_SETTLEMENT_CHUNK <? len)%nat then None
  else
    let chunk_data := sc_data chunk ++ zeros (Z.to_nat MAX_SETTLEMENT_CHUNK - len) in
    let delegation_record := (find_delegation_record_pda portal_program_id (sc_account chunk)).1 in
    Some (instr [new_readonly validator true; new session_pda false; new (sc_account chunk) false;
                 new_readonly delegation_record false]
            (PortalInstruction.serialize (PortalInstruction.WriteSettlementChunk
               (WriteSettlementChunk.mk (sp_er_slot p) (sp_checksum p) (sc_account_data_offset chunk)
                  (Z.of_nat len `mod` 2 ^ 16) chunk_data)))).

Definition owner_instruction (p : SettlementPlan) (x : AccountOwnerSettlement) : Instruction :=
  let delegation_record := (find_delegation_record_pda portal_program_id (os_account x)).1 in
  instr [new_readonly validator true; new session_pda false; new (os_account x) false; new delegation_record false]
    (PortalInstruction.serialize (PortalInstruction.SettleAccountOwner
       (SettleAccountOwner.mk (sp_er_slot p) (sp_checksum p) (os_owner x)))).

(** [lamports[index] = ...] panics past the array's seven places. *)
Definition lamports_instruction (p : SettlementPlan) : option Instruction :=
  let changes := sp_lamport_changes p in
  if (MAX_SETTLEMENT_LAMPORT_ACCOUNTS <? length changes)%nat then None
  else
    let lamports := (ls_lamports <$> changes) ++ replicate (MAX_SETTLEMENT_LAMPORT_ACCOUNTS - length changes) 0 in
    let pairs := mjoin ((λ x, [new (ls_account x) false;
                               new_readonly (find_delegation_record_pda portal_program_id (ls_account x)).1 false])
                        <$> changes) in
    Some (instr ([new_readonly validator true; new session_pda false] ++ pairs ++
                 [new (find_fee_vault_pda portal_program_id).1 false])
            (PortalInstruction.serialize (PortalInstruction.SettleAccountLamports
               (SettleAccountLamports.mk (sp_er_slot p) (sp_checksum p)
                  (Z.of_nat (length changes) `mod` 2 ^ 8) lamports))
             ++ lamport_accumulator_before p)).

Definition receipt_instruction (p : SettlementPlan) (x : ReceiptBalanceSettlement) : Instruction :=
  instr [new_readonly validator true; new session_pda false; new (rb_receipt x) false;
         new_readonly (rb_er_source x) false; new (rb_l1_recipient x) false]
    (PortalInstruction.serialize (PortalInstruction.SettleDepositReceipt
       (SettleDepositReceipt.mk (sp_er_slot p) (sp_checksum p) (rb_balance x) (rb_withdrawn x)
          (rb_payout_lamports x) (rb_l1_recipient x)))).

Definition finish_instruction (p : SettlementPlan) : Instruction :=
  let checkpoint := (find_checkpoint_pda portal_program_id session_pda (sp_er_slot p)).1 in
  let checkpoint_cursor := (find_checkpoint_cursor_pda portal_program_id session_pda).1 in
  instr [new_readonly validator true; new session_pda false; new checkpoint false; new checkpoint_cursor false]
    (PortalInstruction.serialize (PortalInstruction.FinishSettlement
       (FinishSettlement.mk (sp_er_slot p) (sp_checksum p)))).

Definition portal_instructions_inner (p : SettlementPlan) (include_begin : bool) (effect_commitment : Hash32) :
    option (list Instruction) :=
  if is_empty p && has_unsupported_changes p then Some []
  else
    chunks ← mapM (chunk_instruction p) (sp_chunks p);
    lamports ← (if no_items (sp_lamport_changes p) then Some []
                else i ← lamports_instruction p; Some [i]);
    Some ((if include_begin then [begin_instruction p effect_commitment] else []) ++ chunks ++
          (owner_instruction p <$> sp_owner_changes p) ++ lamports ++
          (receipt_instruction p <$> sp_receipt_balances p) ++ [finish_instruction p]).

Definition portal_instructions (p : SettlementPlan) : option (list Instruction) :=
  if is_empty p then Some [] else portal_instructions_inner p true (sp_checksum p).

(** *** Batches

    [tx_size] is [settlement_transaction_size]: the serialized size of a
    transaction the validator signs with the instructions.  A transaction is the
    list of its instructions. *)

Section batches.
Context (tx_size : list Instruction → Z).

Definition PACKET_DATA_SIZE : Z := 1232.

Fixpoint split_loop (instructions : list Instruction) (batches : list (list Instruction)) (current : list Instruction) :
    list (list Instruction) :=
  match instructions with
  | [] => if no_items current then batches else batches ++ [current]
  | i :: instructions' =>
      if PACKET_DATA_SIZE <? tx_size [i] then []
      else if tx_size (current ++ [i]) <=? PACKET_DATA_SIZE then split_loop instructions' batches (current ++ [i])
      else split_loop instructions' (if no_items current then batches else batches ++ [current]) [i]
  end.

Definition split_settlement_instruction_batches (instructions : list Instruction) : list (list Instruction) :=
  split_loop instructions [] [].

Definition portal_instruction_batches_inner (p : SettlementPlan) (include_begin : bool) (effect_commitment : Hash32) :
    option (list (list Instruction)) :=
  instructions ← portal_instructions_inner p include_begin effect_commitment;
  if no_items (sp_token_withdrawals p) then Some (split_settlement_instruction_batches instructions)
  else
    let finish := list.last instructions in
    let instructions := take (length instructions - 1) instructions in
    let batches := split_settlement_instruction_batches instructions in
    if negb (no_items instructions) && no_items batches then Some []
    else Some (match finish with Some finish => batches ++ [[finish]] | None => batches end).

Definition portal_instruction_batches (p : SettlementPlan) (include_begin : bool) :
    option (list (list Instruction)) :=
  if is_empty p then Some [] else portal_instruction_batches_inner p include_begin (sp_checksum p).

Definition portal_transactions (p : SettlementPlan) : option (list (list Instruction)) :=
  if is_empty p then Some [] else portal_instruction_batches_inner p true (sp_checksum p).

Definition portal_retry_transactions_after_begin (p : SettlementPlan) : option (list (list Instruction)) :=
  if is_empty p then Some [] else portal_instruction_batches_inner p false (sp_checksum p).

(** [instructions.retain(|i| i.data.first() != Some(&12))], dropping the batches
    that become empty *)
Definition portal_transactions_with_effect_commitment (p : SettlementPlan) (effect_commitment : Hash32)
    (resume_accumulator : option Hash32) : option (list (list Instruction)) :=
  let skip_lamports := match resume_accumulator with
                       | Some accumulator => lamports_already_applied p accumulator
                       | None => false
                       end in
  let retain (instructions : list Instruction) : list Instruction :=
    if skip_lamports then filter (λ i, head (in_data i) ≠ Some x0c) instructions else instructions in
  (λ batches : list (list Instruction), filter (λ b, no_items b = false) (retain <$> batches))
  <$> portal_instruction_batches_inner p (bool_decide (resume_accumulator = None)) effect_commitment.
End batches.

Definition checkpoint_proposal_transaction (p : SettlementPlan) (challenge_window_slots : Z)
    (commitment : CheckpointCommitmentV1.t) : option (list Instruction) :=
  if negb (has_unsupported_changes p) && (CheckpointCommitmentV1.session commitment == session_pda)
     && (CheckpointCommitmentV1.er_slot commitment == sp_er_slot p)
  then Some [checkpoint_proposal_instruction p challenge_window_slots commitment] else None.

Definition checkpoint_commit_transaction (p : SettlementPlan) : list Instruction := [checkpoint_commit_instruction p].

(** *** Token withdrawals *)

Definition token_withdrawal_authorization_transactions (withdrawals : list TokenWithdrawalSettlement) (er_slot : Z)
    (checksum : Hash32) : list (list Instruction) :=
  let checkpoint := (find_checkpoint_pda portal_program_id session_pda er_slot).1 in
  (λ x, [instr
     [new validator true; new session_pda false; new_readonly (ts_session_bridge x) false;
      new_readonly (ts_vault x) false; new_readonly (ts_er_token_account x) false;
      new_readonly (ts_vault_token_account x) false; new_readonly (ts_l1_destination_token_account x) false;
      new_readonly (ts_mint x) false; new_readonly (ts_token_program x) false;
      new (find_token_withdrawal_authorization_pda portal_program_id checkpoint (ts_vault x) (ts_withdrawn x)).1 false;
      new_readonly system_id false]
     (PortalInstruction.serialize (PortalInstruction.AccumulateTokenWithdrawal
        (AccumulateTokenWithdrawal.mk er_slot checksum (ts_amount x) (ts_withdrawn x) (ts_decimals x))))])
  <$> withdrawals.

Definition token_withdrawal_transactions (withdrawals : list TokenWithdrawalSettlement) (er_slot : Z)
    (effect_commitment : Hash32) : list (list Instruction) :=
  let checkpoint := (find_checkpoint_pda portal_program_id session_pda er_slot).1 in
  (λ x, [mkInstruction (ts_bridge_program x)
     [new_readonly validator true; new session_pda false; new_readonly checkpoint false;
      new (find_token_withdrawal_authorization_pda portal_program_id checkpoint (ts_vault x) (ts_withdrawn x)).1 false;
      new_readonly (ts_session_bridge x) false; new_readonly portal_program_id false; new (ts_vault x) false;
      new_readonly (ts_er_token_account x) false; new (ts_vault_token_account x) false;
      new (ts_l1_destination_token_account x) false; new_readonly (ts_mint x) false;
      new_readonly (ts_token_program x) false]
     (enc borsh (TokenBridgeInstruction.SettleWithdrawal er_slot effect_commitment (ts_amount x) (ts_withdrawn x)
        (ts_decimals x)))])
  <$> withdrawals.
End instructions.

(** ** The chunks rebuild the data *)

Definition apply_chunk (d : list byte) (c : SettlementChunk) : list byte :=
  splice d (Z.to_nat (sc_account_data_offset c)) (sc_data c).

(** A chunk of [k]'s data [er]. *)
Definition chunk_ok (k : Address) (er : list byte) (c : SettlementChunk) : Prop :=
  sc_account c = k ∧ (0 < length (sc_data c) ≤ 700)%nat ∧ 0 ≤ sc_account_data_offset c ∧
  sc_account_data_offset c + Z.of_nat (length (sc_data c)) ≤ Z.of_nat (length er) ∧
  sc_data c = slice er (Z.to_nat (sc_account_data_offset c)) (length (sc_data c)).

(** The first [n] bytes are [er]'s, the rest [l1]'s. *)
Definition mixed (er l1 : list byte) (n : nat) : list byte := take n er ++ drop n l1.

Lemma mixed_splice er l1 s m :
  length l1 = length er → (s + m ≤ length er)%nat → splice (mixed er l1 s) s (slice er s m) = mixed er l1 (s + m).
Proof.
  intros Hl Hm. unfold splice, mixed, slice. rewrite take_app_length' by (rewrite length_take; lia).
  rewrite length_take, length_drop, Nat.min_l by lia. rewrite drop_app_ge by (rewrite length_take; lia).
  rewrite length_take, drop_drop, Nat.min_l by lia. rewrite app_assoc, take_take_drop. do 2 f_equal. lia.
Qed.

Lemma mixed_same er l1 s b : er !! s = Some b → l1 !! s = Some b → mixed er l1 (S s) = mixed er l1 s.
Proof.
  intros He Hl. unfold mixed. rewrite (take_S_r _ _ _ He), (drop_S _ _ _ Hl), <- app_assoc. done.
Qed.

Abbreviation numbered k s := (imap (λ j d, mkSettlementChunk k (Z.of_nat (s + j * 700) `mod` 2 ^ 32) d)).

Lemma numbered_cons k s d l : (Z.of_nat s < 2 ^ 32) →
  numbered k s (d :: l) = mkSettlementChunk k (Z.of_nat s) d :: numbered k (s + 700)%nat l.
Proof.
  intros Hs. rewrite imap_cons. f_equal; [f_equal; rewrite Nat.add_0_r, Z.mod_small; lia|].
  apply imap_ext. intros j x _. cbn. do 3 f_equal. lia.
Qed.

Lemma slice_take er s m n : take n (slice er s m) = slice er s (n `min` m).
Proof. unfold slice. by rewrite take_take. Qed.
Lemma slice_drop er s m n : drop n (slice er s m) = slice er (s + n) (m - n).
Proof. unfold slice. by rewrite skipn_firstn_comm, drop_drop. Qed.

Lemma slice_nonempty er s m : (s + m ≤ length er)%nat → slice er s m = [] → m = 0%nat.
Proof. intros Hm He. apply (f_equal length) in He. unfold slice in He. rewrite length_take, length_drop in He. simpl in He. lia. Qed.

Lemma range_rebuilds fuel k l1 er s m :
  length l1 = length er → Z.of_nat (length er) < 2 ^ 32 → (s + m ≤ length er)%nat → (m ≤ fuel)%nat →
  let cs := numbered k s (slice_chunks fuel 700 (slice er s m)) in
  fold_left apply_chunk cs (mixed er l1 s) = mixed er l1 (s + m) ∧ Forall (chunk_ok k er) cs.
Proof.
  intros Hl Hw. revert s m. induction fuel as [|fuel IH]; intros s m Hm Hf; cbv zeta.
  { replace m with 0%nat by lia. by rewrite Nat.add_0_r. }
  cbn [slice_chunks]. destruct (slice er s m) as [|b l] eqn:Hs.
  { apply slice_nonempty in Hs as ->; [|done]. by rewrite Nat.add_0_r. }
  assert (Hm0 : (0 < m)%nat) by (destruct m; [discriminate Hs|lia]).
  rewrite <- Hs. clear b l Hs. rewrite numbered_cons by lia. rewrite slice_take, slice_drop.
  assert (Hlen : length (slice er s (700 `min` m)) = (700 `min` m)%nat).
  { unfold slice. rewrite length_take, length_drop. lia. }
  assert (Hd : fold_left apply_chunk (numbered k (s + 700)%nat (slice_chunks fuel 700 (slice er (s + 700) (m - 700))))
      (mixed er l1 (s + 700 `min` m)) = mixed er l1 (s + m) ∧
    Forall (chunk_ok k er) (numbered k (s + 700)%nat (slice_chunks fuel 700 (slice er (s + 700) (m - 700))))).
  { destruct (decide (m ≤ 700)%nat) as [Hle|Hgt].
    - replace (m - 700)%nat with 0%nat by lia. rewrite Nat.min_r by lia. by destruct fuel.
    - rewrite Nat.min_l by lia. replace (s + m)%nat with (s + 700 + (m - 700))%nat by lia. apply IH; lia. }
  destruct Hd as [Hd1 Hd2]. split.
  - cbn [fold_left]. unfold apply_chunk at 2. cbn [sc_account_data_offset sc_data]. rewrite Nat2Z.id, mixed_splice by lia. done.
  - apply list.Forall_cons. split; [|done]. unfold chunk_ok. cbn [sc_account sc_account_data_offset sc_data].
    rewrite Nat2Z.id, Hlen. split_and!; [done|lia|lia|lia|lia|done].
Qed.

Lemma differing_end_ok fuel l1 er i :
  length l1 = length er → (length er < fuel + i)%nat → (i ≤ length er)%nat →
  ∃ e, differing_end fuel l1 er i = Some e ∧ (i ≤ e ≤ length er)%nat.
Proof.
  intros Hl. revert i. induction fuel as [|fuel IH]; intros i Hf Hi; [lia|]. cbn [differing_end].
  destruct (er !! i) as [e|] eqn:He; [|by eauto].
  apply lookup_lt_Some in He as Hlt. destruct (lookup_lt_is_Some_2 l1 i) as [b ->]; [lia|]. cbn [mbind option_bind].
  destruct (b == e); [by eauto|]. destruct (IH (S i)) as (e' & -> & ?); [lia..|]. exists e'. split; [done|lia].
Qed.

Lemma data_chunks_loop_ok fuel k l1 er i :
  length l1 = length er → Z.of_nat (length er) < 2 ^ 32 → (length er < fuel + i)%nat → (i ≤ length er)%nat →
  ∃ cs, data_chunks_loop fuel k l1 er i = Some cs ∧ fold_left apply_chunk cs (mixed er l1 i) = er ∧
    Forall (chunk_ok k er) cs.
Proof.
  intros Hl Hw. revert i. induction fuel as [|fuel IH]; intros i Hf Hi; [lia|]. cbn [data_chunks_loop].
  destruct (er !! i) as [e|] eqn:He.
  2:{ apply lookup_ge_None in He. exists []. split; [done|]. split; [|done]. cbn. unfold mixed.
      by rewrite take_ge, drop_ge, app_nil_r by lia. }
  apply lookup_lt_Some in He as Hlt. destruct (lookup_lt_is_Some_2 l1 i) as [b Hb]; [lia|].
  rewrite Hb. cbn [mbind option_bind]. destruct (b == e) eqn:Heq; bprop.
  - subst e. rewrite <- (mixed_same er l1 i b) by done. apply IH; lia.
  - destruct (differing_end_ok (S (length er)) l1 er (S i)) as (j & -> & Hj); [lia..|]. cbn [mbind option_bind].
    destruct (IH j) as (cs & -> & Hcs & Hok); [lia..|]. cbn [mbind option_bind]. eexists. split; [done|].
    destruct (range_rebuilds (length er) k l1 er i (j - i)) as [Hr1 Hr2]; [lia..|]. unfold range_chunks.
    change (Z.to_nat MAX_SETTLEMENT_CHUNK) with 700%nat.
    rewrite fold_left_app, Hr1. replace (i + (j - i))%nat with j by lia. split; [done|by apply Forall_app].
Qed.

Lemma data_chunks_ok k l1 er :
  length l1 = length er → Z.of_nat (length er) < 2 ^ 32 →
  ∃ cs, data_chunks_for_account k l1 er = Some cs ∧ fold_left apply_chunk cs l1 = er ∧ Forall (chunk_ok k er) cs.
Proof. intros. unfold data_chunks_for_account. apply (data_chunks_loop_ok _ _ _ _ 0); lia || done. Qed.

(** ** The operations of a plan *)

Definition token_checksum (x : TokenWithdrawalSettlement) : TokenWithdrawalChecksum := {|
  tw_bridge_program := ts_bridge_program x; tw_session_bridge := ts_session_bridge x;
  tw_er_token_account := ts_er_token_account x; tw_vault := ts_vault x;
  tw_vault_token_account := ts_vault_token_account x;
  tw_destination_token_account := ts_l1_destination_token_account x; tw_mint := ts_mint x;
  tw_token_program := ts_token_program x; tw_amount := ts_amount x; tw_withdrawn := ts_withdrawn x;
  tw_decimals := ts_decimals x |}.

Definition chunk_op (c : SettlementChunk) : SettleOp := SetData (sc_account c) (sc_account_data_offset c) (sc_data c).
Definition owner_op (x : AccountOwnerSettlement) : SettleOp := SetOwner (os_account x) (os_owner x).
Definition lamports_op (x : AccountLamportsSettlement) : SettleOp := SetLamports (ls_account x) (ls_lamports x).
Definition receipt_op (x : ReceiptBalanceSettlement) : SettleOp :=
  SettleReceipt (rb_er_source x) (rb_l1_recipient x) (rb_balance x) (rb_withdrawn x) (rb_payout_lamports x).

(** Up to and with the lamport changes, and after them. *)
Definition early_ops (p : SettlementPlan) : list SettleOp :=
  (chunk_op <$> sp_chunks p) ++ (owner_op <$> sp_owner_changes p).
Definition late_ops (p : SettlementPlan) : list SettleOp :=
  (receipt_op <$> sp_receipt_balances p) ++ ((SettleToken ∘ token_checksum) <$> sp_token_withdrawals p).
Definition plan_ops (p : SettlementPlan) : list SettleOp :=
  early_ops p ++ (lamports_op <$> sp_lamport_changes p) ++ late_ops p.

Section folds.
Context `{HostLaws}.

Lemma fold_left_ops {A} (f : Hash32 → A → Hash32) (g : A → SettleOp) l c :
  (∀ c x, f c x = accumulate c (g x)) → fold_left f l c = fold_left accumulate (g <$> l) c.
Proof. intros Hf. revert c. induction l as [|x l IH]; intros c; [done|]. cbn. by rewrite Hf, IH. Qed.

(** The planner's checksum is the Portal's accumulator after the plan. *)
Lemma recomputed_checksum_fold p : recomputed_checksum p = settle_fold (sp_er_slot p) (plan_ops p).
Proof.
  unfold recomputed_checksum, checksum_settlement, settle_fold, plan_ops, early_ops, late_ops. rewrite !fold_left_app.
  rewrite (fold_left_ops _ chunk_op), (fold_left_ops _ owner_op), (fold_left_ops _ lamports_op),
    (fold_left_ops _ receipt_op), (fold_left_ops _ (SettleToken ∘ token_checksum)) by done. done.
Qed.

Lemma lamport_accumulator_before_fold p : lamport_accumulator_before p = settle_fold (sp_er_slot p) (early_ops p).
Proof.
  unfold lamport_accumulator_before, checksum_settlement, settle_fold, early_ops. rewrite !fold_left_app.
  rewrite (fold_left_ops _ chunk_op), (fold_left_ops _ owner_op) by done. done.
Qed.

Lemma reaches_Some {A} (f : Hash32 → A → Hash32) (g : A → SettleOp) acc l c :
  (∀ c x, f c x = accumulate c (g x)) →
  (reaches f acc l c).1 = true → ∃ pre post, l = pre ++ post ∧ acc = fold_left accumulate (g <$> pre) c.
Proof.
  intros Hf. revert c. induction l as [|x l IH]; intros c; cbn [reaches]; [done|].
  destruct (f c x == acc) eqn:He; bprop.
  - intros _. exists [x], l. split; [done|]. cbn. by rewrite <- Hf.
  - intros (pre & post & -> & ->)%IH. exists (x :: pre), post. split; [done|]. cbn. by rewrite Hf.
Qed.

Lemma reaches_None {A} (f : Hash32 → A → Hash32) (g : A → SettleOp) acc l c :
  (∀ c x, f c x = accumulate c (g x)) →
  (reaches f acc l c).1 = false → (reaches f acc l c).2 = fold_left accumulate (g <$> l) c.
Proof.
  intros Hf. revert c. induction l as [|x l IH]; intros c; cbn [reaches]; [done|].
  destruct (f c x == acc); [done|]. intros Hr. cbn. by rewrite <- Hf, IH.
Qed.

(** A positive answer names a point of the plan past the lamport changes. *)
Lemma lamports_already_applied_true p acc :
  lamports_already_applied p acc = true →
  sp_lamport_changes p ≠ [] ∧ ∃ pre post, late_ops p = pre ++ post ∧
    acc = settle_fold (sp_er_slot p) (early_ops p ++ (lamports_op <$> sp_lamport_changes p) ++ pre).
Proof.
  unfold lamports_already_applied. destruct (sp_lamport_changes p) as [|ch chs] eqn:Hl; [done|]. cbn [no_items].
  rewrite <- Hl. intros Hr. split; [by rewrite Hl|].
  rewrite lamport_accumulator_before_fold, (fold_left_ops _ lamports_op) in Hr by done.
  unfold settle_fold in *. rewrite <- fold_left_app in Hr.
  set (start := fold_left accumulate _ _) in Hr. destruct (start == acc) eqn:He; bprop.
  { exists [], (late_ops p). split; [done|]. by rewrite app_nil_r. }
  destruct (reaches accumulate_receipt _ _ _) as [found c] eqn:Hre. destruct found.
  - destruct (reaches_Some accumulate_receipt receipt_op acc (sp_receipt_balances p) start) as (pre & post & Hs & Ha);
      [done|by rewrite Hre|].
    exists (receipt_op <$> pre), ((receipt_op <$> post) ++ ((SettleToken ∘ token_checksum) <$> sp_token_withdrawals p)).
    unfold late_ops. rewrite Hs, fmap_app, <- app_assoc. split; [done|]. by rewrite app_assoc, fold_left_app.
  - pose proof (reaches_None accumulate_receipt receipt_op acc (sp_receipt_balances p) start) as Hc.
    rewrite Hre in Hc. cbn in Hc. specialize (Hc (λ _ _, eq_refl) eq_refl). subst c.
    apply (reaches_Some _ (SettleToken ∘ token_checksum)) in Hr as (pre & post & Hs & Ha); [|done].
    exists ((receipt_op <$> sp_receipt_balances p) ++ ((SettleToken ∘ token_checksum) <$> pre)),
      ((SettleToken ∘ token_checksum) <$> post).
    unfold late_ops. rewrite Hs, fmap_app, <- app_assoc. split; [done|].
    by rewrite app_assoc, app_assoc, !fold_left_app, <- (fold_left_app _ _ _ (initial_settlement_checksum _)).
Qed.
End folds.

(** ** Batches *)

Section batching.
Context (tx_size : list Instruction → Z).

Definition fits (b : list Instruction) : Prop := b ≠ [] ∧ tx_size b ≤ PACKET_DATA_SIZE.

Lemma split_loop_ok l batches current :
  Forall fits batches → (current = [] ∨ fits current) →
  Exists (λ i, PACKET_DATA_SIZE < tx_size [i]) l ∧ split_loop tx_size l batches current = [] ∨
  concat (split_loop tx_size l batches current) = concat batches ++ current ++ l ∧
  Forall fits (split_loop tx_size l batches current).
Proof.
  revert batches current. induction l as [|i l IH]; intros batches current Hb Hc; cbn [split_loop].
  - right. destruct current as [|j cur]; cbn [no_items]; [by rewrite !app_nil_r|]. destruct Hc as [?|Hc]; [done|].
    rewrite concat_app, app_nil_r. cbn [concat]. rewrite app_nil_r. split; [done|].
    apply Forall_app. by rewrite Forall_singleton.
  - destruct (_ <? _) eqn:Hi; bprop; [left; split; [by left|done]|].
    assert (Hpush : ∀ bs cur, Forall fits bs → fits cur → concat bs ++ cur = (concat batches ++ current) ++ [i] →
      Exists (λ i, PACKET_DATA_SIZE < tx_size [i]) (i :: l) ∧ split_loop tx_size l bs cur = [] ∨
      concat (split_loop tx_size l bs cur) = concat batches ++ current ++ i :: l ∧ Forall fits (split_loop tx_size l bs cur)).
    { intros bs cur Hbs Hcur He. destruct (IH bs cur) as [[? ?]|[Hcat ?]]; [done|by right|left; split; [by right|done]|].
      right. split; [|done]. rewrite Hcat, app_assoc, He, <- !app_assoc. done. }
    destruct (_ <=? _) eqn:Hs; bprop.
    + apply Hpush; [done|split; [by destruct current|done]|by rewrite app_assoc].
    + destruct current as [|j cur]; cbn [no_items]; apply Hpush; try done.
      * by rewrite app_nil_r.
      * apply Forall_app. rewrite Forall_singleton. by destruct Hc.
      * rewrite concat_app. cbn [concat]. by rewrite app_nil_r.
Qed.

(** Every instruction is in one batch, in order, and every batch fits a packet;
    or an instruction alone does not fit, and there is no batch. *)
Lemma split_batches_ok l :
  Exists (λ i, PACKET_DATA_SIZE < tx_size [i]) l ∧ split_settlement_instruction_batches tx_size l = [] ∨
  concat (split_settlement_instruction_batches tx_size l) = l ∧
  Forall fits (split_settlement_instruction_batches tx_size l).
Proof. apply (split_loop_ok l [] []); [done|by left]. Qed.
End batching.
End Planner.
