(* ===== verification/Mirror.v ===== *)
(** * The settled accounts are the rollup's

    A plan without unsupported changes takes the L1 state of every delegated
    account of the diff to its rollup state ([plan_reaches_rollup_state]).  Carried out by the
    Portal, instruction by instruction, it leaves the accounts in that state
    ([settlement_mirrors_rollup]). *)

From Stdlib Require Import ZArith Lia.
From Stdlib Require Import Strings.Byte.
From stdpp Require Import base gmap list numbers.
From S2P Require Import Prelude Borsh Events Runtime State Commitments Frames Toy Pda Instruction Verifier Merkle StepProof Artifact SessionOps Delegation Settlement Checkpoint Challenge Deposits Ingress TokenWithdrawal BridgeState Continuity Dispatch Bridge Integrity Planner.

Import Planner.

(** ** What operations do to one account *)

Definition with_sa_data (d : list byte) (x : SharedAccount) : SharedAccount :=
  mkSharedAccount (sa_lamports x) d (sa_owner x) (sa_executable x) (sa_rent_epoch x).
Definition with_sa_owner (o : Address) (x : SharedAccount) : SharedAccount :=
  mkSharedAccount (sa_lamports x) (sa_data x) o (sa_executable x) (sa_rent_epoch x).
Definition with_sa_lamports (n : Z) (x : SharedAccount) : SharedAccount :=
  mkSharedAccount n (sa_data x) (sa_owner x) (sa_executable x) (sa_rent_epoch x).

(** The effect of an operation on account [a]. *)
Definition apply_op (a : Address) (x : SharedAccount) (op : SettleOp) : SharedAccount :=
  match op with
  | SetData b off d => if decide (b = a) then with_sa_data (splice (sa_data x) (Z.to_nat off) d) x else x
  | SetOwner b o => if decide (b = a) then with_sa_owner o x else x
  | SetLamports b n => if decide (b = a) then with_sa_lamports n x else x
  | SettleReceipt _ l _ _ pay => if decide (l = a) then with_sa_lamports (sa_lamports x + pay) x else x
  | SettleToken _ => x
  end.

Definition payout_total (a : Address) (l : list ReceiptBalanceSettlement) : Z :=
  foldr (λ r n, (if decide (rb_l1_recipient r = a) then rb_payout_lamports r else 0) + n) 0 l.

Lemma fold_chunks a l x :
  fold_left (apply_op a) (chunk_op <$> l) x
  = with_sa_data (fold_left apply_chunk (filter (λ c, sc_account c = a) l) (sa_data x)) x.
Proof.
  revert x. induction l as [|c l IH]; intros x; [by destruct x|].
  cbn [fmap list_fmap fold_left]. rewrite IH, filter_cons. cbn [chunk_op apply_op]. by case_decide.
Qed.

Lemma fold_owners a l x :
  fold_left (apply_op a) (owner_op <$> l) x
  = with_sa_owner (fold_left (λ _ c, os_owner c) (filter (λ c, os_account c = a) l) (sa_owner x)) x.
Proof.
  revert x. induction l as [|c l IH]; intros x; [by destruct x|].
  cbn [fmap list_fmap fold_left]. rewrite IH, filter_cons. cbn [owner_op apply_op]. by case_decide.
Qed.

Lemma fold_lamports a l x :
  fold_left (apply_op a) (lamports_op <$> l) x
  = with_sa_lamports (fold_left (λ _ c, ls_lamports c) (filter (λ c, ls_account c = a) l) (sa_lamports x)) x.
Proof.
  revert x. induction l as [|c l IH]; intros x; [by destruct x|].
  cbn [fmap list_fmap fold_left]. rewrite IH, filter_cons. cbn [lamports_op apply_op]. by case_decide.
Qed.

Lemma fold_receipts a l x :
  fold_left (apply_op a) (receipt_op <$> l) x = with_sa_lamports (sa_lamports x + payout_total a l) x.
Proof.
  revert x. induction l as [|c l IH]; intros x; cbn [fmap list_fmap fold_left].
  - destruct x. unfold payout_total, with_sa_lamports. cbn. f_equal. lia.
  - rewrite IH. cbn [receipt_op apply_op]. unfold payout_total, with_sa_lamports.
    case_decide as Hd; cbn [foldr sa_lamports sa_data sa_owner sa_executable sa_rent_epoch]; rewrite ?decide_True, ?decide_False by done;
      f_equal; lia.
Qed.

(** The payouts the planner adds up do not overflow. *)
Definition payouts_in_range (l : list ReceiptBalanceSettlement) : Prop :=
  Forall (λ r, is_u64 (rb_payout_lamports r)) l ∧ Z.of_nat (length l) < 2 ^ 64.

Lemma payout_total_bound a l : Forall (λ r, is_u64 (rb_payout_lamports r)) l →
  0 ≤ payout_total a l ≤ Z.of_nat (length l) * umax 64.
Proof.
  induction 1 as [|r l Hr Hl IH]; [cbn; lia|]. unfold in_width in Hr. cbn [length payout_total foldr].
  change (foldr _ 0 l) with (payout_total a l). case_decide; lia.
Qed.

Lemma receipt_payouts_app l r :
  receipt_payouts (l ++ [r]) = <[rb_l1_recipient r :=
    (default 0 (receipt_payouts l !! rb_l1_recipient r) + rb_payout_lamports r) `mod` 2 ^ 128]> (receipt_payouts l).
Proof. unfold receipt_payouts. by rewrite fold_left_app. Qed.

Lemma payout_total_app a l r :
  payout_total a (l ++ [r]) = payout_total a l + (if decide (rb_l1_recipient r = a) then rb_payout_lamports r else 0).
Proof. induction l as [|x l IH]; cbn; [lia|]. unfold payout_total in IH. lia. Qed.

Lemma receipt_payouts_total a l : payouts_in_range l → default 0 (receipt_payouts l !! a) = payout_total a l.
Proof.
  intros [Hl Hn]. induction l as [|r l IH] using rev_ind; [done|].
  pose proof (payout_total_bound a _ Hl) as Hb. rewrite length_app in Hn, Hb. cbn in Hn, Hb.
  apply Forall_app in Hl as [Hl Hr]. rewrite receipt_payouts_app, payout_total_app in *.
  destruct (decide (rb_l1_recipient r = a)) as [->|Hne].
  - rewrite lookup_insert_eq. cbn. rewrite IH by (done || lia). apply Z.mod_small. unfold umax in Hb. lia.
  - rewrite lookup_insert_ne by done. rewrite IH by (done || lia). lia.
Qed.

(** ** What the planner collects *)

(** The accounts of a diff, as the rollup holds them. *)
Definition diff_ok (d : ErStateDiffAccount) : Prop :=
  is_u64 (sa_lamports (er_account d)) ∧ Z.of_nat (length (sa_data (er_account d))) < 2 ^ 32.

Definition owner_part (d : ErStateDiffAccount) (l1 : SharedAccount) : list AccountOwnerSettlement :=
  if sa_owner l1 != sa_owner (er_account d) then [mkAccountOwnerSettlement (pubkey d) (sa_owner (er_account d))] else [].

(** The candidate of an account, given what receipts pay to it. *)
Definition lamports_part (d : ErStateDiffAccount) (l1 : SharedAccount) (pay : Z) (cand : list LamportCandidate) : Prop :=
  cand = [] ∧ sa_lamports l1 + pay = sa_lamports (er_account d) ∨
  cand = [mkLamportCandidate (pubkey d) (sa_lamports l1) (sa_lamports (er_account d))
            (sa_lamports (er_account d) - pay)].

(** What a supported account adds. *)
Definition part_of (d : ErStateDiffAccount) (pay : Z) (cs : list SettlementChunk) (os : list AccountOwnerSettlement)
    (cand : list LamportCandidate) : Prop :=
  ∃ l1, l1_account d = Some l1 ∧ sa_executable l1 = sa_executable (er_account d) ∧
    sa_rent_epoch l1 = sa_rent_epoch (er_account d) ∧ os = owner_part d l1 ∧ lamports_part d l1 pay cand ∧
    fold_left apply_chunk cs (sa_data l1) = sa_data (er_account d) ∧ Forall (λ c, sc_account c = pubkey d) cs ∧
    Forall (λ c, (length (sc_data c) ≤ 700)%nat ∧ in_width 32 (sc_account_data_offset c)) cs.

Lemma collect_lamports_ok d l1 pay c :
  is_u64 (sa_lamports (er_account d)) →
  let c' := collect_lamports d (sa_lamports l1) pay c in
  co_unsupported_changes c' = [] →
  co_unsupported_changes c = [] ∧ ∃ cand, lamports_part d l1 pay cand ∧
    c' = mkCollected (co_chunks c) (co_owner_changes c) (co_lamport_candidates c ++ cand) [] (co_unsupported_accounts c).
Proof.
  intros Her. cbv zeta. unfold collect_lamports. destruct (_ == _) eqn:He; bprop; intros Hu.
  { split; [done|]. exists []. split; [left; split; [done|]|destruct c as [x1 x2 x3 x4 x5]; cbn in Hu; subst x4; cbn; by rewrite app_nil_r].
    unfold saturating_add, in_width, umax in *. lia. }
  destruct (_ ≫= _) as [t|] eqn:Ht; cbn in Hu; [|by destruct (co_unsupported_changes c)].
  apply bind_Some in Ht as (t' & Ht & Hg). apply checked_sub_Some in Ht as [-> ?].
  apply bind_Some in Hg as (_ & _ & [= <-]). split; [done|]. eexists. split; [by right|]. by rewrite Hu.
Qed.

Lemma unsupported_nil d : unsupported_changes_for_account d = [] → ∃ l1, l1_account d = Some l1 ∧
  length (sa_data l1) = length (sa_data (er_account d)) ∧ sa_executable l1 = sa_executable (er_account d) ∧
  sa_rent_epoch l1 = sa_rent_epoch (er_account d).
Proof.
  unfold unsupported_changes_for_account. destruct (l1_account d) as [l1|]; [|done]. intros Hu.
  apply app_eq_nil in Hu as [H1 Hu]. apply app_eq_nil in Hu as [H2 H3]. exists l1. split; [done|].
  repeat case_match; bprop; done.
Qed.

(** One account, when nothing unsupported has been seen after it. *)
Lemma collect_account_ok pays delegated d c c' :
  diff_ok d → collect_account pays delegated d c = Some c' → co_unsupported_changes c' = [] →
  co_unsupported_changes c = [] ∧
  ((pubkey d ∉ delegated) ∧ c' = c ∨
   (pubkey d ∈ delegated) ∧ ∃ cs os cand, part_of d (default 0 (pays !! pubkey d)) cs os cand ∧
     c' = mkCollected (co_chunks c ++ cs) (co_owner_changes c ++ os) (co_lamport_candidates c ++ cand) []
            (co_unsupported_accounts c)).
Proof.
  intros [Her Hlen] Hr Hu. unfold collect_account in Hr. destruct (negb _) eqn:Hd; bprop; [naive_solver|].
  destruct (unsupported_changes_for_account d) as [|ch chs] eqn:Hun;
    [|injection Hr as <-; cbn in Hu; by destruct (co_unsupported_changes c)].
  apply unsupported_nil in Hun as (l1 & Hl1 & Hl & He & Hre). rewrite Hl1 in Hr.
  destruct (data_chunks_ok (pubkey d) _ _ Hl Hlen) as (cs & Hcs & Hfold & Hok). rewrite Hcs in Hr.
  cbn [mbind option_bind] in Hr. injection Hr as <-. cbn [co_unsupported_changes] in Hu.
  apply collect_lamports_ok in Hu as (Hu & cand & Hcand & ->); [|done].
  cbn [co_chunks co_owner_changes co_lamport_candidates co_unsupported_changes co_unsupported_accounts].
  assert (Hpart : part_of d (default 0 (pays !! pubkey d)) cs (owner_part d l1) cand).
  { exists l1. split_and!; try done; eapply Forall_impl; try exact Hok; intros x (? & ? & ? & ? & _); [done|].
    split; [lia|]. unfold in_width, umax. lia. }
  unfold owner_part in *. revert Hu. destruct (sa_owner l1 != _); cbn; intros Hu.
  - split; [done|]. right. split; [done|]. eauto 10.
  - split; [done|]. right. split; [done|]. exists cs, [], cand. rewrite app_nil_r. eauto.
Qed.

Definition on {A} (f : A → Address) (a : Address) (l : list A) : list A := filter (λ x, f x = a) l.

Lemma on_app {A} (f : A → Address) a l k : on f a (l ++ k) = on f a l ++ on f a k.
Proof. apply list.filter_app. Qed.
Lemma on_all {A} (f : A → Address) a l : Forall (λ x, f x = a) l → on f a l = l.
Proof. induction 1 as [|x l Hx Hl IH]; [done|]. unfold on in *. rewrite filter_cons, decide_True by done. by rewrite IH. Qed.
Lemma on_none {A} (f : A → Address) a l : Forall (λ x, f x ≠ a) l → on f a l = [].
Proof. induction 1 as [|x l Hx Hl IH]; [done|]. unfold on in *. by rewrite filter_cons, decide_False. Qed.

Lemma part_accounts d pay cs os cand : part_of d pay cs os cand →
  Forall (λ c, sc_account c = pubkey d) cs ∧ Forall (λ c, os_account c = pubkey d) os ∧
  Forall (λ c, lc_account c = pubkey d) cand.
Proof.
  intros (l1 & _ & _ & _ & -> & Hl & _ & Hc & _). split_and!; [done| |].
  - unfold owner_part. case_match; by repeat constructor.
  - destruct Hl as [[-> _]| ->]; by repeat constructor.
Qed.

(** What the three vectors hold for account [a]. *)
Definition holds (a : Address) (c : Collected) (cs : list SettlementChunk) (os : list AccountOwnerSettlement)
    (cand : list LamportCandidate) : Prop :=
  on sc_account a (co_chunks c) = cs ∧ on os_account a (co_owner_changes c) = os ∧
  on lc_account a (co_lamport_candidates c) = cand.

Lemma holds_part a d pay c cs0 os0 cand0 cs os cand :
  holds a c cs0 os0 cand0 → part_of d pay cs os cand →
  let c' := mkCollected (co_chunks c ++ cs) (co_owner_changes c ++ os) (co_lamport_candidates c ++ cand) []
              (co_unsupported_accounts c) in
  if decide (pubkey d = a) then holds a c' (cs0 ++ cs) (os0 ++ os) (cand0 ++ cand) else holds a c' cs0 os0 cand0.
Proof.
  intros (<- & <- & <-) (H1 & H2 & H3)%part_accounts. case_decide as Hd; unfold holds;
    cbn [co_chunks co_owner_changes co_lamport_candidates]; rewrite !on_app.
  - subst a. by rewrite (on_all sc_account _ cs), (on_all os_account _ os), (on_all lc_account _ cand).
  - assert (Hn : ∀ {A} (f : A → Address) l, Forall (λ x, f x = pubkey d) l → on f a l = []).
    { intros A f l Hl. apply on_none. eapply Forall_impl; [|exact Hl]. cbn. congruence. }
    by rewrite (Hn _ _ _ H1), (Hn _ _ _ H2), (Hn _ _ _ H3), !app_nil_r.
Qed.

Lemma collect_ok pays delegated diff c c' :
  Forall diff_ok diff → NoDup (pubkey <$> diff) → collect pays delegated diff c = Some c' →
  co_unsupported_changes c' = [] →
  co_unsupported_changes c = [] ∧
  (∀ a cs0 os0 cand0, (a ∈ delegated → a ∉ pubkey <$> diff) → holds a c cs0 os0 cand0 → holds a c' cs0 os0 cand0) ∧
  (∀ d cs0 os0 cand0, d ∈ diff → pubkey d ∈ delegated → holds (pubkey d) c cs0 os0 cand0 →
     ∃ cs os cand, part_of d (default 0 (pays !! pubkey d)) cs os cand ∧
       holds (pubkey d) c' (cs0 ++ cs) (os0 ++ os) (cand0 ++ cand)).
Proof.
  intros Hok. revert c. induction Hok as [|d diff Hd Hok IH]; intros c Hnd Hr Hu; cbn [collect] in Hr.
  { injection Hr as <-. split_and!; [done|done|]. by intros d ? ? ? ?%not_elem_of_nil. }
  rewrite fmap_cons in Hnd. apply list.NoDup_cons in Hnd as [Hnin Hnd].
  apply bind_Some in Hr as (c1 & Hc1 & Hr). destruct (IH _ Hnd Hr Hu) as (Hu1 & Hother & Hin).
  destruct (collect_account_ok _ _ _ _ _ Hd Hc1 Hu1) as [Hu0 Hstep]. split; [done|]. split.
  - intros a cs0 os0 cand0 Ha Hh. rewrite fmap_cons in Ha.
    apply Hother; [set_solver|]. destruct Hstep as [[_ ->]|(Hdel & cs & os & cand & Hp & ->)]; [done|].
    pose proof (holds_part a d _ c _ _ _ _ _ _ Hh Hp) as Hh'. cbv zeta in Hh'. rewrite decide_False in Hh'; [done|]. set_solver.
  - intros d' cs0 os0 cand0 Hd' Hdel Hh. apply elem_of_cons in Hd' as [->|Hd'].
    + destruct Hstep as [[? _]|(_ & cs & os & cand & Hp & ->)]; [done|].
      exists cs, os, cand. split; [done|]. apply Hother; [done|].
      pose proof (holds_part (pubkey d) d _ c _ _ _ _ _ _ Hh Hp) as Hh'. cbv zeta in Hh'. by rewrite decide_True in Hh' by done.
    + apply Hin; [done..|]. destruct Hstep as [[_ ->]|(_ & cs & os & cand & Hp & ->)]; [done|].
      pose proof (holds_part (pubkey d') d _ c _ _ _ _ _ _ Hh Hp) as Hh'. cbv zeta in Hh'.
      rewrite decide_False in Hh'; [done|]. intros He. apply Hnin. rewrite He. by apply list_elem_of_fmap_2.
Qed.

Definition chosen (x : LamportCandidate) : AccountLamportsSettlement := mkAccountLamportsSettlement (lc_account x) (lc_target x).

Lemma choose_lamports_ok c l c' :
  choose_lamports c = (l, c') → co_unsupported_changes c' = [] →
  c' = c ∧ l = chosen <$> co_lamport_candidates c ∧ (length (co_lamport_candidates c) ≤ 7)%nat.
Proof.
  unfold choose_lamports. destruct (_ <? _)%nat eqn:Hn.
  { intros [= <- <-]. cbn. by destruct (co_unsupported_changes c). }
  apply Nat.ltb_ge in Hn. destruct (_ <? _) eqn:Hs; intros [= <- <-]; [|done]. cbn.
  destruct (co_lamport_candidates c) as [|x cands]; [done|]. by destruct (co_unsupported_changes c).
Qed.

Section plan.
Context `{HostLaws} (diff : list ErStateDiffAccount) (delegated : gset Address) (er_slot : Z)
  (receipts : list ReceiptBalanceSettlement).

(** The plan of what was collected, when all of it is supported. *)
Definition full_plan (c : Collected) : SettlementPlan :=
  let lamports := chosen <$> co_lamport_candidates c in
  mkSettlementPlan er_slot (checksum_settlement er_slot (co_chunks c) (co_owner_changes c) lamports receipts [])
    (co_chunks c) (co_owner_changes c) lamports receipts [] [].

Lemma build_Some r :
  build_settlement_plan diff delegated er_slot receipts = Some r →
  (∀ p, r = Some p → sp_unsupported_changes p = []) →
  ∃ c, collect (receipt_payouts receipts) delegated diff (mkCollected [] [] [] [] ∅) = Some c ∧
    co_unsupported_changes c = [] ∧ (length (co_lamport_candidates c) ≤ 7)%nat ∧
    match r with Some p => p = full_plan c | None => plan_ops (full_plan c) = [] end.
Proof.
  unfold build_settlement_plan. intros Hr Hu. apply bind_Some in Hr as (c & Hc & Hr). exists c. split; [done|].
  destruct (choose_lamports c) as [l c'] eqn:Hch.
  assert (Hu' : co_unsupported_changes c' = []).
  { destruct (_ && _) eqn:He; injection Hr as <-; [|by specialize (Hu _ eq_refl)].
    apply andb_true_iff in He as [_ He]. by destruct (co_unsupported_changes c'). }
  destruct (choose_lamports_ok _ _ _ Hch Hu') as (-> & -> & Hn). rewrite Hu' in Hr. cbn [no_items] in Hr.
  split; [done|]. split; [done|]. destruct (_ && _) eqn:He; injection Hr as <-; [|done].
  unfold plan_ops, early_ops, late_ops, full_plan.
  cbn [sp_chunks sp_owner_changes sp_lamport_changes sp_receipt_balances sp_token_withdrawals].
  repeat match type of He with (_ && _) = true => apply andb_true_iff in He as [He ?] end.
  destruct (co_chunks c); [|done]. destruct (co_owner_changes c); [|done].
  destruct (co_lamport_candidates c); [|done]. by destruct receipts.
Qed.

Lemma chosen_on a l : on ls_account a (chosen <$> l) = chosen <$> on lc_account a l.
Proof.
  unfold on. induction l as [|x l IH]; [done|]. rewrite fmap_cons, !filter_cons. cbn [chosen ls_account].
  case_decide; by rewrite ?IH.
Qed.

(** The operations of the plan take the account from L1's state to the rollup's. *)
Lemma full_plan_reaches c d :
  Forall diff_ok diff → NoDup (pubkey <$> diff) → payouts_in_range receipts →
  collect (receipt_payouts receipts) delegated diff (mkCollected [] [] [] [] ∅) = Some c →
  co_unsupported_changes c = [] → d ∈ diff → pubkey d ∈ delegated →
  ∃ l1, l1_account d = Some l1 ∧ fold_left (apply_op (pubkey d)) (plan_ops (full_plan c)) l1 = er_account d.
Proof.
  intros Hok Hnd Hpr Hc Hu Hd Hdel. destruct (collect_ok _ _ _ _ _ Hok Hnd Hc Hu) as (_ & _ & Hin).
  destruct (Hin d [] [] [] Hd Hdel) as (cs & os & cand & Hp & Hcs & Hos & Hcand); [done|]. cbn [app] in *.
  destruct Hp as (l1 & Hl1 & He & Hre & -> & Hl & Hfold & _). exists l1. split; [done|].
  unfold plan_ops, early_ops, late_ops, full_plan.
  cbn [sp_chunks sp_owner_changes sp_lamport_changes sp_receipt_balances sp_token_withdrawals].
  rewrite fmap_nil, app_nil_r, !fold_left_app, fold_chunks, fold_owners, fold_lamports, fold_receipts.
  change (filter (λ x, sc_account x = pubkey d) _) with (on sc_account (pubkey d) (co_chunks c)).
  change (filter (λ x, os_account x = pubkey d) _) with (on os_account (pubkey d) (co_owner_changes c)).
  change (filter (λ x, ls_account x = pubkey d) _) with (on ls_account (pubkey d) (chosen <$> co_lamport_candidates c)).
  rewrite chosen_on, Hcs, Hos, Hcand.
  unfold with_sa_data, with_sa_owner, with_sa_lamports. cbn [sa_lamports sa_data sa_owner sa_executable sa_rent_epoch].
  rewrite Hfold, He, Hre. rewrite receipt_payouts_total in Hl by done.
  assert (Ho : fold_left (λ _ x, os_owner x) (owner_part d l1) (sa_owner l1) = sa_owner (er_account d)).
  { unfold owner_part. destruct (sa_owner l1 != _) eqn:Hne; bprop; done. }
  assert (Hlam : fold_left (λ _ x, ls_lamports x) (chosen <$> cand) (sa_lamports l1) + payout_total (pubkey d) receipts
    = sa_lamports (er_account d)).
  { destruct Hl as [[-> <-]| ->]; cbn; lia. }
  rewrite Ho, Hlam. by destruct (er_account d).
Qed.
End plan.

(** ** The planner does not panic, and leaves unsupported accounts alone *)

Definition small (c : SettlementChunk) : Prop := (length (sc_data c) ≤ 700)%nat.

(** The account of every unsupported change is in the set. *)
Definition tracked (c : Collected) : Prop :=
  ∀ ch a, ch ∈ co_unsupported_changes c → account ch = Some a → a ∈ co_unsupported_accounts c.

Lemma tracked_add cs os cand new extra c :
  tracked c → (∀ ch a, ch ∈ new → account ch = Some a → a ∈ extra) →
  tracked (mkCollected cs os cand (co_unsupported_changes c ++ new) (extra ∪ co_unsupported_accounts c)).
Proof.
  intros Ht Hn ch a Hch Ha. cbn in *. apply elem_of_app in Hch as [Hch|Hch].
  - apply elem_of_union_r. by eapply Ht.
  - apply elem_of_union_l. by eapply Hn.
Qed.

Lemma collect_lamports_tracked d n pay c :
  tracked c → tracked (collect_lamports d n pay c) ∧ co_chunks (collect_lamports d n pay c) = co_chunks c.
Proof.
  intros Ht. unfold collect_lamports. destruct (_ == _); [done|]. destruct (_ ≫= _); [done|]. split; [|done].
  apply tracked_add; [done|]. intros ch a Hch Ha. apply list_elem_of_singleton in Hch as ->. injection Ha as ->. set_solver.
Qed.

Lemma collect_account_total pays delegated d c :
  diff_ok d → tracked c → Forall small (co_chunks c) →
  ∃ c', collect_account pays delegated d c = Some c' ∧ tracked c' ∧ Forall small (co_chunks c').
Proof.
  intros [_ Hlen] Ht Hs. unfold collect_account. destruct (negb _); [by eauto|].
  destruct (unsupported_changes_for_account d) as [|ch chs] eqn:Hun.
  - apply unsupported_nil in Hun as (l1 & -> & Hl & _).
    destruct (data_chunks_ok (pubkey d) _ _ Hl Hlen) as (cs & -> & _ & Hok). cbn [mbind option_bind].
    eexists. split; [done|]. set (c1 := if sa_owner l1 != _ then _ else c).
    assert (Hc1 : tracked c1 ∧ co_chunks c1 = co_chunks c) by (unfold c1; by case_match). destruct Hc1 as [Hc1 He].
    destruct (collect_lamports_tracked d (sa_lamports l1) (default 0 (pays !! pubkey d)) c1 Hc1) as [Hc2 He2].
    split; [done|]. cbn [co_chunks]. rewrite He2, He. apply Forall_app. split; [done|].
    eapply Forall_impl; [|exact Hok]. intros x (_ & ? & _). unfold small. lia.
  - eexists. split; [done|]. split; [|done]. apply tracked_add; [done|]. intros x a Hx Ha.
    apply elem_of_list_to_set, list_elem_of_omap. eauto.
Qed.

Lemma collect_total pays delegated diff c :
  Forall diff_ok diff → tracked c → Forall small (co_chunks c) →
  ∃ c', collect pays delegated diff c = Some c' ∧ tracked c' ∧ Forall small (co_chunks c').
Proof.
  intros Hok. revert c. induction Hok as [|d diff Hd Hok IH]; intros c Ht Hs; cbn [collect]; [by eauto|].
  destruct (collect_account_total pays delegated d c Hd Ht Hs) as (c1 & -> & Ht1 & Hs1). cbn [mbind option_bind]. by apply IH.
Qed.

Lemma choose_lamports_tracked c l c' :
  choose_lamports c = (l, c') → tracked c →
  tracked c' ∧ co_chunks c' = co_chunks c ∧ (length l ≤ 7)%nat.
Proof.
  unfold choose_lamports. intros He Ht. destruct (_ <? _)%nat eqn:Hn; [|apply Nat.ltb_ge in Hn; destruct (_ <? _)];
    injection He as <- <-.
  - split_and!; [|done|cbn; lia]. apply tracked_add; [done|]. intros ch a Hch Ha. by apply list_elem_of_singleton in Hch as ->.
  - split_and!; [|done|cbn; lia]. apply tracked_add; [done|]. intros ch a Hch Ha.
    apply list_elem_of_fmap in Hch as (x & -> & Hx). injection Ha as <-. apply elem_of_list_to_set, list_elem_of_fmap. eauto.
  - split_and!; [done|done|]. by rewrite length_fmap.
Qed.

Section total.
Context `{HostLaws} (diff : list ErStateDiffAccount) (delegated : gset Address) (er_slot : Z)
  (receipts : list ReceiptBalanceSettlement).

(** What holds of every plan. *)
Definition plan_ok (p : SettlementPlan) : Prop :=
  sp_er_slot p = er_slot ∧ sp_checksum p = recomputed_checksum p ∧ sp_token_withdrawals p = [] ∧
  sp_receipt_balances p = receipts ∧ Forall small (sp_chunks p) ∧ (length (sp_lamport_changes p) ≤ 7)%nat ∧
  (∀ ch a, ch ∈ sp_unsupported_changes p → account ch = Some a →
     Forall (λ c, sc_account c ≠ a) (sp_chunks p) ∧ Forall (λ c, os_account c ≠ a) (sp_owner_changes p) ∧
     Forall (λ c, ls_account c ≠ a) (sp_lamport_changes p)).

Lemma retain_spec {A} (f : A → Address) (s : gset Address) (l : list A) (a : Address) :
  a ∈ s → Forall (λ x, f x ≠ a) (filter (λ x, bool_decide (f x ∉ s) = true) l).
Proof.
  intros Ha. apply list.Forall_forall. intros x [Hx _]%list_elem_of_filter. apply bool_decide_eq_true in Hx. congruence.
Qed.

Lemma plan_build_total :
  Forall diff_ok diff →
  ∃ r, build_settlement_plan diff delegated er_slot receipts = Some r ∧ ∀ p, r = Some p → plan_ok p.
Proof.
  intros Hok. destruct (collect_total (receipt_payouts receipts) delegated diff (mkCollected [] [] [] [] ∅) Hok) as (c & Hc & Ht & Hs);
    [by intros ch a ?%not_elem_of_nil|done|].
  unfold build_settlement_plan. rewrite Hc. cbn [mbind option_bind]. destruct (choose_lamports c) as [l c'] eqn:Hch.
  destruct (choose_lamports_tracked _ _ _ Hch Ht) as (Ht' & He & Hl). destruct (_ && _); eexists; (split; [done|]); [done|].
  intros p [= <-]. unfold plan_ok. cbn [sp_er_slot sp_checksum sp_token_withdrawals sp_receipt_balances sp_chunks sp_lamport_changes sp_owner_changes sp_unsupported_changes].
  split_and!; try done; destruct (no_items (co_unsupported_changes c')) eqn:Hu; rewrite ?He; try done.
  - apply list.Forall_forall. intros x [_ Hx]%list_elem_of_filter. rewrite list.Forall_forall in Hs. by apply Hs.
  - etrans; [apply length_filter|done].
  - destruct (co_unsupported_changes c') as [|x xs]; [|done]. by intros ch a ?%not_elem_of_nil.
  - intros ch a Hin Ha. pose proof (Ht' _ _ Hin Ha). split_and!; by apply retain_spec.
Qed.

Lemma mapM_chunks portal session validator p :
  Forall small (sp_chunks p) → ∃ l, mapM (chunk_instruction portal session validator p) (sp_chunks p) = Some l.
Proof.
  intros Hs. apply (mapM_is_Some_2 (chunk_instruction portal session validator p)). eapply Forall_impl; [|exact Hs].
  intros c Hc. unfold compose, chunk_instruction. cbv beta zeta. change (Z.to_nat MAX_SETTLEMENT_CHUNK) with 700%nat.
  rewrite (proj2 (Nat.ltb_ge _ _)) by exact Hc. by eexists.
Qed.

Lemma instructions_total portal session validator p b e :
  plan_ok p → ∃ l, portal_instructions_inner portal session validator p b e = Some l.
Proof.
  intros (_ & _ & _ & _ & Hs & Hl & _). unfold portal_instructions_inner. destruct (_ && _); [by eauto|].
  destruct (mapM_chunks portal session validator p Hs) as [l ->]. cbn [mbind option_bind].
  destruct (no_items _); [by eexists|]. unfold lamports_instruction. cbv zeta. rewrite (proj2 (Nat.ltb_ge _ _)) by exact Hl. by eexists.
Qed.
End total.

(** ** Carrying out the plan *)

Section carry.
Context `{HostLaws, Groth16} (features : Features) (continuity_v2 : bool) (portal session validator : Address).

(** The Portal runs the instruction as one of its transaction. *)
Definition exec (cx : Ctx) (i : Instruction) : prog unit :=
  process_instruction features continuity_v2 cx (am_pubkey <$> in_accounts i) (in_data i).

Abbreviation record_of a := (find_delegation_record_pda portal a).1.

(** The account on L1, with the owner its delegation record keeps, is [x]. *)
Definition agrees (w : World) (a : Address) (x : SharedAccount) : Prop :=
  data (acct w a) = sa_data x ∧ lamports (acct w a) = sa_lamports x ∧
  ∃ r, try_from_slice (data (acct w (record_of a))) = Some r ∧ DelegationRecord.owner_program r = sa_owner x.

(** The settled accounts [l] and their records are different from each other and
    from [others], the accounts of the settlement itself. *)
Definition apart (l others : list Address) : Prop :=
  NoDup (l ++ ((λ a, record_of a) <$> l)) ∧ (∀ a, a ∈ l ++ ((λ a, record_of a) <$> l) → a ∉ others).

Lemma apart_facts l others a b : apart l others → a ∈ l → b ∈ l →
  a ≠ record_of b ∧ (record_of a = record_of b → a = b) ∧ (∀ o, o ∈ others → a ≠ o ∧ record_of a ≠ o).
Proof.
  intros [Hnd Ho] Ha Hb. apply list.NoDup_app in Hnd as (Hl & Hd & Hr). split_and!.
  - intros ->. eapply Hd; [exact Ha|]. by apply (list_elem_of_fmap_2 (λ a, record_of a)).
  - intros He. apply list_elem_of_lookup in Ha as [i Hi], Hb as [j Hj].
    assert (i = j) as ->; [|congruence].
    eapply NoDup_lookup; [exact Hr|by rewrite list_lookup_fmap, Hi|by rewrite list_lookup_fmap, Hj, He].
  - intros o Hin. split; intros <-; eapply Ho; try exact Hin; apply elem_of_app; [by left|right].
    by apply (list_elem_of_fmap_2 (λ a, record_of a)).
Qed.

(** Equal accounts agree with the same. *)
Lemma agrees_frame w w' a x :
  agrees w a x → acct w' a = acct w a → data (acct w' (record_of a)) = data (acct w (record_of a)) → agrees w' a x.
Proof. intros (? & ? & ?) Ha Hr. unfold agrees. by rewrite Ha, Hr. Qed.

Context (p : SettlementPlan) (accounts receipts : list Address).

Abbreviation checkpoint := (find_checkpoint_pda portal session (sp_er_slot p)).1.
Abbreviation cursor := (find_checkpoint_cursor_pda portal session).1.
Abbreviation vault := (find_fee_vault_pda portal).1.
Abbreviation others := (session :: vault :: checkpoint :: cursor :: receipts).

Hypothesis Hapart : apart accounts others.

(** The instruction carries out [ops], or does nothing. *)
Definition carries (i : Instruction) (ops : list SettleOp) : Prop :=
  ∀ cx w w' applied, program_id cx = portal → exec cx i w = Ok (tt, w') →
  represents w session (Active (sp_er_slot p) (sp_checksum p) applied) →
  w' = w ∨
  represents w' session (Active (sp_er_slot p) (sp_checksum p) (applied ++ ops)) ∧
  ∀ a x, a ∈ accounts → agrees w a x → agrees w' a (fold_left (apply_op a) ops x).

Lemma represents_apply cx w w' v s applied ops :
  settling cx w v session (sp_er_slot p) (sp_checksum p) s →
  represents w session (Active (sp_er_slot p) (sp_checksum p) applied) → Forall wf_op ops →
  session_at w' session (with_accumulator (fold_left accumulate ops (Session.settlement_accumulator s)) s) →
  represents w' session (Active (sp_er_slot p) (sp_checksum p) (applied ++ ops)).
Proof.
  intros Hset Hst Hwf Hs'. destruct (settling_active _ _ _ _ _ _ _ _ Hset Hst) as (applied' & [= <-] & Hacc & Her & Hwa).
  destruct Hset as (_ & _ & _ & Hp & He & Hc). eexists. split; [exact Hs'|]. split_and!; try done.
  - cbn. rewrite Hacc. unfold settle_fold. by rewrite fold_left_app.
  - by apply Forall_app.
Qed.

Lemma chunk_carries c i :
  chunk_instruction portal session validator p c = Some i → sc_account c ∈ accounts → wf_op (chunk_op c) →
  is_u64 (sp_er_slot p) → is_key (sp_checksum p) → carries i [chunk_op c].
Proof.
  unfold chunk_instruction. destruct (_ <? _)%nat eqn:Hlen; [done|]. intros Hi Hin (Hk & Hoff & _) Her Hchk cx w w' applied Hcx Hr Hst.
  apply (inj Some) in Hi. subst i.
  apply Nat.ltb_ge in Hlen. change (Z.to_nat MAX_SETTLEMENT_CHUNK) with 700%nat in Hlen, Hr.
  set (args := WriteSettlementChunk.mk _ _ _ _ _) in Hr.
  assert (Hm : Z.of_nat (length (sc_data c)) `mod` 2 ^ 16 = Z.of_nat (length (sc_data c))) by (apply Z.mod_small; lia).
  assert (Hwf : wf borsh args).
  { unfold args. rewrite Hm. split; [done|]. cbn. split_and!; try done;
      first [rewrite length_app, length_zeros; lia|unfold in_width, umax; lia]. }
  unfold exec in Hr. cbn [in_accounts in_data fmap list_fmap am_pubkey new new_readonly] in Hr.
  rewrite process_instruction_serialize in Hr by done. cbn [handle] in Hr.
  destruct (apart_facts _ _ (sc_account c) (sc_account c) Hapart Hin Hin) as (_ & _ & Ho).
  apply process_write_settlement_chunk_Ok in Hr as (s & x & Hset & _ & _ & _ & _ & _ & Hr); [|apply Ho; set_solver|done].
  unfold args in Hset, Hr. cbn [WriteSettlementChunk.er_slot WriteSettlementChunk.checksum
    WriteSettlementChunk.account_data_offset WriteSettlementChunk.chunk_len WriteSettlementChunk.chunk] in Hset, Hr.
  rewrite Hm, Nat2Z.id, take_app_length in Hr.
  destruct Hr as [[-> _]|(_ & Hd & Hs' & _ & Hf)]; [by left|right]. split.
  - eapply represents_apply; [exact Hset|done| |exact Hs']. apply Forall_singleton. split; [done|]. split; [done|].
    unfold in_width, umax. lia.
  - intros a y Ha Hag. destruct (apart_facts _ _ a (sc_account c) Hapart Ha Hin) as (_ & _ & Ho').
    destruct (apart_facts _ _ (sc_account c) a Hapart Hin Ha) as (Hne & _).
    destruct (Ho' session) as [Has Hrs]; [set_solver|].
    destruct Hag as (Hda & Hla & r & Hr & Hor). cbn [fold_left chunk_op apply_op].
    assert (Hrec : acct w' (record_of a) = acct w (record_of a)) by (apply Hf; congruence).
    unfold agrees. rewrite Hrec. case_decide as He.
    + subst a. rewrite Hd. cbn. rewrite Hda. eauto.
    + rewrite Hf by congruence. eauto.
Qed.

Lemma owner_carries c :
  os_account c ∈ accounts → wf_op (owner_op c) → is_u64 (sp_er_slot p) → is_key (sp_checksum p) →
  carries (owner_instruction portal session validator p c) [owner_op c].
Proof.
  intros Hin [Hk Ho] Her Hchk cx w w' applied Hcx Hr Hst. unfold exec, owner_instruction in Hr.
  cbn [in_accounts in_data fmap list_fmap am_pubkey new new_readonly] in Hr.
  rewrite process_instruction_serialize in Hr by done. cbn [handle] in Hr.
  destruct (apart_facts _ _ (os_account c) (os_account c) Hapart Hin Hin) as (_ & _ & Hoo).
  apply process_settle_account_owner_Ok in Hr as (s & x & Hset & Hld & Hr); [|apply Hoo; set_solver|done].
  cbn [SettleAccountOwner.owner SettleAccountOwner.er_slot SettleAccountOwner.checksum] in Hset, Hr.
  destruct Hr as [[-> _]|(_ & Hd & Hs' & _ & Hf)]; [by left|right]. split.
  - eapply represents_apply; [exact Hset|done| |exact Hs']. by apply Forall_singleton.
  - intros a y Ha Hag. destruct (apart_facts _ _ a (os_account c) Hapart Ha Hin) as (Hne & Hinj & Ho').
    destruct (Ho' session) as [Has Hrs]; [set_solver|].
    destruct Hag as (Hda & Hla & r & Hr & Hor). cbn [fold_left owner_op apply_op].
    unfold agrees. rewrite (Hf a) by done. case_decide as He.
    + subst a. split_and!; [done|done|]. eexists. split; [exact Hd|done].
    + rewrite Hf by naive_solver. eauto.
Qed.

Lemma receipt_carries c :
  rb_receipt c ∈ receipts → wf_op (receipt_op c) → is_u64 (sp_er_slot p) → is_key (sp_checksum p) →
  carries (receipt_instruction portal session validator p c) [receipt_op c].
Proof.
  intros Hin Hwf Her Hchk cx w w' applied Hcx Hr Hst. unfold exec, receipt_instruction in Hr.
  cbn [in_accounts in_data fmap list_fmap am_pubkey new new_readonly] in Hr. pose proof Hwf as (Hks & Hkl & Hb & Hw & Hp).
  rewrite process_instruction_serialize in Hr by done. cbn [handle] in Hr.
  apply process_settle_deposit_receipt_Ok in Hr; [|done]. destruct Hr as (s & r & Hset & _ & _ & Hr).
  destruct Hr as [[-> _]|(_ & _ & _ & _ & Hs' & Hall & _)]; [by left|right]. split.
  - eapply represents_apply; [exact Hset|done| |exact Hs']. by apply Forall_singleton.
  - intros a y Ha (Hda & Hla & rec & Hrec & Hor).
    destruct (apart_facts _ _ a a Hapart Ha Ha) as (_ & _ & Ho).
    destruct (Ho session) as [Has Hrs]; [set_solver|]. destruct (Ho (rb_receipt c)) as [Had Hrd]; [set_solver|].
    cbn [fold_left receipt_op apply_op].
    assert (Hl : lamports (acct w' a) = lamports (acct w a) +
      if decide (rb_l1_recipient c = a) then rb_payout_lamports c else 0).
    { rewrite (proj1 (Hall a)). unfold moved. rewrite !acct_put. repeat case_decide; subst; cbn; try done; lia. }
    destruct (Hall a) as (_ & _ & Hd), (Hall (record_of a)) as (_ & _ & Hd'). unfold agrees.
    rewrite Hl, Hd, Hd', Hda, Hla by done. case_decide; cbn; split_and!; eauto; lia.
Qed.

Abbreviation targets := ((λ c, (ls_account c, ls_lamports c)) <$> sp_lamport_changes p).

Lemma lamport_targets_plan chk :
  lamport_targets (am_pubkey <$> [new_readonly validator true; new session false] ++
      mjoin ((λ x, [new (ls_account x) false; new_readonly (record_of (ls_account x)) false]) <$> sp_lamport_changes p) ++
      [new vault false])
    (SettleAccountLamports.mk (sp_er_slot p) chk (Z.of_nat (length (sp_lamport_changes p)))
      ((ls_lamports <$> sp_lamport_changes p) ++ replicate (7 - length (sp_lamport_changes p)) 0)) = targets.
Proof.
  unfold lamport_targets. rewrite fmap_app. cbn [fmap list_fmap am_pubkey new new_readonly app drop SettleAccountLamports.account_count
    SettleAccountLamports.lamports]. rewrite Nat2Z.id, fmap_app, drop_0.
  generalize (am_pubkey <$> [new vault false]) as k1, (replicate (7 - length (sp_lamport_changes p)) 0) as k2.
  intros k1 k2. induction (sp_lamport_changes p) as [|c l IH]; [done|].
  exact (f_equal (cons (ls_account c, ls_lamports c)) IH).
Qed.

(** The guard after the arguments selects the surplus variant. *)
Lemma process_instruction_lamports cx accts args g w :
  wf borsh args → length g = 32%nat →
  process_instruction features continuity_v2 cx accts
    (PortalInstruction.serialize (PortalInstruction.SettleAccountLamports args) ++ g) w
  = process_settle_account_lamports_inner cx accts args (Some g) w.
Proof.
  intros Hwf Hg. change (PortalInstruction.serialize (PortalInstruction.SettleAccountLamports args) ++ g)
    with (x0c :: (enc borsh args ++ g)).
  change (dispatch_lamports cx accts (enc borsh args ++ g) w = process_settle_account_lamports_inner cx accts args (Some g) w).
  unfold dispatch_lamports. erewrite bind_run; [|unfold deserialize_args; by rewrite dec_enc]. cbv zeta.
  rewrite drop_app_length' by (by rewrite codec_size).
  destruct g as [|b g]; [done|]. by rewrite bool_decide_eq_true_2.
Qed.

Lemma on_NoDup {A} (f : A → Address) (l : list A) x : NoDup (f <$> l) → x ∈ l → on f (f x) l = [x].
Proof.
  induction l as [|y l IH]; intros Hnd Hx; [by apply not_elem_of_nil in Hx|].
  rewrite fmap_cons in Hnd. apply list.NoDup_cons in Hnd as [Hy Hnd]. unfold on in *. rewrite filter_cons.
  apply elem_of_cons in Hx as [->|Hx].
  - rewrite decide_True by done. f_equal. apply (on_none f). apply list.Forall_forall. intros z Hz He. apply Hy. rewrite <- He.
    by apply list_elem_of_fmap_2.
  - rewrite decide_False; [by apply IH|]. intros He. apply Hy. rewrite He. by apply list_elem_of_fmap_2.
Qed.

Lemma fold_lamports_NoDup a l x :
  NoDup (ls_account <$> l) →
  fold_left (apply_op a) (lamports_op <$> l) x = x ∧ (a ∉ ls_account <$> l) ∨
  ∃ n, (a, n) ∈ (λ c, (ls_account c, ls_lamports c)) <$> l ∧
    fold_left (apply_op a) (lamports_op <$> l) x = with_sa_lamports n x.
Proof.
  intros Hnd. rewrite fold_lamports. change (filter _ l) with (on ls_account a l).
  destruct (decide (a ∈ ls_account <$> l)) as [Ha|Ha].
  - right. apply list_elem_of_fmap in Ha as (c & -> & Hc). rewrite (on_NoDup ls_account l c) by done.
    exists (ls_lamports c). split; [|done]. by apply (list_elem_of_fmap_2 (λ c, (ls_account c, ls_lamports c))).
  - left. rewrite (on_none ls_account); [by destruct x|]. apply list.Forall_forall. intros c Hc He. apply Ha.
    rewrite <- He. by apply list_elem_of_fmap_2.
Qed.

Lemma lamports_carries i :
  lamports_instruction portal session validator p = Some i → vault ≠ session →
  Forall (λ c, ls_account c ∈ accounts) (sp_lamport_changes p) →
  Forall wf_op (lamports_op <$> sp_lamport_changes p) → is_u64 (sp_er_slot p) → is_key (sp_checksum p) →
  carries i (lamports_op <$> sp_lamport_changes p).
Proof.
  unfold lamports_instruction. destruct (_ <? _)%nat eqn:Hn; [done|]. intros Hi Hvs Hin Hwfs Her Hchk cx w w' applied Hcx Hr Hst.
  apply (inj Some) in Hi. subst i. apply Nat.ltb_ge in Hn. change MAX_SETTLEMENT_LAMPORT_ACCOUNTS with 7%nat in Hn, Hr.
  unfold exec in Hr. cbn [in_accounts in_data] in Hr.
  rewrite (Z.mod_small (Z.of_nat _)) in Hr by lia. set (args := SettleAccountLamports.mk _ _ _ _) in Hr.
  assert (Hwf : wf borsh args).
  { unfold args. split; [done|]. cbn. rewrite Forall_fmap in Hwfs.
    split_and!; try done; [unfold in_width, umax; lia|rewrite length_app, length_fmap, length_replicate; lia|].
    apply Forall_app. split; [apply Forall_fmap|].
    - eapply Forall_impl; [|exact Hwfs]. by intros c [_ ?].
    - apply Forall_replicate. unfold in_width, umax. lia. }
  rewrite process_instruction_lamports in Hr by (done || rewrite lamport_accumulator_before_fold; apply settle_fold_length).
  rewrite fmap_app in Hr. cbn [fmap list_fmap am_pubkey new new_readonly app] in Hr.
  pose proof (lamport_targets_plan (sp_checksum p)) as Ht. rewrite fmap_app in Ht.
  cbn [fmap list_fmap am_pubkey new new_readonly app] in Ht. fold args in Ht.
  assert (Hfst : targets.*1 = ls_account <$> sp_lamport_changes p) by (by rewrite <- list_fmap_compose).
  assert (Hacc : ∀ a, a ∈ targets.*1 → a ∈ accounts).
  { rewrite Hfst. intros a (c & -> & Hc)%list_elem_of_fmap. rewrite list.Forall_forall in Hin. by apply Hin. }
  apply process_settle_account_lamports_inner_Ok in Hr; rewrite ?Ht in *.
  2:{ intros Hs. apply Hacc in Hs. destruct (apart_facts _ _ _ _ Hapart Hs Hs) as (_ & _ & Ho). by destruct (Ho session); [set_solver|]. }
  2:{ by rewrite Hcx. }
  destruct Hr as (s & Hset & Hnd & Hr). destruct Hr as [->|(Hs' & _ & Htin & _ & _ & Hout & _)]; [by left|right]. split.
  - eapply represents_apply; [exact Hset|done|done|]. rewrite accumulate_targets_fold, <- list_fmap_compose in Hs'. exact Hs'.
  - intros a y Ha (Hda & Hla & rec & Hrec & Hor). destruct (apart_facts _ _ a a Hapart Ha Ha) as (_ & _ & Ho).
    destruct (Ho session) as [Has Hrs]; [set_solver|]. destruct (Ho vault) as [Hav Hrv]; [set_solver|].
    assert (Hr' : acct w' (record_of a) = acct w (record_of a)).
    { apply Hout; [|by rewrite Hcx]. intros [?|Hb]%elem_of_cons; [done|]. apply Hacc in Hb.
      destruct (apart_facts _ _ (record_of a) a Hapart Hb Ha) as [? _]. done. }
    rewrite Hfst in Hnd, Hout. unfold agrees. rewrite Hr'.
    destruct (fold_lamports_NoDup a (sp_lamport_changes p) y Hnd) as [[-> Hni]|(n & Hni & ->)].
    + rewrite Hout; [by eauto| |by rewrite Hcx]. by intros [?|?]%elem_of_cons.
    + rewrite (Htin _ _ Hni). cbn. eauto.
Qed.

(** Instructions run one after the other, each in a transaction of its own or
    not; in between, anything that leaves the session's fields, the settled
    accounts and their records as they are. *)
Definition quiet (w w1 : World) : Prop :=
  (∀ s, session_at w session s → session_at w1 session s) ∧
  (∀ a, a ∈ accounts → acct w1 a = acct w a ∧ acct w1 (record_of a) = acct w (record_of a)).

Inductive execs : World → list Instruction → World → Prop :=
| execs_nil w : execs w [] w
| execs_cons w cx i w1 l w2 :
    program_id cx = portal → is_u64 (slot (clock cx)) → exec cx i w = Ok (tt, w1) → execs w1 l w2 → execs w (i :: l) w2
| execs_other w w1 l w2 : quiet w w1 → execs w1 l w2 → execs w l w2.

Lemma agrees_quiet w w1 a x : quiet w w1 → a ∈ accounts → agrees w a x → agrees w1 a x.
Proof. intros [_ Ho] Ha Hag. destruct (Ho a Ha) as [H1' H2']. eapply agrees_frame; [done|done|by rewrite H2']. Qed.

Lemma represents_quiet w w1 st : quiet w w1 → represents w session st → represents w1 session st.
Proof. intros [Hs _]. by apply represents_other. Qed.

Lemma quiet_trans w w1 w2 : quiet w w1 → quiet w1 w2 → quiet w w2.
Proof.
  intros [H1' H2'] [H3' H4']. split; [auto|]. intros a Ha. destruct (H2' a Ha) as [<- <-]. by apply H4'.
Qed.

Lemma execs_nil_inv w l w' : execs w l w' → l = [] → quiet w w'.
Proof. induction 1 as [w| |w w1 l w2 Hq Hex IH]; intros Hl; [done|done|]. eapply quiet_trans; [done|auto]. Qed.

Lemma execs_single w l i w' : execs w l w' → l = [i] →
  ∃ w1 cx w2, quiet w w1 ∧ program_id cx = portal ∧ is_u64 (slot (clock cx)) ∧ exec cx i w1 = Ok (tt, w2) ∧ quiet w2 w'.
Proof.
  induction 1 as [w|w cx j w1 l w2 Hcx Hsl He Hex IH|w w1 l w2 Hq Hex IH]; intros Hl; [done| |].
  - injection Hl as -> ->. exists w, cx, w1. split_and!; [done..|]. by apply (execs_nil_inv _ _ _ Hex).
  - destruct (IH Hl) as (w3 & cx & w4 & ? & ?). exists w3, cx, w4. split; [by eapply quiet_trans|done].
Qed.

Abbreviation active := (Active (sp_er_slot p) (sp_checksum p)).

Lemma execs_app w l k w' : execs w (l ++ k) w' → ∃ w1, execs w l w1 ∧ execs w1 k w'.
Proof.
  remember (l ++ k) as m eqn:Hm. intros Hex. revert l Hm.
  induction Hex as [w|w cx i w1 m w2 Hcx Hsl He Hex IH|w w1 m w2 Hq Hex IH]; intros l Hm.
  - symmetry in Hm. apply app_eq_nil in Hm as [-> ->]. exists w. split; constructor.
  - destruct l as [|j l]; cbn in Hm.
    + subst k. exists w. split; [constructor|]. by econstructor.
    + injection Hm as <- Hm. destruct (IH l Hm) as (w' & ? & ?). exists w'. split; [by econstructor|done].
  - destruct (IH l Hm) as (w' & ? & ?). exists w'. split; [by econstructor|done].
Qed.

(** The instructions in between apply a part of their operations; if it is all of
    them, the accounts change accordingly. *)
Lemma execs_carry w l w' opss applied :
  execs w l w' → Forall2 carries l opss → represents w session (active applied) →
  ∃ done, done `sublist_of` concat opss ∧ represents w' session (active (applied ++ done)) ∧
    (done = concat opss → ∀ a x, a ∈ accounts → agrees w a x → agrees w' a (fold_left (apply_op a) (concat opss) x)).
Proof.
  intros Hex. revert opss applied.
  induction Hex as [w|w cx i w1 l w2 Hcx Hsl He Hex IH|w w1 l w2 Hq Hex IH]; intros opss applied Hc Hst.
  - apply Forall2_nil_inv_l in Hc as ->. exists []. by rewrite app_nil_r.
  - apply Forall2_cons_inv_l in Hc as (ops & opss' & Hi & Hc & ->). cbn [concat].
    destruct (Hi _ _ _ _ Hcx He Hst) as [->|[Hst1 Hag]].
    + destruct (IH _ _ Hc Hst) as (done & Hsub & Hst' & Hrest). exists done.
      split_and!; [by apply sublist_inserts_l|done|]. intros Hd.
      assert (Hnil : ops = []).
      { apply sublist_length in Hsub. rewrite Hd, length_app in Hsub. destruct ops; [done|cbn in Hsub; lia]. }
      subst ops. by apply Hrest.
    + destruct (IH _ _ Hc Hst1) as (done & Hsub & Hst' & Hrest). exists (ops ++ done). rewrite <- app_assoc in Hst'.
      split_and!; [by apply sublist_app|done|]. intros Hd%app_inv_head a x Ha Hx. rewrite fold_left_app. by apply Hrest, Hag.
  - destruct (IH _ applied Hc) as (done & Hsub & Hst' & Hrest); [by eapply represents_quiet|].
    exists done. split_and!; [done..|]. intros Hd a x Ha Hx. apply Hrest; [done..|]. by eapply agrees_quiet.
Qed.

Lemma begin_carries cx w w' e :
  program_id cx = portal → is_u64 (slot (clock cx)) → is_u64 (sp_er_slot p) → is_key (sp_checksum p) → is_key e →
  exec cx (begin_instruction portal session validator p e) w = Ok (tt, w') →
  represents w' session (active []) ∧ ∀ a x, a ∈ accounts → agrees w a x → agrees w' a x.
Proof.
  intros Hcx Hsl Her Hchk He Hr. unfold exec, begin_instruction in Hr.
  cbn [in_accounts in_data fmap list_fmap am_pubkey new new_readonly] in Hr.
  rewrite process_instruction_serialize in Hr by done. cbn [handle] in Hr.
  apply process_begin_settlement_Ok in Hr as (s & c & Hs & _ & _ & Hi & _ & _ & _ & _ & Hs' & d & Hd); [|done|done].
  split; [eexists; split; [exact Hs'|]; by split_and!|]. intros a x Ha Hag.
  destruct (apart_facts _ _ a a Hapart Ha Ha) as (_ & _ & Ho). destruct (Ho session) as [Has Hrs]; [set_solver|].
  eapply agrees_frame; [exact Hag|..]; rewrite Hd; by acct_simpl.
Qed.

Lemma finish_carries cx w w' applied :
  program_id cx = portal → is_u64 (slot (clock cx)) → is_u64 (sp_er_slot p) → is_key (sp_checksum p) →
  exec cx (finish_instruction portal session validator p) w = Ok (tt, w') → represents w session (active applied) →
  represents w' session Idle ∧ settle_fold (sp_er_slot p) applied = sp_checksum p ∧
  ∀ a x, a ∈ accounts → agrees w a x → agrees w' a x.
Proof.
  intros Hcx Hsl Her Hchk Hr Hst. unfold exec, finish_instruction in Hr.
  cbn [in_accounts in_data fmap list_fmap am_pubkey new new_readonly] in Hr.
  rewrite process_instruction_serialize in Hr by done. cbn [handle] in Hr.
  apply process_finish_settlement_Ok in Hr as (s & c & k & Hset & Hacc & _ & _ & _ & _ & _ & _ & Hs' & _ & Hf); [|done|done].
  destruct (settling_active _ _ _ _ _ _ _ _ Hset Hst) as (applied' & [= <-] & Ha & _ & _).
  split; [by eexists|]. split; [destruct Hset as (_ & _ & _ & _ & _ & Hc); cbn in Ha, Hc; congruence|].
  intros a x Hin Hag. destruct (apart_facts _ _ a a Hapart Hin Hin) as (_ & _ & Ho).
  destruct (Ho session) as [H1' H2'], (Ho checkpoint) as [H3' H4'], (Ho cursor) as [H5' H6']; [set_solver..|].
  eapply agrees_frame; [exact Hag|..]; rewrite Hf; set_solver.
Qed.
End carry.

(** ** From the diff to the accounts *)

Section mirror.
Context `{HostLaws, Groth16} (features : Features) (continuity_v2 : bool) (portal session validator : Address).
Context (diff : list ErStateDiffAccount) (delegated : gset Address) (er_slot : Z)
  (receipts : list ReceiptBalanceSettlement).

(** The accounts the plan settles. *)
Definition settled_accounts : list Address := filter (λ a, a ∈ delegated) (pubkey <$> diff).

Lemma collected_accounts c :
  Forall diff_ok diff → NoDup (pubkey <$> diff) →
  collect (receipt_payouts receipts) delegated diff (mkCollected [] [] [] [] ∅) = Some c → co_unsupported_changes c = [] →
  Forall (λ x, sc_account x ∈ settled_accounts) (co_chunks c) ∧
  Forall (λ x, os_account x ∈ settled_accounts) (co_owner_changes c) ∧
  Forall (λ x, ls_account x ∈ settled_accounts) (chosen <$> co_lamport_candidates c).
Proof.
  intros Hok Hnd Hc Hu. destruct (collect_ok _ _ _ _ _ Hok Hnd Hc Hu) as (_ & Hother & _).
  assert (Hin : ∀ {A} (f : A → Address) l, (∀ a, (a ∈ delegated → a ∉ pubkey <$> diff) → on f a l = []) →
    Forall (λ x, f x ∈ settled_accounts) l).
  { intros A f l Hl. apply list.Forall_forall. intros x Hx. destruct (decide (f x ∈ settled_accounts)) as [|Hn]; [done|].
    exfalso. assert (Hx' : x ∈ on f (f x) l) by (by apply list_elem_of_filter).
    rewrite Hl in Hx'; [by apply not_elem_of_nil in Hx'|]. intros Hd Hp. apply Hn. by apply list_elem_of_filter. }
  assert (Hh : ∀ a, (a ∈ delegated → a ∉ pubkey <$> diff) → holds a c [] [] []) by (intros a Ha; by apply Hother).
  split_and!; [apply Hin; intros a Ha; by apply Hh..|]. rewrite Forall_fmap. apply Hin. intros a Ha. by apply Hh.
Qed.

Lemma plan_instructions p effects l :
  portal_instructions_inner portal session validator p true effects = Some l → has_unsupported_changes p = false →
  ∃ mid, l = begin_instruction portal session validator p effects :: mid ++ [finish_instruction portal session validator p] ∧
    ∃ cs ls, mapM (chunk_instruction portal session validator p) (sp_chunks p) = Some cs ∧
      (if no_items (sp_lamport_changes p) then Some [] else i ← lamports_instruction portal session validator p; Some [i])
        = Some ls ∧
      mid = cs ++ (owner_instruction portal session validator p <$> sp_owner_changes p) ++ ls ++
        (receipt_instruction portal session validator p <$> sp_receipt_balances p).
Proof.
  unfold portal_instructions_inner. intros Hr Hu. rewrite Hu, andb_false_r in Hr.
  apply bind_Some in Hr as (cs & Hcs & Hr). apply bind_Some in Hr as (ls & Hls & Hr). apply (inj Some) in Hr. subst l.
  eexists. split; [|exists cs, ls; split_and!; [exact Hcs|exact Hls|reflexivity]]. by rewrite <- !app_assoc.
Qed.

Lemma plan_carried p mid cs ls :
  apart portal settled_accounts (session :: (find_fee_vault_pda portal).1 :: (find_checkpoint_pda portal session (sp_er_slot p)).1
    :: (find_checkpoint_cursor_pda portal session).1 :: (rb_receipt <$> sp_receipt_balances p)) →
  (find_fee_vault_pda portal).1 ≠ session → is_u64 (sp_er_slot p) → is_key (sp_checksum p) → Forall wf_op (plan_ops p) →
  sp_token_withdrawals p = [] →
  Forall (λ x, sc_account x ∈ settled_accounts) (sp_chunks p) →
  Forall (λ x, os_account x ∈ settled_accounts) (sp_owner_changes p) →
  Forall (λ x, ls_account x ∈ settled_accounts) (sp_lamport_changes p) →
  mapM (chunk_instruction portal session validator p) (sp_chunks p) = Some cs →
  (if no_items (sp_lamport_changes p) then Some [] else i ← lamports_instruction portal session validator p; Some [i])
    = Some ls →
  mid = cs ++ (owner_instruction portal session validator p <$> sp_owner_changes p) ++ ls ++
        (receipt_instruction portal session validator p <$> sp_receipt_balances p) →
  ∃ opss, concat opss = plan_ops p ∧ Forall2 (carries features continuity_v2 portal session p settled_accounts) mid opss.
Proof.
  intros Hap Hvs Her Hchk Hwf Htok Hc Ho Hl Hcs Hls ->.
  unfold plan_ops, early_ops, late_ops in *. rewrite Htok, fmap_nil, app_nil_r in *.
  rewrite !Forall_app, !Forall_fmap in Hwf. destruct Hwf as ((Hwc & Hwo) & Hwl & Hwr).
  rewrite list.Forall_forall in Hc, Hwc. rewrite list.Forall_forall in Ho, Hwo. rewrite list.Forall_forall in Hwr.
  exists (((λ x, [chunk_op x]) <$> sp_chunks p) ++ ((λ x, [owner_op x]) <$> sp_owner_changes p) ++
    (if no_items (sp_lamport_changes p) then [] else [lamports_op <$> sp_lamport_changes p]) ++
    ((λ x, [receipt_op x]) <$> sp_receipt_balances p)).
  assert (Hone : ∀ {A} (f : A → SettleOp) k, concat ((λ x, [f x]) <$> k) = f <$> k)
    by (intros A f k; induction k as [|x k IH]; [done|cbn; by rewrite IH]).
  split.
  { rewrite !concat_app, !Hone, <- !app_assoc. do 3 f_equal. destruct (sp_lamport_changes p); [done|]. cbn. by rewrite app_nil_r. }
  repeat apply Forall2_app.
  - apply mapM_Some in Hcs. apply Forall2_fmap_r, Forall2_same_length_lookup_2; [symmetry; by eapply Forall2_length|].
    intros j i x Hi Hx. pose proof (Forall2_lookup_lr _ _ _ _ _ _ Hcs Hx Hi) as Hxi. apply list_elem_of_lookup_2 in Hx.
    eapply chunk_carries; [exact Hap|exact Hxi|by apply Hc|by apply Hwc|done|done].
  - apply Forall2_fmap, Forall_Forall2_diag, list.Forall_forall. intros x Hx.
    eapply owner_carries; [exact Hap|by apply Ho|by apply Hwo|done|done].
  - destruct (sp_lamport_changes p) as [|x xs] eqn:Hlam; cbn [no_items] in *; [by injection Hls as <-|].
    apply bind_Some in Hls as (i & Hi & [= <-]). constructor; [|constructor]. rewrite <- Hlam in *.
    eapply lamports_carries; [exact Hap|exact Hi|done|done|by apply Forall_fmap|done|done].
  - apply Forall2_fmap, Forall_Forall2_diag, list.Forall_forall. intros x Hx.
    eapply receipt_carries; [exact Hap|by apply list_elem_of_fmap_2|by apply Hwr|done|done].
Qed.

(** The Portal runs the instructions of a plan. *)
Lemma plan_executed p effects l w w' :
  apart portal settled_accounts (session :: (find_fee_vault_pda portal).1 :: (find_checkpoint_pda portal session (sp_er_slot p)).1
    :: (find_checkpoint_cursor_pda portal session).1 :: (rb_receipt <$> sp_receipt_balances p)) →
  (find_fee_vault_pda portal).1 ≠ session → is_u64 (sp_er_slot p) → Forall wf_op (plan_ops p) → is_key effects →
  sp_checksum p = settle_fold (sp_er_slot p) (plan_ops p) → sp_token_withdrawals p = [] →
  has_unsupported_changes p = false →
  Forall (λ x, sc_account x ∈ settled_accounts) (sp_chunks p) →
  Forall (λ x, os_account x ∈ settled_accounts) (sp_owner_changes p) →
  Forall (λ x, ls_account x ∈ settled_accounts) (sp_lamport_changes p) →
  portal_instructions_inner portal session validator p true effects = Some l →
  execs features continuity_v2 portal session settled_accounts w l w' →
  represents w' session Idle ∧
  ((∀ a x, a ∈ settled_accounts → agrees portal w a x → agrees portal w' a (fold_left (apply_op a) (plan_ops p) x)) ∨
   ∃ part, part `sublist_of` plan_ops p ∧ sha_collision (messages (sp_er_slot p) part) (messages (sp_er_slot p) (plan_ops p))).
Proof.
  intros Hap Hvs Her Hwf Heff Hck Htok Hu Hac Hao Hal Hl Hex.
  destruct (plan_instructions _ _ _ Hl Hu) as (mid & -> & cs & ls & Hcs & Hls & Hmid).
  assert (Hkey : is_key (sp_checksum p)) by (rewrite Hck; apply settle_fold_length).
  destruct (plan_carried p mid cs ls) as (opss & Hops & Hcar); try done.
  apply (execs_app _ _ _ _ _ _ [_]) in Hex as (w1 & Hex1 & Hex). apply execs_app in Hex as (w2 & Hex2 & Hex3).
  destruct (execs_single _ _ _ _ _ _ _ _ _ Hex1 eq_refl) as (u1 & cx1 & u2 & Hq1 & Hcx1 & Hsl1 & Hr1 & Hq2).
  destruct (begin_carries _ _ _ _ _ _ _ _ Hap _ _ _ _ Hcx1 Hsl1 Her Hkey Heff Hr1) as [Hst1 Hag1].
  apply (represents_quiet portal _ _ _ _ _ Hq2) in Hst1.
  destruct (execs_carry _ _ _ _ _ _ _ _ _ _ _ Hex2 Hcar Hst1) as (part & Hsub & Hst2 & Hag2).
  destruct (execs_single _ _ _ _ _ _ _ _ _ Hex3 eq_refl) as (u3 & cx2 & u4 & Hq3 & Hcx2 & Hsl2 & Hr2 & Hq4).
  apply (represents_quiet portal _ _ _ _ _ Hq3) in Hst2.
  destruct (finish_carries _ _ _ _ _ _ _ _ Hap _ _ _ _ Hcx2 Hsl2 Her Hkey Hr2 Hst2) as (Hidle & Hfold & Hag3).
  split; [by apply (represents_quiet portal _ _ _ _ _ Hq4)|]. cbn [app] in *. rewrite Hops in *.
  destruct Hst2 as (s & _ & _ & _ & _ & _ & _ & Hwp). rewrite Hck in Hfold.
  destruct (settle_fold_binding _ _ _ _ Her Her Hwp Hwf Hfold) as [[_ Hpart]|Hcol]; [left|right; by exists part].
  intros a x Ha Hx. eapply agrees_quiet; [exact Hq4|done|]. apply Hag3; [done|]. eapply agrees_quiet; [exact Hq3|done|].
  apply Hag2; [done..|]. eapply agrees_quiet; [exact Hq2|done|]. apply Hag1; [done|]. by eapply agrees_quiet.
Qed.
End mirror.

(** ** Example

    The account of [DelegationExample], of which the rollup changed two bytes,
    the owner and the balance. *)

Module MirrorExample.
Import SessionExample.
Import DelegationExample.
Import SettlementExample.
Definition l1 : SharedAccount := mkSharedAccount 2000000 [x0a; x0b; x0c] (key 77) false 0.
Definition er : SharedAccount := mkSharedAccount 1500000 [x0a; xff; xfe] (key 78) false 0.
Definition diff : list ErStateDiffAccount := [mkErStateDiffAccount delegated (Some l1) er].
Definition accounts : gset Address := {[delegated]}.
Definition plan : SettlementPlan := Eval vm_compute in
  match build_settlement_plan diff accounts er_slot [] with
  | Some (Some p) => p
  | _ => mkSettlementPlan 0 [] [] [] [] [] [] []
  end.
Definition features : Features := mkFeatures false false false.
Definition instructions : list Instruction :=
  default [] (portal_instructions_inner portal session validator plan true effects).
Definition run_all : list Instruction → World → World :=
  fold_left (λ w i, run (exec features false cx i) w).
Definition w1 : World := run_all instructions w0.

Lemma built : build_settlement_plan diff accounts er_slot [] = Some (Some plan).
Proof. vm_compute. reflexivity. Qed.
Lemma diffs_ok : Forall diff_ok diff.
Proof. apply Forall_cons; [split; [unfold in_width, umax; cbn; lia|cbn; lia]|apply Forall_nil]. Qed.
Lemma planned : portal_instructions_inner portal session validator plan true effects = Some instructions.
Proof. vm_compute. reflexivity. Qed.
Lemma ops_wf : Forall wf_op (plan_ops plan).
Proof.
  unfold plan_ops, early_ops, late_ops, plan. cbn [sp_chunks sp_owner_changes sp_lamport_changes sp_receipt_balances
    sp_token_withdrawals fmap list_fmap app chunk_op owner_op lamports_op].
  repeat (apply Forall_cons; [concrete_wf|]). apply Forall_nil.
Qed.
Lemma l1_agrees : agrees portal w0 delegated l1.
Proof. split; [vm_compute; reflexivity|]. split; [vm_compute; reflexivity|]. eexists. split; vm_compute; reflexivity. Qed.
Fixpoint all_ok (l : list Instruction) (w : World) : bool :=
  match l with
  | [] => true
  | i :: l' => bool_decide (err_of (exec features false cx i) w = None) && all_ok l' (run (exec features false cx i) w)
  end.
Lemma all_ok_execs l w : all_ok l w = true → execs features false portal session [delegated] w l (run_all l w).
Proof.
  revert w. induction l as [|i l IH]; intros w Hok; [apply execs_nil|].
  cbn [all_ok] in Hok. apply andb_true_iff in Hok as [Hi%bool_decide_eq_true Hok].
  destruct (run_Ok (exec features false cx i) w Hi) as [[] Hx].
  eapply (execs_cons _ _ _ _ _ _ cx); [reflexivity|unfold in_width, umax; cbn; lia|exact Hx|]. by apply IH.
Qed.
Lemma carried : execs features false portal session [delegated] w0 instructions w1.
Proof. apply all_ok_execs. vm_compute. reflexivity. Qed.
(** The settlement interrupted before it finishes. *)
Definition w_mid : World := run_all (take 4 instructions) w0.
Lemma resumed : ∃ s, session_at w_mid session s ∧
  represents w_mid session (Active (sp_er_slot plan) (sp_checksum plan) (plan_ops plan)) ∧
  lamports_already_applied plan (Session.settlement_accumulator s) = true.
Proof.
  assert (Hs : ∃ s, session_at w_mid session s ∧ Session.settlement_status s = SettlementStatus.InProgress ∧
    Session.settlement_er_slot s = sp_er_slot plan ∧ Session.settlement_checksum s = sp_checksum plan ∧
    Session.settlement_accumulator s = sp_checksum plan).
  { eexists. split; [unfold session_at; vm_compute; reflexivity|]. repeat split. }
  destruct Hs as (s & Hs & H1 & H2 & H3 & H4). exists s. split; [exact Hs|]. rewrite H4.
  assert (Hf : sp_checksum plan = settle_fold (sp_er_slot plan) (plan_ops plan)) by (vm_compute; reflexivity).
  split; [|vm_compute; reflexivity]. exists s. split; [exact Hs|]. split; [exact H1|]. split; [exact H2|]. split; [exact H3|].
  split; [exact (eq_trans H4 Hf)|]. split; [unfold in_width, umax; cbn; lia|exact ops_wf].
Qed.
End MirrorExample.

(** ** Properties *)

(** C2: let the planner build, from the diff of a rollup slot, a plan with no
    unsupported change, and let the Portal run the instructions it makes of it
    from the bytes, in order, with anything in between that leaves the session,
    the settled accounts and their records alone.  If every instruction succeeds,
    starting from accounts in the diff's L1 state, then the session is idle again
    and every delegated account of the diff has the rollup's data, balance and
    (in its delegation record) owner; unless leaving out some of the plan's
    operations gives a SHA-256 collision. *)
Theorem settlement_mirrors_rollup `{HostLaws, Groth16} features v2 portal session validator diff delegated er_slot
    receipts p effects l w w' :
  Forall diff_ok diff → NoDup (pubkey <$> diff) → payouts_in_range receipts →
  build_settlement_plan diff delegated er_slot receipts = Some (Some p) → has_unsupported_changes p = false →
  portal_instructions_inner portal session validator p true effects = Some l →
  is_u64 er_slot → is_key effects → Forall wf_op (plan_ops p) → (find_fee_vault_pda portal).1 ≠ session →
  apart portal (settled_accounts diff delegated)
    (session :: (find_fee_vault_pda portal).1 :: (find_checkpoint_pda portal session er_slot).1
     :: (find_checkpoint_cursor_pda portal session).1 :: (rb_receipt <$> receipts)) →
  (∀ d l1, d ∈ diff → pubkey d ∈ delegated → l1_account d = Some l1 → agrees portal w (pubkey d) l1) →
  execs features v2 portal session (settled_accounts diff delegated) w l w' →
  represents w' session Idle ∧
  ((∀ d, d ∈ diff → pubkey d ∈ delegated → agrees portal w' (pubkey d) (er_account d)) ∨
   ∃ part, part `sublist_of` plan_ops p ∧ sha_collision (messages er_slot part) (messages er_slot (plan_ops p))).
Proof.
  intros Hok Hnd Hpr Hb Hu Hl Her Heff Hwf Hvs Hap Hl1 Hex.
  destruct (build_Some _ _ _ _ _ Hb) as (c & Hc & Huc & _ & ->).
  { intros ? [= <-]. unfold has_unsupported_changes in Hu. by destruct (sp_unsupported_changes p). }
  destruct (collected_accounts _ _ _ _ Hok Hnd Hc Huc) as (Hac & Hao & Hal).
  destruct (plan_executed features v2 portal session validator diff delegated (full_plan er_slot receipts c) effects l w w')
    as [Hidle [Hag|Hcol]]; try done; [exact (recomputed_checksum_fold (full_plan er_slot receipts c))|split; [done|left]|split; [done|by right]].
  intros d Hd Hdel. destruct (full_plan_reaches diff delegated er_slot receipts c d Hok Hnd Hpr Hc Huc Hd Hdel) as (l1 & Hdl & <-).
  apply Hag; [|by apply Hl1]. apply list_elem_of_filter. split; [done|by apply list_elem_of_fmap_2].
Qed.

Lemma settlement_mirrors_rollup_witness :
  represents MirrorExample.w1 SessionExample.session Idle ∧
  (agrees SessionExample.portal MirrorExample.w1 DelegationExample.delegated MirrorExample.er ∨
   ∃ part, part `sublist_of` plan_ops MirrorExample.plan ∧
     sha_collision (messages 40 part) (messages 40 (plan_ops MirrorExample.plan))).
Proof.
  destruct (λ H1 H2 H3 H4 H5, settlement_mirrors_rollup MirrorExample.features false SessionExample.portal SessionExample.session SessionExample.validator
    MirrorExample.diff MirrorExample.accounts SettlementExample.er_slot [] MirrorExample.plan SettlementExample.effects
    MirrorExample.instructions SettlementExample.w0 MirrorExample.w1 MirrorExample.diffs_ok H1
    (conj (Forall_nil_2 _) eq_refl) MirrorExample.built eq_refl MirrorExample.planned H2 eq_refl MirrorExample.ops_wf H3 H4 H5
    MirrorExample.carried) as [Hi Hm].
  - apply (bool_decide_unpack _). vm_compute. reflexivity.
  - unfold in_width, umax, SettlementExample.er_slot. lia.
  - apply (bool_decide_unpack _). vm_compute. reflexivity.
  - split; [apply (bool_decide_unpack _); vm_compute; reflexivity|]. apply list.Forall_forall.
    apply (bool_decide_unpack _). vm_compute. reflexivity.
  - intros d l1 Hd _ Hl. apply list_elem_of_singleton in Hd as ->. injection Hl as <-. exact MirrorExample.l1_agrees.
  - split; [exact Hi|]. destruct Hm as [Hm|Hm]; [left|right; exact Hm].
    apply (Hm (mkErStateDiffAccount DelegationExample.delegated (Some MirrorExample.l1) MirrorExample.er)).
    + by left.
    + apply (bool_decide_unpack _). vm_compute. reflexivity.
Defined.

(** C14: the planner always answers, and if it reports no unsupported change
    then every delegated account of the diff exists on L1 and the operations of
    its plan, in the plan's order and with the receipts' payouts, take the
    account from its L1 state to exactly its rollup state: data, balance, owner,
    executable flag and rent epoch.  No plan means that nothing differs. *)
Theorem plan_reaches_rollup_state `{HostLaws} diff delegated er_slot receipts :
  Forall diff_ok diff → NoDup (pubkey <$> diff) → payouts_in_range receipts →
  ∃ r, build_settlement_plan diff delegated er_slot receipts = Some r ∧
    ((∀ p, r = Some p → has_unsupported_changes p = false) →
     ∀ d, d ∈ diff → pubkey d ∈ delegated →
     ∃ l1, l1_account d = Some l1 ∧
       fold_left (apply_op (pubkey d)) (match r with Some p => plan_ops p | None => [] end) l1 = er_account d).
Proof.
  intros Hok Hnd Hpr. destruct (plan_build_total diff delegated er_slot receipts Hok) as (r & Hr & _). exists r. split; [done|].
  intros Hu d Hd Hdel. destruct (build_Some _ _ _ _ _ Hr) as (c & Hc & Huc & _ & Hp).
  { intros p Hp. specialize (Hu p Hp). unfold has_unsupported_changes in Hu. by destruct (sp_unsupported_changes p). }
  destruct (full_plan_reaches diff delegated er_slot receipts c d Hok Hnd Hpr Hc Huc Hd Hdel) as (l1 & Hl1 & Hf).
  exists l1. split; [done|]. destruct r as [p|]; [by subst p|by rewrite Hp in Hf].
Qed.

Lemma plan_reaches_rollup_state_witness :
  fold_left (apply_op DelegationExample.delegated) (plan_ops MirrorExample.plan) MirrorExample.l1 = MirrorExample.er.
Proof.
  destruct (λ H1, plan_reaches_rollup_state MirrorExample.diff MirrorExample.accounts SettlementExample.er_slot []
    MirrorExample.diffs_ok H1 (conj (Forall_nil_2 _) eq_refl)) as (r & Hr & Hd).
  - apply (bool_decide_unpack _). vm_compute. reflexivity.
  - rewrite MirrorExample.built in Hr. apply (inj Some) in Hr. subst r.
    destruct (Hd (λ p Hp, match Hp in _ = o return match o with Some q => has_unsupported_changes q = false | None => True end
      with eq_refl => eq_refl end) (mkErStateDiffAccount DelegationExample.delegated (Some MirrorExample.l1) MirrorExample.er))
      as (l1 & Hl & Hf).
    + by left.
    + apply (bool_decide_unpack _). vm_compute. reflexivity.
    + injection Hl as <-. exact Hf.
Defined.

(** C21: neither building a plan nor turning it into instructions panics;
    the plan's checksum is the accumulator the Portal's handlers reach by applying
    the plan's operations.  No data, owner or lamports operation of the plan is on
    an account that has an unsupported change: all of the plan's operations
    together leave such an account's data, owner and flags alone, and change its
    balance by what the receipts pay out to it and by nothing else. *)
Theorem settlement_planner_total `{HostLaws} diff delegated er_slot receipts :
  Forall diff_ok diff →
  ∃ r, build_settlement_plan diff delegated er_slot receipts = Some r ∧
    ∀ p, r = Some p →
      sp_checksum p = settle_fold er_slot (plan_ops p) ∧ sp_receipt_balances p = receipts ∧
      (∀ ch a x, ch ∈ sp_unsupported_changes p → account ch = Some a →
         fold_left (apply_op a) (plan_ops p) x = with_sa_lamports (sa_lamports x + payout_total a receipts) x) ∧
      ∀ portal session validator include_begin effects,
        ∃ l, portal_instructions_inner portal session validator p include_begin effects = Some l.
Proof.
  intros Hok. destruct (plan_build_total diff delegated er_slot receipts Hok) as (r & Hr & Hp). exists r. split; [done|].
  intros p ->. destruct (Hp p eq_refl) as (He & Hc & Htok & Hrb & Hs & Hl & Hiso). split_and!.
  - rewrite Hc, recomputed_checksum_fold, He. done.
  - done.
  - intros ch a x Hch Ha. destruct (Hiso ch a Hch Ha) as (H1' & H2' & H3').
    unfold plan_ops, early_ops, late_ops. rewrite Htok, Hrb, fmap_nil, app_nil_r.
    rewrite !fold_left_app, fold_chunks, fold_owners, fold_lamports, fold_receipts.
    change (filter (λ x, sc_account x = a) _) with (on sc_account a (sp_chunks p)).
    change (filter (λ x, os_account x = a) _) with (on os_account a (sp_owner_changes p)).
    change (filter (λ x, ls_account x = a) _) with (on ls_account a (sp_lamport_changes p)).
    rewrite !on_none by done. by destruct x.
  - intros. eapply instructions_total. by apply Hp.
Qed.

Lemma settlement_planner_total_witness :
  sp_checksum MirrorExample.plan = settle_fold SettlementExample.er_slot (plan_ops MirrorExample.plan).
Proof.
  destruct (settlement_planner_total MirrorExample.diff MirrorExample.accounts SettlementExample.er_slot []
    MirrorExample.diffs_ok) as (r & Hr & Hp).
  rewrite MirrorExample.built in Hr. apply (inj Some) in Hr. subst r. exact (proj1 (Hp _ eq_refl)).
Defined.

(** Packing a plan's instructions into transactions loses, repeats and
    reorders none of them.  Every transaction fits a packet, the one that
    finishes a settlement with token withdrawals apart, which holds that
    instruction alone; if an instruction does not fit by itself there is no
    transaction at all. *)
Theorem batches_keep_instructions `{Host} tx_size portal session validator p include_begin effects l :
  portal_instructions_inner portal session validator p include_begin effects = Some l →
  ∃ batches, portal_instruction_batches_inner portal session validator tx_size p include_begin effects = Some batches ∧
    (batches = [] ∧ Exists (λ i, PACKET_DATA_SIZE < tx_size [i]) l ∨
     concat batches = l ∧
     ∃ front back, batches = front ++ back ∧ Forall (fits tx_size) front ∧
       back = match sp_token_withdrawals p, list.last l with _ :: _, Some finish => [[finish]] | _, _ => [] end).
Proof.
  intros Hl. unfold portal_instruction_batches_inner. rewrite Hl. cbn [mbind option_bind].
  destruct (sp_token_withdrawals p) as [|x xs]; cbn [no_items].
  { eexists. split; [done|]. destruct (split_batches_ok tx_size l) as [[? ->]|[? ?]]; [by left|right].
    split; [done|]. eexists _, []. by rewrite app_nil_r. }
  destruct l as [|i l _] using rev_ind; [eexists; split; [done|]; right; split; [done|]; by exists [], []|].
  rewrite last_snoc, length_app, Nat.add_sub, take_app_length.
  destruct (split_batches_ok tx_size l) as [[Hbig ->]|[Hcat Hfits]].
  - destruct l as [|j l]; [by apply Exists_nil in Hbig|]. eexists. split; [done|]. left. split; [done|].
    apply Exists_app. by left.
  - destruct (negb (no_items l) && _) eqn:He.
    + exfalso. apply andb_true_iff in He as [H1' H2']. destruct (split_settlement_instruction_batches tx_size l); [|done].
      cbn in Hcat. by subst l.
    + eexists. split; [done|]. right. rewrite concat_app, Hcat. split; [done|]. by eexists _, _.
Qed.

Lemma batches_keep_instructions_witness :
  ∃ batches, portal_instruction_batches_inner SessionExample.portal SessionExample.session SessionExample.validator
    (λ l, 400 * Z.of_nat (length l)) MirrorExample.plan true SettlementExample.effects = Some batches ∧
    length batches = 2%nat.
Proof.
  destruct (batches_keep_instructions (λ l, 400 * Z.of_nat (length l)) SessionExample.portal SessionExample.session
    SessionExample.validator MirrorExample.plan true SettlementExample.effects _ MirrorExample.planned) as (b & Hb & _).
  exists b. split; [exact Hb|]. revert Hb. vm_compute. by intros [= <-].
Defined.

(** A settlement that is resumed leaves the lamport instruction out only
    when the operations the Portal's accumulator stands for already contain all
    the lamport changes, in their place in the plan; unless a SHA-256 collision
    between them and a part of the plan is at hand. *)
Theorem resume_skips_applied_lamports `{HostLaws} w session p applied s :
  represents w session (Active (sp_er_slot p) (sp_checksum p) applied) → session_at w session s →
  Forall wf_op (plan_ops p) → lamports_already_applied p (Session.settlement_accumulator s) = true →
  (∃ pre post, late_ops p = pre ++ post ∧ applied = early_ops p ++ (lamports_op <$> sp_lamport_changes p) ++ pre) ∨
  ∃ pre post, plan_ops p = pre ++ post ∧
    sha_collision (messages (sp_er_slot p) applied) (messages (sp_er_slot p) pre).
Proof.
  intros (s' & Hs' & _ & _ & _ & Hacc & Her & Hwa) Hs Hwf Hr. unfold session_at in *. rewrite Hs in Hs'. injection Hs' as <-.
  apply lamports_already_applied_true in Hr as (_ & pre & post & Hlate & Ha). rewrite Hacc in Ha.
  assert (Hsplit : plan_ops p = (early_ops p ++ (lamports_op <$> sp_lamport_changes p) ++ pre) ++ post)
    by (unfold plan_ops; rewrite Hlate, <- !app_assoc; done).
  assert (Hwp : Forall wf_op (early_ops p ++ (lamports_op <$> sp_lamport_changes p) ++ pre))
    by (rewrite Hsplit in Hwf; by apply Forall_app in Hwf as [? _]).
  destruct (settle_fold_binding _ _ _ _ Her Her Hwa Hwp Ha) as [[_ ->]|Hcol]; [left; by exists pre, post|right].
  by eexists _, post.
Qed.

Lemma resume_skips_applied_lamports_witness :
  (∃ pre post, late_ops MirrorExample.plan = pre ++ post ∧
     plan_ops MirrorExample.plan =
       early_ops MirrorExample.plan ++ (lamports_op <$> sp_lamport_changes MirrorExample.plan) ++ pre) ∨
  ∃ pre post, plan_ops MirrorExample.plan = pre ++ post ∧
    sha_collision (messages 40 (plan_ops MirrorExample.plan)) (messages 40 pre).
Proof.
  destruct MirrorExample.resumed as (s & Hs & Hst & Hr).
  exact (resume_skips_applied_lamports _ _ _ _ s Hst Hs MirrorExample.ops_wf Hr).
Defined.
