(* ===== verification/Geyser.v ===== *)
(** * The event plugin
      (geyser-events/src/event.rs, extract.rs, broker.rs)

    The validator's plugin reads program events from the logs and inner
    instructions of transactions, holds them back until their slot is confirmed,
    and serves them to subscribers, who can resume where they stopped.

    The text forms of keys (base58) and of data (base64) are third-party: the
    class [KeyText].  The
    broadcast channel of a program (tokio) is the list of the messages sent on
    it; a receiver is a position in it.  [Instant]s are nanoseconds, read by the
    operations that read the clock.  Operations that lock the broker's state run
    one after the other.  A panic is [None]. *)

From Stdlib Require Import ZArith Lia.
From Stdlib Require Import Strings.Byte.
From stdpp Require Import base gmap list numbers sorting.
From S2P Require Import Prelude Borsh Events Runtime.

Module Geyser.

(** [Pubkey]'s [Display] and [FromStr], and base64's standard engine. *)
Class KeyText : Type := {
  key_text : Address → list byte;
  key_of_text : list byte → option Address;
  base64_encode : list byte → list byte;
  base64_decode : list byte → option (list byte)
}.
Class KeyTextLaws `{KeyText} : Prop := { key_text_parses k : key_of_text (key_text k) = Some k }.

(** ** Text *)

Definition strip_prefix (p l : list byte) : option (list byte) :=
  if starts_with l p then Some (drop (length p) l) else None.
Definition strip_suffix (p l : list byte) : option (list byte) :=
  strip_prefix (reverse p) (reverse l) ≫= λ r, Some (reverse r).

(** [l.split_once(p)], at the first occurrence *)
Fixpoint split_once (p l : list byte) : option (list byte * list byte) :=
  match strip_prefix p l with
  | Some r => Some ([], r)
  | None => match l with
            | [] => None
            | b :: l' => '(x, y) ← split_once p l'; Some (b :: x, y)
            end
  end.

Definition is_ascii_digit (b : byte) : bool := (48 <=? byte_val b) && (byte_val b <=? 57).

Definition digits_value (l : list byte) : Z := fold_left (λ n b, n * 10 + (byte_val b - 48)) l 0.

(** [parse::<u64>()] and, on 64-bit hosts, [parse::<usize>()] *)
Definition parse_u64 (l : list byte) : option Z :=
  let digits := match l with b :: l' => if b == x2b then l' else l | [] => [] end in
  if (0 <? length digits)%nat && forallb is_ascii_digit digits && (digits_value digits <=? umax 64)
  then Some (digits_value digits) else None.

(** [Display] of an integer; a [u64] has at most 20 digits. *)
Fixpoint decimal_digits (fuel : nat) (n : Z) : list byte :=
  match fuel with
  | O => []
  | S fuel => (if n <? 10 then [] else decimal_digits fuel (n / 10)) ++ [byte_of_Z (48 + n mod 10)]
  end.
Definition decimal (n : Z) : list byte := decimal_digits 20 n.

(** [l.split(c)], never empty *)
Fixpoint split_on (c : byte) (l : list byte) : list (list byte) :=
  match l with
  | [] => [[]]
  | b :: l' =>
      if b == c then [] :: split_on c l'
      else match split_on c l' with part :: parts => (b :: part) :: parts | [] => [[b]] end
  end.

(** ** Event identifiers *)

Module EventId.
Record t : Set := mk { slot : Z; tx_index : Z; log_index : Z }.
#[global] Instance eq_dec : EqDecision t.
Proof. solve_decision. Defined.

(** The derived order. *)
Definition lt (a b : t) : Prop :=
  slot a < slot b ∨ slot a = slot b ∧ (tx_index a < tx_index b ∨ tx_index a = tx_index b ∧ log_index a < log_index b).
#[global] Instance lt_dec a b : Decision (lt a b).
Proof. unfold lt. apply _. Defined.

Definition to_string (i : t) : list byte :=
  decimal (slot i) ++ str ":" ++ decimal (tx_index i) ++ str ":" ++ decimal (log_index i).

(** The closure [next] of [from_str], with the [parse] that follows it. *)
Definition next (parts : list (list byte)) : result (list byte) (Z * list (list byte)) :=
  match parts with
  | part :: parts =>
      if (0 <? length part)%nat && forallb is_ascii_digit part then
        match parse_u64 part with Some n => Ok (n, parts) | None => Err (str "invalid event ID") end
      else Err (str "invalid event ID")
  | [] => Err (str "invalid event ID")
  end.

Definition from_str (value : list byte) : result (list byte) t :=
  match next (split_on x3a value) with
  | Ok (slot, parts) =>
      match next parts with
      | Ok (tx_index, parts) =>
          match next parts with
          | Ok (log_index, parts) =>
              match parts with [] => Ok (mk slot tx_index log_index) | _ => Err (str "invalid event ID") end
          | Err e => Err e
          end
      | Err e => Err e
      end
  | Err e => Err e
  end.
End EventId.

Inductive Source : Set := Log | Cpi.
Inductive Commitment : Set := Confirmed | Finalized.

Record ProgramEvent : Set := mkProgramEvent {
  pe_program_id : list byte;
  pe_slot : Z;
  pe_block_time : option Z;
  pe_signature : list byte;
  pe_tx_index : Z;
  pe_log_index : Z;
  pe_source : Source;
  pe_commitment : Commitment;
  pe_data : list byte
}.

Definition event_id (e : ProgramEvent) : EventId.t := EventId.mk (pe_slot e) (pe_tx_index e) (pe_log_index e).

Definition event_size (e : ProgramEvent) : Z :=
  saturating_add 64 (saturating_add 64 (saturating_add 64 (Z.of_nat (length (pe_program_id e)))
    (Z.of_nat (length (pe_signature e)))) (Z.of_nat (length (pe_data e)))) 256.

(** ** Extraction *)

Section extract.
Context `{KeyText}.

Record InnerInstruction : Set := mkInnerInstruction { ii_program_id_index : nat; ii_data : list byte }.

(** [ReplicaTransactionInfoV4], as far as it is read. *)
Record TransactionInfo : Set := mkTransactionInfo {
  ti_is_vote : bool;
  ti_failed : bool;
  ti_static_account_keys : list Address;
  ti_loaded_writable : list Address;
  ti_loaded_readonly : list Address;
  ti_inner_instructions : option (list (list InnerInstruction));
  ti_log_messages : option (list (list byte));
  ti_signature : list byte;
  ti_index : Z
}.

Definition EVENT_IX_TAG : list byte := [xe4; x45; xa5; x2e; x51; xcb; x9a; x1d].

Record Frame : Set := mkFrame {
  fr_program : Address; fr_events : list (nat * Address * list byte); fr_inner_indices : list nat
}.

Definition invocation (line : list byte) : option (Address * Z) :=
  rest ← strip_prefix (str "Program ") line;
  '(program, depth) ← split_once (str " invoke [") rest;
  program ← key_of_text program;
  depth ← strip_suffix (str "]") depth;
  depth ← parse_u64 depth;
  Some (program, depth).

Definition completion (line : list byte) : option (Address * bool) :=
  line ← strip_prefix (str "Program ") line;
  match strip_suffix (str " success") line with
  | Some program => program ← key_of_text program; Some (program, true)
  | None =>
      '(program, _) ← split_once (str " failed: ") line;
      program ← key_of_text program;
      Some (program, false)
  end.

(** The variables of the loop over the log lines; the top of the stack comes
    first. *)
Record Scan : Set := mkScan {
  sc_stack : list Frame;
  sc_log_events : list (nat * Address * list byte);
  sc_failed_inner : list nat;
  sc_inner_cursor : nat;
  sc_ordinal : nat
}.

Context (keys : list Address) (inner : list InnerInstruction).

(** [inner.get(index)..filter(|key| **key == program).map(|_| index)] *)
Definition inner_index (program : Address) (index : nat) : list nat :=
  match inner !! index ≫= λ i, keys !! ii_program_id_index i with
  | Some key => if key == program then [index] else []
  | None => []
  end.

Definition on_invocation (program : Address) (depth : Z) (s : Scan) : Scan :=
  let nested := 1 <? depth in
  let indices := if nested then inner_index program (sc_inner_cursor s) else [] in
  let cursor := if nested then S (sc_inner_cursor s) else sc_inner_cursor s in
  let matching := depth =? Z.of_nat (length (sc_stack s)) + 1 in
  let stack := if matching then sc_stack s else [] in
  if negb matching && (depth != 1) then mkScan [] (sc_log_events s) (sc_failed_inner s) cursor (sc_ordinal s)
  else mkScan (mkFrame program [] indices :: stack) (sc_log_events s) (sc_failed_inner s) cursor (sc_ordinal s).

Definition on_completion (program : Address) (success : bool) (s : Scan) : Scan :=
  match sc_stack s with
  | frame :: stack =>
      if fr_program frame != program then mkScan [] (sc_log_events s) (sc_failed_inner s) (sc_inner_cursor s) (sc_ordinal s)
      else if negb success then
        mkScan stack (sc_log_events s) (sc_failed_inner s ++ fr_inner_indices frame) (sc_inner_cursor s) (sc_ordinal s)
      else
        match stack with
        | parent :: stack' =>
            mkScan (mkFrame (fr_program parent) (fr_events parent ++ fr_events frame)
                      (fr_inner_indices parent ++ fr_inner_indices frame) :: stack')
              (sc_log_events s) (sc_failed_inner s) (sc_inner_cursor s) (sc_ordinal s)
        | [] => mkScan [] (sc_log_events s ++ fr_events frame) (sc_failed_inner s) (sc_inner_cursor s) (sc_ordinal s)
        end
  | [] => mkScan [] (sc_log_events s) (sc_failed_inner s) (sc_inner_cursor s) (sc_ordinal s)
  end.

Definition on_data (watched : gset Address) (encoded : list byte) (s : Scan) : Scan :=
  let stack :=
    match sc_stack s with
    | frame :: stack =>
        match base64_decode encoded with
        | Some d =>
            if bool_decide (fr_program frame ∈ watched) then
              mkFrame (fr_program frame) (fr_events frame ++ [(sc_ordinal s, fr_program frame, base64_encode d)])
                (fr_inner_indices frame) :: stack
            else sc_stack s
        | None => sc_stack s
        end
    | [] => []
    end in
  mkScan stack (sc_log_events s) (sc_failed_inner s) (sc_inner_cursor s) (S (sc_ordinal s)).

Definition scan_line (watched : gset Address) (s : Scan) (line : list byte) : Scan :=
  match invocation line with
  | Some (program, depth) => on_invocation program depth s
  | None =>
      match completion line with
      | Some (program, success) => on_completion program success s
      | None =>
          match strip_prefix (str "Program data: ") line with
          | Some encoded => on_data watched encoded s
          | None => s
          end
      end
  end.

Definition make_event (info : TransactionInfo) (slot : Z) (index : nat) (program : Address) (d : list byte) (s : Source) :
    ProgramEvent :=
  mkProgramEvent (key_text program) slot None (ti_signature info) (ti_index info) (Z.of_nat index) s Confirmed d.

(** The loop over the inner instructions. *)
Fixpoint cpi_events (info : TransactionInfo) (slot : Z) (watched : gset Address) (failed_inner : list nat)
    (l : list InnerInstruction) (index ordinal : nat) : list ProgramEvent :=
  match l with
  | [] => []
  | i :: l' =>
      match strip_prefix EVENT_IX_TAG (ii_data i) with
      | None => cpi_events info slot watched failed_inner l' (S index) ordinal
      | Some d =>
          let rest := cpi_events info slot watched failed_inner l' (S index) (S ordinal) in
          match keys !! ii_program_id_index i with
          | Some program =>
              if (8 <=? length d)%nat && bool_decide (program ∈ watched) && bool_decide (index ∉ failed_inner)
              then make_event info slot ordinal program (base64_encode d) Cpi :: rest else rest
          | None => rest
          end
      end
  end.
End extract.

(** [sort_unstable_by_key]: the keys that are sorted here are distinct. *)
Fixpoint insert_by {A} (lt : A → A → bool) (x : A) (l : list A) : list A :=
  match l with
  | [] => [x]
  | y :: l' => if lt y x then y :: insert_by lt x l' else x :: l
  end.
Definition sort_by {A} (lt : A → A → bool) (l : list A) : list A := foldr (insert_by lt) [] l.

Definition all_keys (info : TransactionInfo) : list Address :=
  ti_static_account_keys info ++ ti_loaded_writable info ++ ti_loaded_readonly info.

Definition extract `{KeyText} (info : TransactionInfo) (slot : Z) (watched : gset Address) : list ProgramEvent :=
  if ti_is_vote info || ti_failed info || bool_decide (watched = ∅) then []
  else
    let keys := all_keys info in
    if negb (existsb (λ key, bool_decide (key ∈ watched)) keys) then []
    else
      let inner := mjoin (default [] (ti_inner_instructions info)) in
      let s := fold_left (scan_line keys inner watched) (default [] (ti_log_messages info)) (mkScan [] [] [] 0 0) in
      let events := (λ '(index, program, d), make_event info slot index program d Log) <$> sc_log_events s in
      sort_by (λ a b, pe_log_index a <? pe_log_index b)
        (events ++ cpi_events keys info slot watched (sc_failed_inner s) inner 0 (sc_ordinal s)).

(** ** The broker *)

Record Config : Set := mkConfig {
  commitment : Commitment;
  replay_seconds : Z;
  unsubscribe_grace_seconds : Z;
  max_programs : nat;
  max_connections : Z;
  max_events_per_program : nat;
  max_replay_bytes : Z;
  max_pending_slots : nat;
  max_pending_transactions : Z;
  max_pending_bytes : Z
}.

Inductive StreamMessage : Set :=
| Event (event : ProgramEvent)
| Resync (program_id : list byte) (last_available_id : option EventId.t) (reason : list byte).

Record PendingBank : Set := mkPendingBank {
  pb_parent : option Z;
  pb_transactions : gset Z;
  pb_events : list ProgramEvent;
  pb_bytes : Z;
  pb_metadata : option (Z * option Z)
}.
Definition empty_bank : PendingBank := mkPendingBank None ∅ [] 0 None.

(** [live] is what has been sent on the program's channel. *)
Record Program : Set := mkProgram {
  pr_clients : Z;
  pr_idle_since : option Z;
  pr_since_slot : option Z;
  pr_evicted : option EventId.t;
  pr_gap_slot : option Z;
  pr_replay : list (Z * StreamMessage);
  pr_live : list StreamMessage
}.

(** The state with the snapshot of watched programs; [watch_version] numbers the
    snapshots, whose identity the code compares. *)
Record Broker : Set := mkBroker {
  programs : gmap Address Program;
  connections : Z;
  pending : gmap (Z * Z) PendingBank;
  selected : gmap Z Z;
  dead : gset Z;
  highest_seen : option Z;
  published : option Z;
  replay_bytes : Z;
  pending_bytes : Z;
  pending_transactions : Z;
  watch_version : nat;
  watched : gset Address
}.

Definition set_programs (ps : gmap Address Program) (b : Broker) : Broker :=
  mkBroker ps (connections b) (pending b) (selected b) (dead b) (highest_seen b) (published b) (replay_bytes b)
    (pending_bytes b) (pending_transactions b) (watch_version b) (watched b).
Definition set_replay (ps : gmap Address Program) (n : Z) (b : Broker) : Broker :=
  mkBroker ps (connections b) (pending b) (selected b) (dead b) (highest_seen b) (published b) n
    (pending_bytes b) (pending_transactions b) (watch_version b) (watched b).
Definition set_pending (ps : gmap (Z * Z) PendingBank) (bytes transactions : Z) (b : Broker) : Broker :=
  mkBroker (programs b) (connections b) ps (selected b) (dead b) (highest_seen b) (published b) (replay_bytes b)
    bytes transactions (watch_version b) (watched b).
Definition set_selected (m : gmap Z Z) (b : Broker) : Broker :=
  mkBroker (programs b) (connections b) (pending b) m (dead b) (highest_seen b) (published b) (replay_bytes b)
    (pending_bytes b) (pending_transactions b) (watch_version b) (watched b).
Definition set_dead (d : gset Z) (b : Broker) : Broker :=
  mkBroker (programs b) (connections b) (pending b) (selected b) d (highest_seen b) (published b) (replay_bytes b)
    (pending_bytes b) (pending_transactions b) (watch_version b) (watched b).
Definition set_highest_seen (n : Z) (b : Broker) : Broker :=
  mkBroker (programs b) (connections b) (pending b) (selected b) (dead b) (Some n) (published b) (replay_bytes b)
    (pending_bytes b) (pending_transactions b) (watch_version b) (watched b).
Definition set_published (n : Z) (b : Broker) : Broker :=
  mkBroker (programs b) (connections b) (pending b) (selected b) (dead b) (highest_seen b) (Some n) (replay_bytes b)
    (pending_bytes b) (pending_transactions b) (watch_version b) (watched b).
Definition set_connections (n : Z) (b : Broker) : Broker :=
  mkBroker (programs b) n (pending b) (selected b) (dead b) (highest_seen b) (published b) (replay_bytes b)
    (pending_bytes b) (pending_transactions b) (watch_version b) (watched b).

Definition with_clients (n : Z) (idle : option Z) (p : Program) : Program :=
  mkProgram n idle (pr_since_slot p) (pr_evicted p) (pr_gap_slot p) (pr_replay p) (pr_live p).
Definition with_since (s : option Z) (p : Program) : Program :=
  mkProgram (pr_clients p) (pr_idle_since p) s (pr_evicted p) (pr_gap_slot p) (pr_replay p) (pr_live p).
Definition with_gap (g : Z) (m : StreamMessage) (p : Program) : Program :=
  mkProgram (pr_clients p) (pr_idle_since p) (pr_since_slot p) (pr_evicted p) (Some g) (pr_replay p) (pr_live p ++ [m]).
Definition with_message (now : Z) (m : StreamMessage) (p : Program) : Program :=
  mkProgram (pr_clients p) (pr_idle_since p) (pr_since_slot p) (pr_evicted p) (pr_gap_slot p)
    (pr_replay p ++ [(now, m)]) (pr_live p ++ [m]).
Definition with_evicted (e : option EventId.t) (r : list (Z * StreamMessage)) (p : Program) : Program :=
  mkProgram (pr_clients p) (pr_idle_since p) (pr_since_slot p) e (pr_gap_slot p) r (pr_live p).

Definition new_broker : Broker := mkBroker ∅ 0 ∅ ∅ ∅ None None 0 0 0 0 ∅.

Record Resume : Set := mkResume { after : option EventId.t; from_slot : option Z }.

Definition accepts (r : Resume) (i : EventId.t) : bool :=
  match after r with None => true | Some a => bool_decide (EventId.lt a i) end
  && match from_slot r with None => true | Some f => f <=? EventId.slot i end.

(** The smallest key, [first_key_value] and [keys().next()]. *)
Definition least (l : list Z) : option Z :=
  match l with [] => None | x :: l' => Some (foldr Z.min x l') end.

Section broker.
Context `{KeyText} (config : Config).
(** The order in which a [HashMap] is visited. *)
Context (iter : gmap Address Program → list (Address * Program)).

Definition event_of (m : StreamMessage) : option ProgramEvent := match m with Event e => Some e | _ => None end.

Definition resync (key : Address) (program : Program) (reason : list byte) : StreamMessage :=
  Resync (key_text key) ('(_, m) ← head (pr_replay program); event_id <$> event_of m) reason.

Definition refresh_watch (b : Broker) : Broker :=
  mkBroker (programs b) (connections b) (pending b) (selected b) (dead b) (highest_seen b) (published b) (replay_bytes b)
    (pending_bytes b) (pending_transactions b) (S (watch_version b)) (dom (programs b)).

Definition observe_slot (slot : Z) (b : Broker) : Broker :=
  let b := match highest_seen b with
           | None => set_programs ((λ p, match pr_since_slot p with None => with_since (Some slot) p | Some _ => p end)
                                   <$> programs b) b
           | Some _ => b
           end in
  set_highest_seen (Z.max (default slot (highest_seen b)) slot) b.

Definition remove_bank (b : Broker) (key : Z * Z) : Broker :=
  match pending b !! key with
  | Some bank =>
      set_pending (delete key (pending b)) (saturating_sub (pending_bytes b) (pb_bytes bank))
        (saturating_sub (pending_transactions b) (Z.of_nat (size (pb_transactions bank)))) b
  | None => b
  end.

Definition gap (slot : Z) (reason : list byte) (b : Broker) : Broker :=
  set_programs (map_imap (λ key p, Some (with_gap (Z.max (default slot (pr_gap_slot p)) slot) (resync key p reason) p))
    (programs b)) b.

(** *** Limits on what is pending *)

Definition slots {A} (m : gmap (Z * Z) A) : list Z := (λ kv, kv.1.1) <$> map_to_list m.
Definition keys_where {A} (f : Z → bool) (m : gmap (Z * Z) A) : list (Z * Z) :=
  filter (λ k, f k.1 = true) ((λ kv, kv.1) <$> map_to_list m).

Definition over_limits (b : Broker) : bool :=
  (max_pending_slots config <? size (pending b))%nat
  || (max_pending_transactions config <? pending_transactions b)
  || (max_pending_bytes config <? pending_bytes b).

(** One round drops every bank of the earliest slot. *)
Definition drop_slot (slot : Z) (b : Broker) : Broker :=
  let b := fold_left remove_bank (keys_where (λ s, s =? slot) (pending b)) b in
  let b := set_selected (delete slot (selected b)) b in
  let b := set_published (Z.max (default slot (published b)) slot) b in
  gap slot (str "pending_limit") b.

Fixpoint enforce_loop (fuel : nat) (b : Broker) : Broker :=
  match fuel with
  | O => b
  | S fuel =>
      if over_limits b then
        match least (slots (pending b)) with
        | Some slot => enforce_loop fuel (drop_slot slot b)
        | None => b
        end
      else b
  end.

Fixpoint trim_dead (fuel : nat) (d : gset Z) : gset Z :=
  match fuel with
  | O => d
  | S fuel =>
      if (max_pending_slots config <? size d)%nat then
        match least (elements d) with
        | Some slot => trim_dead fuel (d ∖ {[slot]})
        | None => d
        end
      else d
  end.

Definition enforce_pending_limits (b : Broker) : Broker :=
  let b := enforce_loop (size (pending b)) b in
  let cutoff := saturating_sub (default 0 (highest_seen b)) (Z.of_nat (max_pending_slots config)) in
  let kept := filter (λ slot, cutoff ≤ slot) (dead b) in
  set_dead (trim_dead (size kept) kept) b.

(** *** Eviction *)

Definition seconds (n : Z) : Z := n * 1000000000.
Definition duration_since (now at_ : Z) : Z := Z.max 0 (now - at_).

Definition evict (p : Program) (total : Z) : Program * Z :=
  match pr_replay p with
  | [] => (p, total)
  | (_, Event e) :: r => (with_evicted (Some (event_id e)) r p, saturating_sub total (event_size e))
  | (_, Resync _ _ _) :: r => (with_evicted (pr_evicted p) r p, total)
  end.

Definition too_old (now : Z) (p : Program) : bool :=
  (max_events_per_program config <? length (pr_replay p))%nat
  || match head (pr_replay p) with
     | Some (at_, _) => seconds (replay_seconds config) <=? duration_since now at_
     | None => false
     end.

Fixpoint evict_old (fuel : nat) (now : Z) (p : Program) (total : Z) : Program * Z :=
  match fuel with
  | O => (p, total)
  | S fuel => if too_old now p then let '(p, total) := evict p total in evict_old fuel now p total else (p, total)
  end.

Definition idle_program (now : Z) (p : Program) : bool :=
  (pr_clients p =? 0)
  && match pr_idle_since p with
     | Some idle => seconds (unsubscribe_grace_seconds config) <=? duration_since now idle
     | None => false
     end.

Definition replay_size (p : Program) (total : Z) : Z :=
  fold_left (λ n m, match m.2 with Event e => saturating_sub n (event_size e) | _ => n end) (pr_replay p) total.

Definition remove_program (b : Broker) (kp : Address * Program) : Broker :=
  set_replay (delete kp.1 (programs b)) (replay_size kp.2 (replay_bytes b)) b.

Definition evict_program (now : Z) (b : Broker) (kp : Address * Program) : Broker :=
  let '(p, total) := evict_old (length (pr_replay kp.2)) now kp.2 (replay_bytes b) in
  set_replay (<[kp.1 := p]> (programs b)) total b.

(** [filter_map(front).min_by_key(at)]: the first of the oldest *)
Definition older (best : option (Address * Z)) (kp : Address * Program) : option (Address * Z) :=
  match head (pr_replay kp.2) with
  | None => best
  | Some (at_, _) =>
      match best with
      | Some (_, at') => if at_ <? at' then Some (kp.1, at_) else best
      | None => Some (kp.1, at_)
      end
  end.

Fixpoint evict_bytes (fuel : nat) (b : Broker) : Broker :=
  match fuel with
  | O => b
  | S fuel =>
      if max_replay_bytes config <? replay_bytes b then
        match fold_left older (iter (programs b)) None with
        | Some (key, _) =>
            match programs b !! key with
            | Some p => let '(p, total) := evict p (replay_bytes b) in
                        evict_bytes fuel (set_replay (<[key := p]> (programs b)) total b)
            | None => b
            end
        | None => b
        end
      else b
  end.

Definition replay_count (ps : gmap Address Program) : nat :=
  foldr (λ kp n, length (pr_replay kp.2) + n)%nat 0%nat (map_to_list ps).

Definition cleanup_locked (now : Z) (b : Broker) : Broker :=
  let remove := filter (λ kp, idle_program now kp.2 = true) (iter (programs b)) in
  let b := fold_left remove_program remove b in
  let b := match remove with [] => b | _ => refresh_watch b end in
  let b := fold_left (evict_program now) (iter (programs b)) b in
  evict_bytes (replay_count (programs b)) b.

Definition cleanup : Z → Broker → Broker := cleanup_locked.

(** *** Publication *)

Definition stamp (block_time : option Z) (e : ProgramEvent) : ProgramEvent :=
  mkProgramEvent (pe_program_id e) (pe_slot e) block_time (pe_signature e) (pe_tx_index e) (pe_log_index e) (pe_source e)
    (commitment config) (pe_data e).

(** [parse().expect("extracted program ID")] panics. *)
Definition publish_event (now : Z) (block_time : option Z) (acc : option (gmap Address Program * Z)) (e : ProgramEvent) :
    option (gmap Address Program * Z) :=
  '(ps, total) ← acc;
  let e := stamp block_time e in
  key ← key_of_text (pe_program_id e);
  match ps !! key with
  | Some p => Some (<[key := with_message now (Event e) p]> ps, saturating_add 64 total (event_size e))
  | None => Some (ps, total)
  end.

Definition id_before (a b : ProgramEvent) : bool := bool_decide (EventId.lt (event_id a) (event_id b)).

(** The bank that can be published next, with its slot. *)
Definition ready (b : Broker) : option (Z * Z * PendingBank * option Z) :=
  slot ← least ((λ kv, kv.1) <$> map_to_list (selected b));
  bank_id ← selected b !! slot;
  bank ← pending b !! (slot, bank_id);
  '(count, block_time) ← pb_metadata bank;
  if Z.of_nat (size (pb_transactions bank)) != count then None
  else
    let waits := match pb_parent bank with
                 | Some parent => (parent <? slot) && existsb (λ s, s =? parent) (slots (pending b))
                 | None => false
                 end in
    if waits then None else Some (slot, bank_id, bank, block_time).

(** One round publishes the bank that is [ready]. *)
Definition publish (now slot bank_id : Z) (bank : PendingBank) (block_time : option Z) (b : Broker) : option Broker :=
  let b := remove_bank b (slot, bank_id) in
  let b := set_selected (delete slot (selected b)) b in
  let events := sort_by id_before (pb_events bank) in
  '(ps, total) ← fold_left (publish_event now block_time) events (Some (programs b, replay_bytes b));
  let b := set_published slot (set_replay ps total b) in
  let b := fold_left remove_bank (keys_where (λ s, s <=? slot) (pending b)) b in
  Some (cleanup_locked now b).

Fixpoint flush_loop (fuel : nat) (now : nat → Z) (b : Broker) : option Broker :=
  match fuel with
  | O => Some b
  | S fuel =>
      match ready b with
      | None => Some b
      | Some (slot, bank_id, bank, block_time) =>
          b ← publish (now 0%nat) slot bank_id bank block_time b;
          flush_loop fuel (λ k, now (S k)) b
      end
  end.

Definition flush (now : nat → Z) (b : Broker) : option Broker := flush_loop (size (selected b)) now b.

(** *** Notifications *)

Definition is_published (slot : Z) (b : Broker) : bool :=
  match published b with Some p => slot <=? p | None => false end.

(** The transaction was parsed with an older snapshot of the watched programs. *)
Definition stale (slot : Z) (version : nat) (W : gset Address) (b : Broker) : Broker :=
  if (version =? watch_version b)%nat then b
  else set_programs (map_imap (λ key p, Some (
         if bool_decide (key ∈ W) then p
         else with_since (Some (Z.max (default 0 (pr_since_slot p)) (u64_saturating_add slot 1))) p)) (programs b)) b.

(** [transaction_with_watch], [metadata] and [status] up to their last call,
    [flush]; the flag tells whether they reach it. *)
Definition transaction_entry (slot bank_id index : Z) (events : list ProgramEvent)
    (version : nat) (watched_set : gset Address) (b : Broker) : Broker * bool :=
  let b := observe_slot slot b in
  let b := stale slot version watched_set b in
  if bool_decide (slot ∈ dead b) then (b, false)
  else if is_published slot b then
    (match events with [] => b | _ => gap slot (str "late_transaction") b end, false)
  else
    let bank := default empty_bank (pending b !! (slot, bank_id)) in
    if bool_decide (index ∈ pb_transactions bank) then (b, false)
    else
      let bytes := foldr Z.add 0 (event_size <$> events) `mod` 2 ^ 64 in
      let bank := mkPendingBank (pb_parent bank) ({[index]} ∪ pb_transactions bank) (pb_events bank ++ events)
                    (u64_saturating_add (pb_bytes bank) bytes) (pb_metadata bank) in
      let b := set_pending (<[(slot, bank_id) := bank]> (pending b)) (u64_saturating_add (pending_bytes b) bytes)
                 (pending_transactions b + 1) b in
      (enforce_pending_limits b, true).

Definition metadata_entry (slot bank_id parent count : Z) (block_time : option Z) (b : Broker) : Broker * bool :=
  if bool_decide (slot ∈ dead b) || is_published slot b then (b, false)
  else
    let b := observe_slot slot b in
    let bank := default empty_bank (pending b !! (slot, bank_id)) in
    let bank := mkPendingBank (Some parent) (pb_transactions bank) (pb_events bank) (pb_bytes bank)
                  (Some (count, block_time)) in
    let b := set_pending (<[(slot, bank_id) := bank]> (pending b)) (pending_bytes b) (pending_transactions b) b in
    (enforce_pending_limits b, true).

Inductive SlotStatus : Set :=
| Processed | Rooted | SConfirmed | FirstShredReceived | Completed | CreatedBank | Dead.

Definition status_entry (slot bank_id : Z) (parent : option Z) (st : SlotStatus) (b : Broker) : Broker * bool :=
  match st with
  | Dead =>
      let b := observe_slot slot b in
      let b := set_dead ({[slot]} ∪ dead b) b in
      let b := fold_left remove_bank (keys_where (λ s, s =? slot) (pending b)) b in
      let b := set_selected (delete slot (selected b)) b in
      (enforce_pending_limits b, true)
  | FirstShredReceived | Completed => (b, false)
  | _ =>
      if bool_decide (slot ∈ dead b) || is_published slot b then (b, false)
      else
        let b := observe_slot slot b in
        let bank := default empty_bank (pending b !! (slot, bank_id)) in
        let bank := mkPendingBank (match parent with Some _ => parent | None => pb_parent bank end) (pb_transactions bank)
                      (pb_events bank) (pb_bytes bank) (pb_metadata bank) in
        let b := set_pending (<[(slot, bank_id) := bank]> (pending b)) (pending_bytes b) (pending_transactions b) b in
        let b := match st, commitment config with
                 | Rooted, _ | SConfirmed, Confirmed => set_selected (<[slot := bank_id]> (selected b)) b
                 | _, _ => b
                 end in
        (enforce_pending_limits b, true)
  end.

Definition then_flush (now : nat → Z) (x : Broker * bool) : option Broker := if x.2 then flush now x.1 else Some x.1.

Definition transaction_with_watch (now : nat → Z) (slot bank_id index : Z) (events : list ProgramEvent)
    (version : nat) (watched_set : gset Address) (b : Broker) : option Broker :=
  then_flush now (transaction_entry slot bank_id index events version watched_set b).
Definition metadata (now : nat → Z) (slot bank_id parent count : Z) (block_time : option Z) (b : Broker) : option Broker :=
  then_flush now (metadata_entry slot bank_id parent count block_time b).
Definition status (now : nat → Z) (slot bank_id : Z) (parent : option Z) (st : SlotStatus) (b : Broker) : option Broker :=
  then_flush now (status_entry slot bank_id parent st b).

(** *** Subscriptions *)

Record Subscription : Set := mkSubscription {
  su_program : Address; su_replay : list StreamMessage; su_live : nat; su_resume : Resume
}.

Definition requested_slot (r : Resume) : option Z :=
  match after r with Some i => Some (EventId.slot i) | None => from_slot r end.

(** Why a resuming subscriber may have missed events. *)
Definition must_resync (r : Resume) (p : Program) : bool :=
  let holds {A} (o : option A) (f : A → bool) := match o with Some x => f x | None => false end in
  let outside_coverage := holds (requested_slot r)
    (λ slot, match pr_since_slot p with Some since => slot <? since | None => true end) in
  let expired := holds (after r) (λ i, holds (pr_evicted p) (λ floor, bool_decide (EventId.lt i floor)))
    || holds (from_slot r) (λ slot, holds (pr_evicted p) (λ floor, slot <=? EventId.slot floor)) in
  let in_gap := holds (requested_slot r) (λ slot, holds (pr_gap_slot p) (λ g, slot <=? g)) in
  outside_coverage || expired || in_gap.

Definition replayed (r : Resume) (p : Program) : list StreamMessage :=
  match requested_slot r with
  | None => []
  | Some _ => filter (λ m, match event_of m with Some e => accepts r (event_id e) | None => false end = true)
                ((λ x, x.2) <$> pr_replay p)
  end.

Definition subscribe (now : Z) (key : Address) (r : Resume) (b : Broker) : Broker * result (list byte) Subscription :=
  let b := cleanup_locked now b in
  if max_connections config <=? connections b then (b, Err (str "connection limit reached"))
  else
    let known := bool_decide (is_Some (programs b !! key)) in
    if negb known && (max_programs config <=? size (programs b))%nat then (b, Err (str "program limit reached"))
    else
      let b := if known then b
               else
                 let since_slot := (λ slot, u64_saturating_add slot 1) <$> highest_seen b in
                 refresh_watch (set_programs (<[key := mkProgram 0 None since_slot None None [] []]> (programs b)) b) in
      let b := set_connections (connections b + 1) b in
      match programs b !! key with
      | None => (b, Err []) (* not reached: the program is known or was inserted *)
      | Some p =>
          let p := with_clients (pr_clients p + 1) None p in
          let b := set_programs (<[key := p]> (programs b)) b in
          let notice := if must_resync r p then [resync key p (str "replay_unavailable")] else [] in
          (b, Ok (mkSubscription key (notice ++ replayed r p) (length (pr_live p)) r))
      end.

(** *** The server: the request's resume point and the stream after the replay
    (server.rs) *)

Fixpoint parse_query (pairs : list (list byte)) (r : Resume) : result (list byte) Resume :=
  match pairs with
  | [] => Ok r
  | field :: pairs =>
      match split_once (str "=") field with
      | Some (name, value) =>
          if name != str "from_slot" then Err (str "only from_slot is supported")
          else if bool_decide (is_Some (from_slot r)) || (length value =? 0)%nat || negb (forallb is_ascii_digit value)
          then Err (str "invalid from_slot")
          else match parse_u64 value with
               | Some n => parse_query pairs (mkResume (after r) (Some n))
               | None => Err (str "invalid from_slot")
               end
      | None => Err (str "only from_slot is supported")
      end
  end.

(** The header's value may not be text. *)
Definition parse_resume (query : option (list byte)) (last_id : option (result unit (list byte))) : result (list byte) Resume :=
  let resume := match query with
                | Some (c :: query) => parse_query (split_on x26 (c :: query)) (mkResume None None)
                | _ => Ok (mkResume None None)
                end in
  match resume, last_id with
  | Err e, _ => Err e
  | Ok r, None => Ok r
  | Ok _, Some (Err _) => Err (str "invalid Last-Event-ID")
  | Ok _, Some (Ok id) => match EventId.from_str id with Ok i => Ok (mkResume (Some i) None) | Err e => Err e end
  end.

(** [Stream::next] on the messages its receiver gets, without heartbeats. *)
Fixpoint received (r : Resume) (l : list StreamMessage) : list StreamMessage :=
  match l with
  | [] => []
  | Event e :: l =>
      if accepts r (event_id e) then Event e :: received (mkResume (Some (event_id e)) (from_slot r)) l else received r l
  | m :: l => m :: received r l
  end.

Definition drop_subscription (now : Z) (key : Address) (b : Broker) : Broker :=
  let b := set_connections (saturating_sub (connections b) 1) b in
  match programs b !! key with
  | Some p =>
      let clients := saturating_sub (pr_clients p) 1 in
      set_programs (<[key := with_clients clients (if clients =? 0 then Some now else pr_idle_since p) p]> (programs b)) b
  | None => b
  end.

(** [programs.get(&key).unwrap()] panics. *)
Definition lag_notice (key : Address) (b : Broker) : option StreamMessage :=
  (λ p, resync key p (str "slow_consumer")) <$> programs b !! key.
End broker.
End Geyser.
