(* ===== verification/EventExtraction.v ===== *)
(** * Extraction of events (geyser-events/src/extract.rs)

    A program's events are those it would get if it were the only one watched,
    and the identifiers of a transaction's events increase. *)

From Stdlib Require Import ZArith Lia.
From Stdlib Require Import Strings.Byte.
From stdpp Require Import base gmap list numbers sorting.
From S2P Require Import Prelude Borsh Events Runtime Geyser.

Import Geyser.

(** ** Extraction *)

Abbreviation index_of_event := (λ x : nat * Address * list byte, x.1.1).

(** The payloads seen so far that have not been rolled back, in order. *)
Definition seen (s : Scan) : list (nat * Address * list byte) :=
  sc_log_events s ++ concat (reverse (fr_events <$> sc_stack s)).

Definition increasing (l : list nat) (bound : nat) : Prop := StronglySorted lt l ∧ Forall (λ n, (n < bound)%nat) l.

Lemma Forall_part {A} (P : A → Prop) l k : l `sublist_of` k → Forall P k → Forall P l.
Proof.
  induction 1 as [|x l k Hs IH|x l k Hs IH]; intros Hk; [done|..]; apply list.Forall_cons in Hk as [? ?].
  - constructor; auto.
  - auto.
Qed.

Lemma sublist_map {A B} (f : A → B) l k : l `sublist_of` k → (f <$> l) `sublist_of` (f <$> k).
Proof. induction 1; cbn; by constructor. Qed.

Lemma increasing_sublist l k bound : l `sublist_of` k → increasing k bound → increasing l bound.
Proof.
  intros Hs [Hk Hb]. split; [|by eapply Forall_part].
  revert Hk. clear Hb. induction Hs as [|x l k Hs IH|x l k Hs IH]; intros Hk; [constructor|..].
  - apply StronglySorted_cons in Hk as [Hx Hk]. constructor; [by apply IH|]. by eapply Forall_part.
  - apply StronglySorted_cons in Hk as [_ Hk]. by apply IH.
Qed.

Lemma increasing_snoc l bound : increasing l bound → increasing (l ++ [bound]) (S bound).
Proof.
  intros [Hs Hb]. split.
  - apply StronglySorted_app_2; [|done|by repeat constructor].
    intros x y Hx Hy%list_elem_of_singleton. subst y. rewrite list.Forall_forall in Hb. by apply Hb.
  - apply Forall_app. split; [|by repeat constructor]. eapply Forall_impl; [exact Hb|]. cbn. lia.
Qed.

Section scanning.
Context `{KeyText} (keys : list Address) (inner : list InnerInstruction).

Lemma seen_cons f st ev fi c o :
  seen (mkScan (f :: st) ev fi c o) = ev ++ concat (reverse (fr_events <$> st)) ++ fr_events f.
Proof.
  unfold seen. cbn [sc_log_events sc_stack fmap list_fmap]. rewrite reverse_cons, concat_app. cbn [concat]. by rewrite app_nil_r.
Qed.
Lemma seen_nil ev fi c o : seen (mkScan [] ev fi c o) = ev.
Proof. apply app_nil_r. Qed.

Lemma scan_line_increasing W s line :
  increasing (index_of_event <$> seen s) (sc_ordinal s) →
  let s' := scan_line keys inner W s line in increasing (index_of_event <$> seen s') (sc_ordinal s').
Proof.
  intros Hi. cbv zeta. unfold scan_line.
  assert (Hdrop : ∀ fi c, increasing (index_of_event <$> seen (mkScan [] (sc_log_events s) fi c (sc_ordinal s))) (sc_ordinal s)).
  { intros fi c. eapply increasing_sublist; [|exact Hi]. rewrite seen_nil. unfold seen.
    apply sublist_map. by apply sublist_inserts_r. }
  destruct (invocation line) as [[program depth]|].
  { unfold on_invocation. destruct (negb _ && _); cbn [sc_ordinal]; [apply Hdrop|].
    rewrite seen_cons. cbn [fr_events]. rewrite app_nil_r. destruct (depth =? _); [exact Hi|].
    specialize (Hdrop [] 0%nat). rewrite seen_nil in Hdrop. cbn [fmap list_fmap]. rewrite reverse_nil. cbn [concat].
    by rewrite app_nil_r. }
  destruct (completion line) as [[program ok]|].
  { unfold on_completion. destruct s as [[|f st] ev fi c o]; cbn [sc_stack sc_log_events sc_failed_inner sc_inner_cursor sc_ordinal] in *;
      [apply Hdrop|]. destruct (fr_program f != program); cbn [sc_ordinal]; [apply Hdrop|].
    rewrite seen_cons in Hi. destruct (negb ok).
    - cbn [sc_ordinal]. eapply increasing_sublist; [|exact Hi]. apply sublist_map. unfold seen. cbn [sc_log_events sc_stack].
      by apply sublist_app, sublist_inserts_r.
    - destruct st as [|g st]; cbn [sc_ordinal].
      + rewrite seen_nil. exact Hi.
      + rewrite seen_cons. cbn [fr_events]. cbn [fmap list_fmap] in Hi. rewrite reverse_cons, concat_app in Hi.
        cbn [concat] in Hi. rewrite app_nil_r in Hi. by rewrite <- !app_assoc in Hi. }
  destruct (strip_prefix _ line) as [enc|]; [|exact Hi]. unfold on_data.
  assert (Hlt : increasing (index_of_event <$> seen s) (S (sc_ordinal s))).
  { destruct Hi as [Hs Hb]. split; [done|]. eapply Forall_impl; [exact Hb|]. cbn. lia. }
  destruct s as [[|f st] ev fi c o]; cbn [sc_stack sc_log_events sc_failed_inner sc_inner_cursor sc_ordinal] in *; [exact Hlt|].
  destruct (base64_decode enc) as [d|]; [|exact Hlt]. case_bool_decide; [|exact Hlt].
  rewrite seen_cons in *. cbn [fr_events]. rewrite !app_assoc, fmap_app, <- app_assoc. by apply increasing_snoc.
Qed.

Lemma scan_increasing W lines s :
  increasing (index_of_event <$> seen s) (sc_ordinal s) →
  let s' := fold_left (scan_line keys inner W) lines s in increasing (index_of_event <$> seen s') (sc_ordinal s').
Proof. revert s. induction lines as [|l ls IH]; intros s Hs; [done|]. cbn. by apply IH, scan_line_increasing. Qed.

Lemma cpi_events_increasing info slot W failed l i o :
  StronglySorted Z.lt (pe_log_index <$> cpi_events keys info slot W failed l i o) ∧
  Forall (λ e, Z.of_nat o ≤ pe_log_index e) (cpi_events keys info slot W failed l i o).
Proof.
  revert i o. induction l as [|x l IH]; intros i o; cbn [cpi_events]; [split; constructor|].
  destruct (strip_prefix _ _) as [d|]; [|apply IH]. destruct (IH (S i) (S o)) as [Hs Hb].
  assert (Hb' : Forall (λ e, Z.of_nat o ≤ pe_log_index e) (cpi_events keys info slot W failed l (S i) (S o)))
    by (eapply Forall_impl; [exact Hb|]; cbn; lia).
  destruct (keys !! _) as [p|]; [|done]. destruct (_ && _); [|done]. cbn [fmap list_fmap]. split.
  - constructor; [done|]. apply Forall_fmap. eapply Forall_impl; [exact Hb|]. cbn. lia.
  - constructor; [cbn; lia|done].
Qed.
End scanning.

Lemma sort_by_sorted {A} (lt : A → A → bool) l : StronglySorted (λ a b, lt b a = false) l → sort_by lt l = l.
Proof.
  induction l as [|x l IH]; intros Hs; [done|]. apply StronglySorted_cons in Hs as [Hx Hs]. unfold sort_by in *.
  cbn [foldr]. rewrite IH by done. destruct l as [|y l]; [done|]. cbn [insert_by].
  apply list.Forall_cons in Hx as [-> _]. done.
Qed.

Section extraction.
Context `{KeyTextLaws} (info : TransactionInfo) (slot : Z).

Abbreviation keys := (all_keys info).
Abbreviation inner := (mjoin (default [] (ti_inner_instructions info))).

Definition scanned (W : gset Address) : Scan :=
  fold_left (scan_line keys inner W) (default [] (ti_log_messages info)) (mkScan [] [] [] 0 0).

Definition logged (x : nat * Address * list byte) : ProgramEvent := make_event info slot x.1.1 x.1.2 x.2 Log.

(** The events before they are sorted. *)
Definition raw_events (W : gset Address) : list ProgramEvent :=
  (logged <$> sc_log_events (scanned W)) ++
  cpi_events keys info slot W (sc_failed_inner (scanned W)) inner 0 (sc_ordinal (scanned W)).

Lemma raw_increasing W : StronglySorted Z.lt (pe_log_index <$> raw_events W).
Proof.
  destruct (scan_increasing keys inner W (default [] (ti_log_messages info)) (mkScan [] [] [] 0 0)) as [Hs Hb].
  { split; constructor. }
  fold (scanned W) in Hs, Hb.
  destruct (increasing_sublist (index_of_event <$> sc_log_events (scanned W)) (index_of_event <$> seen (scanned W))
    (sc_ordinal (scanned W))) as [Hs' Hb']; [apply sublist_map; by apply sublist_inserts_r|by split|].
  destruct (cpi_events_increasing keys info slot W (sc_failed_inner (scanned W)) inner 0 (sc_ordinal (scanned W))) as [Hc Hcb].
  unfold raw_events. rewrite fmap_app. apply StronglySorted_app_2; [|..|exact Hc].
  - intros x y Hx Hy. rewrite <- list_fmap_compose in Hx. apply list_elem_of_fmap in Hx as (a & -> & Ha).
    apply list_elem_of_fmap in Hy as (b & -> & Hb2). rewrite list.Forall_forall in Hcb. specialize (Hcb _ Hb2).
    rewrite Forall_fmap, list.Forall_forall in Hb'. specialize (Hb' _ Ha). cbn in *. lia.
  - clear -Hs'. induction (sc_log_events (scanned W)) as [|x l IH]; [constructor|]. cbn [fmap list_fmap] in *.
    apply StronglySorted_cons in Hs' as [Hx Hs']. constructor; [by apply IH|].
    rewrite Forall_fmap in Hx. rewrite !Forall_fmap. eapply Forall_impl; [exact Hx|]. cbn. lia.
Qed.

Lemma extract_raw W : ti_is_vote info = false → ti_failed info = false → existsb (λ k, bool_decide (k ∈ W)) keys = true →
  extract info slot W = raw_events W.
Proof.
  intros Hv Hf Hk. unfold extract. rewrite Hv, Hf, Hk. rewrite bool_decide_eq_false_2; cbn [orb negb].
  - change (mkScan [] [] [] 0 0) with (mkScan [] [] [] 0 0). fold (scanned W).
    assert (Hl : (λ '(i, p, d), make_event info slot i p d Log) <$> sc_log_events (scanned W)
      = logged <$> sc_log_events (scanned W)) by (apply list_fmap_ext; intros i [[? ?] ?]; done).
    rewrite Hl. apply sort_by_sorted. pose proof (raw_increasing W) as Hi. fold (raw_events W).
    induction (raw_events W) as [|x l IH]; [constructor|]. cbn [fmap list_fmap] in Hi.
    apply StronglySorted_cons in Hi as [Hx Hi]. constructor; [by apply IH|]. rewrite Forall_fmap in Hx.
    eapply Forall_impl; [exact Hx|]. cbn. intros y Hy. apply Z.ltb_ge. lia.
  - intros ->. apply existsb_exists in Hk as (k & _ & Hk%bool_decide_eq_true). set_solver.
Qed.

(** *** What one program sees does not depend on the others *)

Section stable.
Context (p : Address) (W1 W2 : gset Address) (Hp1 : p ∈ W1) (Hp2 : p ∈ W2).

Abbreviation mine := (filter (λ x : nat * Address * list byte, x.1.2 = p)).

Definition same_frame (f g : Frame) : Prop :=
  fr_program f = fr_program g ∧ mine (fr_events f) = mine (fr_events g) ∧ fr_inner_indices f = fr_inner_indices g.

Definition same_scan (s t : Scan) : Prop :=
  Forall2 same_frame (sc_stack s) (sc_stack t) ∧ mine (sc_log_events s) = mine (sc_log_events t) ∧
  sc_failed_inner s = sc_failed_inner t ∧ sc_inner_cursor s = sc_inner_cursor t ∧ sc_ordinal s = sc_ordinal t.

Lemma same_scan_line s t line : same_scan s t → same_scan (scan_line keys inner W1 s line) (scan_line keys inner W2 t line).
Proof.
  destruct s as [st ev fi c o], t as [st' ev' fi' c' o']. intros (Hst & Hev & Hfi & Hc & Ho).
  cbn [sc_stack sc_log_events sc_failed_inner sc_inner_cursor sc_ordinal] in *. subst fi' c' o'.
  assert (Hlen : length st = length st') by (by eapply Forall2_length).
  unfold scan_line. destruct (invocation line) as [[program depth]|].
  { unfold on_invocation. cbn [sc_stack sc_log_events sc_failed_inner sc_inner_cursor sc_ordinal]. rewrite <- Hlen.
    destruct (negb _ && _); [by split_and!|]. split_and!; try done. constructor; [by split_and!|].
    by destruct (depth =? _). }
  destruct (completion line) as [[program ok]|].
  { unfold on_completion. cbn [sc_stack sc_log_events sc_failed_inner sc_inner_cursor sc_ordinal].
    destruct Hst as [|f g st st' (Hp & He & Hi) Hst]; [by split_and!|]. rewrite <- Hp, <- Hi.
    destruct (fr_program f != program); [by split_and!|]. destruct (negb ok); [by split_and!|].
    destruct Hst as [|f2 g2 st st' (Hp2' & He2 & Hi2) Hst].
    - split_and!; try done. cbn. by rewrite !list.filter_app, Hev, He.
    - split_and!; try done. constructor; [|done]. split_and!; cbn; [done|by rewrite !list.filter_app, He2, He|by rewrite Hi2]. }
  destruct (strip_prefix _ line) as [enc|]; [|by split_and!].
  unfold on_data. cbn [sc_stack sc_log_events sc_failed_inner sc_inner_cursor sc_ordinal].
  destruct Hst as [|f g st st' Hfg Hst]; [by split_and!|]. destruct (base64_decode enc) as [d|]; [|by split_and!; try constructor].
  split_and!; try done. cbn [sc_stack]. pose proof Hfg as (Hp & He & Hi).
  assert (Hone : ∀ e, mine [(o, fr_program f, e)] = if decide (fr_program f = p) then [(o, fr_program f, e)] else []).
  { intros e. rewrite filter_cons. cbn. by case_decide. }
  repeat case_bool_decide; (constructor; [|done]); split_and!; cbn [fr_program fr_events fr_inner_indices]; try done;
    rewrite ?list.filter_app, <- ?Hp, ?Hone, ?He; try done; rewrite decide_False, ?app_nil_r; try done; congruence.
Qed.

Lemma same_scanned : same_scan (scanned W1) (scanned W2).
Proof.
  unfold scanned. assert (Hfold : ∀ ls s t, same_scan s t →
    same_scan (fold_left (scan_line keys inner W1) ls s) (fold_left (scan_line keys inner W2) ls t)).
  { intros ls. induction ls as [|l ls IH]; intros s t Hs; [done|]. cbn. by apply IH, same_scan_line. }
  apply Hfold. by split_and!.
Qed.

Abbreviation of_p := (filter (λ e, pe_program_id e = key_text p)).

Lemma key_text_inj a b : key_text a = key_text b → a = b.
Proof. intros He. apply (f_equal key_of_text) in He. rewrite !key_text_parses in He. by injection He. Qed.

Lemma of_p_logged (l : list (nat * Address * list byte)) : of_p (logged <$> l) = logged <$> mine l.
Proof.
  induction l as [|x l IH]; [done|]. cbn [fmap list_fmap]. rewrite !filter_cons, IH. cbn.
  destruct (decide (x.1.2 = p)) as [He|He]; [by rewrite decide_True by (by rewrite He)|].
  rewrite decide_False; [done|]. by intros ?%key_text_inj.
Qed.

Lemma of_p_cpi failed l i o : of_p (cpi_events keys info slot W1 failed l i o) = of_p (cpi_events keys info slot W2 failed l i o).
Proof.
  revert i o. induction l as [|x l IH]; intros i o; cbn [cpi_events]; [done|].
  destruct (strip_prefix _ _) as [d|]; [|apply IH]. destruct (keys !! _) as [q|]; [|apply IH].
  destruct (decide (q = p)) as [->|Hq].
  - rewrite !(bool_decide_eq_true_2 (p ∈ _)) by done. destruct (_ && _); [|apply IH]. by rewrite !filter_cons, IH.
  - assert (Hn : ∀ e (k : list ProgramEvent), of_p (make_event info slot o q e Cpi :: k) = of_p k).
    { intros e k. rewrite filter_cons, decide_False; [done|]. by intros ?%key_text_inj. }
    repeat case_match; rewrite ?Hn; apply IH.
Qed.

Lemma of_p_raw : of_p (raw_events W1) = of_p (raw_events W2).
Proof.
  destruct same_scanned as (_ & Hev & Hfi & _ & Ho). unfold raw_events.
  by rewrite !list.filter_app, !of_p_logged, Hev, Hfi, Ho, of_p_cpi.
Qed.
End stable.
End extraction.

(** *** Whose events there are *)

Section whose.
Context `{KeyTextLaws} (info : TransactionInfo) (slot : Z) (W : gset Address) (Q : Address → Prop).

Definition invoked (P : Address → Prop) : Prop :=
  ∀ line program depth, line ∈ default [] (ti_log_messages info) → invocation line = Some (program, depth) → P program.

Abbreviation event_of_Q := (λ x : nat * Address * list byte, Q x.1.2 ∧ x.1.2 ∈ W).
Definition scan_of_Q (s : Scan) : Prop :=
  Forall (λ f, Q (fr_program f) ∧ Forall event_of_Q (fr_events f)) (sc_stack s) ∧ Forall event_of_Q (sc_log_events s).

Lemma scan_line_of_Q keys inner s line :
  (∀ program depth, invocation line = Some (program, depth) → Q program) →
  scan_of_Q s → scan_of_Q (scan_line keys inner W s line).
Proof.
  intros Hq [Hst Hev]. unfold scan_line. destruct (invocation line) as [[program depth]|].
  { specialize (Hq _ _ eq_refl). unfold on_invocation. destruct (negb _ && _); [by split; [constructor|]|].
    split; [|done]. cbn. constructor; [by split; [|constructor]|]. by destruct (depth =? _). }
  destruct (completion line) as [[program ok]|].
  { unfold on_completion. destruct (sc_stack s) as [|f st]; [by split; [constructor|]|].
    apply list.Forall_cons in Hst as [[Hf He] Hst]. destruct (fr_program f != program); [by split; [constructor|]|].
    destruct (negb ok); [by split|]. destruct st as [|g st].
    - split; [constructor|]. cbn. by apply Forall_app.
    - apply list.Forall_cons in Hst as [[Hg Hge] Hst]. split; [|done]. cbn. constructor; [|done]. split; [done|]. by apply Forall_app. }
  destruct (strip_prefix _ line) as [enc|]; [|by split]. unfold on_data.
  destruct (sc_stack s) as [|f st] eqn:Hs; [split; cbn; rewrite ?Hs; done|]. destruct (base64_decode enc) as [d|]; [|split; cbn; by rewrite ?Hs].
  case_bool_decide; [|split; cbn; by rewrite ?Hs]. apply list.Forall_cons in Hst as [[Hf He] Hst]. split; [|done]. cbn.
  constructor; [|done]. split; [done|]. apply Forall_app. split; [done|]. by repeat constructor.
Qed.

Lemma scanned_of_Q : invoked Q → scan_of_Q (scanned info W).
Proof.
  unfold scanned, invoked. intros Hq. assert (Hnil : scan_of_Q (mkScan [] [] [] 0 0)) by (by split; constructor).
  revert Hnil. generalize (mkScan [] [] [] 0 0). induction (default [] (ti_log_messages info)) as [|l ls IH]; intros s Hs; [done|].
  cbn. apply IH; [|apply scan_line_of_Q; [|done]].
  - intros line program depth Hl. apply (Hq line program depth). set_solver.
  - intros program depth. apply (Hq l program depth). set_solver.
Qed.

Lemma cpi_of_Q failed l i o : (∀ k, k ∈ all_keys info → Q k) →
  Forall (λ e, ∃ k, pe_program_id e = key_text k ∧ Q k ∧ k ∈ W) (cpi_events (all_keys info) info slot W failed l i o).
Proof.
  intros Hq. revert i o. induction l as [|x l IH]; intros i o; cbn [cpi_events]; [constructor|].
  destruct (strip_prefix _ _) as [d|]; [|apply IH]. destruct (_ !! _) as [q|] eqn:Hk; [|apply IH].
  destruct (_ && _) eqn:Hw; [|apply IH]. constructor; [|apply IH]. apply andb_prop in Hw as [[_ Hw%bool_decide_eq_true_1]%andb_prop _].
  exists q. split_and!; [done|by eapply Hq, list_elem_of_lookup_2|done].
Qed.

Lemma raw_of_Q : invoked Q → (∀ k, k ∈ all_keys info → Q k) →
  Forall (λ e, ∃ k, pe_program_id e = key_text k ∧ Q k ∧ k ∈ W) (raw_events info slot W).
Proof.
  intros Hi Hk. apply Forall_app. split; [|by apply cpi_of_Q]. apply Forall_fmap. destruct (scanned_of_Q Hi) as [_ Hs].
  eapply Forall_impl; [exact Hs|]. intros x [? ?]. cbn. eauto.
Qed.
End whose.

(** The runtime logs the invocation of programs the transaction names. *)
Definition programs_listed `{KeyText} (info : TransactionInfo) : Prop := invoked info (λ p, p ∈ all_keys info).

Lemma filter_all {A} (P : A → Prop) `{!∀ x, Decision (P x)} l : Forall P l → filter P l = l.
Proof. induction 1; [done|]. rewrite filter_cons, decide_True by done. by f_equal. Qed.
Lemma filter_none {A} (P : A → Prop) `{!∀ x, Decision (P x)} l : Forall (λ x, ¬ P x) l → filter P l = [].
Proof. induction 1; [done|]. by rewrite filter_cons, decide_False. Qed.

(** The events of [p]. *)
Abbreviation mine p := (filter (λ e, pe_program_id e = key_text p)).

Lemma extract_mine `{KeyTextLaws} info slot W p : p ∈ W → programs_listed info →
  mine p (extract info slot W) = extract info slot {[p]}.
Proof.
  intros Hp Hl. destruct (ti_is_vote info || ti_failed info) eqn:Hvf; [unfold extract; by rewrite Hvf|].
  apply orb_false_elim in Hvf as [Hv Hf].
  assert (Hin : ∀ V, existsb (λ k, bool_decide (k ∈ V)) (all_keys info) = false → extract info slot V = []).
  { intros V HV. unfold extract. rewrite HV. by destruct (_ || _). }
  destruct (existsb (λ k, bool_decide (k ∈ ({[p]} : gset Address))) (all_keys info)) eqn:Hk.
  - assert (Hk' : existsb (λ k, bool_decide (k ∈ W)) (all_keys info) = true).
    { apply existsb_exists in Hk as (k & ? & Hkp%bool_decide_eq_true). apply existsb_exists. exists k. split; [done|].
      apply bool_decide_eq_true. set_solver. }
    rewrite !extract_raw by done. rewrite (of_p_raw info slot p W {[p]}) by set_solver. apply filter_all.
    eapply Forall_impl; [by apply (raw_of_Q info slot {[p]} (λ _, True))|]. intros e (k & -> & _ & Hkp). set_solver.
  - rewrite (Hin {[p]}) by done. destruct (existsb (λ k, bool_decide (k ∈ W)) (all_keys info)) eqn:Hk'; [|by rewrite Hin].
    rewrite extract_raw by done. apply filter_none. eapply Forall_impl; [by apply (raw_of_Q info slot W (λ k, k ∈ all_keys info))|].
    intros e (k & -> & Hkin & _) Hkp%key_text_inj. subst k. apply not_true_iff_false in Hk. apply Hk, existsb_exists.
    exists p. split; [by apply list_elem_of_In|]. apply bool_decide_eq_true. set_solver.
Qed.

(** What the broker relies on of the events of one transaction. *)
Definition events_ok `{KeyText} (slot index : Z) (events : list ProgramEvent) : Prop :=
  Forall (λ e, pe_slot e = slot ∧ pe_tx_index e = index ∧ (∃ k, pe_program_id e = key_text k)) events ∧
  NoDup (event_id <$> events).

Lemma cpi_events_ok `{KeyTextLaws} keys info slot W failed l i o :
  Forall (λ e, pe_slot e = slot ∧ pe_tx_index e = ti_index info ∧ (∃ k, pe_program_id e = key_text k))
    (cpi_events keys info slot W failed l i o).
Proof.
  revert i o. induction l as [|x l IH]; intros i o; cbn [cpi_events]; [constructor|].
  destruct (strip_prefix _ _) as [d|]; [|apply IH]. destruct (keys !! _) as [q|]; [|apply IH].
  destruct (_ && _); [|apply IH]. constructor; [|apply IH]. cbn. eauto.
Qed.

Lemma extract_ok `{KeyTextLaws} info slot W : events_ok slot (ti_index info) (extract info slot W).
Proof.
  destruct (ti_is_vote info) eqn:Hv; [unfold extract; rewrite Hv; by split; constructor|].
  destruct (ti_failed info) eqn:Hf; [unfold extract; rewrite Hv, Hf; by split; constructor|].
  destruct (existsb (λ k, bool_decide (k ∈ W)) (all_keys info)) eqn:Hk.
  2:{ unfold extract. rewrite Hv, Hf, Hk. case_bool_decide; by split; constructor. }
  rewrite extract_raw by done. split.
  - unfold raw_events. apply Forall_app. split; [|apply cpi_events_ok]. apply Forall_fmap, list.Forall_forall.
    intros x _. cbn. eauto.
  - pose proof (raw_increasing info slot W) as Hi. induction (raw_events info slot W) as [|x l IH]; [constructor|].
    cbn [fmap list_fmap] in *. apply StronglySorted_cons in Hi as [Hx Hi]. constructor; [|by apply IH].
    intros (y & He & Hy)%list_elem_of_fmap. rewrite Forall_fmap, list.Forall_forall in Hx. specialize (Hx _ Hy).
    injection He as _ _ He. cbn in Hx. lia.
Qed.

Lemma extract_sorted `{KeyTextLaws} info slot W : StronglySorted EventId.lt (event_id <$> extract info slot W).
Proof.
  destruct (ti_is_vote info) eqn:Hv; [unfold extract; rewrite Hv; constructor|].
  destruct (ti_failed info) eqn:Hf; [unfold extract; rewrite Hv, Hf; constructor|].
  destruct (existsb (λ k, bool_decide (k ∈ W)) (all_keys info)) eqn:Hk.
  2:{ unfold extract. rewrite Hv, Hf, Hk. case_bool_decide; constructor. }
  destruct (extract_ok info slot W) as [He _]. rewrite extract_raw in * by done. pose proof (raw_increasing info slot W) as Hs.
  induction (raw_events info slot W) as [|x l IH]; [constructor|]. apply list.Forall_cons in He as [(Hx & Ht & _) He].
  cbn [fmap list_fmap] in *. apply StronglySorted_cons in Hs as [Hlt Hs]. constructor; [by apply IH|]. apply Forall_fmap, list.Forall_forall.
  intros y Hy. rewrite Forall_fmap, list.Forall_forall in Hlt. rewrite list.Forall_forall in He. destruct (He _ Hy) as (Hy1 & Hy2 & _).
  specialize (Hlt _ Hy). right. cbn in *. rewrite Hx, Hy1, Ht, Hy2. auto.
Qed.

(** C26: the events a transaction has for a watched
    program, with their identifiers, are those it would have if that program were
    the only one watched, and the identifiers of a transaction's events increase;
    so an event keeps its identifier whoever subscribes. *)
Theorem program_events_independent `{KeyTextLaws} info slot W p : p ∈ W → programs_listed info →
  filter (λ e, pe_program_id e = key_text p) (extract info slot W) = extract info slot {[p]} ∧
  StronglySorted EventId.lt (event_id <$> extract info slot W).
Proof. intros Hp Hl. split; [by apply extract_mine|apply extract_sorted]. Qed.

(** ** An example *)

Module EventExample.
(** Keys and data are their own text. *)
#[local] Instance text : KeyText := {
  key_text := id; key_of_text := Some; base64_encode := id; base64_decode := Some
}.
#[local] Instance text_laws : KeyTextLaws.
Proof. by split. Qed.

Definition p1 : Address := str "One".
Definition p2 : Address := str "Two".

(** [p1] logs, calls [p2], which logs and emits an event by a call to itself,
    and logs again. *)
Definition info (index : Z) : TransactionInfo :=
  mkTransactionInfo false false [p1; p2] [] [] (Some [[mkInnerInstruction 1 []; mkInnerInstruction 1 (EVENT_IX_TAG ++ str "eightbytes")]])
    (Some [str "Program One invoke [1]"; str "Program data: firsteightbytes"; str "Program Two invoke [2]";
           str "Program data: secondeightbytes"; str "Program Two invoke [3]"; str "Program Two success"; str "Program Two success";
           str "Program data: thirdeightbytes"; str "Program One success"]) (str "sig") index.

Lemma info_listed index : programs_listed (info index).
Proof.
  intros line program depth Hin. cbn [info ti_log_messages default] in Hin. unfold all_keys. cbn.
  repeat (apply elem_of_cons in Hin as [->|Hin]; [vm_compute; intros [= <- <-] || done; set_solver|]).
  by apply not_elem_of_nil in Hin.
Qed.
End EventExample.

Import EventExample.
#[local] Existing Instance text.
#[local] Existing Instance text_laws.

Lemma program_events_independent_witness :
  ((λ e, (pe_log_index e, pe_program_id e)) <$> extract (info 0) 7 {[p1; p2]}) = [(0, p1); (1, p2); (2, p1); (3, p2)] ∧
  filter (λ e, pe_program_id e = key_text p2) (extract (info 0) 7 {[p1; p2]}) = extract (info 0) 7 {[p2]} ∧
  StronglySorted EventId.lt (event_id <$> extract (info 0) 7 {[p1; p2]}).
Proof. split; [by vm_compute|]. apply program_events_independent; [set_solver|apply info_listed]. Defined.
