(* ===== verification/EventBroker.v ===== *)
(** * The event broker (geyser-events/src/broker.rs)

    The broker's state stays consistent through every notification and
    subscription: no operation panics, what is pending and what is kept for
    replay stays within the configured limits, and a subscriber that resumes
    either is told that events may be missing or is given every event of its
    program in the banks published since. *)

From Stdlib Require Import ZArith Lia.
From Stdlib Require Import Strings.Byte.
From stdpp Require Import base gmap list numbers sorting.
From S2P Require Import Prelude Borsh Events Runtime Geyser EventExtraction.

Import Geyser.

(** ** The broker's replay buffers *)

Definition events_in (l : list StreamMessage) : list ProgramEvent := omap event_of l.
Definition replay_events (p : Program) : list ProgramEvent := events_in ((λ x, x.2) <$> pr_replay p).

Lemma events_in_app l k : events_in (l ++ k) = events_in l ++ events_in k.
Proof. apply omap_app. Qed.

(** [p'] is [p] with some of its oldest messages gone. *)
Inductive evicts (p : Program) : Program → Prop :=
| evicts_refl : evicts p p
| evicts_step q t : evicts p q → evicts p (evict q t).1.

Lemma evicts_trans p q r : evicts p q → evicts q r → evicts p r.
Proof. intros Hpq. induction 1; [done|]. by constructor. Qed.

Lemma evicts_same p q : evicts p q →
  pr_clients q = pr_clients p ∧ pr_idle_since q = pr_idle_since p ∧ pr_since_slot q = pr_since_slot p ∧
  pr_gap_slot q = pr_gap_slot p ∧ pr_live q = pr_live p.
Proof.
  induction 1 as [|q t Hq IH]; [done|]. destruct IH as (<- & <- & <- & <- & <-). unfold evict.
  by destruct (pr_replay q) as [|[? []] ?].
Qed.

(** What has been sent and is not replayed any more, [old], ends with the
    evicted identifier. *)
Definition replay_ok (p : Program) : Prop :=
  Forall (λ x, is_Some (event_of x.2)) (pr_replay p) ∧
  ∃ old, events_in (pr_live p) = old ++ replay_events p ∧ pr_evicted p = event_id <$> list.last old.

Lemma evicts_replay_ok p q : evicts p q → replay_ok p → replay_ok q.
Proof.
  induction 1 as [|q t Hq IH]; [done|]. intros (Hr & old & Hl & He)%IH. unfold evict.
  destruct (pr_replay q) as [|[at_ m] r] eqn:Hq'; [split; [cbn; by rewrite Hq'|by exists old]|].
  apply list.Forall_cons in Hr as [[e Hm] Hr]. destruct m as [e'|]; [|done]. injection Hm as ->. split; [done|].
  exists (old ++ [e]). rewrite last_snoc. split; [|done].
  change (events_in (pr_live q) = (old ++ [e]) ++ events_in ((λ x, x.2) <$> r)).
  rewrite Hl. unfold replay_events. by rewrite Hq', <- app_assoc.
Qed.

Lemma evict_old_evicts config fuel now p total : evicts p (evict_old config fuel now p total).1.
Proof.
  revert p total. induction fuel as [|fuel IH]; intros p total; cbn [evict_old]; [constructor|].
  destruct (too_old config now p); [|constructor]. destruct (evict p total) as [q t] eqn:He.
  eapply evicts_trans; [|apply IH]. change q with (q, t).1. rewrite <- He. apply evicts_step, evicts_refl.
Qed.

(** *** Cleaning up *)

Section cleanup.
Context `{KeyText} (config : Config) (iter : gmap Address Program → list (Address * Program)).
Context (Hiter : ∀ m, iter m ≡ₚ map_to_list m).

Record cleaned (b b' : Broker) : Prop := {
  cl_program k : match programs b' !! k with
                 | Some p' => ∃ p, programs b !! k = Some p ∧ evicts p p'
                 | None => ∀ p, programs b !! k = Some p → pr_clients p = 0
                 end;
  cl_rest : connections b' = connections b ∧ pending b' = pending b ∧ selected b' = selected b ∧ dead b' = dead b ∧
            highest_seen b' = highest_seen b ∧ published b' = published b ∧
            pending_bytes b' = pending_bytes b ∧ pending_transactions b' = pending_transactions b;
  cl_watched : watched b = dom (programs b) → watched b' = dom (programs b');
  cl_version : (watch_version b < watch_version b')%nat ∨ watch_version b' = watch_version b ∧ watched b' = watched b
}.

Lemma cleaned_refl b : cleaned b b.
Proof. split; try done; [|by right]. intros k. destruct (programs b !! k) as [p|]; [|done]. exists p. split; [done|constructor]. Qed.

Lemma cleaned_trans a b c : cleaned a b → cleaned b c → cleaned a c.
Proof.
  intros [P R W V] [P' R' W' V']. split.
  - intros k. specialize (P k). specialize (P' k). destruct (programs c !! k) as [r|].
    + destruct P' as (q & Hq & ?). rewrite Hq in P. destruct P as (p & ? & ?). exists p. split; [done|]. by eapply evicts_trans.
    + intros p Hp. destruct (programs b !! k) as [q|]; [|by apply P]. destruct P as (p' & Hp' & He).
      rewrite Hp in Hp'. injection Hp' as <-. apply evicts_same in He as (<- & _). by apply P'.
  - destruct R as (?&?&?&?&?&?&?&?), R' as (?&?&?&?&?&?&?&?). split_and!; congruence.
  - auto.
  - destruct V as [|[? ?]], V' as [|[? ?]]; [left; lia..|right; split; congruence].
Qed.

Lemma evicted_cleaned b k p q total : programs b !! k = Some p → evicts p q → cleaned b (set_replay (<[k := q]> (programs b)) total b).
Proof.
  intros Hp Hq. split; try done.
  - intros j. cbn. destruct (decide (j = k)) as [->|].
    + rewrite lookup_insert_eq. eauto.
    + rewrite lookup_insert_ne by done. apply (cl_program _ _ (cleaned_refl b)).
  - cbn. intros ->. rewrite dom_insert_L. apply elem_of_dom_2 in Hp. set_solver.
  - by right.
Qed.

Lemma evict_programs_cleaned now l b :
  NoDup l.*1 → Forall (λ kp, programs b !! kp.1 = Some kp.2) l → cleaned b (fold_left (evict_program config now) l b).
Proof.
  revert b. induction l as [|[k p] l IH]; intros b Hn Hl; cbn [fold_left]; [apply cleaned_refl|].
  apply list.NoDup_cons in Hn as [Hk Hn]. apply list.Forall_cons in Hl as [Hp Hl]. cbn in Hp.
  unfold evict_program at 2. cbn [fst snd]. destruct (evict_old _ _ _ _ _) as [q t] eqn:He.
  eapply cleaned_trans; [apply (evicted_cleaned _ _ _ q t Hp)|].
  { change q with (q, t).1. rewrite <- He. apply evict_old_evicts. }
  apply IH; [done|]. apply list.Forall_forall. intros [k' p'] Hin. rewrite list.Forall_forall in Hl. cbn.
  rewrite lookup_insert_ne; [by apply (Hl (k', p'))|]. intros ->. apply Hk, list_elem_of_fmap. by exists (k', p').
Qed.

Lemma evict_bytes_cleaned fuel b : cleaned b (evict_bytes config iter fuel b).
Proof.
  revert b. induction fuel as [|fuel IH]; intros b; cbn [evict_bytes]; [apply cleaned_refl|].
  destruct (_ <? _); [|apply cleaned_refl]. destruct (fold_left _ _ _) as [[key at_]|]; [|apply cleaned_refl].
  destruct (programs b !! key) as [p|] eqn:Hp; [|apply cleaned_refl]. destruct (evict p _) as [q t] eqn:He.
  eapply cleaned_trans; [apply (evicted_cleaned _ _ _ q t Hp)|apply IH].
  change q with (q, t).1. rewrite <- He. apply evicts_step, evicts_refl.
Qed.

Lemma iter_NoDup (m : gmap Address Program) : NoDup (iter m).*1.
Proof. rewrite Hiter. apply NoDup_fst_map_to_list. Qed.
Lemma iter_lookup (m : gmap Address Program) : Forall (λ kp, m !! kp.1 = Some kp.2) (iter m).
Proof. rewrite Hiter. apply list.Forall_forall. intros [k p] Hin. by apply elem_of_map_to_list. Qed.

Lemma remove_programs l b :
  let b' := fold_left remove_program l b in
  (∀ k, programs b' !! k = if decide (k ∈ l.*1) then None else programs b !! k) ∧
  b' = set_replay (programs b') (replay_bytes b') b.
Proof.
  revert b. induction l as [|[j p] l IH]; intros b; cbn [fold_left]; [by destruct b|].
  destruct (IH (remove_program b (j, p))) as [Hp Hb]. split; [|by rewrite Hb at 1].
  intros k. rewrite Hp. cbn. destruct (decide (k = j)) as [->|].
  - rewrite lookup_delete_eq. rewrite (decide_True (P := j ∈ j :: _)) by set_solver. by case_decide.
  - rewrite lookup_delete_ne by done. repeat case_decide; set_solver.
Qed.

Lemma cleanup_cleaned now b : cleaned b (cleanup_locked config iter now b).
Proof.
  unfold cleanup_locked. set (gone := filter _ _).
  assert (Hgone : Forall (λ kp, programs b !! kp.1 = Some kp.2 ∧ pr_clients kp.2 = 0) gone).
  { apply list.Forall_forall. intros kp [Hi Hin]%list_elem_of_filter. split.
    - pose proof (iter_lookup (programs b)) as Hl. rewrite list.Forall_forall in Hl. by apply Hl.
    - unfold idle_program in Hi. apply andb_prop in Hi as [Hi _]. by apply Z.eqb_eq. }
  destruct (remove_programs gone b) as [Hp Hb].
  set (b1 := match gone with [] => _ | _ => _ end).
  assert (H1 : cleaned b b1).
  { unfold b1. destruct gone as [|g gone']; [apply cleaned_refl|]. rewrite Hb. split; try done; [|by left; cbn; lia].
    intros k. cbn. rewrite Hp. case_decide as Hin.
    - apply list_elem_of_fmap in Hin as (kp & -> & Hin). rewrite list.Forall_forall in Hgone.
      destruct (Hgone _ Hin) as [-> ?]. by intros p [= <-].
    - apply (cl_program _ _ (cleaned_refl b)). }
  eapply cleaned_trans; [exact H1|]. eapply cleaned_trans; [|apply evict_bytes_cleaned].
  apply evict_programs_cleaned; [apply iter_NoDup|apply iter_lookup].
Qed.
End cleanup.

(** ** Orders *)

Abbreviation before := (λ a b : ProgramEvent, EventId.lt (event_id a) (event_id b)).

#[global] Instance id_lt_trans : Transitive EventId.lt.
Proof. intros a b c. unfold EventId.lt. lia. Qed.
Lemma id_lt_irrefl a : ¬ EventId.lt a a.
Proof. unfold EventId.lt. lia. Qed.
Lemma id_lt_total a b : a = b ∨ EventId.lt a b ∨ EventId.lt b a.
Proof.
  destruct a as [s t l], b as [s' t' l']. unfold EventId.lt. cbn.
  destruct (Z.lt_trichotomy s s') as [|[->|]], (Z.lt_trichotomy t t') as [|[->|]], (Z.lt_trichotomy l l') as [|[->|]]; auto 8.
Qed.

#[global] Instance before_antisymm : AntiSymm eq before.
Proof. intros a b H1 H2. destruct (id_lt_irrefl (event_id a)). by transitivity (event_id b). Qed.

Lemma sorted_part {A} (R : relation A) l k : l `sublist_of` k → StronglySorted R k → StronglySorted R l.
Proof.
  induction 1 as [|x l k Hs IH|x l k Hs IH]; intros Hk; [done|..]; apply StronglySorted_cons in Hk as [Hx Hk].
  - constructor; [by apply IH|]. by eapply Forall_part.
  - by apply IH.
Qed.

Lemma insert_by_perm {A} (lt : A → A → bool) x l : insert_by lt x l ≡ₚ x :: l.
Proof. induction l as [|y l IH]; [done|]. cbn. destruct (lt y x); [|done]. rewrite IH. apply Permutation_swap. Qed.
Lemma sort_by_perm {A} (lt : A → A → bool) l : sort_by lt l ≡ₚ l.
Proof. induction l as [|x l IH]; [done|]. unfold sort_by in *. cbn. by rewrite insert_by_perm, IH. Qed.

Lemma insert_before x l : event_id x ∉ event_id <$> l → StronglySorted before l → StronglySorted before (insert_by id_before x l).
Proof.
  induction l as [|y l IH]; intros Hx Hl; cbn [insert_by]; [by repeat constructor|].
  rewrite fmap_cons, not_elem_of_cons in Hx. destruct Hx as [Hxy Hx]. apply StronglySorted_cons in Hl as [Hy Hl].
  unfold id_before at 1. case_bool_decide as Hlt.
  - constructor; [by apply IH|]. rewrite insert_by_perm. by constructor.
  - destruct (id_lt_total (event_id x) (event_id y)) as [|[Hxy'|]]; [done| |done].
    constructor; [by constructor|]. constructor; [done|]. eapply Forall_impl; [exact Hy|]. cbn. intros z. by transitivity (event_id y).
Qed.

Lemma sort_before l : NoDup (event_id <$> l) → StronglySorted before (sort_by id_before l).
Proof.
  induction l as [|x l IH]; intros Hn; [constructor|]. rewrite fmap_cons, list.NoDup_cons in Hn. destruct Hn as [Hx Hn].
  unfold sort_by in *. cbn [foldr]. apply insert_before; [|by apply IH].
  pose proof (sort_by_perm id_before l) as Hp. unfold sort_by in Hp. by rewrite Hp.
Qed.

Lemma NoDup_ids_filter (P : ProgramEvent → Prop) `{!∀ x, Decision (P x)} l :
  NoDup (event_id <$> l) → NoDup (event_id <$> filter P l).
Proof. intros Hn. eapply sublist_NoDup; [exact Hn|apply sublist_map, list.sublist_filter]. Qed.

Lemma filter_sort (P : ProgramEvent → Prop) `{!∀ x, Decision (P x)} l :
  NoDup (event_id <$> l) → filter P (sort_by id_before l) = sort_by id_before (filter P l).
Proof.
  intros Hn. apply (StronglySorted_unique before).
  - eapply sorted_part; [apply list.sublist_filter|]. by apply sort_before.
  - by apply sort_before, NoDup_ids_filter.
  - by rewrite !sort_by_perm.
Qed.

(** ** One program *)

(** The slots the program has been watched through, after the last gap. *)
Definition covers (p : Program) (slot : Z) : bool :=
  match pr_since_slot p with Some since => since <=? slot | None => false end
  && match pr_gap_slot p with Some g => g <? slot | None => true end.

Abbreviation covered p := (filter (λ e, covers p (pe_slot e) = true)).

Definition after_published (pub : option Z) (slot : Z) : Prop := ∀ q, pub = Some q → q < slot.
Definition until_published (pub : option Z) (slot : Z) : Prop := ∃ q, pub = Some q ∧ slot ≤ q.

Definition prog_ok (pub : option Z) (p : Program) : Prop :=
  replay_ok p ∧ StronglySorted before (events_in (pr_live p)) ∧
  Forall (λ e, until_published pub (pe_slot e)) (events_in (pr_live p)).

Lemma until_published_mono pub pub' s :
  (∀ q, pub = Some q → ∃ q', pub' = Some q' ∧ q ≤ q') → until_published pub s → until_published pub' s.
Proof. intros Hm (q & Hq & ?). destruct (Hm q Hq) as (q' & ? & ?). exists q'. split; [done|lia]. Qed.

(** [p'] claims no more than [p]. *)
Definition weaker (p p' : Program) : Prop :=
  pr_clients p' = pr_clients p ∧ pr_replay p' = pr_replay p ∧ pr_evicted p' = pr_evicted p ∧
  events_in (pr_live p') = events_in (pr_live p) ∧ (∀ slot, covers p' slot = true → covers p slot = true) ∧
  (is_Some (pr_since_slot p) → is_Some (pr_since_slot p')).

Lemma weaker_ok pub p p' : weaker p p' → prog_ok pub p → prog_ok pub p'.
Proof. intros (_ & Hr & He & Hl & _) ([Hm (old & Ho & Hlast)] & Hs & Hb). unfold prog_ok, replay_ok, replay_events. rewrite Hl, Hr, He. eauto 6. Qed.

Lemma covered_weaker p p' (l k : list ProgramEvent) : (∀ slot, covers p' slot = true → covers p slot = true) →
  covered p l = covered p k → covered p' l = covered p' k.
Proof.
  intros Hw He. assert (Hf : ∀ m : list ProgramEvent, covered p' m = covered p' (covered p m)).
  { intros m. rewrite list_filter_filter. apply list_filter_iff. intros e. naive_solver. }
  by rewrite (Hf l), (Hf k), He.
Qed.

Lemma with_gap_weaker p slot m : event_of m = None → weaker p (with_gap (Z.max (default slot (pr_gap_slot p)) slot) m p).
Proof.
  intros Hm. split_and!; try done.
  - cbn. rewrite events_in_app. cbn. rewrite Hm. apply app_nil_r.
  - intros s. unfold covers. cbn. intros [-> Hs]%andb_prop. cbn. destruct (pr_gap_slot p); [|done]. cbn in Hs. lia.
Qed.

(** Messages for the events [es], sent at [now]. *)
Definition with_messages (now : Z) (es : list ProgramEvent) (p : Program) : Program :=
  mkProgram (pr_clients p) (pr_idle_since p) (pr_since_slot p) (pr_evicted p) (pr_gap_slot p)
    (pr_replay p ++ ((λ e, (now, Event e)) <$> es)) (pr_live p ++ (Event <$> es)).

Lemma events_in_events es : events_in (Event <$> es) = es.
Proof. induction es as [|e es IH]; [done|]. unfold events_in in *. cbn. by rewrite IH. Qed.

Lemma pushed_ok pub now slot es p : prog_ok pub p → after_published pub slot → Forall (λ e, pe_slot e = slot) es →
  StronglySorted before es → prog_ok (Some slot) (with_messages now es p).
Proof.
  intros ([Hm (old & Ho & Hlast)] & Hs & Hb) Ha He Hes. unfold prog_ok, replay_ok, replay_events.
  cbn [with_messages pr_live pr_replay pr_evicted]. rewrite events_in_app, events_in_events.
  rewrite list.Forall_forall in Hb, He. split_and!.
  - apply Forall_app. split; [done|]. apply Forall_fmap, list.Forall_forall. cbn. eauto.
  - exists old. split; [|done]. rewrite Ho, <- app_assoc. f_equal. unfold replay_events. rewrite fmap_app, events_in_app. f_equal.
    rewrite <- list_fmap_compose. symmetry. apply events_in_events.
  - apply StronglySorted_app_2; [|done..]. intros x y Hx Hy. destruct (Hb _ Hx) as (q & Hq & ?). specialize (Ha q Hq).
    rewrite <- (He _ Hy) in Ha. left. cbn. lia.
  - apply Forall_app. split; apply list.Forall_forall; intros e Hin.
    + destruct (Hb _ Hin) as (q & Hq & ?). specialize (Ha q Hq). exists slot. split; [done|lia].
    + exists slot. rewrite (He _ Hin). split; [done|lia].
Qed.

(** *** Resuming *)

Abbreviation accepted r := (filter (λ e, accepts r (event_id e) = true)).

Lemma replayed_events r slot p : requested_slot r = Some slot → replayed r p = Event <$> accepted r (replay_events p).
Proof.
  intros Hr. unfold replayed, replay_events. rewrite Hr. induction ((λ x : Z * StreamMessage, x.2) <$> pr_replay p) as [|m l IH]; [done|].
  rewrite filter_cons, IH. destruct m as [e|]; [|done].
  change (events_in (Event e :: l)) with (e :: events_in l). rewrite filter_cons. cbn [event_of]. by case_decide.
Qed.

Lemma sorted_last (l : list ProgramEvent) e x : StronglySorted before l → list.last l = Some x → e ∈ l → e = x ∨ before e x.
Proof.
  intros Hs Hl He. destruct l as [|y l _] using rev_ind; [done|]. rewrite last_snoc in Hl. injection Hl as <-.
  apply elem_of_app in He as [He|He%list_elem_of_singleton]; [right|by left].
  by apply (StronglySorted_app_1_elem_of before l [y] e y Hs He), list_elem_of_singleton.
Qed.

(** Without a notice, nothing that is accepted has been evicted or came before
    the program was watched. *)
Lemma old_not_accepted r slot p old : requested_slot r = Some slot → must_resync r p = false →
  pr_evicted p = event_id <$> list.last old → StronglySorted before old → accepted r old = [].
Proof.
  intros Hr Hm He Hs. apply filter_none, list.Forall_forall. intros e Hin Ha.
  destruct (list.last old) as [x|] eqn:Hl; [|by apply last_None in Hl; subst old; apply not_elem_of_nil in Hin].
  pose proof (sorted_last _ _ _ Hs Hl Hin) as Hle. cbn in He.
  unfold must_resync in Hm. rewrite He in Hm. apply orb_false_elim in Hm as [Hm _]. apply orb_false_elim in Hm as [_ Hm].
  apply orb_false_elim in Hm as [Ha' Hf']. unfold accepts in Ha. apply andb_prop in Ha as [Ha Hf].
  unfold requested_slot in Hr. destruct (after r) as [i|].
  - apply bool_decide_eq_true_1 in Ha. apply bool_decide_eq_false_1 in Ha'. apply Ha'.
    destruct Hle as [<-|Hle]; [done|]. by transitivity (event_id e).
  - rewrite Hr in Hf, Hf'. destruct Hle as [->|Hle]; unfold EventId.lt in *; cbn in *; lia.
Qed.

Lemma accepted_covered r slot p e : requested_slot r = Some slot → must_resync r p = false →
  accepts r (event_id e) = true → covers p (pe_slot e) = true.
Proof.
  intros Hr Hm Ha. assert (Hs : slot ≤ pe_slot e).
  { unfold accepts, requested_slot in *. apply andb_prop in Ha as [Ha Hf]. destruct (after r) as [i|].
    - apply bool_decide_eq_true_1 in Ha. injection Hr as <-. unfold EventId.lt in Ha. cbn in Ha. lia.
    - rewrite Hr in Hf. cbn in Hf. lia. }
  unfold must_resync in Hm. rewrite Hr in Hm. apply orb_false_elim in Hm as [Hm Hg]. apply orb_false_elim in Hm as [Ho _].
  unfold covers. destruct (pr_since_slot p); [|done]. destruct (pr_gap_slot p); lia.
Qed.

Lemma replayed_complete pub r slot p h : prog_ok pub p → covered p h = covered p (events_in (pr_live p)) →
  requested_slot r = Some slot → must_resync r p = false → replayed r p = Event <$> accepted r h.
Proof.
  intros ([_ (old & Ho & He)] & Hs & _) Hc Hr Hm. rewrite (replayed_events _ _ _ Hr). f_equal.
  assert (Hf : ∀ l : list ProgramEvent, accepted r l = accepted r (covered p l)).
  { intros l. rewrite list_filter_filter. apply list_filter_iff. intros e. split; [|naive_solver].
    intros Ha. split; [done|]. by eapply accepted_covered. }
  rewrite (Hf h), Hc, <- Hf, Ho, list.filter_app. rewrite Ho in Hs. apply StronglySorted_app_1_l in Hs.
  by rewrite (old_not_accepted r slot p old).
Qed.

(** ** Pending banks *)

Lemma least_spec l x : least l = Some x → x ∈ l ∧ Forall (λ y, x ≤ y) l.
Proof.
  destruct l as [|z l]; [done|]. cbn. intros [= <-]. revert z. induction l as [|y l IH]; intros z; cbn.
  { split; [by left|]. by repeat constructor. }
  destruct (IH z) as [Hin Hle]. apply list.Forall_cons in Hle as [Hz Hle]. split.
  - destruct (Z.min_spec y (foldr Z.min z l)) as [[? ->]|[? ->]]; set_solver.
  - repeat constructor; try lia. eapply Forall_impl; [exact Hle|]. cbn. lia.
Qed.
Lemma least_None l : least l = None → l = [].
Proof. by destruct l. Qed.

Lemma elem_of_slots {A} (m : gmap (Z * Z) A) s : s ∈ slots m ↔ ∃ i, is_Some (m !! (s, i)).
Proof.
  unfold slots. rewrite list_elem_of_fmap. split.
  - intros ([[s' i] x] & -> & Hin%elem_of_map_to_list). cbn. eauto.
  - intros (i & x & Hx). exists ((s, i), x). split; [done|]. by apply elem_of_map_to_list.
Qed.

Lemma remove_banks l b :
  let b' := fold_left remove_bank l b in
  (∀ k, pending b' !! k = if decide (k ∈ l) then None else pending b !! k) ∧
  b' = set_pending (pending b') (pending_bytes b') (pending_transactions b') b.
Proof.
  revert b. induction l as [|j l IH]; intros b; cbn [fold_left]; [by destruct b|].
  assert (Hj : pending (remove_bank b j) = delete j (pending b) ∧
    remove_bank b j = set_pending (pending (remove_bank b j)) (pending_bytes (remove_bank b j))
      (pending_transactions (remove_bank b j)) b).
  { unfold remove_bank. destruct (pending b !! j) eqn:Hj; [done|]. rewrite delete_id by done. by destruct b. }
  destruct (IH (remove_bank b j)) as [Hp Hb], Hj as [Hpj Hbj]. split.
  - intros k. rewrite Hp, Hpj. destruct (decide (k = j)) as [->|].
    + rewrite lookup_delete_eq, (decide_True (P := j ∈ j :: l)) by set_solver. by case_decide.
    + rewrite lookup_delete_ne by done. repeat case_decide; set_solver.
  - rewrite Hb at 1. by rewrite Hbj at 4.
Qed.

Lemma remove_where f b :
  let b' := fold_left remove_bank (keys_where f (pending b)) b in
  (∀ k, pending b' !! k = if f k.1 then None else pending b !! k) ∧
  b' = set_pending (pending b') (pending_bytes b') (pending_transactions b') b.
Proof.
  destruct (remove_banks (keys_where f (pending b)) b) as [Hp Hb]. split; [|exact Hb].
  intros k. rewrite Hp. unfold keys_where. destruct (f k.1) eqn:Hf.
  - destruct (pending b !! k) as [bank|] eqn:Hk; [|by case_decide]. rewrite decide_True; [done|].
    apply list_elem_of_filter. split; [done|]. apply list_elem_of_fmap. exists (k, bank). split; [done|]. by apply elem_of_map_to_list.
  - rewrite decide_False; [done|]. rewrite list_elem_of_filter. intros [? _]. congruence.
Qed.

(** ** The invariant *)

Section broker.
Context `{KeyTextLaws} (config : Config) (iter : gmap Address Program → list (Address * Program)).
Context (Hiter : ∀ m, iter m ≡ₚ map_to_list m) (K : Address).

Definition bank_ok (slot : Z) (bank : PendingBank) : Prop :=
  Forall (λ e, pe_slot e = slot ∧ pe_tx_index e ∈ pb_transactions bank ∧ ∃ k, pe_program_id e = key_text k) (pb_events bank) ∧
  NoDup (event_id <$> pb_events bank).

Definition seen_slot (b : Broker) (slot : Z) : Prop := ∃ m, highest_seen b = Some m ∧ slot ≤ m.

(** [n] subscribers of [K]; [g k] has the events of [K] in the transactions of
    the pending bank [k], and [h] those of [K] in the banks published so far,
    whether or not [K] was watched. *)
Record inv (n : Z) (g : Z * Z → list ProgramEvent) (h : list ProgramEvent) (b : Broker) : Prop := {
  inv_selected s i : selected b !! s = Some i → is_Some (pending b !! (s, i));
  inv_pending k bank : pending b !! k = Some bank → bank_ok k.1 bank ∧ after_published (published b) k.1 ∧ seen_slot b k.1;
  inv_published q : published b = Some q → seen_slot b q;
  inv_sent : Forall (λ e, until_published (published b) (pe_slot e)) h;
  inv_highest m : highest_seen b = Some m → m < 2 ^ 64 - 1;
  inv_watched : watched b = dom (programs b);
  inv_clients : match programs b !! K with Some p => pr_clients p = n | None => n = 0 end;
  inv_program p : programs b !! K = Some p →
    prog_ok (published b) p ∧ (is_Some (highest_seen b) → is_Some (pr_since_slot p)) ∧
    (∀ k bank, pending b !! k = Some bank → covers p k.1 = true → mine K (pb_events bank) = g k) ∧
    covered p h = covered p (events_in (pr_live p))
}.

Lemma prog_ok_mono pub pub' p : (∀ q, pub = Some q → ∃ q', pub' = Some q' ∧ q ≤ q') → prog_ok pub p → prog_ok pub' p.
Proof.
  intros Hm (Hr & Hs & Hb). split_and!; try done. eapply Forall_impl; [exact Hb|]. intros e. by apply until_published_mono.
Qed.

(** Fewer banks and selections, a later published slot. *)
Lemma inv_narrow n g h b b' : inv n g h b →
  programs b' = programs b → watched b' = watched b → highest_seen b' = highest_seen b →
  (∀ s i, selected b' !! s = Some i → selected b !! s = Some i ∧ is_Some (pending b' !! (s, i))) →
  (∀ k bank, pending b' !! k = Some bank → pending b !! k = Some bank ∧ after_published (published b') k.1) →
  (∀ q, published b = Some q → ∃ q', published b' = Some q' ∧ q ≤ q') →
  (∀ q, published b' = Some q → seen_slot b q) → inv n g h b'.
Proof.
  intros Hi Hp Hw Hh Hs Hb Hm Hq. unfold seen_slot in *. split.
  - intros s i Hsi. by apply Hs.
  - intros k bank Hk. destruct (Hb _ _ Hk) as [Hk' Ha]. destruct (inv_pending _ _ _ _ Hi _ _ Hk') as (? & _ & ?).
    unfold seen_slot in *. by rewrite Hh.
  - intros q. unfold seen_slot. rewrite Hh. apply Hq.
  - eapply Forall_impl; [apply (inv_sent _ _ _ _ Hi)|]. intros e. by apply until_published_mono.
  - rewrite Hh. apply (inv_highest _ _ _ _ Hi).
  - rewrite Hw, Hp. apply (inv_watched _ _ _ _ Hi).
  - rewrite Hp. apply (inv_clients _ _ _ _ Hi).
  - intros p. rewrite Hp, Hh. intros HK. destruct (inv_program _ _ _ _ Hi p HK) as (Hok & ? & Hg & ?). split_and!; try done.
    + by eapply prog_ok_mono.
    + intros k bank Hk. apply Hg. by apply Hb.
Qed.

Lemma inv_weaken n g h b ps : inv n g h b → dom ps = dom (programs b) →
  (∀ p', ps !! K = Some p' → ∃ p, programs b !! K = Some p ∧ weaker p p') → inv n g h (set_programs ps b).
Proof.
  intros Hi Hd Hps. pose proof Hi as [? ? ? ? ? Hw Hc Hp]. split; try done.
  - cbn. by rewrite Hd.
  - cbn. destruct (ps !! K) as [p'|] eqn:HK.
    + destruct (Hps _ eq_refl) as (p & HKp & Hwk & _). rewrite HKp in Hc. by rewrite Hwk.
    + apply not_elem_of_dom in HK. rewrite Hd in HK. apply not_elem_of_dom in HK. by rewrite HK in Hc.
  - intros p' HK. destruct (Hps _ HK) as (p & HKp & Hwk). destruct (Hp _ HKp) as (Hok & Hs & Hg & Hh).
    pose proof Hwk as (_ & _ & _ & Hl & Hcov & Hsince). split_and!; try done.
    + by eapply weaker_ok.
    + intros Hx. by apply Hsince, Hs.
    + intros k bank Hk Hck. eapply Hg; [done|]. by apply Hcov.
    + rewrite Hl. by eapply covered_weaker.
Qed.

Lemma inv_cleaned n g h b b' : inv n g h b → cleaned b b' → inv n g h b'.
Proof.
  intros Hi [P (_ & Rp & Rs & _ & Rh & Rq & _) W _]. pose proof Hi as [? ? ? ? ? Hw Hc Hp].
  split; unfold seen_slot in *; rewrite ?Rp, ?Rs, ?Rh, ?Rq; try done.
  - by apply W.
  - specialize (P K). destruct (programs b' !! K) as [p'|].
    + destruct P as (p & HK & He). rewrite HK in Hc. by apply evicts_same in He as (-> & _).
    + destruct (programs b !! K) as [p|]; [|done]. rewrite <- Hc. by apply P.
  - intros p' HK. specialize (P K). rewrite HK in P. destruct P as (p & HKp & He).
    destruct (Hp _ HKp) as ((Hok & Hss & Hb) & Hs & Hg & Hh).
    pose proof (evicts_same _ _ He) as (_ & _ & Es & Eg & El). unfold covers in *. rewrite Es, Eg, El.
    split_and!; try done. unfold prog_ok. rewrite El. split_and!; try done. by eapply evicts_replay_ok.
Qed.

Lemma inv_gap n g h b slot reason : inv n g h b → inv n g h (gap slot reason b).
Proof.
  intros Hi. apply inv_weaken; [done|..].
  - apply dom_imap_L. intros k. rewrite elem_of_dom. unfold is_Some. naive_solver.
  - intros p'. rewrite map_lookup_imap. destruct (programs b !! K) as [p|]; [|done]. cbn. intros [= <-].
    exists p. split; [done|]. by apply with_gap_weaker.
Qed.

(** *** Limits *)

Lemma inv_drop n g h b slot : inv n g h b → least (slots (pending b)) = Some slot → inv n g h (drop_slot slot b).
Proof.
  intros Hi [Hin Hle]%least_spec. rewrite list.Forall_forall in Hle. apply elem_of_slots in Hin as (i & bank & Hin).
  destruct (inv_pending _ _ _ _ Hi _ _ Hin) as (_ & Ha & Hseen). cbn in Ha, Hseen.
  unfold drop_slot. destruct (remove_where (λ s, s =? slot) b) as [Hp Hb]. apply inv_gap. rewrite Hb. clear Hb.
  assert (Hpub : Z.max (default slot (published b)) slot = slot).
  { destruct (published b) as [q|]; cbn; [specialize (Ha q eq_refl)|]; lia. }
  eapply (inv_narrow _ _ _ b); try done; cbn; rewrite ?Hpub.
  - intros s j [Hs Hsel]%lookup_delete_Some. split; [done|]. rewrite Hp. cbn. rewrite (proj2 (Z.eqb_neq _ _)) by done.
    by apply (inv_selected _ _ _ _ Hi).
  - intros k bk. rewrite Hp. destruct (Z.eqb_spec k.1 slot) as [|Hne]; [done|]. intros Hk. split; [done|]. intros q [= <-].
    assert (slot ≤ k.1); [|lia]. apply Hle, elem_of_slots. exists k.2. destruct k. by exists bk.
  - intros q Hq. specialize (Ha q Hq). exists slot. split; [done|lia].
  - by intros q [= <-].
Qed.

Lemma inv_enforce n g h b : inv n g h b → inv n g h (enforce_pending_limits config b).
Proof.
  intros Hi. unfold enforce_pending_limits. assert (Hl : ∀ fuel b, inv n g h b → inv n g h (enforce_loop config fuel b)).
  { induction fuel as [|fuel IH]; intros c Hc; cbn [enforce_loop]; [done|]. destruct (over_limits config c); [|done].
    destruct (least _) as [slot|] eqn:Hs; [|done]. by apply IH, inv_drop. }
  by destruct (Hl (size (pending b)) b Hi).
Qed.

(** *** Publication *)

Lemma stamp_id bt e : event_id (stamp config bt e) = event_id e.
Proof. done. Qed.

Lemma publish_events now bt events ps total : Forall (λ e, ∃ k, pe_program_id e = key_text k) events →
  ∃ ps' total', fold_left (publish_event config now bt) events (Some (ps, total)) = Some (ps', total') ∧
    dom ps' = dom ps ∧ ps' !! K = with_messages now (stamp config bt <$> mine K events) <$> ps !! K.
Proof.
  intros He. revert ps total. induction He as [|e events (k & Hk) He IH]; intros ps total.
  { exists ps, total. split_and!; try done. destruct (ps !! K) as [[]|]; [|done]. cbn. unfold with_messages. cbn.
    by rewrite !app_nil_r. }
  cbn [fold_left]. unfold publish_event at 2. cbn [mbind option_bind stamp pe_program_id]. rewrite Hk, key_text_parses.
  cbn [mbind option_bind]. destruct (ps !! k) as [p|] eqn:Hp.
  - destruct (IH (<[k := with_message now (Event (stamp config bt e)) p]> ps) (saturating_add 64 total (event_size (stamp config bt e))))
      as (ps' & total' & Hf & Hd & HK). exists ps', total'. split; [exact Hf|]. split.
    { rewrite Hd, dom_insert_L. apply elem_of_dom_2 in Hp. set_solver. }
    rewrite HK, filter_cons. rewrite Hk. destruct (decide (k = K)) as [->|Hne].
    + rewrite lookup_insert_eq, Hp, decide_True by done. cbn. unfold with_messages, with_message. cbn. by rewrite <- !app_assoc.
    + rewrite lookup_insert_ne by done. rewrite decide_False; [done|]. by intros ?%key_text_inj.
  - destruct (IH ps total) as (ps' & total' & Hf & Hd & HK). exists ps', total'. split_and!; [exact Hf|done|].
    rewrite HK, filter_cons, Hk. case_decide as Hc; [|done]. apply key_text_inj in Hc as ->. by rewrite Hp.
Qed.

(** What the banks that a flush publishes add to [h]. *)
Definition sent (g : Z * Z → list ProgramEvent) (x : Z * Z * option Z) : list ProgramEvent :=
  stamp config x.2 <$> sort_by id_before (g x.1).

Lemma ready_spec b slot i bank bt : ready b = Some (slot, i, bank, bt) →
  selected b !! slot = Some i ∧ pending b !! (slot, i) = Some bank ∧ ∀ s j, selected b !! s = Some j → slot ≤ s.
Proof.
  unfold ready. destruct (least _) as [s|] eqn:Hl; [|done]. cbn. destruct (selected b !! s) as [j|] eqn:Hs; [|done]. cbn.
  destruct (pending b !! (s, j)) as [bk|] eqn:Hb; [|done]. cbn. destruct (pb_metadata bk) as [[c t]|]; [|done]. cbn.
  destruct (_ != _); [done|]. destruct (match pb_parent bk with Some _ => _ | None => _ end); [done|]. intros [= <- <- <- <-].
  split_and!; try done. apply least_spec in Hl as [_ Hle]. rewrite Forall_fmap, list.Forall_forall in Hle.
  intros s' j' Hs'. apply (Hle (s', j')). by apply elem_of_map_to_list.
Qed.

Lemma covered_stamp p bt (l : list ProgramEvent) slot : Forall (λ e, pe_slot e = slot) l →
  covered p (stamp config bt <$> l) = if covers p slot then stamp config bt <$> l else [].
Proof.
  intros Hl. destruct (covers p slot) eqn:Hc.
  - apply filter_all, Forall_fmap. eapply Forall_impl; [exact Hl|]. cbn. by intros e ->.
  - apply filter_none, Forall_fmap. eapply Forall_impl; [exact Hl|]. cbn. intros e ->. by rewrite Hc.
Qed.

Lemma push_program pub now g h slot i bank bt p :
  prog_ok pub p → after_published pub slot → bank_ok slot bank → Forall (λ e, pe_slot e = slot) (g (slot, i)) →
  (covers p slot = true → mine K (pb_events bank) = g (slot, i)) → covered p h = covered p (events_in (pr_live p)) →
  let p' := with_messages now (stamp config bt <$> sort_by id_before (mine K (pb_events bank))) p in
  prog_ok (Some slot) p' ∧ covered p (h ++ sent g (slot, i, bt)) = covered p (events_in (pr_live p')).
Proof.
  intros Hok Ha [Hev Hnd] Hg Hc Hh.
  assert (Hsl : Forall (λ e, pe_slot e = slot) (sort_by id_before (mine K (pb_events bank)))).
  { rewrite sort_by_perm. eapply Forall_part; [apply list.sublist_filter|]. eapply Forall_impl; [exact Hev|]. naive_solver. }
  split.
  - apply pushed_ok with (pub := pub); try done; [by apply Forall_fmap|].
    eapply StronglySorted_fmap; [|apply sort_before, NoDup_ids_filter, Hnd]. done.
  - cbn [with_messages pr_live]. rewrite events_in_app, events_in_events. unfold sent. cbn [fst snd].
    rewrite !list.filter_app. f_equal; [exact Hh|].
    rewrite (covered_stamp p bt _ slot Hsl), (covered_stamp p bt _ slot) by (by rewrite sort_by_perm).
    destruct (covers p slot); [|done]. by rewrite Hc.
Qed.

Lemma inv_published_bank n g h now b b' slot i bank bt : inv n g h b →
  pending b !! (slot, i) = Some bank → (∀ s j, selected b !! s = Some j → slot ≤ s) → Forall (λ e, pe_slot e = slot) (g (slot, i)) →
  dom (programs b') = dom (programs b) → watched b' = watched b →
  programs b' !! K = with_messages now (stamp config bt <$> sort_by id_before (mine K (pb_events bank))) <$> programs b !! K →
  highest_seen b' = highest_seen b → selected b' = delete slot (selected b) → published b' = Some slot →
  (∀ k, pending b' !! k = if k.1 <=? slot then None else pending b !! k) → inv n g (h ++ sent g (slot, i, bt)) b'.
Proof.
  intros [Is Ip Iq Ih Im Iw Ic Ik] Hbank Hleast Hg Hd Hw HK Hh Hs Hq Hp.
  destruct (Ip _ _ Hbank) as (Hbk & Ha & Hseen). cbn in Ha, Hseen.
  split; unfold seen_slot in *; rewrite ?Hh, ?Hs, ?Hq, ?Hw, ?Hd; try done.
  - intros s j [Hne Hsj]%lookup_delete_Some. rewrite Hp. cbn. specialize (Hleast _ _ Hsj). destruct (Z.leb_spec s slot); [lia|]. by apply Is.
  - intros k bk. rewrite Hp. destruct (Z.leb_spec k.1 slot); [done|]. intros Hk. destruct (Ip _ _ Hk) as (? & _ & ?).
    split_and!; try done. by intros q [= <-].
  - by intros q [= <-].
  - apply Forall_app. split.
    + eapply Forall_impl; [exact Ih|]. intros e. apply until_published_mono. intros q Hq'. specialize (Ha q Hq'). exists slot. split; [done|lia].
    + unfold sent. cbn. rewrite Forall_fmap, sort_by_perm. eapply Forall_impl; [exact Hg|]. intros e He. cbn. exists slot. split; [done|]. cbn in He |- *. lia.
  - rewrite HK. by destruct (programs b !! K).
  - intros p' HK'. rewrite HK in HK'. destruct (programs b !! K) as [p|] eqn:HKp; [|done].
    apply (inj Some) in HK'. subst p'. destruct (Ik p eq_refl) as (Hok & Hsi & Hgk & Hc).
    destruct (push_program (published b) now g h slot i bank bt p) as [Hok' Hc']; try done; [by apply (Hgk (slot, i))|].
    split_and!; try done. intros k bk. rewrite Hp. destruct (_ <=? _); [done|]. apply Hgk.
Qed.

(** The watch snapshot only ever changes together with its version. *)
Definition vle (b b' : Broker) : Prop :=
  (watch_version b < watch_version b')%nat ∨ watch_version b' = watch_version b ∧ watched b' = watched b.
Lemma vle_trans a b c : vle a b → vle b c → vle a c.
Proof. unfold vle. intros [|[? ?]] [|[? ?]]; [left; lia..|right; split; congruence]. Qed.

Lemma inv_publish n g h now b slot i bank bt : inv n g h b → ready b = Some (slot, i, bank, bt) →
  Forall (λ e, pe_slot e = slot) (g (slot, i)) →
  ∃ b', publish config iter now slot i bank bt b = Some b' ∧ inv n g (h ++ sent g (slot, i, bt)) b' ∧
    selected b' = delete slot (selected b) ∧ vle b b'.
Proof.
  intros Hi (Hsel & Hbank & Hleast)%ready_spec Hg. destruct (inv_pending _ _ _ _ Hi _ _ Hbank) as ([Hev Hnd] & _).
  unfold publish. assert (Hr : ∃ x y, remove_bank b (slot, i) = set_pending (delete (slot, i) (pending b)) x y b)
    by (unfold remove_bank; rewrite Hbank; eauto). destruct Hr as (x & y & ->).
  cbn [set_pending set_selected programs replay_bytes selected].
  destruct (publish_events now bt (sort_by id_before (pb_events bank)) (programs b) (replay_bytes b)) as (ps & total & -> & Hd & HK).
  { rewrite sort_by_perm. eapply Forall_impl; [exact Hev|]. naive_solver. }
  cbn [mbind option_bind]. match goal with |- context [fold_left remove_bank (keys_where ?f (pending ?c)) _] =>
    destruct (remove_where f c) as [Hp Hb] end.
  cbn [set_published set_replay set_selected set_pending pending] in Hp, Hb |- *. eexists. split; [done|].
  rewrite Hb. clear Hb. split; [|match goal with |- context [cleanup_locked _ _ ?t ?c] =>
    destruct (cleanup_cleaned config iter Hiter t c) as [_ (_ & _ & -> & _) _ Hv]; split; [done|exact Hv] end].
  eapply inv_cleaned; [|by apply cleanup_cleaned]. rewrite filter_sort in HK by done.
  eapply inv_published_bank; try done. intros k. cbn. rewrite Hp. destruct (Z.leb_spec k.1 slot); [done|].
  apply lookup_delete_ne. intros <-. cbn in *. lia.
Qed.

(** The banks a flush publishes. *)
Fixpoint flushed (fuel : nat) (now : nat → Z) (b : Broker) : list (Z * Z * option Z) :=
  match fuel, ready b with
  | S fuel, Some (slot, i, bank, bt) =>
      (slot, i, bt) :: match publish config iter (now 0%nat) slot i bank bt b with
                       | Some b' => flushed fuel (λ k, now (S k)) b'
                       | None => []
                       end
  | _, _ => []
  end.

(** [fuel] is enough: the loop ends because no bank is ready. *)
Lemma inv_flush_loop n g fuel now h b : inv n g h b → (∀ k, Forall (λ e, pe_slot e = k.1) (g k)) → (size (selected b) ≤ fuel)%nat →
  ∃ b', flush_loop config iter fuel now b = Some b' ∧ inv n g (h ++ mjoin (sent g <$> flushed fuel now b)) b' ∧ vle b b' ∧ ready b' = None.
Proof.
  intros Hi Hg. revert now h b Hi. induction fuel as [|fuel IH]; intros now h b Hi Hf.
  { exists b. cbn. rewrite app_nil_r. split_and!; [done..|by right|]. unfold ready.
    rewrite (map_size_empty_inv (selected b)) by lia. by rewrite map_to_list_empty. }
  cbn [flush_loop flushed]. destruct (ready b) as [[[[slot i] bank] bt]|] eqn:Hr.
  2:{ exists b. cbn. rewrite app_nil_r. split_and!; [done..|by right|done]. }
  destruct (inv_publish n g h (now 0%nat) b slot i bank bt) as (b1 & Hb1 & Hi1 & Hs & Hv); try done; [apply (Hg (slot, i))|].
  rewrite Hb1. cbn [mbind option_bind fmap list_fmap mjoin list_join]. rewrite app_assoc.
  destruct (IH (λ k, now (S k)) _ b1 Hi1) as (b' & ? & ? & ? & ?).
  { rewrite Hs. apply ready_spec in Hr as (Hsel & _). rewrite map_size_delete, Hsel. lia. }
  exists b'. split_and!; try done. by eapply vle_trans.
Qed.

(** *** Notifications, up to their flush *)

Lemma inv_observe n g h slot b : inv n g h b → slot < 2 ^ 64 - 1 →
  inv n g h (observe_slot slot b) ∧ seen_slot (observe_slot slot b) slot.
Proof.
  intros [Is Ip Iq Ih Im Iw Ic Ik] Hs. unfold observe_slot, seen_slot in *. destruct (highest_seen b) as [m|] eqn:Hm; cbn; rewrite ?Hm.
  - specialize (Im m eq_refl). split; [|eexists; split; [done|lia]]. split; unfold seen_slot; cbn; try done.
    + intros k bank Hk. destruct (Ip _ _ Hk) as (? & ? & m' & [= <-] & ?). split_and!; try done. eexists; split; [done|lia].
    + intros q Hq. destruct (Iq q Hq) as (m' & [= <-] & ?). eexists; split; [done|lia].
    + intros m' [= <-]. lia.
    + intros p HK. destruct (Ik p HK) as (? & Hsi & ? & ?). split_and!; try done. intros _. by apply Hsi.
  - assert (Hnp : ∀ k bank, pending b !! k = Some bank → False) by (intros k bank Hk; destruct (Ip _ _ Hk) as (_ & _ & ? & ? & _); done).
    assert (Hq : published b = None) by (destruct (published b) as [q|]; [|done]; destruct (Iq q eq_refl) as (? & ? & _); done).
    rewrite Hq in Ih. assert (Hu : ∀ l : list ProgramEvent, Forall (λ e, until_published None (pe_slot e)) l → l = []).
    { intros l Hl. destruct l as [|e l]; [done|]. apply list.Forall_cons in Hl as [(? & ? & _) _]. done. }
    split; [|eexists; split; [done|lia]]. split; unfold seen_slot; cbn; rewrite ?Hq, ?(Hu h Ih); try done.
    + intros k bank Hk. destruct (Hnp _ _ Hk).
    + intros m' [= <-]. lia.
    + by rewrite dom_fmap_L.
    + rewrite lookup_fmap. destruct (programs b !! K) as [p|]; cbn; [by destruct (pr_since_slot p)|done].
    + intros p'. rewrite lookup_fmap. destruct (programs b !! K) as [p|]; [|done]. cbn. intros [= <-].
      destruct (Ik p eq_refl) as ((Hr & Hss & Hb) & _). rewrite Hq in Hb. pose proof (Hu _ Hb) as Hl.
      split; [|split; [by destruct (pr_since_slot p) eqn:Hsi; cbn; rewrite ?Hsi|split; [intros k bank Hk; destruct (Hnp _ _ Hk)|]]].
      * by destruct (pr_since_slot p).
      * destruct (pr_since_slot p); cbn [with_since pr_live]; by rewrite Hl.
Qed.

Definition note (k : Z * Z) (l : list ProgramEvent) (g : Z * Z → list ProgramEvent) : Z * Z → list ProgramEvent :=
  λ j, if decide (j = k) then l else g j.
Definition entry (k : Z * Z) (b : Broker) (g : Z * Z → list ProgramEvent) : list ProgramEvent :=
  match pending b !! k with Some _ => g k | None => [] end.

Lemma inv_set_bank n g h b slot i bank l x y : inv n g h b → seen_slot b slot → after_published (published b) slot →
  bank_ok slot bank → (∀ p, programs b !! K = Some p → covers p slot = true → mine K (pb_events bank) = l) →
  inv n (note (slot, i) l g) h (set_pending (<[(slot, i) := bank]> (pending b)) x y b).
Proof.
  intros [Is Ip Iq Ih Im Iw Ic Ik] Hs Ha Hb Hl. split; try done; cbn.
  - intros s j Hsj. destruct (decide ((s, j) = (slot, i))) as [->|]; [rewrite lookup_insert_eq; eauto|].
    rewrite lookup_insert_ne by done. by apply Is.
  - intros k bk [[<- <-]|[_ Hk]]%lookup_insert_Some; [done|]. by apply Ip.
  - intros p HK. destruct (Ik p HK) as (? & ? & Hg & ?). split_and!; try done. unfold note.
    intros k bk [[<- <-]|[? Hk]]%lookup_insert_Some Hc; [by rewrite decide_True; eauto|].
    rewrite decide_False by done. by apply Hg.
Qed.

Lemma inv_set_selected n g h b slot i : inv n g h b → is_Some (pending b !! (slot, i)) →
  inv n g h (set_selected (<[slot := i]> (selected b)) b).
Proof.
  intros [Is Ip Iq Ih Im Iw Ic Ik] Hp. split; try done. cbn. intros s j [[<- <-]|[_ Hs]]%lookup_insert_Some; [done|]. by apply Is.
Qed.

Lemma entry_ok n g h b slot i : inv n g h b → let bank := default empty_bank (pending b !! (slot, i)) in
  bank_ok slot bank ∧ ∀ p, programs b !! K = Some p → covers p slot = true → mine K (pb_events bank) = entry (slot, i) b g.
Proof.
  intros Hi. unfold entry. destruct (pending b !! (slot, i)) as [bank|] eqn:Hb; cbn.
  - split; [by apply (inv_pending _ _ _ _ Hi _ _ Hb)|]. intros p HK.
    destruct (inv_program _ _ _ _ Hi _ HK) as (_ & _ & Hg & _). by apply (Hg (slot, i)).
  - split; [|done]. by split; constructor.
Qed.

Lemma not_published slot b : is_published slot b = false → after_published (published b) slot.
Proof. unfold is_published. intros Hp q Hq. rewrite Hq in Hp. lia. Qed.

Lemma observe_same slot b : let b' := observe_slot slot b in
  pending b' = pending b ∧ selected b' = selected b ∧ dead b' = dead b ∧ published b' = published b ∧
  watch_version b' = watch_version b ∧ watched b' = watched b ∧ dom (programs b') = dom (programs b).
Proof. unfold observe_slot. destruct (highest_seen b); cbn; rewrite ?dom_fmap_L; done. Qed.

Lemma vle_enforce a b : vle a b → vle a (enforce_pending_limits config b).
Proof.
  unfold enforce_pending_limits. generalize (size (pending b)). intros fuel Ha. cut (vle a (enforce_loop config fuel b)); [done|].
  revert b Ha. induction fuel as [|fuel IH]; intros b Ha; cbn [enforce_loop]; [done|]. destruct (over_limits config b); [|done].
  destruct (least _) as [slot|]; [|done]. apply IH. unfold drop_slot. by rewrite (proj2 (remove_where (λ s, s =? slot) b)).
Qed.

Lemma inv_stale n g h slot version W b : inv n g h b → seen_slot b slot → (version = watch_version b → W = watched b) →
  inv n g h (stale slot version W b) ∧
  ∀ p, programs (stale slot version W b) !! K = Some p → K ∈ W ∨ covers p slot = false.
Proof.
  intros Hi (m & Hm & Hle) Hv. pose proof (inv_highest _ _ _ _ Hi _ Hm) as Hmax. unfold stale.
  destruct (Nat.eqb_spec version (watch_version b)) as [He|Hne].
  { split; [done|]. intros p HK. left. rewrite (Hv He), (inv_watched _ _ _ _ Hi). by eapply elem_of_dom_2. }
  assert (Hsat : u64_saturating_add slot 1 = slot + 1) by (unfold saturating_add, umax; lia).
  split; [apply inv_weaken; [done|..]|].
  - apply dom_imap_L. intros k. rewrite elem_of_dom. unfold is_Some. naive_solver.
  - intros p'. rewrite map_lookup_imap. destruct (programs b !! K) as [p|] eqn:HK; [|done]. cbn. intros [= <-].
    exists p. split; [done|]. destruct (inv_program _ _ _ _ Hi _ HK) as (_ & Hs & _). destruct Hs as [s Hs]; [by rewrite Hm|].
    case_bool_decide; [by split_and!|]. split_and!; try done. intros x. unfold covers. cbn. rewrite Hs. cbn.
    intros [Hx ->]%andb_prop. apply andb_true_intro. split; [lia|done].
  - cbn. intros p'. rewrite map_lookup_imap. destruct (programs b !! K) as [p|] eqn:HK; [|done]. cbn. intros [= <-].
    case_bool_decide; [by left|right]. unfold covers. cbn. rewrite Hsat. destruct (Z.leb_spec (Z.max (default 0 (pr_since_slot p)) (slot + 1)) slot); [lia|done].
Qed.

Lemma bank_ok_extend slot bank index events : bank_ok slot bank → events_ok slot index events → index ∉ pb_transactions bank →
  bank_ok slot (mkPendingBank (pb_parent bank) ({[index]} ∪ pb_transactions bank) (pb_events bank ++ events)
    (u64_saturating_add (pb_bytes bank) (foldr Z.add 0 (event_size <$> events) `mod` 2 ^ 64)) (pb_metadata bank)).
Proof.
  intros [Hb Hn] [He Hne] Hi. rewrite list.Forall_forall in Hb, He. split; cbn.
  - apply Forall_app. split; apply list.Forall_forall; intros e Hin.
    + destruct (Hb _ Hin) as (? & ? & ?). split_and!; [done|set_solver|done].
    + destruct (He _ Hin) as (? & <- & ?). split_and!; [done|set_solver|done].
  - rewrite fmap_app. apply list.NoDup_app. split_and!; try done. intros x (e & -> & Hin)%list_elem_of_fmap (e' & Hid & Hin')%list_elem_of_fmap.
    destruct (Hb _ Hin) as (_ & Ht & _), (He _ Hin') as (_ & Ht' & _). injection Hid as _ Hid _. congruence.
Qed.

(** [K]'s events in a transaction, whatever is watched. *)
Definition full (info : TransactionInfo) (slot : Z) : list ProgramEvent := extract info slot {[K]}.

(** The bank [k] is open from now on. *)
Definition opened (k : Z * Z) (b : Broker) (g : Z * Z → list ProgramEvent) : Z * Z → list ProgramEvent := note k (entry k b g) g.

Lemma inv_opened n g h k b : inv n g h b → inv n (opened k b g) h b.
Proof.
  intros [Is Ip Iq Ih Im Iw Ic Ik]. split; try done. intros p HK. destruct (Ik p HK) as (? & ? & Hg & ?). split_and!; try done.
  intros j bank Hj Hc. unfold opened, note, entry. case_decide as Hjk; [subst j; rewrite Hj|]; by apply Hg.
Qed.

(** A transaction is late when its slot has been published, and otherwise goes
    into its bank unless the bank has it. *)
Definition noted (slot i : Z) (info : TransactionInfo) (b : Broker) (g : Z * Z → list ProgramEvent) (h : list ProgramEvent) :
    (Z * Z → list ProgramEvent) * list ProgramEvent :=
  if bool_decide (slot ∈ dead b) then (g, h)
  else if is_published slot b then (g, h ++ full info slot)
  else if bool_decide (ti_index info ∈ pb_transactions (default empty_bank (pending b !! (slot, i)))) then (g, h)
  else (note (slot, i) (entry (slot, i) b g ++ full info slot) g, h).

Lemma inv_late n g h b slot l : inv n g h b → is_published slot b = true → Forall (λ e, pe_slot e = slot) l →
  (∀ p, programs b !! K = Some p → l = [] ∨ covers p slot = false) → inv n g (h ++ l) b.
Proof.
  intros [Is Ip Iq Ih Im Iw Ic Ik] Hp Hl Hc. split; try done.
  - apply Forall_app. split; [done|]. unfold is_published in Hp. destruct (published b) as [q|]; [|done].
    eapply Forall_impl; [exact Hl|]. cbn. intros e ->. exists q. split; [done|lia].
  - intros p HK. destruct (Ik p HK) as (? & ? & ? & Hh). split_and!; try done. rewrite list.filter_app.
    rewrite (filter_none _ l), app_nil_r; [done|]. destruct (Hc p HK) as [->|Hn]; [constructor|].
    eapply Forall_impl; [exact Hl|]. cbn. intros e ->. by rewrite Hn.
Qed.

Lemma gap_covers slot reason b p : programs (gap slot reason b) !! K = Some p → covers p slot = false.
Proof.
  cbn. rewrite map_lookup_imap. destruct (programs b !! K) as [q|]; [|done]. cbn. intros [= <-]. unfold covers. cbn.
  destruct (Z.ltb_spec (Z.max (default slot (pr_gap_slot q)) slot) slot); [lia|apply andb_false_r].
Qed.

Lemma inv_transaction n g h b slot i info version W : inv n g h b → slot < 2 ^ 64 - 1 → programs_listed info →
  (version = watch_version b → W = watched b) →
  let x := transaction_entry config slot i (ti_index info) (extract info slot W) version W b in
  inv n (noted slot i info b g h).1 (noted slot i info b g h).2 x.1 ∧ vle b x.1.
Proof.
  intros Hi Hs Hl Hv. unfold transaction_entry, noted. destruct (inv_observe _ _ _ slot b Hi Hs) as [Hi1 Hseen].
  destruct (observe_same slot b) as (Ep & _ & Ed & Eq & Ev & Ew & _). set (b1 := observe_slot slot b) in *.
  destruct (inv_stale _ _ _ slot version W b1 Hi1 Hseen) as [Hi2 Hc]; [by rewrite Ev, Ew|].
  assert (Es : pending (stale slot version W b1) = pending b1 ∧ dead (stale slot version W b1) = dead b1 ∧
    published (stale slot version W b1) = published b1 ∧ highest_seen (stale slot version W b1) = highest_seen b1 ∧
    watch_version (stale slot version W b1) = watch_version b1 ∧ watched (stale slot version W b1) = watched b1)
    by (unfold stale; by destruct (_ =? _)%nat).
  clearbody b1. destruct Es as (Sp & Sd & Sq & Sh & Sv & Sw). set (b2 := stale slot version W b1) in *. clearbody b2.
  assert (Hvle : vle b b2) by (right; split; congruence).
  assert (Hfull : ∀ p, programs b2 !! K = Some p → covers p slot = true → mine K (extract info slot W) = full info slot).
  { intros p HK Hcp. destruct (Hc p HK) as [HW|]; [|congruence]. by apply extract_mine. }
  destruct (extract_ok info slot {[K]}) as [Hfs _]. unfold is_published. rewrite <- Ed, <- Eq, <- Ep, <- Sp, <- Sd, <- Sq.
  fold (is_published slot b2). case_bool_decide; [done|]. destruct (is_published slot b2) eqn:Hp.
  { assert (Hf : Forall (λ e, pe_slot e = slot) (full info slot)) by (eapply Forall_impl; [exact Hfs|]; naive_solver).
    destruct (extract info slot W) as [|e es]; cbn [fst snd].
    - split; [|done]. apply (inv_late _ _ _ _ slot); try done. intros p HK. destruct (covers p slot) eqn:Hcp; [left|by right].
      by rewrite <- (Hfull p).
    - split; [|done]. apply (inv_late _ _ _ _ slot); try done; [by apply inv_gap|]. intros p HK. right. by eapply gap_covers. }
  case_bool_decide as Hidx; [done|]. cbn [fst snd]. destruct (entry_ok _ _ _ _ slot i Hi2) as [Hbk Hent].
  split; [|by apply vle_enforce].
  apply inv_enforce, inv_set_bank; try done.
  - unfold seen_slot. by rewrite Sh.
  - by apply not_published.
  - apply bank_ok_extend; [done|apply extract_ok|done].
  - intros p HK Hcp. cbn. rewrite list.filter_app, (Hent p HK Hcp), (Hfull p HK Hcp). unfold entry. by rewrite Sp, Ep.
Qed.

Lemma inv_reopen n g h b slot i parent meta : inv n g h b → slot < 2 ^ 64 - 1 → is_published slot b = false →
  let b1 := observe_slot slot b in
  let bank := default empty_bank (pending b1 !! (slot, i)) in
  inv n (opened (slot, i) b g) h
    (set_pending (<[(slot, i) := mkPendingBank parent (pb_transactions bank) (pb_events bank) (pb_bytes bank) meta]> (pending b1))
       (pending_bytes b1) (pending_transactions b1) b1).
Proof.
  intros Hi Hs Hp. destruct (inv_observe _ _ _ slot b Hi Hs) as [Hi1 Hseen].
  destruct (observe_same slot b) as (Ep & _ & _ & Eq & _). cbv zeta.
  destruct (entry_ok _ _ _ _ slot i Hi1) as [Hbk Hent]. apply inv_set_bank; try done.
  - rewrite Eq. by apply not_published.
  - intros p HK Hc. cbn [pb_events]. rewrite (Hent p HK Hc). unfold entry. by rewrite Ep.
Qed.

Lemma observe_vle slot b : vle b (observe_slot slot b).
Proof. destruct (observe_same slot b) as (_ & _ & _ & _ & ? & ? & _). by right. Qed.

Lemma inv_metadata n g h b slot i parent count bt : inv n g h b → slot < 2 ^ 64 - 1 →
  let x := metadata_entry config slot i parent count bt b in inv n (opened (slot, i) b g) h x.1 ∧ vle b x.1.
Proof.
  intros Hi Hs. unfold metadata_entry. destruct (_ || _) eqn:Hd; [split; [by apply inv_opened|by right]|].
  apply orb_false_elim in Hd as [_ Hd]. split; [by apply inv_enforce, inv_reopen|]. apply vle_enforce, observe_vle.
Qed.

Lemma inv_status n g h b slot i parent st : inv n g h b → slot < 2 ^ 64 - 1 →
  let x := status_entry config slot i parent st b in inv n (opened (slot, i) b g) h x.1 ∧ vle b x.1.
Proof.
  intros Hi Hs. assert (Hopen : inv n (opened (slot, i) b g) h b) by (by apply inv_opened).
  assert (Hup : is_published slot b = false → ∀ c : bool, let b1 := observe_slot slot b in
    let bank := default empty_bank (pending b1 !! (slot, i)) in
    let b2 := set_pending (<[(slot, i) := mkPendingBank (match parent with Some _ => parent | None => pb_parent bank end)
      (pb_transactions bank) (pb_events bank) (pb_bytes bank) (pb_metadata bank)]> (pending b1)) (pending_bytes b1) (pending_transactions b1) b1 in
    let b3 := enforce_pending_limits config (if c then set_selected (<[slot := i]> (selected b2)) b2 else b2) in
    inv n (opened (slot, i) b g) h b3 ∧ vle b b3).
  { intros Hp c. cbv zeta. split.
    - apply inv_enforce. destruct c; [apply inv_set_selected; [by apply inv_reopen|cbn; rewrite lookup_insert_eq; eauto]|by apply inv_reopen].
    - apply vle_enforce. destruct c; apply observe_vle. }
  destruct st; unfold status_entry; try (split; [done|by right]);
    try (destruct (_ || _) eqn:Hd; [split; [done|by right]|apply orb_false_elim in Hd as [_ Hd]]);
    try (by apply (Hup Hd true)); try (by apply (Hup Hd false)).
  - destruct (commitment config); [by apply (Hup Hd true)|by apply (Hup Hd false)].
  - destruct (inv_observe _ _ _ slot b Hopen Hs) as [Hi1 Hseen]. pose proof (observe_vle slot b) as Hv.
    set (b1 := observe_slot slot b) in *. clearbody b1. cbn [fst].
    destruct (remove_where (λ s, s =? slot) (set_dead ({[slot]} ∪ dead b1) b1)) as [Hp Hb].
    split; [apply inv_enforce|apply vle_enforce; by rewrite Hb]. rewrite Hb. clear Hb. cbn in Hp.
    apply (inv_narrow _ _ _ b1); try done; cbn.
    + intros s j [Hne Hsel]%lookup_delete_Some. split; [done|]. rewrite Hp. cbn. rewrite (proj2 (Z.eqb_neq _ _)) by done.
      by apply (inv_selected _ _ _ _ Hi1).
    + intros k bank. rewrite Hp. destruct (_ =? _); [done|]. intros Hk. split; [done|]. by apply (inv_pending _ _ _ _ Hi1 _ _ Hk).
    + intros q Hq. exists q. split; [done|lia].
    + apply (inv_published _ _ _ _ Hi1).
Qed.

(** *** Subscriptions *)

Lemma inv_with_clients n g h b key p m idle : inv n g h b → programs b !! key = Some p →
  inv (if decide (key = K) then m else n) g h (set_programs (<[key := with_clients m idle p]> (programs b)) b).
Proof.
  intros [Is Ip Iq Ih Im Iw Ic Ik] Hp. split; try done; cbn.
  - rewrite dom_insert_L, Iw. apply elem_of_dom_2 in Hp. set_solver.
  - case_decide; [subst; by rewrite lookup_insert_eq|]. by rewrite lookup_insert_ne.
  - intros p' [[<- <-]|[_ HK]]%lookup_insert_Some; [exact (Ik p Hp)|by apply Ik].
Qed.

Lemma inv_other n g h b key p : inv n g h b → key ≠ K → inv n g h (refresh_watch (set_programs (<[key := p]> (programs b)) b)).
Proof.
  intros [Is Ip Iq Ih Im Iw Ic Ik] Hne. split; try done; cbn; rewrite lookup_insert_ne by done; done.
Qed.

Lemma inv_new n g h b : inv n g h b → programs b !! K = None →
  inv n g h (refresh_watch (set_programs
    (<[K := mkProgram 0 None ((λ slot, u64_saturating_add slot 1) <$> highest_seen b) None None [] []]> (programs b)) b)).
Proof.
  intros [Is Ip Iq Ih Im Iw Ic Ik] HK. split; try done; cbn; rewrite lookup_insert_eq.
  - rewrite HK in Ic. by rewrite Ic.
  - intros p [= <-]. set (p := mkProgram _ _ _ _ _ _ _).
    assert (Hno : ∀ s, seen_slot b s → covers p s = false).
    { intros s (m & Hm & Hs). specialize (Im m Hm). unfold covers, p. cbn. rewrite Hm. cbn.
      assert (Hsat : u64_saturating_add m 1 = m + 1) by (unfold saturating_add, umax; lia).
      rewrite Hsat. destruct (Z.leb_spec (m + 1) s); [lia|done]. }
    split; [|split; [|split]].
    + split; [split; [constructor|by exists []]|]. by split; constructor.
    + cbn. intros [m ->]. eauto.
    + intros k bank Hk Hc. destruct (Ip _ _ Hk) as (_ & _ & Hs). by rewrite (Hno _ Hs) in Hc.
    + cbn [p pr_live]. apply filter_none. eapply Forall_impl; [exact Ih|]. cbn. intros e (q & Hq & Hle).
      rewrite Hno; [done|]. destruct (Iq q Hq) as (m & ? & ?). exists m. split; [done|lia].
Qed.

Definition subscribed (key : Address) (res : result (list byte) Subscription) (n : Z) : Z :=
  match res with Ok _ => if decide (key = K) then n + 1 else n | Err _ => n end.

Lemma inv_subscribe n g h b now key r : inv n g h b →
  let x := subscribe config iter now key r b in inv (subscribed key x.2 n) g h x.1 ∧ vle b x.1.
Proof.
  intros Hi. unfold subscribe. pose proof (cleanup_cleaned config iter Hiter now b) as Hcl.
  pose proof (inv_cleaned _ _ _ _ _ Hi Hcl) as Hi1. pose proof (cl_version _ _ Hcl) as Hv. fold (vle b (cleanup_locked config iter now b)) in Hv.
  set (b1 := cleanup_locked config iter now b) in *. clearbody b1. destruct (_ <=? _); [done|].
  destruct (programs b1 !! key) as [p|] eqn:Hk.
  - rewrite bool_decide_eq_true_2 by eauto. cbn [negb andb set_connections programs]. rewrite Hk. cbn [fst snd subscribed].
    split; [|done]. pose proof (inv_clients _ _ _ _ Hi1) as Hc.
    pose proof (inv_with_clients _ _ _ _ key p (pr_clients p + 1) None Hi1 Hk) as Hi2.
    destruct (decide (key = K)) as [->|]; [rewrite Hk in Hc; rewrite <- Hc|]; by destruct Hi2.
  - rewrite bool_decide_eq_false_2 by (intros [? ?]; done). cbn [negb andb]. destruct (_ <=? _)%nat; [done|].
    set (p := mkProgram _ _ _ _ _ _ _). cbn [set_connections refresh_watch set_programs programs]. rewrite lookup_insert_eq.
    cbn [fst snd subscribed]. split; [|destruct Hv as [|[Hv _]]; left; cbn; lia].
    assert (Hi2 : inv n g h (refresh_watch (set_programs (<[key := p]> (programs b1)) b1))).
    { destruct (decide (key = K)) as [->|]; [by apply inv_new|by apply inv_other]. }
    pose proof (inv_with_clients _ _ _ _ key p (pr_clients p + 1) None Hi2 (lookup_insert_eq _ _ _)) as Hi3.
    pose proof (inv_clients _ _ _ _ Hi1) as Hc.
    destruct (decide (key = K)) as [->|]; [rewrite Hk in Hc; rewrite Hc|]; by destruct Hi3.
Qed.

Lemma inv_drop_subscription n g h b now key : inv n g h b → (key = K → 0 < n) →
  inv (if decide (key = K) then n - 1 else n) g h (drop_subscription now key b).
Proof.
  intros Hi Hn. unfold drop_subscription. cbn [set_connections programs]. pose proof (inv_clients _ _ _ _ Hi) as Hc.
  destruct (programs b !! key) as [p|] eqn:Hk.
  - pose proof (inv_with_clients _ _ _ _ key p (saturating_sub (pr_clients p) 1)
      (if saturating_sub (pr_clients p) 1 =? 0 then Some now else pr_idle_since p) Hi Hk) as Hi2.
    destruct (decide (key = K)) as [->|]; [|by destruct Hi2]. rewrite Hk in Hc. specialize (Hn eq_refl).
    replace (n - 1) with (saturating_sub (pr_clients p) 1) by (unfold saturating_sub; lia). by destruct Hi2.
  - destruct (decide (key = K)) as [->|]; [|by destruct Hi]. rewrite Hk in Hc. specialize (Hn eq_refl). lia.
Qed.

(** *** Every run *)

(** The broker, the snapshots of the watched programs that have been taken, the
    subscriptions of [K] that are alive, and [K]'s events. *)
Record World : Type := mkWorld {
  w_broker : Broker;
  w_snapshots : list (nat * gset Address);
  w_clients : Z;
  w_pending : Z * Z → list ProgramEvent;
  w_sent : list ProgramEvent
}.

Definition flush_sent (now : nat → Z) (x : Broker * bool) (g : Z * Z → list ProgramEvent) : list ProgramEvent :=
  if x.2 then mjoin (sent g <$> flushed (size (selected x.1)) now x.1) else [].

(** A transaction is parsed with a snapshot taken before; a subscription is
    dropped once.  [fits] restricts the transactions, for what only holds of
    those that fit. *)
Inductive step_with (fits : TransactionInfo → Z → gset Address → Prop) : World → World → Prop :=
| step_watch b S n g h : step_with fits (mkWorld b S n g h) (mkWorld b ((watch_version b, watched b) :: S) n g h)
| step_transaction b S n g h now slot i info version W b' :
    slot < 2 ^ 64 - 1 → programs_listed info → (version, W) ∈ S → fits info slot W →
    transaction_with_watch config iter now slot i (ti_index info) (extract info slot W) version W b = Some b' →
    let x := transaction_entry config slot i (ti_index info) (extract info slot W) version W b in
    let gh := noted slot i info b g h in
    step_with fits (mkWorld b S n g h) (mkWorld b' S n gh.1 (gh.2 ++ flush_sent now x gh.1))
| step_metadata b S n g h now slot i parent count bt b' :
    slot < 2 ^ 64 - 1 → metadata config iter now slot i parent count bt b = Some b' →
    let x := metadata_entry config slot i parent count bt b in
    let g' := opened (slot, i) b g in
    step_with fits (mkWorld b S n g h) (mkWorld b' S n g' (h ++ flush_sent now x g'))
| step_status b S n g h now slot i parent st b' :
    slot < 2 ^ 64 - 1 → status config iter now slot i parent st b = Some b' →
    let x := status_entry config slot i parent st b in
    let g' := opened (slot, i) b g in
    step_with fits (mkWorld b S n g h) (mkWorld b' S n g' (h ++ flush_sent now x g'))
| step_subscribe b S n g h now key r :
    let x := subscribe config iter now key r b in
    step_with fits (mkWorld b S n g h) (mkWorld x.1 S (subscribed key x.2 n) g h)
| step_drop b S n g h now key :
    (key = K → 0 < n) →
    step_with fits (mkWorld b S n g h) (mkWorld (drop_subscription now key b) S (if decide (key = K) then n - 1 else n) g h)
| step_cleanup b S n g h now : step_with fits (mkWorld b S n g h) (mkWorld (cleanup config iter now b) S n g h).

(** Any transaction. *)
Definition step : World → World → Prop := step_with (λ _ _ _, True).

Definition start : World := mkWorld new_broker [] 0 (λ _, []) [].

Definition snapshot_ok (b : Broker) (x : nat * gset Address) : Prop :=
  (x.1 ≤ watch_version b)%nat ∧ (x.1 = watch_version b → x.2 = watched b).

Definition ok (w : World) : Prop :=
  inv (w_clients w) (w_pending w) (w_sent w) (w_broker w) ∧ (∀ k, Forall (λ e, pe_slot e = k.1) (w_pending w k)) ∧
  Forall (snapshot_ok (w_broker w)) (w_snapshots w).

Lemma snapshots_vle b b' S : vle b b' → Forall (snapshot_ok b) S → Forall (snapshot_ok b') S.
Proof.
  intros Hv HS. eapply Forall_impl; [exact HS|]. intros [v W] [Hle He]. cbn in *. unfold snapshot_ok. cbn.
  destruct Hv as [|[-> ->]]; [split; lia|done].
Qed.

(** A notification, from its entry: its flush returns. *)
Lemma ok_flush n g h b S now x : inv n g h x.1 → (∀ k, Forall (λ e, pe_slot e = k.1) (g k)) → vle b x.1 →
  Forall (snapshot_ok b) S →
  ∃ b', then_flush config iter now x = Some b' ∧ ok (mkWorld b' S n g (h ++ flush_sent now x g)).
Proof.
  intros Hi Hg Hv HS. destruct x as [b1 []]; cbn in *.
  - destruct (inv_flush_loop n g (size (selected b1)) now h b1 Hi Hg) as (b' & Hf & Hi' & Hv' & _); [done|].
    exists b'. split; [exact Hf|]. split_and!; try done. apply (snapshots_vle b); [by apply (vle_trans b b1)|done].
  - exists b1. split; [done|]. unfold flush_sent. cbn. rewrite app_nil_r. split_and!; try done. by eapply snapshots_vle.
Qed.

Lemma note_slots k l g : (∀ j, Forall (λ e, pe_slot e = j.1) (g j)) → Forall (λ e, pe_slot e = k.1) l →
  ∀ j, Forall (λ e, pe_slot e = j.1) (note k l g j).
Proof. intros Hg Hl j. unfold note. case_decide; [by subst|done]. Qed.

Lemma entry_slots k b g : (∀ j, Forall (λ e, pe_slot e = j.1) (g j)) → Forall (λ e, pe_slot e = k.1) (entry k b g).
Proof. intros Hg. unfold entry. destruct (pending b !! k); [done|constructor]. Qed.

Lemma full_slots info slot : Forall (λ e, pe_slot e = slot) (full info slot).
Proof. destruct (extract_ok info slot {[K]}) as [Hf _]. eapply Forall_impl; [exact Hf|]. naive_solver. Qed.

Lemma noted_slots slot i info b g h : (∀ j, Forall (λ e, pe_slot e = j.1) (g j)) →
  ∀ j, Forall (λ e, pe_slot e = j.1) ((noted slot i info b g h).1 j).
Proof.
  intros Hg j. unfold noted. repeat case_match; try done. cbn. apply note_slots; [done|]. apply Forall_app.
  split; [by apply entry_slots|apply full_slots].
Qed.

Lemma ok_step w w' : step w w' → ok w → ok w'.
Proof.
  intros Hstep (Hi & Hg & HS). destruct Hstep as [b S n g h|b S n g h now slot i info version W b' Hs Hl Hin _ Ht x gh
    |b S n g h now slot i parent count bt b' Hs Ht x g'|b S n g h now slot i parent st b' Hs Ht x g'|b S n g h now key r x
    |b S n g h now key Hn|b S n g h now]; cbn [w_broker w_clients w_pending w_sent w_snapshots] in *.
  - split_and!; try done. by constructor.
  - rewrite list.Forall_forall in HS. destruct (HS _ Hin) as [_ Hv]. rewrite <- list.Forall_forall in HS.
    destruct (inv_transaction n g h b slot i info version W Hi Hs Hl Hv) as [Hi' Hv'].
    destruct (ok_flush _ _ _ b S now x Hi' (noted_slots _ _ _ _ _ _ Hg) Hv' HS) as (b'' & Hb & Hok).
    unfold transaction_with_watch in Ht. fold x in Ht. rewrite Hb in Ht. by injection Ht as <-.
  - destruct (inv_metadata n g h b slot i parent count bt Hi Hs) as [Hi' Hv'].
    destruct (ok_flush _ _ _ b S now x Hi' (note_slots _ _ _ Hg (entry_slots _ b _ Hg)) Hv' HS) as (b'' & Hb & Hok).
    unfold metadata in Ht. fold x in Ht. rewrite Hb in Ht. by injection Ht as <-.
  - destruct (inv_status n g h b slot i parent st Hi Hs) as [Hi' Hv'].
    destruct (ok_flush _ _ _ b S now x Hi' (note_slots _ _ _ Hg (entry_slots _ b _ Hg)) Hv' HS) as (b'' & Hb & Hok).
    unfold status in Ht. fold x in Ht. rewrite Hb in Ht. by injection Ht as <-.
  - destruct (inv_subscribe n g h b now key r Hi) as [Hi' Hv']. split_and!; try done. by eapply snapshots_vle.
  - split_and!; [by apply inv_drop_subscription|done|]. eapply snapshots_vle; [|done]. unfold drop_subscription, vle. cbn.
    destruct (programs b !! key); by right.
  - pose proof (cleanup_cleaned config iter Hiter now b) as Hc. split_and!; [by eapply inv_cleaned|done|].
    eapply snapshots_vle; [exact (cl_version _ _ Hc)|done].
Qed.

Lemma ok_start : ok start.
Proof.
  split_and!; [|intros k; constructor|constructor]. by split.
Qed.

Lemma ok_reachable w : rtc step start w → ok w.
Proof.
  intros Hr. assert (Hok : ∀ w w', rtc step w w' → ok w → ok w').
  { induction 1 as [|x y z Hxy Hyz IH]; [done|]. intros Hx. apply IH. by eapply ok_step. }
  by eapply Hok; [|apply ok_start].
Qed.
End broker.
