(* ===== verification/BrokerBounds.v ===== *)
(** * What the event broker keeps (geyser-events/src/broker.rs)

    Through every run the pending banks, the slots known dead, the replay
    buffers, the programs and the connections stay within the configured
    limits ([bounded_reachable]).  The byte counters are the sums of the sizes of
    the events and banks held, as long as no transaction's events reach 2^63 bytes
    ([exact_reachable]). *)

From Stdlib Require Import ZArith Lia.
From Stdlib Require Import Strings.Byte.
From stdpp Require Import base gmap list numbers sorting.
From S2P Require Import Prelude Borsh Events Runtime Geyser EventExtraction EventBroker.

Import Geyser.

(** ** Pending banks *)

(** The transactions the pending banks hold. *)
Definition held (m : gmap (Z * Z) PendingBank) : nat :=
  foldr (λ kb n, size (pb_transactions kb.2) + n)%nat 0%nat (map_to_list m).

Lemma held_perm (l k : list ((Z * Z) * PendingBank)) : l ≡ₚ k →
  foldr (λ kb n, size (pb_transactions kb.2) + n)%nat 0%nat l = foldr (λ kb n, size (pb_transactions kb.2) + n)%nat 0%nat k.
Proof. induction 1; cbn; lia. Qed.

Lemma held_delete m k bank : m !! k = Some bank → held m = (size (pb_transactions bank) + held (delete k m))%nat.
Proof. intros Hk. unfold held. by rewrite <- (held_perm _ _ (map_to_list_delete m k bank Hk)). Qed.

Lemma held_insert m k bank :
  (held (<[k := bank]> m) + size (pb_transactions (default empty_bank (m !! k))) = held m + size (pb_transactions bank))%nat.
Proof.
  rewrite (held_delete (<[k := bank]> m) k bank) by apply lookup_insert_eq. rewrite delete_insert_eq.
  destruct (m !! k) as [old|] eqn:Hk; cbn; [rewrite (held_delete m k old Hk); lia|]. rewrite delete_id by done. rewrite size_empty. lia.
Qed.

Record counted (b : Broker) : Prop := {
  ct_bytes : 0 ≤ pending_bytes b;
  ct_transactions : pending_transactions b = Z.of_nat (held (pending b));
  ct_bank k bank : pending b !! k = Some bank → 0 ≤ pb_bytes bank
}.

Definition fewer (b b' : Broker) : Prop :=
  pending b' ⊆ pending b ∧ pending_bytes b' ≤ pending_bytes b ∧ pending_transactions b' ≤ pending_transactions b.

Lemma fewer_trans a b c : fewer a b → fewer b c → fewer a c.
Proof. intros (? & ? & ?) (? & ? & ?). split_and!; [by transitivity (pending b)|lia..]. Qed.

Lemma remove_bank_fewer b k : counted b → counted (remove_bank b k) ∧ fewer b (remove_bank b k).
Proof.
  intros [Hb Ht Hp]. unfold remove_bank. destruct (pending b !! k) as [bank|] eqn:Hk.
  2:{ by split; [split|split_and!]. }
  pose proof (Hp _ _ Hk). rewrite (held_delete _ _ _ Hk) in Ht. split; [split|split_and!]; cbn; unfold saturating_sub; try lia.
  - intros j bk [_ Hj]%lookup_delete_Some. by eapply Hp.
  - apply delete_subseteq.
Qed.

Lemma remove_banks_fewer l b : counted b → counted (fold_left remove_bank l b) ∧ fewer b (fold_left remove_bank l b).
Proof.
  revert b. induction l as [|k l IH]; intros b Hb; cbn [fold_left]; [by split|].
  destruct (remove_bank_fewer b k Hb) as [Hc Hf]. destruct (IH _ Hc) as [? ?]. split; [done|]. by eapply fewer_trans.
Qed.

Section bounds.
Context `{KeyText} (config : Config) (iter : gmap Address Program → list (Address * Program)).
Context (Hiter : ∀ m, iter m ≡ₚ map_to_list m).

Definition within (b : Broker) : Prop := over_limits config b = false ∨ pending b = ∅.

Lemma within_fewer b b' : fewer b b' → within b → within b'.
Proof.
  intros (Hs & ? & ?) [Hw|He]; [left|right].
  - apply map_subseteq_size in Hs. unfold over_limits in *. apply orb_false_elim in Hw as [Hw Hb].
    apply orb_false_elim in Hw as [Hn%Nat.ltb_ge Ht]. rewrite (proj2 (Nat.ltb_ge _ _)) by lia. cbn. lia.
  - rewrite He in Hs. apply map_subseteq_size in Hs. rewrite map_size_empty in Hs. apply map_size_empty_inv. lia.
Qed.

(** The programs' buffers are the same. *)
Definition same_replay (b b' : Broker) : Prop :=
  replay_bytes b' = replay_bytes b ∧ dom (programs b') = dom (programs b) ∧
  ∀ k p', programs b' !! k = Some p' → ∃ p, programs b !! k = Some p ∧ pr_replay p' = pr_replay p.

Lemma same_replay_trans a b c : same_replay a b → same_replay b c → same_replay a c.
Proof.
  intros (? & ? & Hab) (? & ? & Hbc). split_and!; [congruence..|]. intros k p'' Hc.
  destruct (Hbc _ _ Hc) as (p' & Hb & ->). by apply Hab.
Qed.

Lemma imap_same_replay f b b' : replay_bytes b' = replay_bytes b → programs b' = map_imap (λ k p, Some (f k p)) (programs b) →
  (∀ k p, pr_replay (f k p) = pr_replay p) → same_replay b b'.
Proof.
  intros Hr Hp Hf. split_and!; [done| |]; rewrite Hp.
  - apply dom_imap_L. intros k. rewrite elem_of_dom. unfold is_Some. naive_solver.
  - intros k p'. rewrite map_lookup_imap. destruct (programs b !! k) as [p|]; [|done]. cbn. intros [= <-]. eauto.
Qed.

Lemma same_replay_refl b : same_replay b b.
Proof. split_and!; try done. eauto. Qed.

Lemma drop_slot_shrinks slot b : counted b → least (slots (pending b)) = Some slot →
  counted (drop_slot slot b) ∧ (size (pending (drop_slot slot b)) < size (pending b))%nat ∧ same_replay b (drop_slot slot b) ∧
  connections (drop_slot slot b) = connections b.
Proof.
  intros Hc [Hin _]%least_spec. apply elem_of_slots in Hin as (i & bank & Hin). unfold drop_slot.
  destruct (remove_banks_fewer (keys_where (λ s, s =? slot) (pending b)) b Hc) as [Hc' (Hs & _)].
  destruct (remove_where (λ s, s =? slot) b) as [Hp Hb]. set (b1 := fold_left _ _ _) in *. clearbody b1.
  split_and!.
  - by destruct Hc'.
  - cbn. assert (Hd : pending b1 ⊆ delete (slot, i) (pending b)).
    { apply map_subseteq_spec. intros k bk Hk. rewrite lookup_delete_ne; [by eapply lookup_weaken|]. intros <-.
      rewrite Hp in Hk. cbn in Hk. by rewrite Z.eqb_refl in Hk. }
    apply map_subseteq_size in Hd. rewrite map_size_delete_Some in Hd by eauto.
    assert (size (pending b) ≠ 0%nat); [|lia]. intros He%map_size_empty_inv. by rewrite He, lookup_empty in Hin.
  - rewrite Hb. by eapply imap_same_replay.
  - by rewrite Hb.
Qed.

Lemma enforce_loop_within fuel b : (size (pending b) ≤ fuel)%nat → counted b →
  let b' := enforce_loop config fuel b in
  within b' ∧ counted b' ∧ same_replay b b' ∧ connections b' = connections b.
Proof.
  revert b. induction fuel as [|fuel IH]; intros b Hf Hc; cbn [enforce_loop].
  { split_and!; [|done|apply same_replay_refl|done]. right. apply map_size_empty_inv. lia. }
  destruct (over_limits config b) eqn:Ho; [|split_and!; [by left|done|apply same_replay_refl|done]].
  destruct (least (slots (pending b))) as [slot|] eqn:Hl.
  - destruct (drop_slot_shrinks slot b Hc Hl) as (Hc' & Hs & Hr & Hn). destruct (IH (drop_slot slot b)) as (? & ? & ? & Hn'); [lia|done|].
    split_and!; [done..| |]; [by eapply same_replay_trans|by rewrite Hn'].
  - split_and!; [|done|apply same_replay_refl|done]. right. apply least_None in Hl. unfold slots in Hl.
    apply fmap_nil_inv in Hl. by apply map_to_list_empty_iff in Hl.
Qed.

Lemma trim_dead_size fuel (d : gset Z) : (size d ≤ fuel)%nat → (size (trim_dead config fuel d) ≤ max_pending_slots config)%nat.
Proof.
  revert d. induction fuel as [|fuel IH]; intros d Hd; cbn [trim_dead]; [lia|].
  destruct (Nat.ltb_spec (max_pending_slots config) (size d)) as [Hlt|Hge]; [|done].
  destruct (least (elements d)) as [slot|] eqn:Hl.
  - apply least_spec in Hl as [Hin%elem_of_elements _]. apply IH. rewrite size_difference by set_solver. rewrite size_singleton. lia.
  - apply least_None, elements_empty_inv, leibniz_equiv in Hl. rewrite Hl, size_empty in Hlt. lia.
Qed.

(** ** Replay buffers *)

Lemma evict_length p t : (length (pr_replay (evict p t).1) = length (pr_replay p) - 1)%nat.
Proof. unfold evict. destruct (pr_replay p) as [|[? []] r] eqn:Hr; cbn; rewrite ?Hr; cbn; lia. Qed.

Lemma evict_old_short fuel now p t : (length (pr_replay p) ≤ fuel)%nat →
  (length (pr_replay (evict_old config fuel now p t).1) ≤ max_events_per_program config)%nat.
Proof.
  revert p t. induction fuel as [|fuel IH]; intros p t Hf; cbn [evict_old]; [cbn; lia|].
  destruct (too_old config now p) eqn:Ho.
  - pose proof (evict_length p t) as Hl. destruct (evict p t) as [q t']. cbn in Hl. apply IH. lia.
  - unfold too_old in Ho. apply orb_false_elim in Ho as [Ho%Nat.ltb_ge _]. done.
Qed.

Abbreviation short := (λ p, (length (pr_replay p) ≤ max_events_per_program config)%nat).

Lemma evict_programs_short now l b k p : NoDup l.*1 → programs (fold_left (evict_program config now) l b) !! k = Some p →
  if decide (k ∈ l.*1) then short p else programs b !! k = Some p.
Proof.
  revert b. induction l as [|[j q] l IH]; intros b Hn; cbn [fold_left]; [done|].
  apply list.NoDup_cons in Hn as [Hj Hn]. intros Hk%IH; [|done]. cbn [fmap list_fmap].
  unfold evict_program in Hk. cbn [fst snd] in Hk. pose proof (evict_old_short (length (pr_replay q)) now q (replay_bytes b)) as Hs.
  destruct (evict_old _ _ _ _ _) as [q' t]. cbn in Hs, Hk.
  destruct (decide (k ∈ l.*1)); [by rewrite decide_True by set_solver|].
  destruct (decide (k = j)) as [->|].
  - rewrite decide_True by set_solver. rewrite lookup_insert_eq in Hk. injection Hk as <-. by apply Hs.
  - rewrite decide_False by set_solver. by rewrite lookup_insert_ne in Hk.
Qed.

Lemma older_None l acc : fold_left older l acc = None → acc = None ∧ Forall (λ kp, pr_replay kp.2 = []) l.
Proof.
  revert acc. induction l as [|[k p] l IH]; intros acc; cbn [fold_left]; [done|]. intros [Ho Hl]%IH.
  unfold older in Ho. cbn in Ho. destruct (pr_replay p) as [|[a m] r] eqn:Hr; cbn in Ho; [by split; [|constructor]|].
  destruct acc as [[? ?]|]; [destruct (_ <? _)|]; done.
Qed.

Lemma older_Some l acc k a : fold_left older l acc = Some (k, a) → acc = Some (k, a) ∨ ∃ p, (k, p) ∈ l ∧ pr_replay p ≠ [].
Proof.
  revert acc. induction l as [|[j p] l IH]; intros acc; cbn [fold_left]; [by left|]. intros [Ho|(q & ? & ?)]%IH; [|right; set_solver].
  unfold older in Ho. cbn in Ho. destruct (pr_replay p) as [|[a' m] r] eqn:Hr; cbn in Ho; [by left|].
  assert (Hp : (k, a) = (j, a') ∨ acc = Some (k, a)) by (destruct acc as [[? ?]|]; [destruct (_ <? _)|]; naive_solver).
  destruct Hp as [[= -> ->]|]; [|by left]. right. exists p. rewrite Hr. split; [by left|done].
Qed.

Lemma count_perm (l k : list (Address * Program)) : l ≡ₚ k →
  foldr (λ kp n, length (pr_replay kp.2) + n)%nat 0%nat l = foldr (λ kp n, length (pr_replay kp.2) + n)%nat 0%nat k.
Proof. induction 1; cbn; lia. Qed.

Lemma replay_count_insert (m : gmap Address Program) k p q : m !! k = Some p →
  (replay_count (<[k := q]> m) + length (pr_replay p) = replay_count m + length (pr_replay q))%nat.
Proof.
  intros Hk. rewrite <- insert_delete_eq. unfold replay_count.
  rewrite (count_perm _ _ (map_to_list_insert (delete k m) k q (lookup_delete_eq m k))).
  rewrite <- (count_perm _ _ (map_to_list_delete m k p Hk)). cbn. lia.
Qed.

Definition replay_within (b : Broker) : Prop :=
  map_Forall (λ _, short) (programs b) ∧
  (replay_bytes b ≤ max_replay_bytes config ∨ map_Forall (λ _ p, pr_replay p = []) (programs b)).

Lemma evict_bytes_within fuel b : (replay_count (programs b) ≤ fuel)%nat → map_Forall (λ _, short) (programs b) →
  replay_within (evict_bytes config iter fuel b).
Proof.
  revert b. induction fuel as [|fuel IH]; intros b Hf Hs; cbn [evict_bytes].
  { split; [done|]. right. intros k p Hk. apply nil_length_inv. pose proof (replay_count_insert _ k p p Hk).
    unfold replay_count in *. rewrite <- (count_perm _ _ (map_to_list_delete _ k p Hk)) in Hf. cbn in Hf. lia. }
  destruct (Z.ltb_spec (max_replay_bytes config) (replay_bytes b)); [|split; [done|by left]].
  destruct (fold_left older (iter (programs b)) None) as [[key a]|] eqn:Ho.
  - apply older_Some in Ho as [|(p & Hin & Hne)]; [done|]. pose proof (iter_lookup iter Hiter (programs b)) as Hl.
    rewrite list.Forall_forall in Hl. specialize (Hl _ Hin). cbn in Hl. rewrite Hl.
    pose proof (evict_length p (replay_bytes b)) as He. destruct (evict p (replay_bytes b)) as [q t]. cbn in He.
    apply IH; cbn.
    + pose proof (replay_count_insert _ key p q Hl). destruct (pr_replay p); [done|]. cbn in *. lia.
    + apply map_Forall_insert_2; [|done]. specialize (Hs _ _ Hl). cbn in Hs. lia.
  - split; [done|]. right. apply older_None in Ho as [_ Ho]. rewrite Hiter in Ho. rewrite list.Forall_forall in Ho.
    intros k p Hk. by apply (Ho (k, p)), elem_of_map_to_list.
Qed.

Lemma cleanup_within now b : replay_within (cleanup_locked config iter now b).
Proof.
  unfold cleanup_locked. cbv zeta. apply evict_bytes_within; [done|]. intros k p Hk.
  set (c := match filter _ _ with [] => _ | _ => _ end) in *.
  apply evict_programs_short in Hk; [|by apply iter_NoDup]. case_decide as Hin; [done|]. destruct Hin.
  rewrite Hiter. apply list_elem_of_fmap. exists (k, p). split; [done|]. by apply elem_of_map_to_list.
Qed.

(** ** Every run *)

Record bounded (b : Broker) : Prop := {
  bd_counted : counted b;
  bd_within : within b;
  bd_replay : replay_within b;
  bd_dead : (size (dead b) ≤ max_pending_slots config)%nat;
  bd_programs : (size (programs b) ≤ max_programs config)%nat;
  bd_connections : connections b ≤ max_connections config
}.

Lemma same_replay_within b b' : same_replay b b' → replay_within b → replay_within b'.
Proof.
  intros (Hr & _ & Hp) [Hs Hb]. split.
  - intros k p' Hk. destruct (Hp _ _ Hk) as (p & Hk' & ->). by apply (Hs k p).
  - rewrite Hr. destruct Hb as [|Hb]; [by left|right]. intros k p' Hk. destruct (Hp _ _ Hk) as (p & Hk' & ->). by apply (Hb k p).
Qed.

Lemma same_replay_size b b' : same_replay b b' → size (programs b') = size (programs b).
Proof. intros (_ & Hd & _). by rewrite <- !size_dom, Hd. Qed.

(** Within the limits, but for what [enforce_pending_limits] still has to drop. *)
Record almost (b : Broker) : Prop := {
  al_counted : counted b;
  al_replay : replay_within b;
  al_programs : (size (programs b) ≤ max_programs config)%nat;
  al_connections : connections b ≤ max_connections config
}.

Lemma bounded_almost b : bounded b → almost b.
Proof. by intros []. Qed.

Lemma almost_same b b' : almost b → same_replay b b' → counted b' → connections b' = connections b → almost b'.
Proof.
  intros [_ Hr Hp Hc] Hs Ha Hn. split; [done|by eapply same_replay_within| |by rewrite Hn]. by rewrite (same_replay_size b).
Qed.

Lemma enforce_bounded b : almost b → bounded (enforce_pending_limits config b).
Proof.
  intros Ha. unfold enforce_pending_limits.
  destruct (enforce_loop_within (size (pending b)) b) as (Hw & Hc & Hs & Hn); [done|apply Ha|].
  destruct (almost_same _ _ Ha Hs Hc Hn) as [_ Hr Hp Hcn]. set (c := enforce_loop _ _ _) in *. clearbody c.
  split; try done; [by destruct Hc|]. cbn. by apply trim_dead_size.
Qed.

Lemma cleanup_bounded now b : counted b → within b → (size (dead b) ≤ max_pending_slots config)%nat →
  (size (programs b) ≤ max_programs config)%nat → connections b ≤ max_connections config →
  bounded (cleanup_locked config iter now b).
Proof.
  intros [Hb Ht Hp] Hw Hd Hn Hc. pose proof (cleanup_within now b) as Hr.
  destruct (cleanup_cleaned config iter Hiter now b) as [P (Rc & Rp & _ & Rd & _ & _ & Rb & Rt) _ _].
  set (b' := cleanup_locked config iter now b) in *. clearbody b'. split; try done; rewrite ?Rd, ?Rc; try done.
  - split; rewrite ?Rp, ?Rb, ?Rt; assumption.
  - unfold within, over_limits in *. by rewrite Rp, Rb, Rt.
  - etrans; [|exact Hn]. rewrite <- !size_dom. apply subseteq_size. intros k [p' Hk]%elem_of_dom. specialize (P k).
    rewrite Hk in P. destruct P as (p & Hk' & _). by eapply elem_of_dom_2.
Qed.

Lemma publish_events_dom now bt events acc ps' t' :
  fold_left (publish_event config now bt) events acc = Some (ps', t') → ∃ ps t, acc = Some (ps, t) ∧ dom ps' = dom ps.
Proof.
  revert acc. induction events as [|e events IH]; intros acc; cbn [fold_left]; [eauto|].
  intros (ps1 & t1 & Hp & Hd)%IH. destruct acc as [[ps t]|]; [|done]. exists ps, t. split; [done|]. unfold publish_event in Hp.
  cbn [mbind option_bind] in Hp. destruct (key_of_text _) as [k|]; [|done]. cbn [mbind option_bind] in Hp.
  destruct (ps !! k) as [p|] eqn:Hk; injection Hp as <- _; rewrite Hd; [|done]. rewrite dom_insert_L.
  apply elem_of_dom_2 in Hk. set_solver.
Qed.

Lemma publish_bounded now slot i bank bt b b' : bounded b → publish config iter now slot i bank bt b = Some b' → bounded b'.
Proof.
  intros [Hc Hw _ Hd Hn Hcn]. unfold publish. destruct (remove_bank_fewer b (slot, i) Hc) as [Hc1 Hf1].
  pose proof (proj2 (remove_banks [(slot, i)] b)) as Eq. cbn [fold_left] in Eq.
  set (b1 := remove_bank b (slot, i)) in *. clearbody b1. cbn [set_selected programs replay_bytes].
  destruct (fold_left _ _ _) as [[ps t]|] eqn:Hf; [|done]. cbn [mbind option_bind]. intros [= <-].
  apply publish_events_dom in Hf as (? & ? & [= <- <-] & Hdom).
  match goal with |- context [fold_left remove_bank ?l ?c] =>
    pose proof (proj2 (remove_banks l c)) as Eq2; destruct (remove_banks_fewer l c) as [Hc2 Hf2]; [by destruct Hc1|] end.
  set (b2 := fold_left _ _ _) in *. clearbody b2. apply cleanup_bounded; [done|..].
  - eapply within_fewer; [|exact Hw]. by eapply fewer_trans.
  - rewrite Eq2. cbn. by rewrite Eq.
  - rewrite Eq2. cbn. by rewrite <- size_dom, Hdom, size_dom, Eq.
  - rewrite Eq2. cbn. by rewrite Eq.
Qed.

Lemma flush_bounded fuel now b b' : bounded b → flush_loop config iter fuel now b = Some b' → bounded b'.
Proof.
  revert now b. induction fuel as [|fuel IH]; intros now b Hb; cbn [flush_loop]; [by intros [= <-]|].
  destruct (ready b) as [[[[slot i] bank] bt]|]; [|by intros [= <-]].
  destruct (publish _ _ _ _ _ _ _ _) as [b1|] eqn:Hp; [|done]. cbn. apply IH. by eapply publish_bounded.
Qed.

Lemma then_flush_bounded now x b' : bounded x.1 → then_flush config iter now x = Some b' → bounded b'.
Proof. destruct x as [b []]; cbn; [apply flush_bounded|by intros ? [= <-]]. Qed.

Lemma bounded_same b b' : bounded b → same_replay b b' → connections b' = connections b → dead b' = dead b →
  pending b' = pending b → pending_bytes b' = pending_bytes b → pending_transactions b' = pending_transactions b → bounded b'.
Proof.
  intros [[Hb Ht Hp] Hw Hr Hd Hn Hc] Hs Ec Ed Ep Eb Et. split.
  - split; rewrite ?Ep, ?Eb, ?Et; assumption.
  - unfold within, over_limits in *. by rewrite Ep, Eb, Et.
  - by eapply same_replay_within.
  - by rewrite Ed.
  - by rewrite (same_replay_size b).
  - by rewrite Ec.
Qed.

Lemma observe_bounded slot b : bounded b → bounded (observe_slot slot b).
Proof.
  intros Hb. apply (bounded_same b); try done; unfold observe_slot; destruct (highest_seen b); try done; [exact (same_replay_refl b)|].
  split_and!; cbn; [done|by rewrite dom_fmap_L|]. intros k p'. rewrite lookup_fmap. destruct (programs b !! k) as [p|]; [|done].
  cbn. intros [= <-]. exists p. split; [done|]. by destruct (pr_since_slot p).
Qed.

Lemma stale_bounded slot version W b : bounded b → bounded (stale slot version W b).
Proof.
  intros Hb. unfold stale. destruct (_ =? _)%nat; [done|]. apply (bounded_same b); try done.
  eapply imap_same_replay; try done. intros k p. cbn. by case_bool_decide.
Qed.

Lemma gap_bounded slot reason b : bounded b → bounded (gap slot reason b).
Proof. intros Hb. apply (bounded_same b); try done. by eapply imap_same_replay. Qed.

(** A bank that is added or changed before the limits are enforced. *)
Lemma set_bank_almost b k bank x y : almost b → 0 ≤ pb_bytes bank → 0 ≤ x → y = Z.of_nat (held (<[k := bank]> (pending b))) →
  almost (set_pending (<[k := bank]> (pending b)) x y b).
Proof.
  intros Ha Hb Hx Hy. apply (almost_same b); try done; [exact (same_replay_refl b)|]. split; try done.
  cbn. intros j bk [[<- <-]|[_ Hj]]%lookup_insert_Some; [done|]. by apply (ct_bank _ (al_counted _ Ha) _ _ Hj).
Qed.

Lemma held_same b k bank : counted b → pb_transactions bank = pb_transactions (default empty_bank (pending b !! k)) →
  pending_transactions b = Z.of_nat (held (<[k := bank]> (pending b))).
Proof. intros Hc Hb. pose proof (held_insert (pending b) k bank) as Hh. rewrite Hb in Hh. rewrite (ct_transactions _ Hc). lia. Qed.

Lemma default_bank_bytes b k : counted b → 0 ≤ pb_bytes (default empty_bank (pending b !! k)).
Proof. intros Hc. destruct (pending b !! k) as [bank|] eqn:Hk; cbn; [by apply (ct_bank _ Hc _ _ Hk)|done]. Qed.

Lemma transaction_bounded slot i index events version W b : bounded b →
  bounded (transaction_entry config slot i index events version W b).1.
Proof.
  intros Hb. unfold transaction_entry. apply (observe_bounded slot), (stale_bounded slot version W) in Hb.
  set (c := stale _ _ _ _) in *. clearbody c. case_bool_decide; [done|]. destruct (is_published slot c).
  { destruct events; [done|]. by apply gap_bounded. }
  case_bool_decide; [done|]. apply enforce_bounded, set_bank_almost; [by apply bounded_almost|..]; cbn.
  all: pose proof (default_bank_bytes c (slot, i) (bd_counted _ Hb)); destruct (bd_counted _ Hb).
  1,2: pose proof (Z.mod_pos_bound (foldr Z.add 0 (event_size <$> events)) (2 ^ 64) eq_refl); unfold saturating_add, umax; lia.
  match goal with |- context [held (<[?k := ?bk]> ?m)] => pose proof (held_insert m k bk) as Hh end. cbn in Hh.
  rewrite size_union, size_singleton in Hh by set_solver. lia.
Qed.

Lemma metadata_bounded slot i parent count bt b : bounded b → bounded (metadata_entry config slot i parent count bt b).1.
Proof.
  intros Hb. unfold metadata_entry. destruct (_ || _); [done|]. apply (observe_bounded slot) in Hb.
  set (c := observe_slot slot b) in *. clearbody c. pose proof (default_bank_bytes c (slot, i) (bd_counted _ Hb)).
  destruct (bd_counted _ Hb). apply enforce_bounded, set_bank_almost; [by apply bounded_almost|done..|apply held_same; [apply (bd_counted _ Hb)|done]].
Qed.

Lemma almost_selected m b : almost b → almost (set_selected m b).
Proof. by intros [[] [] ? ?]. Qed.

Lemma status_bounded slot i parent st b : bounded b → bounded (status_entry config slot i parent st b).1.
Proof.
  intros Hb. pose proof (observe_bounded slot b Hb) as Hc. unfold status_entry. set (c := observe_slot slot b) in *. clearbody c.
  pose proof (default_bank_bytes c (slot, i) (bd_counted _ Hc)). pose proof (bd_counted _ Hc) as [? ? ?].
  destruct st; try done; [destruct (_ || _); [done|]..|].
  1,2,3,4: apply enforce_bounded; try destruct (commitment config); try apply almost_selected; (apply set_bank_almost; try done;
    [by apply bounded_almost|apply held_same; [apply (bd_counted _ Hc)|done]]).
  cbn [fst]. apply enforce_bounded, almost_selected.
  match goal with |- context [fold_left remove_bank ?l ?d] =>
    pose proof (proj2 (remove_banks l d)) as Eq; destruct (remove_banks_fewer l d) as [Hd _]; [done|] end.
  set (d := fold_left _ _ _) in *. clearbody d. apply (almost_same c); try done; [by apply bounded_almost| |by rewrite Eq].
  rewrite Eq. exact (same_replay_refl c).
Qed.

Lemma with_clients_same key p m idle b b' : programs b !! key = Some p → replay_bytes b' = replay_bytes b →
  programs b' = <[key := with_clients m idle p]> (programs b) → same_replay b b'.
Proof.
  intros Hk Hr Hp. split_and!; [done|..]; rewrite Hp.
  - rewrite dom_insert_L. apply elem_of_dom_2 in Hk. set_solver.
  - intros j q [[<- <-]|[_ Hj]]%lookup_insert_Some; eauto.
Qed.

Lemma subscribe_bounded now key r b : bounded b → bounded (subscribe config iter now key r b).1.
Proof.
  intros [Hc Hw _ Hd Hn Hcn]. pose proof (cleanup_bounded now b Hc Hw Hd Hn Hcn) as Hb. unfold subscribe.
  set (c := cleanup_locked config iter now b) in *. clearbody c. clear Hc Hw Hd Hn Hcn.
  destruct (Z.leb_spec (max_connections config) (connections c)); [done|].
  destruct Hb as [Hc Hw Hr Hd Hn Hcn]. destruct (programs c !! key) as [p|] eqn:Hk.
  - rewrite bool_decide_eq_true_2 by eauto. cbn [negb andb set_connections programs]. rewrite Hk. cbn [fst].
    match goal with |- bounded ?d => assert (Hs : same_replay c d) by (by eapply with_clients_same) end.
    split; try done; [by destruct Hc|by eapply same_replay_within|by rewrite (same_replay_size c)|cbn; lia].
  - rewrite bool_decide_eq_false_2 by (intros [? ?]; done). cbn [negb andb].
    destruct (Nat.leb_spec (max_programs config) (size (programs c))); [done|].
    cbn [set_connections refresh_watch set_programs programs]. rewrite lookup_insert_eq. cbn [fst].
    rewrite insert_insert_eq. split; try done; cbn; [by destruct Hc| |rewrite map_size_insert_None by done; lia|lia].
    destruct Hr as [Hs Hr]. split; cbn.
    + apply map_Forall_insert_2; [cbn; lia|done].
    + destruct Hr as [|Hr]; [by left|right]. by apply map_Forall_insert_2.
Qed.

Lemma drop_bounded now key b : bounded b → 0 ≤ max_connections config → bounded (drop_subscription now key b).
Proof.
  intros [Hc Hw Hr Hd Hn Hcn] Hpos. unfold drop_subscription. cbn [set_connections programs].
  destruct (programs b !! key) as [p|] eqn:Hk.
  - match goal with |- bounded ?d => assert (Hs : same_replay b d) by (by eapply with_clients_same) end.
    split; try done; [by destruct Hc|by eapply same_replay_within|by rewrite (same_replay_size b)|cbn; unfold saturating_sub; lia].
  - split; try done; [by destruct Hc|cbn; unfold saturating_sub; lia].
Qed.

Lemma new_bounded : 0 ≤ max_connections config → bounded new_broker.
Proof.
  intros Hm. split; cbn; try lia.
  - by split.
  - by right.
  - split; [apply map_Forall_empty|right; apply map_Forall_empty].
  - rewrite size_empty. lia.
  - rewrite map_size_empty. lia.
Qed.

Lemma step_bounded K fits w w' :
  0 ≤ max_connections config → step_with config iter K fits w w' → bounded (w_broker w) → bounded (w_broker w').
Proof.
  intros Hm Hs Hb. destruct Hs as [| b S n g h now slot i info version W b' _ _ _ _ Ht| b S n g h now slot i parent count bt b' _ Ht
    |b S n g h now slot i parent st b' _ Ht| | |b S n g h now]; cbn in *.
  - done.
  - eapply then_flush_bounded; [|exact Ht]. by apply transaction_bounded.
  - eapply then_flush_bounded; [|exact Ht]. by apply metadata_bounded.
  - eapply then_flush_bounded; [|exact Ht]. by apply status_bounded.
  - by apply subscribe_bounded.
  - by apply drop_bounded.
  - destruct Hb. by apply cleanup_bounded.
Qed.

Lemma bounded_reachable K w : 0 ≤ max_connections config → rtc (step config iter K) start w → bounded (w_broker w).
Proof.
  intros Hm Hr. assert (Hok : ∀ w w', rtc (step config iter K) w w' → bounded (w_broker w) → bounded (w_broker w')).
  { induction 1 as [|x y z Hxy Hyz IH]; [done|]. intros Hx. apply IH. by eapply step_bounded. }
  eapply Hok; [exact Hr|]. by apply new_bounded.
Qed.
End bounds.

(** ** The bytes that are kept

    The broker's two byte counters are machine integers that it adds to and
    subtracts from.  While no sum leaves their range they are exactly the sizes
    of the events the broker holds. *)

Definition sizes (l : list ProgramEvent) : Z := foldr Z.add 0 (event_size <$> l).

(** The sum of [f] over the values of a map. *)
Definition msum `{Countable K} {A} (f : A → Z) (m : gmap K A) : Z := foldr (λ kx n, f kx.2 + n) 0 (map_to_list m).

(** The bytes of the events in the pending banks, and of those kept for replay. *)
Definition pending_size (m : gmap (Z * Z) PendingBank) : Z := msum (λ bank, sizes (pb_events bank)) m.
Definition replay_event_bytes (p : Program) : Z := sizes (replay_events p).
Definition replayed_size (ps : gmap Address Program) : Z := msum replay_event_bytes ps.

Lemma event_size_range e : 0 ≤ event_size e.
Proof. unfold event_size, saturating_add, umax. lia. Qed.

Lemma sizes_nonneg l : 0 ≤ sizes l.
Proof. unfold sizes. induction l as [|e l IH]; cbn; [done|]. pose proof (event_size_range e). lia. Qed.
Lemma sizes_app l k : sizes (l ++ k) = sizes l + sizes k.
Proof. unfold sizes. induction l as [|e l IH]; cbn; [done|]. cbn in IH. lia. Qed.
Lemma sizes_perm l k : l ≡ₚ k → sizes l = sizes k.
Proof. unfold sizes. induction 1; cbn in *; lia. Qed.

Section msum.
Context `{Countable K} {A : Type} (f : A → Z).
Implicit Types m : gmap K A.

Lemma msum_perm (l k : list (K * A)) : l ≡ₚ k → foldr (λ kx n, f kx.2 + n) 0 l = foldr (λ kx n, f kx.2 + n) 0 k.
Proof. induction 1; cbn; lia. Qed.
Lemma msum_empty : msum f (∅ : gmap K A) = 0.
Proof. unfold msum. by rewrite map_to_list_empty. Qed.
Lemma msum_delete m k x : m !! k = Some x → msum f m = f x + msum f (delete k m).
Proof. intros Hk. unfold msum. by rewrite <- (msum_perm _ _ (map_to_list_delete m k x Hk)). Qed.
Lemma msum_insert m k x : msum f (<[k := x]> m) = f x + msum f (delete k m).
Proof. rewrite (msum_delete _ k x) by apply lookup_insert_eq. by rewrite delete_insert_eq. Qed.
Lemma msum_nonneg m : (∀ x, 0 ≤ f x) → 0 ≤ msum f m.
Proof. intros Hf. unfold msum. induction (map_to_list m) as [|[k x] l IH]; cbn; [done|]. specialize (Hf x). lia. Qed.
Lemma msum_fmap m : msum f m = msum id (f <$> m).
Proof. unfold msum. rewrite map_to_list_fmap. induction (map_to_list m) as [|[k x] l IH]; cbn; [done|]. cbn in IH. by rewrite IH. Qed.
Lemma msum_ext m m' : f <$> m = f <$> m' → msum f m = msum f m'.
Proof. intros E. by rewrite !msum_fmap, E. Qed.
Lemma msum_zero m : map_Forall (λ _ x, f x = 0) m → msum f m = 0.
Proof.
  intros Hm. unfold msum. assert (Hl : Forall (λ kx, f kx.2 = 0) (map_to_list m)).
  { apply list.Forall_forall. intros [k x] Hin%elem_of_map_to_list. by apply (Hm k x). }
  induction Hl as [|[k x] l Hx _ IH]; cbn in *; lia.
Qed.
End msum.

Record exact (b : Broker) : Prop := {
  ex_bank k bank : pending b !! k = Some bank → pb_bytes bank = sizes (pb_events bank);
  ex_pending : pending_bytes b = pending_size (pending b);
  ex_replay : replay_bytes b = replayed_size (programs b)
}.

Lemma pending_size_bank b k bank : pending b !! k = Some bank → sizes (pb_events bank) ≤ pending_size (pending b).
Proof.
  intros Hk. unfold pending_size. rewrite (msum_delete _ _ k bank Hk).
  pose proof (msum_nonneg (λ bank, sizes (pb_events bank)) (delete k (pending b)) (λ _, sizes_nonneg _)). lia.
Qed.

Lemma remove_bank_exact b k : exact b → exact (remove_bank b k).
Proof.
  intros [Hb Hp Hr]. unfold remove_bank. destruct (pending b !! k) as [bank|] eqn:Hk; [|done]. split; cbn.
  - intros j bk [_ Hj]%lookup_delete_Some. by eapply Hb.
  - pose proof (pending_size_bank b k bank Hk). rewrite (Hb _ _ Hk), Hp. unfold pending_size, saturating_sub in *.
    rewrite (msum_delete _ _ k bank Hk) in *. lia.
  - done.
Qed.

Lemma remove_banks_exact l b : exact b → exact (fold_left remove_bank l b).
Proof. revert b. induction l as [|k l IH]; intros b Hb; cbn [fold_left]; [done|]. by apply IH, remove_bank_exact. Qed.

Lemma same_replay_sizes b b' : same_replay b b' → replayed_size (programs b') = replayed_size (programs b).
Proof.
  intros (_ & Hd & Hp). apply msum_ext, map_eq. intros k. rewrite !lookup_fmap.
  destruct (programs b' !! k) as [p'|] eqn:Hk'.
  - destruct (Hp _ _ Hk') as (p & -> & Hr). cbn. unfold replay_event_bytes, replay_events. by rewrite Hr.
  - destruct (programs b !! k) as [p|] eqn:Hk; [|done]. apply elem_of_dom_2 in Hk. rewrite <- Hd in Hk.
    by apply not_elem_of_dom in Hk'.
Qed.

Lemma exact_same b b' : exact b → same_replay b b' → pending b' = pending b → pending_bytes b' = pending_bytes b → exact b'.
Proof.
  intros [Hb Hp Hr] Hs Ep Eb. split; [by rewrite Ep|by rewrite Ep, Eb|]. rewrite (same_replay_sizes _ _ Hs), <- Hr. apply Hs.
Qed.

Section exact.
Context `{KeyText} (config : Config) (iter : gmap Address Program → list (Address * Program)).
Context (Hiter : ∀ m, iter m ≡ₚ map_to_list m).

Lemma gap_exact slot reason b : exact b → exact (gap slot reason b).
Proof. intros Hb. apply (exact_same b); try done. by eapply imap_same_replay. Qed.

Lemma enforce_exact b : exact b → exact (enforce_pending_limits config b).
Proof.
  intros Hb. unfold enforce_pending_limits. apply (exact_same (enforce_loop config (size (pending b)) b)); try done;
    [|exact (same_replay_refl _)].
  generalize (size (pending b)). intros fuel. revert b Hb.
  induction fuel as [|fuel IH]; intros b Hb; cbn [enforce_loop]; [done|]. destruct (over_limits config b); [|done].
  destruct (least _) as [slot|]; [|done]. apply IH. unfold drop_slot. apply gap_exact.
  by destruct (remove_banks_exact (keys_where (λ s, s =? slot) (pending b)) b Hb).
Qed.

(** Dropping the first message of a buffer takes its bytes off the total. *)
Lemma evict_exact p t : replay_event_bytes p ≤ t →
  (evict p t).2 = t - replay_event_bytes p + replay_event_bytes (evict p t).1 ∧
  replay_event_bytes (evict p t).1 ≤ replay_event_bytes p.
Proof.
  unfold evict, replay_event_bytes, replay_events. destruct (pr_replay p) as [|[a [e|k i r]] l] eqn:Hr; cbn; rewrite ?Hr; cbn.
  - lia.
  - pose proof (event_size_range e). pose proof (sizes_nonneg (omap event_of ((λ x, x.2) <$> l))) as Hn. unfold sizes in Hn.
    unfold saturating_sub. lia.
  - lia.
Qed.

Lemma evict_old_exact fuel now p t : replay_event_bytes p ≤ t →
  (evict_old config fuel now p t).2 = t - replay_event_bytes p + replay_event_bytes (evict_old config fuel now p t).1 ∧
  replay_event_bytes (evict_old config fuel now p t).1 ≤ replay_event_bytes p.
Proof.
  revert p t. induction fuel as [|fuel IH]; intros p t Ht; cbn [evict_old]; [cbn; lia|].
  destruct (too_old config now p); [|cbn; lia]. pose proof (evict_exact p t Ht) as [He Hl].
  destruct (evict p t) as [q t']. cbn in He, Hl. destruct (IH q t') as [IH1 IH2]; [lia|]. lia.
Qed.

Lemma replayed_size_program ps k p : ps !! k = Some p → replay_event_bytes p ≤ replayed_size ps.
Proof.
  intros Hk. unfold replayed_size. rewrite (msum_delete _ _ k p Hk).
  pose proof (msum_nonneg replay_event_bytes (delete k ps) (λ _, sizes_nonneg _)). lia.
Qed.

Lemma replayed_size_insert ps k p q : ps !! k = Some p →
  replayed_size (<[k := q]> ps) = replayed_size ps - replay_event_bytes p + replay_event_bytes q.
Proof. intros Hk. unfold replayed_size. rewrite msum_insert, (msum_delete _ ps k p Hk). lia. Qed.

Lemma set_replay_exact ps t b : exact b → t = replayed_size ps → exact (set_replay ps t b).
Proof. by intros [Hb Hp Hr] Ht. Qed.

(** Folding over programs that are what the broker has. *)
Lemma fold_programs_exact (f : Broker → Address * Program → Broker) l b :
  (∀ b k p, exact b → programs b !! k = Some p →
     exact (f b (k, p)) ∧ ∀ j, j ≠ k → programs (f b (k, p)) !! j = programs b !! j) →
  exact b → NoDup l.*1 → Forall (λ kp, programs b !! kp.1 = Some kp.2) l → exact (fold_left f l b).
Proof.
  intros Hf. revert b. induction l as [|[k p] l IH]; intros b Hb Hn Hl; cbn [fold_left]; [done|].
  apply list.NoDup_cons in Hn as [Hk Hn]. apply list.Forall_cons in Hl as [Hp Hl]. cbn in Hp, Hk.
  destruct (Hf b k p Hb Hp) as [He Hj]. apply IH; [done..|]. apply list.Forall_forall. intros [j r] Hin. cbn. rewrite Hj.
  - rewrite list.Forall_forall in Hl. by apply (Hl (j, r)).
  - intros ->. apply Hk. apply list_elem_of_fmap. by exists (k, r).
Qed.

Lemma evict_program_exact now b k p : exact b → programs b !! k = Some p →
  exact (evict_program config now b (k, p)) ∧ ∀ j, j ≠ k → programs (evict_program config now b (k, p)) !! j = programs b !! j.
Proof.
  intros Hb Hp. pose proof (replayed_size_program _ _ _ Hp) as Hle. rewrite <- (ex_replay _ Hb) in Hle.
  unfold evict_program. cbn [fst snd].
  pose proof (evict_old_exact (length (pr_replay p)) now p (replay_bytes b) Hle) as [He _].
  destruct (evict_old _ _ _ _ _) as [q t]. cbn in He. split.
  - apply set_replay_exact; [done|]. rewrite (replayed_size_insert _ _ p) by done. rewrite <- (ex_replay _ Hb). lia.
  - intros j Hj. cbn. by rewrite lookup_insert_ne.
Qed.

Lemma evict_bytes_exact fuel b : exact b → exact (evict_bytes config iter fuel b).
Proof.
  revert b. induction fuel as [|fuel IH]; intros b Hb; cbn [evict_bytes]; [done|]. destruct (_ <? _); [|done].
  destruct (fold_left older _ _) as [[k a]|]; [|done]. destruct (programs b !! k) as [p|] eqn:Hk; [|done].
  pose proof (replayed_size_program _ _ _ Hk) as Hle. rewrite <- (ex_replay _ Hb) in Hle.
  pose proof (evict_exact p (replay_bytes b) Hle) as [He _]. destruct (evict p (replay_bytes b)) as [q t]. cbn in He.
  apply IH, set_replay_exact; [done|]. rewrite (replayed_size_insert _ _ p) by done. rewrite <- (ex_replay _ Hb). lia.
Qed.

Lemma replay_size_exact p t : replay_event_bytes p ≤ t → replay_size p t = t - replay_event_bytes p.
Proof.
  unfold replay_size, replay_event_bytes, replay_events. generalize (pr_replay p). intros l. revert t.
  induction l as [|[a [e|k i r]] l IH]; intros t; cbn; [lia| |apply IH]. intros Ht. pose proof (event_size_range e).
  pose proof (sizes_nonneg (events_in ((λ x, x.2) <$> l))). unfold sizes, events_in in *. unfold saturating_sub.
  rewrite IH by lia. lia.
Qed.

Lemma remove_program_exact b k p : exact b → programs b !! k = Some p →
  exact (remove_program b (k, p)) ∧ ∀ j, j ≠ k → programs (remove_program b (k, p)) !! j = programs b !! j.
Proof.
  intros Hb Hp. pose proof (replayed_size_program _ _ _ Hp) as Hle. rewrite <- (ex_replay _ Hb) in Hle.
  unfold remove_program. cbn [fst snd]. split.
  - apply set_replay_exact; [done|]. rewrite replay_size_exact by done. rewrite (ex_replay _ Hb). unfold replayed_size.
    rewrite (msum_delete _ _ k p Hp). lia.
  - intros j Hj. cbn. by rewrite lookup_delete_ne.
Qed.

Lemma cleanup_exact now b : exact b → exact (cleanup_locked config iter now b).
Proof.
  intros Hb. unfold cleanup_locked. apply evict_bytes_exact.
  apply fold_programs_exact; [apply evict_program_exact| |by apply iter_NoDup|by apply iter_lookup].
  assert (Hr : exact (fold_left remove_program (filter (λ kp, idle_program config now kp.2 = true) (iter (programs b))) b)).
  { apply fold_programs_exact; [apply remove_program_exact|done|..].
    - eapply sublist_NoDup; [by apply (iter_NoDup iter Hiter (programs b))|]. apply fmap_sublist, sublist_filter.
    - apply list.Forall_forall. intros kp [_ Hin]%list_elem_of_filter. pose proof (iter_lookup iter Hiter (programs b)) as Hl.
      rewrite list.Forall_forall in Hl. by apply Hl. }
  destruct (filter _ _); [done|]. by destruct Hr.
Qed.

(** The byte limits leave room for a sum of two in 64 bits. *)
Context (Hpb : 0 ≤ max_pending_bytes config < 2 ^ 63) (Hrb : 0 ≤ max_replay_bytes config < 2 ^ 63).

(** Within the limits the sizes are, and not only the counters. *)
Lemma exact_limits b : bounded config b → exact b →
  pending_size (pending b) ≤ max_pending_bytes config ∧ replayed_size (programs b) ≤ max_replay_bytes config.
Proof.
  intros [_ Hw [_ Hr] _ _ _] [_ Hp Ht]. split.
  - destruct Hw as [Ho|He]; [|rewrite He; unfold pending_size; rewrite msum_empty; lia].
    unfold over_limits in Ho. apply orb_false_elim in Ho as [_ Ho]. lia.
  - destruct Hr as [Hr|Hr]; [lia|]. unfold replayed_size. rewrite msum_zero; [lia|]. intros k p Hk.
    unfold replay_event_bytes, replay_events. by rewrite (Hr k p Hk).
Qed.

Lemma publish_events_exact now bt events ps t ps' t' :
  fold_left (publish_event config now bt) events (Some (ps, t)) = Some (ps', t') →
  t = replayed_size ps → t + sizes events < 2 ^ 64 → t' = replayed_size ps'.
Proof.
  revert ps t. induction events as [|e events IH]; intros ps t Hf Ht Hs; cbn [fold_left] in Hf; [by injection Hf as <- <-|].
  change (sizes (e :: events)) with (event_size e + sizes events) in Hs. pose proof (event_size_range e).
  unfold publish_event at 2 in Hf. cbn [mbind option_bind] in Hf.
  destruct (key_of_text _) as [k|]; cbn [mbind option_bind] in Hf.
  2:{ exfalso. clear - Hf. induction events as [|e' events IH']; [done|]. by apply IH'. }
  change (event_size (stamp config bt e)) with (event_size e) in Hf. pose proof (sizes_nonneg events).
  destruct (ps !! k) as [p|] eqn:Hk; [|by apply (IH _ _ Hf); [|lia]].
  apply (IH _ _ Hf); unfold saturating_add, umax; [|lia]. rewrite (replayed_size_insert _ _ p) by done.
  unfold replay_event_bytes, replay_events. cbn [with_message pr_replay]. rewrite fmap_app, events_in_app, sizes_app.
  change (sizes (events_in ((λ x, x.2) <$> [(now, Event (stamp config bt e))]))) with (event_size e + 0). lia.
Qed.

Lemma publish_exact now slot i bank bt b b' : bounded config b → exact b → pending b !! (slot, i) = Some bank →
  publish config iter now slot i bank bt b = Some b' → exact b'.
Proof.
  intros Hb He Hbank. destruct (exact_limits b Hb He) as [Hp Hr]. pose proof (pending_size_bank _ _ _ Hbank) as Hle.
  pose proof (remove_bank_exact b (slot, i) He) as He1. pose proof (proj2 (remove_banks [(slot, i)] b)) as Eq.
  cbn [fold_left] in Eq. unfold publish. set (b1 := remove_bank b (slot, i)) in *. clearbody b1.
  cbn [set_selected programs replay_bytes]. destruct (fold_left _ _ _) as [[ps t]|] eqn:Hf; [|done]. cbn [mbind option_bind].
  intros [= <-]. assert (E1 : replay_bytes b1 = replay_bytes b) by (by rewrite Eq).
  apply publish_events_exact in Hf; [|by destruct He1|].
  - apply cleanup_exact, remove_banks_exact. destruct He1. by split.
  - rewrite (sizes_perm _ _ (sort_by_perm _ _)), E1, (ex_replay _ He). lia.
Qed.

Lemma flush_exact fuel now b b' : bounded config b → exact b → flush_loop config iter fuel now b = Some b' → exact b'.
Proof.
  revert now b. induction fuel as [|fuel IH]; intros now b Hb He; cbn [flush_loop]; [by intros [= <-]|].
  destruct (ready b) as [[[[slot i] bank] bt]|] eqn:Hr; [|by intros [= <-]].
  destruct (publish _ _ _ _ _ _ _ _) as [b1|] eqn:Hp; [|done]. cbn. apply ready_spec in Hr as (_ & Hbank & _).
  apply IH; [by eapply publish_bounded|by eapply publish_exact].
Qed.

Lemma then_flush_exact now x b' : bounded config x.1 → exact x.1 → then_flush config iter now x = Some b' → exact b'.
Proof. destruct x as [b []]; cbn; [apply flush_exact|by intros ? ? [= <-]]. Qed.

Lemma observe_exact slot b : exact b → exact (observe_slot slot b).
Proof.
  intros Hb. apply (exact_same b); try done; unfold observe_slot; destruct (highest_seen b); try done; [exact (same_replay_refl b)|].
  split_and!; cbn; [done|by rewrite dom_fmap_L|]. intros k p'. rewrite lookup_fmap. destruct (programs b !! k) as [p|]; [|done].
  cbn. intros [= <-]. exists p. split; [done|]. by destruct (pr_since_slot p).
Qed.

Lemma stale_exact slot version W b : exact b → exact (stale slot version W b).
Proof.
  intros Hb. unfold stale. destruct (_ =? _)%nat; [done|]. apply (exact_same b); try done.
  eapply imap_same_replay; try done. intros k p. cbn. by case_bool_decide.
Qed.

(** A bank that gets the events [es]. *)
Lemma set_bank_exact b k bank es y : exact b → let old := default empty_bank (pending b !! k) in
  pb_events bank = pb_events old ++ es → pb_bytes bank = pb_bytes old + sizes es →
  exact (set_pending (<[k := bank]> (pending b)) (pending_bytes b + sizes es) y b).
Proof.
  intros [Hb Hp Hr] old Hev Hby.
  assert (Hold : pb_bytes old = sizes (pb_events old) ∧
    pending_size (pending b) = sizes (pb_events old) + pending_size (delete k (pending b))).
  { subst old. destruct (pending b !! k) as [o|] eqn:Hk; cbn.
    - split; [by eapply Hb|]. exact (msum_delete (λ bank, sizes (pb_events bank)) _ k o Hk).
    - by rewrite delete_id. }
  destruct Hold as [Ho Hsz]. split; cbn; [|rewrite Hp|done].
  - intros j bk [[<- <-]|[_ Hj]]%lookup_insert_Some; [|by eapply Hb]. rewrite Hby, Hev, sizes_app. lia.
  - unfold pending_size in *. rewrite msum_insert, Hsz, Hev, sizes_app. lia.
Qed.

(** What is known of a bank that is opened without new events. *)
Lemma reopen_exact b k bank y : exact b → let old := default empty_bank (pending b !! k) in
  pb_events bank = pb_events old → pb_bytes bank = pb_bytes old →
  exact (set_pending (<[k := bank]> (pending b)) (pending_bytes b) y b).
Proof.
  intros Hb old Hev Hby. rewrite <- (Z.add_0_r (pending_bytes b)). apply (set_bank_exact b k bank [] y Hb).
  - by rewrite app_nil_r.
  - cbn. by rewrite Hby, Z.add_0_r.
Qed.

Lemma transaction_exact slot i index events version W b : bounded config b → exact b → sizes events < 2 ^ 63 →
  exact (transaction_entry config slot i index events version W b).1.
Proof.
  intros Hb He Hs. unfold transaction_entry.
  apply (observe_bounded config slot), (stale_bounded config slot version W) in Hb.
  apply (observe_exact slot), (stale_exact slot version W) in He.
  set (c := stale _ _ _ _) in *. clearbody c. case_bool_decide; [done|]. destruct (is_published slot c).
  { destruct events; [done|]. by apply gap_exact. }
  case_bool_decide; [done|]. cbn [fst]. apply enforce_exact. destruct (exact_limits c Hb He) as [Hp _].
  pose proof (sizes_nonneg events). fold (sizes events). rewrite Z.mod_small by lia.
  set (old := default empty_bank (pending c !! (slot, i))).
  assert (Hold : 0 ≤ pb_bytes old ≤ pending_bytes c).
  { rewrite (ex_pending _ He). subst old. destruct (pending c !! (slot, i)) as [o|] eqn:Hk; cbn.
    - rewrite (ex_bank _ He _ _ Hk). split; [apply sizes_nonneg|by eapply pending_size_bank].
    - split; [done|]. apply (msum_nonneg (λ bank, sizes (pb_events bank))). intros. apply sizes_nonneg. }
  rewrite <- (ex_pending _ He) in Hp.
  replace (u64_saturating_add (pending_bytes c) (sizes events)) with (pending_bytes c + sizes events)
    by (unfold saturating_add, umax; lia).
  apply set_bank_exact; [done|done|]. cbn [pb_bytes]. fold old. unfold saturating_add, umax. lia.
Qed.

Lemma metadata_exact slot i parent count bt b : exact b → exact (metadata_entry config slot i parent count bt b).1.
Proof.
  intros Hb. unfold metadata_entry. destruct (_ || _); [done|]. apply (observe_exact slot) in Hb.
  by apply enforce_exact, reopen_exact.
Qed.

Lemma status_exact slot i parent st b : exact b → exact (status_entry config slot i parent st b).1.
Proof.
  intros Hb. pose proof (observe_exact slot b Hb) as Hc. unfold status_entry. set (c := observe_slot slot b) in *. clearbody c.
  assert (Hsel : ∀ m d, exact d → exact (set_selected m d)) by (by intros m d []).
  destruct st; try done; [destruct (_ || _); [done|]..|].
  1,2,3,4: cbn [fst]; apply enforce_exact; try destruct (commitment config); try apply Hsel; by apply reopen_exact.
  cbn [fst]. apply enforce_exact, Hsel, remove_banks_exact. by destruct Hc.
Qed.

Lemma subscribe_exact now key r b : exact b → exact (subscribe config iter now key r b).1.
Proof.
  intros Hb. apply (cleanup_exact now) in Hb. unfold subscribe. set (c := cleanup_locked config iter now b) in *. clearbody c.
  destruct (Z.leb_spec (max_connections config) (connections c)); [done|]. destruct (programs c !! key) as [p|] eqn:Hk.
  - rewrite bool_decide_eq_true_2 by eauto. cbn [negb andb set_connections programs]. rewrite Hk. cbn [fst].
    apply (exact_same c); try done. by eapply with_clients_same.
  - rewrite bool_decide_eq_false_2 by (intros [? ?]; done). cbn [negb andb].
    destruct (Nat.leb_spec (max_programs config) (size (programs c))); [done|].
    cbn [set_connections refresh_watch set_programs programs]. rewrite lookup_insert_eq. cbn [fst].
    rewrite insert_insert_eq. destruct Hb as [Hx Hy Hz]. split; [done..|]. cbn. rewrite Hz. unfold replayed_size.
    rewrite msum_insert, delete_id by done. done.
Qed.

Lemma drop_exact now key b : exact b → exact (drop_subscription now key b).
Proof.
  intros Hb. unfold drop_subscription. cbn [set_connections programs]. destruct (programs b !! key) as [p|] eqn:Hk.
  - apply (exact_same b); try done. by eapply with_clients_same.
  - by destruct Hb.
Qed.

Lemma new_exact : exact new_broker.
Proof. by split. Qed.

(** The events of a transaction fit the address space. *)
Definition small (info : TransactionInfo) (slot : Z) (W : gset Address) : Prop := sizes (extract info slot W) < 2 ^ 63.

Lemma step_exact K w w' : 0 ≤ max_connections config → step_with config iter K small w w' →
  bounded config (w_broker w) → exact (w_broker w) → exact (w_broker w').
Proof.
  intros Hm Hs Hb He. destruct Hs as [| b S n g h now slot i info version W b' _ _ _ Hsm Ht
    |b S n g h now slot i parent count bt b' _ Ht|b S n g h now slot i parent st b' _ Ht| | |b S n g h now]; cbn in *.
  - done.
  - eapply then_flush_exact; [by apply (transaction_bounded config iter)|by apply transaction_exact|exact Ht].
  - eapply then_flush_exact; [by apply (metadata_bounded config iter)|by apply metadata_exact|exact Ht].
  - eapply then_flush_exact; [by apply (status_bounded config iter)|by apply status_exact|exact Ht].
  - by apply subscribe_exact.
  - by apply drop_exact.
  - by apply cleanup_exact.
Qed.

Lemma exact_reachable K w : 0 ≤ max_connections config → rtc (step_with config iter K small) start w →
  bounded config (w_broker w) ∧ exact (w_broker w).
Proof.
  intros Hm Hr.
  assert (Hok : ∀ w w', rtc (step_with config iter K small) w w' → bounded config (w_broker w) ∧ exact (w_broker w) →
    bounded config (w_broker w') ∧ exact (w_broker w')).
  { induction 1 as [|x y z Hxy Hyz IH]; [done|]. intros [Hb He]. apply IH. split; [by eapply step_bounded|by eapply step_exact]. }
  eapply Hok; [exact Hr|]. split; [by apply new_bounded|apply new_exact].
Qed.
End exact.
