(* ===== verification/EventStream.v ===== *)
(** * What a subscriber of the event plugin receives
      (geyser-events/src/broker.rs, server.rs)

    The stream of a subscriber is the replay it was given and what its receiver
    got since.  Followed over every run, it has all the events of the program in
    the published banks, unless it says otherwise; the one case in which it does
    not say so is a transaction that was parsed with a snapshot of the watched
    programs older than the subscription. *)

From Stdlib Require Import ZArith Lia.
From Stdlib Require Import Strings.Byte.
From stdpp Require Import base gmap list numbers sorting.
From S2P Require Import Prelude Borsh Events Runtime Geyser EventExtraction EventBroker BrokerBounds.

Import Geyser.

(** ** A program's channel only grows *)

Abbreviation quiet := (Forall (λ m, is_Some (event_of m))).

(** [q] is [p] later on: a gap it does not know of was announced. *)
Definition follows (p q : Program) : Prop :=
  ∃ l, pr_live q = pr_live p ++ l ∧ (quiet l → pr_gap_slot q = pr_gap_slot p).

Lemma follows_refl p q : pr_live q = pr_live p → pr_gap_slot q = pr_gap_slot p → follows p q.
Proof. intros Hl Hg. exists []. by rewrite app_nil_r. Qed.

Lemma follows_trans p q r : follows p q → follows q r → follows p r.
Proof.
  intros (l & Hl & Hg) (k & Hk & Hg'). exists (l ++ k). rewrite Hk, Hl, <- app_assoc. split; [done|].
  intros [Hq Hq']%Forall_app. rewrite Hg' by done. by apply Hg.
Qed.

Section follow.
Context `{KeyTextLaws} (config : Config) (iter : gmap Address Program → list (Address * Program)).
Context (Hiter : ∀ m, iter m ≡ₚ map_to_list m) (K : Address).

(** The program of [K] is still there, if it has subscribers. *)
Definition kept (b b' : Broker) : Prop :=
  ∀ p, programs b !! K = Some p → 0 < pr_clients p →
    ∃ q, programs b' !! K = Some q ∧ follows p q ∧ pr_clients q = pr_clients p.

Lemma kept_same b b' : programs b' = programs b → kept b b'.
Proof. intros Hp p HK _. exists p. rewrite Hp. split_and!; [done|by apply follows_refl|done]. Qed.

Lemma kept_trans a b c : kept a b → kept b c → kept a c.
Proof.
  intros Hab Hbc p HK Hn. destruct (Hab p HK Hn) as (q & HKq & Hpq & Hc). destruct (Hbc q HKq) as (r & ? & ? & ?); [lia|].
  exists r. split_and!; [done|by eapply follows_trans|congruence].
Qed.

Lemma kept_imap f b b' : programs b' = map_imap (λ k p, Some (f k p)) (programs b) →
  (∀ p, follows p (f K p) ∧ pr_clients (f K p) = pr_clients p) → kept b b'.
Proof. intros Hp Hf p HK _. exists (f K p). rewrite Hp, map_lookup_imap, HK. destruct (Hf p). by split_and!. Qed.

Lemma kept_gap slot reason b b' : programs b' = programs b → kept b (gap slot reason b').
Proof.
  intros Hp. eapply kept_imap; [cbn; by rewrite Hp|]. intros p. split; [|done]. eexists. split; [done|].
  intros Hq. apply Forall_inv in Hq as [? Hq]. done.
Qed.

Lemma kept_observe slot b : kept b (observe_slot slot b).
Proof.
  unfold observe_slot. destruct (highest_seen b); [by apply kept_same|]. intros p HK _. cbn. rewrite lookup_fmap, HK. cbn.
  eexists. split; [done|]. destruct (pr_since_slot p); (split; [by apply follows_refl|done]).
Qed.

Lemma kept_stale slot version W b : kept b (stale slot version W b).
Proof.
  unfold stale. destruct (_ =? _)%nat; [by apply kept_same|]. eapply kept_imap; [done|]. intros p. cbn.
  case_bool_decide; (split; [by apply follows_refl|done]).
Qed.

Lemma kept_cleaned b b' : cleaned b b' → kept b b'.
Proof.
  intros [P _ _ _] p HK Hn. specialize (P K). destruct (programs b' !! K) as [q|].
  - destruct P as (p' & HK' & He). rewrite HK in HK'. injection HK' as <-. exists q.
    apply evicts_same in He as (? & _ & _ & ? & ?). split_and!; [done|by apply follows_refl|done].
  - rewrite (P p HK) in Hn. lia.
Qed.

Lemma kept_enforce b : kept b (enforce_pending_limits config b).
Proof.
  unfold enforce_pending_limits. eapply kept_trans; [|by apply kept_same]. generalize (size (pending b)). intros fuel. revert b.
  induction fuel as [|fuel IH]; intros b; cbn [enforce_loop]; [by apply kept_same|]. destruct (over_limits config b); [|by apply kept_same].
  destruct (least _) as [slot|]; [|by apply kept_same]. eapply kept_trans; [|apply IH]. unfold drop_slot. apply kept_gap.
  by rewrite (proj2 (remove_where (λ s, s =? slot) b)).
Qed.

Lemma kept_publish now slot i bank bt b b' :
  Forall (λ e, ∃ k, pe_program_id e = key_text k) (pb_events bank) → publish config iter now slot i bank bt b = Some b' → kept b b'.
Proof.
  intros Hev. unfold publish. pose proof (proj2 (remove_banks [(slot, i)] b)) as Eq. cbn [fold_left] in Eq.
  set (b1 := remove_bank b (slot, i)) in *. clearbody b1. cbn [set_selected programs replay_bytes].
  destruct (publish_events config iter Hiter K now bt (sort_by id_before (pb_events bank)) (programs b1) (replay_bytes b1))
    as (ps & t & -> & _ & HK); [by rewrite sort_by_perm|]. cbn [mbind option_bind]. intros [= <-].
  eapply kept_trans; [|by apply kept_cleaned, cleanup_cleaned]. intros p Hp _. rewrite (proj2 (remove_banks _ _)). cbn.
  rewrite HK, Eq. cbn. rewrite Hp. cbn. eexists. split; [done|]. split; [|done]. by eexists.
Qed.

Lemma kept_flush n g fuel now h b b' : inv K n g h b → (∀ k, Forall (λ e, pe_slot e = k.1) (g k)) →
  flush_loop config iter fuel now b = Some b' → kept b b'.
Proof.
  intros Hi Hg. revert now h b Hi. induction fuel as [|fuel IH]; intros now h b Hi; cbn [flush_loop]; [intros [= <-]; by apply kept_same|].
  destruct (ready b) as [[[[slot i] bank] bt]|] eqn:Hr; [|intros [= <-]; by apply kept_same].
  destruct (inv_publish config iter Hiter K n g h (now 0%nat) b slot i bank bt Hi Hr (Hg (slot, i))) as (b1 & Hb1 & Hi1 & _).
  rewrite Hb1. cbn. intros Hf. eapply kept_trans; [|by eapply IH]. eapply kept_publish; [|exact Hb1].
  apply ready_spec in Hr as (_ & Hb & _). destruct (inv_pending _ _ _ _ _ Hi _ _ Hb) as ([He _] & _).
  eapply Forall_impl; [exact He|]. naive_solver.
Qed.

Lemma kept_then_flush n g h now x b b' : inv K n g h x.1 → (∀ k, Forall (λ e, pe_slot e = k.1) (g k)) → kept b x.1 →
  then_flush config iter now x = Some b' → kept b b'.
Proof.
  intros Hi Hg Hb. destruct x as [c []]; cbn in *; [|by intros [= <-]]. intros Hf. eapply kept_trans; [exact Hb|].
  by eapply kept_flush.
Qed.

Lemma kept_transaction slot i index events version W b : kept b (transaction_entry config slot i index events version W b).1.
Proof.
  unfold transaction_entry. eapply kept_trans; [apply (kept_observe slot)|].
  eapply kept_trans; [apply (kept_stale slot version W)|]. set (c := stale _ _ _ _). clearbody c.
  case_bool_decide; [by apply kept_same|]. destruct (is_published slot c); [destruct events; [by apply kept_same|by apply kept_gap]|].
  case_bool_decide; [by apply kept_same|]. eapply kept_trans; [|apply kept_enforce]. by apply kept_same.
Qed.

Lemma kept_metadata slot i parent count bt b : kept b (metadata_entry config slot i parent count bt b).1.
Proof.
  unfold metadata_entry. destruct (_ || _); [by apply kept_same|]. eapply kept_trans; [apply (kept_observe slot)|].
  eapply kept_trans; [|apply kept_enforce]. by apply kept_same.
Qed.

Lemma kept_status slot i parent st b : kept b (status_entry config slot i parent st b).1.
Proof.
  unfold status_entry. destruct st; try (by apply kept_same); [destruct (_ || _); [by apply kept_same|]..|].
  all: eapply kept_trans; [apply (kept_observe slot)|]; eapply kept_trans; [|apply kept_enforce]; apply kept_same; try done.
  - by destruct (commitment config).
  - cbn. by rewrite (proj2 (remove_banks _ _)).
Qed.

(** With its subscribers changing. *)
Definition stays (b b' : Broker) : Prop :=
  ∀ p, programs b !! K = Some p → 0 < pr_clients p → ∃ q, programs b' !! K = Some q ∧ follows p q.

Lemma kept_stays b b' : kept b b' → stays b b'.
Proof. intros Hk p HK Hn. destruct (Hk p HK Hn) as (q & ? & ? & _). eauto. Qed.

Lemma stays_subscribe now key r b : stays b (subscribe config iter now key r b).1.
Proof.
  intros p HK Hn. destruct (kept_cleaned _ _ (cleanup_cleaned config iter Hiter now b) p HK Hn) as (q & HKq & Hf & _).
  unfold subscribe. set (c := cleanup_locked config iter now b) in *. clearbody c. destruct (_ <=? _); [eauto|].
  destruct (_ && _); [eauto|].
  set (d := set_connections _ _). assert (HKd : programs d !! K = Some q).
  { unfold d. case_bool_decide as Hk; cbn; [done|]. rewrite lookup_insert_ne; [done|]. intros ->. eauto. }
  clearbody d. destruct (programs d !! key) as [p'|] eqn:Hp'; cbn; [|eauto].
  destruct (decide (key = K)) as [->|].
  - rewrite lookup_insert_eq. eexists. split; [done|]. rewrite HKd in Hp'. injection Hp' as <-. eapply follows_trans; [exact Hf|].
    by apply follows_refl.
  - rewrite lookup_insert_ne by done. eauto.
Qed.

Lemma stays_drop now key b : stays b (drop_subscription now key b).
Proof.
  intros p HK _. unfold drop_subscription. cbn [set_connections programs]. destruct (programs b !! key) as [p'|] eqn:Hp'.
  - cbn. destruct (decide (key = K)) as [->|].
    + rewrite lookup_insert_eq. eexists. split; [done|]. rewrite HK in Hp'. injection Hp' as <-. by apply follows_refl.
    + rewrite lookup_insert_ne by done. exists p. split; [done|by apply follows_refl].
  - exists p. split; [done|by apply follows_refl].
Qed.

Lemma stays_step w w' : step config iter K w w' → ok K w → stays (w_broker w) (w_broker w').
Proof.
  intros Hs (Hi & Hg & HS). destruct Hs as [b S n g h|b S n g h now slot i info version W b' Hs Hl Hin _ Ht x gh
    |b S n g h now slot i parent count bt b' Hs Ht x g'|b S n g h now slot i parent st b' Hs Ht x g'|b S n g h now key r x
    |b S n g h now key Hn|b S n g h now]; cbn [w_broker w_clients w_pending w_sent w_snapshots] in *.
  - by apply kept_stays, kept_same.
  - rewrite list.Forall_forall in HS. destruct (HS _ Hin) as [_ Hv].
    destruct (inv_transaction config iter Hiter K n g h b slot i info version W Hi Hs Hl Hv) as [Hi' _].
    apply kept_stays. eapply kept_then_flush; [exact Hi'|by apply noted_slots|apply kept_transaction|exact Ht].
  - destruct (inv_metadata config K n g h b slot i parent count bt Hi Hs) as [Hi' _].
    apply kept_stays. eapply kept_then_flush; [exact Hi'|by apply note_slots, entry_slots|apply kept_metadata|exact Ht].
  - destruct (inv_status config K n g h b slot i parent st Hi Hs) as [Hi' _].
    apply kept_stays. eapply kept_then_flush; [exact Hi'|by apply note_slots, entry_slots|apply kept_status|exact Ht].
  - apply stays_subscribe.
  - apply stays_drop.
  - by apply kept_stays, kept_cleaned, cleanup_cleaned.
Qed.

(** A run through which [K] keeps a subscriber. *)
Definition alive (w w' : World) : Prop := step config iter K w w' ∧ 0 < w_clients w'.

Lemma alive_follows w w' p : rtc alive w w' → ok K w → 0 < w_clients w → programs (w_broker w) !! K = Some p →
  ok K w' ∧ ∃ q, programs (w_broker w') !! K = Some q ∧ follows p q.
Proof.
  intros Hr. revert p. induction Hr as [w|w w1 w2 [Hs Hn1] Hr IH]; intros p Hok Hn HK.
  { split; [done|]. exists p. split; [done|by apply follows_refl]. }
  assert (Hc : pr_clients p = w_clients w) by (destruct Hok as (Hi & _); pose proof (inv_clients _ _ _ _ _ Hi) as Hc; by rewrite HK in Hc).
  destruct (stays_step w w1 Hs Hok p HK) as (q & HKq & Hf); [lia|].
  destruct (IH q (ok_step config iter Hiter K w w1 Hs Hok) Hn1 HKq) as (? & r & ? & ?).
  split; [done|]. exists r. split; [done|]. by eapply follows_trans.
Qed.
End follow.

(** ** The stream *)

Lemma accepts_after r e x : accepts r (event_id e) = true → before e x →
  accepts (mkResume (Some (event_id e)) (from_slot r)) (event_id x) = accepts r (event_id x).
Proof.
  unfold accepts. cbn. intros [He _]%andb_prop Hx. rewrite (bool_decide_eq_true_2 (EventId.lt _ _)) by done. f_equal.
  destruct (after r) as [a|]; [|done]. apply bool_decide_eq_true_1 in He. symmetry. apply bool_decide_eq_true_2. by transitivity (event_id e).
Qed.

Lemma received_events r es : StronglySorted before es → received r (Event <$> es) = Event <$> accepted r es.
Proof.
  revert r. induction es as [|e es IH]; intros r Hs; [done|]. apply StronglySorted_cons in Hs as [He Hs].
  cbn [received fmap list_fmap]. rewrite filter_cons. destruct (accepts r (event_id e)) eqn:Ha.
  - rewrite decide_True by done. cbn. f_equal. fold (Event <$> es). rewrite IH by done. f_equal. clear IH Hs.
    induction He as [|x l Hx Hl IHl]; [done|]. rewrite !filter_cons, IHl, accepts_after by done. done.
  - rewrite decide_False by done. by apply IH.
Qed.

Lemma quiet_events l : quiet l → l = Event <$> events_in l.
Proof.
  induction 1 as [|m l [e He] Hl IH]; [done|]. destruct m as [e'|]; [|done].
  change (events_in (Event e' :: l)) with (e' :: events_in l). cbn. by rewrite IH at 1.
Qed.

Lemma subscribe_Ok `{KeyText} config iter now key r b b' sub : subscribe config iter now key r b = (b', Ok sub) →
  ∃ p, programs b' !! key = Some p ∧ su_live sub = length (pr_live p) ∧ su_resume sub = r ∧ su_program sub = key ∧
    su_replay sub = (if must_resync r p then [resync key p (str "replay_unavailable")] else []) ++ replayed r p.
Proof.
  unfold subscribe. destruct (_ <=? _); [done|]. destruct (_ && _); [done|]. destruct (programs _ !! key) as [p|]; [|done].
  intros Hs. injection Hs as <- <-. eexists. cbn. rewrite lookup_insert_eq. by split_and!.
Qed.

(** What the stream of a subscriber that resumed has, from its program. *)
Lemma stream_complete pub r slot p q h l : prog_ok pub q → covered q h = covered q (events_in (pr_live q)) →
  replay_ok p → pr_live q = pr_live p ++ l → quiet l → pr_gap_slot q = pr_gap_slot p → pr_since_slot q = pr_since_slot p →
  requested_slot r = Some slot → must_resync r p = false →
  replayed r p ++ received r l = Event <$> accepted r h.
Proof.
  intros (_ & Hs & _) Hc [Hr (old & Ho & He)] Hl Hq Hg Hsi Hreq Hm.
  rewrite Hl, events_in_app in Hs. pose proof (StronglySorted_app_1_l _ _ _ Hs) as Hsp. pose proof (StronglySorted_app_1_r _ _ _ Hs) as Hsl.
  assert (Hf : ∀ k : list ProgramEvent, accepted r k = accepted r (covered q k)).
  { intros k. rewrite list_filter_filter. apply list_filter_iff. intros e. split; [|naive_solver].
    intros Ha. split; [done|]. unfold covers. rewrite Hg, Hsi. by eapply (accepted_covered r slot p). }
  rewrite (Hf h), Hc, <- Hf, Hl, events_in_app, list.filter_app, fmap_app. f_equal.
  - rewrite (replayed_events _ _ _ Hreq), Ho, list.filter_app. rewrite Ho in Hsp. apply StronglySorted_app_1_l in Hsp.
    by rewrite (old_not_accepted r slot p old).
  - rewrite (quiet_events l Hq) at 1. by rewrite received_events.
Qed.

Lemma clients_nonneg `{KeyText} config iter K w : rtc (step config iter K) start w → 0 ≤ w_clients w.
Proof.
  intros Hr. assert (Hall : ∀ w w', rtc (step config iter K) w w' → 0 ≤ w_clients w → 0 ≤ w_clients w').
  { induction 1 as [|x y z Hxy _ IH]; [done|]. intros Hx. apply IH. destruct Hxy; cbn in *; try done.
    - unfold subscribed. repeat case_match; lia.
    - destruct (decide (key = K)) as [->|]; [|done]. specialize (H0 eq_refl). lia. }
  by apply (Hall start w).
Qed.

(** C5: in every run of the broker, a subscriber that
    resumes (from a slot or after an event) and is given no resync notice
    receives, in its replay and from its receiver while it stays subscribed,
    exactly the events it asked for among all those its program has in the
    transactions of the banks published up to then, in increasing order; unless
    the stream says that events are missing, or a transaction that was parsed
    with an older snapshot of the watched programs moved the program's first
    covered slot. *)
Theorem resumed_stream_complete `{KeyTextLaws} config iter K w now r b1 sub slot w2 :
  (∀ m, iter m ≡ₚ map_to_list m) →
  rtc (step config iter K) start w →
  subscribe config iter now K r (w_broker w) = (b1, Ok sub) → requested_slot r = Some slot → quiet (su_replay sub) →
  rtc (alive config iter K) (mkWorld b1 (w_snapshots w) (w_clients w + 1) (w_pending w) (w_sent w)) w2 →
  ∃ p1 p2, programs b1 !! K = Some p1 ∧ programs (w_broker w2) !! K = Some p2 ∧
    take (su_live sub) (pr_live p2) = pr_live p1 ∧
    StronglySorted EventId.lt (event_id <$> events_in (pr_live p2)) ∧
    let later := drop (su_live sub) (pr_live p2) in
    (quiet later → pr_since_slot p2 = pr_since_slot p1 →
     su_replay sub ++ received (su_resume sub) later
       = Event <$> filter (λ e, accepts r (event_id e) = true) (w_sent w2)).
Proof.
  intros Hiter Hrun Hsub Hreq Hq Halive. pose proof (ok_reachable config iter Hiter K w Hrun) as Hok.
  assert (Hstep : step config iter K w (mkWorld b1 (w_snapshots w) (w_clients w + 1) (w_pending w) (w_sent w))).
  { destruct w as [b S n g h]. cbn in *. pose proof (step_subscribe config iter K (λ _ _ _, True) b S n g h now K r) as Hst. cbv zeta in Hst.
    rewrite Hsub in Hst. cbn [fst snd subscribed] in Hst. by rewrite decide_True in Hst. }
  pose proof (ok_step config iter Hiter K _ _ Hstep Hok) as Hok1. destruct (subscribe_Ok _ _ _ _ _ _ _ _ Hsub) as (p1 & HK1 & Hlive & Hres & _ & Hrep).
  destruct (must_resync r p1) eqn:Hm; [rewrite Hrep in Hq; by apply Forall_inv in Hq as [? Hq]|].
  pose proof (clients_nonneg config iter K w Hrun) as Hn.
  destruct (alive_follows config iter Hiter K _ w2 p1 Halive Hok1) as ((Hi2 & _) & p2 & HK2 & l & Hl & Hg); [cbn; lia|done|].
  exists p1, p2. destruct (inv_program _ _ _ _ _ Hi2 p2 HK2) as (Hp2 & _ & _ & Hc2).
  destruct Hok1 as (Hi1 & _). destruct (inv_program _ _ _ _ _ Hi1 p1 HK1) as ((Hr1 & _) & _).
  rewrite Hl, Hlive, take_app_length, drop_app_length, <- Hl. split_and!; [done..| |].
  - destruct Hp2 as (_ & Hs & _). by apply (StronglySorted_fmap event_id before EventId.lt).
  - cbv zeta. intros Hlq Hsi. rewrite Hrep, Hres. cbn [app]. eapply stream_complete; eauto.
Qed.

(** C13: in every run of the broker the pending banks
    and their transactions (counted exactly) stay within the configured limits or
    nothing is pending; no program replays more messages than configured; and the
    slots known dead, the programs and the connections stay within theirs.  In a
    run in which the events of each single transaction total less than 2^63
    bytes, and with byte limits below 2^63, the broker's byte counters never
    saturate or wrap: they are exactly the summed sizes of the events in the
    pending banks and of those kept for replay, and those sums are within the
    configured limits. *)
Theorem broker_stays_bounded `{KeyTextLaws} config iter K w :
  (∀ m, iter m ≡ₚ map_to_list m) → 0 ≤ max_connections config →
  let b := w_broker w in
  (rtc (step config iter K) start w →
   (pending b = ∅ ∨ (size (pending b) ≤ max_pending_slots config)%nat ∧
      Z.of_nat (held (pending b)) ≤ max_pending_transactions config) ∧
   (∀ k p, programs b !! k = Some p → (length (pr_replay p) ≤ max_events_per_program config)%nat) ∧
   (size (dead b) ≤ max_pending_slots config)%nat ∧ (size (programs b) ≤ max_programs config)%nat ∧
   connections b ≤ max_connections config) ∧
  (0 ≤ max_pending_bytes config < 2 ^ 63 → 0 ≤ max_replay_bytes config < 2 ^ 63 →
   rtc (step_with config iter K small) start w →
   pending_bytes b = pending_size (pending b) ∧ pending_size (pending b) ≤ max_pending_bytes config ∧
   replay_bytes b = replayed_size (programs b) ∧ replayed_size (programs b) ≤ max_replay_bytes config).
Proof.
  intros Hiter Hm b. split.
  - intros Hr. destruct (bounded_reachable config iter Hiter K w Hm Hr) as [Hc Hw [Hs _] Hd Hp Hcn].
    fold b in Hc, Hw, Hs, Hd, Hp, Hcn. split_and!; try done. destruct Hw as [Ho|]; [right|by left]. unfold over_limits in Ho.
    apply orb_false_elim in Ho as [Ho _]. apply orb_false_elim in Ho as [Hsz%Nat.ltb_ge Ht]. rewrite (ct_transactions _ Hc) in Ht.
    split_and!; [done|lia].
  - intros Hpb Hrb Hr. destruct (exact_reachable config iter Hiter Hpb Hrb K w Hm Hr) as [Hb He].
    destruct (exact_limits config Hpb Hrb b Hb He) as [Hp Hq]. destruct He. by split_and!.
Qed.

(** C16: in every run of the broker every notification
    returns: each loop ends with nothing left to publish, every program id of a
    pending event parses, and the notice for a lagging subscriber finds its
    program. *)
Theorem broker_never_panics `{KeyTextLaws} config iter K w :
  (∀ m, iter m ≡ₚ map_to_list m) → rtc (step config iter K) start w →
  (∀ now slot i info version W, slot < 2 ^ 64 - 1 → programs_listed info → (version, W) ∈ w_snapshots w →
     is_Some (transaction_with_watch config iter now slot i (ti_index info) (extract info slot W) version W (w_broker w))) ∧
  (∀ now slot i parent count bt, slot < 2 ^ 64 - 1 → is_Some (metadata config iter now slot i parent count bt (w_broker w))) ∧
  (∀ now slot i parent st, slot < 2 ^ 64 - 1 → is_Some (status config iter now slot i parent st (w_broker w))) ∧
  (∀ now b', flush config iter now (w_broker w) = Some b' → ready b' = None) ∧
  (0 < w_clients w → is_Some (lag_notice K (w_broker w))).
Proof.
  intros Hiter Hr. destruct (ok_reachable config iter Hiter K w Hr) as (Hi & Hg & HS). destruct w as [b S n g h]. cbn in *. split_and!.
  - intros now slot i info version W Hs Hl Hin. pose proof HS as HS'. rewrite list.Forall_forall in HS'. destruct (HS' _ Hin) as [_ Hv].
    destruct (inv_transaction config iter Hiter K n g h b slot i info version W Hi Hs Hl Hv) as [Hi' Hv'].
    destruct (ok_flush config iter Hiter K _ _ _ b S now _ Hi' (noted_slots _ _ _ _ _ _ _ Hg) Hv' HS) as (b' & Hb & _). by exists b'.
  - intros now slot i parent count bt Hs. destruct (inv_metadata config K n g h b slot i parent count bt Hi Hs) as [Hi' Hv'].
    destruct (ok_flush config iter Hiter K _ _ _ b S now _ Hi' (note_slots _ _ _ Hg (entry_slots _ b _ Hg)) Hv' HS) as (b' & Hb & _). by exists b'.
  - intros now slot i parent st Hs. destruct (inv_status config K n g h b slot i parent st Hi Hs) as [Hi' Hv'].
    destruct (ok_flush config iter Hiter K _ _ _ b S now _ Hi' (note_slots _ _ _ Hg (entry_slots _ b _ Hg)) Hv' HS) as (b' & Hb & _). by exists b'.
  - intros now b'. unfold flush. destruct (inv_flush_loop config iter Hiter K n g (size (selected b)) now h b Hi Hg) as (b'' & -> & _ & _ & Hn); [done|].
    by intros [= <-].
  - intros Hn. pose proof (inv_clients _ _ _ _ _ Hi) as Hc. unfold lag_notice. destruct (programs b !! K); [by eexists|lia].
Qed.

(** ** Resuming by identifier *)

Lemma digits_value_snoc l d : digits_value (l ++ [d]) = digits_value l * 10 + (byte_val d - 48).
Proof. unfold digits_value. by rewrite fold_left_app. Qed.

Lemma digit_val n : byte_val (byte_of_Z (48 + n mod 10)) = 48 + n mod 10.
Proof. pose proof (Z.mod_pos_bound n 10 eq_refl). rewrite byte_val_of_Z, Z.mod_small; lia. Qed.

Lemma decimal_digits_ok fuel n : 0 ≤ n < 10 ^ Z.of_nat fuel →
  digits_value (decimal_digits fuel n) = n ∧ forallb is_ascii_digit (decimal_digits fuel n) = true.
Proof.
  revert n. induction fuel as [|fuel IH]; intros n Hn; [by replace n with 0 by lia|].
  cbn [decimal_digits]. rewrite digits_value_snoc, forallb_app, digit_val. pose proof (Z.mod_pos_bound n 10 eq_refl) as Hm.
  assert (Hd : forallb is_ascii_digit [byte_of_Z (48 + n mod 10)] = true) by (cbn; unfold is_ascii_digit; rewrite digit_val; lia).
  rewrite Hd, andb_true_r. destruct (Z.ltb_spec n 10).
  - split; [|done]. rewrite Z.mod_small by lia. cbn. lia.
  - destruct (IH (n / 10)) as [-> ->].
    { rewrite Nat2Z.inj_succ, Z.pow_succ_r in Hn by lia. split; [apply Z.div_pos; lia|apply Z.div_lt_upper_bound; lia]. }
    split; [|done]. pose proof (Z.div_mod n 10 ltac:(lia)). lia.
Qed.

Lemma decimal_digits_length fuel n : fuel ≠ 0%nat → length (decimal_digits fuel n) ≠ 0%nat.
Proof. destruct fuel; [done|]. intros _. cbn [decimal_digits]. rewrite length_app. cbn. lia. Qed.

Lemma digits_no c l : forallb is_ascii_digit l = true → is_ascii_digit c = false → c ∉ l.
Proof. intros Hl Hc Hin%list_elem_of_In. rewrite forallb_forall in Hl. rewrite (Hl c Hin) in Hc. done. Qed.

Lemma split_on_app c a l : c ∉ a → split_on c (a ++ c :: l) = a :: split_on c l.
Proof.
  induction a as [|b a IH]; intros Hn; cbn [app split_on].
  - by rewrite bool_decide_eq_true_2.
  - apply not_elem_of_cons in Hn as [Hb Hn]. rewrite bool_decide_eq_false_2 by done. by rewrite IH.
Qed.
Lemma split_on_last c a : c ∉ a → split_on c a = [a].
Proof.
  induction a as [|b a IH]; intros Hn; cbn [split_on]; [done|].
  apply not_elem_of_cons in Hn as [Hb Hn]. rewrite bool_decide_eq_false_2 by done. by rewrite IH.
Qed.

Lemma decimal_ok n : in_width 64 n →
  (x3a ∉ decimal n) ∧ ∀ parts, EventId.next (decimal n :: parts) = Ok (n, parts).
Proof.
  unfold in_width. intros Hn. destruct (decimal_digits_ok 20 n) as [Hv Hd]; [unfold umax in Hn; lia|]. fold (decimal n) in Hv, Hd.
  pose proof (decimal_digits_length 20 n ltac:(lia)) as Hl. fold (decimal n) in Hl. split; [by apply (digits_no _ _ Hd)|].
  intros parts. unfold EventId.next, parse_u64.
  assert (Hplus : match decimal n with b :: l' => if b == x2b then l' else decimal n | [] => [] end = decimal n).
  { destruct (decimal n) as [|b l]; [done|]. case_bool_decide; [subst b|done]. cbn in Hd. done. }
  rewrite Hplus, Hv, Hd. destruct (Nat.ltb_spec 0 (length (decimal n))); [|lia]. cbn [andb].
  rewrite (proj2 (Z.leb_le _ _)) by lia. done.
Qed.

(** C40: the identifier the stream prints with an event, sent
    back in Last-Event-ID, parses to that identifier, whatever from_slot the
    request also has, and the subscriber resumes in that event's slot. *)
Theorem last_event_id_resumes query r i :
  in_width 64 (EventId.slot i) → in_width 64 (EventId.tx_index i) → in_width 64 (EventId.log_index i) →
  parse_resume query None = Ok r →
  parse_resume query (Some (Ok (EventId.to_string i))) = Ok (mkResume (Some i) None) ∧
  requested_slot (mkResume (Some i) None) = Some (EventId.slot i).
Proof.
  intros [Hn1 Hp1]%decimal_ok [Hn2 Hp2]%decimal_ok [Hn3 Hp3]%decimal_ok Hq. split; [|done]. unfold parse_resume in *.
  assert (Hs : EventId.from_str (EventId.to_string i) = Ok i).
  { unfold EventId.from_str, EventId.to_string. cbn [str app]. rewrite split_on_app, Hp1 by done.
    rewrite split_on_app, Hp2 by done. rewrite split_on_last, Hp3 by done. by destruct i. }
  rewrite Hs. by destruct (match query with Some (c :: query) => _ | _ => _ end).
Qed.

Lemma last_event_id_resumes_witness :
  EventId.to_string (EventId.mk 7 0 12) = str "7:0:12" ∧
  parse_resume (Some (str "from_slot=3")) (Some (Ok (EventId.to_string (EventId.mk 7 0 12)))) = Ok (mkResume (Some (EventId.mk 7 0 12)) None).
Proof. split; [by vm_compute|]. apply (last_event_id_resumes _ (mkResume None (Some 3))); try (vm_compute; split; done). Defined.

(** ** Runs *)

(** The worlds after a step, as functions. *)
Section runs.
Context `{KeyText} (config : Config) (iter : gmap Address Program → list (Address * Program)) (K : Address).

Definition on_watch (w : World) : World :=
  mkWorld (w_broker w) ((watch_version (w_broker w), watched (w_broker w)) :: w_snapshots w) (w_clients w) (w_pending w) (w_sent w).
Definition on_transaction (now : nat → Z) (slot i : Z) (info : TransactionInfo) (version : nat) (W : gset Address) (w : World) : World :=
  let x := transaction_entry config slot i (ti_index info) (extract info slot W) version W (w_broker w) in
  let gh := noted K slot i info (w_broker w) (w_pending w) (w_sent w) in
  mkWorld (default (w_broker w) (then_flush config iter now x)) (w_snapshots w) (w_clients w) gh.1 (gh.2 ++ flush_sent config iter now x gh.1).
Definition on_metadata (now : nat → Z) (slot i parent count : Z) (bt : option Z) (w : World) : World :=
  let x := metadata_entry config slot i parent count bt (w_broker w) in
  let g := opened (slot, i) (w_broker w) (w_pending w) in
  mkWorld (default (w_broker w) (then_flush config iter now x)) (w_snapshots w) (w_clients w) g (w_sent w ++ flush_sent config iter now x g).
Definition on_status (now : nat → Z) (slot i : Z) (parent : option Z) (st : SlotStatus) (w : World) : World :=
  let x := status_entry config slot i parent st (w_broker w) in
  let g := opened (slot, i) (w_broker w) (w_pending w) in
  mkWorld (default (w_broker w) (then_flush config iter now x)) (w_snapshots w) (w_clients w) g (w_sent w ++ flush_sent config iter now x g).
Definition on_subscribe (now : Z) (r : Resume) (w : World) : World :=
  let x := subscribe config iter now K r (w_broker w) in
  mkWorld x.1 (w_snapshots w) (subscribed K K x.2 (w_clients w)) (w_pending w) (w_sent w).

Context (fits : TransactionInfo → Z → gset Address → Prop).

Lemma watch_step w : step_with config iter K fits w (on_watch w).
Proof. destruct w. apply step_watch. Qed.
Lemma default_Some {A} (x : option A) a : bool_decide (is_Some x) = true → x = Some (default a x).
Proof. intros [y ->]%bool_decide_eq_true. done. Qed.
Lemma transaction_step now slot i info version W w : slot < 2 ^ 64 - 1 → programs_listed info → (version, W) ∈ w_snapshots w →
  fits info slot W →
  bool_decide (is_Some (transaction_with_watch config iter now slot i (ti_index info) (extract info slot W) version W (w_broker w))) = true →
  step_with config iter K fits w (on_transaction now slot i info version W w).
Proof. intros Hs Hl Hin Hf Hb. destruct w. apply step_transaction; try done. by apply default_Some. Qed.
Lemma metadata_step now slot i parent count bt w : slot < 2 ^ 64 - 1 →
  bool_decide (is_Some (metadata config iter now slot i parent count bt (w_broker w))) = true →
  step_with config iter K fits w (on_metadata now slot i parent count bt w).
Proof. intros Hs Hb. destruct w. apply step_metadata; [done|]. by apply default_Some. Qed.
Lemma status_step now slot i parent st w : slot < 2 ^ 64 - 1 →
  bool_decide (is_Some (status config iter now slot i parent st (w_broker w))) = true →
  step_with config iter K fits w (on_status now slot i parent st w).
Proof. intros Hs Hb. destruct w. apply step_status; [done|]. by apply default_Some. Qed.
Lemma subscribe_step now r w : step_with config iter K fits w (on_subscribe now r w).
Proof. destruct w. apply step_subscribe. Qed.
End runs.

Module StreamExample.
Import EventExample.
#[local] Existing Instance text.
#[local] Existing Instance text_laws.

Definition config : Config := mkConfig Confirmed 60 60 4 4 16 100000 8 64 100000.
Abbreviation iter := (@map_to_list Address Program (gmap Address Program) _).
Definition clock (k : nat) : Z := 1.

(** A bank of slot [s] with the transaction of the example, until it is
    confirmed. *)
Definition bank (s : Z) (version : nat) (W : gset Address) (w : World) : World :=
  on_status config iter clock s 0 (Some (s - 1)) SConfirmed
    (on_metadata config iter clock s 0 (s - 1) 1 None (on_transaction config iter p1 clock s 0 (info 0) version W w)).

(** A first subscriber, the bank of slot 7, one that resumes there, and the
    bank of slot 8. *)
Definition first : World := on_subscribe config iter p1 0 (mkResume None None) start.
Definition one : World := bank 7 (watch_version (w_broker first)) (watched (w_broker first)) (on_watch first).
Definition resume : Resume := mkResume None (Some 7).
Definition two : World := on_subscribe config iter p1 2 resume one.
Definition three : World := bank 8 (watch_version (w_broker first)) (watched (w_broker first)) two.

Lemma bank_run fits s version W w : s < 2 ^ 64 - 1 → (version, W) ∈ w_snapshots w → 0 < w_clients w → fits (info 0) s W →
  let w1 := on_transaction config iter p1 clock s 0 (info 0) version W w in
  let w2 := on_metadata config iter clock s 0 (s - 1) 1 None w1 in
  bool_decide (is_Some (transaction_with_watch config iter clock s 0 0 (extract (info 0) s W) version W (w_broker w))) = true →
  bool_decide (is_Some (metadata config iter clock s 0 (s - 1) 1 None (w_broker w1))) = true →
  bool_decide (is_Some (status config iter clock s 0 (Some (s - 1)) SConfirmed (w_broker w2))) = true →
  rtc (λ w w', step_with config iter p1 fits w w' ∧ 0 < w_clients w') w (bank s version W w).
Proof.
  intros Hs Hin Hn Hf w1 w2 H1 H2 H3. apply rtc_l with w1; [split; [by apply transaction_step; [..|apply info_listed|done|done|]|done]|].
  apply rtc_l with w2; [split; [by apply metadata_step|done]|]. apply rtc_once. split; [by apply status_step|done].
Qed.

Lemma alive_run fits w w' :
  rtc (λ w w', step_with config iter p1 fits w w' ∧ 0 < w_clients w') w w' → rtc (step_with config iter p1 fits) w w'.
Proof. induction 1 as [|x y z [Hxy _] _ IH]; [done|]. by eapply rtc_l. Qed.

Lemma run_one_with fits :
  fits (info 0) 7 (watched (w_broker first)) → rtc (step_with config iter p1 fits) start one.
Proof.
  intros Hf. eapply rtc_l; [apply (subscribe_step config iter p1 fits 0 (mkResume None None))|]. eapply rtc_l; [apply watch_step|].
  apply alive_run, bank_run; [done|left|by vm_compute|exact Hf|by vm_compute..].
Qed.
Lemma run_one : rtc (step config iter p1) start one.
Proof. by apply run_one_with. Qed.
Lemma run_one_small : rtc (step_with config iter p1 small) start one.
Proof. apply run_one_with. vm_compute. reflexivity. Qed.

Definition sub : Subscription := mkSubscription p1 (Event <$> w_sent one) 2 resume.

Lemma subscribed_two : subscribe config iter 2 p1 resume (w_broker one) = (w_broker two, Ok sub).
Proof. by vm_compute. Qed.

Lemma run_two : rtc (alive config iter p1) two three.
Proof. apply (bank_run (λ _ _ _, True)); [done|left|by vm_compute|done|by vm_compute..]. Qed.

Lemma run_three : rtc (alive config iter p1) (mkWorld (w_broker two) (w_snapshots one) (w_clients one + 1) (w_pending one) (w_sent one)) three.
Proof.
  assert (Hn : w_clients one + 1 = w_clients two) by (by vm_compute). rewrite Hn. exact run_two.
Qed.

Definition channel (w : World) : list StreamMessage := default [] (pr_live <$> programs (w_broker w) !! p1).

Definition since (w : World) : option Z := programs (w_broker w) !! p1 ≫= pr_since_slot.

Lemma quiet_check l : forallb (λ m, match event_of m with Some _ => true | None => false end) l = true → quiet l.
Proof.
  intros Hl. apply list.Forall_forall. intros m Hm%list_elem_of_In. rewrite forallb_forall in Hl. specialize (Hl m Hm).
  destruct (event_of m); [eauto|done].
Qed.

(** The watched programs are read while nobody is subscribed, slot 11 is
    published without transactions, and a subscriber asks for the events from
    slot 12 on. *)
Definition idle : World :=
  on_status config iter clock 11 0 (Some 10) SConfirmed (on_metadata config iter clock 11 0 10 0 None (on_watch start)).
Definition late : World := on_subscribe config iter p1 2 (mkResume None (Some 12)) idle.
(** The transaction of slot 12 comes with what was read before. *)
Definition lost : World := bank 12 (watch_version new_broker) (watched new_broker) late.

End StreamExample.

Import EventExample StreamExample.
#[local] Existing Instance text.
#[local] Existing Instance text_laws.

Lemma resumed_stream_complete_witness :
  length (w_sent three) = 4%nat ∧ su_replay sub ++ received resume (drop 2 (channel three)) = Event <$> w_sent three.
Proof.
  split; [by vm_compute|].
  destruct (resumed_stream_complete config iter p1 one 2 resume (w_broker two) sub 7 three) as (q1 & q2 & H1 & H2 & _ & _ & H3);
    [done|exact run_one|exact subscribed_two|done|apply quiet_check; by vm_compute|exact run_three|].
  assert (Hc : channel three = pr_live q2) by (unfold channel; by rewrite H2).
  assert (Hs2 : since three = pr_since_slot q2) by (unfold since; rewrite H2; reflexivity).
  assert (Hs1 : since two = pr_since_slot q1) by (unfold since; rewrite H1; reflexivity). rewrite Hc. etrans; [apply H3|by vm_compute].
  - rewrite <- Hc. apply quiet_check. by vm_compute.
  - rewrite <- Hs2, <- Hs1. by vm_compute.
Defined.

Lemma broker_stays_bounded_witness :
  (size (programs (w_broker one)) ≤ 4)%nat ∧ 0 < replayed_size (programs (w_broker one)) ≤ 100000.
Proof.
  destruct (broker_stays_bounded config iter p1 one) as [Hn Hb]; [done|vm_compute; done|].
  destruct (Hn run_one) as (_ & _ & _ & Hp & _). destruct Hb as (_ & _ & _ & Hr); [vm_compute; done..|exact run_one_small|].
  split; [exact Hp|]. split; [by vm_compute|exact Hr].
Defined.

Lemma broker_never_panics_witness :
  is_Some (transaction_with_watch config iter clock 8 0 0 (extract (info 0) 8 (watched (w_broker first)))
    (watch_version (w_broker first)) (watched (w_broker first)) (w_broker one)) ∧
  is_Some (lag_notice p1 (w_broker one)).
Proof.
  destruct (broker_never_panics config iter p1 one) as (Ht & _ & _ & _ & Hl); [done|exact run_one|].
  split; [|by apply Hl; vm_compute]. apply (Ht clock 8 0 (info 0)); [done|apply info_listed|left].
Defined.

(** C29: a subscriber that asked for the events from
    a slot on, was told of no gap and stays subscribed can miss an event of that
    slot without a notice: a transaction parsed with a snapshot of the watched
    programs taken before it subscribed is published without the program's
    events, which only moves the first slot that later subscribers can ask for. *)
Theorem stale_snapshot_loses_event :
  rtc (step config iter p1) start idle ∧
  subscribe config iter 2 p1 (mkResume None (Some 12)) (w_broker idle)
    = (w_broker late, Ok (mkSubscription p1 [] 0 (mkResume None (Some 12)))) ∧
  rtc (alive config iter p1) late lost ∧
  channel lost = [] ∧ published (w_broker lost) = Some 12 ∧
  filter (λ e, accepts (mkResume None (Some 12)) (event_id e) = true) (w_sent lost) ≠ [].
Proof.
  split; [|split; [|split; [|split; [|split]]]]; [|by vm_compute| |by vm_compute..].
  - eapply rtc_l; [apply watch_step|].
    apply rtc_l with (on_metadata config iter clock 11 0 10 0 None (on_watch start)); [apply metadata_step; by vm_compute|].
    apply rtc_once, status_step; by vm_compute.
  - apply (bank_run (λ _ _ _, True)); [done|left|by vm_compute|done|by vm_compute..].
Qed.
